(* ===== verification/_CoqProject ===== *)
-Q . S2P
Prelude.v
Bitops.v
Aic.v
Fifo8.v
Mailbox.v
A7iop.v
Rtkit.v
CString.v
Smc.v
Dt.v
Dart.v
Lzss.v
Mem.v
Sart.v
Gpio.v
Nvram.v
I2c.v
I2cSlaves.v
Wdt.v
Spmi.v
Uart.v
HostMem.v
Patcher.v
Macho.v
KernelRanges.v
KernelPatches.v
MachoSpec.v
Kernel.v
BootFiles.v
BootTree.v
Crc16.v
MtSpi.v
Sio.v
Spi.v
Cs42l77.v
SpiSio.v
Cipher.v
CipherModes.v
Aes.v
AesSpec.v
Aop.v
AopSpec.v
SepSim.v
SepSimSpec.v
