(* ===== verification/Prelude.v ===== *)
(** * A verification of the Apple silicon devices of the emulator

    The program is a fork of QEMU that emulates Apple's A9 and A13 machines.  What
    this library models is the code the fork adds to QEMU: the devices a guest
    kernel drives through registers, the firmware protocols behind them, and the
    code that prepares the kernel image and its device tree.  File names are relative
    to [src/].

    ** The parts and how they interact

    The machine files create the devices, map their registers and connect their
    lines.  A guest reaches a device by a load or store in its window.  Interrupts
    go through the interrupt controller to the processors.  Co-processors sit
    behind a pair of mailboxes: the register layouts of the mailbox and of the
    co-processor feed messages to RTKit, the protocol of the firmware, which
    dispatches them to end points; the management controller is such an end point
    and the buttons report through it.  Slow devices are behind the I2C and SPMI
    controllers and their buses; the touch controller and an amplifier are behind the
    SPI controller, which moves its words by hand or through the DMA controller, a
    co-processor itself.  The always-on processor exchanges packets with the guest
    through rings in guest memory and the simulated secure enclave answers messages of
    its mailbox; the AES engine works on a queue of commands in a thread of its own.
    DMA of other devices passes the DART or the SART.
    At start-up the files are taken out of their containers and decompressed, the
    kernel is unpacked, patched and copied to guest memory, regions are carved out of
    memory and the device tree is filtered, finalised and copied to the guest with
    the boot arguments.

    ** Files

    - [Prelude] (this file): what is shared.  Machine integers are [Z] with [wrap],
      [u8] to [u64] and [in_width]; the C operators have a scope of their own;
      [outcome] is the result of C code, which returns a value, stops in an
      assertion, leaves an array or a buffer, or, for a loop with fuel, runs out of
      it; [aget], [aset], [slice] and [blit] are array accesses and [memcpy] with the
      bounds written out; records are updated with [r <| f := v |>].
    - [Bitops]: [include/qemu/bitops.h], [util/bitops.c].
    - [Aic]: [hw/intc/apple_aic.c].  State [AppleAICState] with one [AppleAICCPU] per
      processor; one definition per callback; the periodic tick is
      [apple_aic_update].
    - [Fifo8]: [util/fifo8.c], [include/qemu/fifo32.h].  A ring buffer; [contents] is
      the queue it stands for.
    - [Mailbox]: [hw/misc/apple-silicon/a7iop/mailbox/].  Both mailboxes of a pair in
      one state, both register layouts.
    - [A7iop]: [hw/misc/apple-silicon/a7iop/core.c], [regs-v2.c], [regs-v4.c].  The
      embedding device is a type parameter reached through a class.
    - [Rtkit]: [hw/misc/apple-silicon/a7iop/rtkit.c].  The class [HasRTKit] is the
      interface to the embedding device, with its laws.
    - [CString]: strings of the C library.
    - [Smc]: [hw/misc/apple-silicon/smc.c] and [buttons.c], an instance of [HasRTKit].
    - [Dt]: [hw/arm/apple-silicon/dt.c].
    - [Dart]: [hw/arm/apple-silicon/dart.c].  [Sart]: [hw/arm/apple-silicon/sart.c].
    - [Lzss]: [hw/arm/apple-silicon/lzss.h].  [Mem]: [hw/arm/apple-silicon/mem.c].
    - [Gpio]: [hw/gpio/apple_gpio.c].  [Nvram]: [hw/nvram/apple_nvram.c].
    - [I2c]: [hw/i2c/core.c], [hw/i2c/apple_i2c.c]; the class of callbacks of a device
      is the interface between the bus and the devices.  [I2cSlaves]: the devices,
      each an instance with its laws, and the power management unit [pmu-d2255.c].
    - [Wdt]: [hw/watchdog/apple_wdt.c].
    - [Spmi]: [hw/spmi/core.c], [hw/spmi/apple_spmi.c], and in modules of their own
      [hw/misc/apple-silicon/spmi-pmu.c] and [spmi-baseband.c], again instances of a
      class of callbacks.
    - [Uart]: [hw/char/apple_uart.c].
    - [HostMem]: host memory as one array of bytes, with pointers as positions.
      [Patcher]: [hw/arm/apple-silicon/patcher.c].
    - [Macho]: the walks over Mach-O headers of [hw/arm/apple-silicon/boot.c];
      [MachoSpec] gives images as lists of commands and what the walks find in them.
      [KernelRanges] and [KernelPatches]: [hw/arm/apple-silicon/kernel_patches.c], the
      lookups and the patches.
    - [Kernel], [BootFiles] and [BootTree]: the rest of [boot.c]: symbols, slides and the
      load into guest memory; containers and files; the filter of the device tree, the
      memory ranges and the boot arguments.
    - [Crc16]: [util/crc16.c].  [MtSpi]: [hw/arm/apple-silicon/mt-spi.c].
    - [Sio]: [hw/dma/apple_sio.c].  [Spi]: [hw/ssi/apple_spi.c] and [hw/ssi/ssi.c], over the
      classes [SSIPeripheralClass] and [DmaEngine]; [DmaStreams] is what the controller
      relies on.  [Cs42l77]: [hw/audio/apple-silicon/cs42l77.c], an instance of the first.
      [SpiSio]: the DMA controller is an instance of the second and keeps its laws.
    - [Cipher]: [crypto/cipher.c] and [crypto/cipher-nettle.c.inc], over the class [Nettle]
      with the laws [NettleLaws]; [CipherModes] shows that the textbook modes have them.
      [Aes]: [hw/misc/apple-silicon/aes.c], one event per access or step of the thread;
      [AesSpec] has its theorems.
    - [Aop]: [hw/misc/apple-silicon/aop.c] and [hw/audio/apple-silicon/aop-audio.c];
      [AopSpec] has the rings as packets and their theorems.
    - [SepSim]: [hw/arm/apple-silicon/sep-sim.c], over [A7iop]; [SepSimSpec] gives the
      reaction to each message and its theorems.

    ** What the theorems show

    Interrupts.  From creation on no event of the interrupt controller faults
    ([aic_never_faults]); the tick raises a line for every deliverable interrupt
    ([aic_update_serves]); an acknowledge implements an abstract relation
    ([aic_iack_spec]) and is not spurious after a raised line
    ([aic_raised_then_acked]).

    Queues and co-processors.  The ring buffer implements a queue
    ([fifo8_refines_queue]); mailboxes keep their invariant and deliver messages
    once and in order ([mailbox_invariant], [mailbox_fifo],
    [interrupt_status_pop_spec]); register accesses of the co-processor do not fault
    ([a7iop_v4_regs_ok]); the boot conversation announces exactly the registered end
    points ([rtkit_boot_handshake]), a message is handled exactly when the protocol
    expects it ([rtkit_mgmt_handled_iff]) and the message loop ends
    ([rtkit_bh_drains]).  On top of it the management controller handles every
    message ([smc_answers]), keys read back what was written ([smc_key_roundtrip])
    and the buttons implement their specification ([buttons_reported]).

    Buses.  A transaction reaches exactly the addressed I2C device
    ([i2c_transaction_spec], [i2c_step_inv]); registers of the devices behind both
    buses read back what was written through the controllers
    ([pmu_registers_roundtrip], [spmi_registers_roundtrip]).

    Memory.  The table walk is that of a reference ([dart_translate_spec],
    [dart_step_safe]); the filter keeps its descriptors ([sart_write_synced]);
    carve-outs are disjoint and recorded ([carveout_regions]).

    Data.  The device tree and the variables survive being stored and read back
    ([dt_roundtrip], [nvram_save_load]); reading ends on every input
    ([dt_deserialise_terminates], [nvram_load_total]); decompression inverts the
    format and is bounded ([lzss_decodes], [lzss_total]).

    Other devices.  Pins and their interrupts ([gpio_step_inv], [gpio_set_spec]), the
    watchdog acts in time ([wdt_bites_in_time]), the serial port delivers bytes in
    order within its bounds ([uart_receives_in_order], [uart_never_faults]); its
    control register cannot be written ([uart_control_stays_zero]).

    Kernel image.  A replacement changes the first match and nothing else
    ([find_replace_spec], [find_insn_spec]); from any image the lookups and patches end
    without a failed assertion ([kernel_patches_end]); what the patched branch of
    [kprintf] does ([kprintf_branch]).

    Boot.  A kernel file gives the image it stands for, through container,
    decompression and unpacking ([load_kernel_spec], [parse_macho_spec]); sections are
    found where the image has them ([find_section_range_spec]); a fileset is written
    to guest memory segment by segment ([load_fileset_spec]); a trust cache is loaded
    or refused as its header says ([load_trustcache_spec]); the filter keeps what the
    tables keep ([process_dt_spec]) and the tree that is written has the memory ranges
    of the boot information ([finalise_dt_spec]).

    SPI and DMA.  End points of the DMA controller are streams ([dma_read_spec],
    [dma_write_spec]); on top of them a transfer of the SPI controller exchanges guest
    memory with the peripherals, for any number of words ([spi_dma_transfer]), and so
    do the accesses of a driver ([pio_exchange]).  The touch controller answers every
    packet and reports every touch ([ll_exchange], [touch_update_spec]) with a checksum
    that is the polynomial one ([crc16_spec]); the registers of the amplifier read back
    what was written ([amp_roundtrip]).

    Security.  In every order of the writes of the guest and the steps of the worker the
    AES engine does what its commands do one after the other ([aes_in_order]); a second
    job decrypts what the first encrypted ([aes_roundtrip]); its line follows its
    registers ([aes_line]); what a key command does on every key
    ([key_command_outcome]).  The simulated enclave boots and advertises its end points
    ([sep_boots]), answers every message by its reaction ([sep_answers]), and the hash in
    a response of its key store is right ([keystore_reply]).

    Packets.  The always-on processor serves every request of a ring once and in order
    ([aop_serves]) after a conversation that sets the rings up ([aop_handshake]).

    Lemmas outside these groups show where the code does not do what it says; their
    doc comments say what is wrong.

    ** Bounds and fuel

    Loops of C with a counter are recursive on the count.  Loops with another exit
    have fuel, and the theorem about the loop shows that the fuel given where it is
    called is enough: the number of queued messages for RTKit, the length of the blob
    for the device tree, of the input for the decompressor, of the bank for the
    variables, of the range for the patcher, of the string for the property list of
    the extensions, of the queue for the DMA controller, the word counts of the
    registers for the SPI controller, the requests in the ring of the always-on processor
    and the messages in the mailbox of the enclave.  With a writer the guest made up the
    ring of the always-on processor has no last request, and [rx_endless] shows that no
    fuel is enough then.

    ** Parameters

    Guest memory (DART), the checksum of zlib (variables), the order in which GLib
    enumerates a table (device tree), the uninitialised part of the window
    (decompressor), the callbacks of an embedding device (co-processor), the files, the
    ASN.1 parser and the LZFSE decoder (boot files), hashes and random bytes (boot
    tree), the validity and the mapping of memory (DMA controller, always-on processor,
    enclave), the content of fresh allocations (SPI controller), the primitives of Nettle
    and guest memory (AES engine), and the hash, the coded token and the random words of
    the enclave are parameters.  Lines are the level they were last set to, clocks are
    fields that the environment advances, a timer is the deadline it is armed for.

    ** Not modelled

    Mutexes: each callback is one atomic step; the thread of the AES engine has the steps
    between the points where it gives up its lock.  Migration streams, apart from the
    checks after loading.  Traces and messages.  Of the modelled files: the
    operations on [unsigned long] bitmaps, the monitor command of the DART.  Of the
    program: the machine files, which only create and connect; processors, on the
    translator; the emulated secure enclave [sep.c], on cryptographic libraries and
    undocumented register windows; storage, a wrapper of the NVMe controller of QEMU;
    displays, USB, sampled audio, PCIe and baseband, on the corresponding cores of QEMU;
    and QEMU itself. *)

From Stdlib Require Export ZArith Lia Bool.
From Stdlib Require Export Btauto.
From stdpp Require Export base numbers list gmap strings.

#[global] Open Scope Z_scope.

(** ** Outcomes of C code

    A device operation of the emulator either finishes, stops the process
    through one of the [assert] macros of [include/qemu/osdep.h], or does what C
    leaves undefined ([Oob]): an access outside the object it indexes or through
    a null pointer, a shift by the width of the operand or more.  [NoFuel] is the result of a
    loop or recursion of the model that was given too few turns; the theorems
    of each component show that its operations never have it. *)
Inductive outcome (A : Type) : Type :=
| Done (a : A)
| Abort
| Oob
| NoFuel.
Arguments Done {A} a.
Arguments Abort {A}.
Arguments Oob {A}.
Arguments NoFuel {A}.

#[global] Instance outcome_ret : MRet outcome := @Done.
#[global] Instance outcome_bind : MBind outcome := fun A B f m =>
  match m with
  | Done a => f a
  | Abort => Abort
  | Oob => Oob
  | NoFuel => NoFuel
  end.

#[global] Instance outcome_fmap : FMap outcome := fun A B f m =>
  match m with
  | Done a => Done (f a)
  | Abort => Abort
  | Oob => Oob
  | NoFuel => NoFuel
  end.

Definition c_assert (b : bool) : outcome unit := if b then Done tt else Abort.

Definition is_done {A} (m : outcome A) : bool :=
  match m with Done _ => true | _ => false end.

Lemma bind_Done {A B} (f : A -> outcome B) (a : A) : (Done a ≫= f) = f a.
Proof. reflexivity. Qed.

Lemma bind_mret {A B} (f : A -> outcome B) (a : A) : (mret a ≫= f) = f a.
Proof. reflexivity. Qed.

(** [run] goes past the finished statements at the head of the goal; unlike a
    reduction it leaves nothing for the kernel to unfold. *)
Ltac run := repeat (first [rewrite bind_mret | rewrite bind_Done]; cbv beta iota).

Lemma bind_Done_inv {A B} (f : A -> outcome B) m b :
  m ≫= f = Done b -> exists a, m = Done a /\ f a = Done b.
Proof. destruct m; simpl; [eauto | discriminate ..]. Qed.

Lemma c_assert_Done b : c_assert b = Done tt <-> b = true.
Proof. by destruct b. Qed.

(** [include/qemu/timer.h]. *)
Definition NANOSECONDS_PER_SECOND : Z := 1000000000.

(** ** Record update

    [r <| f := v |>] is the C assignment [r->f = v].  A record type declares
    its eta expansion once as an instance of [Eta]; the setter of a field is
    computed from it by abstracting the field's projection. *)
Class Eta (R : Type) := eta : R -> R.
Class Setter {R T : Type} (f : R -> T) := setf : (T -> T) -> R -> R.
Arguments setf {R T} f {_} _ _.

Ltac derive_setter :=
  match goal with
  | |- @Setter ?R ?T ?f =>
      let e := constr:(_ : Eta R) in
      let e := eval cbv delta [eta] in e in
      let e := eval red in e in
      match eval pattern f in e with
      | ?g _ =>
          let t := eval cbv beta in (fun (u : T -> T) => g (fun r => u (f r))) in
          exact t
      end
  end.
#[global] Hint Extern 1 (Setter _) => derive_setter : typeclass_instances.

Declare Scope record_scope.
Delimit Scope record_scope with rec.
Notation "r <| f := v |>" := (setf f (fun _ => v) r)
  (at level 12, f at level 10, v at level 200, left associativity) : record_scope.
Notation "r <| f ::= u |>" := (setf f u r)
  (at level 12, f at level 10, u at level 200, left associativity) : record_scope.
#[global] Open Scope record_scope.

(** ** Machine integers

    An unsigned [w]-bit value is a [Z] in [0 .. 2^w - 1]; arithmetic that the
    source performs at width [w] is followed by [wrap w]. *)
Definition wrap (w x : Z) : Z := x mod 2 ^ w.
Abbreviation u8 := (wrap 8).
Abbreviation u16 := (wrap 16).
Abbreviation u32 := (wrap 32).
Abbreviation u64 := (wrap 64).

(** The signed reading of a 32-bit value. *)
Definition s32 (x : Z) : Z := if x <? 2 ^ 31 then x else x - 2 ^ 32.

Definition in_width (w x : Z) : Prop := 0 <= x < 2 ^ w.

Definition nonzero (x : Z) : bool := negb (x =? 0).

Declare Scope c_scope.
Delimit Scope c_scope with c.
Infix ".&" := Z.land (at level 31, left associativity) : c_scope.
Infix ".^" := Z.lxor (at level 32, left associativity) : c_scope.
Infix ".|" := Z.lor (at level 33, left associativity) : c_scope.
Infix ".<<" := Z.shiftl (at level 29, left associativity) : c_scope.
Infix ".>>" := Z.shiftr (at level 29, left associativity) : c_scope.
Infix ".&~" := Z.ldiff (at level 31, left associativity) : c_scope.
#[global] Open Scope c_scope.

(** [BIT(n)] of include/qemu/bitops.h. *)
Definition BIT (n : Z) : Z := 1 .<< n.

(** Lemmas that turn a bit of a compound value into bits of its parts. *)
Create Rewrite HintDb cbits.

Lemma testbit_wrap w x i : 0 <= w -> 0 <= i ->
  Z.testbit (wrap w x) i = (i <? w) && Z.testbit x i.
Proof. intros. unfold wrap. by rewrite Z.testbit_mod_pow2. Qed.

Lemma testbit_BIT n i : 0 <= n -> Z.testbit (BIT n) i = (n =? i).
Proof.
  intros. unfold BIT. rewrite Z.shiftl_mul_pow2, Z.mul_1_l by done.
  by apply Z.pow2_bits_eqb.
Qed.

Lemma testbit_shiftl x n i : 0 <= i ->
  Z.testbit (x .<< n) i = (n <=? i) && Z.testbit x (i - n).
Proof.
  intros. rewrite Z.shiftl_spec by done.
  destruct (Z.leb_spec n i); [done|]. simpl. apply Z.testbit_neg_r. lia.
Qed.

Lemma testbit_high w x i : in_width w x -> 0 <= w <= i -> Z.testbit x i = false.
Proof.
  intros Hx Hi. rewrite <- (Z.mod_small x (2 ^ w)) by exact Hx.
  by apply Z.mod_pow2_bits_high.
Qed.

#[export] Hint Rewrite Z.land_spec Z.lor_spec Z.lxor_spec Z.ldiff_spec
  Z.bits_0 : cbits.
#[export] Hint Rewrite Z.shiftr_spec Z.lnot_spec testbit_shiftl testbit_wrap
  testbit_BIT Z.testbit_ones using lia : cbits.

(** [by_bits] proves an equation of bit expressions bit by bit. *)
Ltac split_bits :=
  repeat match goal with
  | |- context [?a <? ?b] => destruct (Z.ltb_spec a b)
  | |- context [?a <=? ?b] => destruct (Z.leb_spec a b)
  | |- context [?a =? ?b] => destruct (Z.eqb_spec a b)
  end.
Ltac by_bits :=
  apply Z.bits_inj'; intros ?i ?Hi;
  do 2 (autorewrite with cbits; split_bits; simpl; try lia);
  rewrite ?andb_true_r, ?andb_false_r, ?orb_false_r, ?orb_true_r; try done;
  try btauto.

(** [eval_cmp] decides the comparisons of the goal from the context. *)
Ltac eval_cmp :=
  repeat match goal with
  | |- context [?a <? ?b] => first [ rewrite (proj2 (Z.ltb_lt a b)) by lia
                                   | rewrite (proj2 (Z.ltb_ge a b)) by lia ]
  | |- context [?a <=? ?b] => first [ rewrite (proj2 (Z.leb_le a b)) by lia
                                    | rewrite (proj2 (Z.leb_gt a b)) by lia ]
  | |- context [?a =? ?b] => first [ rewrite (proj2 (Z.eqb_eq a b)) by lia
                                   | rewrite (proj2 (Z.eqb_neq a b)) by lia ]
  end.

Lemma wrap_range w x : 0 <= w -> in_width w (wrap w x).
Proof. intros. apply Z.mod_pos_bound, Z.pow_pos_nonneg; lia. Qed.

Lemma wrap_small w x : in_width w x -> wrap w x = x.
Proof. apply Z.mod_small. Qed.

Lemma in_width_iff w x : 0 <= w ->
  in_width w x <-> 0 <= x /\ forall i, w <= i -> Z.testbit x i = false.
Proof.
  intros Hw. split.
  - intros Hx. split; [apply Hx|]. intros i Hi. by apply (testbit_high w).
  - intros [H0 Hb].
    assert (x = wrap w x) as ->; [|by apply wrap_range].
    apply Z.bits_inj'. intros i Hi. rewrite testbit_wrap by done.
    destruct (Z.ltb_spec i w); [done|]. by rewrite Hb.
Qed.

Lemma in_width_land w x y : 0 <= w -> 0 <= y -> in_width w x -> in_width w (x .& y).
Proof.
  intros Hw Hy Hx. apply in_width_iff; [done|]. split; [apply Z.land_nonneg; right; done|].
  intros i Hi. rewrite Z.land_spec, (testbit_high w); try done; lia.
Qed.

Lemma in_width_ldiff w x y : 0 <= w -> in_width w x -> in_width w (x .&~ y).
Proof.
  intros Hw Hx. apply in_width_iff; [done|].
  split; [apply Z.ldiff_nonneg; left; apply Hx|].
  intros i Hi. rewrite Z.ldiff_spec, (testbit_high w); try done; lia.
Qed.

Lemma in_width_lor w x y : 0 <= w -> in_width w x -> in_width w y -> in_width w (x .| y).
Proof.
  intros Hw Hx Hy. apply in_width_iff; [done|].
  split; [apply Z.lor_nonneg; split; [apply Hx|apply Hy]|].
  intros i Hi. rewrite Z.lor_spec, !(testbit_high w); try done; lia.
Qed.

Lemma in_width_BIT w n : 0 <= n < w -> in_width w (BIT n).
Proof.
  intros. unfold in_width, BIT. rewrite Z.shiftl_mul_pow2, Z.mul_1_l by lia.
  split; [lia|]. apply Z.pow_lt_mono_r; lia.
Qed.

Create HintDb width.
#[export] Hint Resolve in_width_ldiff in_width_lor in_width_BIT wrap_range : width.

(** A field of [n] bits from bit [k], with a mask and a shift. *)
Lemma mask_shift x n k : 0 <= n -> 0 <= k -> (x .& (Z.ones n .<< k)) .>> k = (x / 2 ^ k) mod 2 ^ n.
Proof.
  intros Hn Hk. rewrite <- Z.shiftr_div_pow2, <- Z.land_ones by done.
  apply Z.bits_inj'. intros i Hi.
  rewrite !Z.shiftr_spec, !Z.land_spec, testbit_shiftl, Z.shiftr_spec, !Z.testbit_ones by lia.
  f_equal. replace (i + k - k) with i by lia. eval_cmp. done.
Qed.

Lemma mask_unshift x n k : 0 <= n -> 0 <= k ->
  ((x .& (Z.ones n .<< k)) .>> k) .<< k = x .& (Z.ones n .<< k).
Proof.
  intros Hn Hk. apply Z.bits_inj'. intros i Hi.
  rewrite testbit_shiftl, Z.land_spec, !testbit_shiftl by done. destruct (Z.leb_spec k i); cbn [andb].
  - rewrite Z.shiftr_spec, Z.land_spec, testbit_shiftl by lia. replace (i - k + k) with i by lia.
    by eval_cmp.
  - by rewrite andb_false_r.
Qed.

(** A value is nonzero exactly when one of its bits is set. *)
Lemma nonzero_iff x : nonzero x = true <-> x <> 0.
Proof. unfold nonzero. destruct (Z.eqb_spec x 0); simpl; naive_solver. Qed.

Lemma bit_nonzero x i : Z.testbit x i = true -> x <> 0.
Proof. intros H ->. by rewrite Z.bits_0 in H. Qed.

Lemma nonzero_bit x : 0 < x -> exists i, 0 <= i /\ Z.testbit x i = true.
Proof. intros. exists (Z.log2 x). split; [apply Z.log2_nonneg|by apply Z.bit_log2]. Qed.

Lemma land_BIT_nonzero x i : 0 <= i -> nonzero (x .& BIT i) = Z.testbit x i.
Proof.
  intros Hi. destruct (Z.testbit x i) eqn:E.
  - apply nonzero_iff, (bit_nonzero _ i).
    by rewrite Z.land_spec, E, testbit_BIT, Z.eqb_refl.
  - unfold nonzero. assert (x .& BIT i = 0) as ->; [|done].
    by_bits; subst; done.
Qed.

(** ** Arrays

    C arrays are lists; an index outside the array is [Oob]. *)
Definition zlen {A} (l : list A) : Z := Z.of_nat (length l).

Definition aget {A} (l : list A) (i : Z) : outcome A :=
  if 0 <=? i then match l !! Z.to_nat i with Some x => Done x | None => Oob end
  else Oob.

Definition aset {A} (l : list A) (i : Z) (x : A) : outcome (list A) :=
  if (0 <=? i) && (i <? zlen l) then Done (<[Z.to_nat i := x]> l) else Oob.

(** [a[i] op= ...]. *)
Definition aupd {A} (l : list A) (i : Z) (f : A -> A) : outcome (list A) :=
  x ← aget l i; aset l i (f x).

Lemma aget_Done {A} (l : list A) i x :
  aget l i = Done x <-> 0 <= i /\ l !! Z.to_nat i = Some x.
Proof.
  unfold aget. destruct (Z.leb_spec 0 i).
  - destruct (l !! Z.to_nat i); naive_solver.
  - split; [done|]. lia.
Qed.

Lemma aget_in_range {A} (l : list A) i :
  0 <= i < zlen l -> exists x, aget l i = Done x.
Proof.
  intros Hi. destruct (lookup_lt_is_Some_2 l (Z.to_nat i)) as [x Hx].
  { unfold zlen in *. lia. }
  exists x. apply aget_Done. split; [lia|done].
Qed.

Lemma aget_Oob {A} (l : list A) i : zlen l <= i -> aget l i = Oob.
Proof.
  intros Hi. unfold aget, zlen in *. destruct (Z.leb_spec 0 i); [|lia].
  rewrite lookup_ge_None_2; [done|lia].
Qed.

Lemma aset_in_range {A} (l : list A) i x :
  0 <= i < zlen l -> aset l i x = Done (<[Z.to_nat i := x]> l).
Proof.
  intros [H1 H2]. unfold aset.
  by rewrite (proj2 (Z.leb_le _ _) H1), (proj2 (Z.ltb_lt _ _) H2).
Qed.

Lemma aset_Done {A} (l : list A) i x l' :
  aset l i x = Done l' -> 0 <= i < zlen l /\ l' = <[Z.to_nat i := x]> l.
Proof.
  unfold aset. destruct (Z.leb_spec 0 i), (Z.ltb_spec i (zlen l)); naive_solver.
Qed.

Lemma zlen_insert {A} (l : list A) i x : zlen (<[i := x]> l) = zlen l.
Proof. unfold zlen. by rewrite length_insert. Qed.

(** [memcpy] into and out of an array. *)
Definition blit {A} (dst : list A) (off : Z) (src : list A) : outcome (list A) :=
  if (0 <=? off) && (off + zlen src <=? zlen dst) then
    Done (take (Z.to_nat off) dst ++ src ++ drop (Z.to_nat off + length src) dst)
  else Oob.

Definition slice {A} (l : list A) (off n : Z) : outcome (list A) :=
  if (0 <=? off) && (0 <=? n) && (off + n <=? zlen l) then
    Done (take (Z.to_nat n) (drop (Z.to_nat off) l))
  else Oob.

(** The C remainder of unsigned values; a zero divisor stops the process. *)
Definition c_mod (a b : Z) : outcome Z := if b =? 0 then Abort else Done (a mod b).

Lemma blit_in_range {A} (dst src : list A) off :
  0 <= off -> off + zlen src <= zlen dst ->
  exists l, blit dst off src = Done l /\ length l = length dst /\
    forall i : nat, l !! i = if decide (Z.to_nat off <= i < Z.to_nat off + length src)%nat
                             then src !! (i - Z.to_nat off)%nat else dst !! i.
Proof.
  intros H1 H2. unfold blit, zlen in *.
  destruct (Z.leb_spec 0 off); [|lia].
  destruct (Z.leb_spec (off + Z.of_nat (length src)) (Z.of_nat (length dst))); [|lia].
  eexists. split; [done|]. split.
  { rewrite !length_app, length_take, length_drop. lia. }
  intros i. destruct (decide _) as [Hi|Hi].
  - rewrite lookup_app_r, lookup_app_l; rewrite length_take; [|lia..].
    f_equal. lia.
  - destruct (decide (i < Z.to_nat off)%nat).
    + rewrite lookup_app_l by (rewrite length_take; lia). by apply lookup_take_lt.
    + rewrite lookup_app_r, lookup_app_r; rewrite ?length_take; [|lia..].
      rewrite lookup_drop. f_equal. lia.
Qed.

Lemma slice_in_range {A} (l : list A) off n : 0 <= off -> 0 <= n -> off + n <= zlen l ->
  slice l off n = Done (take (Z.to_nat n) (drop (Z.to_nat off) l)).
Proof.
  intros ???. unfold slice.
  by rewrite !(proj2 (Z.leb_le _ _)) by done.
Qed.

(** ** Little-endian integers in byte arrays *)
Fixpoint le_split (n : nat) (x : Z) : list Z :=
  match n with
  | O => []
  | S n' => x .& 0xff :: le_split n' (x .>> 8)
  end.

Fixpoint le_combine (l : list Z) : Z :=
  match l with
  | [] => 0
  | b :: l' => b .| (le_combine l' .<< 8)
  end.

(** [cpu_to_be32] and [be32_to_cpu] on a little-endian host. *)
Definition bswap32 (x : Z) : Z := le_combine (rev (le_split 4 x)).

Lemma length_le_split n x : length (le_split n x) = n.
Proof. revert x. induction n; intros; simpl; auto. Qed.

Lemma le_combine_split n : forall x, le_combine (le_split n x) = wrap (8 * Z.of_nat n) x.
Proof.
  induction n as [|n IH]; intros x; simpl le_split; simpl le_combine.
  { unfold wrap. by rewrite Z.mod_1_r. }
  rewrite IH. change 0xff with (Z.ones 8). apply Z.bits_inj'. intros i Hi.
  rewrite Z.lor_spec, Z.land_spec, Z.testbit_ones, testbit_shiftl,
    (testbit_wrap (8 * Z.of_nat (S n))) by lia.
  destruct (Z.le_gt_cases 8 i).
  - rewrite testbit_wrap, Z.shiftr_spec by lia. eval_cmp. rewrite andb_false_r. simpl.
    replace (i - 8 + 8) with i by lia. split_bits; done || lia.
  - eval_cmp. simpl. by rewrite andb_true_r, orb_false_r.
Qed.

Lemma le_split_bytes n x : Forall (in_width 8) (le_split n x).
Proof.
  revert x. induction n as [|n IH]; intros x; simpl; constructor; [|apply IH].
  change 0xff with (Z.ones 8). rewrite Z.land_ones by done. by apply wrap_range.
Qed.

Lemma le_combine_width l : Forall (in_width 8) l -> in_width (8 * zlen l) (le_combine l).
Proof.
  induction 1 as [|b l Hb _ IH]; [done|]. cbn [le_combine]. unfold zlen in *. cbn [length].
  apply in_width_lor; [lia| |].
  - destruct Hb as [Hb1 Hb2]. split; [done|]. eapply Z.lt_le_trans; [exact Hb2|]. apply Z.pow_le_mono_r; lia.
  - destruct IH as [I1 I2]. rewrite Z.shiftl_mul_pow2 by lia. split; [nia|].
    replace (8 * Z.of_nat (S (length l))) with (8 * Z.of_nat (length l) + 8) by lia. rewrite Z.pow_add_r by lia. nia.
Qed.

(** ** Arrays that agree on a range *)

Definition agree {A} (b b' : list A) (lo hi : Z) : Prop :=
  length b = length b' /\ forall i : nat, lo <= Z.of_nat i < hi -> b !! i = b' !! i.

Lemma agree_refl {A} (b : list A) lo hi : agree b b lo hi.
Proof. done. Qed.

Lemma agree_sym {A} (b b' : list A) lo hi : agree b b' lo hi -> agree b' b lo hi.
Proof. intros [H1 H2]. split; [done|]. intros i Hi. symmetry. auto. Qed.

Lemma agree_trans {A} (b1 b2 b3 : list A) lo hi :
  agree b1 b2 lo hi -> agree b2 b3 lo hi -> agree b1 b3 lo hi.
Proof. intros [H1 H2] [H3 H4]. split; [congruence|]. intros i Hi. rewrite H2; auto. Qed.

Lemma agree_sub {A} (b b' : list A) lo hi lo' hi' : agree b b' lo hi ->
  lo <= lo' -> hi' <= hi -> agree b b' lo' hi'.
Proof. intros [H1 H2] ??. split; [done|]. intros i Hi. apply H2. lia. Qed.

Lemma slice_agree {A} (b b' : list A) lo hi off n : agree b b' lo hi ->
  lo <= off -> off + n <= hi -> slice b off n = slice b' off n.
Proof.
  intros [Hl H] H1 H2. unfold slice, zlen. rewrite Hl.
  destruct ((0 <=? off) && (0 <=? n) && _) eqn:E; [|done].
  apply andb_prop in E as [[E1%Z.leb_le E2%Z.leb_le]%andb_prop E3%Z.leb_le].
  f_equal. apply list_eq. intros i. destruct (decide (i < Z.to_nat n)%nat).
  - rewrite !lookup_take_lt, !lookup_drop by lia. apply H. lia.
  - by rewrite !lookup_take_ge by lia.
Qed.

(** What a copy changes, and what a later read finds. *)
Lemma blit_ok {A} (dst src : list A) off : 0 <= off -> off + zlen src <= zlen dst ->
  exists l, blit dst off src = Done l /\ length l = length dst /\
    slice l off (zlen src) = Done src /\
    (forall lo hi, hi <= off \/ off + zlen src <= lo -> agree dst l lo hi).
Proof.
  intros H1 H2. destruct (blit_in_range dst src off H1 H2) as (l & Hb & Hl & Hlook).
  exists l. split; [done|]. split; [done|]. split.
  - rewrite slice_in_range by (unfold zlen in *; lia). f_equal. apply list_eq. intros i.
    unfold zlen. rewrite Nat2Z.id. destruct (decide (i < length src)%nat).
    + rewrite lookup_take_lt, lookup_drop, Hlook by done. rewrite decide_True by lia.
      f_equal. lia.
    + rewrite lookup_take_ge, lookup_ge_None_2 by lia. done.
  - intros lo hi Hr. split; [done|]. intros i Hi. rewrite Hlook.
    destruct (decide _); [unfold zlen in *; lia|done].
Qed.

Lemma slice_split {A} (b : list A) off n d rest : 0 <= off ->
  slice b off n = Done d -> rest = drop (Z.to_nat n) (drop (Z.to_nat off) b) ->
  drop (Z.to_nat off) b = d ++ rest.
Proof.
  intros H1. unfold slice. destruct (_ && _ && _); [|done]. intros [= <-] ->.
  symmetry. apply take_drop.
Qed.

Lemma slice_take {A} (b : list A) off n k d : 0 <= k <= n ->
  slice b off n = Done d -> slice b off k = Done (take (Z.to_nat k) d).
Proof.
  intros Hk. unfold slice.
  destruct ((0 <=? off) && (0 <=? n) && _) eqn:E; [|done].
  apply andb_prop in E as [[E1%Z.leb_le E2%Z.leb_le]%andb_prop E3%Z.leb_le].
  intros [= <-]. rewrite !(proj2 (Z.leb_le _ _)) by lia. simpl. f_equal.
  rewrite take_take. f_equal. lia.
Qed.

Lemma slice_length {A} (b : list A) off n d : slice b off n = Done d -> zlen d = n.
Proof.
  unfold slice. destruct ((0 <=? off) && (0 <=? n) && _) eqn:E; [|done].
  apply andb_prop in E as [[E1%Z.leb_le E2%Z.leb_le]%andb_prop E3%Z.leb_le].
  intros [= <-]. unfold zlen in *. rewrite length_take, length_drop. lia.
Qed.

(** ** Arrays built from parts *)

Section Parts.
Context {A : Type}.
Implicit Types a h c s : list A.

(** A copy into the middle part of an array, and what is read from it. *)
Lemma blit_part a h c s k off : off = zlen a + Z.of_nat k -> (k + length s <= length h)%nat ->
  blit (a ++ h ++ c) off s = Done (a ++ (take k h ++ s ++ drop (k + length s) h) ++ c).
Proof.
  intros -> H. unfold blit, zlen. rewrite !length_app.
  rewrite (proj2 (Z.leb_le _ _)), (proj2 (Z.leb_le _ _)) by lia. cbn [andb]. f_equal.
  replace (Z.to_nat (Z.of_nat (length a) + Z.of_nat k)) with (length a + k)%nat by lia.
  rewrite take_app, (take_ge a) by lia. replace (length a + k - length a)%nat with k by lia.
  rewrite take_app_le by lia. rewrite drop_app, (drop_ge a) by lia.
  replace (length a + k + length s - length a)%nat with (k + length s)%nat by lia.
  rewrite drop_app_le by lia. cbn [app]. by rewrite <- !(assoc_L (++)).
Qed.

Lemma aset_part a h c k x off : off = zlen a + Z.of_nat k -> (k < length h)%nat ->
  aset (a ++ h ++ c) off x = Done (a ++ <[k := x]> h ++ c).
Proof.
  intros -> H. rewrite aset_in_range by (unfold zlen; rewrite !length_app; lia). f_equal. unfold zlen.
  replace (Z.to_nat (Z.of_nat (length a) + Z.of_nat k)) with (length a + k)%nat by lia.
  rewrite insert_app_r. f_equal. by rewrite insert_app_l.
Qed.

Lemma slice_part a h c k n off m : off = zlen a + Z.of_nat k -> m = Z.of_nat n ->
  (k + n <= length h)%nat -> slice (a ++ h ++ c) off m = Done (take n (drop k h)).
Proof.
  intros -> -> H. rewrite slice_in_range by (unfold zlen; rewrite ?length_app; lia). f_equal. unfold zlen.
  rewrite Nat2Z.id. replace (Z.to_nat (Z.of_nat (length a) + Z.of_nat k)) with (length a + k)%nat by lia.
  rewrite drop_app, (drop_ge a) by lia. replace (length a + k - length a)%nat with k by lia. cbn [app].
  rewrite drop_app_le by lia. by rewrite take_app_le by (rewrite length_drop; lia).
Qed.

Lemma aget_part a h c k x off : off = zlen a + Z.of_nat k -> h !! k = Some x ->
  aget (a ++ h ++ c) off = Done x.
Proof.
  intros -> H. apply aget_Done. unfold zlen. split; [lia|].
  replace (Z.to_nat (Z.of_nat (length a) + Z.of_nat k)) with (length a + k)%nat by lia.
  rewrite lookup_app_r by lia. replace (length a + k - length a)%nat with k by lia. by apply lookup_app_l_Some.
Qed.

Lemma blit_front (l b : list A) : zlen b <= zlen l -> blit l 0 b = Done (b ++ drop (length b) l).
Proof.
  intros H. unfold blit. rewrite Z.add_0_l, (proj2 (Z.leb_le 0 0)), (proj2 (Z.leb_le _ _)) by done. done.
Qed.

Lemma slice_front (l : list A) n : 0 <= n <= zlen l -> slice l 0 n = Done (take (Z.to_nat n) l).
Proof. intros H. by rewrite slice_in_range by lia. Qed.

Lemma drop_part a c : drop (Z.to_nat (zlen a)) (a ++ c) = c.
Proof. unfold zlen. by rewrite Nat2Z.id, drop_app_length. Qed.

End Parts.

Lemma zlen_app {A} (a b : list A) : zlen (a ++ b) = zlen a + zlen b.
Proof. unfold zlen. rewrite length_app. lia. Qed.

Lemma zlen_replicate {A} n (x : A) : zlen (replicate n x) = Z.of_nat n.
Proof. unfold zlen. by rewrite length_replicate. Qed.

(** ** Sparse arrays

    A large array of a device is the map of the elements that are not zero; the
    size is a parameter of the accesses. *)
Definition mget (size : Z) (m : gmap Z Z) (i : Z) : outcome Z :=
  if (0 <=? i) && (i <? size) then Done (default 0 (m !! i)) else Oob.

Definition mset (size : Z) (m : gmap Z Z) (i x : Z) : outcome (gmap Z Z) :=
  if (0 <=? i) && (i <? size) then Done (<[i := x]> m) else Oob.

Lemma mget_ok size m i : 0 <= i < size -> mget size m i = Done (default 0 (m !! i)).
Proof. intros []. unfold mget. by rewrite (proj2 (Z.leb_le _ _)), (proj2 (Z.ltb_lt _ _)) by done. Qed.

Lemma mset_ok size m i x : 0 <= i < size -> mset size m i x = Done (<[i := x]> m).
Proof. intros []. unfold mset. by rewrite (proj2 (Z.leb_le _ _)), (proj2 (Z.ltb_lt _ _)) by done. Qed.
