(* ===== verification/Bitops.v ===== *)
(** * Bit operations

    The routines of [include/qemu/bitops.h] and [util/bitops.c] that the
    device models use: bit arrays stored as [uint32_t] words, the search for
    the next set bit, and the extraction and deposit of bit fields. *)

From S2P Require Import Prelude.

(** ** Single values *)

Fixpoint pos_ctz (p : positive) : Z :=
  match p with
  | xO q => 1 + pos_ctz q
  | _ => 0
  end.

(** [ctz32] of include/qemu/host-utils.h; the argument is a [uint32_t]. *)
Definition ctz32 (val : Z) : Z :=
  match u32 val with
  | Zpos p => pos_ctz p
  | _ => 32
  end.

(** [extract32], [extract64], [deposit32] and [deposit64] are given for a field
    that meets the assertion the source starts with, [valid_field]; every use
    in the device models has a constant field. *)
Definition valid_field (w start length : Z) : bool :=
  (0 <=? start) && (0 <? length) && (length <=? w - start).

Definition extract32 (value start length : Z) : Z :=
  (value .>> start) .& (Z.ones 32 .>> (32 - length)).

Definition extract64 (value start length : Z) : Z :=
  (value .>> start) .& (Z.ones 64 .>> (64 - length)).

Definition deposit32 (value start length fieldval : Z) : Z :=
  let mask := u32 ((Z.ones 32 .>> (32 - length)) .<< start) in
  (value .&~ mask) .| (u32 (fieldval .<< start) .& mask).

Definition deposit64 (value start length fieldval : Z) : Z :=
  let mask := u64 ((Z.ones 64 .>> (64 - length)) .<< start) in
  (value .&~ mask) .| (u64 (fieldval .<< start) .& mask).

(** ** Arrays of [uint32_t] used as bit arrays *)

Definition BIT32_MASK (nr : Z) : Z := 1 .<< (nr mod 32).
Definition BIT32_WORD (nr : Z) : Z := nr / 32.

Definition set_bit32 (nr : Z) (addr : list Z) : outcome (list Z) :=
  aupd addr (BIT32_WORD nr) (fun w => w .| BIT32_MASK nr).

Definition clear_bit32 (nr : Z) (addr : list Z) : outcome (list Z) :=
  aupd addr (BIT32_WORD nr) (fun w => w .&~ BIT32_MASK nr).

Definition test_bit32 (nr : Z) (addr : list Z) : outcome Z :=
  w ← aget addr (BIT32_WORD nr);
  mret (1 .& (w .>> (nr .& 31))).

(** [find_first_bit32]: the loop consumes one word per turn. *)
Fixpoint find_first_bit32_from (addr : list Z) (result size : Z) : outcome Z :=
  if result <? size then
    match addr with
    | [] => Oob
    | tmp :: addr' =>
        if nonzero tmp then
          let result := result + ctz32 tmp in
          Done (if result <? size then result else size)
        else find_first_bit32_from addr' (result + 32) size
    end
  else Done size.

Definition find_first_bit32 (addr : list Z) (size : Z) : outcome Z :=
  find_first_bit32_from addr 0 size.

(** [find_next_bit32]; the two labels of the source are [found_first] and
    [found_middle], the words from [p] on are the list the loops consume. *)
Definition found_middle (result tmp : Z) : Z := result + ctz32 tmp.

Definition found_first (result size tmp : Z) : Z :=
  let tmp := tmp .& (Z.ones 64 .>> (32 - size)) in
  if tmp =? 0 then result + size else found_middle result tmp.

Fixpoint find_next_words (p : list Z) (size result : Z) : outcome Z :=
  if 32 <=? size then
    match p with
    | [] => Oob
    | tmp :: p' =>
        if nonzero tmp then Done (found_middle result tmp)
        else find_next_words p' (size - 32) (result + 32)
    end
  else if size =? 0 then Done result
  else match p with
       | [] => Oob
       | tmp :: _ => Done (found_first result size tmp)
       end.

Fixpoint find_next_words4 (p : list Z) (size result : Z) : outcome Z :=
  if 4 * 32 <=? size then
    match p with
    | tmp :: d1 :: d2 :: d3 :: p' =>
        if nonzero tmp then Done (found_middle result tmp)
        else if nonzero (d1 .| d2 .| d3) then find_next_words p size result
        else find_next_words4 p' (size - 4 * 32) (result + 4 * 32)
    | _ => Oob
    end
  else find_next_words p size result.

Definition find_next_bit32 (addr : list Z) (size offset : Z) : outcome Z :=
  let p := drop (Z.to_nat (BIT32_WORD offset)) addr in
  let result := offset .&~ 31 in
  if size <=? offset then Done size
  else
    let size := size - result in
    let offset := offset mod 32 in
    if nonzero offset then
      match p with
      | [] => Oob
      | w :: p' =>
          let tmp := w .& u64 (Z.ones 64 .<< offset) in
          if size <? 32 then Done (found_first result size tmp)
          else if nonzero tmp then Done (found_middle result tmp)
          else find_next_words4 p' (size - 32) (result + 32)
      end
    else find_next_words4 p size result.

(** ** Specification

    [bit32 addr i] is bit [i] of the array; [is_next b lo size r] says that [r]
    is the least index of [lo .. size - 1] where [b] holds, or [size] when
    there is none. *)
Definition bit32 (addr : list Z) (i : Z) : bool :=
  Z.testbit (default 0 (addr !! Z.to_nat (i / 32))) (i mod 32).

Definition words_ok (addr : list Z) : Prop := Forall (in_width 32) addr.

Definition is_next (b : Z -> bool) (lo size r : Z) : Prop :=
  (forall j, lo <= j < r -> j < size -> b j = false) /\
  (lo <= r < size /\ b r = true \/ r = size).

Lemma pos_ctz_spec p :
  0 <= pos_ctz p /\ Z.testbit (Zpos p) (pos_ctz p) = true /\
  forall j, 0 <= j < pos_ctz p -> Z.testbit (Zpos p) j = false.
Proof.
  induction p as [p _|p (H0 & H1 & H2)|].
  - simpl. split; [done|]. split; [done|]. lia.
  - cbn [pos_ctz]. change (Zpos p~0) with (2 * Zpos p). split; [lia|]. split.
    + replace (1 + pos_ctz p) with (Z.succ (pos_ctz p)) by lia.
      by rewrite Z.double_bits_succ.
    + intros j Hj. destruct (decide (j = 0)) as [->|]; [apply Z.testbit_even_0|].
      replace j with (Z.succ (j - 1)) by lia. rewrite Z.double_bits_succ.
      apply H2. lia.
  - simpl. split; [done|]. split; [done|]. lia.
Qed.

Lemma ctz32_spec v : in_width 32 v -> v <> 0 ->
  0 <= ctz32 v < 32 /\ Z.testbit v (ctz32 v) = true /\
  forall j, 0 <= j < ctz32 v -> Z.testbit v j = false.
Proof.
  intros Hv Hn. unfold ctz32. rewrite wrap_small by done.
  destruct v as [|p|p]; [done| |unfold in_width in Hv; lia].
  destruct (pos_ctz_spec p) as (H0 & H1 & H2).
  split; [|by split]. split; [done|].
  destruct (Z.lt_ge_cases (pos_ctz p) 32); [done|].
  rewrite (testbit_high 32) in H1 by (done || lia). done.
Qed.

Lemma bit32_cons w p i : 0 <= i ->
  bit32 (w :: p) i = if i <? 32 then Z.testbit w i else bit32 p (i - 32).
Proof.
  intros Hi. unfold bit32. destruct (Z.ltb_spec i 32).
  - rewrite Z.div_small, Z.mod_small by lia. done.
  - replace (Z.to_nat (i / 32)) with (S (Z.to_nat ((i - 32) / 32))).
    2:{ replace i with (i - 32 + 1 * 32) at 2 by lia.
        rewrite Z.div_add by done. pose proof (Z.div_pos (i - 32) 32). lia. }
    simpl. f_equal. rewrite <- (Z.mod_add (i - 32) 1 32) by done. f_equal. lia.
Qed.

Lemma bit32_drop addr q i : 0 <= q -> 0 <= i ->
  bit32 (drop (Z.to_nat q) addr) i = bit32 addr (32 * q + i).
Proof.
  intros Hq Hi. unfold bit32. rewrite lookup_drop.
  replace (32 * q + i) with (i + q * 32) by lia.
  rewrite Z.div_add, Z.mod_add by done. do 3 f_equal.
  pose proof (Z.div_pos i 32). lia.
Qed.

Lemma test_bit32_ok nr addr : 0 <= nr < 32 * zlen addr ->
  test_bit32 nr addr = Done (Z.b2z (bit32 addr nr)).
Proof.
  intros Hn. unfold test_bit32, BIT32_WORD.
  destruct (aget_in_range addr (nr / 32)) as [w Hw].
  { split; [apply Z.div_pos; lia|]. apply Z.div_lt_upper_bound; lia. }
  rewrite Hw. simpl. f_equal. apply aget_Done in Hw as [? Hw].
  unfold bit32. rewrite Hw. simpl. change 31 with (Z.ones 5).
  rewrite Z.land_ones by done. change (2 ^ 5) with 32.
  assert (Z.testbit w (nr mod 32) = Z.testbit (w .>> (nr mod 32)) 0) as ->.
  { by rewrite Z.shiftr_spec. }
  rewrite Z.land_comm. change 1 with (Z.ones 1). rewrite Z.land_ones by done.
  change (2 ^ 1) with 2. symmetry. apply Z.bit0_mod.
Qed.

Lemma BIT32_WORD_range nr (addr : list Z) :
  0 <= nr < 32 * zlen addr -> 0 <= BIT32_WORD nr < zlen addr.
Proof.
  intros. unfold BIT32_WORD. split; [apply Z.div_pos; lia|].
  apply Z.div_lt_upper_bound; lia.
Qed.

Lemma bit32_insert (addr : list Z) q w j : 0 <= q < zlen addr -> 0 <= j ->
  bit32 (<[Z.to_nat q := w]> addr) j =
  if j / 32 =? q then Z.testbit w (j mod 32) else bit32 addr j.
Proof.
  intros Hq Hj. unfold bit32. pose proof (Z.div_pos j 32).
  destruct (Z.eqb_spec (j / 32) q) as [<-|].
  - rewrite list_lookup_insert_eq; [done|]. unfold zlen in *. lia.
  - rewrite list_lookup_insert_ne; [done|]. lia.
Qed.

Lemma eqb_index32 i j :
  (i =? j) = (i / 32 =? j / 32) && (j mod 32 =? i mod 32).
Proof.
  pose proof (Z.div_mod i 32). pose proof (Z.div_mod j 32).
  destruct (Z.eqb_spec i j), (Z.eqb_spec (i / 32) (j / 32)),
    (Z.eqb_spec (j mod 32) (i mod 32)); simpl; subst; try done; lia.
Qed.

(** An update of bit [nr] alone, in the word that holds it. *)
Lemma aupd_bit32_ok nr addr f (v : bool) :
  0 <= nr < 32 * zlen addr -> words_ok addr ->
  (forall w, in_width 32 w -> in_width 32 (f w)) ->
  (forall w i, 0 <= i -> Z.testbit (f w) i =
     if nr mod 32 =? i then v else Z.testbit w i) ->
  exists addr', aupd addr (BIT32_WORD nr) f = Done addr' /\
    zlen addr' = zlen addr /\ words_ok addr' /\
    forall j, 0 <= j -> bit32 addr' j = if j =? nr then v else bit32 addr j.
Proof.
  intros Hn Hok Hf Hb. pose proof (BIT32_WORD_range _ _ Hn) as Hw.
  unfold aupd. destruct (aget_in_range _ _ Hw) as [w Ew]. rewrite Ew. simpl.
  rewrite aset_in_range by done. apply aget_Done in Ew as [? Ew].
  eexists. split; [done|]. split; [apply zlen_insert|]. split.
  - apply Forall_insert; [done|]. apply Hf. by eapply Forall_lookup_1 in Hok.
  - intros j Hj. rewrite bit32_insert, (eqb_index32 j nr) by done. unfold BIT32_WORD in *.
    destruct (Z.eqb_spec (j / 32) (nr / 32)) as [E|E]; [|done].
    pose proof (Z.mod_pos_bound j 32 eq_refl). rewrite Hb by lia. simpl.
    unfold bit32. by rewrite E, Ew.
Qed.

Lemma set_bit32_ok nr addr : 0 <= nr < 32 * zlen addr -> words_ok addr ->
  exists addr', set_bit32 nr addr = Done addr' /\ zlen addr' = zlen addr /\
    words_ok addr' /\
    forall j, 0 <= j -> bit32 addr' j = if j =? nr then true else bit32 addr j.
Proof.
  intros Hn Hok. pose proof (Z.mod_pos_bound nr 32 eq_refl).
  apply aupd_bit32_ok; try done; unfold BIT32_MASK; fold (BIT (nr mod 32)).
  - intros. apply in_width_lor; [done..|]. by apply in_width_BIT.
  - intros w i Hi. rewrite Z.lor_spec, testbit_BIT by lia.
    destruct (_ =? i); [apply orb_true_r|apply orb_false_r].
Qed.

Lemma clear_bit32_ok nr addr : 0 <= nr < 32 * zlen addr -> words_ok addr ->
  exists addr', clear_bit32 nr addr = Done addr' /\ zlen addr' = zlen addr /\
    words_ok addr' /\
    forall j, 0 <= j -> bit32 addr' j = if j =? nr then false else bit32 addr j.
Proof.
  intros Hn Hok. pose proof (Z.mod_pos_bound nr 32 eq_refl).
  apply aupd_bit32_ok; try done; unfold BIT32_MASK; fold (BIT (nr mod 32)).
  - intros. by apply in_width_ldiff.
  - intros w i Hi. rewrite Z.ldiff_spec, testbit_BIT by lia.
    destruct (_ =? i); [apply andb_false_r|apply andb_true_r].
Qed.

(** ** The searches *)

Lemma is_next_found w p size : in_width 32 w -> w <> 0 -> ctz32 w < size ->
  is_next (bit32 (w :: p)) 0 size (ctz32 w).
Proof.
  intros Hw Hn Hs. destruct (ctz32_spec w Hw Hn) as (Hr & Hb & Hlow). split.
  - intros j Hj _. rewrite bit32_cons by lia.
    destruct (Z.ltb_spec j 32); [|lia]. apply Hlow. lia.
  - left. split; [lia|]. rewrite bit32_cons by lia.
    by destruct (Z.ltb_spec (ctz32 w) 32); [|lia].
Qed.

Lemma is_next_skip p size r :
  is_next (bit32 p) 0 (size - 32) r -> is_next (bit32 (0 :: p)) 0 size (r + 32).
Proof.
  intros [H1 H2]. split.
  - intros j Hj Hs. rewrite bit32_cons by lia.
    destruct (Z.ltb_spec j 32); [apply Z.bits_0|]. apply H1; lia.
  - destruct H2 as [[Hr Hb]| ->]; [|right; lia]. left. split; [lia|].
    rewrite bit32_cons by lia. destruct (Z.ltb_spec (r + 32) 32); [lia|].
    by replace (r + 32 - 32) with r by lia.
Qed.

Lemma find_first_bit32_from_spec addr : forall result size,
  words_ok addr -> result <= size <= result + 32 * zlen addr ->
  exists r, find_first_bit32_from addr result size = Done (result + r) /\
    is_next (bit32 addr) 0 (size - result) r.
Proof.
  induction addr as [|w addr IH]; intros result size Hok Hs; simpl.
  - assert (result = size) as -> by (unfold zlen in Hs; simpl in Hs; lia).
    rewrite Z.ltb_irrefl. exists 0. rewrite Z.add_0_r, Z.sub_diag. split; [done|].
    split; [lia|by right].
  - apply Forall_cons in Hok as [Hw Hok].
    assert (zlen (w :: addr) = 1 + zlen addr) as Hl by (unfold zlen; simpl; lia).
    destruct (Z.ltb_spec result size).
    2:{ exists 0. replace size with result by lia. rewrite Z.sub_diag, Z.add_0_r.
        split; [done|]. split; [lia|by right]. }
    destruct (nonzero w) eqn:En.
    + apply nonzero_iff in En. destruct (ctz32_spec w Hw En) as (Hr & _).
      destruct (Z.ltb_spec (result + ctz32 w) size).
      * exists (ctz32 w). split; [done|]. apply is_next_found; [done..|lia].
      * exists (size - result). split; [f_equal; lia|]. split; [|by right].
        intros j Hj Hj'. rewrite bit32_cons by lia.
        destruct (Z.ltb_spec j 32); [|lia]. apply ctz32_spec; [done..|lia].
    + assert (w = 0) as -> by (unfold nonzero in En; lia).
      destruct (Z.le_gt_cases (result + 32) size).
      * destruct (IH (result + 32) size) as (r & -> & Hn); [done|lia|].
        exists (r + 32). split; [f_equal; lia|]. apply is_next_skip.
        by replace (size - result - 32) with (size - (result + 32)) by lia.
      * exists (size - result). split.
        { destruct addr; simpl; destruct (Z.ltb_spec (result + 32) size); (lia || f_equal; lia). }
        split; [|by right]. intros j Hj _. rewrite bit32_cons by lia.
        destruct (Z.ltb_spec j 32); [apply Z.bits_0|lia].
Qed.

Lemma find_first_bit32_spec addr size :
  words_ok addr -> 0 <= size <= 32 * zlen addr ->
  exists r, find_first_bit32 addr size = Done r /\ is_next (bit32 addr) 0 size r.
Proof.
  intros Hok Hs. destruct (find_first_bit32_from_spec addr 0 size) as (r & H & Hn);
    [done|lia|]. exists r. rewrite Z.sub_0_r in Hn. by split.
Qed.

(** The search that looks at four words per turn is the one-word search. *)
Lemma find_next_words4_eq p size result : size <= 32 * zlen p ->
  find_next_words4 p size result = find_next_words p size result.
Proof.
  revert size result. induction p as [p IH] using (induction_ltof1 _ length).
  intros size result Hs.
  destruct p as [|w [|d1 [|d2 [|d3 p]]]]; cbn [find_next_words4];
    (destruct (Z.leb_spec (4 * 32) size); [|done]);
    try (unfold zlen in Hs; simpl in Hs; lia).
  cbn [find_next_words].
  destruct (Z.leb_spec 32 size); [|lia].
  destruct (nonzero w); [done|].
  destruct (nonzero (d1 .| d2 .| d3)) eqn:E; [done|].
  assert (d1 .| d2 .| d3 = 0) as E0 by (unfold nonzero in E; lia).
  apply Z.lor_eq_0_iff in E0 as [E0 ->]. apply Z.lor_eq_0_iff in E0 as [-> ->].
  cbn [find_next_words nonzero Z.eqb negb].
  destruct (Z.leb_spec 32 (size - 32)); [|lia].
  destruct (Z.leb_spec 32 (size - 32 - 32)); [|lia].
  destruct (Z.leb_spec 32 (size - 32 - 32 - 32)); [|lia].
  rewrite IH; [f_equal; lia|unfold ltof; simpl; lia|].
  unfold zlen in *. simpl in Hs. lia.
Qed.

Lemma find_next_words_spec p : forall size result,
  words_ok p -> 0 <= size <= 32 * zlen p -> size mod 32 = 0 ->
  exists r, find_next_words p size result = Done (result + r) /\
    is_next (bit32 p) 0 size r.
Proof.
  induction p as [|w p IH]; intros size result Hok Hs Hm; simpl.
  - assert (size = 0) as -> by (unfold zlen in Hs; simpl in Hs; lia). simpl.
    exists 0. rewrite Z.add_0_r. split; [done|]. split; [lia|by right].
  - apply Forall_cons in Hok as [Hw Hok].
    assert (zlen (w :: p) = 1 + zlen p) as Hl by (unfold zlen; simpl; lia).
    destruct (Z.leb_spec 32 size).
    2:{ assert (size = 0) as -> by (rewrite Z.mod_small in Hm; lia). simpl.
        exists 0. rewrite Z.add_0_r. split; [done|]. split; [lia|by right]. }
    destruct (nonzero w) eqn:En.
    + apply nonzero_iff in En. exists (ctz32 w). split; [done|].
      apply is_next_found; try done. destruct (ctz32_spec w Hw En). lia.
    + assert (w = 0) as -> by (unfold nonzero in En; lia).
      destruct (IH (size - 32) (result + 32)) as (r & -> & Hn); [done|lia| |].
      { replace (size - 32) with (size + (-1) * 32) by lia. by rewrite Z.mod_add. }
      exists (r + 32). split; [f_equal; lia|]. by apply is_next_skip.
Qed.

Lemma ldiff_31 x : x .&~ 31 = 32 * (x / 32).
Proof.
  change 31 with (Z.ones 5). rewrite Z.ldiff_ones_r by done.
  rewrite Z.shiftl_mul_pow2, Z.shiftr_div_pow2 by done.
  change (2 ^ 5) with 32. lia.
Qed.

(** The part of [find_next_bit32] that starts inside a word, where [o] is the
    bit to start at. *)
Lemma is_next_in_word w p o size r : in_width 32 w -> 0 <= o < 32 -> 32 <= size ->
  let tmp := w .& u64 (Z.ones 64 .<< o) in
  (tmp <> 0 -> is_next (bit32 (w :: p)) o size (ctz32 tmp)) /\
  (tmp = 0 -> is_next (bit32 p) 0 (size - 32) r ->
    is_next (bit32 (w :: p)) o size (r + 32)).
Proof.
  intros Hw Ho Hs tmp.
  assert (in_width 32 tmp) as Ht.
  { apply in_width_land; [done| |done]. apply wrap_range. done. }
  assert (forall i, 0 <= i < 32 -> Z.testbit tmp i = (o <=? i) && Z.testbit w i) as Hb.
  { intros i Hi. unfold tmp. autorewrite with cbits.
    split_bits; simpl; try lia; by rewrite ?andb_true_r, ?andb_false_r. }
  split.
  - intros Hn. destruct (ctz32_spec tmp Ht Hn) as (Hr & Hc & Hlow).
    rewrite Hb in Hc by done. apply andb_prop in Hc as [Hc1 Hc2].
    apply Z.leb_le in Hc1. split.
    + intros j Hj _. rewrite bit32_cons by lia.
      destruct (Z.ltb_spec j 32); [|lia]. specialize (Hlow j ltac:(lia)).
      rewrite Hb in Hlow by lia. by destruct (Z.leb_spec o j); [|lia].
    + left. split; [lia|]. rewrite bit32_cons by lia.
      by destruct (Z.ltb_spec (ctz32 tmp) 32); [|lia].
  - intros Hz [H1 H2]. split.
    + intros j Hj Hj'. rewrite bit32_cons by lia.
      destruct (Z.ltb_spec j 32); [|apply H1; lia].
      specialize (Hb j ltac:(lia)). rewrite Hz, Z.bits_0 in Hb.
      destruct (Z.leb_spec o j); [done|lia].
    + destruct H2 as [[Hr Hr']| ->]; [|right; lia]. left. split; [lia|].
      rewrite bit32_cons by lia. destruct (Z.ltb_spec (r + 32) 32); [lia|].
      by replace (r + 32 - 32) with r by lia.
Qed.

(** Relating a search in the words from [offset / 32] on to the whole array. *)
Lemma is_next_drop addr offset size r : 0 <= offset < size ->
  is_next (bit32 (drop (Z.to_nat (offset / 32)) addr)) (offset mod 32)
    (size - 32 * (offset / 32)) r ->
  is_next (bit32 addr) offset size (32 * (offset / 32) + r).
Proof.
  intros Ho [H1 H2]. pose proof (Z.div_mod offset 32 ltac:(done)) as Hd.
  pose proof (Z.mod_pos_bound offset 32 eq_refl) as Hm.
  pose proof (Z.div_pos offset 32 ltac:(lia) eq_refl) as Hq.
  set (q := offset / 32) in *. split.
  - intros j Hj Hs. specialize (H1 (j - 32 * q) ltac:(lia) ltac:(lia)).
    rewrite bit32_drop in H1 by lia. rewrite <- H1. f_equal. lia.
  - destruct H2 as [[Hr Hb]| ->]; [left|right; lia]. split; [lia|].
    by rewrite bit32_drop in Hb by lia.
Qed.

Lemma find_next_bit32_spec addr size offset :
  words_ok addr -> 0 <= offset -> 0 <= size <= 32 * zlen addr -> size mod 32 = 0 ->
  exists r, find_next_bit32 addr size offset = Done r /\
    is_next (bit32 addr) offset size r.
Proof.
  intros Hok Ho Hs Hm. unfold find_next_bit32, BIT32_WORD.
  destruct (Z.leb_spec size offset).
  { exists size. split; [done|]. split; [lia|by right]. }
  rewrite ldiff_31. pose proof (Z.div_mod offset 32 ltac:(done)) as Hd.
  pose proof (Z.mod_pos_bound offset 32 eq_refl) as Hmo.
  pose proof (Z.div_pos offset 32 ltac:(lia) eq_refl) as Hq.
  pose proof (is_next_drop addr offset size) as Hdrop.
  set (q := offset / 32) in *. set (o := offset mod 32) in *.
  assert (words_ok (drop (Z.to_nat q) addr)) as Hok' by by apply Forall_drop.
  assert (zlen (drop (Z.to_nat q) addr) = zlen addr - q) as Hl.
  { unfold zlen in *. rewrite length_drop. lia. }
  assert (exists n, size = 32 * n) as [n Hn].
  { exists (size / 32). pose proof (Z.div_mod size 32). lia. }
  assert (q < n) as Hqn by lia.
  destruct (nonzero o) eqn:En.
  - destruct (drop (Z.to_nat q) addr) as [|w p] eqn:Ep.
    { unfold zlen in Hl at 1. simpl in Hl. lia. }
    apply Forall_cons in Hok' as [Hw Hp].
    assert (zlen p = zlen addr - q - 1) as Hl' by (unfold zlen in *; simpl in Hl; lia).
    destruct (Z.ltb_spec (size - 32 * q) 32); [lia|].
    destruct (is_next_in_word w p o (size - 32 * q) 0 Hw Hmo ltac:(lia)) as [Hf _].
    destruct (nonzero (w .& u64 (Z.ones 64 .<< o))) eqn:Et.
    + apply nonzero_iff in Et. eexists. split; [done|]. apply Hdrop; [lia|].
      by apply Hf.
    + rewrite find_next_words4_eq by lia.
      destruct (find_next_words_spec p (size - 32 * q - 32) (32 * q + 32))
        as (r & -> & Hr); [done|lia| |].
      { replace (size - 32 * q - 32) with ((n - q - 1) * 32) by lia. by apply Z.mod_mul. }
      exists (32 * q + (r + 32)). split; [f_equal; lia|]. apply Hdrop; [lia|].
      destruct (is_next_in_word w p o (size - 32 * q) r Hw Hmo ltac:(lia)) as [_ Hf'].
      apply Hf'; [unfold nonzero in Et; lia|done].
  - assert (o = 0) as Eo by (unfold nonzero in En; lia).
    rewrite find_next_words4_eq by lia.
    destruct (find_next_words_spec (drop (Z.to_nat q) addr) (size - 32 * q) (32 * q))
      as (r & -> & Hr); [done|lia| |].
    { replace (size - 32 * q) with ((n - q) * 32) by lia. by apply Z.mod_mul. }
    exists (32 * q + r). split; [done|]. apply Hdrop; [lia|]. by rewrite Eo.
Qed.

(** ** Bit fields *)

Lemma valid_field_iff w start length : valid_field w start length = true <->
  0 <= start /\ 0 < length /\ start + length <= w.
Proof. unfold valid_field. rewrite !andb_true_iff, !Z.leb_le, Z.ltb_lt. lia. Qed.

Ltac field_bits :=
  do 2 (autorewrite with cbits; split_bits; simpl; try lia);
  rewrite ?andb_true_r, ?andb_false_r, ?orb_false_r, ?orb_true_r;
  try done; try (f_equal; lia).

Lemma testbit_extract32 v s l i : valid_field 32 s l = true -> 0 <= i ->
  Z.testbit (extract32 v s l) i = (i <? l) && Z.testbit v (i + s).
Proof. intros ?%valid_field_iff ?. unfold extract32. field_bits. Qed.

Lemma testbit_extract64 v s l i : valid_field 64 s l = true -> 0 <= i ->
  Z.testbit (extract64 v s l) i = (i <? l) && Z.testbit v (i + s).
Proof. intros ?%valid_field_iff ?. unfold extract64. field_bits. Qed.

Lemma testbit_deposit32 v s l f i : valid_field 32 s l = true -> 0 <= i ->
  Z.testbit (deposit32 v s l f) i =
  if (s <=? i) && (i <? s + l) then Z.testbit f (i - s) else Z.testbit v i.
Proof. intros ?%valid_field_iff ?. unfold deposit32. field_bits. Qed.

Lemma testbit_deposit64 v s l f i : valid_field 64 s l = true -> 0 <= i ->
  Z.testbit (deposit64 v s l f) i =
  if (s <=? i) && (i <? s + l) then Z.testbit f (i - s) else Z.testbit v i.
Proof. intros ?%valid_field_iff ?. unfold deposit64. field_bits. Qed.

(** The value of a field just deposited, and of a field apart from it. *)
Lemma extract32_deposit32_same v s l f : valid_field 32 s l = true ->
  extract32 (deposit32 v s l f) s l = wrap l f.
Proof.
  intros Hf. pose proof (proj1 (valid_field_iff _ _ _) Hf) as (? & ? & ?).
  apply Z.bits_inj'. intros i Hi.
  rewrite testbit_extract32, testbit_deposit32, testbit_wrap by (done || lia).
  split_bits; simpl; try lia; try done. f_equal. lia.
Qed.

Lemma extract32_deposit32_other v s l f s' l' :
  valid_field 32 s l = true -> valid_field 32 s' l' = true ->
  s + l <= s' \/ s' + l' <= s ->
  extract32 (deposit32 v s l f) s' l' = extract32 v s' l'.
Proof.
  intros Hf Hf' Hd. pose proof (proj1 (valid_field_iff _ _ _) Hf) as (? & ? & ?).
  pose proof (proj1 (valid_field_iff _ _ _) Hf') as (? & ? & ?).
  apply Z.bits_inj'. intros i Hi.
  rewrite !testbit_extract32, testbit_deposit32 by (done || lia).
  split_bits; simpl; try lia; done.
Qed.

Lemma extract64_deposit64_same v s l f : valid_field 64 s l = true ->
  extract64 (deposit64 v s l f) s l = wrap l f.
Proof.
  intros Hf. pose proof (proj1 (valid_field_iff _ _ _) Hf) as (? & ? & ?).
  apply Z.bits_inj'. intros i Hi.
  rewrite testbit_extract64, testbit_deposit64, testbit_wrap by (done || lia).
  split_bits; simpl; try lia; try done. f_equal. lia.
Qed.

Lemma extract64_deposit64_other v s l f s' l' :
  valid_field 64 s l = true -> valid_field 64 s' l' = true ->
  s + l <= s' \/ s' + l' <= s ->
  extract64 (deposit64 v s l f) s' l' = extract64 v s' l'.
Proof.
  intros Hf Hf' Hd. pose proof (proj1 (valid_field_iff _ _ _) Hf) as (? & ? & ?).
  pose proof (proj1 (valid_field_iff _ _ _) Hf') as (? & ? & ?).
  apply Z.bits_inj'. intros i Hi.
  rewrite !testbit_extract64, testbit_deposit64 by (done || lia).
  split_bits; simpl; try lia; done.
Qed.

Lemma deposit32_width v s l f : valid_field 32 s l = true ->
  in_width 32 v -> in_width 32 (deposit32 v s l f).
Proof.
  intros ?%valid_field_iff Hv. unfold deposit32. apply in_width_lor; [done| |].
  - by apply in_width_ldiff.
  - apply in_width_land; [done| |by apply wrap_range]. apply (wrap_range 32); done.
Qed.

Lemma deposit64_width v s l f : valid_field 64 s l = true ->
  in_width 64 v -> in_width 64 (deposit64 v s l f).
Proof.
  intros ?%valid_field_iff Hv. unfold deposit64. apply in_width_lor; [done| |].
  - by apply in_width_ldiff.
  - apply in_width_land; [done| |by apply wrap_range]. apply (wrap_range 64); done.
Qed.

Lemma extract32_width v s l : valid_field 32 s l = true -> 0 <= v ->
  in_width l (extract32 v s l).
Proof.
  intros Hf Hv. pose proof (proj1 (valid_field_iff _ _ _) Hf) as (? & ? & ?).
  apply in_width_iff; [lia|]. split.
  - apply Z.land_nonneg. left. by apply Z.shiftr_nonneg.
  - intros i Hi. rewrite testbit_extract32 by (done || lia).
    destruct (Z.ltb_spec i l); [lia|done].
Qed.

(** A one-bit field read back. *)
Lemma extract32_bit v s : 0 <= s < 32 -> extract32 v s 1 = Z.b2z (Z.testbit v s).
Proof.
  intros Hs. apply Z.bits_inj'. intros i Hi.
  rewrite testbit_extract32 by (done || (apply valid_field_iff; lia)).
  destruct (Z.ltb_spec i 1); simpl.
  - replace i with 0 by lia. by rewrite Z.b2z_bit0.
  - symmetry. apply (testbit_high 1); [|lia]. unfold in_width.
    by destruct (Z.testbit v s).
Qed.

#[export] Hint Resolve deposit32_width deposit64_width : width.

(** ** Properties *)

(** [find_next_bit32] returns the least set bit at or after [offset] and
    below [size], and [size] itself when there is none, for a size that is a
    whole number of words; it reads nothing outside the words given. *)
Theorem find_next_bit32_least addr size offset :
  words_ok addr -> 0 <= offset -> 0 <= size <= 32 * zlen addr -> size mod 32 = 0 ->
  exists r, find_next_bit32 addr size offset = Done r /\
    is_next (bit32 addr) offset size r.
Proof. intros. by apply find_next_bit32_spec. Qed.

Lemma find_next_bit32_least_witness :
  exists r, find_next_bit32 [0; 5] 64 33 = Done r /\ is_next (bit32 [0; 5]) 33 64 r.
Proof.
  apply (find_next_bit32_least [0; 5] 64 33); [|done|done|done].
  repeat constructor; vm_compute; congruence.
Defined.

(** For a size that is not a whole number of words the result is not
    bounded by the size: the mask of the last word is computed at 64 bits and
    keeps the bits above the size. *)
Theorem find_next_bit32_partial : find_next_bit32 [BIT 20] 10 0 = Done 20.
Proof. reflexivity. Qed.
