(* ===== verification/Aic.v ===== *)
(** * Apple Interrupt Controller

    Model of [hw/intc/apple_aic.c].  The state is [AppleAICState] with the
    per-CPU structures [AppleAICCPU]; the [void *opaque] of the register
    callbacks, a pointer to one CPU structure, is that CPU's index [o].  A
    [qemu_irq] line is the level it was last set to. *)

From S2P Require Import Prelude Bitops.

Definition AIC_INT_COUNT : Z := 576.
Definition AIC_CPU_COUNT : Z := 6.
Definition AIC_VERSION : Z := 2.

Definition REG_AIC_REV : Z := 0x0000.
Definition REG_AIC_CAP0 : Z := 0x0004.
Definition REG_AIC_RST : Z := 0x000C.
Definition REG_AIC_GLB_CFG : Z := 0x0010.
Definition REG_AIC_WHOAMI : Z := 0x2000.
Definition REG_AIC_IACK : Z := 0x2004.
Definition REG_AIC_IPI_SET : Z := 0x2008.
Definition REG_AIC_IPI_CLR : Z := 0x200C.
Definition REG_AIC_IPI_MASK_SET : Z := 0x2024.
Definition REG_AIC_IPI_MASK_CLR : Z := 0x2028.
Definition REG_AIC_IPI_DEFER_SET : Z := 0x202C.
Definition REG_AIC_IPI_DEFER_CLR : Z := 0x2030.
Definition AIC_IPI_NORMAL : Z := BIT 0.
Definition AIC_IPI_SELF : Z := BIT 31.

Definition REG_AIC_EIR_DEST (n : Z) : Z := 0x3000 + n * 4.
Definition REG_AIC_EIR_SW_SET (n : Z) : Z := 0x4000 + n * 4.
Definition REG_AIC_EIR_SW_CLR (n : Z) : Z := 0x4080 + n * 4.
Definition REG_AIC_EIR_MASK_SET (n : Z) : Z := 0x4100 + n * 4.
Definition REG_AIC_EIR_MASK_CLR (n : Z) : Z := 0x4180 + n * 4.
Definition REG_AIC_EIR_INT_RO (n : Z) : Z := 0x4200 + n * 4.
Definition REG_AIC_WHOAMI_Pn (n : Z) : Z := 0x5000 + n * 0x80.

Definition kAIC_INT_SPURIOUS : Z := 0x00000.
Definition kAIC_INT_EXT : Z := 0x10000.
Definition kAIC_INT_IPI : Z := 0x40000.
Definition kAIC_INT_IPI_NORM : Z := 0x40001.
Definition kAIC_INT_IPI_SELF : Z := 0x40002.
Definition AIC_INT_EXTID (v : Z) : Z := v .& 0x3FF.

Definition kAIC_NUM_EIRS : Z := AIC_INT_COUNT .>> 5.
Definition kAICWT : Z := 64000.
Definition kCNTFRQ : Z := 24000000.

Record AppleAICCPU := mkCPU {
  cpu_id : Z;
  irq : bool;
  pendingIPI : Z;
  deferredIPI : Z;
  ipi_mask : Z;
}.
#[global] Instance eta_AppleAICCPU : Eta AppleAICCPU := fun r =>
  mkCPU (cpu_id r) (irq r) (pendingIPI r) (deferredIPI r) (ipi_mask r).

Record AppleAICState := mkAIC {
  numEIR : Z;
  numIRQ : Z;
  numCPU : Z;
  global_cfg : Z;
  time_base : Z;
  eir_mask : list Z;
  eir_dest : list Z;
  eir_state : list Z;
  cpus : list AppleAICCPU;
  timer : Z;
}.
#[global] Instance eta_AppleAICState : Eta AppleAICState := fun r =>
  mkAIC (numEIR r) (numIRQ r) (numCPU r) (global_cfg r) (time_base r)
    (eir_mask r) (eir_dest r) (eir_state r) (cpus r) (timer r).

(** [apple_aic_emulate_timer]; [now] is [qemu_clock_get_ns(QEMU_CLOCK_VIRTUAL)]. *)
Definition apple_aic_emulate_timer (now : Z) : Z :=
  let period_ns :=
    if kCNTFRQ <? NANOSECONDS_PER_SECOND then NANOSECONDS_PER_SECOND / kCNTFRQ
    else 1 in
  u64 (now / period_ns).

(** ** [apple_aic_update] *)

(** The first loop of the update: deferred IPIs become pending. *)
Definition merge_deferred (c : AppleAICCPU) : AppleAICCPU :=
  c <| pendingIPI := pendingIPI c .| deferredIPI c |> <| deferredIPI := 0 |>.

(** The condition under which the second loop selects a CPU. *)
Definition ipi_self_active (c : AppleAICCPU) : bool :=
  nonzero ((pendingIPI c .& AIC_IPI_SELF) .&~ ipi_mask c).

Definition ipi_normal_active (n : Z) (c : AppleAICCPU) : bool :=
  nonzero (AIC_IPI_NORMAL .&~ ipi_mask c) &&
  nonzero (pendingIPI c .& ((1 .<< n) - 1)).

Fixpoint ipi_scan (n i : Z) (cs : list AppleAICCPU) (intr : Z) : Z :=
  match cs with
  | [] => intr
  | c :: cs' =>
      let intr := if ipi_self_active c then intr .| BIT i else intr in
      let intr := if ipi_normal_active n c then intr .| BIT i else intr in
      ipi_scan n (i + 1) cs' intr
  end.

(** The search for a further CPU that may take an earlier interrupt. *)
Fixpoint pick_potential (ks : list Z) (intr potential : Z) : Z :=
  match ks with
  | [] => intr
  | k :: ks' =>
      if (intr .& BIT k =? 0) && nonzero (potential .& BIT k) then intr .| BIT k
      else pick_potential ks' intr potential
  end.

(** One turn of the [while] loop, for the pending interrupt [i]. *)
Definition eir_turn (s : AppleAICState) (i intr potential : Z) : outcome (Z * Z) :=
  m ← test_bit32 i (eir_mask s);
  dest ← aget (eir_dest s) i;
  if (m =? 0) && nonzero dest then
    if intr .& dest =? 0 then
      cpu ← find_first_bit32 (drop (Z.to_nat i) (eir_dest s)) (numCPU s);
      mret (intr .| BIT cpu, potential .| dest)
    else mret (pick_potential (seqZ 0 (numCPU s)) intr potential, potential)
  else mret (intr, potential).

Fixpoint eir_scan (fuel : nat) (s : AppleAICState) (i intr potential : Z)
    : outcome Z :=
  match fuel with
  | O => NoFuel
  | S fuel' =>
      j ← find_next_bit32 (eir_state s) (numIRQ s) (i + 1);
      if j <? numIRQ s then
        ip ← eir_turn s j intr potential;
        eir_scan fuel' s j (fst ip) (snd ip)
      else mret intr
  end.

(** The last loop: raise the lines of the selected CPUs. *)
Definition raise_selected (intr : Z) (cs : list AppleAICCPU) : list AppleAICCPU :=
  imap (fun i c => if nonzero (intr .& BIT (Z.of_nat i)) then c <| irq := true |> else c) cs.

Definition apple_aic_update (s : AppleAICState) : outcome AppleAICState :=
  let s := s <| cpus ::= map merge_deferred |> in
  let intr := ipi_scan (numCPU s) 0 (cpus s) 0 in
  intr ← eir_scan (S (Z.to_nat (numIRQ s))) s (-1) intr 0;
  mret (s <| cpus ::= raise_selected intr |>).

Definition apple_aic_set_irq (s : AppleAICState) (n level : Z) : outcome AppleAICState :=
  st ← (if nonzero level then set_bit32 n (eir_state s)
        else clear_bit32 n (eir_state s));
  mret (s <| eir_state := st |>).

Definition apple_aic_tick (s : AppleAICState) (now : Z) : outcome AppleAICState :=
  s ← apple_aic_update s;
  mret (s <| timer := now + kAICWT |>).

Definition reset_cpu (c : AppleAICCPU) : AppleAICCPU :=
  c <| ipi_mask := AIC_IPI_NORMAL .| AIC_IPI_SELF |>
    <| pendingIPI := 0 |> <| deferredIPI := 0 |>.

(** [memset] covers [numEIR] words of the mask and [numIRQ] of the routes. *)
Definition apple_aic_reset (s : AppleAICState) : AppleAICState :=
  s <| eir_mask := replicate (Z.to_nat (numEIR s)) 0xFFFFFFFF |>
    <| eir_dest := replicate (Z.to_nat (numIRQ s)) 0 |>
    <| cpus ::= map reset_cpu |>.

(** ** Registers *)

Definition in_range (lo hi addr : Z) : bool := (lo <=? addr) && (addr <=? hi).

(** [set_bit32] and [clear_bit32] on one word, for a bit number below 32. *)
Definition set_bit32_in (nr w : Z) : Z := w .| BIT32_MASK nr.
Definition clear_bit32_in (nr w : Z) : Z := w .&~ BIT32_MASK nr.

(** A [for] loop over the CPUs that acts on those named by the bits of [val]. *)
Definition for_selected (val : Z) (f : AppleAICCPU -> AppleAICCPU)
    (cs : list AppleAICCPU) : list AppleAICCPU :=
  imap (fun i c => if nonzero (val .& BIT (Z.of_nat i)) then f c else c) cs.

Definition ipi_send (id : Z) (c : AppleAICCPU) : AppleAICCPU :=
  let c := c <| pendingIPI ::= set_bit32_in id |> in
  if nonzero (AIC_IPI_NORMAL .&~ ipi_mask c) then c <| irq := true |> else c.

Definition ipi_send_self (c : AppleAICCPU) : AppleAICCPU :=
  let c := c <| pendingIPI ::= Z.lor AIC_IPI_SELF |> in
  if nonzero (AIC_IPI_SELF .&~ ipi_mask c) then c <| irq := true |> else c.

(** The four IPI request registers act on the selected CPUs and then, when
    [AIC_IPI_SELF] is written, on the CPU that made the access. *)
Definition ipi_request (s : AppleAICState) (o val : Z)
    (each self : AppleAICCPU -> AppleAICCPU) : outcome AppleAICState :=
  let s := s <| cpus ::= for_selected val each |> in
  if nonzero (val .& AIC_IPI_SELF) then
    cs ← aupd (cpus s) o self;
    mret (s <| cpus := cs |>)
  else mret s.

Fixpoint aic_write (fuel : nat) (s : AppleAICState) (o addr data : Z)
    : outcome AppleAICState :=
  let val := u32 data in
  c ← aget (cpus s) o;
  let id := cpu_id c in
  if addr =? REG_AIC_RST then mret (apple_aic_reset s)
  else if addr =? REG_AIC_GLB_CFG then mret (s <| global_cfg := u32 data |>)
  else if addr =? REG_AIC_IPI_SET then
    ipi_request s o val (ipi_send id) ipi_send_self
  else if addr =? REG_AIC_IPI_CLR then
    ipi_request s o val (setf pendingIPI (clear_bit32_in id))
      (setf pendingIPI (fun w => w .&~ AIC_IPI_SELF))
  else if addr =? REG_AIC_IPI_MASK_SET then
    cs ← aupd (cpus s) o
      (setf ipi_mask (Z.lor (val .& (AIC_IPI_NORMAL .| AIC_IPI_SELF))));
    mret (s <| cpus := cs |>)
  else if addr =? REG_AIC_IPI_MASK_CLR then
    cs ← aupd (cpus s) o
      (setf ipi_mask (fun w => w .&~ (val .& (AIC_IPI_NORMAL .| AIC_IPI_SELF))));
    mret (s <| cpus := cs |>)
  else if addr =? REG_AIC_IPI_DEFER_SET then
    ipi_request s o val (setf deferredIPI (set_bit32_in id))
      (setf deferredIPI (Z.lor AIC_IPI_SELF))
  else if addr =? REG_AIC_IPI_DEFER_CLR then
    ipi_request s o val (setf deferredIPI (clear_bit32_in id))
      (setf deferredIPI (fun w => w .&~ AIC_IPI_SELF))
  else if in_range (REG_AIC_EIR_DEST 0) (REG_AIC_EIR_DEST AIC_INT_COUNT) addr then
    let vector := u32 ((addr - REG_AIC_EIR_DEST 0) / 4) in
    if numIRQ s <=? vector then mret s
    else l ← aset (eir_dest s) vector val; mret (s <| eir_dest := l |>)
  else if in_range (REG_AIC_EIR_SW_SET 0) (REG_AIC_EIR_SW_SET kAIC_NUM_EIRS) addr then
    let eir := u32 ((addr - REG_AIC_EIR_SW_SET 0) / 4) in
    if numEIR s <=? eir then mret s
    else l ← aupd (eir_state s) eir (fun w => w .| val); mret (s <| eir_state := l |>)
  else if in_range (REG_AIC_EIR_SW_CLR 0) (REG_AIC_EIR_SW_CLR kAIC_NUM_EIRS) addr then
    let eir := u32 ((addr - REG_AIC_EIR_SW_CLR 0) / 4) in
    if numEIR s <=? eir then mret s
    else l ← aupd (eir_state s) eir (fun w => w .&~ val); mret (s <| eir_state := l |>)
  else if in_range (REG_AIC_EIR_MASK_SET 0) (REG_AIC_EIR_MASK_SET kAIC_NUM_EIRS) addr then
    let eir := u32 ((addr - REG_AIC_EIR_MASK_SET 0) / 4) in
    if numEIR s <=? eir then mret s
    else l ← aupd (eir_mask s) eir (fun w => w .| val); mret (s <| eir_mask := l |>)
  else if in_range (REG_AIC_EIR_MASK_CLR 0) (REG_AIC_EIR_MASK_CLR kAIC_NUM_EIRS) addr then
    let eir := u32 ((addr - REG_AIC_EIR_MASK_CLR 0) / 4) in
    if numEIR s <=? eir then mret s
    else l ← aupd (eir_mask s) eir (fun w => w .&~ val); mret (s <| eir_mask := l |>)
  else if in_range (REG_AIC_WHOAMI_Pn 0) (REG_AIC_WHOAMI_Pn AIC_CPU_COUNT - 4) addr then
    let cpu := u32 ((addr - 0x5000) / 0x80) in
    if numCPU s <=? cpu then mret s
    else
      match fuel with
      | O => NoFuel
      | S fuel' => aic_write fuel' s cpu (addr - 0x5000 + 0x2000 - 0x80 * cpu) data
      end
  else mret s.

(** The recursive call leaves the window of the other CPUs, so one level of
    recursion is enough. *)
Definition apple_aic_write : AppleAICState -> Z -> Z -> Z -> outcome AppleAICState :=
  aic_write 1.

(** The loop of the acknowledge register: the first pending interrupt that is
    not masked and is routed to CPU [id] is masked and returned. *)
Fixpoint iack_scan (fuel : nat) (s : AppleAICState) (id i : Z)
    : outcome (Z * AppleAICState) :=
  match fuel with
  | O => NoFuel
  | S fuel' =>
      j ← find_next_bit32 (eir_state s) (numIRQ s) (i + 1);
      if j <? numIRQ s then
        m ← test_bit32 j (eir_mask s);
        dest ← aget (eir_dest s) j;
        if (m =? 0) && nonzero (dest .& BIT id) then
          l ← set_bit32 j (eir_mask s);
          mret (kAIC_INT_EXT .| AIC_INT_EXTID j, s <| eir_mask := l |>)
        else iack_scan fuel' s id j
      else mret (kAIC_INT_SPURIOUS, s)
  end.

Definition apple_aic_iack (s : AppleAICState) (o : Z) : outcome (Z * AppleAICState) :=
  cs ← aupd (cpus s) o (setf irq (fun _ => false));
  let s := s <| cpus := cs |> in
  c ← aget (cpus s) o;
  if ipi_self_active c then
    cs ← aset (cpus s) o (c <| ipi_mask ::= Z.lor AIC_IPI_SELF |>);
    mret (kAIC_INT_IPI .| kAIC_INT_IPI_SELF, s <| cpus := cs |>)
  else if ipi_normal_active (numCPU s) c then
    cs ← aset (cpus s) o (c <| ipi_mask ::= Z.lor AIC_IPI_NORMAL |>);
    mret (kAIC_INT_IPI .| kAIC_INT_IPI_NORM, s <| cpus := cs |>)
  else iack_scan (S (Z.to_nat (numIRQ s))) s (cpu_id c) (-1).

Fixpoint aic_read (fuel : nat) (s : AppleAICState) (o addr now : Z)
    : outcome (Z * AppleAICState) :=
  c ← aget (cpus s) o;
  let minus_one := u64 (-1) in
  if addr =? REG_AIC_REV then mret (AIC_VERSION, s)
  else if addr =? REG_AIC_CAP0 then
    mret (u64 (u64 (numCPU s - 1) .<< 16) .| numIRQ s, s)
  else if addr =? REG_AIC_GLB_CFG then mret (global_cfg s, s)
  else if addr =? REG_AIC_WHOAMI then mret (cpu_id c, s)
  else if addr =? REG_AIC_IACK then apple_aic_iack s o
  else if (addr =? REG_AIC_IPI_MASK_SET) || (addr =? REG_AIC_IPI_MASK_CLR) then
    mret (ipi_mask c, s)
  else if in_range (REG_AIC_EIR_DEST 0) (REG_AIC_EIR_DEST AIC_INT_COUNT) addr then
    let vector := u32 ((addr - REG_AIC_EIR_DEST 0) / 4) in
    if numIRQ s <=? vector then mret (minus_one, s)
    else v ← aget (eir_dest s) vector; mret (v, s)
  else if in_range (REG_AIC_EIR_MASK_SET 0) (REG_AIC_EIR_MASK_SET kAIC_NUM_EIRS) addr then
    let eir := u32 ((addr - REG_AIC_EIR_MASK_SET 0) / 4) in
    if numEIR s <=? eir then mret (minus_one, s)
    else v ← aget (eir_mask s) eir; mret (v, s)
  else if in_range (REG_AIC_EIR_MASK_CLR 0) (REG_AIC_EIR_MASK_CLR kAIC_NUM_EIRS) addr then
    let eir := u32 ((addr - REG_AIC_EIR_MASK_CLR 0) / 4) in
    if numEIR s <=? eir then mret (minus_one, s)
    else v ← aget (eir_mask s) eir; mret (v, s)
  else if in_range (REG_AIC_EIR_INT_RO 0) (REG_AIC_EIR_INT_RO kAIC_NUM_EIRS) addr then
    let eir := u32 ((addr - REG_AIC_EIR_INT_RO 0) / 4) in
    if numEIR s <=? eir then mret (minus_one, s)
    else v ← aget (eir_state s) eir; mret (v, s)
  else if in_range (REG_AIC_WHOAMI_Pn 0) (REG_AIC_WHOAMI_Pn AIC_CPU_COUNT - 4) addr then
    let cpu := u32 ((addr - 0x5000) / 0x80) in
    if numCPU s <=? cpu then mret (minus_one, s)
    else
      match fuel with
      | O => NoFuel
      | S fuel' => aic_read fuel' s cpu (addr - 0x5000 + 0x2000 - 0x80 * cpu) now
      end
  else if addr =? u32 (time_base s + 0x20) then
    mret (apple_aic_emulate_timer now .& 0xFFFFFFFF, s)
  else if addr =? u32 (time_base s + 0x28) then
    mret ((apple_aic_emulate_timer now .>> 32) .& 0xFFFFFFFF, s)
  else mret (minus_one, s).

Definition apple_aic_read : AppleAICState -> Z -> Z -> Z -> outcome (Z * AppleAICState) :=
  aic_read 1.

(** The state that [apple_aic_create] and [apple_aic_realize] build, from the
    length of the property "ipid-mask", the number of CPUs and the difference
    of the two "reg" properties. *)
Definition apple_aic_realize (ipid_mask_len ncpu tb : Z) : outcome AppleAICState :=
  _ ← c_assert (nonzero ncpu);
  let eirs := ipid_mask_len / 4 in
  let irqs := u32 (eirs * 32) in
  mret {| numEIR := eirs; numIRQ := irqs; numCPU := ncpu; global_cfg := 0;
          time_base := u32 tb;
          eir_mask := replicate (Z.to_nat eirs) 0;
          eir_dest := replicate (Z.to_nat irqs) 0;
          eir_state := replicate (Z.to_nat eirs) 0;
          cpus := map (fun i => mkCPU i false 0 0 0) (seqZ 0 ncpu);
          timer := kAICWT |}.

(** ** Well-formed states *)

Definition cpu_ok (i : nat) (c : AppleAICCPU) : Prop :=
  cpu_id c = Z.of_nat i /\ in_width 32 (pendingIPI c) /\
  in_width 32 (deferredIPI c) /\ in_width 32 (ipi_mask c).

(** The arrays have the sizes that [apple_aic_realize] allocates and hold
    32-bit words; at most 30 CPUs fit the shifts of the source and at most
    1024 interrupts the identifier that IACK returns. *)
Record aic_wf (s : AppleAICState) : Prop := {
  wf_numIRQ : numIRQ s = 32 * numEIR s;
  wf_limit : 0 <= numEIR s <= 32;
  wf_numCPU : 0 < numCPU s <= 30;
  wf_mask : zlen (eir_mask s) = numEIR s /\ words_ok (eir_mask s);
  wf_state : zlen (eir_state s) = numEIR s /\ words_ok (eir_state s);
  wf_dest : zlen (eir_dest s) = numIRQ s /\ words_ok (eir_dest s);
  wf_cpus : zlen (cpus s) = numCPU s;
  wf_cpu_ok : forall i c, cpus s !! i = Some c -> cpu_ok i c;
}.

Definition dest_of (s : AppleAICState) (i : Z) : Z :=
  default 0 (eir_dest s !! Z.to_nat i).

(** Interrupt [i] is pending and not masked. *)
Definition eligible (s : AppleAICState) (i : Z) : Prop :=
  0 <= i < numIRQ s /\ bit32 (eir_state s) i = true /\ bit32 (eir_mask s) i = false.

Section Scan.
Context (s : AppleAICState) (Hwf : aic_wf s).

Lemma dest_of_get i : 0 <= i < numIRQ s ->
  aget (eir_dest s) i = Done (dest_of s i) /\ in_width 32 (dest_of s i).
Proof.
  intros Hi. destruct (wf_dest s Hwf) as [Hl Hok].
  destruct (aget_in_range (eir_dest s) i) as [d Hd]; [lia|]. rewrite Hd.
  apply aget_Done in Hd as [_ Hd]. unfold dest_of. rewrite Hd. simpl. split; [done|].
  by eapply Forall_lookup_1 in Hok.
Qed.

Lemma mask_get i : 0 <= i < numIRQ s ->
  test_bit32 i (eir_mask s) = Done (Z.b2z (bit32 (eir_mask s) i)).
Proof.
  intros Hi. apply test_bit32_ok. destruct (wf_mask s Hwf) as [-> _].
  by rewrite <- (wf_numIRQ s Hwf).
Qed.

Lemma next_pending i : -1 <= i ->
  exists j, find_next_bit32 (eir_state s) (numIRQ s) (i + 1) = Done j /\
    is_next (bit32 (eir_state s)) (i + 1) (numIRQ s) j.
Proof.
  intros Hi. destruct (wf_state s Hwf) as [Hl Hok].
  pose proof (wf_numIRQ s Hwf). pose proof (wf_limit s Hwf).
  apply find_next_bit32_spec; [done|lia|lia|].
  rewrite wf_numIRQ, Z.mul_comm by done. by apply Z.mod_mul.
Qed.

Lemma first_dest i : 0 <= i < numIRQ s -> dest_of s i <> 0 ->
  exists r, find_first_bit32 (drop (Z.to_nat i) (eir_dest s)) (numCPU s) = Done r /\
    0 <= r <= numCPU s /\
    (r < numCPU s -> Z.testbit (dest_of s i) r = true) /\
    (r = numCPU s -> forall k, 0 <= k < numCPU s -> Z.testbit (dest_of s i) k = false).
Proof.
  intros Hi Hd. destruct (wf_dest s Hwf) as [Hl Hok].
  pose proof (wf_numCPU s Hwf) as Hc.
  destruct (dest_of_get i Hi) as [Hg _]. apply aget_Done in Hg as [_ Hg].
  apply drop_S in Hg as Hdrop. rewrite Hdrop.
  destruct (find_first_bit32_spec (drop (Z.to_nat i) (eir_dest s)) (numCPU s))
    as (r & Hr & H1 & H2).
  { by apply Forall_drop. }
  { unfold zlen in *. rewrite length_drop. lia. }
  rewrite Hdrop in Hr, H1, H2. exists r. split; [done|].
  split; [destruct H2; lia|]. split.
  - intros Hlt. destruct H2 as [[? Hb]|]; [|lia]. rewrite bit32_cons in Hb by lia.
    by destruct (Z.ltb_spec r 32); [|lia].
  - intros -> k Hk. specialize (H1 k Hk ltac:(lia)). rewrite bit32_cons in H1 by lia.
    by destruct (Z.ltb_spec k 32); [|lia].
Qed.

(** [pick_potential] adds at most one CPU, taken from [potential]. *)
Lemma pick_potential_spec ks intr potential :
  (forall k, In k ks -> 0 <= k) ->
  (forall k, Z.testbit intr k = true ->
     Z.testbit (pick_potential ks intr potential) k = true) /\
  (forall k, Z.testbit (pick_potential ks intr potential) k = true ->
     Z.testbit intr k = true \/ In k ks /\ Z.testbit potential k = true).
Proof.
  induction ks as [|k0 ks IH]; intros Hks; simpl; [by split; auto|].
  destruct (_ && _) eqn:E.
  - apply andb_prop in E as [_ E]. rewrite land_BIT_nonzero in E by (apply Hks; by left).
    split; intros k; rewrite Z.lor_spec, testbit_BIT by (apply Hks; by left).
    + by intros ->.
    + destruct (Z.eqb_spec k0 k) as [->|]; [naive_solver|].
      rewrite orb_false_r. auto.
  - destruct IH as [H1 H2]; [naive_solver|]. split; [done|]. naive_solver.
Qed.

(** One turn keeps what was selected, serves the interrupt when it has a
    CPU, and selects only CPUs with a reason. *)
Lemma eir_turn_spec i intr potential : 0 <= i < numIRQ s ->
  exists intr' potential', eir_turn s i intr potential = Done (intr', potential') /\
    (forall k, Z.testbit intr k = true -> Z.testbit intr' k = true) /\
    (forall k, Z.testbit intr' k = true -> k < numCPU s ->
       Z.testbit intr k = true \/ Z.testbit potential k = true \/
       bit32 (eir_mask s) i = false /\ Z.testbit (dest_of s i) k = true) /\
    (forall k, Z.testbit potential' k = true -> Z.testbit potential k = true \/
       bit32 (eir_mask s) i = false /\ Z.testbit (dest_of s i) k = true) /\
    (bit32 (eir_mask s) i = false -> dest_of s i <> 0 ->
       intr' .& dest_of s i <> 0 \/
       forall k, 0 <= k < numCPU s -> Z.testbit (dest_of s i) k = false).
Proof.
  intros Hi. unfold eir_turn. rewrite mask_get by done. simpl.
  destruct (dest_of_get i Hi) as [-> Hw]. simpl.
  set (d := dest_of s i) in *. destruct (bit32 (eir_mask s) i) eqn:Em; simpl.
  { exists intr, potential. repeat split; auto; done. }
  destruct (nonzero d) eqn:En; [apply nonzero_iff in En|].
  2:{ exists intr, potential. repeat split; auto.
      intros _ Hd. apply nonzero_iff in Hd. congruence. }
  destruct (Z.eqb_spec (intr .& d) 0) as [E|E].
  - destruct (first_dest i Hi En) as (r & -> & Hr & Hr1 & Hr2). simpl.
    exists (intr .| BIT r), (potential .| d). split; [done|].
    repeat split; intros k; rewrite ?Z.lor_spec, ?testbit_BIT by lia.
    + by intros ->.
    + intros [?|Hk]%orb_prop Hlt; [by left|]. apply Z.eqb_eq in Hk as <-.
      right; right. split; [done|]. by apply Hr1.
    + intros [?|?]%orb_prop; auto.
    + destruct (decide (r = numCPU s)) as [Heq|]; [right; by apply Hr2|left].
      apply (bit_nonzero _ r). rewrite Z.land_spec, Z.lor_spec, testbit_BIT by lia.
      rewrite Z.eqb_refl, orb_true_r. simpl. apply Hr1. lia.
  - destruct (pick_potential_spec (seqZ 0 (numCPU s)) intr potential) as [H1 H2].
    { intros k Hk. apply list_elem_of_In, elem_of_seqZ in Hk. lia. }
    eexists _, potential. split; [done|]. repeat split; auto.
    + intros k Hk _. destruct (H2 k Hk) as [|[_ ?]]; auto.
    + intros _ _. left. assert (0 < intr .& d \/ intr .& d < 0) as [Hp|Hp] by lia.
      * apply nonzero_bit in Hp as (k & _ & Hk). rewrite Z.land_spec in Hk.
        apply andb_prop in Hk as [Hk1 Hk2].
        apply (bit_nonzero _ k). by rewrite Z.land_spec, H1.
      * unfold in_width in Hw. pose proof (proj2 (Z.land_nonneg intr d)). lia.
Qed.

Definition routed (i k : Z) : Prop :=
  eligible s i /\ Z.testbit (dest_of s i) k = true.

Lemma eir_scan_spec fuel : forall i intr potential,
  -1 <= i < numIRQ s -> numIRQ s - i <= Z.of_nat fuel ->
  exists intr', eir_scan fuel s i intr potential = Done intr' /\
    (forall k, Z.testbit intr k = true -> Z.testbit intr' k = true) /\
    (forall k, Z.testbit intr' k = true -> k < numCPU s ->
       Z.testbit intr k = true \/ Z.testbit potential k = true \/
       exists j, routed j k) /\
    (forall j, i < j -> eligible s j -> dest_of s j <> 0 ->
       intr' .& dest_of s j <> 0 \/
       forall k, 0 <= k < numCPU s -> Z.testbit (dest_of s j) k = false).
Proof.
  induction fuel as [|fuel IH]; intros i intr potential Hi Hf; [lia|].
  cbn [eir_scan]. destruct (next_pending i) as (j & -> & Hnext & Hj); [lia|].
  cbn [mbind outcome_bind].
  assert (forall n, i < n < j -> ~ eligible s n) as Hskip.
  { intros n Hn (Hr & Hb & _). rewrite Hnext in Hb by lia. done. }
  destruct (Z.ltb_spec j (numIRQ s)).
  - destruct Hj as [[Hj Hbit]|]; [|lia].
    destruct (eir_turn_spec j intr potential) as
      (intr1 & pot1 & -> & Hmono & Hwhy & Hpot & Hserve); [lia|].
    cbn [mbind outcome_bind fst snd].
    destruct (IH j intr1 pot1) as (intr' & -> & Hmono' & Hwhy' & Hserve'); [lia..|].
    exists intr'. split; [done|]. split; [auto|].
    assert (bit32 (eir_mask s) j = false -> eligible s j) as Hel by (split; auto; lia).
    split.
    + intros k Hk Hlt. destruct (Hwhy' k Hk Hlt) as [H1|[H1|H1]]; [| |auto].
      * destruct (Hwhy k H1 Hlt) as [?|[?|[??]]]; unfold routed; eauto 6.
      * destruct (Hpot k H1) as [?|[??]]; unfold routed; eauto 6.
    + intros n Hn He Hd. destruct (Z.lt_trichotomy n j) as [|[->|]].
      * exfalso. apply (Hskip n); [lia|done].
      * destruct He as (_ & _ & Hm). destruct (Hserve Hm Hd) as [Hs|]; [left|by right].
        destruct (dest_of_get j ltac:(lia)) as [_ Hw].
        assert (0 < intr1 .& dest_of s j) as Hp.
        { pose proof (proj2 (Z.land_nonneg intr1 (dest_of s j))).
          unfold in_width in Hw. lia. }
        apply nonzero_bit in Hp as (k & _ & Hk). rewrite Z.land_spec in Hk.
        apply andb_prop in Hk as [Hk1 Hk2]. apply (bit_nonzero _ k).
        by rewrite Z.land_spec, Hmono'.
      * by apply Hserve'.
  - exists intr. split; [done|]. split; [auto|]. split; [auto|].
    intros n Hn He _. exfalso. apply (Hskip n); [|done].
    destruct He as (? & _). destruct Hj; lia.
Qed.
End Scan.

(** ** The IPI scan *)

Lemma ipi_scan_spec n cs : forall i intr k, 0 <= i ->
  Z.testbit (ipi_scan n i cs intr) k = true <->
  Z.testbit intr k = true \/
  exists j c, cs !! j = Some c /\ k = i + Z.of_nat j /\
    (ipi_self_active c || ipi_normal_active n c) = true.
Proof.
  induction cs as [|c cs IH]; intros i intr k Hi; simpl.
  { split; [auto|]. intros [?|(j & c & Hc & _)]; [done|]. by rewrite lookup_nil in Hc. }
  rewrite IH by lia. clear IH.
  assert (Z.testbit (if ipi_normal_active n c
      then (if ipi_self_active c then intr .| BIT i else intr) .| BIT i
      else if ipi_self_active c then intr .| BIT i else intr) k = true <->
    Z.testbit intr k = true \/
    k = i /\ (ipi_self_active c || ipi_normal_active n c) = true) as ->.
  { destruct (ipi_normal_active n c), (ipi_self_active c); simpl;
      rewrite ?Z.lor_spec, ?testbit_BIT by done;
      destruct (Z.eqb_spec i k), (Z.testbit intr k); simpl; naive_solver. }
  split.
  - intros [[?|[-> ?]]|(j & c' & ? & -> & ?)]; [by left| |].
    + right. exists 0%nat, c. split; [done|]. split; [lia|done].
    + right. exists (S j), c'. split; [done|]. split; [lia|done].
  - intros [?|([|j] & c' & Hl & -> & ?)]; [by left; left| |].
    + left; right. simpl in Hl. injection Hl as ->. split; [lia|done].
    + right. exists j, c'. split; [done|]. split; [lia|done].
Qed.

(** ** Preservation of well-formedness *)

Definition keeps_ok (f : AppleAICCPU -> AppleAICCPU) : Prop :=
  forall i c, cpu_ok i c -> cpu_ok i (f c).

Lemma wf_set_cpus s cs : aic_wf s -> zlen cs = numCPU s ->
  (forall i c, cs !! i = Some c -> cpu_ok i c) -> aic_wf (s <| cpus := cs |>).
Proof. intros [] Hl Hok. by split. Qed.

Lemma wf_map_cpus s f : aic_wf s -> keeps_ok f -> aic_wf (s <| cpus ::= map f |>).
Proof.
  intros Hwf Hf. apply (wf_set_cpus s (map f (cpus s))); [done| |].
  - unfold zlen. rewrite length_map. apply (wf_cpus s Hwf).
  - intros i c Hc. apply list_lookup_fmap_Some in Hc as (c0 & -> & Hc).
    by apply Hf, (wf_cpu_ok s Hwf).
Qed.

Lemma lookup_for_selected val f cs i c :
  for_selected val f cs !! i = Some c ->
  exists c0, cs !! i = Some c0 /\ c = if Z.testbit val (Z.of_nat i) then f c0 else c0.
Proof.
  unfold for_selected. rewrite list_lookup_imap, fmap_Some.
  intros (c0 & ? & ->). rewrite land_BIT_nonzero by lia. eauto.
Qed.

Lemma wf_for_selected s val f : aic_wf s -> keeps_ok f ->
  aic_wf (s <| cpus ::= for_selected val f |>).
Proof.
  intros Hwf Hf. apply (wf_set_cpus s (for_selected val f (cpus s))); [done| |].
  - unfold zlen, for_selected. rewrite length_imap. apply (wf_cpus s Hwf).
  - intros i c (c0 & Hc & ->)%lookup_for_selected.
    apply (wf_cpu_ok s Hwf) in Hc. case_match; auto.
Qed.

Lemma wf_upd_cpu s o f : aic_wf s -> 0 <= o < numCPU s -> keeps_ok f ->
  exists c, cpus s !! Z.to_nat o = Some c /\ aget (cpus s) o = Done c /\
    cpu_ok (Z.to_nat o) c /\
    aupd (cpus s) o f = Done (<[Z.to_nat o := f c]> (cpus s)) /\
    aic_wf (s <| cpus := <[Z.to_nat o := f c]> (cpus s) |>).
Proof.
  intros Hwf Ho Hf. pose proof (wf_cpus s Hwf) as Hl.
  destruct (aget_in_range (cpus s) o) as [c Hc]; [lia|].
  exists c. apply aget_Done in Hc as Hc'. destruct Hc' as [_ Hc'].
  pose proof (wf_cpu_ok s Hwf _ _ Hc') as Hok.
  unfold aupd. rewrite Hc. cbn [mbind outcome_bind]. rewrite aset_in_range by lia.
  do 4 (split; [done|]). apply wf_set_cpus; [done|by rewrite zlen_insert|].
  intros i c2. rewrite list_lookup_insert_Some.
  intros [(<- & <- & _)|[_ H2]]; [by apply Hf|by apply (wf_cpu_ok s Hwf)].
Qed.

Lemma aupd_words (l : list Z) i f : words_ok l -> 0 <= i < zlen l ->
  (forall w, in_width 32 w -> in_width 32 (f w)) ->
  exists l', aupd l i f = Done l' /\ zlen l' = zlen l /\ words_ok l'.
Proof.
  intros Hok Hi Hf. destruct (aget_in_range l i Hi) as [x Hx]. unfold aupd. rewrite Hx.
  apply aget_Done in Hx as [_ Hx]. cbn [mbind outcome_bind].
  rewrite aset_in_range by done. eexists. split; [done|].
  rewrite zlen_insert. split; [done|]. apply Forall_insert; [done|].
  apply Hf. by eapply Forall_lookup_1 in Hok.
Qed.

Lemma wf_set_mask s l : aic_wf s -> zlen l = numEIR s -> words_ok l ->
  aic_wf (s <| eir_mask := l |>).
Proof. intros [] ??. by split. Qed.

Lemma wf_set_dest s l : aic_wf s -> zlen l = numIRQ s -> words_ok l ->
  aic_wf (s <| eir_dest := l |>).
Proof. intros [] ??. by split. Qed.

Lemma wf_set_state s l : aic_wf s -> zlen l = numEIR s -> words_ok l ->
  aic_wf (s <| eir_state := l |>).
Proof. intros [] ??. by split. Qed.

Lemma wf_reset s : aic_wf s -> aic_wf (apple_aic_reset s).
Proof.
  intros Hwf. pose proof (wf_limit s Hwf). pose proof (wf_numIRQ s Hwf).
  apply (wf_map_cpus (s <| eir_mask := _ |> <| eir_dest := _ |>)).
  - apply wf_set_dest; [apply wf_set_mask; [done|..]|..];
      simpl; unfold zlen; rewrite ?length_replicate; try lia;
      apply Forall_replicate; unfold in_width; lia.
  - intros i c (Hid & _). repeat split; simpl; try done; lia.
Qed.

(** ** Updates *)

Lemma merge_deferred_ok : keeps_ok merge_deferred.
Proof.
  intros i c (? & ? & ? & ?). unfold cpu_ok; simpl.
  split_and!; auto; [by apply in_width_lor|]. by unfold in_width.
Qed.

Lemma raise_ok : keeps_ok (setf irq (fun _ => true)).
Proof. by intros i c. Qed.

(** The update never faults; the CPUs it selects are the set [intr]. *)
Lemma apple_aic_update_spec s : aic_wf s ->
  exists intr, apple_aic_update s =
      Done (s <| cpus := for_selected intr (setf irq (fun _ => true))
                           (map merge_deferred (cpus s)) |>) /\
    (forall k, Z.testbit intr k = true -> k < numCPU s ->
       (exists j c, k = Z.of_nat j /\ cpus s !! j = Some c /\
          (ipi_self_active (merge_deferred c) ||
           ipi_normal_active (numCPU s) (merge_deferred c)) = true) \/
       exists j, routed s j k) /\
    (forall j c, cpus s !! j = Some c ->
       (ipi_self_active (merge_deferred c) ||
        ipi_normal_active (numCPU s) (merge_deferred c)) = true ->
       Z.testbit intr (Z.of_nat j) = true) /\
    (forall j, eligible s j -> dest_of s j <> 0 ->
       intr .& dest_of s j <> 0 \/
       forall k, 0 <= k < numCPU s -> Z.testbit (dest_of s j) k = false).
Proof.
  intros Hwf. set (s1 := s <| cpus ::= map merge_deferred |>).
  assert (aic_wf s1) as Hwf1 by (apply wf_map_cpus; [done|apply merge_deferred_ok]).
  pose proof (wf_limit s Hwf). pose proof (wf_numIRQ s Hwf).
  destruct (eir_scan_spec s1 Hwf1 (S (Z.to_nat (numIRQ s))) (-1)
    (ipi_scan (numCPU s) 0 (cpus s1) 0) 0) as (intr & He & Hmono & Hwhy & Hserve).
  1,2: cbn [s1 numIRQ setf]; lia.
  exists intr. split; [|split; [|split]].
  - trans (Done intr ≫= fun intr => Done (s1 <| cpus ::= raise_selected intr |>));
      [by rewrite <- He|reflexivity].
  - intros k Hk Hlt. destruct (Hwhy k Hk Hlt) as [H1|[H1|H1]].
    + apply ipi_scan_spec in H1; [|lia]. rewrite Z.bits_0 in H1.
      destruct H1 as [|(j & c & Hc & -> & Ha)]; [done|].
      apply list_lookup_fmap_Some in Hc as (c0 & -> & Hc). eauto 10.
    + by rewrite Z.bits_0 in H1.
    + right. exact H1.
  - intros j c Hc Ha. apply Hmono, ipi_scan_spec; [lia|]. right.
    exists j, (merge_deferred c). split; [|split; [lia|done]].
    cbn. by rewrite list_lookup_fmap, Hc.
  - intros j Hj. apply Hserve; [|exact Hj]. destruct Hj; lia.
Qed.

Lemma wf_update s s' : aic_wf s -> apple_aic_update s = Done s' -> aic_wf s'.
Proof.
  intros Hwf. destruct (apple_aic_update_spec s Hwf) as (intr & -> & _).
  intros [= <-].
  exact (wf_for_selected _ intr _ (wf_map_cpus s _ Hwf merge_deferred_ok) raise_ok).
Qed.

(** ** The acknowledge register *)

(** Interrupt [i] can be delivered to CPU [id]. *)
Definition deliverable (s : AppleAICState) (id i : Z) : Prop := routed s i id.

Lemma iack_scan_spec s id fuel : aic_wf s -> 0 <= id -> forall i,
  -1 <= i < numIRQ s -> numIRQ s - i <= Z.of_nat fuel ->
  (exists j l, iack_scan fuel s id i =
      Done (kAIC_INT_EXT .| AIC_INT_EXTID j, s <| eir_mask := l |>) /\
      i < j /\ deliverable s id j /\ (forall n, i < n < j -> ~ deliverable s id n) /\
      zlen l = numEIR s /\ words_ok l /\
      forall n, 0 <= n -> bit32 l n = if n =? j then true else bit32 (eir_mask s) n) \/
  (iack_scan fuel s id i = Done (kAIC_INT_SPURIOUS, s) /\
   forall n, i < n -> ~ deliverable s id n).
Proof.
  intros Hwf Hid. induction fuel as [|fuel IH]; intros i Hi Hf; [lia|].
  cbn [iack_scan]. destruct (next_pending s Hwf i) as (j & -> & Hnext & Hj); [lia|].
  cbn [mbind outcome_bind].
  assert (forall n, i < n < j -> ~ deliverable s id n) as Hskip.
  { intros n Hn ((Hr & Hb & _) & _). rewrite Hnext in Hb by lia. done. }
  destruct (Z.ltb_spec j (numIRQ s)) as [Hlt|Hge].
  2:{ right. split; [done|]. intros n Hn Hd. apply (Hskip n); [|done].
      destruct Hd as [[? _] _]. destruct Hj; lia. }
  destruct Hj as [[Hj Hbit]|]; [|lia].
  rewrite (mask_get s Hwf) by lia. cbn [mbind outcome_bind].
  destruct (dest_of_get s Hwf j) as [-> Hw]; [lia|]. cbn [mbind outcome_bind].
  rewrite land_BIT_nonzero by done.
  destruct (negb (bit32 (eir_mask s) j) && Z.testbit (dest_of s j) id) eqn:E;
    destruct (bit32 (eir_mask s) j) eqn:Em; try done; simpl in E; cbn [Z.b2z Z.eqb andb];
    rewrite ?E.
  1: { left. pose proof (wf_numIRQ s Hwf). destruct (wf_mask s Hwf) as [Hl Hok].
    destruct (set_bit32_ok j (eir_mask s)) as (l & -> & Hl' & Hok' & Hb); [lia|done|].
    exists j, l. cbn [mbind outcome_bind]. split_and!; try done; try lia.
    split; [split_and!; [lia|done..]|done]. }
  all: assert (~ deliverable s id j) as Hno by (intros ((_ & _ & ?) & ?); congruence).
  all: assert (forall n, i < n -> n <= j -> ~ deliverable s id n) as Hskip'
    by (intros n ??; destruct (decide (n = j)) as [->|]; [done|apply Hskip; lia]).
  all: destruct (IH j ltac:(lia) ltac:(lia)) as
    [(j' & l & -> & Hlt' & Hd & Hleast & Hrest)|[-> Hnone]]; [left|right].
  1,3: exists j', l; split_and!; try apply Hrest; try done; try lia;
    intros n ?; destruct (Z.le_gt_cases n j); [apply Hskip'; lia|apply Hleast; lia].
  all: split; [done|]; intros n ?;
    destruct (Z.le_gt_cases n j); [apply Hskip'; lia|apply Hnone; lia].
Qed.

(** What an acknowledge by the CPU with structure [c] may return, and the
    state it leaves: IPIs come before external interrupts, the interrupt that
    is returned becomes masked, and the CPU's line is lowered. *)
Definition set_cpu (s : AppleAICState) (c : AppleAICCPU) : AppleAICState :=
  s <| cpus ::= <[Z.to_nat (cpu_id c) := c]> |>.

Inductive acks (s : AppleAICState) (c : AppleAICCPU) : Z -> AppleAICState -> Prop :=
| acks_self :
    ipi_self_active c = true ->
    acks s c (kAIC_INT_IPI .| kAIC_INT_IPI_SELF)
      (set_cpu s (c <| irq := false |> <| ipi_mask := AIC_IPI_SELF .| ipi_mask c |>))
| acks_normal :
    ipi_self_active c = false -> ipi_normal_active (numCPU s) c = true ->
    acks s c (kAIC_INT_IPI .| kAIC_INT_IPI_NORM)
      (set_cpu s (c <| irq := false |> <| ipi_mask := AIC_IPI_NORMAL .| ipi_mask c |>))
| acks_ext i l :
    ipi_self_active c = false -> ipi_normal_active (numCPU s) c = false ->
    deliverable s (cpu_id c) i ->
    (forall n, n < i -> ~ deliverable s (cpu_id c) n) ->
    (forall n, 0 <= n -> bit32 l n = if n =? i then true else bit32 (eir_mask s) n) ->
    acks s c (kAIC_INT_EXT .| AIC_INT_EXTID i)
      (set_cpu s (c <| irq := false |>) <| eir_mask := l |>)
| acks_spurious :
    ipi_self_active c = false -> ipi_normal_active (numCPU s) c = false ->
    (forall i, ~ deliverable s (cpu_id c) i) ->
    acks s c kAIC_INT_SPURIOUS (set_cpu s (c <| irq := false |>)).

Lemma deliverable_nonneg s id n : deliverable s id n -> 0 <= n < numIRQ s.
Proof. intros [[? _] _]. done. Qed.

Lemma lower_ok : keeps_ok (setf irq (fun _ => false)).
Proof. by intros i c. Qed.

Lemma mask_ipi_ok m : 0 <= m < 32 ->
  keeps_ok (fun c => c <| irq := false |> <| ipi_mask := BIT m .| ipi_mask c |>).
Proof.
  intros ? i c (?&?&?&?). unfold cpu_ok; simpl. split_and!; auto.
  apply in_width_lor; [done| |done]. by apply in_width_BIT.
Qed.

Lemma wf_upd_at s o c f : aic_wf s -> cpus s !! o = Some c -> keeps_ok f ->
  aic_wf (set_cpu s (f c)).
Proof.
  intros Hwf Hc Hf. destruct (Hf _ _ (wf_cpu_ok s Hwf _ _ Hc)) as (Hid & _).
  assert (0 <= Z.of_nat o < numCPU s) as Ho.
  { apply lookup_lt_Some in Hc. rewrite <- (wf_cpus s Hwf). unfold zlen. lia. }
  destruct (wf_upd_cpu s _ f Hwf Ho Hf) as (c' & Hc' & _ & _ & _ & Hw).
  unfold set_cpu. rewrite Hid. rewrite Nat2Z.id in *.
  by assert (c' = c) as -> by congruence.
Qed.

(** The acknowledge as one decision on the structure of the CPU. *)
Lemma iack_unfold s o c : cpus s !! o = Some c -> cpu_id c = Z.of_nat o ->
  apple_aic_iack s (Z.of_nat o) =
    if ipi_self_active c then Done (kAIC_INT_IPI .| kAIC_INT_IPI_SELF,
      set_cpu s (c <| irq := false |> <| ipi_mask := AIC_IPI_SELF .| ipi_mask c |>))
    else if ipi_normal_active (numCPU s) c then
      Done (kAIC_INT_IPI .| kAIC_INT_IPI_NORM,
      set_cpu s (c <| irq := false |> <| ipi_mask := AIC_IPI_NORMAL .| ipi_mask c |>))
    else iack_scan (S (Z.to_nat (numIRQ s))) (set_cpu s (c <| irq := false |>))
      (cpu_id c) (-1).
Proof.
  intros Hc Hid. pose proof (lookup_lt_Some _ _ _ Hc) as Hlt.
  assert (0 <= Z.of_nat o < zlen (cpus s)) as Ho by (unfold zlen; lia).
  unfold apple_aic_iack, aupd.
  rewrite (proj2 (aget_Done (cpus s) (Z.of_nat o) c)) by (rewrite Nat2Z.id; auto with lia).
  cbn [mbind outcome_bind]. rewrite aset_in_range by done. cbn [mbind outcome_bind].
  cbv zeta. cbn [cpus setf numCPU numIRQ].
  rewrite (proj2 (aget_Done _ (Z.of_nat o) (c <| irq := false |>))).
  2:{ split; [lia|]. rewrite Nat2Z.id. by apply list_lookup_insert_eq. }
  cbn [mbind outcome_bind].
  rewrite !aset_in_range by (rewrite zlen_insert; done).
  unfold set_cpu. cbn [cpu_id setf]. rewrite Hid, Nat2Z.id.
  change (ipi_self_active (c <| irq := false |>)) with (ipi_self_active c).
  change (ipi_normal_active (numCPU s) (c <| irq := false |>))
    with (ipi_normal_active (numCPU s) c).
  cbn [mbind outcome_bind]. by rewrite !list_insert_insert_eq.
Qed.

Lemma iack_ok s o c : aic_wf s -> cpus s !! o = Some c ->
  exists r s', apple_aic_iack s (Z.of_nat o) = Done (r, s') /\ acks s c r s' /\ aic_wf s'.
Proof.
  intros Hwf Hc. destruct (wf_cpu_ok s Hwf _ _ Hc) as (Hid & _).
  rewrite (iack_unfold s o c Hc Hid).
  pose proof (wf_upd_at s o c _ Hwf Hc lower_ok) as Hlow.
  pose proof (fun m H => wf_upd_at s o c _ Hwf Hc (mask_ipi_ok m H)) as Hmask.
  pose proof (wf_limit s Hwf). pose proof (wf_numIRQ s Hwf).
  destruct (ipi_self_active c) eqn:E1.
  { do 2 eexists. split; [done|]. split; [by constructor|]. by apply (Hmask 31). }
  destruct (ipi_normal_active (numCPU s) c) eqn:E2.
  { do 2 eexists. split; [done|]. split; [by constructor|]. by apply (Hmask 0). }
  destruct (iack_scan_spec (set_cpu s (c <| irq := false |>)) (cpu_id c)
    (S (Z.to_nat (numIRQ s))) Hlow ltac:(lia) (-1)) as
    [(j & l & -> & _ & Hd & Hleast & Hl & Hok & Hb)|[-> Hnone]].
  1,2: cbn [set_cpu numIRQ setf]; lia.
  - do 2 eexists. split; [done|]. split.
    + constructor; try done. intros n Hn Hdn.
      apply (Hleast n); [|exact Hdn]. apply deliverable_nonneg in Hdn. lia.
    + by apply wf_set_mask.
  - do 2 eexists. split; [done|]. split; [|done].
    constructor; try done. intros n Hn. apply (Hnone n); [|exact Hn].
    apply deliverable_nonneg in Hn. lia.
Qed.

(** ** The register callbacks never fault *)

Lemma ipi_request_ok s o val each self : aic_wf s -> 0 <= o < numCPU s ->
  keeps_ok each -> keeps_ok self ->
  exists s', ipi_request s o val each self = Done s' /\ aic_wf s'.
Proof.
  intros Hwf Ho He Hs. unfold ipi_request. cbv zeta.
  pose proof (wf_for_selected s val each Hwf He) as Hwf1.
  destruct (nonzero (val .& AIC_IPI_SELF)); [|by eexists].
  destruct (wf_upd_cpu _ o self Hwf1 Ho Hs) as (c & _ & _ & _ & -> & ?). by eexists.
Qed.

Lemma upd_cpu_ok s o f : aic_wf s -> 0 <= o < numCPU s -> keeps_ok f ->
  exists s', (cs ← aupd (cpus s) o f; mret (s <| cpus := cs |>)) = Done s' /\ aic_wf s'.
Proof.
  intros Hwf Ho Hf. destruct (wf_upd_cpu _ o f Hwf Ho Hf) as (c & _ & _ & _ & -> & ?).
  by eexists.
Qed.

Lemma keeps_field g f :
  (forall c, cpu_id (f c) = cpu_id c) -> (forall w, in_width 32 w -> in_width 32 (g w)) ->
  (forall c, pendingIPI (f c) = pendingIPI c \/ pendingIPI (f c) = g (pendingIPI c)) ->
  (forall c, deferredIPI (f c) = deferredIPI c \/ deferredIPI (f c) = g (deferredIPI c)) ->
  (forall c, ipi_mask (f c) = ipi_mask c \/ ipi_mask (f c) = g (ipi_mask c)) ->
  keeps_ok f.
Proof.
  intros H1 Hg Hp Hd Hm i c (? & ? & ? & ?). unfold cpu_ok. rewrite H1.
  specialize (Hp c); specialize (Hd c); specialize (Hm c).
  destruct Hp as [-> | ->], Hd as [-> | ->], Hm as [-> | ->]; auto.
Qed.

Lemma set_bit32_in_width id w : 0 <= id -> in_width 32 w -> in_width 32 (set_bit32_in id w).
Proof.
  intros ??. apply in_width_lor; [done..|]. apply in_width_BIT.
  by apply Z.mod_pos_bound.
Qed.

Lemma clear_bit32_in_width id w : in_width 32 w -> in_width 32 (clear_bit32_in id w).
Proof. by apply in_width_ldiff. Qed.

Ltac keeps g := apply (keeps_field g); try (intros; simpl; auto; done).

Lemma ipi_send_ok id : 0 <= id -> keeps_ok (ipi_send id).
Proof.
  intros Hid. keeps (set_bit32_in id); intros c;
    try (unfold ipi_send; destruct (nonzero _); simpl; auto; done).
  by apply set_bit32_in_width.
Qed.

Lemma ipi_send_self_ok : keeps_ok ipi_send_self.
Proof.
  keeps (Z.lor AIC_IPI_SELF); intros c;
    try (unfold ipi_send_self; destruct (nonzero _); simpl; auto; done).
  intros. by apply in_width_lor.
Qed.

Lemma setf_field_ok g : (forall w, in_width 32 w -> in_width 32 (g w)) ->
  keeps_ok (setf pendingIPI g) /\ keeps_ok (setf deferredIPI g) /\ keeps_ok (setf ipi_mask g).
Proof. intros Hg. split_and!; keeps g; auto. Qed.

Lemma val_width data : in_width 32 (u32 data).
Proof. by apply wrap_range. Qed.

Section Registers.
Context (s : AppleAICState) (Hwf : aic_wf s).

Lemma upd_mask_ok i f : (forall w, in_width 32 w -> in_width 32 (f w)) -> 0 <= i < numEIR s ->
  exists s', (l ← aupd (eir_mask s) i f; mret (s <| eir_mask := l |>)) = Done s' /\ aic_wf s'.
Proof.
  intros Hf Hi. destruct (wf_mask s Hwf) as [Hl Hok].
  destruct (aupd_words (eir_mask s) i f) as (l & -> & ? & ?); [done|lia|done|].
  eexists. split; [done|]. apply wf_set_mask; congruence.
Qed.

Lemma upd_state_ok i f : (forall w, in_width 32 w -> in_width 32 (f w)) -> 0 <= i < numEIR s ->
  exists s', (l ← aupd (eir_state s) i f; mret (s <| eir_state := l |>)) = Done s' /\ aic_wf s'.
Proof.
  intros Hf Hi. destruct (wf_state s Hwf) as [Hl Hok].
  destruct (aupd_words (eir_state s) i f) as (l & -> & ? & ?); [done|lia|done|].
  eexists. split; [done|]. apply wf_set_state; congruence.
Qed.

Lemma set_dest_ok i v : in_width 32 v -> 0 <= i < numIRQ s ->
  exists s', (l ← aset (eir_dest s) i v; mret (s <| eir_dest := l |>)) = Done s' /\ aic_wf s'.
Proof.
  intros Hv Hi. destruct (wf_dest s Hwf) as [Hl Hok]. rewrite aset_in_range by lia.
  eexists. split; [done|]. apply wf_set_dest; [done|by rewrite zlen_insert|].
  by apply Forall_insert.
Qed.

Lemma get_ok (l : list Z) i : 0 <= i < zlen l ->
  exists v s', (v ← aget l i; mret (v, s)) = Done (v, s') /\ aic_wf s'.
Proof. intros Hi. destruct (aget_in_range l i Hi) as [v ->]. by exists v, s. Qed.
End Registers.

Definition alias_window (addr : Z) : bool :=
  in_range (REG_AIC_WHOAMI_Pn 0) (REG_AIC_WHOAMI_Pn AIC_CPU_COUNT - 4) addr.

(** An access in the window of CPU [cpu] is redirected below the window. *)
Lemma alias_target addr : alias_window addr = true ->
  u32 ((addr - 0x5000) / 0x80) = (addr - 0x5000) / 0x80 /\
  addr - 0x5000 + 0x2000 - 0x80 * ((addr - 0x5000) / 0x80) =
    0x2000 + (addr - 0x5000) mod 0x80 /\
  alias_window (0x2000 + (addr - 0x5000) mod 0x80) = false.
Proof.
  unfold alias_window, in_range, REG_AIC_WHOAMI_Pn, AIC_CPU_COUNT. intros H.
  apply andb_prop in H as [H1%Z.leb_le H2%Z.leb_le].
  pose proof (Z.div_mod (addr - 0x5000) 0x80 ltac:(done)).
  pose proof (Z.mod_pos_bound (addr - 0x5000) 0x80 eq_refl).
  split; [apply wrap_small; unfold in_width; lia|]. split; [lia|].
  apply andb_false_iff. left. apply Z.leb_gt. lia.
Qed.

Ltac widths := intros; unfold AIC_IPI_SELF, AIC_IPI_NORMAL;
  first [ apply in_width_lor | apply in_width_ldiff ]; done || auto using val_width.

(** The index computed from the address is checked against the array. *)
Ltac bounded :=
  match goal with |- context [?n <=? u32 ?x] =>
    destruct (Z.leb_spec n (u32 x)); [by eauto|];
    pose proof (val_width x) as [? _] end.

Lemma aic_write_ok fuel : forall s o addr data, aic_wf s -> 0 <= o < numCPU s ->
  (fuel = O -> alias_window addr = false) ->
  exists s', aic_write fuel s o addr data = Done s' /\ aic_wf s'.
Proof.
  induction fuel as [|fuel IH]; intros s o addr data Hwf Ho Halias;
    destruct (wf_upd_cpu s o id Hwf Ho ltac:(by intros ??)) as (c & _ & Hc & (Hid & _) & _);
    cbn [aic_write]; rewrite Hc; cbn [mbind outcome_bind]; cbv zeta;
    pose proof (val_width data) as Hval.
  all: case_match; [eexists; split; [done|by apply wf_reset]|].
  all: case_match; [eexists; split; [done|by destruct Hwf]|].
  all: case_match; [apply ipi_request_ok; auto using ipi_send_self_ok;
    apply ipi_send_ok; lia|].
  all: case_match; [apply ipi_request_ok; auto; apply setf_field_ok;
    auto using clear_bit32_in_width; widths|].
  all: case_match; [apply upd_cpu_ok; auto; apply setf_field_ok; intros;
    apply in_width_lor; [done|by apply in_width_land|done]|].
  all: case_match; [apply upd_cpu_ok; auto; apply setf_field_ok; widths|].
  all: case_match; [apply ipi_request_ok; auto; apply setf_field_ok; intros;
    [apply set_bit32_in_width; [lia|done]|widths]|].
  all: case_match; [apply ipi_request_ok; auto; apply setf_field_ok;
    auto using clear_bit32_in_width; widths|].
  all: case_match; [bounded; apply set_dest_ok; auto|].
  all: do 2 (case_match; [bounded; apply upd_state_ok; auto; widths|]).
  all: do 2 (case_match; [bounded; apply upd_mask_ok; auto; widths|]).
  all: fold (alias_window addr).
  { rewrite Halias by done. by eexists. }
  destruct (alias_window addr) eqn:Ea; [|by eexists].
  destruct (alias_target addr Ea) as (_ & Heq & Hout). bounded.
  apply IH; [done|lia|]. intros _.
  destruct (alias_target addr Ea) as (-> & _). by rewrite Heq.
Qed.

Lemma aic_read_ok fuel : forall s o addr now, aic_wf s -> 0 <= o < numCPU s ->
  (fuel = O -> alias_window addr = false) ->
  exists v s', aic_read fuel s o addr now = Done (v, s') /\ aic_wf s'.
Proof.
  induction fuel as [|fuel IH]; intros s o addr now Hwf Ho Halias;
    destruct (wf_upd_cpu s o id Hwf Ho ltac:(by intros ??)) as (c & Hl & Hc & _);
    cbn [aic_read]; rewrite Hc; cbn [mbind outcome_bind]; cbv zeta;
    destruct (iack_ok s _ c Hwf Hl) as (r & s' & Hr & _ & Hwf');
    rewrite Z2Nat.id in Hr by lia.
  all: do 4 (case_match; [by eauto|]).
  all: case_match; [rewrite Hr; by eauto|].
  all: case_match; [by eauto|].
  all: destruct (wf_mask s Hwf), (wf_dest s Hwf), (wf_state s Hwf).
  all: do 4 (case_match; [bounded; apply get_ok; [done|lia]|]).
  all: fold (alias_window addr).
  { rewrite Halias by done. repeat case_match; by eauto. }
  destruct (alias_window addr) eqn:Ea; [|repeat case_match; by eauto].
  destruct (alias_target addr Ea) as (_ & Heq & Hout). bounded.
  apply IH; [done|lia|]. intros _.
  destruct (alias_target addr Ea) as (-> & _). by rewrite Heq.
Qed.

(** ** The controller as a state machine *)

Inductive aic_event :=
| EvWrite (o addr data : Z)
| EvRead (o addr now : Z)
| EvTick (now : Z)
| EvIrq (n level : Z)
| EvReset.

Definition aic_step (s : AppleAICState) (e : aic_event) : outcome AppleAICState :=
  match e with
  | EvWrite o addr data => apple_aic_write s o addr data
  | EvRead o addr now => snd <$> apple_aic_read s o addr now
  | EvTick now => apple_aic_tick s now
  | EvIrq n level => apple_aic_set_irq s n level
  | EvReset => Done (apple_aic_reset s)
  end.

(** The accesses come from the region of an existing CPU, the lines are the
    [numIRQ] inputs of the device. *)
Definition event_ok (s : AppleAICState) (e : aic_event) : Prop :=
  match e with
  | EvWrite o _ _ | EvRead o _ _ => 0 <= o < numCPU s
  | EvIrq n _ => 0 <= n < numIRQ s
  | EvTick _ | EvReset => True
  end.

Inductive aic_reach : AppleAICState -> Prop :=
| reach_init len ncpu tb s :
    0 <= len <= 128 -> 0 < ncpu <= 30 ->
    apple_aic_realize len ncpu tb = Done s -> aic_reach s
| reach_step s e s' :
    aic_reach s -> event_ok s e -> aic_step s e = Done s' -> aic_reach s'.

Lemma realize_wf len ncpu tb s : 0 <= len <= 128 -> 0 < ncpu <= 30 ->
  apple_aic_realize len ncpu tb = Done s -> aic_wf s.
Proof.
  intros Hlen Hn. unfold apple_aic_realize.
  assert (nonzero ncpu = true) as -> by (apply nonzero_iff; lia).
  cbn [c_assert mbind outcome_bind]. intros [= <-].
  assert (0 <= len / 4 <= 32) by (split; [apply Z.div_pos|apply Z.div_le_upper_bound]; lia).
  assert (u32 (len / 4 * 32) = 32 * (len / 4)) as Hirq.
  { rewrite Z.mul_comm. apply wrap_small. unfold in_width. lia. }
  split; cbn -[Z.mul]; try lia; rewrite ?Hirq; unfold zlen;
    rewrite ?length_replicate, ?length_map, ?length_seqZ; try lia;
    try (split; [lia|apply Forall_replicate; unfold in_width; lia]).
  intros i c Hc. apply list_lookup_fmap_Some in Hc as (k & -> & Hk).
  apply lookup_seqZ in Hk as [-> ?]. unfold cpu_ok, in_width; simpl; lia.
Qed.

Lemma aic_step_ok s e : aic_wf s -> event_ok s e ->
  exists s', aic_step s e = Done s' /\ aic_wf s'.
Proof.
  intros Hwf He. destruct e; simpl in *.
  - by apply aic_write_ok.
  - destruct (aic_read_ok 1 s o addr now) as (v & s' & H & ?); [done..|].
    unfold apple_aic_read. rewrite H. by eexists.
  - destruct (apple_aic_update_spec s Hwf) as (intr & Hu & _).
    pose proof (wf_update s _ Hwf Hu) as Hwf'. unfold apple_aic_tick. rewrite Hu.
    eexists. split; [done|]. by destruct Hwf'.
  - destruct (wf_state s Hwf) as [Hl Hok]. pose proof (wf_numIRQ s Hwf).
    unfold apple_aic_set_irq. destruct (nonzero level);
      [destruct (set_bit32_ok n (eir_state s)) as (l & -> & ? & ? & _)
      |destruct (clear_bit32_ok n (eir_state s)) as (l & -> & ? & ? & _)];
      try done; try lia; eexists; (split; [done|]); apply wf_set_state; congruence.
  - eexists. split; [done|]. by apply wf_reset.
Qed.

Lemma aic_reach_wf s : aic_reach s -> aic_wf s.
Proof.
  induction 1 as [|s e s' _ IH He Hs]; [by eapply realize_wf|].
  destruct (aic_step_ok s e IH He) as (s2 & H2 & ?). congruence.
Qed.

(** C1: no register access, input line, timer tick or reset makes the
    interrupt controller index outside its arrays or run without end: in every
    state reachable from [apple_aic_realize] every event has a result, and the
    result is again well formed. *)
Theorem aic_never_faults s e : aic_reach s -> event_ok s e ->
  exists s', aic_step s e = Done s' /\ aic_wf s'.
Proof. intros Hs. by apply aic_step_ok, aic_reach_wf. Qed.

(** A controller with two CPUs and 32 interrupts, interrupt 5 routed to CPU 1,
    pending and not masked. *)
Definition aic_example : AppleAICState :=
  mkAIC 1 32 2 0 0 [0] (<[5%nat := 2]> (replicate 32 0)) [32]
    [mkCPU 0 false 0 0 0; mkCPU 1 false 0 0 0] 0.

Lemma aic_example_wf : aic_wf aic_example.
Proof.
  assert (words_ok [0] /\ words_ok [32]) as [H0 H32]
    by (split; apply Forall_singleton; split; vm_compute; congruence).
  split; [reflexivity|vm_compute; split; congruence..| | | |reflexivity|].
  - by split.
  - by split.
  - split; [reflexivity|]. apply Forall_insert; [apply Forall_replicate|];
      split; vm_compute; congruence.
  - intros [|[|i]] c Hc; [injection Hc as <-..|discriminate Hc];
      repeat split; vm_compute; congruence.
Qed.

Lemma aic_example_eligible : eligible aic_example 5.
Proof. split; [done|]. vm_compute. done. Qed.

Lemma aic_never_faults_witness :
  exists s, aic_reach s /\ exists s', aic_step s (EvTick 7) = Done s' /\ aic_wf s'.
Proof.
  destruct (apple_aic_realize 4 2 0) as [s| | |] eqn:E; [|discriminate E..].
  assert (aic_reach s) as Hs by (apply (reach_init 4 2 0); [lia|lia|exact E]).
  exists s. split; [exact Hs|]. exact (aic_never_faults s (EvTick 7) Hs I).
Defined.

Lemma lookup_updated s intr k c' :
  for_selected intr (setf irq (fun _ => true)) (map merge_deferred (cpus s)) !! k = Some c' ->
  exists c, cpus s !! k = Some c /\
    c' = if Z.testbit intr (Z.of_nat k) then merge_deferred c <| irq := true |>
         else merge_deferred c.
Proof.
  intros (c0 & Hc & ->)%lookup_for_selected.
  apply list_lookup_fmap_Some in Hc as (c & -> & Hc). eauto.
Qed.



(** the controller signals no interrupt without a cause: a line that is low
    and that [apple_aic_update] raises belongs to a CPU whose next read of the
    acknowledge register does not return [kAIC_INT_SPURIOUS]. *)
Theorem aic_raised_then_acked s s' k c c' : aic_wf s ->
  apple_aic_update s = Done s' ->
  cpus s !! k = Some c -> irq c = false -> cpus s' !! k = Some c' -> irq c' = true ->
  exists r s2, apple_aic_iack s' (Z.of_nat k) = Done (r, s2) /\ r <> kAIC_INT_SPURIOUS.
Proof.
  intros Hwf Hu Hc Hlow Hc' Hhigh. pose proof (wf_update s s' Hwf Hu) as Hwf'.
  destruct (apple_aic_update_spec s Hwf) as (intr & Hu2 & Hwhy & _).
  assert (s' = s <| cpus := for_selected intr (setf irq (fun _ => true))
                           (map merge_deferred (cpus s)) |>) as -> by congruence.
  destruct (iack_ok _ k c' Hwf' Hc') as (r & s2 & -> & Hack & _).
  exists r, s2. split; [done|].
  destruct (wf_cpu_ok _ Hwf' _ _ Hc') as (Hid & _).
  apply lookup_updated in Hc' as (c0 & Hc0 & ->). simplify_eq.
  destruct (Z.testbit intr (Z.of_nat k)) eqn:Hi; [|simpl in Hhigh; congruence].
  assert (Z.of_nat k < numCPU s) as Hk.
  { apply lookup_lt_Some in Hc. pose proof (wf_cpus s Hwf). unfold zlen in *. lia. }
  inversion Hack as [Ha|Ha Hb|i l Ha Hb Hd|Ha Hb Hnone]; subst.
  - discriminate.
  - discriminate.
  - intros Hr. apply (f_equal (fun x => Z.testbit x 16)) in Hr.
    unfold AIC_INT_EXTID in Hr. rewrite Z.lor_spec in Hr. discriminate.
  - exfalso. destruct (Hwhy _ Hi Hk) as [(j & c0 & Hj & Hc0 & Hact)|[j Hj]].
    + apply Nat2Z.inj in Hj as <-. simplify_eq. apply orb_prop in Hact.
      change (ipi_self_active (merge_deferred c) = false) in Ha.
      change (ipi_normal_active (numCPU s) (merge_deferred c) = false) in Hb.
      destruct Hact; congruence.
    + apply (Hnone j). rewrite Hid. exact Hj.
Qed.

Lemma aic_raised_then_acked_witness :
  exists s' r s2, apple_aic_update aic_example = Done s' /\
    apple_aic_iack s' 1 = Done (r, s2) /\ r <> kAIC_INT_SPURIOUS.
Proof.
  destruct (apple_aic_update aic_example) as [s'| | |] eqn:E; [|discriminate E..].
  pose proof E as E'. vm_compute in E'. injection E' as Hs'. subst s'.
  destruct (aic_raised_then_acked aic_example _ 1 _ _ aic_example_wf E
    eq_refl eq_refl eq_refl eq_refl) as (r & s2 & H1 & H2).
  eexists _, r, s2. split; [reflexivity|]. split; [exact H1|exact H2].
Defined.

(** C3: the acknowledge register implements its contract: an unmasked self IPI
    comes first, then an unmasked IPI of another CPU, then the external
    interrupt with the least number that is pending, not masked and routed to
    this CPU; exactly the interrupt returned is masked, the CPU's line is
    lowered, and the answer is [kAIC_INT_SPURIOUS] only when there is none. *)
Theorem aic_iack_spec s o c : aic_wf s -> cpus s !! o = Some c ->
  exists r s', apple_aic_read s (Z.of_nat o) REG_AIC_IACK 0 = Done (r, s') /\
    acks s c r s' /\ aic_wf s'.
Proof.
  intros Hwf Hc. destruct (iack_ok s o c Hwf Hc) as (r & s' & Hr & Ha & Hw).
  exists r, s'. split; [|done]. unfold apple_aic_read. cbn [aic_read].
  rewrite (proj2 (aget_Done (cpus s) (Z.of_nat o) c)); [exact Hr|].
  rewrite Nat2Z.id. auto with lia.
Qed.

Lemma aic_iack_spec_witness : exists r s',
  apple_aic_read aic_example 1 REG_AIC_IACK 0 = Done (r, s') /\ r = 0x10005 /\
  acks aic_example (mkCPU 1 false 0 0 0) r s'.
Proof.
  destruct (aic_iack_spec aic_example 1 _ aic_example_wf eq_refl) as (r & s' & H & Ha & _).
  exists r, s'. split; [exact H|]. split; [|exact Ha].
  vm_compute in H. by injection H as <- _.
Defined.

Ltac skip_case :=
  match goal with
  | |- context [if ?b then _ else _] =>
      let H := fresh in
      assert (b = false) as H;
      [ apply not_true_iff_false; unfold in_range;
        rewrite ?orb_true_iff, ?andb_true_iff, ?Z.eqb_eq, ?Z.leb_le;
        unfold REG_AIC_RST, REG_AIC_GLB_CFG, REG_AIC_REV, REG_AIC_CAP0, REG_AIC_WHOAMI,
          REG_AIC_IACK, REG_AIC_IPI_SET, REG_AIC_IPI_CLR, REG_AIC_IPI_MASK_SET,
          REG_AIC_IPI_MASK_CLR, REG_AIC_IPI_DEFER_SET, REG_AIC_IPI_DEFER_CLR,
          REG_AIC_EIR_DEST, REG_AIC_EIR_SW_SET, REG_AIC_EIR_SW_CLR, REG_AIC_EIR_MASK_SET,
          REG_AIC_EIR_MASK_CLR, REG_AIC_EIR_INT_RO, AIC_INT_COUNT;
        change kAIC_NUM_EIRS with 18; lia
      | rewrite H; clear H ]
  end.

Lemma alias_window_at cpu x : 0 <= cpu < AIC_CPU_COUNT -> 0 <= x <= 0x7C ->
  alias_window (REG_AIC_WHOAMI_Pn cpu + x) = true.
Proof.
  unfold alias_window, in_range, REG_AIC_WHOAMI_Pn, AIC_CPU_COUNT. intros.
  apply andb_true_iff. rewrite !Z.leb_le. lia.
Qed.

Lemma alias_split cpu x : 0 <= cpu < AIC_CPU_COUNT -> 0 <= x <= 0x7C ->
  u32 ((REG_AIC_WHOAMI_Pn cpu + x - 0x5000) / 0x80) = cpu.
Proof.
  unfold REG_AIC_WHOAMI_Pn, AIC_CPU_COUNT. intros.
  replace (0x5000 + cpu * 0x80 + x - 0x5000) with (x + cpu * 0x80) by lia.
  rewrite Z.div_add, Z.div_small by lia. apply wrap_small. unfold in_width. lia.
Qed.

(** Outside the window the recursion is not used. *)
Lemma alias_fuel s o addr data now : alias_window addr = false ->
  aic_write 1 s o addr data = aic_write 0 s o addr data /\
  aic_read 1 s o addr now = aic_read 0 s o addr now.
Proof.
  intros Hout. cbn [aic_write aic_read]. fold (alias_window addr). rewrite !Hout.
  split; by destruct (aget (cpus s) o).
Qed.

(** Inside the window only the recursion is used. *)
Lemma alias_redirect s o c addr data now :
  alias_window addr = true -> aget (cpus s) o = Done c ->
  let cpu := u32 ((addr - 0x5000) / 0x80) in
  let addr' := addr - 0x5000 + 0x2000 - 0x80 * cpu in
  (numCPU s <=? cpu) = false ->
  aic_write 1 s o addr data = aic_write 0 s cpu addr' data /\
  aic_read 1 s o addr now = aic_read 0 s cpu addr' now.
Proof.
  intros Hin Hc cpu addr' Hcpu.
  assert (0x5000 <= addr) as Hlow.
  { unfold alias_window, in_range in Hin. by apply andb_prop in Hin as [?%Z.leb_le _]. }
  set (w := aic_write 0 s cpu addr' data). set (r := aic_read 0 s cpu addr' now).
  cbn [aic_write aic_read]. rewrite Hc. cbn [mbind outcome_bind]. cbv zeta.
  fold (alias_window addr). fold cpu. rewrite !Hin, !Hcpu. fold addr'.
  split; repeat skip_case; reflexivity.
Qed.

(** the window of CPU [cpu] at [REG_AIC_WHOAMI_Pn] is that CPU's own view of
    the registers at 0x2000: an access through it by any CPU [o] has exactly
    the result and the effect of the access that CPU [cpu] makes itself. *)
Theorem aic_alias_window s o cpu x data now : aic_wf s ->
  0 <= o < numCPU s -> 0 <= cpu < numCPU s -> cpu < AIC_CPU_COUNT -> 0 <= x <= 0x7C ->
  apple_aic_write s o (REG_AIC_WHOAMI_Pn cpu + x) data =
    apple_aic_write s cpu (REG_AIC_WHOAMI + x) data /\
  apple_aic_read s o (REG_AIC_WHOAMI_Pn cpu + x) now =
    apple_aic_read s cpu (REG_AIC_WHOAMI + x) now.
Proof.
  intros Hwf Ho Hcpu H6 Hx.
  pose proof (alias_window_at cpu x ltac:(lia) Hx) as Hin.
  pose proof (alias_split cpu x ltac:(lia) Hx) as Hsplit.
  assert (REG_AIC_WHOAMI_Pn cpu + x - 0x5000 + 0x2000 - 0x80 * cpu = REG_AIC_WHOAMI + x)
    as Haddr by (unfold REG_AIC_WHOAMI_Pn, REG_AIC_WHOAMI; lia).
  assert (alias_window (REG_AIC_WHOAMI + x) = false) as Hout.
  { apply not_true_iff_false. unfold alias_window, in_range.
    rewrite andb_true_iff, !Z.leb_le. unfold REG_AIC_WHOAMI_Pn, REG_AIC_WHOAMI. lia. }
  destruct (wf_upd_cpu s o id Hwf Ho ltac:(by intros ??)) as (c & _ & Hc & _).
  destruct (alias_fuel s cpu _ data now Hout) as [Hw Hr].
  pose proof (alias_redirect s o c _ data now Hin Hc) as Hred. cbv zeta in Hred.
  rewrite Hsplit, Haddr in Hred. unfold apple_aic_write, apple_aic_read.
  rewrite Hw, Hr. apply Hred, Z.leb_gt. lia.
Qed.

Lemma aic_alias_window_witness :
  apple_aic_read aic_example 0 0x5084 0 = apple_aic_read aic_example 1 0x2004 0.
Proof.
  apply (aic_alias_window aic_example 0 1 4 0 0 aic_example_wf);
    vm_compute; intuition congruence.
Defined.

(** A route to a CPU number that does not exist can starve an interrupt: with
    two CPUs, interrupt 4 routed to CPU 2 alone and interrupt 5 routed to CPUs
    1 and 2, both pending and not masked, [apple_aic_update] raises no line,
    although an acknowledge by CPU 1 would deliver interrupt 5. *)
Theorem aic_update_stray_route :
  let s := mkAIC 1 32 2 0 0 [0] (<[4%nat := 4]> (<[5%nat := 6]> (replicate 32 0))) [48]
    [mkCPU 0 false 0 0 0; mkCPU 1 false 0 0 0] 0 in
  apple_aic_update s = Done s /\
  exists s', apple_aic_iack s 1 = Done (kAIC_INT_EXT .| 5, s').
Proof. split; [reflexivity|]. eexists. vm_compute. reflexivity. Qed.
