(* ===== verification/Fifo8.v ===== *)
(** * Byte and word queues

    Model of [util/fifo8.c] and [include/qemu/fifo32.h]: a ring buffer with the
    index of its first byte and the number of bytes it holds. *)

From S2P Require Import Prelude.

Record Fifo8 := mkFifo8 {
  data : list Z;
  capacity : Z;
  head : Z;
  num : Z;
}.
#[global] Instance eta_Fifo8 : Eta Fifo8 := fun r =>
  mkFifo8 (data r) (capacity r) (head r) (num r).

Definition fifo8_reset (fifo : Fifo8) : Fifo8 := fifo <| num := 0 |> <| head := 0 |>.

(** [g_new] leaves the bytes undefined; the model has them zero, and nothing
    reads them before they are written. *)
Definition fifo8_create (cap : Z) : Fifo8 :=
  fifo8_reset (mkFifo8 (replicate (Z.to_nat cap) 0) cap 0 0).

Definition fifo8_push (fifo : Fifo8) (b : Z) : outcome Fifo8 :=
  _ ← c_assert (num fifo <? capacity fifo);
  i ← c_mod (u32 (head fifo + num fifo)) (capacity fifo);
  d ← aset (data fifo) i b;
  mret (fifo <| data := d |> <| num := u32 (num fifo + 1) |>).

Definition fifo8_push_all (fifo : Fifo8) (bytes : list Z) : outcome Fifo8 :=
  let n := zlen bytes in
  _ ← c_assert (u32 (num fifo + n) <=? capacity fifo);
  start ← c_mod (u32 (head fifo + num fifo)) (capacity fifo);
  d ← (if u32 (start + n) <=? capacity fifo then blit (data fifo) start bytes
       else
         let avail := u32 (capacity fifo - start) in
         d ← blit (data fifo) start (take (Z.to_nat avail) bytes);
         blit d 0 (drop (Z.to_nat avail) bytes));
  mret (fifo <| data := d |> <| num := u32 (num fifo + n) |>).

Definition fifo8_pop (fifo : Fifo8) : outcome (Z * Fifo8) :=
  _ ← c_assert (0 <? num fifo);
  ret ← aget (data fifo) (head fifo);
  h ← c_mod (u32 (head fifo + 1)) (capacity fifo);
  mret (ret, fifo <| head := h |> <| num := u32 (num fifo - 1) |>).

Definition fifo8_peek (fifo : Fifo8) : outcome Z :=
  _ ← c_assert (0 <? num fifo);
  aget (data fifo) (head fifo).

(** Returns the index into [data] that the pointer names, the number of bytes
    that may be read there, and the queue. *)
Definition fifo8_peekpop_bufptr (fifo : Fifo8) (max skip : Z) (do_pop : bool)
    : outcome (Z * Z * Fifo8) :=
  _ ← c_assert ((0 <? max) && (max <=? num fifo));
  _ ← c_assert (skip <=? num fifo);
  h ← c_mod (u32 (head fifo + skip)) (capacity fifo);
  let n := Z.min (u32 (capacity fifo - h)) max in
  if do_pop then
    h' ← c_mod (u32 (h + n)) (capacity fifo);
    mret (h, n, fifo <| head := h' |> <| num := u32 (num fifo - n) |>)
  else mret (h, n, fifo).

(** Returns the count and the bytes copied to [dest]; a call with a null
    [dest] ignores them. *)
Definition fifo8_peekpop_buf (fifo : Fifo8) (destlen : Z) (do_pop : bool)
    : outcome (Z * list Z * Fifo8) :=
  if destlen =? 0 then mret (0, [], fifo)
  else
    r1 ← fifo8_peekpop_bufptr fifo destlen 0 do_pop;
    let '(buf, n1, fifo) := r1 in
    bytes1 ← slice (data fifo) buf n1;
    let len := Z.min (u32 (destlen - n1)) (num fifo) in
    if nonzero len then
      r2 ← fifo8_peekpop_bufptr fifo len (if do_pop then 0 else n1) do_pop;
      let '(buf, n2, fifo) := r2 in
      bytes2 ← slice (data fifo) buf n2;
      mret (u32 (n1 + n2), bytes1 ++ bytes2, fifo)
    else mret (u32 (n1 + 0), bytes1, fifo).

Definition fifo8_pop_buf (fifo : Fifo8) (destlen : Z) := fifo8_peekpop_buf fifo destlen true.
Definition fifo8_peek_buf (fifo : Fifo8) (destlen : Z) := fifo8_peekpop_buf fifo destlen false.

Definition fifo8_drop (fifo : Fifo8) (len : Z) : outcome Fifo8 :=
  r ← fifo8_pop_buf fifo len;
  let '(n, _, fifo) := r in
  _ ← c_assert (u32 (len - n) =? 0);
  mret fifo.

Definition fifo8_is_empty (fifo : Fifo8) : bool := num fifo =? 0.
Definition fifo8_is_full (fifo : Fifo8) : bool := num fifo =? capacity fifo.
Definition fifo8_num_free (fifo : Fifo8) : Z := u32 (capacity fifo - num fifo).
Definition fifo8_num_used (fifo : Fifo8) : Z := num fifo.

(** ** Queues of words *)

Definition fifo32_create (cap : Z) : Fifo8 := fifo8_create (u32 (cap * 4)).

Definition fifo32_num_free (fifo : Fifo8) : Z := (fifo8_num_free fifo + 4 - 1) / 4.
Definition fifo32_num_used (fifo : Fifo8) : Z := (fifo8_num_used fifo + 4 - 1) / 4.

Fixpoint fifo32_push_bytes (n : nat) (fifo : Fifo8) (d : Z) : outcome Fifo8 :=
  match n with
  | O => mret fifo
  | S n' =>
      fifo ← fifo8_push fifo (d .& 0xff);
      fifo32_push_bytes n' fifo (d .>> 8)
  end.
Definition fifo32_push : Fifo8 -> Z -> outcome Fifo8 := fifo32_push_bytes 4.

Fixpoint fifo32_push_all (fifo : Fifo8) (words : list Z) : outcome Fifo8 :=
  match words with
  | [] => mret fifo
  | w :: words' => fifo ← fifo32_push fifo w; fifo32_push_all fifo words'
  end.

Fixpoint fifo32_pop_bytes (n : nat) (i : Z) (fifo : Fifo8) (ret : Z) : outcome (Z * Fifo8) :=
  match n with
  | O => mret (ret, fifo)
  | S n' =>
      r ← fifo8_pop fifo;
      fifo32_pop_bytes n' (i + 1) (snd r) (ret .| u32 (fst r .<< (i * 8)))
  end.
Definition fifo32_pop (fifo : Fifo8) : outcome (Z * Fifo8) := fifo32_pop_bytes 4 0 fifo 0.

Definition fifo32_is_full (fifo : Fifo8) : bool := fifo8_num_free fifo <? 4.

(** ** The queue a ring buffer stands for *)

Record fifo8_wf (f : Fifo8) : Prop := {
  wf_data : zlen (data f) = capacity f;
  wf_capacity : 0 < capacity f <= 2 ^ 31;
  wf_head : 0 <= head f < capacity f;
  wf_num : 0 <= num f <= capacity f;
}.

Definition contents (f : Fifo8) : list Z :=
  take (Z.to_nat (num f)) (rotate (Z.to_nat (head f)) (data f)).

Lemma length_contents f : fifo8_wf f -> zlen (contents f) = num f.
Proof.
  intros [Hd Hc Hh Hn]. unfold contents, zlen in *. rewrite length_take, length_rotate. lia.
Qed.

Lemma lookup_contents f (i : nat) : fifo8_wf f -> Z.of_nat i < num f ->
  contents f !! i = data f !! Z.to_nat ((head f + Z.of_nat i) mod capacity f).
Proof.
  intros [Hd Hc Hh Hn] Hi. unfold contents, zlen in *.
  rewrite lookup_take_lt, lookup_rotate_r by lia. unfold rotate_nat_add.
  rewrite Hd, Z2Nat.id by lia. done.
Qed.

(** To show what a queue holds, look at the bytes behind its head. *)
Lemma contents_eq f l : fifo8_wf f -> zlen l = num f ->
  (forall i : nat, Z.of_nat i < num f ->
     data f !! Z.to_nat ((head f + Z.of_nat i) mod capacity f) = l !! i) ->
  contents f = l.
Proof.
  intros Hwf Hl H. apply list_eq. intros i.
  destruct (Z.lt_ge_cases (Z.of_nat i) (num f)).
  - rewrite lookup_contents by done. auto.
  - rewrite !lookup_ge_None_2; [done| |].
    + unfold zlen in Hl. lia.
    + pose proof (length_contents f Hwf). unfold zlen in *. lia.
Qed.

Lemma mod_wrap a c : 0 <= a < 2 * c -> a mod c = if a <? c then a else a - c.
Proof.
  intros. destruct (Z.ltb_spec a c); [apply Z.mod_small; lia|].
  symmetry. apply (Z.mod_unique_pos _ _ 1); lia.
Qed.

Lemma ring_index a c : 0 < c <= 2 ^ 31 -> 0 <= a < 2 * c -> 
  c_mod (u32 a) c = Done (a mod c) /\ 0 <= a mod c < c.
Proof.
  intros. unfold c_mod. destruct (Z.eqb_spec c 0); [lia|].
  rewrite wrap_small by (unfold in_width; lia).
  split; [done|]. apply Z.mod_pos_bound. lia.
Qed.

Lemma fifo8_create_wf cap : 0 < cap <= 2 ^ 31 ->
  fifo8_wf (fifo8_create cap) /\ contents (fifo8_create cap) = [].
Proof.
  intros. split; [|done]. split; simpl; unfold zlen; rewrite ?length_replicate; lia.
Qed.

(** ** Bytes in, bytes out *)

Lemma fifo8_push_ok f b : fifo8_wf f -> num f < capacity f ->
  exists f', fifo8_push f b = Done f' /\ fifo8_wf f' /\
    contents f' = contents f ++ [b] /\ capacity f' = capacity f /\ num f' = num f + 1.
Proof.
  intros Hwf Hlt. pose proof Hwf as [Hd Hc Hh Hn]. unfold fifo8_push.
  rewrite (proj2 (Z.ltb_lt _ _) Hlt). cbn [c_assert mbind outcome_bind].
  destruct (ring_index (head f + num f) (capacity f)) as [-> Hi]; [lia..|].
  cbn [mbind outcome_bind]. rewrite aset_in_range by lia. cbn [mbind outcome_bind].
  rewrite wrap_small by (unfold in_width; lia).
  eexists. split; [done|].
  assert (fifo8_wf (f <| data := <[Z.to_nat ((head f + num f) mod capacity f) := b]> (data f) |>
    <| num := num f + 1 |>)) as Hwf' by (split; cbn; rewrite ?zlen_insert; lia).
  split; [exact Hwf'|]. split; [|done].
  apply contents_eq; [exact Hwf'| |].
  { pose proof (length_contents f Hwf). cbn. unfold zlen in *. rewrite length_app. simpl. lia. }
  cbn. intros i Hi'. destruct (decide (Z.of_nat i = num f)) as [He|].
  - rewrite lookup_app_r; [|pose proof (length_contents f Hwf); unfold zlen in *; lia].
    rewrite He, list_lookup_insert_eq by (unfold zlen in *; lia).
    pose proof (length_contents f Hwf). replace (i - length (contents f))%nat with 0%nat; [done|].
    unfold zlen in *. lia.
  - rewrite lookup_app_l; [|pose proof (length_contents f Hwf); unfold zlen in *; lia].
    rewrite lookup_contents by (done || lia). apply list_lookup_insert_ne.
    rewrite !mod_wrap by lia. split_bits; lia.
Qed.

Lemma fifo8_push_full f b : fifo8_wf f -> num f = capacity f -> fifo8_push f b = Abort.
Proof.
  intros _ He. unfold fifo8_push. by destruct (Z.ltb_spec (num f) (capacity f)); [lia|].
Qed.

(** Advancing the head drops bytes from the front. *)
Lemma contents_advance f k : fifo8_wf f -> 0 <= k <= num f ->
  let f' := f <| head := (head f + k) mod capacity f |> <| num := num f - k |> in
  fifo8_wf f' /\ contents f' = drop (Z.to_nat k) (contents f).
Proof.
  intros Hwf Hk f'. pose proof Hwf as [Hd Hc Hh Hn].
  pose proof (length_contents f Hwf) as Hl.
  assert (fifo8_wf f') as Hwf'.
  { pose proof (Z.mod_pos_bound (head f + k) (capacity f) ltac:(lia)). split; cbn; lia. }
  split; [done|]. apply contents_eq; [done| |].
  { cbn. unfold zlen in *. rewrite length_drop. lia. }
  cbn. intros i Hi. rewrite lookup_drop, lookup_contents by (done || lia).
  f_equal. f_equal. rewrite Zplus_mod_idemp_l. f_equal. lia.
Qed.

Lemma fifo8_pop_ok f b q : fifo8_wf f -> contents f = b :: q ->
  exists f', fifo8_pop f = Done (b, f') /\ fifo8_wf f' /\ contents f' = q /\
    capacity f' = capacity f /\ num f' = num f - 1.
Proof.
  intros Hwf He. pose proof Hwf as [Hd Hc Hh Hn].
  pose proof (length_contents f Hwf) as Hl. rewrite He in Hl. unfold zlen in Hl. simpl in Hl.
  unfold fifo8_pop. destruct (Z.ltb_spec 0 (num f)); [|lia]. cbn [c_assert mbind outcome_bind].
  pose proof (lookup_contents f 0 Hwf ltac:(lia)) as H0. rewrite He in H0. simpl in H0.
  rewrite Z.add_0_r, Z.mod_small in H0 by lia.
  rewrite (proj2 (aget_Done (data f) (head f) b)) by (split; [lia|done]).
  cbn [mbind outcome_bind].
  destruct (ring_index (head f + 1) (capacity f)) as [-> _]; [lia..|].
  cbn [mbind outcome_bind]. rewrite wrap_small by (unfold in_width; lia).
  destruct (contents_advance f 1 Hwf ltac:(lia)) as [Hwf' Hc'].
  eexists. split; [done|]. split; [exact Hwf'|]. split; [|done].
  rewrite Hc', He. done.
Qed.

Lemma fifo8_pop_empty f : fifo8_wf f -> contents f = [] -> fifo8_pop f = Abort.
Proof.
  intros Hwf He. pose proof (length_contents f Hwf) as Hl. rewrite He in Hl.
  unfold fifo8_pop. destruct (Z.ltb_spec 0 (num f)); [|done]. unfold zlen in Hl. simpl in Hl. lia.
Qed.

(** The two copies of [fifo8_push_all] write each byte to its ring index. *)
Lemma push_all_data f bytes : fifo8_wf f -> num f + zlen bytes <= capacity f ->
  let start := (head f + num f) mod capacity f in
  let avail := capacity f - start in
  exists d,
    (if u32 (start + zlen bytes) <=? capacity f then blit (data f) start bytes
     else d ← blit (data f) start (take (Z.to_nat (u32 avail)) bytes);
          blit d 0 (drop (Z.to_nat (u32 avail)) bytes)) = Done d /\
    length d = length (data f) /\
    forall j, 0 <= j < capacity f -> d !! Z.to_nat j =
      let i := (j - start) mod capacity f in
      if i <? zlen bytes then bytes !! Z.to_nat i else data f !! Z.to_nat j.
Proof.
  intros Hwf Hfit start avail. pose proof Hwf as [Hd Hc Hh Hn].
  assert (0 <= start < capacity f) as Hs by (apply Z.mod_pos_bound; lia).
  assert (0 <= zlen bytes) as Hb by (unfold zlen; lia).
  assert (forall j, 0 <= j < capacity f -> (j - start) mod capacity f =
    if start <=? j then j - start else j - start + capacity f) as Hi.
  { intros j Hj. destruct (Z.leb_spec start j); [apply Z.mod_small; lia|].
    symmetry. apply (Z.mod_unique_pos _ _ (-1)); lia. }
  rewrite !wrap_small by (unfold in_width, avail; lia).
  destruct (Z.leb_spec (start + zlen bytes) (capacity f)) as [H1|H1].
  - destruct (blit_in_range (data f) bytes start) as (d & -> & Hl & Hlook); [lia..|].
    exists d. do 2 (split; [done|]). intros j Hj. rewrite Hlook. cbv zeta. rewrite Hi by done.
    unfold zlen in *. destruct (Z.leb_spec start j); case_decide; split_bits; try lia; try done; f_equal; lia.
  - assert (length (take (Z.to_nat avail) bytes) = Z.to_nat avail) as Ht
      by (rewrite length_take; unfold zlen in *; lia).
    destruct (blit_in_range (data f) (take (Z.to_nat avail) bytes) start)
      as (d1 & -> & Hl1 & Hlook1); [lia|unfold zlen in *; lia|].
    cbn [mbind outcome_bind].
    destruct (blit_in_range d1 (drop (Z.to_nat avail) bytes) 0) as (d2 & -> & Hl2 & Hlook2).
    { lia. }
    { unfold zlen in *. rewrite length_drop. lia. }
    exists d2. split; [done|]. split; [lia|]. intros j Hj. rewrite Hlook2, Hlook1, Ht.
    cbv zeta. rewrite Hi by done. rewrite length_drop. unfold zlen, avail in *.
    destruct (Z.leb_spec start j); repeat case_decide; split_bits; try lia; try done.
    + rewrite lookup_take_lt by lia. f_equal. lia.
    + rewrite lookup_drop. f_equal. lia.
Qed.

Lemma fifo8_push_all_ok f bytes : fifo8_wf f -> num f + zlen bytes <= capacity f ->
  exists f', fifo8_push_all f bytes = Done f' /\ fifo8_wf f' /\
    contents f' = contents f ++ bytes /\ capacity f' = capacity f.
Proof.
  intros Hwf Hfit. pose proof Hwf as [Hd Hc Hh Hn].
  assert (0 <= zlen bytes) as Hb by (unfold zlen; lia).
  pose proof (length_contents f Hwf) as Hl.
  unfold fifo8_push_all. cbv zeta.
  rewrite (wrap_small 32 (num f + zlen bytes)) by (unfold in_width; lia).
  rewrite (proj2 (Z.leb_le _ _) Hfit). cbn [c_assert mbind outcome_bind].
  destruct (ring_index (head f + num f) (capacity f)) as [-> Hi]; [lia..|].
  cbn [mbind outcome_bind].
  destruct (push_all_data f bytes Hwf Hfit) as (d & Heq & Hld & Hlook).
  cbn [mbind outcome_bind] in Heq. rewrite Heq. cbn [mbind outcome_bind].
  eexists. split; [done|].
  assert (fifo8_wf (f <| data := d |> <| num := num f + zlen bytes |>)) as Hwf'
    by (split; cbn; unfold zlen in *; lia).
  split; [exact Hwf'|]. split; [|done]. apply contents_eq; [exact Hwf'| |].
  { cbn. unfold zlen in *. rewrite length_app. lia. }
  cbn. intros i Hlt. rewrite Hlook by (apply Z.mod_pos_bound; lia). cbv zeta.
  rewrite <- Zminus_mod.
  replace (head f + Z.of_nat i - (head f + num f)) with (Z.of_nat i - num f) by lia.
  destruct (Z.lt_ge_cases (Z.of_nat i) (num f)).
  - rewrite lookup_app_l by (unfold zlen in *; lia). rewrite <- lookup_contents by done.
    replace ((Z.of_nat i - num f) mod capacity f) with (Z.of_nat i - num f + capacity f)
      by (apply (Z.mod_unique_pos _ _ (-1)); lia).
    by destruct (Z.ltb_spec (Z.of_nat i - num f + capacity f) (zlen bytes)); [lia|].
  - rewrite lookup_app_r, Z.mod_small by (unfold zlen in *; lia).
    destruct (Z.ltb_spec (Z.of_nat i - num f) (zlen bytes)); [|lia].
    f_equal. unfold zlen in *. lia.
Qed.

(** A stretch of the array that does not pass its end is a stretch of the queue. *)
Lemma slice_contents f k n : fifo8_wf f -> 0 <= k -> 0 <= n -> k + n <= num f ->
  let h := (head f + k) mod capacity f in h + n <= capacity f ->
  slice (data f) h n = Done (take (Z.to_nat n) (drop (Z.to_nat k) (contents f))).
Proof.
  intros Hwf Hk Hn Hkn h Hh. pose proof Hwf as [Hd Hc Hhd Hnum].
  pose proof (length_contents f Hwf) as Hl.
  assert (0 <= h < capacity f) by (apply Z.mod_pos_bound; lia).
  rewrite slice_in_range by lia. f_equal. apply list_eq. intros i.
  destruct (decide (i < Z.to_nat n)%nat).
  - rewrite !lookup_take_lt, !lookup_drop, lookup_contents by (done || lia).
    f_equal. transitivity (Z.to_nat (h + Z.of_nat i)); [lia|]. f_equal.
    replace (head f + Z.of_nat (Z.to_nat k + i)) with (head f + k + Z.of_nat i) by lia.
    rewrite <- Zplus_mod_idemp_l. fold h. symmetry. apply Z.mod_small. lia.
  - rewrite !lookup_take_ge by lia. done.
Qed.

(** The stretch that one pointer gives: up to the end of the array. *)
Lemma bufptr_ok f max skip do_pop : fifo8_wf f -> 0 < max -> 0 <= skip ->
  skip + max <= num f -> (do_pop = true -> skip = 0) ->
  let h := (head f + skip) mod capacity f in
  let n := Z.min (capacity f - h) max in
  let f' := if do_pop then f <| head := (head f + n) mod capacity f |>
                             <| num := num f - n |> else f in
  fifo8_peekpop_bufptr f max skip do_pop = Done (h, n, f') /\ 0 < n <= max /\
  slice (data f) h n = Done (take (Z.to_nat n) (drop (Z.to_nat skip) (contents f))).
Proof.
  intros Hwf Hm Hs Hle Hpop h n f'. pose proof Hwf as [Hd Hc Hhd Hnum].
  destruct (ring_index (head f + skip) (capacity f)) as [He Hi]; [lia..|]. fold h in Hi.
  split; [|split; [lia|apply slice_contents; fold h; (done || lia)]].
  unfold fifo8_peekpop_bufptr.
  rewrite (proj2 (Z.ltb_lt 0 max)), !(proj2 (Z.leb_le _ _)) by lia.
  cbn [andb c_assert mbind outcome_bind]. rewrite He. cbn [mbind outcome_bind].
  fold h. cbv zeta. rewrite (wrap_small 32 (capacity f - h)) by (unfold in_width; lia).
  fold n. destruct do_pop; [|done]. specialize (Hpop eq_refl). subst skip.
  assert (h = head f) as Hh by (unfold h; rewrite Z.add_0_r; apply Z.mod_small; lia).
  rewrite Hh. destruct (ring_index (head f + n) (capacity f)) as [-> _]; [lia..|].
  cbn [mbind outcome_bind]. rewrite wrap_small by (unfold in_width; lia). done.
Qed.

Lemma fifo8_peek_buf_ok f n : fifo8_wf f -> 0 <= n <= num f ->
  fifo8_peek_buf f n = Done (n, take (Z.to_nat n) (contents f), f).
Proof.
  intros Hwf Hn. pose proof Hwf as [Hd Hc Hh Hnum].
  unfold fifo8_peek_buf, fifo8_peekpop_buf. destruct (Z.eqb_spec n 0) as [->|]; [done|].
  destruct (bufptr_ok f n 0 false Hwf) as (-> & Hn1 & Hs1); [lia..|done|].
  cbn [mbind outcome_bind]. rewrite Hs1. cbn [mbind outcome_bind]. cbv zeta.
  set (h := (head f + 0) mod capacity f) in *.
  assert (h = head f) as Hhd by (unfold h; rewrite Z.add_0_r; apply Z.mod_small; lia).
  set (n1 := Z.min (capacity f - h) n) in *.
  rewrite (wrap_small 32 (n - n1)) by (unfold in_width; lia).
  replace (Z.min (n - n1) (num f)) with (n - n1) by lia.
  destruct (nonzero (n - n1)) eqn:E; [apply nonzero_iff in E|].
  - destruct (bufptr_ok f (n - n1) n1 false Hwf) as (-> & Hn2 & Hs2); [lia..|done|].
    cbn [mbind outcome_bind]. rewrite Hs2. cbn [mbind outcome_bind].
    assert ((head f + n1) mod capacity f = 0) as ->
      by (replace (head f + n1) with (capacity f) by lia; apply Z.mod_same; lia).
    rewrite (Z.min_r (capacity f - 0)) by lia.
    rewrite wrap_small by (unfold in_width; lia). rewrite drop_0.
    rewrite take_take_drop. unfold mret, outcome_ret. do 2 f_equal; [f_equal; [lia|]].
    f_equal. lia.
  - assert (n1 = n) as Hn1n.
    { destruct (Z.eq_dec (n - n1) 0); [lia|]. apply nonzero_iff in n2. congruence. }
    rewrite wrap_small by (unfold in_width; lia). rewrite drop_0, Hn1n, Z.add_0_r. done.
Qed.

Lemma fifo8_pop_buf_ok f n : fifo8_wf f -> 0 <= n <= num f ->
  exists f', fifo8_pop_buf f n = Done (n, take (Z.to_nat n) (contents f), f') /\
    fifo8_wf f' /\ contents f' = drop (Z.to_nat n) (contents f).
Proof.
  intros Hwf Hn. pose proof Hwf as [Hd Hc Hh Hnum].
  unfold fifo8_pop_buf, fifo8_peekpop_buf. destruct (Z.eqb_spec n 0) as [->|].
  { exists f. rewrite take_0, drop_0. done. }
  destruct (bufptr_ok f n 0 true Hwf) as (-> & Hn1 & Hs1); [lia..|done|].
  cbn [mbind outcome_bind]. set (h := (head f + 0) mod capacity f) in *.
  assert (h = head f) as Hhd by (unfold h; rewrite Z.add_0_r; apply Z.mod_small; lia).
  set (n1 := Z.min (capacity f - h) n) in *.
  destruct (contents_advance f n1 Hwf ltac:(lia)) as [Hwf1 Hc1].
  set (f1 := f <| head := (head f + n1) mod capacity f |> <| num := num f - n1 |>) in *.
  change (data f1) with (data f). rewrite Hs1. cbn [mbind outcome_bind]. cbv zeta.
  change (num f1) with (num f - n1).
  rewrite (wrap_small 32 (n - n1)) by (unfold in_width; lia).
  rewrite (Z.min_l (n - n1)) by lia. rewrite drop_0.
  destruct (nonzero (n - n1)) eqn:E; [apply nonzero_iff in E|].
  - destruct (bufptr_ok f1 (n - n1) 0 true Hwf1) as (-> & Hn2 & Hs2); [cbn; lia..|done|].
    cbn [mbind outcome_bind].
    assert (head f1 = 0) as Hz.
    { cbn. replace (head f + n1) with (capacity f) by lia. apply Z.mod_same. lia. }
    assert ((head f1 + 0) mod capacity f1 = 0) as Hz' by (rewrite Hz; done).
    rewrite Hz' in *. assert (Z.min (capacity f1 - 0) (n - n1) = n - n1) as Hmin.
    { change (capacity f1) with (capacity f). lia. }
    rewrite Hmin in *.
    destruct (contents_advance f1 (n - n1) Hwf1) as [Hwf2 Hc2]; [cbn; lia|].
    set (f2 := f1 <| head := _ |> <| num := _ |>) in *.
    change (data f2) with (data f1). rewrite Hs2. cbn [mbind outcome_bind].
    exists f2. split; [|split; [done|]].
    + rewrite wrap_small by (unfold in_width; lia). rewrite Hc1, drop_0, take_take_drop.
      unfold mret, outcome_ret. do 2 f_equal; [f_equal; [lia|]]. f_equal. lia.
    + rewrite Hc2, Hc1, drop_drop. f_equal. lia.
  - assert (n1 = n) as Hn1n.
    { destruct (Z.eq_dec (n - n1) 0) as [|n2]; [lia|]. apply nonzero_iff in n2. congruence. }
    exists f1. rewrite wrap_small by (unfold in_width; lia). rewrite Hc1, Hn1n, Z.add_0_r. done.
Qed.

(** ** Words as bytes, least significant first *)

Definition word_bytes (w : Z) : list Z :=
  [w .& 0xff; (w .>> 8) .& 0xff; (w .>> 16) .& 0xff; (w .>> 24) .& 0xff].

Lemma fifo32_push_ok f w : fifo8_wf f -> num f + 4 <= capacity f ->
  exists f', fifo32_push f w = Done f' /\ fifo8_wf f' /\
    contents f' = contents f ++ word_bytes w /\ capacity f' = capacity f /\ num f' = num f + 4.
Proof.
  intros Hwf Hfit. unfold fifo32_push. cbn [fifo32_push_bytes].
  destruct (fifo8_push_ok f (w .& 0xff)) as (f1 & -> & Hw1 & Hc1 & Hk1 & Hn1); [done|lia|].
  cbn [mbind outcome_bind].
  destruct (fifo8_push_ok f1 ((w .>> 8) .& 0xff)) as (f2 & -> & Hw2 & Hc2 & Hk2 & Hn2); [done|lia|].
  cbn [mbind outcome_bind]. rewrite (Z.shiftr_shiftr w 8 8 ltac:(done)). change (8 + 8) with 16.
  destruct (fifo8_push_ok f2 ((w .>> 16) .& 0xff)) as (f3 & -> & Hw3 & Hc3 & Hk3 & Hn3); [done|lia|].
  cbn [mbind outcome_bind]. rewrite (Z.shiftr_shiftr w 16 8 ltac:(done)). change (16 + 8) with 24.
  destruct (fifo8_push_ok f3 ((w .>> 24) .& 0xff)) as (f4 & -> & Hw4 & Hc4 & Hk4 & Hn4); [done|lia|].
  exists f4. split; [done|]. split; [done|]. split; [|lia].
  rewrite Hc4, Hc3, Hc2, Hc1. by rewrite <- !(assoc_L (++)).
Qed.

Lemma fifo32_push_all_ok ws : forall f, fifo8_wf f -> num f + 4 * zlen ws <= capacity f ->
  exists f', fifo32_push_all f ws = Done f' /\ fifo8_wf f' /\
    contents f' = contents f ++ concat (word_bytes <$> ws) /\ capacity f' = capacity f.
Proof.
  induction ws as [|w ws IH]; intros f Hwf Hfit; cbn [fifo32_push_all].
  - exists f. split; [done|]. by rewrite app_nil_r.
  - unfold zlen in *. cbn [length] in Hfit.
    destruct (fifo32_push_ok f w Hwf ltac:(lia)) as (f1 & -> & Hw1 & Hc1 & Hk1 & Hn1). run.
    destruct (IH f1 Hw1 ltac:(lia)) as (f2 & -> & Hw2 & Hc2 & Hk2).
    exists f2. split; [done|]. split; [done|]. split; [|lia].
    rewrite Hc2, Hc1, fmap_cons. cbn [concat]. by rewrite <- (assoc_L (++)).
Qed.

Lemma word_of_bytes w : in_width 32 w ->
  ((u32 ((w .& 0xff) .<< 0) .| u32 (((w .>> 8) .& 0xff) .<< 8))
    .| u32 (((w .>> 16) .& 0xff) .<< 16)) .| u32 (((w .>> 24) .& 0xff) .<< 24) = w.
Proof.
  intros Hw. change 0xff with (Z.ones 8). apply Z.bits_inj'. intros i Hi.
  destruct (Z.lt_ge_cases i 32).
  - assert (0 <= i < 8 \/ 8 <= i < 16 \/ 16 <= i < 24 \/ 24 <= i < 32) as Hcase by lia.
    destruct Hcase as [?|[?|[?|?]]]; do 3 (autorewrite with cbits; eval_cmp; simpl);
      rewrite ?andb_false_r, ?orb_false_r, ?andb_true_r; simpl; f_equal; lia.
  - rewrite !Z.lor_spec, !testbit_wrap by lia. eval_cmp. simpl.
    by rewrite (testbit_high 32) by (done || lia).
Qed.

Lemma fifo32_pop_ok f w q : fifo8_wf f -> in_width 32 w -> contents f = word_bytes w ++ q ->
  exists f', fifo32_pop f = Done (w, f') /\ fifo8_wf f' /\ contents f' = q /\
    capacity f' = capacity f /\ num f' = num f - 4.
Proof.
  intros Hwf Hw Hc. unfold fifo32_pop. cbn [fifo32_pop_bytes].
  destruct (fifo8_pop_ok f _ _ Hwf Hc) as (f1 & -> & Hw1 & Hc1 & Hk1 & Hn1).
  cbn [mbind outcome_bind fst snd].
  destruct (fifo8_pop_ok f1 _ _ Hw1 Hc1) as (f2 & -> & Hw2 & Hc2 & Hk2 & Hn2).
  cbn [mbind outcome_bind fst snd].
  destruct (fifo8_pop_ok f2 _ _ Hw2 Hc2) as (f3 & -> & Hw3 & Hc3 & Hk3 & Hn3).
  cbn [mbind outcome_bind fst snd].
  destruct (fifo8_pop_ok f3 _ _ Hw3 Hc3) as (f4 & -> & Hw4 & Hc4 & Hk4 & Hn4).
  cbn [mbind outcome_bind fst snd]. exists f4. split; [|split; [done|split; [done|lia]]].
  unfold mret, outcome_ret. do 2 f_equal. by apply word_of_bytes.
Qed.

(** ** Properties *)

(** A queue operation on the ring buffer [f] behaves as on the list: [r] is the
    operation's outcome, [q] the list it should leave and [x] its answer. *)
Definition implements {A} (r : outcome (A * Fifo8)) (x : A) (q : list Z) : Prop :=
  exists f', r = Done (x, f') /\ fifo8_wf f' /\ contents f' = q.

Definition unit_result (r : outcome Fifo8) : outcome (unit * Fifo8) := pair tt <$> r.


Definition fifo_example : Fifo8 := mkFifo8 [7; 8; 9; 10] 4 3 2.

Lemma fifo_example_wf : fifo8_wf fifo_example.
Proof. split; vm_compute; intuition congruence. Qed.


(** Words pushed to a queue come out unchanged and in order: after
    [fifo32_push_all] on a queue with room, the queue holds the bytes of the
    words, and while the bytes of the word [w] are at its front [fifo32_pop]
    returns [w] and leaves what follows. *)
Theorem fifo32_roundtrip f w q : fifo8_wf f -> in_width 32 w ->
  contents f = flat_map word_bytes q -> num f + 4 <= capacity f ->
  exists f', fifo32_push f w = Done f' /\ fifo8_wf f' /\
    contents f' = flat_map word_bytes (q ++ [w]) /\
    forall v q', in_width 32 v -> q ++ [w] = v :: q' ->
      implements (fifo32_pop f') v (flat_map word_bytes q').
Proof.
  intros Hwf Hw Hc Hfit.
  destruct (fifo32_push_ok f w Hwf Hfit) as (f' & -> & Hwf' & Hc' & _).
  assert (contents f' = flat_map word_bytes (q ++ [w])) as Hq.
  { rewrite Hc', Hc, flat_map_app. simpl. done. }
  exists f'. do 3 (split; [done|]). intros v q' Hv Heq. rewrite Heq in Hq. simpl in Hq.
  destruct (fifo32_pop_ok f' v (flat_map word_bytes q') Hwf' Hv Hq) as (f2 & -> & ? & ? & _).
  by exists f2.
Qed.

Lemma fifo32_roundtrip_witness :
  exists f', fifo32_push (fifo32_create 2) 0x12345678 = Done f' /\
    implements (fifo32_pop f') 0x12345678 [].
Proof.
  assert (0 < 8 <= 2 ^ 31) as H8 by (vm_compute; intuition congruence).
  assert (in_width 32 0x12345678) as Hw by (vm_compute; intuition congruence).
  destruct (fifo32_roundtrip (fifo32_create 2) 0x12345678 []
    (proj1 (fifo8_create_wf 8 H8)) Hw eq_refl) as (f' & H1 & _ & _ & H2);
    [vm_compute; congruence|].
  exists f'. split; [exact H1|]. exact (H2 _ [] Hw eq_refl).
Defined.
