(* ===== verification/Mailbox.v ===== *)
(** * Mailboxes of the A7IOP co-processors

    Model of [hw/misc/apple-silicon/a7iop/mailbox/core.c] and of the two
    register layouts [regs-v2.c] and [regs-v4.c] beside it.  [apple_a7iop_init]
    always creates two mailboxes that point to each other: the mailbox of the
    co-processor and the mailbox of the application processor.  The state is
    that pair, a mailbox pointer is a [side], and [s->iop_mailbox] and
    [s->ap_mailbox] are the two sides whichever mailbox [s] is. *)

From S2P Require Import Prelude.

Definition IOP_EMPTY : Z := BIT 0.
Definition IOP_NONEMPTY : Z := BIT 4.
Definition AP_EMPTY : Z := BIT 8.
Definition AP_NONEMPTY : Z := BIT 12.
Definition MAILBOX_MASKBIT_UNKN_EMPTY (n : Z) : Z := BIT (16 + 4 * n).
Definition MAILBOX_MASKBIT_UNKN_NONEMPTY (n : Z) : Z := BIT (18 + 4 * n).

Definition IRQ_IOP_NONEMPTY : Z := 0x40000.
Definition IRQ_IOP_EMPTY : Z := 0x40001.
Definition IRQ_AP_NONEMPTY : Z := 0x40002.
Definition IRQ_AP_EMPTY : Z := 0x40003.
Definition IRQ_MAILBOX_UNKN_NONEMPTY (n : Z) : Z := 0x40004 + 2 * n.
Definition IRQ_MAILBOX_UNKN_EMPTY (n : Z) : Z := 0x40005 + 2 * n.
Definition IRQ_SEP_TIMER0 : Z := 0x70001.
Definition IRQ_SEP_TIMER1 : Z := 0x70009.

Definition KIC_GLB_CFG_EXT_INT_EN : Z := BIT 0.
Definition REG_KIC_TMR_EN_MASK : Z := (BIT 3 .| BIT 2) .| BIT 1.
Definition REG_KIC_TMR_INT_MASK_MASK : Z := BIT 1.

Definition MAX_MESSAGE_COUNT : Z := 15.
Definition CTRL_ENABLE : Z := BIT 0.
Definition CTRL_FULL : Z := BIT 16.
Definition CTRL_EMPTY : Z := BIT 17.
Definition CTRL_UNDERFLOW : Z := BIT 19.
Definition CTRL_COUNT_SHIFT : Z := 20.
Definition CTRL_COUNT_MASK : Z := MAX_MESSAGE_COUNT .<< CTRL_COUNT_SHIFT.
Definition CTRL_COUNT (v : Z) : Z := u32 (v .<< CTRL_COUNT_SHIFT) .& CTRL_COUNT_MASK.

(** The 16 bytes of a message. *)
Abbreviation AppleA7IOPMessage := (list Z).

(** The four lines [irqs] are the levels last set, in the order of the
    enumeration in [base.h]; [handle_messages_bh] is [None] for a mailbox
    without a handler and otherwise tells whether it is scheduled. *)
Record AppleA7IOPMailbox := mkMailbox {
  role : string;
  handle_messages_bh : option bool;
  inbox : list AppleA7IOPMessage;
  interrupt_status : list Z;
  count : Z;
  irqs : list bool;
  sep_cpu_irq : bool;
  iop_dir_en : bool;
  ap_dir_en : bool;
  underflow : bool;
  int_mask : Z;
  iop_recv_reg : list Z;
  ap_recv_reg : list Z;
  iop_send_reg : list Z;
  ap_send_reg : list Z;
  interrupts_enabled : list Z;
  iop_nonempty : bool;
  iop_empty : bool;
  ap_nonempty : bool;
  ap_empty : bool;
  glb_cfg : Z;
  timer0_enabled : Z;
  timer1_enabled : Z;
  timer0_masked : Z;
  timer1_masked : Z;
  sepd_enabled : Z;
}.
#[global] Instance eta_AppleA7IOPMailbox : Eta AppleA7IOPMailbox := fun r =>
  mkMailbox (role r) (handle_messages_bh r) (inbox r) (interrupt_status r) (count r)
    (irqs r) (sep_cpu_irq r) (iop_dir_en r) (ap_dir_en r) (underflow r) (int_mask r)
    (iop_recv_reg r) (ap_recv_reg r) (iop_send_reg r) (ap_send_reg r)
    (interrupts_enabled r) (iop_nonempty r) (iop_empty r) (ap_nonempty r) (ap_empty r)
    (glb_cfg r) (timer0_enabled r) (timer1_enabled r) (timer0_masked r)
    (timer1_masked r) (sepd_enabled r).

Inductive side := IOP | AP.

Record mailboxes := mkMailboxes {
  iop_mailbox : AppleA7IOPMailbox;
  ap_mailbox : AppleA7IOPMailbox;
}.
#[global] Instance eta_mailboxes : Eta mailboxes := fun r =>
  mkMailboxes (iop_mailbox r) (ap_mailbox r).

Definition box (p : mailboxes) (s : side) : AppleA7IOPMailbox :=
  match s with IOP => iop_mailbox p | AP => ap_mailbox p end.

Definition upd (s : side) (f : AppleA7IOPMailbox -> AppleA7IOPMailbox) (p : mailboxes)
    : mailboxes :=
  match s with
  | IOP => p <| iop_mailbox ::= f |>
  | AP => p <| ap_mailbox ::= f |>
  end.

(** ** Interrupts *)

(** The group is below 4, so the access is inside [interrupts_enabled]. *)
Definition irq_group (status : Z) : nat := Z.to_nat ((status .& 0x7F) / 32).
Definition irq_bit (status : Z) : Z := BIT ((status .& 0x7F) mod 32).

Definition timer_enabled (enabled masked : Z) : bool :=
  (enabled .& REG_KIC_TMR_EN_MASK =? REG_KIC_TMR_EN_MASK) &&
  (masked .& REG_KIC_TMR_INT_MASK_MASK =? 0).

Definition is_interrupt_enabled (s : AppleA7IOPMailbox) (status : Z) : bool :=
  if sepd_enabled s =? 0 then false
  else if (status .& 0xF0000 =? 0x10000) && nonzero (glb_cfg s .& KIC_GLB_CFG_EXT_INT_EN) then
    nonzero (default 0 (interrupts_enabled s !! irq_group status) .& irq_bit status)
  else if status =? IRQ_IOP_NONEMPTY then iop_nonempty s
  else if status =? IRQ_IOP_EMPTY then iop_empty s
  else if status =? IRQ_AP_NONEMPTY then ap_nonempty s
  else if status =? IRQ_AP_EMPTY then ap_empty s
  else if status =? IRQ_SEP_TIMER0 then timer_enabled (timer0_enabled s) (timer0_masked s)
  else if status =? IRQ_SEP_TIMER1 then timer_enabled (timer1_enabled s) (timer1_masked s)
  else true.

Definition apple_mbox_interrupt_status_empty (s : AppleA7IOPMailbox) : bool :=
  forallb (fun status => negb (is_interrupt_enabled s status)) (interrupt_status s).

Definition iop_empty_is_unmasked (m : Z) : bool := m .& IOP_EMPTY =? 0.
Definition iop_nonempty_is_unmasked (m : Z) : bool := m .& IOP_NONEMPTY =? 0.
Definition ap_empty_is_unmasked (m : Z) : bool := m .& AP_EMPTY =? 0.
Definition ap_nonempty_is_unmasked (m : Z) : bool := m .& AP_NONEMPTY =? 0.

Definition inbox_empty (s : AppleA7IOPMailbox) : bool :=
  match inbox s with [] => true | _ => false end.

Definition apple_a7iop_mailbox_update_irq_status (p : mailboxes) (s : side) : mailboxes :=
  let m := int_mask (box p s) in
  let i_empty := inbox_empty (iop_mailbox p) in
  let a_empty := inbox_empty (ap_mailbox p) in
  let i_ne := (iop_nonempty_is_unmasked m && negb i_empty) || underflow (iop_mailbox p) in
  let i_e := iop_empty_is_unmasked m && i_empty in
  let a_ne := (ap_nonempty_is_unmasked m && negb a_empty) || underflow (ap_mailbox p) in
  let a_e := ap_empty_is_unmasked m && a_empty in
  upd s (fun b => b <| irqs := [i_ne; i_e; a_ne; a_e] |>
                    <| iop_nonempty := i_ne |> <| iop_empty := i_e |>
                    <| ap_nonempty := a_ne |> <| ap_empty := a_e |>) p.

Definition is_role (r : string) (b : AppleA7IOPMailbox) : bool := bool_decide (role b = r).

Fixpoint update_irq_fuel (fuel : nat) (p : mailboxes) (s : side) : outcome mailboxes :=
  match fuel with
  | O => NoFuel
  | S fuel' =>
      let p := apple_a7iop_mailbox_update_irq_status p s in
      let b := box p s in
      let raised := iop_nonempty b || iop_empty b || ap_nonempty b || ap_empty b in
      let raised := raised || negb (apple_mbox_interrupt_status_empty b) in
      let p := if is_role "SEP-iop" b then upd s (setf sep_cpu_irq (fun _ => raised)) p
               else p in
      if is_role "SEP-ap" b then update_irq_fuel fuel' p IOP else mret p
  end.

(** The mailbox of the application processor updates that of the co-processor,
    which updates no other: two levels are enough. *)
Definition apple_a7iop_mailbox_update_irq : mailboxes -> side -> outcome mailboxes :=
  update_irq_fuel 2.

(** ** Messages *)

Definition apple_a7iop_mailbox_is_empty (p : mailboxes) (s : side) : bool :=
  underflow (box p s) || inbox_empty (box p s).

Definition apple_a7iop_mailbox_send (p : mailboxes) (s : side) (msg : AppleA7IOPMessage)
    : outcome mailboxes :=
  let p := upd s (fun b => b <| inbox ::= fun l => l ++ [msg] |>
                             <| count ::= fun n => u32 (n + 1) |>) p in
  p ← apple_a7iop_mailbox_update_irq p s;
  mret (upd s (setf handle_messages_bh (fmap (fun _ => true))) p).

Definition apple_a7iop_mailbox_send_ap (p : mailboxes) (s : side) (msg : AppleA7IOPMessage) :=
  if ap_dir_en (box p s) then apple_a7iop_mailbox_send p AP msg else mret p.

Definition apple_a7iop_mailbox_send_iop (p : mailboxes) (s : side) (msg : AppleA7IOPMessage) :=
  if iop_dir_en (box p s) then apple_a7iop_mailbox_send p IOP msg else mret p.

Definition apple_a7iop_inbox_peek (p : mailboxes) (s : side) : option AppleA7IOPMessage :=
  hd_error (inbox (box p s)).

(** The count of waiting messages replaces the last word of the message. *)
Definition apple_a7iop_mailbox_recv (p : mailboxes) (s : side)
    : outcome (option AppleA7IOPMessage * mailboxes) :=
  let b := box p s in
  if underflow b then mret (None, p)
  else
    match inbox b with
    | [] =>
        p ← apple_a7iop_mailbox_update_irq (upd s (setf underflow (fun _ => true)) p) s;
        mret (None, p)
    | msg :: rest =>
        msg ← blit msg 0xC (le_split 4 (CTRL_COUNT (count b)));
        p ← apple_a7iop_mailbox_update_irq
              (upd s (fun b => b <| inbox := rest |> <| count ::= fun n => u32 (n - 1) |>) p) s;
        mret (Some msg, p)
    end.

Definition apple_a7iop_mailbox_recv_iop (p : mailboxes) (s : side) :=
  if iop_dir_en (box p s) then apple_a7iop_mailbox_recv p IOP else mret (None, p).

Definition apple_a7iop_mailbox_recv_ap (p : mailboxes) (s : side) :=
  if ap_dir_en (box p s) then apple_a7iop_mailbox_recv p AP else mret (None, p).

(** ** Masks and control *)

Definition apple_a7iop_mailbox_get_int_mask (p : mailboxes) (s : side) : Z := int_mask (box p s).

Definition apple_a7iop_mailbox_set_int_mask (p : mailboxes) (s : side) (value : Z) :=
  apple_a7iop_mailbox_update_irq (upd s (setf int_mask (fun m => m .| value)) p) s.

Definition apple_a7iop_mailbox_clear_int_mask (p : mailboxes) (s : side) (value : Z) :=
  apple_a7iop_mailbox_update_irq (upd s (setf int_mask (fun m => m .&~ value)) p) s.

Definition apple_a7iop_mailbox_ctrl (b : AppleA7IOPMailbox) : Z :=
  if underflow b then CTRL_UNDERFLOW
  else ((if MAX_MESSAGE_COUNT <=? count b then CTRL_FULL else 0)
        .| (if inbox_empty b then CTRL_EMPTY else 0))
       .| CTRL_COUNT (Z.min (count b) MAX_MESSAGE_COUNT).

Definition apple_a7iop_mailbox_get_iop_ctrl (p : mailboxes) (s : side) : Z :=
  (if iop_dir_en (box p s) then CTRL_ENABLE else 0) .| apple_a7iop_mailbox_ctrl (iop_mailbox p).

Definition apple_a7iop_mailbox_set_iop_ctrl (p : mailboxes) (s : side) (value : Z) : mailboxes :=
  upd s (setf iop_dir_en (fun _ => nonzero (value .& CTRL_ENABLE))) p.

Definition apple_a7iop_mailbox_get_ap_ctrl (p : mailboxes) (s : side) : Z :=
  (if ap_dir_en (box p s) then CTRL_ENABLE else 0) .| apple_a7iop_mailbox_ctrl (ap_mailbox p).

Definition apple_a7iop_mailbox_set_ap_ctrl (p : mailboxes) (s : side) (value : Z) : mailboxes :=
  upd s (setf ap_dir_en (fun _ => nonzero (value .& CTRL_ENABLE))) p.

(** ** The queue of interrupt statuses *)

Definition apple_a7iop_interrupt_status_push (p : mailboxes) (s : side) (status : Z)
    : outcome mailboxes :=
  if existsb (Z.eqb status) (interrupt_status (box p s)) then
    apple_a7iop_mailbox_update_irq p s
  else
    apple_a7iop_mailbox_update_irq
      (upd s (setf interrupt_status (fun l => l ++ [status])) p) s.

Definition status_group (status : Z) : Z := (status .>> 16) .& 0x7.

(** Whether the loop of the pop replaces its preferred entry by [status]. *)
Definition preferred_over (status preferred : Z) : bool :=
  ((status_group status =? status_group preferred) && (status <? preferred)) ||
  (negb (status_group status =? status_group preferred) && (status_group status =? 7)).

Fixpoint pick_status (b : AppleA7IOPMailbox) (l : list Z) (i : nat) (best : option (nat * Z))
    : option (nat * Z) :=
  match l with
  | [] => best
  | status :: l' =>
      let best :=
        if is_interrupt_enabled b status then
          match best with
          | None => Some (i, status)
          | Some (_, preferred) =>
              if preferred_over status preferred then Some (i, status) else best
          end
        else best in
      pick_status b l' (S i) best
  end.

Definition apple_a7iop_interrupt_status_pop (p : mailboxes) (s : side) : outcome (Z * mailboxes) :=
  let b := box p s in
  let '(ret, p) :=
    match pick_status b (interrupt_status b) 0 None with
    | Some (i, status) => (status, upd s (setf interrupt_status (delete i)) p)
    | None => (0, p)
    end in
  p ← apple_a7iop_mailbox_update_irq p s;
  mret (ret, p).

(** What reading a popped status masks in the co-processor's mailbox. *)
Definition mask_status (status : Z) (b : AppleA7IOPMailbox) : AppleA7IOPMailbox :=
  let mask m := b <| int_mask ::= fun w => w .| m |> in
  if status .& 0xf0000 =? 0x10000 then
    b <| interrupts_enabled ::= alter (fun w => w .&~ irq_bit status) (irq_group status) |>
  else if status =? IRQ_IOP_NONEMPTY then mask IOP_NONEMPTY
  else if status =? IRQ_IOP_EMPTY then mask IOP_EMPTY
  else if status =? IRQ_AP_NONEMPTY then mask AP_NONEMPTY
  else if status =? IRQ_AP_EMPTY then mask AP_EMPTY
  else if status =? IRQ_MAILBOX_UNKN_NONEMPTY 0 then mask (MAILBOX_MASKBIT_UNKN_NONEMPTY 0)
  else if status =? IRQ_MAILBOX_UNKN_EMPTY 0 then mask (MAILBOX_MASKBIT_UNKN_EMPTY 0)
  else if status =? IRQ_MAILBOX_UNKN_NONEMPTY 1 then mask (MAILBOX_MASKBIT_UNKN_NONEMPTY 1)
  else if status =? IRQ_MAILBOX_UNKN_EMPTY 1 then mask (MAILBOX_MASKBIT_UNKN_EMPTY 1)
  else if status =? IRQ_MAILBOX_UNKN_NONEMPTY 2 then mask (MAILBOX_MASKBIT_UNKN_NONEMPTY 2)
  else if status =? IRQ_MAILBOX_UNKN_EMPTY 2 then mask (MAILBOX_MASKBIT_UNKN_EMPTY 2)
  else if status =? IRQ_MAILBOX_UNKN_NONEMPTY 3 then mask (MAILBOX_MASKBIT_UNKN_NONEMPTY 3)
  else if status =? IRQ_MAILBOX_UNKN_EMPTY 3 then mask (MAILBOX_MASKBIT_UNKN_EMPTY 3)
  else if status =? IRQ_SEP_TIMER0 then
    b <| timer0_masked ::= fun w => w .| REG_KIC_TMR_INT_MASK_MASK |>
  else if status =? IRQ_SEP_TIMER1 then
    b <| timer1_masked ::= fun w => w .| REG_KIC_TMR_INT_MASK_MASK |>
  else b.

Definition apple_a7iop_mailbox_read_interrupt_status (p : mailboxes) (s : side)
    : outcome (Z * mailboxes) :=
  let b := iop_mailbox p in
  let mask m := upd IOP (setf int_mask (fun w => w .| m)) p in
  r ← (if iop_nonempty b then mret (IRQ_IOP_NONEMPTY, mask IOP_NONEMPTY)
       else if iop_empty b then mret (IRQ_IOP_EMPTY, mask IOP_EMPTY)
       else if ap_nonempty b then mret (IRQ_AP_NONEMPTY, mask AP_NONEMPTY)
       else if ap_empty b then mret (IRQ_AP_EMPTY, mask AP_EMPTY)
       else
         r ← apple_a7iop_interrupt_status_pop p s;
         let '(status, p) := r in
         mret (status, if nonzero status then upd IOP (mask_status status) p else p));
  let '(status, p) := r in
  p ← apple_a7iop_mailbox_update_irq p s;
  mret (status, p).

Definition apple_a7iop_gpio_timer0 (p : mailboxes) (s : side) (n level : Z) : outcome mailboxes :=
  _ ← c_assert (n =? 0);
  if level =? 0 then mret p else apple_a7iop_interrupt_status_push p s IRQ_SEP_TIMER0.

Definition apple_a7iop_gpio_timer1 (p : mailboxes) (s : side) (n level : Z) : outcome mailboxes :=
  _ ← c_assert (n =? 0);
  if level =? 0 then mret p else apple_a7iop_interrupt_status_push p s IRQ_SEP_TIMER1.

(** ** Creation and reset *)

Definition zeros (n : nat) : list Z := replicate n 0.

Definition apple_a7iop_mailbox_new (r : string) (bh : option bool) : AppleA7IOPMailbox :=
  {| role := r; handle_messages_bh := bh; inbox := []; interrupt_status := []; count := 0;
     irqs := replicate 4 false; sep_cpu_irq := false; iop_dir_en := false;
     ap_dir_en := false; underflow := false; int_mask := 0;
     iop_recv_reg := zeros 16; ap_recv_reg := zeros 16; iop_send_reg := zeros 16;
     ap_send_reg := zeros 16; interrupts_enabled := zeros 4; iop_nonempty := false;
     iop_empty := false; ap_nonempty := false; ap_empty := false; glb_cfg := 0;
     timer0_enabled := 0; timer1_enabled := 0; timer0_masked := 0; timer1_masked := 0;
     sepd_enabled := 0 |}.

Definition apple_a7iop_mailbox_reset (p : mailboxes) (s : side) : mailboxes :=
  apple_a7iop_mailbox_update_irq_status
    (upd s (fun b => {| role := role b; handle_messages_bh := handle_messages_bh b;
       inbox := []; interrupt_status := []; count := 0;
       irqs := irqs b; sep_cpu_irq := sep_cpu_irq b; iop_dir_en := true;
       ap_dir_en := true; underflow := false; int_mask := int_mask b;
       iop_recv_reg := zeros 16; ap_recv_reg := zeros 16; iop_send_reg := zeros 16;
       ap_send_reg := zeros 16; interrupts_enabled := zeros 4; iop_nonempty := false;
       iop_empty := false; ap_nonempty := false; ap_empty := false; glb_cfg := 0;
       timer0_enabled := 0; timer1_enabled := 0; timer0_masked := 0; timer1_masked := 0;
       sepd_enabled := 0 |}) p) s.

(** ** Registers

    [memcpy] of a [uint64_t] copies its bytes from the least significant one,
    as on the little-endian hosts the emulator supports. *)

Definition write_iop_send (p : mailboxes) (s : side) (off data size : Z) (complete : bool) :=
  reg ← blit (iop_send_reg (box p s)) off (le_split (Z.to_nat size) data);
  let p := upd s (setf iop_send_reg (fun _ => reg)) p in
  if complete then apple_a7iop_mailbox_send_iop p s reg else mret p.

Definition write_ap_send (p : mailboxes) (s : side) (off data size : Z) (complete : bool) :=
  reg ← blit (ap_send_reg (box p s)) off (le_split (Z.to_nat size) data);
  let p := upd s (setf ap_send_reg (fun _ => reg)) p in
  if complete then apple_a7iop_mailbox_send_ap p s reg else mret p.

Definition load_iop_recv (p : mailboxes) (s : side) : outcome mailboxes :=
  r ← apple_a7iop_mailbox_recv_iop p s;
  let '(msg, p) := r in
  mret (upd s (setf iop_recv_reg (fun _ => default (zeros 16) msg)) p).

Definition load_ap_recv (p : mailboxes) (s : side) : outcome mailboxes :=
  r ← apple_a7iop_mailbox_recv_ap p s;
  let '(msg, p) := r in
  mret (upd s (setf ap_recv_reg (fun _ => default (zeros 16) msg)) p).

Definition read_reg (reg : list Z) (off size : Z) : outcome Z :=
  le_combine <$> slice reg off size.

Module V2.
Definition REG_INT_MASK_SET : Z := 0x00.
Definition REG_INT_MASK_CLR : Z := 0x04.
Definition REG_IOP_CTRL : Z := 0x08.
Definition REG_IOP_SEND0 : Z := 0x10.
Definition REG_IOP_SEND1 : Z := 0x14.
Definition REG_IOP_RECV0 : Z := 0x18.
Definition REG_IOP_RECV1 : Z := 0x1C.
Definition REG_AP_CTRL : Z := 0x20.
Definition REG_AP_SEND0 : Z := 0x30.
Definition REG_AP_SEND1 : Z := 0x34.
Definition REG_AP_RECV0 : Z := 0x38.
Definition REG_AP_RECV1 : Z := 0x3C.

Definition apple_a7iop_v2_mailbox_reg_write (p : mailboxes) (s : side) (addr data size : Z)
    : outcome mailboxes :=
  if addr =? REG_INT_MASK_SET then apple_a7iop_mailbox_set_int_mask p s (u32 data)
  else if addr =? REG_INT_MASK_CLR then apple_a7iop_mailbox_clear_int_mask p s (u32 data)
  else if addr =? REG_IOP_CTRL then mret (apple_a7iop_mailbox_set_iop_ctrl p s (u32 data))
  else if addr =? REG_AP_CTRL then mret (apple_a7iop_mailbox_set_ap_ctrl p s (u32 data))
  else if (addr =? REG_IOP_SEND0) || (addr =? REG_IOP_SEND1) then
    write_iop_send p s (addr - REG_IOP_SEND0) data size (addr + size - 4 =? REG_IOP_SEND1)
  else if (addr =? REG_AP_SEND0) || (addr =? REG_AP_SEND1) then
    write_ap_send p s (addr - REG_AP_SEND0) data size (addr + size - 4 =? REG_AP_SEND1)
  else mret p.

Definition apple_a7iop_v2_mailbox_reg_read (p : mailboxes) (s : side) (addr size : Z)
    : outcome (Z * mailboxes) :=
  if (addr =? REG_INT_MASK_SET) || (addr =? REG_INT_MASK_CLR) then
    mret (apple_a7iop_mailbox_get_int_mask p s, p)
  else if addr =? REG_IOP_CTRL then mret (apple_a7iop_mailbox_get_iop_ctrl p s, p)
  else if addr =? REG_AP_CTRL then mret (apple_a7iop_mailbox_get_ap_ctrl p s, p)
  else if (addr =? REG_IOP_RECV0) || (addr =? REG_IOP_RECV1) then
    p ← (if addr =? REG_IOP_RECV0 then load_iop_recv p s else mret p);
    v ← read_reg (iop_recv_reg (box p s)) (addr - REG_IOP_RECV0) size;
    mret (v, p)
  else if (addr =? REG_AP_RECV0) || (addr =? REG_AP_RECV1) then
    p ← (if addr =? REG_AP_RECV0 then load_ap_recv p s else mret p);
    v ← read_reg (ap_recv_reg (box p s)) (addr - REG_AP_RECV0) size;
    mret (v, p)
  else mret (0, p).
End V2.

Module V4.
Definition REG_INT_MASK_SET : Z := 0x0.
Definition REG_INT_MASK_CLR : Z := 0x4.
Definition REG_IOP_CTRL : Z := 0x8.
Definition REG_AP_CTRL : Z := 0xC.
Definition REG_IOP_SEND (n : Z) : Z := 0x700 + 4 * n.
Definition REG_IOP_RECV (n : Z) : Z := 0x710 + 4 * n.
Definition REG_AP_SEND (n : Z) : Z := 0x720 + 4 * n.
Definition REG_AP_RECV (n : Z) : Z := 0x730 + 4 * n.

(** The four consecutive [case] labels of one register group. *)
Definition in_group (reg : Z -> Z) (addr : Z) : bool :=
  (addr =? reg 0) || (addr =? reg 1) || (addr =? reg 2) || (addr =? reg 3).

Definition apple_a7iop_v4_mailbox_reg_write (p : mailboxes) (s : side) (addr data size : Z)
    : outcome mailboxes :=
  if addr =? REG_INT_MASK_SET then apple_a7iop_mailbox_set_int_mask p s (u32 data)
  else if addr =? REG_INT_MASK_CLR then apple_a7iop_mailbox_clear_int_mask p s (u32 data)
  else if addr =? REG_IOP_CTRL then mret (apple_a7iop_mailbox_set_iop_ctrl p s (u32 data))
  else if addr =? REG_AP_CTRL then mret (apple_a7iop_mailbox_set_ap_ctrl p s (u32 data))
  else if in_group REG_IOP_SEND addr then
    write_iop_send p s (addr - REG_IOP_SEND 0) data size (addr + size - 4 =? REG_IOP_SEND 3)
  else if in_group REG_AP_SEND addr then
    write_ap_send p s (addr - REG_AP_SEND 0) data size (addr + size - 4 =? REG_AP_SEND 3)
  else mret p.

Definition apple_a7iop_v4_mailbox_reg_read (p : mailboxes) (s : side) (addr size : Z)
    : outcome (Z * mailboxes) :=
  if (addr =? REG_INT_MASK_SET) || (addr =? REG_INT_MASK_CLR) then
    mret (apple_a7iop_mailbox_get_int_mask p s, p)
  else if addr =? REG_IOP_CTRL then mret (apple_a7iop_mailbox_get_iop_ctrl p s, p)
  else if addr =? REG_AP_CTRL then mret (apple_a7iop_mailbox_get_ap_ctrl p s, p)
  else if in_group REG_IOP_RECV addr then
    p ← (if addr =? REG_IOP_RECV 0 then load_iop_recv p s else mret p);
    v ← read_reg (iop_recv_reg (box p s)) (addr - REG_IOP_RECV 0) size;
    mret (v, p)
  else if in_group REG_AP_RECV addr then
    p ← (if addr =? REG_AP_RECV 0 then load_ap_recv p s else mret p);
    v ← read_reg (ap_recv_reg (box p s)) (addr - REG_AP_RECV 0) size;
    mret (v, p)
  else mret (0, p).
End V4.

(** ** Invariants *)

Definition is_nonempty_flag (s : side) (b : AppleA7IOPMailbox) : bool :=
  match s with IOP => iop_nonempty b | AP => ap_nonempty b end.
Definition is_empty_flag (s : side) (b : AppleA7IOPMailbox) : bool :=
  match s with IOP => iop_empty b | AP => ap_empty b end.
Definition mask_nonempty (s : side) : Z := match s with IOP => IOP_NONEMPTY | AP => AP_NONEMPTY end.
Definition mask_empty (s : side) : Z := match s with IOP => IOP_EMPTY | AP => AP_EMPTY end.
Definition line_nonempty (s : side) : nat := match s with IOP => 0 | AP => 2 end.

(** The lines of a mailbox about its own inbox tell the truth: the "not empty"
    line is high exactly when a message waits and the line is not masked, or
    the mailbox underflowed; the "empty" line is high exactly when no message
    waits and the line is not masked. *)
Definition in_sync (s : side) (b : AppleA7IOPMailbox) : Prop :=
  let ne := ((int_mask b .& mask_nonempty s =? 0) && negb (inbox_empty b)) || underflow b in
  let e := (int_mask b .& mask_empty s =? 0) && inbox_empty b in
  is_nonempty_flag s b = ne /\ is_empty_flag s b = e /\
  irqs b !! line_nonempty s = Some ne /\ irqs b !! S (line_nonempty s) = Some e.

(** The messages and registers have 16 bytes, the count is the number of
    messages, the statuses are distinct. *)
Record box_wf (b : AppleA7IOPMailbox) : Prop := {
  wf_inbox : Forall (fun m => length m = 16%nat) (inbox b);
  wf_count : count b = u32 (zlen (inbox b));
  wf_regs : length (iop_recv_reg b) = 16%nat /\ length (ap_recv_reg b) = 16%nat /\
            length (iop_send_reg b) = 16%nat /\ length (ap_send_reg b) = 16%nat;
  wf_status : NoDup (interrupt_status b);
  wf_enabled : length (interrupts_enabled b) = 4%nat;
}.

(** The roles that [apple_a7iop_init] gives to the two mailboxes. *)
Definition roles_ok (p : mailboxes) : Prop :=
  exists r, role (iop_mailbox p) = (r ++ "-iop")%string /\ role (ap_mailbox p) = (r ++ "-ap")%string.

Record mailboxes_inv (p : mailboxes) : Prop := {
  inv_roles : roles_ok p;
  inv_wf : forall s, box_wf (box p s);
  inv_sync : forall s, in_sync s (box p s);
}.

(** ** Updates of the lines *)

(** A mailbox without the fields that an update of the lines may change. *)
Definition core (b : AppleA7IOPMailbox) : AppleA7IOPMailbox :=
  b <| irqs := [] |> <| sep_cpu_irq := false |> <| iop_nonempty := false |>
    <| iop_empty := false |> <| ap_nonempty := false |> <| ap_empty := false |>.

Lemma box_wf_core b b' : core b = core b' -> box_wf b -> box_wf b'.
Proof.
  intros H [H1 H2 H3 H4 H5].
  change (inbox b) with (inbox (core b)) in *. change (count b) with (count (core b)) in *.
  change (iop_recv_reg b) with (iop_recv_reg (core b)) in *.
  change (ap_recv_reg b) with (ap_recv_reg (core b)) in *.
  change (iop_send_reg b) with (iop_send_reg (core b)) in *.
  change (ap_send_reg b) with (ap_send_reg (core b)) in *.
  change (interrupt_status b) with (interrupt_status (core b)) in *.
  change (interrupts_enabled b) with (interrupts_enabled (core b)) in *.
  rewrite H in *. by split.
Qed.

Lemma box_upd_same p s f : box (upd s f p) s = f (box p s).
Proof. by destruct s. Qed.

Lemma box_upd_other p s t f : s <> t -> box (upd s f p) t = box p t.
Proof. by destruct s, t. Qed.

Lemma update_irq_status_ok p s :
  (forall t, core (box (apple_a7iop_mailbox_update_irq_status p s) t) = core (box p t)) /\
  in_sync s (box (apple_a7iop_mailbox_update_irq_status p s) s) /\
  (forall t, s <> t -> box (apple_a7iop_mailbox_update_irq_status p s) t = box p t).
Proof.
  split; [by destruct s, t|]. split; [|by destruct s, t].
  destruct s; repeat split.
Qed.

(** Setting the line of the co-processor's CPU changes nothing of interest. *)
Lemma set_sep_cpu_irq_ok (c : bool) p s v :
  let p' := if c then upd s (setf sep_cpu_irq (fun _ => v)) p else p in
  (forall t, core (box p' t) = core (box p t)) /\
  (forall t, in_sync t (box p t) -> in_sync t (box p' t)) /\
  (forall t, role (box p' t) = role (box p t)) /\
  (forall t, s <> t -> box p' t = box p t).
Proof.
  destruct c; [|done]. cbv zeta.
  assert (forall t, box (upd s (setf sep_cpu_irq (fun _ => v)) p) t = box p t \/
    box (upd s (setf sep_cpu_irq (fun _ => v)) p) t = box p t <| sep_cpu_irq := v |>) as H
    by (destruct s, t; auto).
  split_and!; [intros t; destruct (H t) as [-> | ->]; by destruct (box p t)..|].
  intros t Hne. by apply box_upd_other.
Qed.

Lemma iop_role_not_sep_ap r : (r ++ "-iop")%string <> "SEP-ap".
Proof. destruct r as [|? [|? [|? r]]]; try done. by destruct r as [|? [|? [|? [|? r]]]]. Qed.

Lemma update_irq_status_role p s :
  role (box (apple_a7iop_mailbox_update_irq_status p s) s) = role (box p s).
Proof. by destruct s. Qed.

(** One level of the recursion, with what it does to the two mailboxes. *)
Lemma update_irq_fuel_step fuel p s :
  exists p2, update_irq_fuel (S fuel) p s =
      (if is_role "SEP-ap" (box p s) then update_irq_fuel fuel p2 IOP else Done p2) /\
    (forall t, core (box p2 t) = core (box p t)) /\ in_sync s (box p2 s) /\
    (forall t, s <> t -> box p2 t = box p t).
Proof.
  destruct (update_irq_status_ok p s) as (Hc & Hs & Ho).
  pose proof (update_irq_status_role p s) as Hr. cbn [update_irq_fuel]. cbv zeta.
  set (p1 := apple_a7iop_mailbox_update_irq_status p s) in *.
  assert (forall r, is_role r (box p1 s) = is_role r (box p s)) as Hrole
    by (intros; unfold is_role; by rewrite Hr).
  rewrite !Hrole. set (v := _ || negb (apple_mbox_interrupt_status_empty (box p1 s))).
  destruct (set_sep_cpu_irq_ok (is_role "SEP-iop" (box p s)) p1 s v) as (Hc2 & Hs2 & _ & Ho2).
  set (p2 := if is_role "SEP-iop" (box p s) then _ else p1) in *.
  exists p2. split; [reflexivity|]. split; [intros t; by rewrite Hc2, Hc|].
  split; [by apply Hs2|]. intros t Ht. by rewrite Ho2, Ho.
Qed.

Lemma update_irq_ok p s : roles_ok p ->
  exists p', apple_a7iop_mailbox_update_irq p s = Done p' /\
    (forall t, core (box p' t) = core (box p t)) /\ in_sync s (box p' s) /\
    (forall t, in_sync t (box p t) -> in_sync t (box p' t)).
Proof.
  intros (r & Hi & Ha). unfold apple_a7iop_mailbox_update_irq.
  assert (forall fuel q, role (box q IOP) = (r ++ "-iop")%string ->
    exists p', update_irq_fuel (S fuel) q IOP = Done p' /\
      (forall t, core (box p' t) = core (box q t)) /\ in_sync IOP (box p' IOP) /\
      box p' AP = box q AP) as Hiop.
  { intros fuel q Hq. destruct (update_irq_fuel_step fuel q IOP) as (p2 & -> & Hc & Hs & Ho).
    assert (is_role "SEP-ap" (box q IOP) = false) as ->.
    { unfold is_role. apply bool_decide_eq_false. rewrite Hq. apply iop_role_not_sep_ap. }
    exists p2. split; [done|]. split; [done|]. split; [done|]. by apply Ho. }
  destruct s.
  - destruct (Hiop 1%nat p Hi) as (p' & -> & Hc & Hs & Hap). exists p'. split; [done|].
    split; [done|]. split; [done|]. intros []; [done|]. by rewrite Hap.
  - destruct (update_irq_fuel_step 1 p AP) as (p2 & -> & Hc2 & Hs2 & Ho2).
    specialize (Ho2 IOP ltac:(done)). destruct (is_role "SEP-ap" (box p AP)).
    + destruct (Hiop 0%nat p2) as (p' & -> & Hc' & Hs' & Hap); [by rewrite Ho2|].
      exists p'. split; [done|]. rewrite Hap.
      split; [intros t; by rewrite Hc', Hc2|]. split; [done|].
      intros [] Ht; [done|by rewrite Hap].
    + exists p2. split; [done|]. split; [done|]. split; [done|].
      intros [] Ht; [by rewrite Ho2|done].
Qed.

(** ** Preservation *)

Lemma role_core b b' : core b = core b' -> role b = role b'.
Proof. intros H. change (role (core b) = role (core b')). by rewrite H. Qed.

Lemma roles_upd p s f : (forall b, role (f b) = role b) -> roles_ok p -> roles_ok (upd s f p).
Proof. intros Hf (r & H1 & H2). exists r. destruct s; simpl; by rewrite ?Hf. Qed.

(** A change of mailbox [s] followed by the update of its lines. *)
Lemma inv_update p s f : mailboxes_inv p -> (forall b, role (f b) = role b) ->
  (box_wf (box p s) -> box_wf (f (box p s))) ->
  exists p', apple_a7iop_mailbox_update_irq (upd s f p) s = Done p' /\ mailboxes_inv p' /\
    core (box p' s) = core (f (box p s)) /\ (forall t, s <> t -> core (box p' t) = core (box p t)).
Proof.
  intros [Hr Hw Hs] Hrole Hwf.
  destruct (update_irq_ok (upd s f p) s) as (p' & -> & Hc & Hsync & Hkeep).
  { by apply roles_upd. }
  exists p'. split; [done|].
  assert (forall t, s <> t -> core (box p' t) = core (box p t)) as Ho.
  { intros t Ht. by rewrite Hc, box_upd_other. }
  assert (core (box p' s) = core (f (box p s))) as Hme by by rewrite Hc, box_upd_same.
  split; [|by split]. split.
  - destruct (roles_upd p s f Hrole Hr) as (r & H1 & H2). exists r.
    pose proof (role_core _ _ (Hc IOP)) as E1. pose proof (role_core _ _ (Hc AP)) as E2.
    simpl in E1, E2. by rewrite E1, E2.
  - intros t. eapply box_wf_core; [symmetry; apply Hc|].
    destruct s, t; [exact (Hwf (Hw IOP))|exact (Hw AP)|exact (Hw IOP)|exact (Hwf (Hw AP))].
  - intros t.
    destruct s, t; [done|exact (Hkeep AP (Hs AP))|exact (Hkeep IOP (Hs IOP))|done].
Qed.

(** A change that the lines do not depend on. *)
Lemma inv_plain p s f : mailboxes_inv p -> (forall b, role (f b) = role b) ->
  (box_wf (box p s) -> box_wf (f (box p s))) ->
  (in_sync s (box p s) -> in_sync s (f (box p s))) -> mailboxes_inv (upd s f p).
Proof.
  intros [Hr Hw Hs] Hrole Hwf Hsync. split.
  - by apply roles_upd.
  - intros t.
    destruct s, t; [exact (Hwf (Hw IOP))|exact (Hw AP)|exact (Hw IOP)|exact (Hwf (Hw AP))].
  - intros t.
    destruct s, t; [exact (Hsync (Hs IOP))|exact (Hs AP)|exact (Hs IOP)|exact (Hsync (Hs AP))].
Qed.

Lemma u32_succ n : u32 (u32 n + 1) = u32 (n + 1).
Proof. unfold wrap. by rewrite Zplus_mod_idemp_l. Qed.
Lemma u32_pred n : u32 (u32 n - 1) = u32 (n - 1).
Proof. unfold wrap. by rewrite Zminus_mod_idemp_l. Qed.

Lemma wf_send b msg : length msg = 16%nat -> box_wf b ->
  box_wf (b <| inbox ::= fun l => l ++ [msg] |> <| count ::= fun n => u32 (n + 1) |>).
Proof.
  intros Hm [Hin Hcnt ???]. split; try done; simpl.
  - apply Forall_app. by split; [|apply Forall_singleton].
  - rewrite Hcnt, u32_succ. f_equal. unfold zlen. rewrite length_app. simpl. lia.
Qed.

Lemma wf_recv b msg rest : inbox b = msg :: rest -> box_wf b ->
  box_wf (b <| inbox := rest |> <| count ::= fun n => u32 (n - 1) |>).
Proof.
  intros Hi [Hin Hcnt ???]. rewrite Hi in *. split; try done; simpl.
  - by inversion Hin.
  - rewrite Hcnt, u32_pred. f_equal. unfold zlen. simpl. lia.
Qed.

Lemma inv_schedule p s : mailboxes_inv p ->
  mailboxes_inv (upd s (setf handle_messages_bh (fmap (fun _ => true))) p).
Proof. intros Hp. apply inv_plain; try done. by intros []. Qed.

(** ** A mailbox is a queue of messages *)

Lemma send_ok p s msg : mailboxes_inv p -> length msg = 16%nat ->
  exists p', apple_a7iop_mailbox_send p s msg = Done p' /\ mailboxes_inv p' /\
    inbox (box p' s) = inbox (box p s) ++ [msg] /\
    underflow (box p' s) = underflow (box p s) /\
    handle_messages_bh (box p' s) = fmap (fun _ => true) (handle_messages_bh (box p s)) /\
    (forall t, s <> t -> core (box p' t) = core (box p t)).
Proof.
  intros Hp Hm. unfold apple_a7iop_mailbox_send. cbv zeta.
  destruct (inv_update p s (fun b => b <| inbox ::= fun l => l ++ [msg] |>
    <| count ::= fun n => u32 (n + 1) |>) Hp) as (p' & -> & Hinv & Hc & Ho).
  { done. }
  { by apply wf_send. }
  cbn [mbind outcome_bind]. eexists. split; [reflexivity|]. split; [by apply inv_schedule|].
  rewrite box_upd_same.
  split; [|split; [|split]].
  - exact (f_equal inbox Hc).
  - exact (f_equal underflow Hc).
  - simpl. f_equal. exact (f_equal handle_messages_bh Hc).
  - intros t Ht. by rewrite box_upd_other, Ho.
Qed.

Lemma blit_count msg n : length msg = 16%nat ->
  blit msg 0xC (le_split 4 n) = Done (take 12 msg ++ le_split 4 n).
Proof.
  intros Hm. unfold blit, zlen. rewrite Hm, length_le_split.
  change ((0 <=? 0xC) && (0xC + Z.of_nat 4 <=? Z.of_nat 16)) with true. cbv match.
  rewrite (drop_ge msg) by (simpl; lia). by rewrite app_nil_r.
Qed.

(** What a receiver gets: the first 12 bytes of the message, and the number of
    messages that were waiting in the place of its last word. *)
Definition delivered (msg : AppleA7IOPMessage) (n : Z) : AppleA7IOPMessage :=
  take 12 msg ++ le_split 4 (CTRL_COUNT n).

Lemma recv_ok p s msg rest : mailboxes_inv p -> underflow (box p s) = false ->
  inbox (box p s) = msg :: rest ->
  exists p', apple_a7iop_mailbox_recv p s = Done (Some (delivered msg (count (box p s))), p') /\
    mailboxes_inv p' /\ inbox (box p' s) = rest /\ underflow (box p' s) = false /\
    (forall t, s <> t -> core (box p' t) = core (box p t)).
Proof.
  intros Hp Hu Hi. pose proof (inv_wf p Hp s) as Hwf.
  unfold apple_a7iop_mailbox_recv. cbv zeta. rewrite Hu, Hi.
  pose proof (wf_inbox _ Hwf) as Hl. rewrite Hi in Hl. inversion_clear Hl as [|? ? Hm _].
  rewrite (blit_count msg _ Hm). cbn [mbind outcome_bind].
  destruct (inv_update p s (fun b => b <| inbox := rest |> <| count ::= fun n => u32 (n - 1) |>)
    Hp) as (p' & -> & Hinv & Hc & Ho).
  { done. }
  { by apply (wf_recv _ msg). }
  cbn [mbind outcome_bind]. exists p'. split; [reflexivity|]. split; [done|].
  split; [exact (f_equal inbox Hc)|]. split; [|done].
  rewrite <- Hu. exact (f_equal underflow Hc).
Qed.

Lemma recv_empty p s : mailboxes_inv p -> underflow (box p s) = true \/ inbox (box p s) = [] ->
  exists p', apple_a7iop_mailbox_recv p s = Done (None, p') /\ mailboxes_inv p' /\
    underflow (box p' s) = true /\ inbox (box p' s) = inbox (box p s) /\
    (forall t, s <> t -> core (box p' t) = core (box p t)).
Proof.
  intros Hp Hor. unfold apple_a7iop_mailbox_recv. cbv zeta.
  destruct (underflow (box p s)) eqn:Hu; [by exists p|].
  destruct Hor as [|Hi]; [done|]. rewrite Hi.
  destruct (inv_update p s (setf underflow (fun _ => true)) Hp) as (p' & -> & Hinv & Hc & Ho).
  { done. }
  { by intros []. }
  cbn [mbind outcome_bind]. exists p'. split; [reflexivity|]. split; [done|].
  split; [exact (f_equal underflow Hc)|]. split; [|done].
  rewrite <- Hi. exact (f_equal inbox Hc).
Qed.

(** ** The choice of the pop *)

(** [best] is the entry that the loop prefers among the statuses [l]: an
    enabled one, in group 7 when there is one there, and the least of its group. *)
Definition is_preferred (b : AppleA7IOPMailbox) (l : list Z) (best : option (nat * Z)) : Prop :=
  match best with
  | None => forall st, In st l -> is_interrupt_enabled b st = false
  | Some (i, st) =>
      l !! i = Some st /\ is_interrupt_enabled b st = true /\
      forall st', In st' l -> is_interrupt_enabled b st' = true ->
        (status_group st' = status_group st -> st <= st') /\
        (status_group st' = 7 -> status_group st = 7)
  end.

Lemma pick_status_step b pre st best : is_preferred b pre best ->
  is_preferred b (pre ++ [st])
    (if is_interrupt_enabled b st then
       match best with
       | None => Some (length pre, st)
       | Some (_, preferred) =>
           if preferred_over st preferred then Some (length pre, st) else best
       end
     else best).
Proof.
  assert ((pre ++ [st]) !! length pre = Some st) as Hlast
    by (rewrite lookup_app_r, Nat.sub_diag by lia; done).
  assert (forall x, In x (pre ++ [st]) <-> In x pre \/ x = st) as Hin
    by (intros x; rewrite in_app_iff; simpl; intuition congruence).
  intros Hp. destruct (is_interrupt_enabled b st) eqn:En.
  - destruct best as [[i q]|]; simpl in Hp.
    + destruct Hp as (Hi & Hq & Hbest).
      assert ((pre ++ [st]) !! i = Some q) as Hi' by (by apply lookup_app_l_Some).
      unfold preferred_over.
      destruct (Z.eqb_spec (status_group st) (status_group q)) as [Hg|Hg]; simpl.
      * destruct (Z.ltb_spec st q); simpl; (split; [done|]); (split; [done|]);
          intros x [Hx| ->]%Hin Hxe; try (split; lia);
          destruct (Hbest x Hx Hxe); split; intros; try lia.
      * destruct (Z.eqb_spec (status_group st) 7); simpl; (split; [done|]); (split; [done|]);
          intros x [Hx| ->]%Hin Hxe; try (split; lia);
          destruct (Hbest x Hx Hxe); split; intros; try lia.
    + simpl. split; [done|]. split; [done|]. intros x [Hx| ->]%Hin Hxe; [|lia].
      rewrite Hp in Hxe by done. done.
  - destruct best as [[i q]|]; simpl in *.
    + destruct Hp as (Hi & Hq & Hbest).
      split; [by apply lookup_app_l_Some|]. split; [done|].
      intros x [Hx| ->]%Hin Hxe; [by apply Hbest|congruence].
    + intros x [Hx| ->]%Hin; auto.
Qed.

Lemma pick_status_ok b l : forall pre best, is_preferred b pre best ->
  is_preferred b (pre ++ l) (pick_status b l (length pre) best).
Proof.
  induction l as [|st l IH]; intros pre best Hp; simpl; [by rewrite app_nil_r|].
  rewrite (cons_middle st pre l), (assoc_L (++)).
  replace (S (length pre)) with (length (pre ++ [st])) by (rewrite length_app; simpl; lia).
  apply IH. by apply pick_status_step.
Qed.

Lemma pick_status_spec b l : is_preferred b l (pick_status b l 0 None).
Proof. apply (pick_status_ok b l [] None). by intros st []. Qed.

Lemma wf_delete_status b i : box_wf b -> box_wf (b <| interrupt_status ::= delete i |>).
Proof.
  intros []. split; try done. simpl. eapply sublist_NoDup; [done|apply sublist_delete].
Qed.

Lemma pop_ok p s : mailboxes_inv p ->
  exists st p', apple_a7iop_interrupt_status_pop p s = Done (st, p') /\ mailboxes_inv p' /\
    match pick_status (box p s) (interrupt_status (box p s)) 0 None with
    | Some (i, st') => st = st' /\
        interrupt_status (box p' s) = delete i (interrupt_status (box p s))
    | None => st = 0 /\ interrupt_status (box p' s) = interrupt_status (box p s)
    end.
Proof.
  intros Hp. unfold apple_a7iop_interrupt_status_pop. cbv zeta.
  destruct (pick_status _ _ _ _) as [[i st]|].
  - destruct (inv_update p s (setf interrupt_status (delete i)) Hp) as (p' & -> & Hi & Hc & _).
    { done. }
    { by apply wf_delete_status. }
    exists st, p'. split; [done|]. split; [done|]. split; [done|].
    exact (f_equal interrupt_status Hc).
  - destruct (inv_update p s (fun b => b) Hp) as (p' & Hu & Hi & Hc & _); [done..|].
    assert (upd s (fun b => b) p = p) as Hid by (destruct p, s; done).
    rewrite Hid in Hu. rewrite Hu. exists 0, p'. split; [done|]. split; [done|]. split; [done|].
    exact (f_equal interrupt_status Hc).
Qed.

Lemma wf_mask_status st b : box_wf b ->
  box_wf (mask_status st b) /\ role (mask_status st b) = role b.
Proof.
  intros Hwf. unfold mask_status. repeat case_match; (split; [|done]); destruct Hwf; split; try done.
  simpl. by rewrite length_alter.
Qed.

Lemma push_ok p s st : mailboxes_inv p ->
  exists p', apple_a7iop_interrupt_status_push p s st = Done p' /\ mailboxes_inv p'.
Proof.
  intros Hp. unfold apple_a7iop_interrupt_status_push.
  destruct (existsb _ _) eqn:E.
  - destruct (inv_update p s (fun b => b) Hp) as (p' & Hu & Hi & _); [done..|].
    assert (upd s (fun b => b) p = p) as Hid by (destruct p, s; done).
    rewrite Hid in Hu. eauto.
  - destruct (inv_update p s (setf interrupt_status (fun l => l ++ [st])) Hp)
      as (p' & -> & Hi & _); [done| |eauto].
    intros []. split; try done. simpl. apply NoDup_app. split; [done|].
    split; [|apply NoDup_singleton].
    intros x Hx ->%list_elem_of_singleton. apply not_true_iff_false in E. apply E.
    apply existsb_exists. exists st. split; [by apply list_elem_of_In|apply Z.eqb_refl].
Qed.

Lemma update_result_ok p s f (st : Z) : mailboxes_inv p -> (forall b, role (f b) = role b) ->
  (box_wf (box p s) -> box_wf (f (box p s))) ->
  exists st' p', (p ← apple_a7iop_mailbox_update_irq (upd s f p) s; mret (st, p)) = Done (st', p') /\
    mailboxes_inv p'.
Proof.
  intros Hp Hr Hw. destruct (inv_update p s f Hp Hr Hw) as (p' & -> & Hi & _). by exists st, p'.
Qed.

Lemma upd_if (c : bool) f s p :
  (if c then upd s f p else p) = upd s (if c then f else fun b => b) p.
Proof. destruct c; [done|]. by destruct s, p. Qed.

Lemma mask_status_role st b : role (mask_status st b) = role b.
Proof. unfold mask_status. by repeat case_match. Qed.

Lemma read_interrupt_status_ok p : mailboxes_inv p ->
  exists st p', apple_a7iop_mailbox_read_interrupt_status p IOP = Done (st, p') /\
    mailboxes_inv p'.
Proof.
  intros Hp. unfold apple_a7iop_mailbox_read_interrupt_status. cbv zeta.
  do 4 (case_match; [run; apply update_result_ok; [done|done|by intros []]|]).
  destruct (pop_ok p IOP Hp) as (st & p1 & -> & Hp1 & _).
  run. rewrite upd_if.
  apply update_result_ok; [done| |].
  - intros b. destruct (nonzero st); [apply mask_status_role|done].
  - intros Hw. destruct (nonzero st); [by apply wf_mask_status|done].
Qed.

Lemma inv_reset p s : roles_ok p -> (forall t, s <> t -> box_wf (box p t) /\ in_sync t (box p t)) ->
  mailboxes_inv (apple_a7iop_mailbox_reset p s).
Proof.
  intros Hr Ho. unfold apple_a7iop_mailbox_reset.
  match goal with |- context [upd s ?f p] => set (g := f) end.
  destruct (update_irq_status_ok (upd s g p) s) as (Hc & Hs & Hother).
  assert (roles_ok (upd s g p)) as (r & H1 & H2) by (apply roles_upd; done).
  split.
  - exists r. rewrite <- H1, <- H2. split; [apply (role_core _ _ (Hc IOP))|apply (role_core _ _ (Hc AP))].
  - intros t. eapply box_wf_core; [symmetry; apply Hc|].
    assert (forall b, box_wf (g b)) as Hg by (intros b; split; try done; apply NoDup_nil_2).
    destruct s, t; [apply Hg|exact (proj1 (Ho AP ltac:(done)))
      |exact (proj1 (Ho IOP ltac:(done)))|apply Hg].
  - intros t. destruct s, t; [done| | |done];
      (rewrite Hother by done; rewrite box_upd_other by done; by apply Ho).
Qed.

(** ** Registers *)

(** The accesses that the memory core lets through. *)
Definition access_ok (addr size : Z) : Prop :=
  (size = 4 \/ size = 8) /\ addr mod size = 0.

Lemma send_dir_ok p t (en : bool) msg : mailboxes_inv p -> length msg = 16%nat ->
  exists p', (if en then apple_a7iop_mailbox_send p t msg else mret p) = Done p' /\
    mailboxes_inv p'.
Proof.
  intros Hp Hm. destruct en; [|by exists p].
  destruct (send_ok p t msg Hp Hm) as (p' & -> & ? & _). eauto.
Qed.

Lemma recv_dir_ok p t (en : bool) : mailboxes_inv p ->
  exists m p', (if en then apple_a7iop_mailbox_recv p t else mret (None, p)) = Done (m, p') /\
    mailboxes_inv p' /\ length (default (zeros 16) m) = 16%nat.
Proof.
  intros Hp. destruct en; [|by exists None, p].
  destruct (underflow (box p t)) eqn:Hu.
  { destruct (recv_empty p t Hp) as (p' & -> & ? & _); [by left|]. by exists None, p'. }
  destruct (inbox (box p t)) as [|msg rest] eqn:Hi.
  { destruct (recv_empty p t Hp) as (p' & -> & ? & _); [by right|]. by exists None, p'. }
  destruct (recv_ok p t msg rest Hp Hu Hi) as (p' & -> & ? & _). eexists _, p'.
  split; [done|]. split; [done|]. cbn [default]. unfold delivered.
  pose proof (wf_inbox _ (inv_wf p Hp t)) as Hl. rewrite Hi in Hl.
  inversion_clear Hl as [|? ? Hm _].
  change (length (take 12 msg ++ le_split 4 (CTRL_COUNT (count (box p t)))) = 16%nat).
  rewrite length_app, length_take, length_le_split, Hm. done.
Qed.

(** The four buffers behind the message registers. *)
Definition set_reg (f : list Z -> list Z) (k : nat) (b : AppleA7IOPMailbox) : AppleA7IOPMailbox :=
  match k with
  | 0%nat => b <| iop_send_reg ::= f |>
  | 1%nat => b <| ap_send_reg ::= f |>
  | 2%nat => b <| iop_recv_reg ::= f |>
  | _ => b <| ap_recv_reg ::= f |>
  end.

Lemma inv_set_reg p s k r : mailboxes_inv p -> length r = 16%nat ->
  mailboxes_inv (upd s (set_reg (fun _ => r) k) p).
Proof.
  intros Hp Hr. apply inv_plain; [done|by destruct k as [|[|[|k]]]| |by destruct k as [|[|[|k]]]].
  intros [H1 H2 (H3 & H4 & H5 & H6) H7 H8]. destruct k as [|[|[|k]]]; by split.
Qed.

Lemma blit_reg (reg : list Z) off data size : length reg = 16%nat -> 0 <= off -> 0 <= size ->
  off + size <= 16 ->
  exists reg', blit reg off (le_split (Z.to_nat size) data) = Done reg' /\ length reg' = 16%nat.
Proof.
  intros Hl ???. destruct (blit_in_range reg (le_split (Z.to_nat size) data) off)
    as (reg' & -> & Hl' & _); [done|unfold zlen; rewrite length_le_split, Hl; lia|].
  exists reg'. by rewrite Hl'.
Qed.

Lemma write_send_ok p s off data size c : mailboxes_inv p -> 0 <= off -> 0 <= size ->
  off + size <= 16 ->
  (exists p', write_iop_send p s off data size c = Done p' /\ mailboxes_inv p') /\
  (exists p', write_ap_send p s off data size c = Done p' /\ mailboxes_inv p').
Proof.
  intros Hp ???. pose proof (wf_regs _ (inv_wf p Hp s)) as (_ & _ & Hi & Ha).
  split; unfold write_iop_send, write_ap_send.
  - destruct (blit_reg (iop_send_reg (box p s)) off data size Hi) as (reg & -> & Hl); [done..|].
    run. cbv zeta. pose proof (inv_set_reg p s 0 reg Hp Hl) as Hp'.
    change (set_reg (fun _ => reg) 0) with (setf iop_send_reg (fun _ => reg)) in Hp'.
    destruct c; [by apply send_dir_ok|eauto].
  - destruct (blit_reg (ap_send_reg (box p s)) off data size Ha) as (reg & -> & Hl); [done..|].
    run. cbv zeta. pose proof (inv_set_reg p s 1 reg Hp Hl) as Hp'.
    change (set_reg (fun _ => reg) 1) with (setf ap_send_reg (fun _ => reg)) in Hp'.
    destruct c; [by apply send_dir_ok|eauto].
Qed.

Lemma load_recv_ok p s : mailboxes_inv p ->
  (exists p', load_iop_recv p s = Done p' /\ mailboxes_inv p') /\
  (exists p', load_ap_recv p s = Done p' /\ mailboxes_inv p').
Proof.
  intros Hp. split; unfold load_iop_recv, load_ap_recv,
    apple_a7iop_mailbox_recv_iop, apple_a7iop_mailbox_recv_ap.
  - destruct (recv_dir_ok p IOP (iop_dir_en (box p s)) Hp) as (m & p' & -> & Hp' & Hl).
    run. eexists. split; [done|]. apply (inv_set_reg p' s 2 _ Hp' Hl).
  - destruct (recv_dir_ok p AP (ap_dir_en (box p s)) Hp) as (m & p' & -> & Hp' & Hl).
    run. eexists. split; [done|]. apply (inv_set_reg p' s 3 _ Hp' Hl).
Qed.

Lemma read_reg_ok reg off size : length reg = 16%nat -> 0 <= off -> 0 <= size -> off + size <= 16 ->
  exists v, read_reg reg off size = Done v.
Proof.
  intros Hl ???. unfold read_reg. rewrite slice_in_range; [|done..|unfold zlen; lia].
  by eexists.
Qed.

Lemma set_mask_ok p s f : mailboxes_inv p ->
  exists p', apple_a7iop_mailbox_update_irq (upd s (setf int_mask f) p) s = Done p' /\
    mailboxes_inv p'.
Proof.
  intros Hp. destruct (inv_update p s (setf int_mask f) Hp) as (p' & -> & ? & _); [done| |eauto].
  by intros [].
Qed.

Lemma set_ctrl_ok p s f : mailboxes_inv p ->
  mailboxes_inv (upd s (setf iop_dir_en f) p) /\ mailboxes_inv (upd s (setf ap_dir_en f) p).
Proof. intros Hp. split; apply inv_plain; try done; by intros []. Qed.

Lemma write_groups_ok p s a o data size c : mailboxes_inv p -> access_ok a size ->
  0 <= o -> o <= 12 -> (size = 8 -> o <= 8) ->
  (exists p', write_iop_send p s o data size c = Done p' /\ mailboxes_inv p') /\
  (exists p', write_ap_send p s o data size c = Done p' /\ mailboxes_inv p').
Proof. intros Hp [Hs _] ???. apply write_send_ok; [done|lia..]. Qed.

Lemma read_iop_ok p s (load : bool) o size : mailboxes_inv p -> 0 <= o -> 0 <= size -> o + size <= 16 ->
  exists v p', (p ← (if load then load_iop_recv p s else mret p);
    v ← read_reg (iop_recv_reg (box p s)) o size; mret (v, p)) = Done (v, p') /\ mailboxes_inv p'.
Proof.
  intros Hp ???.
  assert (exists p', (if load then load_iop_recv p s else mret p) = Done p' /\ mailboxes_inv p')
    as (p' & -> & Hp') by (destruct load; [by apply load_recv_ok|eauto]).
  run. destruct (read_reg_ok (iop_recv_reg (box p' s)) o size) as [v ->]; [|done..|].
  { apply (wf_regs _ (inv_wf p' Hp' s)). }
  run. by exists v, p'.
Qed.

Lemma read_ap_ok p s (load : bool) o size : mailboxes_inv p -> 0 <= o -> 0 <= size -> o + size <= 16 ->
  exists v p', (p ← (if load then load_ap_recv p s else mret p);
    v ← read_reg (ap_recv_reg (box p s)) o size; mret (v, p)) = Done (v, p') /\ mailboxes_inv p'.
Proof.
  intros Hp ???.
  assert (exists p', (if load then load_ap_recv p s else mret p) = Done p' /\ mailboxes_inv p')
    as (p' & -> & Hp') by (destruct load; [by apply load_recv_ok|eauto]).
  run. destruct (read_reg_ok (ap_recv_reg (box p' s)) o size) as [v ->]; [|done..|].
  { apply (wf_regs _ (inv_wf p' Hp' s)). }
  run. by exists v, p'.
Qed.

Lemma v2_write_ok p s addr data size : mailboxes_inv p -> access_ok addr size ->
  exists p', V2.apple_a7iop_v2_mailbox_reg_write p s addr data size = Done p' /\ mailboxes_inv p'.
Proof.
  intros Hp Ha. pose proof Ha as [Hsz Hal]. unfold V2.apple_a7iop_v2_mailbox_reg_write.
  do 2 (case_match; [by apply set_mask_ok|]).
  do 2 (case_match; [eexists; split; [done|]; by apply set_ctrl_ok|]).
  destruct ((addr =? V2.REG_IOP_SEND0) || (addr =? V2.REG_IOP_SEND1)) eqn:E1.
  { apply orb_prop in E1 as [->%Z.eqb_eq| ->%Z.eqb_eq];
      eapply write_groups_ok; try done; unfold V2.REG_IOP_SEND0, V2.REG_IOP_SEND1; lia. }
  destruct ((addr =? V2.REG_AP_SEND0) || (addr =? V2.REG_AP_SEND1)) eqn:E2; [|eauto].
  apply orb_prop in E2 as [->%Z.eqb_eq| ->%Z.eqb_eq];
    eapply write_groups_ok; try done; unfold V2.REG_AP_SEND0, V2.REG_AP_SEND1; lia.
Qed.

Lemma v2_read_ok p s addr size : mailboxes_inv p -> access_ok addr size ->
  exists v p', V2.apple_a7iop_v2_mailbox_reg_read p s addr size = Done (v, p') /\ mailboxes_inv p'.
Proof.
  intros Hp [Hsz Hal]. unfold V2.apple_a7iop_v2_mailbox_reg_read.
  do 3 (case_match; [by eauto|]).
  destruct ((addr =? V2.REG_IOP_RECV0) || (addr =? V2.REG_IOP_RECV1)) eqn:E1.
  { apply orb_prop in E1 as [->%Z.eqb_eq| ->%Z.eqb_eq]; apply read_iop_ok; try done;
      unfold V2.REG_IOP_RECV0, V2.REG_IOP_RECV1; lia. }
  destruct ((addr =? V2.REG_AP_RECV0) || (addr =? V2.REG_AP_RECV1)) eqn:E2; [|by eauto].
  apply orb_prop in E2 as [->%Z.eqb_eq| ->%Z.eqb_eq]; apply read_ap_ok; try done;
    unfold V2.REG_AP_RECV0, V2.REG_AP_RECV1; lia.
Qed.

Lemma in_group_inv reg addr : V4.in_group reg addr = true ->
  addr = reg 0 \/ addr = reg 1 \/ addr = reg 2 \/ addr = reg 3.
Proof. unfold V4.in_group. rewrite !orb_true_iff, !Z.eqb_eq. tauto. Qed.

(** The offset of a register in its group, and that an aligned access stays inside. *)
Lemma group_offset reg base addr size : (forall n, reg n = base + 4 * n) -> base mod 16 = 0 ->
  V4.in_group reg addr = true -> access_ok addr size ->
  0 <= addr - reg 0 /\ addr - reg 0 <= 12 /\ (size = 8 -> addr - reg 0 <= 8) /\
  addr - reg 0 + size <= 16 /\ 0 <= size.
Proof.
  intros Hreg Hb Hg%in_group_inv [Hs Ha]. rewrite !Hreg in Hg. rewrite Hreg.
  assert (size = 8 -> addr <> base + 12).
  { intros -> ->. pose proof (Z.div_mod base 16 ltac:(lia)) as Hd. rewrite Hb in Hd.
    replace (base + 12) with (4 + (2 * (base / 16) + 1) * 8) in Ha by lia.
    rewrite Z.mod_add in Ha by lia. done. }
  lia.
Qed.

Lemma v4_write_ok p s addr data size : mailboxes_inv p -> access_ok addr size ->
  exists p', V4.apple_a7iop_v4_mailbox_reg_write p s addr data size = Done p' /\ mailboxes_inv p'.
Proof.
  intros Hp Ha. unfold V4.apple_a7iop_v4_mailbox_reg_write.
  do 2 (case_match; [by apply set_mask_ok|]).
  do 2 (case_match; [eexists; split; [done|]; by apply set_ctrl_ok|]).
  destruct (V4.in_group V4.REG_IOP_SEND addr) eqn:E1.
  { destruct (group_offset V4.REG_IOP_SEND 0x700 addr size) as (?&?&?&?&?); [done..|].
    by eapply write_groups_ok. }
  destruct (V4.in_group V4.REG_AP_SEND addr) eqn:E2; [|eauto].
  destruct (group_offset V4.REG_AP_SEND 0x720 addr size) as (?&?&?&?&?); [done..|].
  by eapply write_groups_ok.
Qed.

Lemma v4_read_ok p s addr size : mailboxes_inv p -> access_ok addr size ->
  exists v p', V4.apple_a7iop_v4_mailbox_reg_read p s addr size = Done (v, p') /\ mailboxes_inv p'.
Proof.
  intros Hp Ha. unfold V4.apple_a7iop_v4_mailbox_reg_read.
  do 3 (case_match; [by eauto|]).
  destruct (V4.in_group V4.REG_IOP_RECV addr) eqn:E1.
  { destruct (group_offset V4.REG_IOP_RECV 0x710 addr size) as (?&?&?&?&?); [done..|].
    by apply read_iop_ok. }
  destruct (V4.in_group V4.REG_AP_RECV addr) eqn:E2; [|by eauto].
  destruct (group_offset V4.REG_AP_RECV 0x730 addr size) as (?&?&?&?&?); [done..|].
  by apply read_ap_ok.
Qed.

(** ** The pair of mailboxes as a state machine *)

Inductive mbox_event :=
| MSendIop (s : side) (msg : AppleA7IOPMessage)
| MSendAp (s : side) (msg : AppleA7IOPMessage)
| MRecvIop (s : side)
| MRecvAp (s : side)
| MPushStatus (s : side) (status : Z)
| MReadStatus
| MTimer0 (level : Z)
| MTimer1 (level : Z)
| MReset (s : side)
| MWriteV2 (s : side) (addr data size : Z)
| MReadV2 (s : side) (addr size : Z)
| MWriteV4 (s : side) (addr data size : Z)
| MReadV4 (s : side) (addr size : Z).

Definition mbox_step (p : mailboxes) (e : mbox_event) : outcome mailboxes :=
  match e with
  | MSendIop s msg => apple_a7iop_mailbox_send_iop p s msg
  | MSendAp s msg => apple_a7iop_mailbox_send_ap p s msg
  | MRecvIop s => snd <$> apple_a7iop_mailbox_recv_iop p s
  | MRecvAp s => snd <$> apple_a7iop_mailbox_recv_ap p s
  | MPushStatus s status => apple_a7iop_interrupt_status_push p s status
  | MReadStatus => snd <$> apple_a7iop_mailbox_read_interrupt_status p IOP
  | MTimer0 level => apple_a7iop_gpio_timer0 p IOP 0 level
  | MTimer1 level => apple_a7iop_gpio_timer1 p IOP 0 level
  | MReset s => Done (apple_a7iop_mailbox_reset p s)
  | MWriteV2 s addr data size => V2.apple_a7iop_v2_mailbox_reg_write p s addr data size
  | MReadV2 s addr size => snd <$> V2.apple_a7iop_v2_mailbox_reg_read p s addr size
  | MWriteV4 s addr data size => V4.apple_a7iop_v4_mailbox_reg_write p s addr data size
  | MReadV4 s addr size => snd <$> V4.apple_a7iop_v4_mailbox_reg_read p s addr size
  end.

Definition mbox_event_ok (e : mbox_event) : Prop :=
  match e with
  | MSendIop _ msg | MSendAp _ msg => length msg = 16%nat
  | MWriteV2 _ addr _ size | MReadV2 _ addr size
  | MWriteV4 _ addr _ size | MReadV4 _ addr size => access_ok addr size
  | _ => True
  end.

(** The state after [apple_a7iop_init] and the reset of both mailboxes. *)
Definition mbox_init (r : string) (bh : option bool) : mailboxes :=
  apple_a7iop_mailbox_reset
    (apple_a7iop_mailbox_reset
       (mkMailboxes (apple_a7iop_mailbox_new (r ++ "-iop") bh)
                    (apple_a7iop_mailbox_new (r ++ "-ap") None)) IOP) AP.

Lemma mbox_init_inv r bh : mailboxes_inv (mbox_init r bh).
Proof.
  apply inv_reset; [by exists r|]. intros [] Hne; [|done].
  split; [|repeat split]. split; try done; apply NoDup_nil_2.
Qed.

Lemma fmap_snd_ok {A} (m : outcome (A * mailboxes)) :
  (exists v p', m = Done (v, p') /\ mailboxes_inv p') ->
  exists p', snd <$> m = Done p' /\ mailboxes_inv p'.
Proof. intros (v & p' & -> & Hp'). by exists p'. Qed.

Lemma mbox_step_ok p e : mailboxes_inv p -> mbox_event_ok e ->
  exists p', mbox_step p e = Done p' /\ mailboxes_inv p'.
Proof.
  intros Hp He. destruct e; cbn [mbox_step mbox_event_ok] in *.
  - by apply send_dir_ok.
  - by apply send_dir_ok.
  - apply fmap_snd_ok. destruct (recv_dir_ok p IOP (iop_dir_en (box p s)) Hp) as (m & p' & ? & ? & _).
    eauto.
  - apply fmap_snd_ok. destruct (recv_dir_ok p AP (ap_dir_en (box p s)) Hp) as (m & p' & ? & ? & _).
    eauto.
  - by apply push_ok.
  - apply fmap_snd_ok. by apply read_interrupt_status_ok.
  - unfold apple_a7iop_gpio_timer0. cbn [c_assert Z.eqb]. run.
    destruct (level =? 0); [eauto|by apply push_ok].
  - unfold apple_a7iop_gpio_timer1. cbn [c_assert Z.eqb]. run.
    destruct (level =? 0); [eauto|by apply push_ok].
  - eexists. split; [done|]. apply inv_reset; [apply (inv_roles p Hp)|].
    intros t _. split; [apply (inv_wf p Hp)|apply (inv_sync p Hp)].
  - by apply v2_write_ok.
  - apply fmap_snd_ok. by apply v2_read_ok.
  - by apply v4_write_ok.
  - apply fmap_snd_ok. by apply v4_read_ok.
Qed.

(** C9: after any sequence of sends, receives, register accesses, timer pulses
    and resets the mailboxes are consistent, and none of these stops the
    process or leaves a buffer: each count is the number of waiting messages,
    the interrupt statuses are distinct, and the "not empty" and "empty" lines
    of each mailbox agree with its inbox, its mask and its underflow flag. *)
Theorem mailbox_invariant r bh es : Forall mbox_event_ok es ->
  exists p, foldl (fun m e => p ← m; mbox_step p e) (Done (mbox_init r bh)) es = Done p /\
    mailboxes_inv p.
Proof.
  assert (forall es p, mailboxes_inv p -> Forall mbox_event_ok es ->
    exists p', foldl (fun m e => p ← m; mbox_step p e) (Done p) es = Done p' /\
      mailboxes_inv p') as H; [|apply H, mbox_init_inv].
  clear. induction es as [|e es IH]; intros p Hp Hes; [by exists p|].
  inversion_clear Hes as [|? ? He Hes'].
  destruct (mbox_step_ok p e Hp He) as (p1 & Hstep & Hp1).
  cbn [foldl]. rewrite bind_Done, Hstep. by apply IH.
Qed.

Lemma mailbox_invariant_witness : exists p,
  foldl (fun m e => p ← m; mbox_step p e) (Done (mbox_init "SEP" None))
    [MWriteV4 AP 0x700 1 8; MWriteV4 AP 0x708 2 8; MReadV4 IOP 0x710 8; MRecvIop AP] = Done p /\
  mailboxes_inv p.
Proof.
  apply (mailbox_invariant "SEP" None).
  repeat constructor; cbn; auto; done.
Defined.

(** ** Delivery *)

Fixpoint send_all (p : mailboxes) (s : side) (msgs : list AppleA7IOPMessage) : outcome mailboxes :=
  match msgs with
  | [] => mret p
  | msg :: msgs' => p ← apple_a7iop_mailbox_send p s msg; send_all p s msgs'
  end.

Fixpoint recv_all (p : mailboxes) (s : side) (n : nat)
    : outcome (list (option AppleA7IOPMessage) * mailboxes) :=
  match n with
  | O => mret ([], p)
  | S n' =>
      r ← apple_a7iop_mailbox_recv p s;
      rs ← recv_all (snd r) s n';
      mret (fst r :: fst rs, snd rs)
  end.

Fixpoint deliveries (msgs : list AppleA7IOPMessage) : list (option AppleA7IOPMessage) :=
  match msgs with
  | [] => []
  | msg :: msgs' => Some (delivered msg (zlen msgs)) :: deliveries msgs'
  end.

Lemma send_all_ok s msgs : forall p, mailboxes_inv p -> Forall (fun m => length m = 16%nat) msgs ->
  exists p', send_all p s msgs = Done p' /\ mailboxes_inv p' /\
    inbox (box p' s) = inbox (box p s) ++ msgs /\ underflow (box p' s) = underflow (box p s).
Proof.
  induction msgs as [|m msgs IH]; intros p Hp Hm; cbn [send_all].
  { exists p. by rewrite app_nil_r. }
  inversion_clear Hm as [|? ? H1 H2].
  destruct (send_ok p s m Hp H1) as (p1 & -> & Hp1 & Hi & Hu & _). run.
  destruct (IH p1 Hp1 H2) as (p2 & -> & Hp2 & Hi2 & Hu2). exists p2.
  split; [done|]. split; [done|]. rewrite Hi2, Hi, Hu2, Hu, <- (assoc_L (++)). done.
Qed.

Lemma recv_all_ok s msgs : forall p, mailboxes_inv p -> underflow (box p s) = false ->
  inbox (box p s) = msgs -> zlen msgs < 2 ^ 32 ->
  exists p', recv_all p s (length msgs) = Done (deliveries msgs, p') /\ mailboxes_inv p' /\
    inbox (box p' s) = [] /\ underflow (box p' s) = false.
Proof.
  induction msgs as [|m msgs IH]; intros p Hp Hu Hi Hlt.
  { exists p. done. }
  cbn [recv_all length deliveries].
  destruct (recv_ok p s m msgs Hp Hu Hi) as (p1 & -> & Hp1 & Hi1 & Hu1 & _). run.
  rewrite (wf_count _ (inv_wf p Hp s)), Hi, wrap_small
    by (unfold in_width, zlen in *; lia).
  destruct (IH p1 Hp1 Hu1 Hi1) as (p2 & Hrec & Hp2 & Hi2 & Hu2).
  { unfold zlen in *. simpl in Hlt. lia. }
  cbn [fst snd]. rewrite Hrec. run. exists p2. split; [done|]. done.
Qed.

(** C12: a mailbox delivers every message once and in the order of sending: what
    is sent to an empty mailbox is received as the same sequence, each message
    with its first 12 bytes intact and the number of messages that were waiting
    in its last word, and the mailbox is empty again. *)
Theorem mailbox_fifo p s msgs : mailboxes_inv p -> inbox (box p s) = [] ->
  underflow (box p s) = false -> Forall (fun m => length m = 16%nat) msgs ->
  zlen msgs < 2 ^ 32 ->
  exists p1 p2, send_all p s msgs = Done p1 /\
    recv_all p1 s (length msgs) = Done (deliveries msgs, p2) /\
    mailboxes_inv p2 /\ inbox (box p2 s) = [].
Proof.
  intros Hp Hi Hu Hm Hlt.
  destruct (send_all_ok s msgs p Hp Hm) as (p1 & -> & Hp1 & Hi1 & Hu1).
  rewrite Hi in Hi1. rewrite Hu in Hu1.
  destruct (recv_all_ok s msgs p1 Hp1 Hu1 Hi1 Hlt) as (p2 & Hr & Hp2 & Hi2 & _).
  by exists p1, p2.
Qed.

Lemma mailbox_fifo_witness : exists p1 p2,
  send_all (mbox_init "SMC" (Some false)) IOP [replicate 16 1; replicate 16 2] = Done p1 /\
  recv_all p1 IOP 2 = Done (deliveries [replicate 16 1; replicate 16 2], p2).
Proof.
  destruct (mailbox_fifo (mbox_init "SMC" (Some false)) IOP [replicate 16 1; replicate 16 2])
    as (p1 & p2 & H1 & H2 & _); [apply mbox_init_inv|reflexivity|reflexivity| | |].
  - repeat constructor.
  - vm_compute. reflexivity.
  - exists p1, p2. split; [exact H1|exact H2].
Defined.

(** reading the interrupt status takes the right entry: the pop returns an
    enabled status of the queue, one of the timers (group 7) when one of them is
    enabled, and the least of its group; it removes this entry only, and
    returns 0 exactly when no entry is enabled. *)
Theorem interrupt_status_pop_spec p s : mailboxes_inv p ->
  exists st p', apple_a7iop_interrupt_status_pop p s = Done (st, p') /\ mailboxes_inv p' /\
    exists best, is_preferred (box p s) (interrupt_status (box p s)) best /\
      match best with
      | Some (i, st') => st = st' /\
          interrupt_status (box p' s) = delete i (interrupt_status (box p s))
      | None => st = 0 /\ interrupt_status (box p' s) = interrupt_status (box p s)
      end.
Proof.
  intros Hp. destruct (pop_ok p s Hp) as (st & p' & H & Hp' & Hm). exists st, p'.
  split; [done|]. split; [done|]. eexists. split; [apply pick_status_spec|exact Hm].
Qed.

Lemma interrupt_status_pop_spec_witness : exists st p',
  apple_a7iop_interrupt_status_pop (mbox_init "SEP" None) IOP = Done (st, p') /\ st = 0.
Proof.
  destruct (interrupt_status_pop_spec (mbox_init "SEP" None) IOP (mbox_init_inv _ _))
    as (st & p' & H & _). exists st, p'. split; [exact H|].
  vm_compute in H. by injection H as <- _.
Defined.

(** With 16 messages waiting the control register shows 15, the greatest
    count it can show, but the message that is received next carries the
    count 0. *)
Theorem mailbox_count_overflow b p msg rest : mailboxes_inv p -> b = box p IOP ->
  inbox b = msg :: rest -> zlen (inbox b) = 16 -> underflow b = false ->
  apple_a7iop_mailbox_ctrl b .& CTRL_COUNT_MASK = CTRL_COUNT 15 /\
  exists p', apple_a7iop_mailbox_recv p IOP = Done (Some (take 12 msg ++ [0; 0; 0; 0]), p').
Proof.
  intros Hp -> Hi Hl Hu. pose proof (wf_count _ (inv_wf p Hp IOP)) as Hc.
  rewrite Hl in Hc. change (u32 16) with 16 in Hc. split.
  - unfold apple_a7iop_mailbox_ctrl. rewrite Hu, Hc. unfold inbox_empty. by rewrite Hi.
  - destruct (recv_ok p IOP msg rest Hp Hu Hi) as (p' & -> & _). exists p'. by rewrite Hc.
Qed.

Lemma mailbox_count_overflow_witness : exists p p',
  send_all (mbox_init "SMC" None) IOP (replicate 16 (replicate 16 7)) = Done p /\
  apple_a7iop_mailbox_recv p IOP = Done (Some (replicate 12 7 ++ [0; 0; 0; 0]), p').
Proof.
  destruct (send_all_ok IOP (replicate 16 (replicate 16 7)) (mbox_init "SMC" None)
    (mbox_init_inv _ _)) as (p & H & Hp & Hi & Hu); [by apply Forall_replicate|].
  destruct (mailbox_count_overflow (box p IOP) p (replicate 16 7)
    (replicate 15 (replicate 16 7)) Hp eq_refl Hi) as (_ & p' & Hr).
  - rewrite Hi. reflexivity.
  - rewrite Hu. reflexivity.
  - exists p, p'. split; [exact H|exact Hr].
Defined.
