(* ===== verification/A7iop.v ===== *)
(** * A7IOP co-processors

    Model of [hw/misc/apple-silicon/a7iop/core.c] and of its register layouts
    [regs-v2.c] and [regs-v4.c].  The device that embeds the co-processor (for
    instance RTKit) is the type [T]; [lens] reaches the [AppleA7IOP] inside it,
    as [container_of] does in the source, and [AppleA7IOPOps] holds the
    callbacks of the embedding device. *)

From S2P Require Import Prelude Mailbox.

Definition CPU_STATUS_IDLE : Z := 0x1.
Definition CPU_CTRL_RUN : Z := BIT 4.
Definition SEP_BOOT_MONITOR_RUN : Z := BIT 16.

Record AppleA7IOP := mkA7IOP {
  mboxes : mailboxes;
  cpu_status : Z;
  cpu_ctrl : Z;
}.
#[global] Instance eta_AppleA7IOP : Eta AppleA7IOP := fun r =>
  mkA7IOP (mboxes r) (cpu_status r) (cpu_ctrl r).

Record AppleA7IOPOps (T : Type) := mkOps {
  start : option (T -> outcome T);
  wakeup : option (T -> outcome T);
}.
Arguments mkOps {T} start wakeup.
Arguments start {T} _.
Arguments wakeup {T} _.

(** How the co-processor sits inside the device [T]. *)
Class HasA7IOP (T : Type) := {
  a7iop : T -> AppleA7IOP;
  set_a7iop : T -> AppleA7IOP -> T;
  get_set_a7iop : forall t a, a7iop (set_a7iop t a) = a;
}.

Section Device.
Context {T : Type} `{HasA7IOP T}.
Variable ops : option (AppleA7IOPOps T).

Definition on_boxes (s : T) (f : mailboxes -> outcome mailboxes) : outcome T :=
  p ← f (mboxes (a7iop s));
  mret (set_a7iop s (a7iop s <| mboxes := p |>)).

Definition apple_a7iop_send_ap (s : T) (msg : AppleA7IOPMessage) : outcome T :=
  on_boxes s (fun p => apple_a7iop_mailbox_send_ap p IOP msg).

Definition apple_a7iop_send_iop (s : T) (msg : AppleA7IOPMessage) : outcome T :=
  on_boxes s (fun p => apple_a7iop_mailbox_send_iop p AP msg).

Definition apple_a7iop_recv_ap (s : T) : outcome (option AppleA7IOPMessage * T) :=
  r ← apple_a7iop_mailbox_recv_ap (mboxes (a7iop s)) IOP;
  mret (fst r, set_a7iop s (a7iop s <| mboxes := snd r |>)).

Definition apple_a7iop_recv_iop (s : T) : outcome (option AppleA7IOPMessage * T) :=
  r ← apple_a7iop_mailbox_recv_iop (mboxes (a7iop s)) AP;
  mret (fst r, set_a7iop s (a7iop s <| mboxes := snd r |>)).

Definition apple_a7iop_get_cpu_status (s : T) : Z := cpu_status (a7iop s).
Definition apple_a7iop_get_cpu_ctrl (s : T) : Z := cpu_ctrl (a7iop s).

Definition apple_a7iop_set_cpu_status (s : T) (value : Z) : T :=
  set_a7iop s (a7iop s <| cpu_status := value |>).

(** An absent callback does nothing. *)
Definition call_op (op : option (T -> outcome T)) (s : T) : outcome T :=
  match op with Some f => f s | None => mret s end.

Definition apple_a7iop_cpu_start (s : T) (wake : bool) : outcome T :=
  if (apple_a7iop_get_cpu_ctrl s .& SEP_BOOT_MONITOR_RUN =? 0) &&
     (apple_a7iop_get_cpu_status s .& CPU_STATUS_IDLE =? 0)
  then mret s
  else
    let s := apple_a7iop_set_cpu_status s (apple_a7iop_get_cpu_status s .&~ CPU_STATUS_IDLE) in
    match ops with
    | None => mret s
    | Some o => if wake then call_op (wakeup o) s else call_op (start o) s
    end.

Definition apple_a7iop_set_cpu_ctrl (s : T) (value : Z) : outcome T :=
  let s := set_a7iop s (a7iop s <| cpu_ctrl := value |>) in
  if nonzero (value .& (CPU_CTRL_RUN .| SEP_BOOT_MONITOR_RUN)) then
    apple_a7iop_cpu_start s false
  else mret s.

Definition apple_a7iop_reset (s : T) : T :=
  set_a7iop s (a7iop s <| cpu_status := CPU_STATUS_IDLE |>).

(** ** Registers *)

Definition REG_CPU_CTRL : Z := 0x44.
Definition REG_CPU_STATUS : Z := 0x48.
Definition REG_UNKNOWN_4C : Z := 0x4C.
Definition REG_KIC_GLB_CFG : Z := 0x80C.
Definition REG_INTERRUPT_STATUS : Z := 0x81C.
Definition REG_SEP_AKF_DISABLE_INTERRUPT_BASE : Z := 0xA00.
Definition REG_SEP_AKF_ENABLE_INTERRUPT_BASE : Z := 0xA80.
Definition REG_KIC_TMR0_EN : Z := 0xC00.
Definition REG_KIC_TMR1_EN : Z := 0xC04.
Definition REG_KIC_TMR0_INT_MASK_SET : Z := 0xC10.
Definition REG_KIC_TMR1_INT_MASK_SET : Z := 0xC14.
Definition REG_KIC_TMR0_INT_MASK_CLR : Z := 0xC18.
Definition REG_KIC_TMR1_INT_MASK_CLR : Z := 0xC1C.

Definition apple_a7iop_v2_reg_write (s : T) (addr data : Z) : outcome T :=
  if addr =? REG_CPU_CTRL then apple_a7iop_set_cpu_ctrl s (u32 data)
  else if addr =? REG_CPU_STATUS then mret (apple_a7iop_set_cpu_status s (u32 data))
  else mret s.

Definition apple_a7iop_v2_reg_read (s : T) (addr : Z) : Z :=
  if addr =? REG_CPU_CTRL then apple_a7iop_get_cpu_ctrl s
  else if addr =? REG_CPU_STATUS then apple_a7iop_get_cpu_status s
  else 0.

(** A change of the co-processor's mailbox and the update of its lines. *)
Definition upd_iop (s : T) (f : AppleA7IOPMailbox -> AppleA7IOPMailbox) : outcome T :=
  on_boxes s (fun p => apple_a7iop_mailbox_update_irq (upd IOP f p) IOP).

(** The four groups of the AKF registers at [base]. *)
Definition akf_group (base addr : Z) : bool :=
  (addr =? base) || (addr =? base + 0x04) || (addr =? base + 0x08) || (addr =? base + 0x0C).

Definition upd_enabled (s : T) (i : Z) (f : Z -> Z) : outcome T :=
  l ← aupd (interrupts_enabled (iop_mailbox (mboxes (a7iop s)))) i f;
  upd_iop s (setf interrupts_enabled (fun _ => l)).

Definition apple_a7iop_v4_reg_write (s : T) (addr data : Z) : outcome T :=
  if addr =? REG_CPU_CTRL then apple_a7iop_set_cpu_ctrl s (u32 data)
  else if akf_group REG_SEP_AKF_DISABLE_INTERRUPT_BASE addr then
    upd_enabled s ((addr - REG_SEP_AKF_DISABLE_INTERRUPT_BASE) .>> 2) (fun w => u32 (w .&~ data))
  else if akf_group REG_SEP_AKF_ENABLE_INTERRUPT_BASE addr then
    upd_enabled s ((addr - REG_SEP_AKF_ENABLE_INTERRUPT_BASE) .>> 2) (fun w => u32 (w .| data))
  else if addr =? REG_KIC_GLB_CFG then upd_iop s (setf glb_cfg (fun _ => u32 data))
  else if addr =? REG_KIC_TMR0_EN then upd_iop s (setf timer0_enabled (fun _ => u32 data))
  else if addr =? REG_KIC_TMR1_EN then upd_iop s (setf timer1_enabled (fun _ => u32 data))
  else if addr =? REG_KIC_TMR0_INT_MASK_SET then
    upd_iop s (setf timer0_masked (fun w => u32 (w .| data)))
  else if addr =? REG_KIC_TMR0_INT_MASK_CLR then
    upd_iop s (setf timer0_masked (fun w => u32 (w .&~ data)))
  else if addr =? REG_KIC_TMR1_INT_MASK_SET then
    upd_iop s (setf timer1_masked (fun w => u32 (w .| data)))
  else if addr =? REG_KIC_TMR1_INT_MASK_CLR then
    upd_iop s (setf timer1_masked (fun w => u32 (w .&~ data)))
  else mret s.

(** [~] of the 32-bit word. *)
Definition not32 (w : Z) : Z := u32 (Z.lnot w).

Definition apple_a7iop_v4_reg_read (s : T) (addr : Z) : outcome (Z * T) :=
  let b := iop_mailbox (mboxes (a7iop s)) in
  if addr =? REG_CPU_CTRL then mret (apple_a7iop_get_cpu_ctrl s, s)
  else if addr =? REG_CPU_STATUS then mret (apple_a7iop_get_cpu_status s, s)
  else if addr =? REG_UNKNOWN_4C then mret (1, s)
  else if akf_group REG_SEP_AKF_DISABLE_INTERRUPT_BASE addr then
    w ← aget (interrupts_enabled b) ((addr - REG_SEP_AKF_DISABLE_INTERRUPT_BASE) .>> 2);
    mret (not32 w, s)
  else if akf_group REG_SEP_AKF_ENABLE_INTERRUPT_BASE addr then
    w ← aget (interrupts_enabled b) ((addr - REG_SEP_AKF_ENABLE_INTERRUPT_BASE) .>> 2);
    mret (not32 w, s)
  else if addr =? REG_KIC_GLB_CFG then mret (glb_cfg b, s)
  else if addr =? REG_INTERRUPT_STATUS then
    r ← apple_a7iop_mailbox_read_interrupt_status (mboxes (a7iop s)) IOP;
    mret (fst r, set_a7iop s (a7iop s <| mboxes := snd r |>))
  else if addr =? REG_KIC_TMR0_EN then mret (timer0_enabled b, s)
  else if addr =? REG_KIC_TMR1_EN then mret (timer1_enabled b, s)
  else if (addr =? REG_KIC_TMR0_INT_MASK_SET) || (addr =? REG_KIC_TMR0_INT_MASK_CLR) then
    mret (timer0_masked b, s)
  else if (addr =? REG_KIC_TMR1_INT_MASK_SET) || (addr =? REG_KIC_TMR1_INT_MASK_CLR) then
    mret (timer1_masked b, s)
  else mret (0, s).

(** ** Theorems *)

Definition a7iop_inv (s : T) : Prop := mailboxes_inv (mboxes (a7iop s)).

(** The embedding device's callbacks return and keep the mailboxes consistent. *)
Definition op_keeps (op : option (T -> outcome T)) : Prop :=
  forall f s, op = Some f -> a7iop_inv s -> exists s', f s = Done s' /\ a7iop_inv s'.
Definition ops_keep : Prop :=
  forall o, ops = Some o -> op_keeps (start o) /\ op_keeps (wakeup o).

Lemma call_op_ok op s : op_keeps op -> a7iop_inv s ->
  exists s', call_op op s = Done s' /\ a7iop_inv s'.
Proof. intros Hop Hs. destruct op as [f|]; simpl; [by apply (Hop f)|eauto]. Qed.

Lemma inv_set_a7iop s a : mailboxes_inv (mboxes a) -> a7iop_inv (set_a7iop s a).
Proof. unfold a7iop_inv. by rewrite get_set_a7iop. Qed.

Lemma cpu_start_ok s wake : ops_keep -> a7iop_inv s ->
  exists s', apple_a7iop_cpu_start s wake = Done s' /\ a7iop_inv s'.
Proof.
  intros Hops Hs. unfold apple_a7iop_cpu_start. case_match; [eauto|]. cbv zeta.
  assert (a7iop_inv (apple_a7iop_set_cpu_status s (apple_a7iop_get_cpu_status s .&~ CPU_STATUS_IDLE)))
    as Hs' by (apply inv_set_a7iop; exact Hs).
  destruct ops as [o|] eqn:E; [|eauto]. destruct (Hops o E).
  destruct wake; by apply call_op_ok.
Qed.

Lemma set_cpu_ctrl_ok s v : ops_keep -> a7iop_inv s ->
  exists s', apple_a7iop_set_cpu_ctrl s v = Done s' /\ a7iop_inv s'.
Proof.
  intros Hops Hs. unfold apple_a7iop_set_cpu_ctrl. cbv zeta.
  assert (a7iop_inv (set_a7iop s (a7iop s <| cpu_ctrl := v |>))) as Hs'
    by (apply inv_set_a7iop; exact Hs).
  case_match; [by apply cpu_start_ok|eauto].
Qed.

Lemma upd_iop_ok s f : a7iop_inv s -> (forall b, role (f b) = role b) ->
  (forall b, box_wf b -> box_wf (f b)) ->
  exists s', upd_iop s f = Done s' /\ a7iop_inv s'.
Proof.
  intros Hs Hr Hw. unfold upd_iop, on_boxes.
  destruct (inv_update (mboxes (a7iop s)) IOP f Hs Hr (Hw _)) as (p & -> & Hp & _).
  run. eexists. split; [reflexivity|]. by apply inv_set_a7iop.
Qed.

Lemma akf_index base addr : akf_group base addr = true -> 0 <= (addr - base) .>> 2 < 4.
Proof.
  unfold akf_group. rewrite !orb_true_iff, !Z.eqb_eq.
  intros [[[-> | ->]| ->]| ->]; rewrite ?Z.sub_diag, ?Z.add_simpl_l; done.
Qed.

Lemma upd_enabled_ok s i f : a7iop_inv s -> 0 <= i < 4 ->
  exists s', upd_enabled s i f = Done s' /\ a7iop_inv s'.
Proof.
  intros Hs Hi. unfold upd_enabled. pose proof (wf_enabled _ (inv_wf _ Hs IOP)) as Hl.
  change (box (mboxes (a7iop s)) IOP) with (iop_mailbox (mboxes (a7iop s))) in Hl.
  destruct (aget_in_range (interrupts_enabled (iop_mailbox (mboxes (a7iop s)))) i) as [w Hw].
  { unfold zlen. lia. }
  unfold aupd. rewrite Hw. run. rewrite aset_in_range by (unfold zlen; lia). run.
  set (l := <[_ := _]> _). assert (length l = 4%nat) as Hl4 by (unfold l; by rewrite length_insert).
  apply upd_iop_ok; [done|done|]. intros b []. by split.
Qed.

(** no register access of a version 4 co-processor stops the process or
    leaves an array, and every one keeps its mailboxes consistent, for any
    embedding device whose callbacks do. *)
Theorem a7iop_v4_regs_ok s addr data : ops_keep -> a7iop_inv s ->
  (exists s', apple_a7iop_v4_reg_write s addr data = Done s' /\ a7iop_inv s') /\
  (exists v s', apple_a7iop_v4_reg_read s addr = Done (v, s') /\ a7iop_inv s').
Proof.
  intros Hops Hs. pose proof (wf_enabled _ (inv_wf _ Hs IOP)) as Hl.
  change (box (mboxes (a7iop s)) IOP) with (iop_mailbox (mboxes (a7iop s))) in Hl. split.
  - unfold apple_a7iop_v4_reg_write.
    case_match; [by apply set_cpu_ctrl_ok|].
    do 2 (case_match; [apply upd_enabled_ok; [done|by apply akf_index]|]).
    repeat (case_match; [apply upd_iop_ok; [done|done|by intros b []]|]). eauto.
  - unfold apple_a7iop_v4_reg_read. cbv zeta. do 3 (case_match; [by eauto|]).
    do 2 (match goal with |- context [akf_group ?b addr] => destruct (akf_group b addr) eqn:? end;
      [match goal with HH : _ |- _ => apply akf_index in HH as Hi end;
       match goal with |- context [aget ?l ?i] =>
         destruct (aget_in_range l i) as [w ->]; [unfold zlen; lia|] end; run; by eauto|]).
    case_match; [by eauto|]. case_match; [|repeat (case_match; [by eauto|]); by eauto].
    destruct (read_interrupt_status_ok _ Hs) as (st & p & -> & Hp). run.
    eexists _, _. split; [reflexivity|]. by apply inv_set_a7iop.
Qed.

(** Starting the co-processor is idempotent: outside the boot monitor of
    the secure enclave a processor that is not idle ignores a further start or
    wake-up, so the callback of the embedding device runs once, and not again
    until the processor is idle; an idle processor leaves the idle state
    before its callback runs. *)
Theorem a7iop_start_once s wake :
  apple_a7iop_get_cpu_ctrl s .& SEP_BOOT_MONITOR_RUN = 0 ->
  (apple_a7iop_get_cpu_status s .& CPU_STATUS_IDLE = 0 -> apple_a7iop_cpu_start s wake = Done s) /\
  (apple_a7iop_get_cpu_status s .& CPU_STATUS_IDLE <> 0 ->
   exists s1, apple_a7iop_get_cpu_status s1 .& CPU_STATUS_IDLE = 0 /\
     apple_a7iop_get_cpu_ctrl s1 = apple_a7iop_get_cpu_ctrl s /\
     apple_a7iop_cpu_start s wake =
       match ops with
       | None => Done s1
       | Some o => call_op (if wake then wakeup o else start o) s1
       end /\
     apple_a7iop_cpu_start s1 wake = Done s1).
Proof.
  intros Hc. unfold apple_a7iop_cpu_start at 1 2. rewrite Hc. cbn [Z.eqb andb]. split.
  { intros ->. done. }
  intros Hi. apply Z.eqb_neq in Hi. rewrite Hi. cbv zeta.
  set (s1 := apple_a7iop_set_cpu_status _ _). exists s1.
  assert (apple_a7iop_get_cpu_status s1 .& CPU_STATUS_IDLE = 0) as H1.
  { unfold s1, apple_a7iop_get_cpu_status, apple_a7iop_set_cpu_status.
    rewrite get_set_a7iop. cbn. by_bits. }
  assert (apple_a7iop_get_cpu_ctrl s1 = apple_a7iop_get_cpu_ctrl s) as H2.
  { unfold s1, apple_a7iop_get_cpu_ctrl, apple_a7iop_set_cpu_status. by rewrite get_set_a7iop. }
  split; [done|]. split; [done|]. split; [by destruct ops, wake|].
  unfold apple_a7iop_cpu_start. by rewrite H2, Hc, H1.
Qed.
End Device.

#[export] Instance a7iop_alone : HasA7IOP AppleA7IOP :=
  {| a7iop := fun s => s; set_a7iop := fun _ a => a; get_set_a7iop := fun _ _ => eq_refl |}.

Definition a7iop_example : AppleA7IOP := mkA7IOP (mbox_init "SIO" None) CPU_STATUS_IDLE 0.

Lemma a7iop_v4_regs_ok_witness :
  exists s', apple_a7iop_v4_reg_write (T := AppleA7IOP) None a7iop_example 0xA84 5 = Done s' /\
    a7iop_inv s'.
Proof.
  refine (proj1 (a7iop_v4_regs_ok (T := AppleA7IOP) None a7iop_example 0xA84 5 _ _)).
  - intros o Ho. discriminate Ho.
  - apply mbox_init_inv.
Defined.

Lemma a7iop_start_once_witness :
  exists s1, apple_a7iop_cpu_start (T := AppleA7IOP) None a7iop_example false = Done s1 /\
    apple_a7iop_cpu_start (T := AppleA7IOP) None s1 false = Done s1.
Proof.
  assert (apple_a7iop_get_cpu_ctrl a7iop_example .& SEP_BOOT_MONITOR_RUN = 0) as H0 by reflexivity.
  destruct (proj2 (a7iop_start_once (T := AppleA7IOP) None a7iop_example false H0))
    as (s1 & _ & _ & H1 & H2); [vm_compute; discriminate|]. exists s1. split; [exact H1|exact H2].
Defined.
