(* ===== verification/Rtkit.v ===== *)
(** * RTKit: the message protocol of the co-processors

    Model of [hw/misc/apple-silicon/a7iop/rtkit.c].  The device that embeds an
    RTKit co-processor is the type [T] ([HasRTKit] reaches it, as
    [container_of] and the opaque pointers do).  The end point table is a
    dictionary of a library: a finite map, with the order in which the library
    enumerates its keys as the parameter [iter].  A handler is named by its
    identity, [dev_handler] runs the handlers of the embedding device. *)

From S2P Require Import Prelude Bitops Mailbox A7iop.

Definition EP_MANAGEMENT : Z := 0.
Definition EP_CRASHLOG : Z := 1.
Definition EP_USER_START : Z := 32.

Definition EP0_IDLE : Z := 0.
Definition EP0_WAIT_HELLO : Z := 1.
Definition EP0_WAIT_ROLLCALL : Z := 2.

Definition MSG_HELLO : Z := 1.
Definition MSG_HELLO_ACK : Z := 2.
Definition MSG_TYPE_PING : Z := 3.
Definition MSG_TYPE_PING_ACK : Z := 4.
Definition MSG_TYPE_REQ_POWER : Z := 6.
Definition MSG_GET_PSTATE (x : Z) : Z := x .& 0xFFF.
Definition PSTATE_PWRGATE : Z := 0x0.
Definition PSTATE_SLEEP : Z := 0x201.
Definition PSTATE_OFF : Z := 0x202.
Definition PSTATE_ON : Z := 0x220.
Definition MSG_TYPE_POWER_ACK : Z := 7.
Definition MSG_TYPE_ROLLCALL : Z := 8.
Definition MSG_TYPE_AP_POWER : Z := 11.

Definition RTKIT_MIN_VERSION : Z := 3.
Definition RTKIT_MAX_VERSION_PRE_IOS14 : Z := 10.
Definition RTKIT_MAX_VERSION : Z := 12.

(** ** The management message: a 64-bit word with overlapping fields *)
Module Mgmt.
(** The fields, first bit and length. *)
Definition type_field : Z * Z := (52, 4).
Definition hello_min_version : Z * Z := (0, 16).
Definition hello_max_version : Z * Z := (16, 16).
Definition ping_seg : Z * Z := (0, 32).
Definition ping_timestamp : Z * Z := (32, 16).
Definition power_state : Z * Z := (0, 32).
Definition rollcall_v11_mask : Z * Z := (0, 32).
Definition rollcall_v11_block : Z * Z := (32, 6).
Definition rollcall_v11_end : Z * Z := (51, 1).
Definition rollcall_v10_mask : Z * Z := (0, 52).

Definition get (raw : Z) (f : Z * Z) : Z := extract64 raw (fst f) (snd f).
(** Assignment to a field keeps the low bits of the value. *)
Definition set (raw : Z) (f : Z * Z) (v : Z) : Z :=
  deposit64 raw (fst f) (snd f) (wrap (snd f) v).
End Mgmt.

(** The handler of an end point: the management handler of RTKit, or one of
    the embedding device. *)
Inductive ep_handler := HandleMgmt | HandleDevice (n : nat).

Record AppleRTKitEPData := mkEPData {
  handler : option ep_handler;
  user : bool;
}.

Record AppleRTKit := mkRTKit {
  parent_obj : AppleA7IOP;
  ep0_status : Z;
  protocol_version : Z;
  endpoints : gmap Z AppleRTKitEPData;
  rollcall : list AppleA7IOPMessage;
}.
#[global] Instance eta_AppleRTKit : Eta AppleRTKit := fun r =>
  mkRTKit (parent_obj r) (ep0_status r) (protocol_version r) (endpoints r) (rollcall r).

Record AppleRTKitOps (T : Type) := mkRTKitOps {
  rtk_start : option (T -> outcome T);
  rtk_wakeup : option (T -> outcome T);
  boot_done : option (T -> outcome T);
}.
Arguments mkRTKitOps {T}.
Arguments rtk_start {T} _.
Arguments rtk_wakeup {T} _.
Arguments boot_done {T} _.

(** How RTKit sits inside the device [T]. *)
Class HasRTKit (T : Type) := {
  rtkit : T -> AppleRTKit;
  set_rtkit : T -> AppleRTKit -> T;
  get_set_rtkit : forall t r, rtkit (set_rtkit t r) = r;
}.

#[export] Instance rtkit_a7iop {T} `{HasRTKit T} : HasA7IOP T := {|
  a7iop := fun t => parent_obj (rtkit t);
  set_a7iop := fun t a => set_rtkit t (rtkit t <| parent_obj := a |>);
  get_set_a7iop := fun t a => eq_trans (f_equal parent_obj (get_set_rtkit t _)) eq_refl;
|}.

Definition apple_rtkit_construct_msg (ep data : Z) : AppleA7IOPMessage :=
  le_split 8 data ++ le_split 4 ep ++ [0; 0; 0; 0].

(** The fields of a received message. *)
Definition msg_data (msg : AppleA7IOPMessage) : Z := le_combine (take 8 msg).
Definition msg_endpoint (msg : AppleA7IOPMessage) : Z := le_combine (take 4 (drop 8 msg)).

Section RTKit.
Context {T : Type} `{HasRTKit T}.
Variable ops : option (AppleRTKitOps T).
Variable dev_handler : nat -> Z -> Z -> T -> outcome T.
Variable iter : gmap Z AppleRTKitEPData -> list Z.

Definition upd_rtkit (s : T) (f : AppleRTKit -> AppleRTKit) : T := set_rtkit s (f (rtkit s)).

(** ** Sending *)

Definition apple_rtkit_send_msg (s : T) (ep data : Z) : outcome T :=
  apple_a7iop_send_ap s (apple_rtkit_construct_msg ep data).

Definition apple_rtkit_send_control_msg (s : T) (ep data : Z) : outcome T :=
  c_assert (ep <? EP_USER_START);; apple_rtkit_send_msg s ep data.

Definition apple_rtkit_send_user_msg (s : T) (ep data : Z) : outcome T :=
  c_assert (ep <? 256 - EP_USER_START);; apple_rtkit_send_msg s (u8 (ep + EP_USER_START)) data.

(** ** End points *)

Definition apple_rtkit_register_ep (s : T) (ep : Z) (h : option ep_handler) (user : bool)
    : outcome T :=
  c_assert (bool_decide (endpoints (rtkit s) !! ep = None));;
  mret (upd_rtkit s (setf endpoints <[ep := mkEPData h user]>)).

Definition apple_rtkit_register_control_ep (s : T) (ep : Z) (h : option ep_handler) : outcome T :=
  c_assert (ep <? EP_USER_START);; apple_rtkit_register_ep s ep h false.

Definition apple_rtkit_register_user_ep (s : T) (ep : Z) (h : option ep_handler) : outcome T :=
  c_assert (ep <? 256 - EP_USER_START);;
  apple_rtkit_register_ep s (u8 (ep + EP_USER_START)) h true.

Definition apple_rtkit_unregister_ep (s : T) (ep : Z) : T :=
  upd_rtkit s (setf endpoints (delete ep)).

Definition apple_rtkit_unregister_control_ep (s : T) (ep : Z) : outcome T :=
  c_assert (ep <? EP_USER_START);; mret (apple_rtkit_unregister_ep s ep).

Definition apple_rtkit_unregister_user_ep (s : T) (ep : Z) : outcome T :=
  c_assert (ep <? 256 - EP_USER_START);;
  mret (apple_rtkit_unregister_ep s (u8 (ep + EP_USER_START))).

(** ** The management end point *)

Definition apple_rtkit_mgmt_send_hello_msg (s : T) (min_version max_version : Z) : outcome T :=
  let msg := Mgmt.set 0 Mgmt.type_field MSG_HELLO in
  let msg := Mgmt.set msg Mgmt.hello_min_version min_version in
  let msg := Mgmt.set msg Mgmt.hello_max_version max_version in
  apple_rtkit_send_control_msg s EP_MANAGEMENT msg.

Definition apple_rtkit_mgmt_send_hello (s : T) : outcome T :=
  s ← apple_rtkit_mgmt_send_hello_msg s RTKIT_MIN_VERSION RTKIT_MAX_VERSION;
  mret (upd_rtkit s (setf ep0_status (fun _ => EP0_WAIT_HELLO))).

(** One turn of the loop; the shift is undefined for a key of 64 or more. *)
Definition rollcall_v10_step (msg : outcome Z) (key : Z) : outcome Z :=
  msg ← msg;
  if key <? 64 then
    mret (Mgmt.set msg Mgmt.rollcall_v10_mask (Mgmt.get msg Mgmt.rollcall_v10_mask .| BIT key))
  else Oob.

Definition apple_rtkit_mgmt_rollcall_v10 (s : T) : outcome T :=
  msg ← foldl rollcall_v10_step (mret (Mgmt.set 0 Mgmt.type_field MSG_TYPE_ROLLCALL))
          (iter (endpoints (rtkit s)));
  apple_rtkit_send_control_msg s EP_MANAGEMENT msg.

(** The word that announces the end points [mask] of [block]. *)
Definition rollcall_v11_word (mgmt_msg mask block : Z) (last : bool) : Z :=
  let mgmt_msg := Mgmt.set mgmt_msg Mgmt.type_field MSG_TYPE_ROLLCALL in
  let mgmt_msg := Mgmt.set mgmt_msg Mgmt.rollcall_v11_mask mask in
  let mgmt_msg := Mgmt.set mgmt_msg Mgmt.rollcall_v11_block block in
  Mgmt.set mgmt_msg Mgmt.rollcall_v11_end (Z.b2z last).

(** The loop over the end points: the message word, the current mask and block;
    the words that are queued, in order. *)
Fixpoint rollcall_v11_loop (keys : list Z) (mgmt_msg mask last_block : Z) : list Z :=
  match keys with
  | [] => [rollcall_v11_word mgmt_msg mask last_block true]
  | ep :: keys' =>
      let block := ep / EP_USER_START in
      let bit := BIT (ep mod EP_USER_START) in
      if negb (block =? last_block) && nonzero mask then
        let mgmt_msg := rollcall_v11_word mgmt_msg mask last_block false in
        mgmt_msg :: rollcall_v11_loop keys' mgmt_msg (0 .| bit) block
      else rollcall_v11_loop keys' mgmt_msg (mask .| bit) block
  end.

Definition rollcall_v11_words (keys : list Z) : list Z := rollcall_v11_loop keys 0 0 0.

(** The first of the queue is sent and the rest waits. *)
Definition apple_rtkit_mgmt_rollcall_v11 (s : T) : outcome T :=
  c_assert (bool_decide (rollcall (rtkit s) = []));;
  let queue := apple_rtkit_construct_msg EP_MANAGEMENT <$> rollcall_v11_words (iter (endpoints (rtkit s))) in
  match queue with
  | [] => Oob
  | msg :: rest => apple_a7iop_send_ap (upd_rtkit s (setf rollcall (fun _ => rest))) msg
  end.

(** A callback of the embedding device, absent with its table. *)
Definition call_rtk_op (f : AppleRTKitOps T -> option (T -> outcome T)) (s : T) : outcome T :=
  match ops with Some o => call_op (f o) s | None => mret s end.

Definition apple_rtkit_iop_start (s : T) : outcome T :=
  s ← call_rtk_op rtk_start s; apple_rtkit_mgmt_send_hello s.

Definition apple_rtkit_iop_wakeup (s : T) : outcome T :=
  s ← call_rtk_op rtk_wakeup s; apple_rtkit_mgmt_send_hello s.

Definition apple_rtkit_iop_ops : AppleA7IOPOps T :=
  mkOps (Some apple_rtkit_iop_start) (Some apple_rtkit_iop_wakeup).

Definition handle_hello_ack (s : T) (msg : Z) : outcome T :=
  c_assert (ep0_status (rtkit s) =? EP0_WAIT_HELLO);;
  let min_version := Mgmt.get msg Mgmt.hello_min_version in
  let max_version := Mgmt.get msg Mgmt.hello_max_version in
  if (min_version =? 0xFFFF) && (max_version =? 0xBAD) then
    apple_rtkit_mgmt_send_hello_msg s RTKIT_MIN_VERSION RTKIT_MAX_VERSION_PRE_IOS14
  else
    let s := upd_rtkit s (setf protocol_version (fun _ => max_version)) in
    s ← (if max_version <=? 10 then apple_rtkit_mgmt_rollcall_v10 s
         else apple_rtkit_mgmt_rollcall_v11 s);
    mret (upd_rtkit s (setf ep0_status (fun _ => EP0_WAIT_ROLLCALL))).

Definition power_ack (state : Z) : Z :=
  Mgmt.set (Mgmt.set 0 Mgmt.type_field MSG_TYPE_POWER_ACK) Mgmt.power_state state.

Definition handle_req_power (s : T) (ep msg : Z) : outcome T :=
  let pstate := MSG_GET_PSTATE msg in
  if pstate =? PSTATE_ON then apple_a7iop_cpu_start (Some apple_rtkit_iop_ops) s true
  else if (pstate =? PSTATE_SLEEP) || (pstate =? PSTATE_OFF) || (pstate =? PSTATE_PWRGATE) then
    let s := apple_a7iop_set_cpu_status s (apple_a7iop_get_cpu_status s .| CPU_STATUS_IDLE) in
    apple_rtkit_send_msg s ep (power_ack pstate)
  else mret s.

Definition handle_rollcall (s : T) (ep : Z) : outcome T :=
  c_assert (ep0_status (rtkit s) =? EP0_WAIT_ROLLCALL);;
  match rollcall (rtkit s) with
  | [] =>
      let s := upd_rtkit s (setf ep0_status (fun _ => EP0_IDLE)) in
      s ← apple_rtkit_send_msg s ep (power_ack 32);
      call_rtk_op boot_done s
  | m2 :: rest => apple_a7iop_send_ap (upd_rtkit s (setf rollcall (fun _ => rest))) m2
  end.

Definition apple_rtkit_mgmt_handle_msg (s : T) (ep msg : Z) : outcome T :=
  let type := Mgmt.get msg Mgmt.type_field in
  if type =? MSG_HELLO_ACK then handle_hello_ack s msg
  else if type =? MSG_TYPE_PING then
    let m := Mgmt.set 0 Mgmt.type_field MSG_TYPE_PING_ACK in
    let m := Mgmt.set m Mgmt.ping_seg (Mgmt.get msg Mgmt.ping_seg) in
    let m := Mgmt.set m Mgmt.ping_timestamp (Mgmt.get msg Mgmt.ping_timestamp) in
    apple_rtkit_send_msg s ep m
  else if type =? MSG_TYPE_AP_POWER then
    let m := Mgmt.set 0 Mgmt.type_field MSG_TYPE_AP_POWER in
    let m := Mgmt.set m Mgmt.power_state (Mgmt.get msg Mgmt.power_state) in
    apple_rtkit_send_msg s ep m
  else if type =? MSG_TYPE_REQ_POWER then handle_req_power s ep msg
  else if type =? MSG_TYPE_ROLLCALL then handle_rollcall s ep
  else mret s.

(** ** Dispatch *)

Definition run_handler (h : ep_handler) (ep msg : Z) (s : T) : outcome T :=
  match h with
  | HandleMgmt => apple_rtkit_mgmt_handle_msg s ep msg
  | HandleDevice n => dev_handler n ep msg s
  end.

(** The keys of the table have sixteen bits, the argument of a handler eight. *)
Definition dispatch (s : T) (msg : AppleA7IOPMessage) : outcome T :=
  let ep := msg_endpoint msg in
  match endpoints (rtkit s) !! u16 ep with
  | Some (mkEPData (Some h) user) =>
      run_handler h (u8 (if user then ep - EP_USER_START else ep)) (msg_data msg) s
  | _ => mret s
  end.

(** The bottom half; a message that is not there is dereferenced. *)
Fixpoint apple_rtkit_handle_messages_bh (fuel : nat) (s : T) : outcome T :=
  if apple_a7iop_mailbox_is_empty (mboxes (a7iop s)) IOP then mret s
  else
    match fuel with
    | O => NoFuel
    | S fuel' =>
        r ← apple_a7iop_recv_iop s;
        match r with
        | (None, _) => Oob
        | (Some msg, s) => s ← dispatch s msg; apple_rtkit_handle_messages_bh fuel' s
        end
    end.

(** ** Creation and reset *)

(** What [apple_rtkit_init] does after [apple_a7iop_init]. *)
Definition apple_rtkit_init (s : T) : outcome T :=
  let s := upd_rtkit s (fun r => r <| endpoints := ∅ |> <| rollcall := [] |>) in
  s ← apple_rtkit_register_control_ep s EP_MANAGEMENT (Some HandleMgmt);
  apple_rtkit_register_control_ep s EP_CRASHLOG None.

Definition apple_rtkit_reset_hold (s : T) : T :=
  upd_rtkit (apple_a7iop_reset s)
    (fun r => r <| ep0_status := EP0_IDLE |> <| protocol_version := 0 |> <| rollcall := [] |>).

(** ** The roll call *)

(** The word [raw] announces the end point [ep]. *)
Definition announces (raw ep : Z) : bool :=
  (Mgmt.get raw Mgmt.rollcall_v11_block =? ep / EP_USER_START) && Z.testbit raw (ep mod EP_USER_START).

Lemma mgmt_get_same raw f v : valid_field 64 (fst f) (snd f) = true ->
  Mgmt.get (Mgmt.set raw f v) f = wrap (snd f) v.
Proof.
  intros Hf. unfold Mgmt.get, Mgmt.set. rewrite extract64_deposit64_same by done.
  apply valid_field_iff in Hf. apply wrap_small, wrap_range. lia.
Qed.

Lemma mgmt_get_other raw f g v : valid_field 64 (fst f) (snd f) = true ->
  valid_field 64 (fst g) (snd g) = true -> fst f + snd f <= fst g \/ fst g + snd g <= fst f ->
  Mgmt.get (Mgmt.set raw f v) g = Mgmt.get raw g.
Proof. intros. unfold Mgmt.get, Mgmt.set. by rewrite extract64_deposit64_other. Qed.

Lemma rollcall_v11_word_spec m mask block last : in_width 32 mask -> 0 <= block < 64 ->
  let w := rollcall_v11_word m mask block last in
  Mgmt.get w Mgmt.type_field = MSG_TYPE_ROLLCALL /\
  Mgmt.get w Mgmt.rollcall_v11_block = block /\
  Mgmt.get w Mgmt.rollcall_v11_end = Z.b2z last /\
  forall i, 0 <= i < 32 -> Z.testbit w i = Z.testbit mask i.
Proof.
  intros Hm Hb w. unfold w, rollcall_v11_word. split_and!.
  - rewrite 3!mgmt_get_other by (done || cbn; lia). by rewrite mgmt_get_same.
  - rewrite mgmt_get_other, mgmt_get_same by (done || cbn; lia). apply wrap_small. unfold in_width. cbn. lia.
  - rewrite mgmt_get_same by done. by destruct last.
  - intros i Hi. unfold Mgmt.set. cbn [fst snd Mgmt.rollcall_v11_end Mgmt.rollcall_v11_block Mgmt.rollcall_v11_mask].
    rewrite !testbit_deposit64 by (done || lia). eval_cmp. cbn [andb].
    rewrite testbit_wrap, Z.sub_0_r by lia. by eval_cmp.
Qed.

Lemma announces_word m mask block last ep : in_width 32 mask -> 0 <= block < 64 ->
  announces (rollcall_v11_word m mask block last) ep =
  (block =? ep / EP_USER_START) && Z.testbit mask (ep mod EP_USER_START).
Proof.
  intros Hm Hb. destruct (rollcall_v11_word_spec m mask block last Hm Hb) as (_ & H1 & _ & H2).
  unfold announces. rewrite H1, H2; [done|]. by apply Z.mod_pos_bound.
Qed.

Lemma add_bit_width mask ep : in_width 32 mask -> in_width 32 (mask .| BIT (ep mod EP_USER_START)).
Proof.
  intros Hm. apply in_width_lor; [done..|]. apply in_width_BIT. by apply Z.mod_pos_bound.
Qed.

(** A bit added to the mask of a block stands for its end point. *)
Lemma add_bit_announces mask k ep : 0 <= k -> 0 <= ep ->
  (k / EP_USER_START =? ep / EP_USER_START) &&
    Z.testbit (mask .| BIT (k mod EP_USER_START)) (ep mod EP_USER_START) =
  ((k / EP_USER_START =? ep / EP_USER_START) && Z.testbit mask (ep mod EP_USER_START)) || (k =? ep).
Proof.
  intros Hk He. unfold EP_USER_START in *.
  rewrite Z.lor_spec, testbit_BIT by (apply Z.mod_pos_bound; done).
  pose proof (Z.div_mod k 32 ltac:(done)). pose proof (Z.div_mod ep 32 ltac:(done)).
  destruct (Z.eqb_spec (k / 32) (ep / 32)), (Z.eqb_spec (k mod 32) (ep mod 32)), (Z.eqb_spec k ep);
    cbn; try (exfalso; lia || congruence); by rewrite ?orb_true_r, ?orb_false_r.
Qed.

Lemma rollcall_v11_loop_spec keys : forall m mask block,
  Forall (fun k => 0 <= k < 256) keys -> in_width 32 mask -> 0 <= block < 8 ->
  let ws := rollcall_v11_loop keys m mask block in
  (forall ep, 0 <= ep -> existsb (fun w => announces w ep) ws =
     ((block =? ep / EP_USER_START) && Z.testbit mask (ep mod EP_USER_START)) || existsb (Z.eqb ep) keys) /\
  exists front w, ws = front ++ [w] /\ Mgmt.get w Mgmt.rollcall_v11_end = 1 /\
    Forall (fun w => Mgmt.get w Mgmt.rollcall_v11_end = 0) front /\
    Forall (fun w => Mgmt.get w Mgmt.type_field = MSG_TYPE_ROLLCALL) ws.
Proof.
  induction keys as [|k keys IH]; intros m mask block Hk Hm Hb.
  - destruct (rollcall_v11_word_spec m mask block true Hm ltac:(lia)) as (Ht & _ & He & _).
    cbn [rollcall_v11_loop]. split.
    + intros ep _. cbn [existsb]. by rewrite announces_word by (done || lia).
    + exists [], (rollcall_v11_word m mask block true). split_and!; [done|done|constructor|].
      by apply Forall_singleton.
  - apply Forall_cons in Hk as [Hk0 Hk]. cbn [rollcall_v11_loop]. cbv zeta.
    assert (0 <= k / EP_USER_START < 8) as Hb'.
    { unfold EP_USER_START. split; [apply Z.div_pos; lia|apply Z.div_lt_upper_bound; lia]. }
    assert (forall ep, 0 <= ep -> existsb (Z.eqb ep) (k :: keys) = (k =? ep) || existsb (Z.eqb ep) keys) as Hcons
      by (intros ep _; cbn; by rewrite Z.eqb_sym).
    destruct (negb (k / EP_USER_START =? block) && nonzero mask) eqn:E.
    + destruct (IH (rollcall_v11_word m mask block false) (0 .| BIT (k mod EP_USER_START)) (k / EP_USER_START) Hk)
        as (IHa & front & w & Hws & Hlast & Hfront & Hty); [by apply add_bit_width|done|].
      destruct (rollcall_v11_word_spec m mask block false Hm ltac:(lia)) as (Ht & _ & He & _).
      split.
      * intros ep Hep. rewrite Hcons by done. change (existsb ?f (?a :: ?l)) with (f a || existsb f l).
        cbv beta. rewrite IHa, announces_word, add_bit_announces, Z.bits_0, andb_false_r by (done || lia).
        done.
      * exists (rollcall_v11_word m mask block false :: front), w. rewrite Hws in Hty |- *.
        split_and!; [done|done| |]; by constructor.
    + destruct (IH m (mask .| BIT (k mod EP_USER_START)) (k / EP_USER_START) Hk)
        as (IHa & Hrest); [by apply add_bit_width|done|]. split; [|done].
      intros ep Hep. rewrite IHa, add_bit_announces, Hcons by (done || lia).
      apply andb_false_iff in E as [E|E].
      * apply negb_false_iff, Z.eqb_eq in E. by rewrite E, orb_assoc.
      * unfold nonzero in E. apply negb_false_iff, Z.eqb_eq in E. rewrite E, Z.bits_0, !andb_false_r. done.
Qed.

(** ** The boot handshake *)

Definition ap_inbox (s : T) : list AppleA7IOPMessage := inbox (box (mboxes (a7iop s)) AP).

(** The mailboxes are consistent and the direction to the host is enabled. *)
Definition ready (s : T) : Prop :=
  a7iop_inv s /\ ap_dir_en (box (mboxes (a7iop s)) IOP) = true.

Lemma rtkit_upd s f : rtkit (upd_rtkit s f) = f (rtkit s).
Proof. apply get_set_rtkit. Qed.

(** A change of the protocol state leaves the co-processor as it is. *)
Lemma a7iop_upd s f : (forall r, parent_obj (f r) = parent_obj r) -> a7iop (upd_rtkit s f) = a7iop s.
Proof. intros Hf. change (a7iop (upd_rtkit s f)) with (parent_obj (rtkit (upd_rtkit s f))). by rewrite rtkit_upd. Qed.

Lemma upd_ready s f : (forall r, parent_obj (f r) = parent_obj r) -> ready s ->
  ready (upd_rtkit s f) /\ ap_inbox (upd_rtkit s f) = ap_inbox s.
Proof. intros Hf Hr. unfold ready, a7iop_inv, ap_inbox in *. by rewrite a7iop_upd. Qed.

(** What sending leaves alone. *)
Definition same_protocol (s s' : T) : Prop :=
  exists a, rtkit s' = rtkit s <| parent_obj := a |>.

Lemma send_ap_ok s msg : ready s -> length msg = 16%nat ->
  exists s', apple_a7iop_send_ap s msg = Done s' /\ ready s' /\ same_protocol s s' /\
    ap_inbox s' = ap_inbox s ++ [msg].
Proof.
  intros [Hinv Hen] Hm. unfold apple_a7iop_send_ap, on_boxes, apple_a7iop_mailbox_send_ap. rewrite Hen.
  destruct (send_ok (mboxes (a7iop s)) AP msg Hinv Hm) as (p & -> & Hp & Hin & _ & _ & Hc).
  run. eexists. split; [done|]. unfold ready, a7iop_inv, ap_inbox. rewrite get_set_a7iop.
  split; [split|split]; [done| |by eexists; apply get_set_rtkit|done].
  specialize (Hc IOP ltac:(done)). change (ap_dir_en (core (box p IOP)) = true). by rewrite Hc.
Qed.

Lemma construct_length ep data : length (apple_rtkit_construct_msg ep data) = 16%nat.
Proof. unfold apple_rtkit_construct_msg. by rewrite !length_app, !length_le_split. Qed.

(** The messages of a conversation, handled in turn. *)
Definition handle_all (s : T) (msgs : list Z) : outcome T :=
  foldl (fun o msg => s ← o; apple_rtkit_mgmt_handle_msg s EP_MANAGEMENT msg) (mret s) msgs.

Lemma handle_all_fail (o : outcome T) msgs : is_done o = false ->
  foldl (fun o msg => s ← o; apple_rtkit_mgmt_handle_msg s EP_MANAGEMENT msg) o msgs = o.
Proof. revert o. induction msgs as [|m msgs IH]; intros [] Ho; try done; cbn; by rewrite IH. Qed.

Lemma handle_all_cons s msg msgs :
  handle_all s (msg :: msgs) = (s ← apple_rtkit_mgmt_handle_msg s EP_MANAGEMENT msg; handle_all s msgs).
Proof.
  unfold handle_all at 1. cbn [foldl]. rewrite bind_mret.
  destruct (apple_rtkit_mgmt_handle_msg s EP_MANAGEMENT msg) as [s'| | |] eqn:E; [done|..];
    by rewrite handle_all_fail.
Qed.

(** The waiting messages leave one by one with each request. *)
Lemma handle_rollcall_msg s msg : Mgmt.get msg Mgmt.type_field = MSG_TYPE_ROLLCALL ->
  apple_rtkit_mgmt_handle_msg s EP_MANAGEMENT msg = handle_rollcall s EP_MANAGEMENT.
Proof. intros Hm. unfold apple_rtkit_mgmt_handle_msg. cbv zeta. by rewrite Hm. Qed.

Lemma rollcall_drains req queue : Mgmt.get req Mgmt.type_field = MSG_TYPE_ROLLCALL -> forall s,
  ready s -> ep0_status (rtkit s) = EP0_WAIT_ROLLCALL -> rollcall (rtkit s) = queue ->
  Forall (fun m => length m = 16%nat) queue ->
  exists s', handle_all s (replicate (S (length queue)) req) = call_rtk_op boot_done s' /\
    ready s' /\ ep0_status (rtkit s') = EP0_IDLE /\ rollcall (rtkit s') = [] /\
    protocol_version (rtkit s') = protocol_version (rtkit s) /\
    endpoints (rtkit s') = endpoints (rtkit s) /\
    ap_inbox s' = ap_inbox s ++ queue ++ [apple_rtkit_construct_msg EP_MANAGEMENT (power_ack 32)].
Proof.
  intros Hreq. induction queue as [|m queue IH]; intros s Hs Hst Hq Hlen;
    cbn [replicate length]; rewrite handle_all_cons, handle_rollcall_msg by done;
    unfold handle_rollcall; rewrite Hst, Hq, Z.eqb_refl; cbn [c_assert]; run; cbv zeta.
  - destruct (upd_ready s (setf ep0_status (fun _ => EP0_IDLE))) as [Hs1 Hin1]; [done..|].
    destruct (send_ap_ok _ (apple_rtkit_construct_msg EP_MANAGEMENT (power_ack 32)) Hs1 (construct_length _ _))
      as (s2 & E & Hs2 & [a Ha] & Hin2).
    unfold apple_rtkit_send_msg. rewrite E. run. exists s2.
    rewrite rtkit_upd in Ha. rewrite Ha, Hin2, Hin1. split; [|by split_and!].
    by destruct (call_rtk_op boot_done s2).
  - apply Forall_cons in Hlen as [Hm Hlen].
    destruct (upd_ready s (setf rollcall (fun _ => queue))) as [Hs1 Hin1]; [done..|].
    destruct (send_ap_ok _ m Hs1 Hm) as (s2 & E & Hs2 & [a Ha] & Hin2).
    rewrite E. run. rewrite rtkit_upd in Ha.
    destruct (IH s2) as (s' & E' & H1 & H2 & H3 & H4 & H5 & H6); [done|by rewrite Ha|by rewrite Ha|done|].
    exists s'. cbn [replicate length] in E'. rewrite E'. split_and!; [done..|by rewrite H4, Ha|by rewrite H5, Ha|].
    by rewrite H6, Hin2, Hin1, <- (assoc_L (++)).
Qed.

(** The library enumerates every key of the table once. *)
Definition enumerates : Prop := forall m : gmap Z AppleRTKitEPData, iter m ≡ₚ (map_to_list m).*1.

(** The words of the roll call announce the registered end points. *)
Lemma words_announce (m : gmap Z AppleRTKitEPData) : enumerates ->
  (forall k, is_Some (m !! k) -> 0 <= k < 256) ->
  let words := rollcall_v11_words (iter m) in
  (forall ep, 0 <= ep -> existsb (fun w => announces w ep) words = true <-> is_Some (m !! ep)) /\
  exists front w, words = front ++ [w] /\ Mgmt.get w Mgmt.rollcall_v11_end = 1 /\
    Forall (fun w => Mgmt.get w Mgmt.rollcall_v11_end = 0) front /\
    Forall (fun w => Mgmt.get w Mgmt.type_field = MSG_TYPE_ROLLCALL) words.
Proof.
  intros Hiter Hm words.
  assert (forall k, k ∈ iter m <-> is_Some (m !! k)) as Hk.
  { intros k. rewrite (Hiter m), list_elem_of_fmap. split.
    - intros ((k', d) & -> & Hd%elem_of_map_to_list). eauto.
    - intros [d Hd%elem_of_map_to_list]. by exists (k, d). }
  destruct (rollcall_v11_loop_spec (iter m) 0 0 0) as [Ha Hrest]; [|done|done|].
  { apply Forall_forall. intros k Hin. by apply Hm, Hk. }
  split; [|done]. intros ep Hep. unfold words, rollcall_v11_words.
  rewrite Ha, Z.bits_0, andb_false_r by done. cbn [orb]. rewrite existsb_exists, <- Hk. split.
  - intros (k & Hin & <-%Z.eqb_eq). by apply list_elem_of_In.
  - intros Hin. exists ep. by rewrite <- list_elem_of_In, Z.eqb_refl.
Qed.

(** The first announcement leaves at once, the others wait. *)
Lemma rollcall_v11_sends s w rest : ready s -> rollcall (rtkit s) = [] ->
  rollcall_v11_words (iter (endpoints (rtkit s))) = w :: rest ->
  exists s', apple_rtkit_mgmt_rollcall_v11 s = Done s' /\ ready s' /\
    rollcall (rtkit s') = apple_rtkit_construct_msg EP_MANAGEMENT <$> rest /\
    protocol_version (rtkit s') = protocol_version (rtkit s) /\
    ap_inbox s' = ap_inbox s ++ [apple_rtkit_construct_msg EP_MANAGEMENT w].
Proof.
  intros Hs Hq Hw. unfold apple_rtkit_mgmt_rollcall_v11. rewrite Hq, Hw, bool_decide_true by done.
  cbn [c_assert]. run. cbv zeta. rewrite fmap_cons.
  destruct (upd_ready s (setf rollcall (fun _ => apple_rtkit_construct_msg EP_MANAGEMENT <$> rest)))
    as [Hs1 Hin1]; [done..|].
  destruct (send_ap_ok _ (apple_rtkit_construct_msg EP_MANAGEMENT w) Hs1 (construct_length _ _))
    as (s2 & E & Hs2 & [a Ha] & Hin2).
  exists s2. rewrite rtkit_upd in Ha. rewrite Ha, Hin2, Hin1. by split_and!.
Qed.

(** C15: the boot handshake.  A co-processor that waits for the answer to its
    hello, given an answer with version 11 or later and then one roll call
    request per announcement, sends the host a series of announcements and
    after them the power acknowledgement, becomes idle, and then runs the
    device's callback for the end of the boot.  Whatever the order in which the
    table is enumerated, the announcements name the registered end points and
    no others, and the last one and no other is marked as the last. *)
Theorem rtkit_boot_handshake s ack req :
  enumerates -> ready s -> ep0_status (rtkit s) = EP0_WAIT_HELLO -> rollcall (rtkit s) = [] ->
  (forall k, is_Some (endpoints (rtkit s) !! k) -> 0 <= k < 256) ->
  Mgmt.get ack Mgmt.type_field = MSG_HELLO_ACK -> 11 <= Mgmt.get ack Mgmt.hello_max_version ->
  Mgmt.get ack Mgmt.hello_max_version <> 0xBAD ->
  Mgmt.get req Mgmt.type_field = MSG_TYPE_ROLLCALL ->
  exists words s',
    handle_all s (ack :: replicate (length words) req) = call_rtk_op boot_done s' /\
    ep0_status (rtkit s') = EP0_IDLE /\ rollcall (rtkit s') = [] /\
    protocol_version (rtkit s') = Mgmt.get ack Mgmt.hello_max_version /\
    ap_inbox s' = ap_inbox s ++ (apple_rtkit_construct_msg EP_MANAGEMENT <$> words) ++
                    [apple_rtkit_construct_msg EP_MANAGEMENT (power_ack 32)] /\
    (forall ep, 0 <= ep -> existsb (fun w => announces w ep) words = true <->
                           is_Some (endpoints (rtkit s) !! ep)) /\
    exists front w, words = front ++ [w] /\ Mgmt.get w Mgmt.rollcall_v11_end = 1 /\
      Forall (fun w => Mgmt.get w Mgmt.rollcall_v11_end = 0) front.
Proof.
  intros Hiter Hs Hst Hq Hk Hack Hver Hbad Hreq.
  destruct (words_announce (endpoints (rtkit s)) Hiter Hk) as (Ha & front & w & Hw & Hl & Hf & _).
  exists (rollcall_v11_words (iter (endpoints (rtkit s)))).
  rewrite handle_all_cons. unfold apple_rtkit_mgmt_handle_msg. cbv zeta. rewrite Hack, Z.eqb_refl.
  unfold handle_hello_ack. rewrite Hst, Z.eqb_refl. cbn [c_assert]. run. cbv zeta.
  rewrite (proj2 (Z.eqb_neq _ _) Hbad), andb_false_r, (proj2 (Z.leb_gt _ _)) by lia.
  set (s1 := upd_rtkit s _).
  destruct (upd_ready s (setf protocol_version (fun _ => Mgmt.get ack Mgmt.hello_max_version)))
    as [Hs1 Hin1]; [done..|]. fold s1 in Hs1, Hin1.
  assert (exists w0 rest, rollcall_v11_words (iter (endpoints (rtkit s))) = w0 :: rest) as (w0 & rest & Ew)
    by (rewrite Hw; destruct front; eauto).
  destruct (rollcall_v11_sends s1 w0 rest Hs1) as (s2 & -> & Hs2 & Hr2 & Hp2 & Hin2);
    [unfold s1; by rewrite rtkit_upd..|]. run.
  set (s3 := upd_rtkit s2 _).
  destruct (upd_ready s2 (setf ep0_status (fun _ => EP0_WAIT_ROLLCALL))) as [Hs3 Hin3]; [done..|].
  fold s3 in Hs3, Hin3.
  destruct (rollcall_drains req (apple_rtkit_construct_msg EP_MANAGEMENT <$> rest) Hreq s3 Hs3)
    as (s' & E & _ & H2 & H3 & H4 & _ & H6); [unfold s3; by rewrite rtkit_upd..| |].
  { apply Forall_fmap, Forall_forall. intros x _. apply construct_length. }
  rewrite length_fmap in E. exists s'. rewrite Ew at 1. cbn [length]. rewrite E, H6, Hin3, Hin2, Hin1.
  split_and!; [done..| | |done|eauto].
  - rewrite H4. unfold s3. rewrite rtkit_upd. cbn. rewrite Hp2. unfold s1. by rewrite rtkit_upd.
  - rewrite Ew, fmap_cons, <- (assoc_L (++)). done.
Qed.

(** ** The bottom half *)

Definition iop_inbox (s : T) : list AppleA7IOPMessage := inbox (box (mboxes (a7iop s)) IOP).

(** The mailboxes are consistent, the host's direction to the co-processor is
    enabled and no read from an empty mailbox is pending. *)
Definition link_ok (s : T) : Prop :=
  a7iop_inv s /\ iop_dir_en (box (mboxes (a7iop s)) AP) = true /\
  underflow (box (mboxes (a7iop s)) IOP) = false.

Lemma delivered_fields msg n : length msg = 16%nat ->
  msg_endpoint (delivered msg n) = msg_endpoint msg /\ msg_data (delivered msg n) = msg_data msg.
Proof.
  intros Hm. do 16 (destruct msg as [|? msg]; [done|]). destruct msg; [|done]. done.
Qed.

Lemma recv_iop_ok s msg rest : link_ok s -> iop_inbox s = msg :: rest ->
  exists msg' a, apple_a7iop_recv_iop s = Done (Some msg', set_a7iop s a) /\
    msg_endpoint msg' = msg_endpoint msg /\ msg_data msg' = msg_data msg /\
    link_ok (set_a7iop s a) /\ iop_inbox (set_a7iop s a) = rest.
Proof.
  intros (Hinv & Hen & Hu) Hin. unfold apple_a7iop_recv_iop, apple_a7iop_mailbox_recv_iop. rewrite Hen.
  pose proof (wf_inbox _ (inv_wf _ Hinv IOP)) as Hlen. unfold iop_inbox in Hin. rewrite Hin in Hlen.
  apply Forall_cons in Hlen as [Hm _].
  destruct (recv_ok (mboxes (a7iop s)) IOP msg rest Hinv Hu Hin) as (p & -> & Hp & Hr & Hu' & Hc).
  run. cbn [fst snd]. eexists _, _. split; [done|].
  destruct (delivered_fields msg (count (box (mboxes (a7iop s)) IOP)) Hm) as [-> ->].
  unfold link_ok, a7iop_inv, iop_inbox. rewrite get_set_a7iop. split_and!; try done.
  specialize (Hc AP ltac:(done)). change (iop_dir_en (core (box p AP)) = true). by rewrite Hc.
Qed.

Lemma not_empty s msg rest : link_ok s -> iop_inbox s = msg :: rest ->
  apple_a7iop_mailbox_is_empty (mboxes (a7iop s)) IOP = false.
Proof.
  intros (_ & _ & Hu) Hin. unfold apple_a7iop_mailbox_is_empty, inbox_empty, iop_inbox in *.
  by rewrite Hu, Hin.
Qed.

(** the bottom half drains the mailbox.  Let [P] be an invariant of the
    device that does not speak about the mailboxes and [Q] a class of messages
    whose handling keeps [P] and puts nothing into the co-processor's mailbox.
    If the mailbox holds messages of that class, the loop ends after one turn
    per message, with the mailbox empty. *)
Theorem rtkit_bh_drains (P : T -> Prop) (Q : Z -> Z -> Prop) s fuel :
  (forall s a, P s -> P (set_a7iop s a)) ->
  (forall s msg, P s -> link_ok s -> Q (msg_endpoint msg) (msg_data msg) ->
     exists s', dispatch s msg = Done s' /\ P s' /\ link_ok s' /\ iop_inbox s' = iop_inbox s) ->
  P s -> link_ok s -> Forall (fun msg => Q (msg_endpoint msg) (msg_data msg)) (iop_inbox s) ->
  (length (iop_inbox s) <= fuel)%nat ->
  exists s', apple_rtkit_handle_messages_bh fuel s = Done s' /\ P s' /\ link_ok s' /\ iop_inbox s' = [].
Proof.
  intros HP Hd. revert s. induction fuel as [|fuel IH]; intros s Hs Hl HQ Hf;
    destruct (iop_inbox s) as [|msg rest] eqn:Hin.
  1, 3: exists s; cbn [apple_rtkit_handle_messages_bh];
    unfold apple_a7iop_mailbox_is_empty, inbox_empty; unfold iop_inbox in Hin; rewrite Hin, orb_true_r; done.
  - cbn in Hf. lia.
  - cbn [apple_rtkit_handle_messages_bh]. rewrite (not_empty s msg rest) by done.
    apply Forall_cons in HQ as [HQ HQ'].
    destruct (recv_iop_ok s msg rest Hl Hin) as (msg' & a & -> & He & Hda & Hl1 & Hin1). run.
    destruct (Hd (set_a7iop s a) msg') as (s2 & -> & Hs2 & Hl2 & Hin2); [by apply HP|done|congruence|]. run.
    apply IH; [done|done|by rewrite Hin2, Hin1|]. rewrite Hin2, Hin1. cbn in Hf. lia.
Qed.

(** ** Which management messages are handled *)

(** Consistent mailboxes and well-formed waiting messages. *)
Definition proto_ok (s : T) : Prop :=
  a7iop_inv s /\ Forall (fun m => length m = 16%nat) (rollcall (rtkit s)).

(** The device's callbacks return and keep that. *)
Definition callbacks_ok : Prop := forall o f g, ops = Some o ->
  In f [rtk_start; rtk_wakeup; boot_done] -> f o = Some g ->
  forall s, proto_ok s -> exists s', g s = Done s' /\ proto_ok s'.

Definition is_resend (msg : Z) : bool :=
  (Mgmt.get msg Mgmt.hello_min_version =? 0xFFFF) && (Mgmt.get msg Mgmt.hello_max_version =? 0xBAD).

(** The messages the protocol has a place for in the state [s]. *)
Definition expected (s : T) (msg : Z) : bool :=
  let type := Mgmt.get msg Mgmt.type_field in
  if type =? MSG_HELLO_ACK then
    (ep0_status (rtkit s) =? EP0_WAIT_HELLO) &&
    (is_resend msg ||
     (if Mgmt.get msg Mgmt.hello_max_version <=? 10
      then forallb (fun k => k <? 64) (iter (endpoints (rtkit s)))
      else bool_decide (rollcall (rtkit s) = [])))
  else if type =? MSG_TYPE_ROLLCALL then ep0_status (rtkit s) =? EP0_WAIT_ROLLCALL
  else true.

Lemma send_proto s msg : proto_ok s -> length msg = 16%nat ->
  exists s', apple_a7iop_send_ap s msg = Done s' /\ proto_ok s'.
Proof.
  intros [Hinv Hl] Hm. unfold apple_a7iop_send_ap, on_boxes, apple_a7iop_mailbox_send_ap.
  destruct (send_dir_ok (mboxes (a7iop s)) AP (ap_dir_en (box (mboxes (a7iop s)) IOP)) msg Hinv Hm)
    as (p & -> & Hp). run.
  eexists. split; [done|]. split; [unfold a7iop_inv; by rewrite get_set_a7iop|].
  unfold set_a7iop, rtkit_a7iop. by rewrite get_set_rtkit.
Qed.

Lemma upd_proto s f : (forall r, parent_obj (f r) = parent_obj r) ->
  (Forall (fun m => length m = 16%nat) (rollcall (rtkit s)) ->
   Forall (fun m => length m = 16%nat) (rollcall (f (rtkit s)))) ->
  proto_ok s -> proto_ok (upd_rtkit s f).
Proof. intros Hp Hq [Hi Hl]. split; [unfold a7iop_inv; by rewrite a7iop_upd|]. rewrite rtkit_upd. auto. Qed.

Lemma call_proto f s : callbacks_ok -> In f [rtk_start; rtk_wakeup; boot_done] -> proto_ok s ->
  exists s', call_rtk_op f s = Done s' /\ proto_ok s'.
Proof.
  intros Hc Hf Hs. unfold call_rtk_op. destruct ops as [o|] eqn:Eo; [|eauto].
  destruct (f o) as [g|] eqn:Eg; cbn [call_op]; [by apply (Hc o f g)|eauto].
Qed.

Lemma send_control_ok s data : proto_ok s ->
  exists s', apple_rtkit_send_control_msg s EP_MANAGEMENT data = Done s' /\ proto_ok s'.
Proof. intros Hs. apply send_proto; [done|apply construct_length]. Qed.

Lemma hello_ok s : proto_ok s -> exists s', apple_rtkit_mgmt_send_hello s = Done s' /\ proto_ok s'.
Proof.
  intros Hs. unfold apple_rtkit_mgmt_send_hello, apple_rtkit_mgmt_send_hello_msg. cbv zeta.
  edestruct (send_control_ok s) as (s1 & -> & Hs1); [done|]. run.
  eexists. split; [done|]. by apply upd_proto.
Qed.

Lemma req_power_ok s ep msg : callbacks_ok -> proto_ok s ->
  exists s', handle_req_power s ep msg = Done s' /\ proto_ok s'.
Proof.
  intros Hc Hs. unfold handle_req_power. cbv zeta.
  assert (forall v, proto_ok (apple_a7iop_set_cpu_status s v)) as Hst.
  { intros v. destruct Hs as [Hi Hl]. split; [apply inv_set_a7iop; exact Hi|].
    unfold apple_a7iop_set_cpu_status, set_a7iop, rtkit_a7iop. by rewrite get_set_rtkit. }
  destruct (_ =? PSTATE_ON).
  - unfold apple_a7iop_cpu_start. destruct (_ && _); [eauto|]. cbv zeta. cbn [apple_rtkit_iop_ops wakeup call_op].
    unfold apple_rtkit_iop_wakeup. edestruct (call_proto rtk_wakeup) as (s1 & -> & Hs1); [done|cbn; auto|apply Hst|].
    run. by apply hello_ok.
  - destruct (_ || _); [|eauto]. apply send_proto; [apply Hst|apply construct_length].
Qed.

Lemma rollcall_ok s ep : callbacks_ok -> proto_ok s -> ep0_status (rtkit s) = EP0_WAIT_ROLLCALL ->
  exists s', handle_rollcall s ep = Done s' /\ proto_ok s'.
Proof.
  intros Hc Hs Hst. unfold handle_rollcall. rewrite Hst, Z.eqb_refl. cbn [c_assert]. run.
  destruct (rollcall (rtkit s)) as [|m rest] eqn:Hq; cbv zeta.
  - edestruct (send_proto (upd_rtkit s (setf ep0_status (fun _ => EP0_IDLE)))) as (s1 & E & Hs1);
      [by apply upd_proto|apply construct_length|]. unfold apple_rtkit_send_msg. rewrite E. run.
    apply call_proto; [done|cbn; auto|done].
  - assert (length m = 16%nat /\ Forall (fun m => length m = 16%nat) rest) as [Hm Hrest].
    { destruct Hs as [_ Hl]. rewrite Hq in Hl. by apply Forall_cons in Hl. }
    apply send_proto; [by apply upd_proto|done].
Qed.

Lemma v10_fold_oob keys : foldl rollcall_v10_step Oob keys = Oob.
Proof. by induction keys. Qed.

Lemma v10_fold keys : forall msg,
  is_done (foldl rollcall_v10_step (mret msg) keys) = forallb (fun k => k <? 64) keys.
Proof.
  induction keys as [|k keys IH]; intros msg; [done|]. cbn [foldl forallb].
  unfold rollcall_v10_step at 2. rewrite bind_mret. destruct (k <? 64); cbn [andb]; [apply IH|].
  by rewrite v10_fold_oob.
Qed.

Lemma rollcall_v10_ok s : proto_ok s ->
  is_done (apple_rtkit_mgmt_rollcall_v10 s) = forallb (fun k => k <? 64) (iter (endpoints (rtkit s))) /\
  forall s', apple_rtkit_mgmt_rollcall_v10 s = Done s' -> proto_ok s'.
Proof.
  intros Hs. unfold apple_rtkit_mgmt_rollcall_v10.
  rewrite <- (v10_fold _ (Mgmt.set 0 Mgmt.type_field MSG_TYPE_ROLLCALL)).
  destruct (foldl _ _ _) as [w| | |]; [|done..]. run.
  destruct (send_control_ok s w Hs) as (s' & -> & Hs'). split; [done|]. by intros ? [= <-].
Qed.

Lemma rollcall_v11_nonempty keys : forall m mask block, rollcall_v11_loop keys m mask block <> [].
Proof. induction keys as [|k keys IH]; intros m mask block; [done|]. cbn. by case_match. Qed.

Lemma rollcall_v11_ok s : proto_ok s ->
  is_done (apple_rtkit_mgmt_rollcall_v11 s) = bool_decide (rollcall (rtkit s) = []) /\
  forall s', apple_rtkit_mgmt_rollcall_v11 s = Done s' -> proto_ok s'.
Proof.
  intros Hs. unfold apple_rtkit_mgmt_rollcall_v11. destruct (bool_decide _); [|done].
  cbn [c_assert]. run. cbv zeta. pose proof (rollcall_v11_nonempty (iter (endpoints (rtkit s))) 0 0 0) as Hne.
  unfold rollcall_v11_words. destruct (rollcall_v11_loop _ _ _ _) as [|w rest]; [done|]. rewrite fmap_cons.
  destruct (send_proto (upd_rtkit s (setf rollcall (fun _ => apple_rtkit_construct_msg EP_MANAGEMENT <$> rest)))
    (apple_rtkit_construct_msg EP_MANAGEMENT w)) as (s' & -> & Hs').
  { apply upd_proto; [done| |done]. intros _. apply Forall_fmap, Forall_forall. intros x _. apply construct_length. }
  { apply construct_length. }
  split; [done|]. by intros ? [= <-].
Qed.

Lemma hello_ack_ok s msg : proto_ok s ->
  is_done (handle_hello_ack s msg) =
    (ep0_status (rtkit s) =? EP0_WAIT_HELLO) &&
    (is_resend msg ||
     (if Mgmt.get msg Mgmt.hello_max_version <=? 10
      then forallb (fun k => k <? 64) (iter (endpoints (rtkit s)))
      else bool_decide (rollcall (rtkit s) = []))) /\
  forall s', handle_hello_ack s msg = Done s' -> proto_ok s'.
Proof.
  intros Hs. unfold handle_hello_ack. destruct (_ =? EP0_WAIT_HELLO); [|done]. cbn [c_assert andb]. run. cbv zeta.
  fold (is_resend msg). destruct (is_resend msg); cbn [orb].
  { unfold apple_rtkit_mgmt_send_hello_msg. cbv zeta.
    edestruct (send_control_ok s) as (s1 & -> & Hs1); [done|]. split; [done|]. by intros s' [= <-]. }
  set (s1 := upd_rtkit s _). assert (proto_ok s1) as Hs1 by (by apply upd_proto).
  assert (endpoints (rtkit s1) = endpoints (rtkit s) /\ rollcall (rtkit s1) = rollcall (rtkit s)) as [<- <-]
    by (unfold s1; by rewrite rtkit_upd).
  destruct (_ <=? 10).
  - destruct (rollcall_v10_ok s1 Hs1) as [<- H2].
    destruct (apple_rtkit_mgmt_rollcall_v10 s1) as [s2| | |]; [|done..]. run. split; [done|].
    intros s' [= <-]. apply upd_proto; [done|done|by apply H2].
  - destruct (rollcall_v11_ok s1 Hs1) as [<- H2].
    destruct (apple_rtkit_mgmt_rollcall_v11 s1) as [s2| | |]; [|done..]. run. split; [done|].
    intros s' [= <-]. apply upd_proto; [done|done|by apply H2].
Qed.

(** C20: the management end point accepts exactly the messages that the protocol
    expects.  A message is handled if and only if it is [expected]: an answer to
    the hello while one is awaited (and, for version 11 and later, with no
    announcement left over from an earlier boot), a roll call request while
    announcements are due, and any message of another type.  Handling keeps the
    mailboxes and the waiting announcements consistent. *)
Theorem rtkit_mgmt_handled_iff s ep msg : callbacks_ok -> proto_ok s ->
  is_done (apple_rtkit_mgmt_handle_msg s ep msg) = expected s msg /\
  forall s', apple_rtkit_mgmt_handle_msg s ep msg = Done s' -> proto_ok s'.
Proof.
  intros Hc Hs. unfold apple_rtkit_mgmt_handle_msg, expected. cbv zeta.
  destruct (_ =? MSG_HELLO_ACK); [by apply hello_ack_ok|].
  assert (forall o : outcome T, (exists s', o = Done s' /\ proto_ok s') ->
    is_done o = true /\ forall s', o = Done s' -> proto_ok s') as Hdone.
  { intros o (s1 & -> & Hs1). split; [done|]. by intros s' [= <-]. }
  destruct (Z.eqb_spec (Mgmt.get msg Mgmt.type_field) MSG_TYPE_ROLLCALL) as [->|Hne].
  - cbn [Z.eqb Pos.eqb MSG_TYPE_ROLLCALL MSG_TYPE_PING MSG_TYPE_AP_POWER MSG_TYPE_REQ_POWER].
    destruct (Z.eqb_spec (ep0_status (rtkit s)) EP0_WAIT_ROLLCALL) as [E|E].
    + by apply Hdone, rollcall_ok.
    + unfold handle_rollcall. by rewrite (proj2 (Z.eqb_neq _ _) E).
  - destruct (_ =? MSG_TYPE_PING); [apply Hdone, send_proto; [done|apply construct_length]|].
    destruct (_ =? MSG_TYPE_AP_POWER); [apply Hdone, send_proto; [done|apply construct_length]|].
    destruct (_ =? MSG_TYPE_REQ_POWER); [by apply Hdone, req_power_ok|]. eauto.
Qed.

Lemma send_keeps_dir p s msg p' : mailboxes_inv p -> length msg = 16%nat ->
  apple_a7iop_mailbox_send p s msg = Done p' -> iop_dir_en (box p' s) = iop_dir_en (box p s).
Proof.
  intros Hp Hm. unfold apple_a7iop_mailbox_send. cbv zeta.
  destruct (inv_update p s (fun b => b <| inbox ::= fun l => l ++ [msg] |>
    <| count ::= fun n => u32 (n + 1) |>) Hp) as (p1 & -> & _ & Hc & _); [done|by apply wf_send|].
  run. intros E. injection E as <-. rewrite box_upd_same. exact (f_equal iop_dir_en Hc).
Qed.

(** Sending to the host leaves the other direction alone. *)
Lemma send_ap_link s msg : link_ok s -> length msg = 16%nat ->
  exists s', apple_a7iop_send_ap s msg = Done s' /\ link_ok s' /\ iop_inbox s' = iop_inbox s /\
    same_protocol s s'.
Proof.
  intros (Hinv & Hen & Hu) Hm. unfold apple_a7iop_send_ap, on_boxes, apple_a7iop_mailbox_send_ap.
  assert (exists p, (if ap_dir_en (box (mboxes (a7iop s)) IOP)
      then apple_a7iop_mailbox_send (mboxes (a7iop s)) AP msg else mret (mboxes (a7iop s))) = Done p /\
    mailboxes_inv p /\ iop_dir_en (box p AP) = true /\ core (box p IOP) = core (box (mboxes (a7iop s)) IOP))
    as (p & -> & Hp & Hen' & Hc).
  { destruct (ap_dir_en _); [|eauto].
    destruct (send_ok (mboxes (a7iop s)) AP msg Hinv Hm) as (p & E & Hp & _ & _ & _ & Hc).
    exists p. split_and!; [done|done| |by apply Hc].
    by rewrite (send_keeps_dir _ _ _ _ Hinv Hm E). }
  run. eexists. split; [done|]. unfold link_ok, a7iop_inv, iop_inbox. rewrite get_set_a7iop.
  split_and!; [done|done| | |eexists; apply get_set_rtkit].
  - change (underflow (core (box p IOP)) = false). by rewrite Hc.
  - change (inbox (core (box p IOP)) = inbox (core (box (mboxes (a7iop s)) IOP))). by rewrite Hc.
Qed.
End RTKit.

#[export] Instance rtkit_alone : HasRTKit AppleRTKit :=
  {| rtkit := fun s => s; set_rtkit := fun _ r => r; get_set_rtkit := fun _ _ => eq_refl |}.

(** A co-processor with end points in two blocks that has sent its hello. *)
Definition map_order (m : gmap Z AppleRTKitEPData) : list Z := (map_to_list m).*1.
Definition example_endpoints : gmap Z AppleRTKitEPData :=
  <[EP_MANAGEMENT := mkEPData (Some HandleMgmt) false]> (<[EP_CRASHLOG := mkEPData None false]>
    (<[37 := mkEPData (Some (HandleDevice 0)) true]> ∅)).
Definition rtkit_example : AppleRTKit :=
  mkRTKit (mkA7IOP (mbox_init "SMC" (Some false)) 0 0) EP0_WAIT_HELLO 0
    example_endpoints [].
Definition no_device (n : nat) (ep msg : Z) (s : AppleRTKit) : outcome AppleRTKit := mret s.

Definition hello_ack_v12 : Z :=
  Mgmt.set (Mgmt.set (Mgmt.set 0 Mgmt.type_field MSG_HELLO_ACK) Mgmt.hello_min_version 11)
    Mgmt.hello_max_version 12.
Definition rollcall_request : Z := Mgmt.set 0 Mgmt.type_field MSG_TYPE_ROLLCALL.
Definition power_request (pstate : Z) : Z :=
  Mgmt.set (Mgmt.set 0 Mgmt.type_field MSG_TYPE_REQ_POWER) Mgmt.power_state pstate.
Definition ping (seg : Z) : Z :=
  Mgmt.set (Mgmt.set 0 Mgmt.type_field MSG_TYPE_PING) Mgmt.ping_seg seg.

Lemma map_order_enumerates : enumerates map_order.
Proof. intros m. done. Qed.

Lemma example_ready : ready rtkit_example.
Proof. split; [apply mbox_init_inv|reflexivity]. Qed.

Lemma rtkit_boot_handshake_witness : exists words s',
  handle_all (T := AppleRTKit) None map_order rtkit_example
    (hello_ack_v12 :: replicate (length words) rollcall_request) = Done s' /\
  ep0_status s' = EP0_IDLE /\
  forall ep, 0 <= ep -> existsb (fun w => announces w ep) words = true <->
    is_Some (endpoints rtkit_example !! ep).
Proof.
  destruct (rtkit_boot_handshake (T := AppleRTKit) None map_order rtkit_example hello_ack_v12 rollcall_request
    map_order_enumerates example_ready eq_refl eq_refl) as (words & s' & H1 & H2 & _ & _ & _ & H6 & _).
  - intros k [d Hd]. change (example_endpoints !! k = Some d) in Hd. unfold example_endpoints in Hd.
    rewrite !lookup_insert_Some, lookup_empty in Hd. unfold EP_MANAGEMENT, EP_CRASHLOG in Hd.
    repeat destruct Hd as [[? _]|[_ Hd]]; [lia..|discriminate Hd].
  - reflexivity.
  - vm_compute. discriminate.
  - vm_compute. discriminate.
  - reflexivity.
  - exists words, s'. split; [exact H1|]. split; [exact H2|exact H6].
Defined.

Lemma ping_dispatched msg s : endpoints (rtkit s) = example_endpoints -> link_ok s ->
  msg_endpoint msg = EP_MANAGEMENT /\ Mgmt.get (msg_data msg) Mgmt.type_field = MSG_TYPE_PING ->
  exists s', dispatch None no_device map_order s msg = Done s' /\
    endpoints (rtkit s') = example_endpoints /\ link_ok s' /\ iop_inbox s' = iop_inbox s.
Proof.
  intros He Hl [Hep Hty]. unfold dispatch. rewrite He, Hep.
  change (example_endpoints !! u16 EP_MANAGEMENT) with (Some (mkEPData (Some HandleMgmt) false)).
  cbn [run_handler]. unfold apple_rtkit_mgmt_handle_msg. cbv zeta. rewrite Hty.
  cbn [Z.eqb Pos.eqb MSG_TYPE_PING MSG_HELLO_ACK].
  edestruct (send_ap_link s) as (s' & E & Hl' & Hin & [a Ha]); [done|apply construct_length|].
  unfold apple_rtkit_send_msg. rewrite E. exists s'. rewrite Ha. by split_and!.
Qed.

(** Sending to the co-processor. *)
Lemma send_iop_ok {T} `{HasRTKit T} (s : T) msg : link_ok s -> length msg = 16%nat ->
  exists s', apple_a7iop_send_iop s msg = Done s' /\ link_ok s' /\ same_protocol s s' /\
    iop_inbox s' = iop_inbox s ++ [msg].
Proof.
  intros (Hinv & Hen & Hu) Hm. unfold apple_a7iop_send_iop, on_boxes, apple_a7iop_mailbox_send_iop. rewrite Hen.
  destruct (send_ok (mboxes (a7iop s)) IOP msg Hinv Hm) as (p & -> & Hp & Hin & Hu' & _ & Hc).
  run. eexists. split; [done|]. unfold link_ok, a7iop_inv, iop_inbox. rewrite get_set_a7iop.
  split; [split_and!|split]; [done| |by rewrite <- Hu|eexists; apply get_set_rtkit|done].
  specialize (Hc AP ltac:(done)). change (iop_dir_en (core (box p AP)) = true). by rewrite Hc.
Qed.

Lemma example_link : link_ok rtkit_example.
Proof. split; [apply mbox_init_inv|done]. Qed.

(** A ping to the management end point is answered and the mailbox drained. *)
Lemma rtkit_bh_drains_witness : exists s s',
  apple_a7iop_send_iop rtkit_example (apple_rtkit_construct_msg EP_MANAGEMENT (ping 7)) = Done s /\
  apple_rtkit_handle_messages_bh None no_device map_order 1 s = Done s' /\ iop_inbox s' = [].
Proof.
  destruct (send_iop_ok rtkit_example (apple_rtkit_construct_msg EP_MANAGEMENT (ping 7))
    example_link (construct_length _ _)) as (s & E & Hl & [a Ha] & Hin).
  exists s. destruct (rtkit_bh_drains None no_device map_order (fun s => endpoints (rtkit s) = example_endpoints)
    (fun ep data => ep = EP_MANAGEMENT /\ Mgmt.get data Mgmt.type_field = MSG_TYPE_PING) s 1)
    as (s' & H1 & _ & _ & H2).
  - intros s0 a0 Hs. exact Hs.
  - intros s0 msg He Hl0 HQ. exact (ping_dispatched msg s0 He Hl0 HQ).
  - rewrite Ha. reflexivity.
  - exact Hl.
  - rewrite Hin. repeat constructor.
  - rewrite Hin. vm_compute. constructor.
  - exists s'. split; [exact E|]. split; [exact H1|exact H2].
Defined.

Lemma rtkit_mgmt_handled_iff_witness :
  is_done (apple_rtkit_mgmt_handle_msg None map_order rtkit_example EP_MANAGEMENT rollcall_request) = false.
Proof.
  refine (proj1 (rtkit_mgmt_handled_iff None map_order rtkit_example EP_MANAGEMENT rollcall_request _ _)).
  - intros o f g Ho. discriminate Ho.
  - split; [apply mbox_init_inv|constructor].
Defined.

(** A host that restarts the co-processor in the middle of the roll call meets
    the assertion that no announcement is left. *)
Lemma rtkit_restart_aborts :
  handle_all None map_order rtkit_example
    [hello_ack_v12; power_request PSTATE_OFF; power_request PSTATE_ON; hello_ack_v12] = Abort.
Proof. vm_compute. reflexivity. Qed.

(** A host that closes its direction while a message waits makes the bottom
    half use a message it was not given. *)
Lemma rtkit_closed_direction :
  match apple_a7iop_send_iop rtkit_example (apple_rtkit_construct_msg EP_MANAGEMENT (ping 7)) with
  | Done s =>
      apple_rtkit_handle_messages_bh None no_device map_order 1
        (set_a7iop s (a7iop s <| mboxes ::= fun p => apple_a7iop_mailbox_set_iop_ctrl p AP 0 |>))
  | _ => Abort
  end = Oob.
Proof. vm_compute. reflexivity. Qed.

(** The mask of the older roll call has 52 bits: end point 57 is not announced. *)
Lemma rtkit_v10_loses_endpoint :
  foldl rollcall_v10_step (mret (Mgmt.set 0 Mgmt.type_field MSG_TYPE_ROLLCALL)) [EP_MANAGEMENT; 57] =
  foldl rollcall_v10_step (mret (Mgmt.set 0 Mgmt.type_field MSG_TYPE_ROLLCALL)) [EP_MANAGEMENT].
Proof. vm_compute. reflexivity. Qed.
