(* ===== verification/CString.v ===== *)
(** * C strings

    The functions of the C library on strings that the emulator uses: a string
    is the list of its bytes without the terminating zero, an array that holds
    one is a list of bytes. *)

From S2P Require Import Prelude.

Abbreviation bytes := (list Z).

(** The bytes of a string literal, without its terminating zero. *)
Definition lit (s : string) : bytes := (fun a => Z.of_N (Ascii.N_of_ascii a)) <$> String.list_ascii_of_string s.

(** ** C strings in arrays *)

(** [strnlen]: the number of bytes before the first zero, at most [n]; reading
    outside the array is [Oob]. *)
Fixpoint strnlen (s : bytes) (n : nat) : outcome Z :=
  match n with
  | O => mret 0
  | S n' =>
      match s with
      | [] => Oob
      | b :: s' => if b =? 0 then mret 0 else k ← strnlen s' n'; mret (k + 1)
      end
  end.

(** The string that starts an array; without a zero it is read past its end. *)
Fixpoint c_string (s : bytes) : outcome bytes :=
  match s with
  | [] => Oob
  | b :: s' => if b =? 0 then mret [] else r ← c_string s'; mret (b :: r)
  end.

(** [strncpy] into a field of [n] bytes: cut or padded with zeros. *)
Definition strncpy (n : nat) (s : bytes) : bytes := take n (s ++ replicate n 0).

(** [strncmp(data, str, n) == 0] for an array [data] of at least [n] bytes and
    a string [str]. *)
Fixpoint strncmp_eq (n : nat) (data str : bytes) : bool :=
  match n with
  | O => true
  | S n' =>
      match data with
      | [] => false
      | a :: data' =>
          match str with
          | [] => a =? 0
          | b :: str' => (a =? b) && strncmp_eq n' data' str'
          end
      end
  end.

(** The tokens that repeated calls of [qemu_strsep] with one delimiter return. *)
Fixpoint strsep_all (delim : Z) (s : bytes) : list bytes :=
  match s with
  | [] => [[]]
  | b :: s' =>
      if b =? delim then [] :: strsep_all delim s'
      else match strsep_all delim s' with
           | t :: ts => (b :: t) :: ts
           | [] => [[b]]
           end
  end.

(** [strcmp(arr, str) == 0] for an array [arr] and a string [str]. *)
Fixpoint strcmp_eq (arr str : bytes) : outcome bool :=
  match arr with
  | [] => Oob
  | a :: arr' =>
      match str with
      | [] => mret (a =? 0)
      | b :: str' => if a =? b then strcmp_eq arr' str' else mret false
      end
  end.

(** What [strncpy(dst, src, n)] stores when [src] is read inside the array
    [src]: the bytes before the first zero, then zeros. *)
Fixpoint strncpy_from (n : nat) (src : bytes) : outcome bytes :=
  match n with
  | O => mret []
  | S n' =>
      match src with
      | [] => Oob
      | b :: src' => if b =? 0 then mret (replicate (S n') 0) else r ← strncpy_from n' src'; mret (b :: r)
      end
  end.

(** The part of a list before the first [c] and the part behind it. *)
Fixpoint split_at (c : Z) (s : bytes) : option (bytes * bytes) :=
  match s with
  | [] => None
  | b :: s' => if b =? c then Some ([], s')
               else match split_at c s' with
                    | Some (p, r) => Some (b :: p, r)
                    | None => None
                    end
  end.

(** The bytes before the first zero, or all of them: what [g_strndup] copies. *)
Fixpoint before_nul (s : bytes) : bytes :=
  match s with
  | [] => []
  | b :: s' => if b =? 0 then [] else b :: before_nul s'
  end.

(** ** Numbers *)

Definition digit_char (d : Z) : Z := if d <? 10 then 48 + d else 87 + d.

Definition digit_value (c : Z) : Z :=
  if (48 <=? c) && (c <=? 57) then c - 48
  else if (97 <=? c) && (c <=? 122) then c - 87
  else if (65 <=? c) && (c <=? 90) then c - 55
  else 255.

(** The digits of [n] in a base, in front of [acc]: the [%u] and [%lx] of
    [printf]. *)
Fixpoint print_digits (base : Z) (fuel : nat) (n : Z) (acc : bytes) : bytes :=
  match fuel with
  | O => acc
  | S fuel' =>
      let acc := digit_char (n mod base) :: acc in
      if n <? base then acc else print_digits base fuel' (n / base) acc
  end.

Definition ULONG_MAX : Z := 2 ^ 64 - 1.

(** The value of the longest prefix of digits. *)
Fixpoint scan_digits (base : Z) (v : Z) (s : bytes) : Z :=
  match s with
  | [] => v
  | c :: s' =>
      if digit_value c <? base then scan_digits base (base * v + digit_value c) s' else v
  end.

Definition is_space (c : Z) : bool := (c =? 32) || ((9 <=? c) && (c <=? 13)).

Fixpoint skip_space (s : bytes) : bytes :=
  match s with
  | c :: s' => if is_space c then skip_space s' else s
  | [] => []
  end.

(** Base 0: [0x] before a hexadecimal digit, else [0], else decimal. *)
Definition scan_base0 (s : bytes) : Z :=
  match s with
  | 48 :: x :: d :: s' =>
      if ((x =? 120) || (x =? 88)) && (digit_value d <? 16) then scan_digits 16 0 (d :: s')
      else scan_digits 8 0 s
  | 48 :: _ => scan_digits 8 0 s
  | _ => scan_digits 10 0 s
  end.

(** [strtoul(s, NULL, 0)]: a value out of range is [ULONG_MAX], a minus sign
    negates the value in [unsigned long]. *)
Definition strtoul (s : bytes) : Z :=
  let s := skip_space s in
  let neg := match s with 45 :: _ => true | _ => false end in
  let s := match s with 45 :: s' => s' | 43 :: s' => s' | _ => s end in
  let v := scan_base0 s in
  if ULONG_MAX <? v then ULONG_MAX else if neg then u64 (- v) else v.

(** ** Lemmas *)

Definition no_nul (s : bytes) : Prop := Forall (fun b => 0 < b < 256) s.

Lemma strcmp_eq_total arr : forall str, (length str < length arr)%nat -> exists b, strcmp_eq arr str = Done b.
Proof.
  induction arr as [|a arr IH]; intros [|b str] H; cbn in *; [lia|lia|eauto|].
  destruct (a =? b); [apply IH; lia|eauto].
Qed.

Lemma strcmp_eq_self s rest : strcmp_eq (s ++ 0 :: rest) s = Done true.
Proof. induction s as [|b s IH]; cbn; [done|]. by rewrite Z.eqb_refl. Qed.

Lemma c_string_app s rest : no_nul s -> c_string (s ++ 0 :: rest) = Done s.
Proof.
  induction 1 as [|b s Hb Hs IH]; cbn; [done|]. rewrite (proj2 (Z.eqb_neq b 0)) by lia.
  by rewrite IH.
Qed.

Lemma strncpy_from_app s n rest : no_nul s ->
  strncpy_from (length s + S n) (s ++ 0 :: rest) = Done (s ++ replicate (S n) 0).
Proof.
  induction 1 as [|b s Hb Hs IH]; cbn; [done|]. rewrite (proj2 (Z.eqb_neq b 0)) by lia.
  by rewrite IH.
Qed.

(** [strncpy] stays inside an array that is long enough or has a zero. *)
Lemma strncpy_from_total n : forall src, (n <= length src)%nat \/ 0 ∈ src ->
  exists r, strncpy_from n src = Done r /\ length r = n.
Proof.
  induction n as [|n IH]; intros src H; [by exists []|]. destruct src as [|b src].
  { destruct H as [H|H]; [cbn in H; lia|by apply not_elem_of_nil in H]. }
  cbn. destruct (Z.eqb_spec b 0).
  - exists (replicate (S n) 0). by rewrite length_replicate.
  - destruct (IH src) as (r & -> & Hr).
    { destruct H as [H|H]; [left; cbn in H; lia|right]. apply elem_of_cons in H as [?|?]; [lia|done]. }
    eexists. split; [done|]. cbn. lia.
Qed.

Lemma split_at_app c s rest : c ∉ s -> split_at c (s ++ c :: rest) = Some (s, rest).
Proof.
  induction s as [|b s IH]; intros H; cbn; [by rewrite Z.eqb_refl|].
  apply not_elem_of_cons in H as [H1 H2]. rewrite (proj2 (Z.eqb_neq b c)) by done. by rewrite IH.
Qed.

Lemma split_at_length c s p r : split_at c s = Some (p, r) -> (length r < length s)%nat.
Proof.
  revert p r. induction s as [|b s IH]; intros p r; cbn; [done|].
  destruct (b =? c); [by intros [= <- <-]; lia|].
  destruct (split_at c s) as [[p' r']|] eqn:E; [|done]. intros [= <- <-]. specialize (IH _ _ eq_refl). lia.
Qed.

Lemma before_nul_id s : no_nul s -> before_nul s = s.
Proof.
  induction 1 as [|b s Hb Hs IH]; cbn; [done|]. rewrite (proj2 (Z.eqb_neq b 0)) by lia. by rewrite IH.
Qed.

Lemma no_nul_not_elem s : no_nul s -> 0 ∉ s.
Proof. intros H Hin. pose proof (proj1 (Forall_forall _ _) H 0 Hin). cbn in *. lia. Qed.

Lemma digit_char_value d : 0 <= d < 36 -> digit_value (digit_char d) = d.
Proof.
  intros Hd. unfold digit_char, digit_value. destruct (Z.ltb_spec d 10); eval_cmp; cbn [andb]; lia.
Qed.

Lemma print_digits_length base fuel : forall n acc,
  (length (print_digits base fuel n acc) <= fuel + length acc)%nat.
Proof.
  induction fuel as [|fuel IH]; intros n acc; cbn [print_digits]; [lia|]. cbv zeta.
  case_match; cbn; [lia|]. etransitivity; [apply IH|]. cbn. lia.
Qed.

(** The digits printed are digits of the base, there is at least one, and they
    are read back. *)
Lemma print_digits_value base fuel : 1 < base <= 36 -> forall n acc, 0 <= n < base ^ Z.of_nat fuel ->
  exists ds, print_digits base fuel n acc = ds ++ acc /\
    Forall (fun c => 48 <= c < 123 /\ digit_value c < base) ds /\ (fuel <> 0%nat -> ds <> []) /\
    foldl (fun v d => base * v + digit_value d) 0 ds = n.
Proof.
  intros Hb. induction fuel as [|fuel IH]; intros n acc Hn; [exists []; cbn in *; split_and!; [done..|lia]|].
  cbn [print_digits]. cbv zeta. pose proof (Z.mod_pos_bound n base ltac:(lia)) as Hm.
  assert (48 <= digit_char (n mod base) < 123 /\ digit_value (digit_char (n mod base)) < base) as Hc.
  { rewrite digit_char_value by lia. unfold digit_char. case_match; lia. }
  destruct (Z.ltb_spec n base).
  - exists [digit_char (n mod base)]. split_and!; [done|by constructor|done|].
    cbn [foldl]. rewrite digit_char_value, Z.mod_small by lia. lia.
  - rewrite Nat2Z.inj_succ, Z.pow_succ_r in Hn by lia.
    destruct (IH (n / base) (digit_char (n mod base) :: acc)) as (ds & -> & Hf & _ & Hds).
    { split; [apply Z.div_pos; lia|apply Z.div_lt_upper_bound; lia]. }
    exists (ds ++ [digit_char (n mod base)]). split_and!; [by rewrite <- (assoc_L (++))| | |].
    + apply Forall_app. split; [done|by constructor].
    + intros _. by destruct ds.
    + rewrite foldl_app, Hds. cbn [foldl]. rewrite digit_char_value by lia. pose proof (Z.div_mod n base). lia.
Qed.

Lemma scan_digits_all base ds : forall v, Forall (fun c => 48 <= c < 123 /\ digit_value c < base) ds ->
  scan_digits base v ds = foldl (fun v d => base * v + digit_value d) v ds.
Proof.
  induction ds as [|c ds IH]; intros v H; [done|]. apply Forall_cons in H as [[_ Hc] H]. cbn [scan_digits foldl].
  rewrite (proj2 (Z.ltb_lt _ _)) by done. by apply IH.
Qed.

(** [asprintf("0x%lx")] *)
Definition print_hex (n : Z) : bytes := 48 :: 120 :: print_digits 16 16 n [].

Lemma strtoul_print_hex n : in_width 64 n -> strtoul (print_hex n) = n.
Proof.
  intros [H0 H]. destruct (print_digits_value 16 16 ltac:(lia) n []) as (ds & E & Hf & Hne & Hv).
  { split; [done|]. by change (16 ^ Z.of_nat 16) with (2 ^ 64). }
  unfold print_hex. rewrite E, app_nil_r. destruct ds as [|d ds]; [by destruct (Hne ltac:(done))|].
  assert (scan_base0 (48 :: 120 :: d :: ds) = n) as Hs.
  { cbn [scan_base0]. change ((120 =? 120) || (120 =? 88)) with true. pose proof (Forall_inv Hf) as [_ Hd].
    rewrite (proj2 (Z.ltb_lt _ _)) by done. cbn [andb]. by rewrite scan_digits_all. }
  unfold strtoul. change (skip_space (48 :: 120 :: d :: ds)) with (48 :: 120 :: d :: ds). cbv beta iota zeta.
  rewrite Hs. unfold ULONG_MAX. by rewrite (proj2 (Z.ltb_ge _ _)) by lia.
Qed.

Lemma print_hex_no_nul n : in_width 64 n -> no_nul (print_hex n).
Proof.
  intros [H0 H]. destruct (print_digits_value 16 16 ltac:(lia) n []) as (ds & E & Hf & _ & _).
  { split; [done|]. by change (16 ^ Z.of_nat 16) with (2 ^ 64). }
  unfold print_hex. rewrite E, app_nil_r. unfold no_nul. repeat (constructor; [lia|]).
  eapply Forall_impl; [exact Hf|]. cbn. lia.
Qed.
