(* ===== verification/Smc.v ===== *)
(** * The system management controller and the buttons

    Models of [hw/misc/apple-silicon/smc.c] and
    [hw/misc/apple-silicon/buttons.c]: a table of keys that the host reads and
    writes with messages to an RTKit end point, some of them served by
    functions, and the device that reports buttons through it. *)

From stdpp Require Import strings.
From S2P Require Import Prelude Bitops CString Mailbox A7iop Rtkit.

(** A multi-character constant. *)
Definition fourcc (s : string) : Z := le_combine (rev (lit s)).

Definition SMC_READ_KEY : Z := 0x10.
Definition SMC_WRITE_KEY : Z := 0x11.
Definition SMC_GET_KEY_BY_INDEX : Z := 0x12.
Definition SMC_GET_KEY_INFO : Z := 0x13.
Definition SMC_GET_SRAM_ADDR : Z := 0x17.
Definition SMC_NOTIFICATION : Z := 0x18.
Definition SMC_READ_KEY_PAYLOAD : Z := 0x20.

Definition SMC_RESULT_SUCCESS : Z := 0.
Definition SMC_RESULT_BAD_COMMAND : Z := 0x82.
Definition SMC_RESULT_KEY_NOT_FOUND : Z := 0x84.
Definition SMC_RESULT_KEY_NOT_READABLE : Z := 0x85.
Definition SMC_RESULT_KEY_NOT_WRITABLE : Z := 0x86.
Definition SMC_RESULT_KEY_SIZE_MISMATCH : Z := 0x87.
Definition SMC_RESULT_BAD_ARGUMENT_ERROR : Z := 0x89.
Definition SMC_RESULT_KEY_INDEX_RANGE_ERROR : Z := 0xB8.
Definition SMC_RESULT_BAD_FUNC_PARAMETER : Z := 0xC0.

Definition SMC_EVENT_SYSTEM_STATE_NOTIFY : Z := 0x70.
Definition SMC_EVENT_HID_EVENT_NOTIFY : Z := 0x72.
Definition SMC_SYSTEM_STATE_NOTIFY_SMC_PANIC_DONE : Z := 0xA.
Definition SMC_SYSTEM_STATE_NOTIFY_SMC_PANIC_PROGRESS : Z := 0x22.
Definition SMC_HID_EVENT_NOTIFY_BUTTON : Z := 1.
Definition kSMCKeyEndpoint : Z := 0.

Definition SMC_ATTR_LE : Z := BIT 2.
Definition SMC_ATTR_FUNC : Z := BIT 4.
Definition SMC_ATTR_W : Z := BIT 6.
Definition SMC_ATTR_R : Z := BIT 7.
Definition SMC_ATTR_RW : Z := SMC_ATTR_R .| SMC_ATTR_W.
Definition SMC_ATTR_RW_LE : Z := SMC_ATTR_RW .| SMC_ATTR_LE.
Definition SMC_ATTR_R_LE : Z := SMC_ATTR_R .| SMC_ATTR_LE.
Definition SMC_ATTR_W_LE : Z := SMC_ATTR_W .| SMC_ATTR_LE.

Inductive AppleSMCHIDButton :=
  | SMC_HID_BUTTON_FORCE_SHUTDOWN
  | SMC_HID_BUTTON_HOLD
  | SMC_HID_BUTTON_VOL_UP
  | SMC_HID_BUTTON_VOL_DOWN
  | SMC_HID_BUTTON_RINGER
  | SMC_HID_BUTTON_HELP
  | SMC_HID_BUTTON_MENU
  | SMC_HID_BUTTON_HELP_DOUBLE
  | SMC_HID_BUTTON_HALL_EFFECT_1
  | SMC_HID_BUTTON_HALL_EFFECT.

#[global] Instance AppleSMCHIDButton_eq_dec : EqDecision AppleSMCHIDButton.
Proof. solve_decision. Defined.

(** The number of a button. *)
Definition button_num (b : AppleSMCHIDButton) : Z :=
  match b with
  | SMC_HID_BUTTON_FORCE_SHUTDOWN => 0
  | SMC_HID_BUTTON_HOLD => 1
  | SMC_HID_BUTTON_VOL_UP => 2
  | SMC_HID_BUTTON_VOL_DOWN => 3
  | SMC_HID_BUTTON_RINGER => 4
  | SMC_HID_BUTTON_HELP => 5
  | SMC_HID_BUTTON_MENU => 6
  | SMC_HID_BUTTON_HELP_DOUBLE => 7
  | SMC_HID_BUTTON_HALL_EFFECT_1 => 8
  | SMC_HID_BUTTON_HALL_EFFECT => 9
  end.

(** The functions keys are registered with, with the object they are given:
    the controller's own, and those that [BUTTON_READER] makes ([pressed] is
    what a button that is down reads as). *)
Inductive SMCKeyFunc :=
  | smc_key_count_read
  | apple_smc_mbse_write
  | apple_smc_sensor_count_read
  | apple_smc_sensor_query_read
  | apple_buttons_smc_read (button : AppleSMCHIDButton) (pressed : bool).

Record SMCKeyInfo := mkInfo {
  size : Z;
  type : Z;
  attr : Z;
}.

Record SMCKey := mkKey {
  info : SMCKeyInfo;
  key : Z;
  is_sensor : bool;
  read : option SMCKeyFunc;
  write : option SMCKeyFunc;
}.

Record SMCKeyData := mkKeyData {
  dkey : Z;
  dsize : Z;
  data : list Z;
}.

Record AppleSMCState := mkSmc {
  smc_rtk : AppleRTKit;
  keys : list SMCKey;
  key_data : list SMCKeyData;
  sram : list Z;
  sram_addr : Z;
  is_booted : bool;
}.
#[global] Instance eta_AppleSMCState : Eta AppleSMCState := fun s =>
  mkSmc (smc_rtk s) (keys s) (key_data s) (sram s) (sram_addr s) (is_booted s).

(** What the controller asks the emulator for. *)
Inductive system_request := Shutdown | Restart | Wakeup.

(** The controller and the buttons, which reach each other. *)
Record Machine := mkMachine {
  smc : AppleSMCState;
  states : Z;
  requests : list system_request;
}.
#[global] Instance eta_Machine : Eta Machine := fun m => mkMachine (smc m) (states m) (requests m).

#[global] Program Instance machine_rtkit : HasRTKit Machine := {|
  rtkit := fun m => smc_rtk (smc m);
  set_rtkit := fun m r => m <| smc ::= fun s => s <| smc_rtk := r |> |>;
|}.
Solve All Obligations with done.

(** ** The table of keys *)

(** The element a counting walk over the list stops at. *)
Definition kth {A} (l : list A) (i : Z) : option A := if i <? zlen l then l !! Z.to_nat i else None.


Fixpoint apple_smc_get_key (ks : list SMCKey) (k : Z) : option SMCKey :=
  match ks with
  | [] => None
  | e :: ks' => if key e =? k then Some e else apple_smc_get_key ks' k
  end.

Fixpoint apple_smc_get_key_data (ds : list SMCKeyData) (k : Z) : option SMCKeyData :=
  match ds with
  | [] => None
  | d :: ds' => if dkey d =? k then Some d else apple_smc_get_key_data ds' k
  end.

(** The buffer of the entry the search finds, changed in place. *)
Fixpoint put_key_data (ds : list SMCKeyData) (k : Z) (bytes : list Z) : list SMCKeyData :=
  match ds with
  | [] => []
  | d :: ds' =>
      if dkey d =? k then mkKeyData (dkey d) (dsize d) bytes :: ds' else d :: put_key_data ds' k bytes
  end.

(** [bytes] is null or a source of at least [sz] bytes. *)
Definition apple_smc_new_key (k sz ty at_ : Z) (bytes : option (list Z)) : outcome (SMCKey * SMCKeyData) :=
  let e := mkKey (mkInfo (u8 sz) (bswap32 ty) (u8 at_)) k false None None in
  match bytes with
  | None => mret (e, mkKeyData k (u8 sz) (replicate (Z.to_nat (u8 sz)) 0))
  | Some b => d ← slice b 0 (u8 sz); mret (e, mkKeyData k (u8 sz) d)
  end.

Definition apple_smc_insert_key (s : AppleSMCState) (e : SMCKey) (d : SMCKeyData) : outcome AppleSMCState :=
  match apple_smc_get_key (keys s) (key e) with
  | Some _ => Abort
  | None => mret (s <| keys ::= fun l => l ++ [e] |> <| key_data ::= fun l => l ++ [d] |>)
  end.

Definition apple_smc_add_key (k sz ty at_ : Z) (bytes : option (list Z)) (s : AppleSMCState) : outcome AppleSMCState :=
  c_assert (negb (nonzero (at_ .& SMC_ATTR_FUNC)));;
  '(e, d) ← apple_smc_new_key k sz ty at_ bytes;
  apple_smc_insert_key s e d.

Definition apple_smc_add_sensor (k sz ty at_ : Z) (bytes : option (list Z)) (s : AppleSMCState) : outcome AppleSMCState :=
  c_assert (negb (nonzero (at_ .& SMC_ATTR_FUNC)));;
  '(e, d) ← apple_smc_new_key k sz ty at_ bytes;
  apple_smc_insert_key s (mkKey (info e) (key e) true (read e) (write e)) d.

Definition apple_smc_add_key_func (k sz ty at_ : Z) (reader writer : option SMCKeyFunc) (s : AppleSMCState)
    : outcome AppleSMCState :=
  c_assert (negb (nonzero (at_ .& (SMC_ATTR_FUNC .| SMC_ATTR_RW))));;
  let at_ := at_ .| SMC_ATTR_FUNC in
  let at_ := match reader with Some _ => at_ .| SMC_ATTR_R | None => at_ end in
  let at_ := match writer with Some _ => at_ .| SMC_ATTR_W | None => at_ end in
  '(e, d) ← apple_smc_new_key k sz ty at_ None;
  apple_smc_insert_key s (mkKey (info e) (key e) (is_sensor e) reader writer) d.

(** ** Messages *)

(** The fields of a request word. *)
Definition msg_byte (msg i : Z) : Z := (msg .>> (8 * i)) .& 0xff.
Definition kmsg_cmd (msg : Z) : Z := msg_byte msg 0.
Definition kmsg_tag_and_id (msg : Z) : Z := msg_byte msg 1.
Definition kmsg_length (msg : Z) : Z := msg_byte msg 2.
Definition kmsg_payload_length (msg : Z) : Z := msg_byte msg 3.
Definition kmsg_key (msg : Z) : Z := (msg .>> 32) .& 0xffffffff.

Record KeyResponse := mkResp {
  status : Z;
  tag_and_id : Z;
  length_ : Z;
  response : list Z;
}.
#[global] Instance eta_KeyResponse : Eta KeyResponse := fun r => mkResp (status r) (tag_and_id r) (length_ r) (response r).

Definition resp_raw (r : KeyResponse) : Z := le_combine ([status r; tag_and_id r; length_ r; 0] ++ response r).

Definition send (m : Machine) (ep : Z) (r : KeyResponse) : outcome Machine := apple_rtkit_send_user_msg m ep (resp_raw r).

Definition apple_smc_send_hid_button (m : Machine) (button : AppleSMCHIDButton) (state : bool) : outcome Machine :=
  if negb (is_booted (smc m)) then mret m
  else send m kSMCKeyEndpoint (mkResp SMC_NOTIFICATION 0 0
         [Z.b2z state; button_num button; SMC_HID_EVENT_NOTIFY_BUTTON; SMC_EVENT_HID_EVENT_NOTIFY]).

(** ** The functions of keys *)

(** [stl_le_p] and [stl_be_p] to the buffer of the key. *)
Definition store_data (m : Machine) (k : Z) (bytes : list Z) : outcome Machine :=
  match apple_smc_get_key_data (key_data (smc m)) k with
  | None => Oob
  | Some d =>
      b ← blit (data d) 0 bytes;
      mret (m <| smc ::= fun s => s <| key_data ::= fun ds => put_key_data ds k b |> |>)
  end.

Definition sensors (ks : list SMCKey) : list SMCKey := List.filter is_sensor ks.

Definition panic_note (what : Z) : KeyResponse := mkResp SMC_NOTIFICATION 0 0 [0; 0; what; SMC_EVENT_SYSTEM_STATE_NOTIFY].

Definition mbse_write (m : Machine) (e : SMCKey) (inp : option (list Z)) (in_length : Z) : outcome (Z * Machine) :=
  match inp with
  | None => mret (SMC_RESULT_BAD_ARGUMENT_ERROR, m)
  | Some b =>
      if negb (in_length =? size (info e)) then mret (SMC_RESULT_BAD_ARGUMENT_ERROR, m)
      else
        v ← slice b 0 4;
        let value := le_combine v in
        if (value =? fourcc "susp") || (value =? fourcc "offw") then
          mret (SMC_RESULT_SUCCESS, m <| requests ::= fun l => l ++ [Shutdown] |>)
        else if value =? fourcc "rest" then
          mret (SMC_RESULT_SUCCESS, m <| requests ::= fun l => l ++ [Restart] |>)
        else if (value =? fourcc "waka") || (value =? fourcc "slpa")
             || (value =? fourcc "slpw") then
          mret (SMC_RESULT_SUCCESS, m)
        else if value =? fourcc "panb" then
          m ← send m kSMCKeyEndpoint (panic_note SMC_SYSTEM_STATE_NOTIFY_SMC_PANIC_PROGRESS);
          mret (SMC_RESULT_SUCCESS, m)
        else if value =? fourcc "pane" then
          m ← send m kSMCKeyEndpoint (panic_note SMC_SYSTEM_STATE_NOTIFY_SMC_PANIC_DONE);
          mret (SMC_RESULT_SUCCESS, m)
        else mret (SMC_RESULT_BAD_FUNC_PARAMETER, m)
  end.

Definition sensor_query_read (m : Machine) (e : SMCKey) (inp : option (list Z)) (in_length : Z) : outcome (Z * Machine) :=
  match inp with
  | None => mret (SMC_RESULT_BAD_ARGUMENT_ERROR, m)
  | Some b =>
      if negb (in_length =? 4) then mret (SMC_RESULT_BAD_ARGUMENT_ERROR, m)
      else
        v ← slice b 0 4;
        match kth (sensors (keys (smc m))) (le_combine v) with
        | Some cur => m ← store_data m (key e) (le_split 4 (key cur)); mret (SMC_RESULT_SUCCESS, m)
        | None => mret (SMC_RESULT_BAD_ARGUMENT_ERROR, m)
        end
  end.

(** The value a button's key is read as. *)
Definition button_value (st : Z) (b : AppleSMCHIDButton) (pressed : bool) : Z :=
  Z.b2z (Bool.eqb (nonzero (st .& BIT (button_num b))) pressed).

Definition run_key_func (f : SMCKeyFunc) (m : Machine) (e : SMCKey) (inp : option (list Z)) (in_length : Z)
    : outcome (Z * Machine) :=
  match f with
  | smc_key_count_read =>
      m ← store_data m (key e) (rev (le_split 4 (zlen (keys (smc m)))));
      mret (SMC_RESULT_SUCCESS, m)
  | apple_smc_mbse_write => mbse_write m e inp in_length
  | apple_smc_sensor_count_read =>
      m ← store_data m (key e) (le_split 4 (zlen (sensors (keys (smc m)))));
      mret (SMC_RESULT_SUCCESS, m)
  | apple_smc_sensor_query_read => sensor_query_read m e inp in_length
  | apple_buttons_smc_read b pressed =>
      m ← store_data m (key e) (le_split 4 (button_value (states m) b pressed));
      mret (SMC_RESULT_SUCCESS, m)
  end.

(** ** The end point *)

(** [apple_smc_key_read]: the bytes it copies to its destination. *)
Definition apple_smc_key_read (e : SMCKey) (d : SMCKeyData) (sz : Z) : outcome (Z * list Z) :=
  if sz <? size (info e) then mret (SMC_RESULT_KEY_SIZE_MISMATCH, [])
  else b ← slice (data d) 0 (size (info e)); mret (SMC_RESULT_SUCCESS, b).

Definition upd_sram (m : Machine) (bytes : list Z) : outcome Machine :=
  b ← blit (sram (smc m)) 0 bytes; mret (m <| smc ::= fun s => s <| sram := b |> |>).

Definition handle_read (m : Machine) (msg : Z) (r : KeyResponse) : outcome (KeyResponse * Machine) :=
  match apple_smc_get_key (keys (smc m)) (kmsg_key msg) with
  | None => mret (r <| status := SMC_RESULT_KEY_NOT_FOUND |>, m)
  | Some e =>
      if nonzero (attr (info e) .& SMC_ATTR_R) then
        '(st, m) ← (match read e with
                    | Some f => run_key_func f m e (if kmsg_payload_length msg =? 0 then None else Some (sram (smc m)))
                                  (kmsg_payload_length msg)
                    | None => mret (SMC_RESULT_SUCCESS, m)
                    end);
        if st =? SMC_RESULT_SUCCESS then
          match apple_smc_get_key_data (key_data (smc m)) (kmsg_key msg) with
          | None => Oob
          | Some d =>
              '(st, b) ← apple_smc_key_read e d (kmsg_length msg);
              if st =? SMC_RESULT_SUCCESS then
                let r := r <| status := st |> <| length_ := size (info e) |> in
                if size (info e) <=? 4 then
                  b ← blit (response r) 0 b; mret (r <| response := b |>, m)
                else m ← upd_sram m b; mret (r, m)
              else mret (r <| status := st |>, m)
          end
        else mret (r <| status := st |>, m)
      else mret (r <| status := SMC_RESULT_KEY_NOT_READABLE |>, m)
  end.

Definition handle_write (m : Machine) (msg : Z) (r : KeyResponse) : outcome (KeyResponse * Machine) :=
  match apple_smc_get_key (keys (smc m)) (kmsg_key msg) with
  | None => mret (r <| status := SMC_RESULT_KEY_NOT_FOUND |>, m)
  | Some e =>
      if nonzero (attr (info e) .& SMC_ATTR_W) then
        if negb (size (info e) =? kmsg_length msg) then mret (r <| status := SMC_RESULT_KEY_SIZE_MISMATCH |>, m)
        else
          '(st, m) ← (match write e with
                      | Some f => run_key_func f m e (if kmsg_length msg =? 0 then None else Some (sram (smc m)))
                                    (kmsg_length msg)
                      | None =>
                          b ← slice (sram (smc m)) 0 (kmsg_length msg);
                          m ← store_data m (kmsg_key msg) b;
                          mret (SMC_RESULT_SUCCESS, m)
                      end);
          mret (if st =? SMC_RESULT_SUCCESS then r <| status := st |> <| length_ := size (info e) |>
                else r <| status := st |>, m)
      else mret (r <| status := SMC_RESULT_KEY_NOT_WRITABLE |>, m)
  end.

(** [SMCKeyInfo] is packed. *)
Definition info_bytes (i : SMCKeyInfo) : list Z := [size i] ++ le_split 4 (type i) ++ [attr i].

Definition apple_smc_handle_key_endpoint (m : Machine) (ep msg : Z) : outcome Machine :=
  let r := mkResp 0 (kmsg_tag_and_id msg) 0 [0; 0; 0; 0] in
  let cmd := kmsg_cmd msg in
  if cmd =? SMC_GET_SRAM_ADDR then apple_rtkit_send_user_msg m ep (sram_addr (smc m))
  else if (cmd =? SMC_READ_KEY) || (cmd =? SMC_READ_KEY_PAYLOAD) then
    '(r, m) ← handle_read m msg r; send m ep r
  else if cmd =? SMC_WRITE_KEY then
    '(r, m) ← handle_write m msg r; send m ep r
  else if cmd =? SMC_GET_KEY_BY_INDEX then
    send m ep (match kth (keys (smc m)) (kmsg_key msg) with
               | None => r <| status := SMC_RESULT_KEY_INDEX_RANGE_ERROR |>
               | Some e => r <| response := le_split 4 (key e) |>
               end)
  else if cmd =? SMC_GET_KEY_INFO then
    match apple_smc_get_key (keys (smc m)) (kmsg_key msg) with
    | None => send m ep (r <| status := SMC_RESULT_KEY_NOT_FOUND |>)
    | Some e => m ← upd_sram m (info_bytes (info e)); send m ep r
    end
  else send m ep (r <| status := SMC_RESULT_BAD_COMMAND |>).

(** The one handler of the device. *)
Definition smc_handler (n : nat) (ep msg : Z) (m : Machine) : outcome Machine := apple_smc_handle_key_endpoint m ep msg.

Definition apple_smc_boot_done (m : Machine) : outcome Machine := mret (m <| smc ::= fun s => s <| is_booted := true |> |>).
Definition apple_smc_rtkit_ops : AppleRTKitOps Machine := mkRTKitOps None None (Some apple_smc_boot_done).

(** The hold phase that is run is the one saved by RTKit's class, that is the
    co-processor's and not RTKit's own. *)
Definition apple_smc_reset_hold (m : Machine) : Machine :=
  let m := apple_a7iop_reset m in
  m <| smc ::= fun s => s <| sram := replicate (length (sram s)) 0 |> <| is_booted := false |> |>.

(** ** Creation *)

Definition SMC_KEY_TYPE_FLAG : Z := fourcc "flag".
Definition SMC_KEY_TYPE_HEX : Z := fourcc "hex_".
Definition SMC_KEY_TYPE_SINT8 : Z := fourcc "si8 ".
Definition SMC_KEY_TYPE_SINT16 : Z := fourcc "si16".
Definition SMC_KEY_TYPE_SINT32 : Z := fourcc "si32".
Definition SMC_KEY_TYPE_UINT8 : Z := fourcc "ui8 ".
Definition SMC_KEY_TYPE_UINT16 : Z := fourcc "ui16".
Definition SMC_KEY_TYPE_UINT32 : Z := fourcc "ui32".
Definition SMC_KEY_TYPE_CLH : Z := fourcc "{clh".
Definition SMC_KEY_TYPE_IOFLT : Z := fourcc "ioft".

Definition batt_max_capacity : Z := 31337.
(** The products with 0.98 and 0.69 are cut to integers. *)
Definition batt_full_charge_capacity : Z := batt_max_capacity * 98 / 100.
Definition batt_current_capacity : Z := batt_full_charge_capacity * 69 / 100.

(** The calls that fill the table, in the order of the source. *)
Definition smc_keys : list (AppleSMCState -> outcome AppleSMCState) :=
  [apple_smc_add_key_func (fourcc "#KEY") 4 SMC_KEY_TYPE_UINT32 0 (Some smc_key_count_read) None;
      apple_smc_add_key (fourcc "CLKH") 8 SMC_KEY_TYPE_CLH SMC_ATTR_RW_LE (Some [0x40; 0x19; 0x01; 0x00; 0x80; 0x70; 0x00; 0x00]);
      apple_smc_add_key (fourcc "RGEN") 1 SMC_KEY_TYPE_UINT8 SMC_ATTR_R (Some [3; 0x19; 0x01; 0x00; 0x80; 0x70; 0x00; 0x00]);
      apple_smc_add_key_func (fourcc "MBSE") 4 SMC_KEY_TYPE_HEX SMC_ATTR_LE None (Some apple_smc_mbse_write);
      apple_smc_add_key (fourcc "LGPB") 1 SMC_KEY_TYPE_FLAG SMC_ATTR_RW None;
      apple_smc_add_key (fourcc "LGPE") 1 SMC_KEY_TYPE_FLAG SMC_ATTR_RW None;
      apple_smc_add_key (fourcc "NESN") 4 SMC_KEY_TYPE_HEX SMC_ATTR_W_LE None;
      apple_smc_add_key (fourcc "AC-N") 1 SMC_KEY_TYPE_UINT8 SMC_ATTR_R (Some (le_split 1 1));
      apple_smc_add_key (fourcc "B0AP") 4 SMC_KEY_TYPE_SINT32 SMC_ATTR_R_LE None;
      apple_smc_add_key (fourcc "AC-W") 1 SMC_KEY_TYPE_SINT8 SMC_ATTR_R (Some (le_split 1 1));
      apple_smc_add_key (fourcc "CHAI") 4 SMC_KEY_TYPE_UINT32 SMC_ATTR_R_LE None;
      apple_smc_add_sensor (fourcc "VP0u") 8 SMC_KEY_TYPE_IOFLT SMC_ATTR_R_LE None;
      apple_smc_add_sensor (fourcc "TP0Z") 8 SMC_KEY_TYPE_IOFLT SMC_ATTR_R_LE None]
  ++ ((fun i => apple_smc_add_sensor (fourcc "TP0d" + (i .<< 8)) 8 SMC_KEY_TYPE_IOFLT SMC_ATTR_R_LE None) <$> seqZ 0 6)
  ++ ((fun i => apple_smc_add_sensor (fourcc "TP0b" + (i .<< 8)) 8 SMC_KEY_TYPE_IOFLT SMC_ATTR_R_LE None) <$> seqZ 1 8)
  ++ ((fun i => apple_smc_add_sensor (fourcc "TV0s" + (i .<< 8)) 8 SMC_KEY_TYPE_IOFLT SMC_ATTR_R_LE None) <$> seqZ 0 6)
  ++ [apple_smc_add_sensor (fourcc "IQ0u") 8 SMC_KEY_TYPE_IOFLT SMC_ATTR_R_LE None;
      apple_smc_add_sensor (fourcc "QQ0u") 8 SMC_KEY_TYPE_IOFLT SMC_ATTR_R_LE None;
      apple_smc_add_sensor (fourcc "TQ0d") 8 SMC_KEY_TYPE_IOFLT SMC_ATTR_R_LE None;
      apple_smc_add_sensor (fourcc "TQ0j") 8 SMC_KEY_TYPE_IOFLT SMC_ATTR_R_LE None;
      apple_smc_add_sensor (fourcc "VQ0l") 8 SMC_KEY_TYPE_IOFLT SMC_ATTR_R_LE None]
  ++ ((fun i => apple_smc_add_sensor (fourcc "VQ0u" + (i .<< 8)) 8 SMC_KEY_TYPE_IOFLT SMC_ATTR_R_LE None) <$> seqZ 0 2)
  ++ [apple_smc_add_sensor (fourcc "WQ0u") 8 SMC_KEY_TYPE_IOFLT SMC_ATTR_R_LE None;
      apple_smc_add_sensor (fourcc "VQDD") 8 SMC_KEY_TYPE_IOFLT SMC_ATTR_R_LE None;
      apple_smc_add_sensor (fourcc "TG0B") 8 SMC_KEY_TYPE_IOFLT SMC_ATTR_R_LE None;
      apple_smc_add_sensor (fourcc "TG0C") 8 SMC_KEY_TYPE_IOFLT SMC_ATTR_R_LE None;
      apple_smc_add_sensor (fourcc "TG0H") 8 SMC_KEY_TYPE_IOFLT SMC_ATTR_R_LE None;
      apple_smc_add_sensor (fourcc "TG0V") 8 SMC_KEY_TYPE_IOFLT SMC_ATTR_R_LE None;
      apple_smc_add_sensor (fourcc "Tarc") 8 SMC_KEY_TYPE_IOFLT SMC_ATTR_R_LE None;
      apple_smc_add_key (fourcc "D0VR") 2 SMC_KEY_TYPE_UINT16 SMC_ATTR_R_LE None;
      apple_smc_add_key (fourcc "D1VR") 2 SMC_KEY_TYPE_UINT16 SMC_ATTR_R_LE None;
      apple_smc_add_key (fourcc "D2VR") 2 SMC_KEY_TYPE_UINT16 SMC_ATTR_R_LE None;
      apple_smc_add_key (fourcc "BHTL") 1 SMC_KEY_TYPE_FLAG SMC_ATTR_RW_LE None;
      apple_smc_add_key (fourcc "BFS0") 1 SMC_KEY_TYPE_UINT8 SMC_ATTR_R_LE (Some (le_split 1 0));
      apple_smc_add_key (fourcc "B0CT") 2 SMC_KEY_TYPE_UINT16 SMC_ATTR_R_LE (Some (le_split 2 7));
      apple_smc_add_key (fourcc "B0TF") 2 SMC_KEY_TYPE_UINT16 SMC_ATTR_R_LE (Some (le_split 2 0xffff));
      apple_smc_add_key (fourcc "B0CM") 2 SMC_KEY_TYPE_UINT16 SMC_ATTR_R_LE (Some (le_split 2 batt_max_capacity));
      apple_smc_add_key (fourcc "B0FC") 2 SMC_KEY_TYPE_UINT16 SMC_ATTR_R_LE (Some (le_split 2 batt_full_charge_capacity));
      apple_smc_add_key (fourcc "B0UC") 2 SMC_KEY_TYPE_UINT16 SMC_ATTR_R_LE (Some (le_split 2 batt_current_capacity));
      apple_smc_add_key (fourcc "B0RM") 2 SMC_KEY_TYPE_UINT16 SMC_ATTR_R_LE (Some (le_split 2 (batt_full_charge_capacity - batt_current_capacity)));
      apple_smc_add_key (fourcc "B0FV") 4 SMC_KEY_TYPE_HEX SMC_ATTR_R_LE (Some (le_split 4 0x201));
      apple_smc_add_key (fourcc "BDD1") 1 SMC_KEY_TYPE_UINT8 SMC_ATTR_R_LE (Some (le_split 1 0x19));
      apple_smc_add_key (fourcc "UB0C") 1 SMC_KEY_TYPE_UINT8 SMC_ATTR_W_LE None;
      apple_smc_add_key (fourcc "BNCB") 1 SMC_KEY_TYPE_UINT8 SMC_ATTR_R_LE (Some (le_split 1 1));
      apple_smc_add_key (fourcc "BC1V") 2 SMC_KEY_TYPE_UINT16 SMC_ATTR_R_LE (Some (le_split 2 4200));
      apple_smc_add_key (fourcc "BC2V") 2 SMC_KEY_TYPE_UINT16 SMC_ATTR_R_LE (Some (le_split 2 4200));
      apple_smc_add_key (fourcc "BC3V") 2 SMC_KEY_TYPE_UINT16 SMC_ATTR_R_LE (Some (le_split 2 4200));
      apple_smc_add_key (fourcc "BC4V") 2 SMC_KEY_TYPE_UINT16 SMC_ATTR_R_LE (Some (le_split 2 4200));
      apple_smc_add_key (fourcc "B0DC") 2 SMC_KEY_TYPE_UINT16 SMC_ATTR_R_LE (Some (le_split 2 0xEF13));
      apple_smc_add_key (fourcc "B0BL") 2 SMC_KEY_TYPE_UINT16 SMC_ATTR_R_LE None;
      apple_smc_add_key (fourcc "B0CA") 2 SMC_KEY_TYPE_UINT16 SMC_ATTR_R_LE None;
      apple_smc_add_key (fourcc "B0NC") 2 SMC_KEY_TYPE_UINT16 SMC_ATTR_R_LE None;
      apple_smc_add_key (fourcc "B0IV") 2 SMC_KEY_TYPE_SINT16 SMC_ATTR_R_LE None;
      apple_smc_add_key (fourcc "B0AC") 2 SMC_KEY_TYPE_SINT16 SMC_ATTR_R_LE (Some (le_split 2 0));
      apple_smc_add_key (fourcc "B0AV") 2 SMC_KEY_TYPE_UINT16 SMC_ATTR_R_LE (Some (le_split 2 4200));
      apple_smc_add_key (fourcc "CHNC") 8 SMC_KEY_TYPE_HEX SMC_ATTR_R_LE (Some (le_split 8 1));
      apple_smc_add_key (fourcc "CHAS") 4 SMC_KEY_TYPE_UINT32 SMC_ATTR_R_LE None;
      apple_smc_add_key (fourcc "CHA1") 4 SMC_KEY_TYPE_UINT32 SMC_ATTR_R_LE None;
      apple_smc_add_key (fourcc "WADI") 1 SMC_KEY_TYPE_UINT8 SMC_ATTR_R_LE (Some (le_split 1 1));
      apple_smc_add_key_func (fourcc "aDC#") 4 SMC_KEY_TYPE_HEX SMC_ATTR_LE (Some apple_smc_sensor_count_read) None;
      apple_smc_add_key_func (fourcc "aDC?") 4 SMC_KEY_TYPE_HEX SMC_ATTR_LE (Some apple_smc_sensor_query_read) None].

(** [l] is applied in order. *)
Definition add_keys (l : list (AppleSMCState -> outcome AppleSMCState)) (s : AppleSMCState) : outcome AppleSMCState :=
  foldl (fun o f => o ≫= f) (mret s) l.

(** [r] is the RTKit after [apple_a7iop_init], [ram] the memory the SRAM is
    allocated from, [where] its address. *)
Definition apple_smc_create (r : AppleRTKit) (ram : list Z) (where_ : Z) : outcome Machine :=
  c_assert (zlen ram <=? 0xffffffff);;
  m ← apple_rtkit_init (mkMachine (mkSmc r [] [] ram where_ false) 0 []);
  m ← apple_rtkit_register_user_ep m kSMCKeyEndpoint (Some (HandleDevice 0));
  s ← add_keys smc_keys (smc m);
  mret (m <| smc := s |>).

(** ** Buttons *)

Inductive QKeyCode := F1 | F2 | F3 | F4 | F5 | F6 | F7 | F8 | F9 | F10 | OtherKey.

Definition apple_buttons_create (m : Machine) : outcome Machine :=
  s ← add_keys
    [apple_smc_add_key_func (fourcc "bVUP") 4 SMC_KEY_TYPE_UINT32 SMC_ATTR_LE
       (Some (apple_buttons_smc_read SMC_HID_BUTTON_VOL_UP false)) None;
     apple_smc_add_key_func (fourcc "bVDN") 4 SMC_KEY_TYPE_UINT32 SMC_ATTR_LE
       (Some (apple_buttons_smc_read SMC_HID_BUTTON_VOL_DOWN false)) None;
     apple_smc_add_key_func (fourcc "bHLD") 4 SMC_KEY_TYPE_UINT32 SMC_ATTR_LE
       (Some (apple_buttons_smc_read SMC_HID_BUTTON_HOLD false)) None;
     apple_smc_add_key_func (fourcc "bRIN") 4 SMC_KEY_TYPE_UINT32 SMC_ATTR_LE
       (Some (apple_buttons_smc_read SMC_HID_BUTTON_RINGER true)) None;
     apple_smc_add_key (fourcc "bPHD") 1 SMC_KEY_TYPE_FLAG SMC_ATTR_R (Some [1])] (smc m);
  mret (m <| smc := s |> <| states := 0 |>).

Definition apple_buttons_qdev_reset_hold (m : Machine) : Machine := m <| states := 0 |>.

(** The button of a key; the ringer switch is not a push button. *)
Definition key_button (k : QKeyCode) : option AppleSMCHIDButton :=
  match k with
  | F1 => Some SMC_HID_BUTTON_FORCE_SHUTDOWN
  | F2 => Some SMC_HID_BUTTON_RINGER
  | F3 => Some SMC_HID_BUTTON_VOL_DOWN
  | F4 => Some SMC_HID_BUTTON_VOL_UP
  | F5 => Some SMC_HID_BUTTON_HOLD
  | F6 => Some SMC_HID_BUTTON_MENU
  | F7 => Some SMC_HID_BUTTON_HELP
  | F8 => Some SMC_HID_BUTTON_HELP_DOUBLE
  | F9 => Some SMC_HID_BUTTON_HALL_EFFECT_1
  | F10 => Some SMC_HID_BUTTON_HALL_EFFECT
  | OtherKey => None
  end.

Definition set_state (st : Z) (b : AppleSMCHIDButton) (down : bool) : Z :=
  u16 (if down then st .| BIT (button_num b) else st .&~ BIT (button_num b)).

Definition is_down (st : Z) (b : AppleSMCHIDButton) : bool := nonzero (st .& BIT (button_num b)).

Definition apple_buttons_handle_event (m : Machine) (k : QKeyCode) (down : bool) : outcome Machine :=
  let m := m <| requests ::= fun l => l ++ [Wakeup] |> in
  match key_button k with
  | None => mret m
  | Some b =>
      if bool_decide (b = SMC_HID_BUTTON_RINGER) then
        if down then
          let m := m <| states := set_state (states m) b (negb (is_down (states m) b)) |> in
          apple_smc_send_hid_button m b (is_down (states m) b)
        else mret m
      else if negb (Bool.eqb (is_down (states m) b) down) then
        apple_smc_send_hid_button (m <| states := set_state (states m) b down |>) b down
      else mret m
  end.

(** Loading a snapshot: every stored buffer has a key of its size, every key a
    buffer. *)
Definition vmstate_apple_smc_post_load (s : AppleSMCState) : Z :=
  if forallb (fun d => match apple_smc_get_key (keys s) (dkey d) with
                       | Some e => size (info e) =? dsize d
                       | None => false
                       end) (key_data s) then
    if forallb (fun e => match apple_smc_get_key_data (key_data s) (key e) with Some _ => true | None => false end) (keys s)
    then 0 else -1
  else -1.

(** ** The table's invariant *)

Record key_ok (e : SMCKey) (d : SMCKeyData) : Prop := {
  ko_key : dkey d = key e;
  ko_size : dsize d = size (info e);
  ko_data : zlen (data d) = size (info e);
  ko_width : in_width 8 (size (info e));
  ko_attr : in_width 8 (attr (info e));
  ko_name : in_width 32 (key e);
  ko_bytes : Forall (in_width 8) (data d);
  ko_func : read e <> None \/ write e <> None -> size (info e) = 4;
}.

Record smc_ok (m : Machine) : Prop := {
  so_keys : NoDup (key <$> keys (smc m));
  so_data : Forall2 key_ok (keys (smc m)) (key_data (smc m));
  so_sram : 256 <= zlen (sram (smc m));
  so_bytes : Forall (in_width 8) (sram (smc m));
}.

Lemma get_key_data_ok ks ds k e : Forall2 key_ok ks ds -> apple_smc_get_key ks k = Some e ->
  exists d, apple_smc_get_key_data ds k = Some d /\ key_ok e d /\ key e = k.
Proof.
  induction 1 as [|e' d ks ds Hk _ IH]; cbn [apple_smc_get_key apple_smc_get_key_data]; [done|].
  rewrite (ko_key _ _ Hk). destruct (Z.eqb_spec (key e') k) as [<-|]; [|done].
  intros [= <-]. by exists d.
Qed.

Lemma put_key_data_ok ks ds k e b : Forall2 key_ok ks ds -> apple_smc_get_key ks k = Some e ->
  zlen b = size (info e) -> Forall (in_width 8) b ->
  Forall2 key_ok ks (put_key_data ds k b) /\
  apple_smc_get_key_data (put_key_data ds k b) k = Some (mkKeyData k (size (info e)) b).
Proof.
  intros Hall He Hz Hb. revert He. induction Hall as [|e' d ks ds Hk Hall IH]; [done|].
  cbn [apple_smc_get_key put_key_data]. rewrite (ko_key _ _ Hk).
  destruct (Z.eqb_spec (key e') k) as [<-|Hne].
  - intros [= <-]. cbn [apple_smc_get_key_data dkey]. rewrite Z.eqb_refl, (ko_size _ _ Hk). split; [|done].
    constructor; [|done]. destruct Hk. by split.
  - intros He. destruct (IH He) as [IH1 IH2]. cbn [apple_smc_get_key_data]. rewrite (ko_key _ _ Hk).
    rewrite (proj2 (Z.eqb_neq (key e') k)) by done. split; [by constructor|done].
Qed.

Lemma store_data_ok m k e b : smc_ok m -> apple_smc_get_key (keys (smc m)) k = Some e ->
  zlen b <= size (info e) -> Forall (in_width 8) b ->
  exists b', store_data m k b = Done (m <| smc ::= fun s => s <| key_data ::= fun ds => put_key_data ds k b' |> |>) /\
    zlen b' = size (info e) /\ Forall (in_width 8) b' /\ (zlen b = size (info e) -> b' = b).
Proof.
  intros Hm He Hz Hb. destruct (get_key_data_ok _ _ _ _ (so_data _ Hm) He) as (d & Hd & Hk & Hkey).
  unfold store_data. rewrite Hd. pose proof (ko_data _ _ Hk) as Hlen.
  rewrite blit_front by lia. run.
  eexists. split; [done|]. unfold zlen in *. split; [|split].
  - rewrite length_app, length_drop. lia.
  - apply Forall_app. split; [done|]. apply Forall_drop, Hk.
  - intros Heq. rewrite drop_ge by lia. apply app_nil_r.
Qed.

Lemma smc_ok_data m k e b : smc_ok m -> apple_smc_get_key (keys (smc m)) k = Some e ->
  zlen b = size (info e) -> Forall (in_width 8) b ->
  smc_ok (m <| smc ::= fun s => s <| key_data ::= fun ds => put_key_data ds k b |> |>).
Proof.
  intros [H1 H2 H3 H4] He Hz Hb. split; [done| |done|done]. cbn.
  by destruct (put_key_data_ok _ _ _ _ _ H2 He Hz Hb).
Qed.

Lemma upd_sram_ok m b : smc_ok m -> zlen b <= 256 -> Forall (in_width 8) b ->
  exists ram, upd_sram m b = Done (m <| smc ::= fun s => s <| sram := ram |> |>) /\
    smc_ok (m <| smc ::= fun s => s <| sram := ram |> |>) /\ zlen ram = zlen (sram (smc m)) /\
    take (length b) ram = b.
Proof.
  intros [H1 H2 H3 H4] Hz Hb. unfold upd_sram. rewrite blit_front by lia. run. unfold zlen in *.
  eexists. split; [done|]. split; [split; cbn; try done|split].
  - unfold zlen. rewrite length_app, length_drop. lia.
  - apply Forall_app. split; [done|by apply Forall_drop].
  - rewrite length_app, length_drop. lia.
  - by rewrite take_app_length.
Qed.

(** ** Answers *)

Definition answer (w : Z) : AppleA7IOPMessage := apple_rtkit_construct_msg EP_USER_START w.

(** The table is consistent and the way to the host is open. *)
Record live (m : Machine) : Prop := {
  lv_ok : smc_ok m;
  lv_ready : ready m;
}.

Lemma send_raw_ok m w : live m ->
  exists m', apple_rtkit_send_user_msg m kSMCKeyEndpoint w = Done m' /\ live m' /\
    ap_inbox m' = ap_inbox m ++ [answer w] /\ exists r, m' = set_rtkit m r /\ endpoints r = endpoints (rtkit m).
Proof.
  intros [Hok Hr]. unfold apple_rtkit_send_user_msg. change (c_assert (kSMCKeyEndpoint <? 256 - EP_USER_START)) with (Done tt).
  run. change (u8 (kSMCKeyEndpoint + EP_USER_START)) with EP_USER_START.
  destruct (send_ap_ok m (answer w) Hr (construct_length _ _)) as (m' & E & Hr' & _ & Hin).
  unfold apple_rtkit_send_msg. fold (answer w). rewrite E. exists m'. split; [done|].
  assert (exists a, m' = set_a7iop m a) as [a ->].
  { unfold apple_a7iop_send_ap, on_boxes in E. apply bind_Done_inv in E as (p & _ & [= <-]). by eexists. }
  split; [by split; [destruct Hok; split|]|]. split; [done|]. eexists. split; [done|]. done.
Qed.

(** From [m] to [m'] the words [notes] were sent; the keys, the size of the SRAM
    and the end points are as they were. *)
Record talked (m m' : Machine) (notes : list Z) : Prop := {
  tk_live : live m';
  tk_keys : keys (smc m') = keys (smc m);
  tk_sram : zlen (sram (smc m')) = zlen (sram (smc m));
  tk_inbox : ap_inbox m' = ap_inbox m ++ (answer <$> notes);
  tk_endpoints : endpoints (rtkit m') = endpoints (rtkit m);
}.

Lemma talked_refl m : live m -> talked m m [].
Proof. intros. split; try done. by rewrite app_nil_r. Qed.

Lemma talked_trans m1 m2 m3 n1 n2 : talked m1 m2 n1 -> talked m2 m3 n2 -> talked m1 m3 (n1 ++ n2).
Proof. intros [] []. split; try congruence. by rewrite tk_inbox1, tk_inbox0, fmap_app, (assoc_L (++)). Qed.

Lemma send_talked m r : live m -> exists m', send m kSMCKeyEndpoint r = Done m' /\ talked m m' [resp_raw r].
Proof.
  intros Hm. destruct (send_raw_ok m (resp_raw r) Hm) as (m' & E & Hl & Hin & rt & -> & Hep).
  eexists. split; [exact E|]. by split.
Qed.

(** A change of the machine that is not in its mailboxes. *)
Lemma quiet_talked m m' : live m -> smc_ok m' -> rtkit m' = rtkit m -> keys (smc m') = keys (smc m) ->
  zlen (sram (smc m')) = zlen (sram (smc m)) -> talked m m' [].
Proof.
  intros [Hok Hr] Hok' Ht Hk Hs. unfold ready, a7iop_inv, ap_inbox in *.
  assert (Ha : a7iop m' = a7iop m) by (change (parent_obj (rtkit m') = parent_obj (rtkit m)); by rewrite Ht).
  split; try done; [split; [done|unfold ready, a7iop_inv; by rewrite Ha]| |by rewrite Ht].
  unfold ap_inbox. rewrite Ha. by rewrite app_nil_r.
Qed.

Lemma store_talked m k e b : live m -> apple_smc_get_key (keys (smc m)) k = Some e ->
  zlen b <= size (info e) -> Forall (in_width 8) b ->
  exists m' b', store_data m k b = Done m' /\ talked m m' [] /\ sram (smc m') = sram (smc m) /\
    apple_smc_get_key_data (key_data (smc m')) k = Some (mkKeyData k (size (info e)) b') /\
    (zlen b = size (info e) -> b' = b).
Proof.
  intros Hm He Hz Hb. pose proof (lv_ok _ Hm) as Hok.
  destruct (store_data_ok m k e b Hok He Hz Hb) as (b' & -> & Hz' & Hb' & Heq).
  eexists _, b'. split; [done|]. split; [apply quiet_talked; try done; by apply (smc_ok_data m k e)|].
  split; [done|]. split; [|done]. cbn. by destruct (put_key_data_ok _ _ _ _ b' (so_data _ Hok) He Hz' Hb').
Qed.

Lemma sram_slice m n : smc_ok m -> 0 <= n <= 256 ->
  slice (sram (smc m)) 0 n = Done (take (Z.to_nat n) (sram (smc m))).
Proof. intros Hm Hn. apply slice_front. pose proof (so_sram _ Hm). lia. Qed.

(** The input of a key's function: null or the SRAM. *)
Definition input_of (m : Machine) (n : Z) : option (list Z) := if n =? 0 then None else Some (sram (smc m)).

(** A function of a key that returns [st] after the words [notes]. *)
Ltac key_result st m notes :=
  exists st, m, notes; split; [reflexivity|split; [solve [auto]|split; [simpl; lia|by vm_compute]]].

Lemma mbse_ok m e n : live m -> exists st m' notes, mbse_write m e (input_of m n) n = Done (st, m') /\
  talked m m' notes /\ (length notes <= 1)%nat /\ in_width 8 st.
Proof.
  intros Hm. unfold mbse_write, input_of. pose proof (talked_refl m Hm) as Hrefl.
  destruct (n =? 0); [key_result SMC_RESULT_BAD_ARGUMENT_ERROR m (@nil Z)|].
  destruct (negb _); [key_result SMC_RESULT_BAD_ARGUMENT_ERROR m (@nil Z)|].
  rewrite (sram_slice m 4 (lv_ok _ Hm)) by done. run.
  assert (Hreq : forall r, talked m (m <| requests ::= fun l => l ++ [r] |>) []).
  { intros r. apply quiet_talked; try done. by destruct (lv_ok _ Hm). }
  destruct (_ || _); [key_result SMC_RESULT_SUCCESS (m <| requests ::= fun l => l ++ [Shutdown] |>) (@nil Z)|].
  destruct (_ =? fourcc "rest"); [key_result SMC_RESULT_SUCCESS (m <| requests ::= fun l => l ++ [Restart] |>) (@nil Z)|].
  destruct (_ || _); [key_result SMC_RESULT_SUCCESS m (@nil Z)|].
  destruct (_ =? fourcc "panb").
  { destruct (send_talked m (panic_note SMC_SYSTEM_STATE_NOTIFY_SMC_PANIC_PROGRESS) Hm) as (m' & -> & Ht). run.
    key_result SMC_RESULT_SUCCESS m' [resp_raw (panic_note SMC_SYSTEM_STATE_NOTIFY_SMC_PANIC_PROGRESS)]. }
  destruct (_ =? fourcc "pane").
  { destruct (send_talked m (panic_note SMC_SYSTEM_STATE_NOTIFY_SMC_PANIC_DONE) Hm) as (m' & -> & Ht). run.
    key_result SMC_RESULT_SUCCESS m' [resp_raw (panic_note SMC_SYSTEM_STATE_NOTIFY_SMC_PANIC_DONE)]. }
  key_result SMC_RESULT_BAD_FUNC_PARAMETER m (@nil Z).
Qed.

Lemma zlen_le_split n x : zlen (le_split n x) = Z.of_nat n.
Proof. unfold zlen. by rewrite length_le_split. Qed.

Lemma run_key_func_ok f m e n : live m -> apple_smc_get_key (keys (smc m)) (key e) = Some e -> size (info e) = 4 ->
  exists st m' notes, run_key_func f m e (input_of m n) n = Done (st, m') /\
    talked m m' notes /\ (length notes <= 1)%nat /\ in_width 8 st.
Proof.
  intros Hm He Hs.
  assert (Hst : forall b, zlen b = 4 -> Forall (in_width 8) b -> exists st m' notes,
    (m ← store_data m (key e) b; mret (SMC_RESULT_SUCCESS, m)) = Done (st, m') /\
    talked m m' notes /\ (length notes <= 1)%nat /\ in_width 8 st).
  { intros b Hz Hb. destruct (store_talked m (key e) e b Hm He ltac:(lia) Hb) as (m' & b' & -> & Ht & _). run.
    key_result SMC_RESULT_SUCCESS m' (@nil Z). }
  destruct f; cbn [run_key_func].
  - apply Hst; [unfold zlen; by rewrite length_rev|apply Forall_rev, le_split_bytes].
  - by apply mbse_ok.
  - apply Hst; [done|apply le_split_bytes].
  - unfold sensor_query_read, input_of. pose proof (talked_refl m Hm) as Hrefl.
    destruct (n =? 0); [key_result SMC_RESULT_BAD_ARGUMENT_ERROR m (@nil Z)|].
    destruct (negb _); [key_result SMC_RESULT_BAD_ARGUMENT_ERROR m (@nil Z)|].
    rewrite (sram_slice m 4 (lv_ok _ Hm)) by done. run.
    destruct (kth _ _); [apply Hst; [done|apply le_split_bytes]|key_result SMC_RESULT_BAD_ARGUMENT_ERROR m (@nil Z)].
  - apply Hst; [done|apply le_split_bytes].
Qed.

Record resp_ok (r : KeyResponse) : Prop := {
  ro_status : in_width 8 (status r);
  ro_tag : in_width 8 (tag_and_id r);
  ro_length : in_width 8 (length_ r);
  ro_response : zlen (response r) = 4;
  ro_bytes : Forall (in_width 8) (response r);
}.

Lemma key_of_get ks k e : apple_smc_get_key ks k = Some e -> key e = k.
Proof.
  induction ks as [|e' ks IH]; cbn [apple_smc_get_key]; [done|].
  destruct (Z.eqb_spec (key e') k) as [<-|]; [by intros [= <-]|done].
Qed.

Lemma byte_width x : in_width 8 (x .& 0xff).
Proof. change 0xff with (Z.ones 8). rewrite Z.land_ones by done. by apply wrap_range. Qed.

(** What [apple_smc_key_read] finds. *)
Lemma key_read_ok e d n : key_ok e d ->
  apple_smc_key_read e d n = Done (if n <? size (info e) then (SMC_RESULT_KEY_SIZE_MISMATCH, []) else (SMC_RESULT_SUCCESS, data d)).
Proof.
  intros Hk. unfold apple_smc_key_read. destruct (n <? size (info e)); [done|].
  pose proof (ko_data _ _ Hk) as Hz. pose proof (ko_width _ _ Hk) as Hw. unfold in_width in Hw.
  rewrite slice_front by lia. run. rewrite take_ge by (unfold zlen in Hz; lia). done.
Qed.

(** The end of a read: the bytes go to the response or to the SRAM. *)
Definition deliver (m : Machine) (e : SMCKey) (b : list Z) (r : KeyResponse) : outcome (KeyResponse * Machine) :=
  let r := r <| status := SMC_RESULT_SUCCESS |> <| length_ := size (info e) |> in
  if size (info e) <=? 4 then b ← blit (response r) 0 b; mret (r <| response := b |>, m)
  else m ← upd_sram m b; mret (r, m).

Lemma deliver_ok m e d r : live m -> key_ok e d -> resp_ok r ->
  exists r' m', deliver m e (data d) r = Done (r', m') /\ talked m m' [] /\ resp_ok r' /\
    tag_and_id r' = tag_and_id r /\ status r' = SMC_RESULT_SUCCESS /\ length_ r' = size (info e) /\
    (if size (info e) <=? 4 then response r' = data d ++ drop (length (data d)) (response r) /\ m' = m
     else take (length (data d)) (sram (smc m')) = data d /\ response r' = response r).
Proof.
  intros Hm Hk Hr. pose proof (ko_data _ _ Hk) as Hz. pose proof (ko_width _ _ Hk) as Hw. unfold in_width in Hw.
  destruct Hr as [R1 R2 R3 R4 R5]. unfold deliver. cbv zeta. destruct (Z.leb_spec (size (info e)) 4).
  - cbn [response setf]. rewrite blit_front by lia. run. eexists _, m. split; [done|].
    split; [by apply talked_refl|]. split; [|done].
    split; cbn [status tag_and_id length_ response setf]; try done; try apply Hk.
    + unfold zlen in *. rewrite length_app, length_drop. lia.
    + apply Forall_app. split; [apply Hk|by apply Forall_drop].
  - destruct (upd_sram_ok m (data d) (lv_ok _ Hm)) as (ram & -> & Hok & Hl & Ht); [lia|apply Hk|]. run.
    eexists _, _. split; [done|]. split; [by apply quiet_talked|]. split; [|done].
    split; cbn [status tag_and_id length_ response setf]; try done; apply Hk.
Qed.

(** An answer with an error. *)
Ltac fails H := apply H; first [done | by vm_compute | simpl; lia].

Lemma handle_read_ok m msg r : live m -> resp_ok r ->
  exists r' m' notes, handle_read m msg r = Done (r', m') /\ talked m m' notes /\ (length notes <= 1)%nat /\
    resp_ok r' /\ tag_and_id r' = tag_and_id r.
Proof.
  intros Hm Hr. pose proof (talked_refl m Hm) as Hrefl.
  assert (Hfail : forall m' notes st, in_width 8 st -> talked m m' notes -> (length notes <= 1)%nat ->
    exists r' m2 notes, mret (r <| status := st |>, m') = Done (r', m2) /\ talked m m2 notes /\ (length notes <= 1)%nat /\
      resp_ok r' /\ tag_and_id r' = tag_and_id r).
  { intros m' notes st Hst Ht Hn. eexists _, m', notes. split; [done|]. split; [done|]. split; [done|].
    split; [|done]. destruct Hr. by split. }
  unfold handle_read. destruct (apple_smc_get_key _ _) as [e|] eqn:He; [|fails (Hfail m [])].
  destruct (nonzero _); [|fails (Hfail m [])].
  pose proof (key_of_get _ _ _ He) as Hkey.
  assert (exists st m1 notes, (match read e with
      | Some f => run_key_func f m e (input_of m (kmsg_payload_length msg)) (kmsg_payload_length msg)
      | None => mret (SMC_RESULT_SUCCESS, m)
      end) = Done (st, m1) /\ talked m m1 notes /\ (length notes <= 1)%nat /\ in_width 8 st)
    as (st & m1 & notes & E & Ht & Hn & Hst).
  { destruct (get_key_data_ok _ _ _ _ (so_data _ (lv_ok _ Hm)) He) as (d & _ & Hk & _).
    destruct (read e) as [f|] eqn:Hf; [|key_result SMC_RESULT_SUCCESS m (@nil Z)].
    apply run_key_func_ok; [done|by rewrite Hkey|]. apply (ko_func _ _ Hk). left. congruence. }
  unfold input_of in E. rewrite E. run. destruct (st =? SMC_RESULT_SUCCESS); [|fails (Hfail m1 notes)].
  rewrite <- (tk_keys _ _ _ Ht) in He.
  destruct (get_key_data_ok _ _ _ _ (so_data _ (lv_ok _ (tk_live _ _ _ Ht))) He) as (d & -> & Hk & _).
  rewrite (key_read_ok e d _ Hk). destruct (kmsg_length msg <? size (info e)); run;
    [fails (Hfail m1 notes)|]. change (SMC_RESULT_SUCCESS =? SMC_RESULT_SUCCESS) with true. cbv iota.
  destruct (deliver_ok m1 e d r (tk_live _ _ _ Ht) Hk Hr) as (r' & m2 & Ed & Ht2 & Hr' & Htag & _).
  exists r', m2, notes. split; [exact Ed|]. split; [|done].
  rewrite <- (app_nil_r notes). by apply (talked_trans _ m1).
Qed.

Lemma handle_write_ok m msg r : live m -> resp_ok r ->
  exists r' m' notes, handle_write m msg r = Done (r', m') /\ talked m m' notes /\ (length notes <= 1)%nat /\
    resp_ok r' /\ tag_and_id r' = tag_and_id r.
Proof.
  intros Hm Hr. pose proof (talked_refl m Hm) as Hrefl.
  assert (Hfail : forall st, in_width 8 st -> exists r' m2 notes, mret (r <| status := st |>, m) = Done (r', m2) /\
      talked m m2 notes /\ (length notes <= 1)%nat /\ resp_ok r' /\ tag_and_id r' = tag_and_id r).
  { intros st Hst. eexists _, m, []. split; [done|]. split; [done|]. split; [simpl; lia|].
    split; [|done]. destruct Hr. by split. }
  unfold handle_write. destruct (apple_smc_get_key _ _) as [e|] eqn:He; [|fails Hfail].
  destruct (nonzero _); [|fails Hfail]. destruct (Z.eqb_spec (size (info e)) (kmsg_length msg)) as [Hs|]; [|fails Hfail].
  cbn [negb]. pose proof (key_of_get _ _ _ He) as Hkey.
  destruct (get_key_data_ok _ _ _ _ (so_data _ (lv_ok _ Hm)) He) as (d & _ & Hk & _).
  pose proof (ko_width _ _ Hk) as Hw. unfold in_width in Hw.
  match goal with |- context [mbind _ ?c] => assert (exists st m1 notes, c = Done (st, m1) /\
    talked m m1 notes /\ (length notes <= 1)%nat /\ in_width 8 st) as (st & m1 & notes & -> & Ht & Hn & Hst) end.
  { destruct (write e) as [f|] eqn:Hf.
    - apply run_key_func_ok; [done|by rewrite Hkey|]. apply (ko_func _ _ Hk). right. congruence.
    - rewrite (sram_slice m _ (lv_ok _ Hm)) by lia. run.
      destruct (store_talked m (kmsg_key msg) e (take (Z.to_nat (kmsg_length msg)) (sram (smc m))) Hm He)
        as (m1 & b & -> & Ht & _).
      { unfold zlen. rewrite length_take. lia. } { apply Forall_take, (lv_ok _ Hm). }
      run. key_result SMC_RESULT_SUCCESS m1 (@nil Z). }
  run. eexists _, m1, notes. split; [done|]. split; [done|]. split; [done|]. destruct Hr.
  destruct (st =? SMC_RESULT_SUCCESS); split; try done; split; cbn; try done; by apply Hk.
Qed.

(** ** Words and bytes *)

Lemma le_combine_app l1 l2 : le_combine (l1 ++ l2) = le_combine l1 .| (le_combine l2 .<< (8 * zlen l1)).
Proof.
  induction l1 as [|b l1 IH]; [by rewrite Z.shiftl_0_r|]. cbn [app le_combine]. rewrite IH.
  rewrite Z.shiftl_lor, Z.shiftl_shiftl by (unfold zlen; lia). rewrite Z.lor_assoc.
  do 2 f_equal. unfold zlen. cbn [length]. lia.
Qed.

Lemma shiftr_combine l1 l2 : Forall (in_width 8) l1 -> le_combine (l1 ++ l2) .>> (8 * zlen l1) = le_combine l2.
Proof.
  intros Hl. rewrite le_combine_app, Z.shiftr_lor, Z.shiftr_shiftl_l by (unfold zlen; lia).
  rewrite Z.sub_diag, Z.shiftl_0_r. pose proof (le_combine_width l1 Hl) as [H1 H2].
  rewrite Z.shiftr_div_pow2 by (unfold zlen; lia). by rewrite Z.div_small.
Qed.

(** The bytes of a word of bytes. *)
Lemma msg_byte_combine l (i : nat) b : Forall (in_width 8) l -> l !! i = Some b -> msg_byte (le_combine l) (Z.of_nat i) = b.
Proof.
  intros Hl Hi. unfold msg_byte. rewrite <- (take_drop i l) at 1.
  pose proof (lookup_lt_Some _ _ _ Hi) as Hlt.
  replace (8 * Z.of_nat i) with (8 * zlen (take i l)) by (unfold zlen; rewrite length_take; lia).
  rewrite shiftr_combine by by apply Forall_take. rewrite (drop_S _ _ _ Hi). cbn [le_combine].
  assert (in_width 8 b) as Hb by (by eapply (proj1 (Forall_lookup _ _))).
  change 0xff with (Z.ones 8). rewrite Z.land_lor_distr_l, !Z.land_ones by done.
  fold (wrap 8 b). rewrite (wrap_small 8 b Hb). rewrite Z.shiftl_mul_pow2, Z_mod_mult by done. apply Z.lor_0_r.
Qed.

Lemma resp_raw_tag r : resp_ok r -> kmsg_tag_and_id (resp_raw r) = tag_and_id r.
Proof.
  intros []. apply (msg_byte_combine _ 1); [|done].
  apply Forall_app. split; [|done]. by repeat apply Forall_cons_2.
Qed.

(** The word of a request. *)
Definition key_request (cmd tag len payload k : Z) : Z := le_combine ([cmd; tag; len; payload] ++ le_split 4 k).

Lemma key_request_fields cmd tag len payload k :
  Forall (in_width 8) [cmd; tag; len; payload] -> in_width 32 k ->
  let w := key_request cmd tag len payload k in
  kmsg_cmd w = cmd /\ kmsg_tag_and_id w = tag /\ kmsg_length w = len /\ kmsg_payload_length w = payload /\
  kmsg_key w = k /\ in_width 64 w.
Proof.
  intros Hb Hk w.
  assert (Hall : Forall (in_width 8) ([cmd; tag; len; payload] ++ le_split 4 k)) by (apply Forall_app; split; [done|apply le_split_bytes]).
  split; [by apply (msg_byte_combine _ 0)|]. split; [by apply (msg_byte_combine _ 1)|].
  split; [by apply (msg_byte_combine _ 2)|]. split; [by apply (msg_byte_combine _ 3)|]. split.
  - unfold kmsg_key. change 32 with (8 * zlen [cmd; tag; len; payload]). unfold w, key_request.
    rewrite shiftr_combine by done. rewrite le_combine_split. change 0xffffffff with (Z.ones 32).
    rewrite Z.land_ones by done. change (wrap 32 (wrap 32 k) = k). by rewrite !(wrap_small 32 k).
  - apply (le_combine_width _ Hall).
Qed.

(** ** Through the mailbox *)

Section Dispatch.
Context (iter : gmap Z AppleRTKitEPData -> list Z).

Definition smc_dispatch : Machine -> AppleA7IOPMessage -> outcome Machine :=
  dispatch (Some apple_smc_rtkit_ops) smc_handler iter.

(** The controller's end point is registered. *)
Definition registered (m : Machine) : Prop :=
  endpoints (rtkit m) !! EP_USER_START = Some (mkEPData (Some (HandleDevice 0)) true).

Lemma smc_dispatch_eq m w : registered m -> in_width 64 w ->
  smc_dispatch m (answer w) = apple_smc_handle_key_endpoint m kSMCKeyEndpoint w.
Proof.
  intros Hr Hw. unfold smc_dispatch, dispatch, answer, apple_rtkit_construct_msg.
  assert (msg_endpoint (le_split 8 w ++ le_split 4 EP_USER_START ++ [0; 0; 0; 0]) = EP_USER_START) as -> by done.
  assert (msg_data (le_split 8 w ++ le_split 4 EP_USER_START ++ [0; 0; 0; 0]) = w) as ->.
  { unfold msg_data. rewrite take_app_length' by (by rewrite length_le_split). rewrite le_combine_split. by apply wrap_small. }
  change (u16 EP_USER_START) with EP_USER_START. by rewrite Hr.
Qed.

(** The outcome [o] of a request [msg]. *)
Definition answered (m : Machine) (msg : Z) (o : outcome Machine) : Prop :=
  exists m' notes w, o = Done m' /\ live m' /\ registered m' /\ keys (smc m') = keys (smc m) /\
    ap_inbox m' = ap_inbox m ++ (answer <$> notes ++ [w]) /\ (length notes <= 1)%nat /\
    (kmsg_cmd msg <> SMC_GET_SRAM_ADDR -> kmsg_tag_and_id w = kmsg_tag_and_id msg).

Lemma send_answers m msg m1 notes r : registered m -> talked m m1 notes -> (length notes <= 1)%nat ->
  resp_ok r -> tag_and_id r = kmsg_tag_and_id msg -> answered m msg (send m1 kSMCKeyEndpoint r).
Proof.
  intros Hreg Ht Hn Hr1 Htag. destruct (send_talked m1 r (tk_live _ _ _ Ht)) as (m' & -> & Ht').
  destruct (talked_trans _ _ _ _ _ Ht Ht') as [T1 T2 T3 T4 T5].
  exists m', notes, (resp_raw r). unfold registered. rewrite T5.
  split; [done|]. split; [done|]. split; [done|]. split; [done|]. split; [done|]. split; [done|].
  intros _. by rewrite resp_raw_tag, Htag by done.
Qed.

(** C21: Every request to the management controller is answered: from a state in
    which each key's buffer has exactly the declared size and the buffers and
    the SRAM hold bytes, any message word is handled without a fault, leaves
    such a state with the same keys, and puts one answer behind at most one
    notification into the host's mailbox; an answer other than the address of
    the SRAM carries the tag of the request. *)
Theorem smc_answers m msg : live m -> registered m -> in_width 64 msg ->
  exists m' notes w, smc_dispatch m (answer msg) = Done m' /\ live m' /\ registered m' /\
    keys (smc m') = keys (smc m) /\
    ap_inbox m' = ap_inbox m ++ (answer <$> notes ++ [w]) /\ (length notes <= 1)%nat /\
    (kmsg_cmd msg <> SMC_GET_SRAM_ADDR -> kmsg_tag_and_id w = kmsg_tag_and_id msg).
Proof.
  intros Hm Hreg Hmsg. rewrite smc_dispatch_eq by done. unfold apple_smc_handle_key_endpoint. cbv zeta.
  set (r := mkResp 0 (kmsg_tag_and_id msg) 0 [0; 0; 0; 0]).
  assert (Hr : resp_ok r) by (split; try done; [apply byte_width|by repeat apply Forall_cons_2]).
  assert (Hsend := fun m1 notes r1 => send_answers m msg m1 notes r1 Hreg).
  pose proof (talked_refl m Hm) as Hrefl.
  destruct (Z.eqb_spec (kmsg_cmd msg) SMC_GET_SRAM_ADDR) as [Hc|Hc].
  { destruct (send_raw_ok m (sram_addr (smc m)) Hm) as (m' & E & Hl & Hin & rt & -> & Hep).
    exists (set_rtkit m rt), [], (sram_addr (smc m)). unfold registered. change (rtkit (set_rtkit m rt)) with rt.
    rewrite Hep. split; [exact E|]. split; [done|]. split; [done|]. split; [done|]. split; [done|]. split; [simpl; lia|done]. }
  destruct (_ || _).
  { destruct (handle_read_ok m msg r Hm Hr) as (r' & m1 & notes & -> & Ht & Hn & Hr' & Htag). run. by apply (Hsend m1 notes). }
  destruct (_ =? SMC_WRITE_KEY).
  { destruct (handle_write_ok m msg r Hm Hr) as (r' & m1 & notes & -> & Ht & Hn & Hr' & Htag). run. by apply (Hsend m1 notes). }
  destruct (_ =? SMC_GET_KEY_BY_INDEX).
  { apply (Hsend m []); [done|simpl; lia| |by destruct (kth _ _)]. destruct Hr. destruct (kth _ _); split; try done. apply le_split_bytes. }
  destruct (_ =? SMC_GET_KEY_INFO); [|apply (Hsend m []); [done|simpl; lia| |done]; destruct Hr; by split].
  destruct (apple_smc_get_key _ _) as [e|] eqn:He; [|apply (Hsend m []); [done|simpl; lia| |done]; destruct Hr; by split].
  destruct (get_key_data_ok _ _ _ _ (so_data _ (lv_ok _ Hm)) He) as (d & _ & Hk & _).
  destruct (upd_sram_ok m (info_bytes (info e)) (lv_ok _ Hm)) as (ram & -> & Hok & Hlen & _); [done| |].
  { unfold info_bytes. apply Forall_app; split; [apply Forall_singleton, Hk|].
    apply Forall_app; split; [apply le_split_bytes|apply Forall_singleton, Hk]. }
  run. apply (Hsend _ []); [by apply quiet_talked|simpl; lia|done|done].
Qed.

(** A write of a key that has no function stores the first bytes of the SRAM. *)
Lemma write_plain m k e tag : live m -> registered m -> in_width 8 tag -> apple_smc_get_key (keys (smc m)) k = Some e ->
  nonzero (attr (info e) .& SMC_ATTR_W) = true -> write e = None ->
  exists m1, smc_dispatch m (answer (key_request SMC_WRITE_KEY tag (size (info e)) 0 k)) = Done m1 /\
    talked m m1 [resp_raw (mkResp SMC_RESULT_SUCCESS tag (size (info e)) [0; 0; 0; 0])] /\
    apple_smc_get_key_data (key_data (smc m1)) k =
      Some (mkKeyData k (size (info e)) (take (Z.to_nat (size (info e))) (sram (smc m)))).
Proof.
  intros Hm Hreg Htag He Hw Hf. destruct (get_key_data_ok _ _ _ _ (so_data _ (lv_ok _ Hm)) He) as (d & _ & Hk & Hkey).
  pose proof (ko_width _ _ Hk) as Hsz. pose proof (so_sram _ (lv_ok _ Hm)) as Hram. unfold in_width in Hsz.
  assert (Hk32 : in_width 32 k) by (rewrite <- Hkey; apply Hk).
  destruct (key_request_fields SMC_WRITE_KEY tag (size (info e)) 0 k) as (H1 & H2 & H3 & _ & H5 & H6);
    [by repeat apply Forall_cons_2|done|].
  rewrite smc_dispatch_eq by done. unfold apple_smc_handle_key_endpoint. rewrite H1, H2.
  change (SMC_WRITE_KEY =? SMC_GET_SRAM_ADDR) with false.
  change ((SMC_WRITE_KEY =? SMC_READ_KEY) || (SMC_WRITE_KEY =? SMC_READ_KEY_PAYLOAD)) with false.
  rewrite Z.eqb_refl. cbv zeta iota. unfold handle_write. rewrite H5, He, Hw, H3, Z.eqb_refl, Hf. cbn [negb].
  rewrite (sram_slice m _ (lv_ok _ Hm)) by lia. run.
  assert (Hz : zlen (take (Z.to_nat (size (info e))) (sram (smc m))) = size (info e)).
  { unfold zlen in *. rewrite length_take. lia. }
  destruct (store_talked m k e _ Hm He ltac:(rewrite Hz; lia) ltac:(apply Forall_take, (lv_ok _ Hm)))
    as (m' & b' & -> & Ht & _ & Hget & Heq). rewrite (Heq Hz) in Hget. run.
  change (SMC_RESULT_SUCCESS =? SMC_RESULT_SUCCESS) with true. cbv iota.
  destruct (send_raw_ok m' (resp_raw (mkResp SMC_RESULT_SUCCESS tag (size (info e)) [0; 0; 0; 0])) (tk_live _ _ _ Ht))
    as (m1 & E & Hl & Hin & rt & -> & Hep).
  exists (set_rtkit m' rt). split; [exact E|]. split; [|done].
  apply (talked_trans _ m' _ [] [_] Ht). by split.
Qed.

(** A read of a key that has no function delivers its buffer. *)
Lemma read_plain m k e d tag len : live m -> registered m -> in_width 8 tag -> in_width 8 len ->
  apple_smc_get_key (keys (smc m)) k = Some e -> apple_smc_get_key_data (key_data (smc m)) k = Some d ->
  nonzero (attr (info e) .& SMC_ATTR_R) = true -> read e = None -> size (info e) <= len ->
  exists m1 r, smc_dispatch m (answer (key_request SMC_READ_KEY tag len 0 k)) = Done m1 /\
    talked m m1 [resp_raw r] /\ tag_and_id r = tag /\ status r = SMC_RESULT_SUCCESS /\ length_ r = size (info e) /\
    (if size (info e) <=? 4 then response r = data d ++ drop (length (data d)) [0; 0; 0; 0]
     else take (length (data d)) (sram (smc m1)) = data d).
Proof.
  intros Hm Hreg Htag Hlen He Hd Hr Hf Hle.
  destruct (get_key_data_ok _ _ _ _ (so_data _ (lv_ok _ Hm)) He) as (d' & Hd' & Hk & Hkey).
  assert (d' = d) as -> by congruence. assert (Hk32 : in_width 32 k) by (rewrite <- Hkey; apply Hk).
  destruct (key_request_fields SMC_READ_KEY tag len 0 k) as (H1 & H2 & H3 & H4 & H5 & H6);
    [by repeat apply Forall_cons_2|done|].
  rewrite smc_dispatch_eq by done. unfold apple_smc_handle_key_endpoint. rewrite H1, H2.
  change (SMC_READ_KEY =? SMC_GET_SRAM_ADDR) with false. rewrite Z.eqb_refl. cbn [orb]. cbv zeta iota.
  unfold handle_read. rewrite H5, He, Hr, Hf. run. rewrite Z.eqb_refl, Hd, (key_read_ok e d _ Hk), H3.
  rewrite (proj2 (Z.ltb_ge _ _)) by done. run. rewrite Z.eqb_refl.
  set (r0 := mkResp 0 tag 0 [0; 0; 0; 0]).
  assert (Hr0 : resp_ok r0) by (split; try done; by repeat apply Forall_cons_2).
  destruct (deliver_ok m e d r0 Hm Hk Hr0) as (r & m1 & E & Ht & Hrok & Hrt & Hst & Hl & Hif).
  unfold deliver in E. rewrite E. run.
  destruct (send_raw_ok m1 (resp_raw r) (tk_live _ _ _ Ht)) as (m2 & E2 & Hl2 & Hin & rt & -> & Hep).
  exists (set_rtkit m1 rt), r. split; [exact E2|]. split; [apply (talked_trans _ m1 _ [] [_] Ht); by split|].
  split; [done|]. split; [done|]. split; [done|]. destruct (size (info e) <=? 4); by destruct Hif.
Qed.

(** C33: A key that can be read and written and has no function keeps what is
    written to it.  The host puts the bytes into the SRAM and sends a write
    request; whatever it puts there afterwards, a read request is answered with
    the bytes of the write, in the answer itself if there are at most four and
    in the SRAM otherwise, and with their number and the request's tag. *)
Theorem smc_key_roundtrip m k e t1 t2 len ram : live m -> registered m -> in_width 8 t1 -> in_width 8 t2 ->
  apple_smc_get_key (keys (smc m)) k = Some e -> attr (info e) .& SMC_ATTR_RW = SMC_ATTR_RW ->
  read e = None -> write e = None -> size (info e) <= len -> in_width 8 len ->
  zlen ram = zlen (sram (smc m)) -> Forall (in_width 8) ram ->
  let bytes := take (Z.to_nat (size (info e))) (sram (smc m)) in
  exists m1 m2 r, smc_dispatch m (answer (key_request SMC_WRITE_KEY t1 (size (info e)) 0 k)) = Done m1 /\
    ap_inbox m1 = ap_inbox m ++ [answer (resp_raw (mkResp SMC_RESULT_SUCCESS t1 (size (info e)) [0; 0; 0; 0]))] /\
    smc_dispatch (m1 <| smc ::= fun s => s <| sram := ram |> |>) (answer (key_request SMC_READ_KEY t2 len 0 k)) = Done m2 /\
    ap_inbox m2 = ap_inbox m1 ++ [answer (resp_raw r)] /\
    tag_and_id r = t2 /\ status r = SMC_RESULT_SUCCESS /\ length_ r = size (info e) /\
    (if size (info e) <=? 4 then response r = bytes ++ drop (length bytes) [0; 0; 0; 0]
     else take (length bytes) (sram (smc m2)) = bytes).
Proof.
  intros Hm Hreg Ht1 Ht2 He Hrw Hrd Hwr Hle Hlen Hram Hbytes bytes.
  assert (Hbit : forall i, (i = 6 \/ i = 7) -> nonzero (attr (info e) .& BIT i) = true).
  { intros i Hi. rewrite land_BIT_nonzero by lia. assert (Z.testbit (attr (info e) .& SMC_ATTR_RW) i = true) as Hb.
    { rewrite Hrw. by destruct Hi; subst. } rewrite Z.land_spec in Hb. by apply andb_prop in Hb as []. }
  destruct (write_plain m k e t1 Hm Hreg Ht1 He (Hbit 6 ltac:(by left)) Hwr) as (m1 & E1 & T1 & Hget).
  set (m1' := m1 <| smc ::= fun s => s <| sram := ram |> |>).
  assert (Hm1' : talked m1 m1' []).
  { apply quiet_talked; [apply T1| |done|done|cbn; by rewrite Hram, (tk_sram _ _ _ T1)].
    destruct (lv_ok _ (tk_live _ _ _ T1)). split; cbn; try done. by rewrite Hram, <- (tk_sram _ _ _ T1). }
  destruct (read_plain m1' k e (mkKeyData k (size (info e)) bytes) t2 len (tk_live _ _ _ Hm1')) as (m2 & r & E2 & T2 & R1 & R2 & R3 & R4);
    [|done|done| |exact Hget|by apply (Hbit 7); right|done|done|].
  { unfold registered. by rewrite (tk_endpoints _ _ _ Hm1'), (tk_endpoints _ _ _ T1). }
  { by rewrite (tk_keys _ _ _ Hm1'), (tk_keys _ _ _ T1). }
  exists m1, m2, r. split; [done|]. split; [apply T1|]. split; [done|].
  split; [exact (tk_inbox _ _ _ (talked_trans _ _ _ _ _ Hm1' T2))|]. done.
Qed.
End Dispatch.

(** ** Buttons *)

Fixpoint run_events (m : Machine) (evs : list (QKeyCode * bool)) : outcome Machine :=
  match evs with
  | [] => mret m
  | (k, down) :: evs' => m ← apple_buttons_handle_event m k down; run_events m evs'
  end.

(** What an event changes when [st] says which buttons are down: a push button
    that is not yet in its new position, or the ringer switch at each press. *)
Definition change (st : AppleSMCHIDButton -> bool) (ev : QKeyCode * bool) : option (AppleSMCHIDButton * bool) :=
  b ← key_button (fst ev);
  if bool_decide (b = SMC_HID_BUTTON_RINGER) then (if snd ev then Some (b, negb (st b)) else None)
  else if Bool.eqb (st b) (snd ev) then None else Some (b, snd ev).

Definition after (st : AppleSMCHIDButton -> bool) (c : option (AppleSMCHIDButton * bool)) (b : AppleSMCHIDButton) : bool :=
  match c with Some (b', v) => if bool_decide (b = b') then v else st b | None => st b end.

(** The changes of a sequence of events, and the positions they lead to. *)
Fixpoint changes (st : AppleSMCHIDButton -> bool) (evs : list (QKeyCode * bool)) : list (AppleSMCHIDButton * bool) :=
  match evs with
  | [] => []
  | ev :: evs' => option_list (change st ev) ++ changes (after st (change st ev)) evs'
  end.

Fixpoint positions (st : AppleSMCHIDButton -> bool) (evs : list (QKeyCode * bool)) : AppleSMCHIDButton -> bool :=
  match evs with [] => st | ev :: evs' => positions (after st (change st ev)) evs' end.

Definition hid_word (c : AppleSMCHIDButton * bool) : Z :=
  resp_raw (mkResp SMC_NOTIFICATION 0 0
    [Z.b2z (snd c); button_num (fst c); SMC_HID_EVENT_NOTIFY_BUTTON; SMC_EVENT_HID_EVENT_NOTIFY]).

Lemma button_num_range b : 0 <= button_num b < 16.
Proof. by destruct b. Qed.

Lemma button_num_inj b b' : button_num b = button_num b' -> b = b'.
Proof. by destruct b, b'. Qed.

Lemma is_down_set st b v b' : is_down (set_state st b v) b' = if bool_decide (b' = b) then v else is_down st b'.
Proof.
  pose proof (button_num_range b). pose proof (button_num_range b').
  unfold is_down, set_state. rewrite !land_BIT_nonzero by lia. rewrite testbit_wrap by lia.
  rewrite (proj2 (Z.ltb_lt _ _)) by lia. cbn [andb].
  case_bool_decide as Hb; [subst b'|assert (button_num b <> button_num b') by (by intros ?%button_num_inj)];
    destruct v; autorewrite with cbits; rewrite ?testbit_BIT by lia; eval_cmp; btauto.
Qed.

(** A button's notification, sent when the host has booted. *)
Lemma hid_ok m b v : live m ->
  exists m', apple_smc_send_hid_button m b v = Done m' /\
    talked m m' (if is_booted (smc m) then [hid_word (b, v)] else []) /\
    states m' = states m /\ is_booted (smc m') = is_booted (smc m).
Proof.
  intros Hm. unfold apple_smc_send_hid_button. destruct (is_booted (smc m)) eqn:Hb; cbn [negb].
  - destruct (send_raw_ok m (hid_word (b, v)) Hm) as (m' & E & Hl & Hin & rt & -> & Hep).
    eexists. split; [exact E|]. split; [by split|done].
  - exists m. split; [done|]. split; [by apply talked_refl|done].
Qed.

(** What an event does to the machine. *)
Lemma event_ok m ev : live m ->
  exists m', apple_buttons_handle_event m (fst ev) (snd ev) = Done m' /\
    talked m m' (if is_booted (smc m) then hid_word <$> option_list (change (is_down (states m)) ev) else []) /\
    (forall b, is_down (states m') b = after (is_down (states m)) (change (is_down (states m)) ev) b) /\
    is_booted (smc m') = is_booted (smc m).
Proof.
  intros Hm. destruct ev as [k down]. unfold apple_buttons_handle_event, change. cbn [fst snd]. cbv zeta.
  set (m0 := m <| requests ::= _ |>).
  assert (Hnew : forall st, talked m (m0 <| states := st |>) []).
  { intros st. apply quiet_talked; try done. by destruct (lv_ok _ Hm). }
  assert (Hno : exists m', mret m0 = Done m' /\ talked m m' (if is_booted (smc m) then [] else []) /\
    (forall b, is_down (states m') b = is_down (states m) b) /\ is_booted (smc m') = is_booted (smc m)).
  { exists m0. split; [done|]. split; [|done]. destruct (is_booted (smc m)); exact (Hnew (states m)). }
  destruct (key_button k) as [b|]; [|exact Hno]. cbn [mbind option_bind].
  assert (Hyes : forall v, exists m', apple_smc_send_hid_button (m0 <| states := set_state (states m) b v |>) b v = Done m' /\
    talked m m' (if is_booted (smc m) then [hid_word (b, v)] else []) /\
    (forall b', is_down (states m') b' = if bool_decide (b' = b) then v else is_down (states m) b') /\
    is_booted (smc m') = is_booted (smc m)).
  { intros v. destruct (hid_ok _ b v (tk_live _ _ _ (Hnew (set_state (states m) b v)))) as (m' & E & Ht & Hst & Hbt).
    exists m'. split; [exact E|]. split; [exact (talked_trans _ _ _ _ _ (Hnew _) Ht)|]. split; [|done].
    intros b'. rewrite Hst. apply is_down_set. }
  case_bool_decide as Hr.
  - destruct down; [|exact Hno]. cbn [states setf m0].
    rewrite is_down_set, bool_decide_true by done. exact (Hyes (negb (is_down (states m) b))).
  - change (states m0) with (states m). destruct (Bool.eqb (is_down (states m) b) down); [exact Hno|exact (Hyes down)].
Qed.

Lemma change_ext st st' ev : (forall b, st b = st' b) -> change st ev = change st' ev.
Proof. intros H. unfold change. destruct (key_button (fst ev)) as [b|]; [|done]. cbn. by rewrite H. Qed.

Lemma after_ext st st' c b : (forall b, st b = st' b) -> after st c b = after st' c b.
Proof. intros H. unfold after. destruct c as [[b' v]|]; [|done]. by rewrite H. Qed.

Lemma changes_ext evs : forall st st', (forall b, st b = st' b) ->
  changes st evs = changes st' evs /\ forall b, positions st evs b = positions st' evs b.
Proof.
  induction evs as [|ev evs IH]; intros st st' H; [done|]. cbn [changes positions].
  rewrite (change_ext st st' ev H). destruct (IH (after st (change st' ev)) (after st' (change st' ev))) as [-> Hp];
    [intros b; by apply after_ext|done].
Qed.

Lemma run_events_ok evs : forall m, live m ->
  exists m', run_events m evs = Done m' /\
    talked m m' (if is_booted (smc m) then hid_word <$> changes (is_down (states m)) evs else []) /\
    (forall b, is_down (states m') b = positions (is_down (states m)) evs b).
Proof.
  induction evs as [|[k down] evs IH]; intros m Hm; cbn [run_events changes positions].
  - exists m. split; [done|]. split; [|done]. destruct (is_booted _); by apply talked_refl.
  - destruct (event_ok m (k, down) Hm) as (m1 & E1 & T1 & Hd1 & Hb1). cbn [fst snd] in E1. rewrite E1. run.
    destruct (IH m1 (tk_live _ _ _ T1)) as (m' & -> & T2 & Hd2). exists m'. split; [done|].
    destruct (changes_ext evs _ _ Hd1) as [Hc Hp]. rewrite Hc, Hb1 in T2. split.
    + pose proof (talked_trans _ _ _ _ _ T1 T2) as T. destruct (is_booted (smc m)); [by rewrite fmap_app|done].
    + intros b. by rewrite Hd2, Hp.
Qed.

Section ButtonKeys.
Context (iter : gmap Z AppleRTKitEPData -> list Z).

(** The key of a button is read as the button's position. *)
Lemma read_button m k e b p tag : live m -> registered m -> in_width 8 tag ->
  apple_smc_get_key (keys (smc m)) k = Some e -> read e = Some (apple_buttons_smc_read b p) ->
  nonzero (attr (info e) .& SMC_ATTR_R) = true ->
  exists m1, smc_dispatch iter m (answer (key_request SMC_READ_KEY tag 4 0 k)) = Done m1 /\
    talked m m1 [resp_raw (mkResp SMC_RESULT_SUCCESS tag 4 (le_split 4 (Z.b2z (Bool.eqb (is_down (states m) b) p))))].
Proof.
  intros Hm Hreg Htag He Hf Hr.
  destruct (get_key_data_ok _ _ _ _ (so_data _ (lv_ok _ Hm)) He) as (d & _ & Hk & Hkey).
  assert (Hs : size (info e) = 4) by (apply (ko_func _ _ Hk); left; congruence).
  assert (Hk32 : in_width 32 k) by (rewrite <- Hkey; apply Hk).
  destruct (key_request_fields SMC_READ_KEY tag 4 0 k) as (H1 & H2 & H3 & H4 & H5 & H6);
    [by repeat apply Forall_cons_2|done|].
  rewrite smc_dispatch_eq by done. unfold apple_smc_handle_key_endpoint. rewrite H1, H2.
  change (SMC_READ_KEY =? SMC_GET_SRAM_ADDR) with false. rewrite Z.eqb_refl. cbn [orb]. cbv zeta iota.
  unfold handle_read. rewrite H5, He, Hr, Hf. cbn [run_key_func]. rewrite Hkey.
  set (v := le_split 4 (button_value (states m) b p)).
  destruct (store_talked m k e v Hm He) as (m1 & b' & -> & T1 & _ & Hget & Hb'); [by rewrite Hs|apply le_split_bytes|].
  rewrite (Hb' (eq_sym Hs)) in Hget. run. rewrite Z.eqb_refl, Hget.
  assert (He1 : apple_smc_get_key (keys (smc m1)) k = Some e) by by rewrite (tk_keys _ _ _ T1).
  destruct (get_key_data_ok _ _ _ _ (so_data _ (lv_ok _ (tk_live _ _ _ T1))) He1) as (d1 & Hd1 & Hk1 & _).
  assert (d1 = mkKeyData k (size (info e)) v) as -> by congruence.
  rewrite (key_read_ok e _ _ Hk1), H3, Hs. change (4 <? 4) with false. run. rewrite Z.eqb_refl.
  change (4 <=? 4) with true. cbv iota. cbn [response data setf].
  change (blit [0; 0; 0; 0] 0 v) with (Done v). run.
  destruct (send_raw_ok m1 (resp_raw (mkResp SMC_RESULT_SUCCESS tag 4 v)) (tk_live _ _ _ T1)) as (m2 & E & Hl & Hin & rt & -> & Hep).
  eexists. split; [exact E|]. apply (talked_trans _ m1 _ [] [_] T1). by split.
Qed.

(** The buttons are reported as they move.  Over any sequence of keyboard
    events the host gets one notification for each change of a button's
    position, in order, and none for a key that repeats or for the release of
    the ringer switch; before it has booted it gets none.  Afterwards the key of
    each button is read as the position the events have left it in. *)
Theorem buttons_reported m evs : live m -> registered m ->
  exists m', run_events m evs = Done m' /\ live m' /\
    ap_inbox m' = ap_inbox m ++ (if is_booted (smc m) then (fun c => answer (hid_word c)) <$> changes (is_down (states m)) evs else []) /\
    forall k e b p tag, apple_smc_get_key (keys (smc m)) k = Some e -> read e = Some (apple_buttons_smc_read b p) ->
      nonzero (attr (info e) .& SMC_ATTR_R) = true -> in_width 8 tag ->
      exists m2, smc_dispatch iter m' (answer (key_request SMC_READ_KEY tag 4 0 k)) = Done m2 /\
        ap_inbox m2 = ap_inbox m' ++ [answer (resp_raw (mkResp SMC_RESULT_SUCCESS tag 4
          (le_split 4 (Z.b2z (Bool.eqb (positions (is_down (states m)) evs b) p)))))].
Proof.
  intros Hm Hreg. destruct (run_events_ok evs m Hm) as (m' & E & T & Hpos). exists m'. split; [done|]. split; [apply T|].
  split.
  - rewrite (tk_inbox _ _ _ T). f_equal. destruct (is_booted (smc m)); [|done]. by rewrite <- list_fmap_compose.
  - intros k e b p tag He Hf Hr Htag.
    destruct (read_button m' k e b p tag (tk_live _ _ _ T)) as (m2 & E2 & T2); [|done| |done|done|].
    + unfold registered. by rewrite (tk_endpoints _ _ _ T).
    + by rewrite (tk_keys _ _ _ T).
    + exists m2. split; [done|]. rewrite (tk_inbox _ _ _ T2), Hpos. done.
Qed.
End ButtonKeys.

(** ** The machine as it is created *)

Definition byteb (x : Z) : bool := (0 <=? x) && (x <? 256).

Definition key_okb (e : SMCKey) (d : SMCKeyData) : bool :=
  (dkey d =? key e) && (dsize d =? size (info e)) && (zlen (data d) =? size (info e)) && byteb (size (info e)) &&
  byteb (attr (info e)) && ((0 <=? key e) && (key e <? 2 ^ 32)) && forallb byteb (data d) &&
  match read e, write e with None, None => true | _, _ => size (info e) =? 4 end.

Lemma byteb_ok x : byteb x = true -> in_width 8 x.
Proof. intros [H1%Z.leb_le H2%Z.ltb_lt]%andb_prop. by split. Qed.

Lemma key_okb_ok e d : key_okb e d = true -> key_ok e d.
Proof.
  unfold key_okb. rewrite !andb_true_iff. intros [[[[[[[H1 H2] H3] H4] H5] [H6 H7]] H8] H9].
  split; [by apply Z.eqb_eq..|by apply byteb_ok|by apply byteb_ok| | |].
  - split; [by apply Z.leb_le|by apply Z.ltb_lt].
  - apply Forall_forall. intros x Hx. apply byteb_ok. rewrite forallb_forall in H8. by apply H8, list_elem_of_In.
  - intros Hf. destruct (read e), (write e); try (by apply Z.eqb_eq). by destruct Hf.
Qed.

(** The table the calls leave, with the buttons' keys behind it. *)
Definition table_of (l : list (AppleSMCState -> outcome AppleSMCState)) : list SMCKey * list SMCKeyData :=
  match add_keys l (mkSmc rtkit_example [] [] [] 0 false) with Done s => (keys s, key_data s) | _ => ([], []) end.

Lemma smc_keys_table r ram a b :
  add_keys smc_keys (mkSmc r [] [] ram a b) = Done (mkSmc r (fst (table_of smc_keys)) (snd (table_of smc_keys)) ram a b).
Proof. vm_compute. reflexivity. Qed.

(** The table's part of the invariant, decided. *)
Definition tableb (ks : list SMCKey) (ds : list SMCKeyData) : bool :=
  bool_decide (NoDup (key <$> ks)) && bool_decide (length ks = length ds) &&
  forallb (fun p => key_okb (fst p) (snd p)) (zip ks ds).

Lemma tableb_ok ks ds : tableb ks ds = true -> NoDup (key <$> ks) /\ Forall2 key_ok ks ds.
Proof.
  unfold tableb. rewrite !andb_true_iff. intros [[H1%bool_decide_eq_true Hl%bool_decide_eq_true] Hf]. split; [done|].
  apply Forall2_same_length_lookup. split; [done|]. intros i e d He Hd. apply key_okb_ok.
  rewrite forallb_forall in Hf. apply (Hf (e, d)). apply list_elem_of_In, (list_elem_of_lookup_2 _ i).
  by rewrite lookup_zip_with, He, Hd.
Qed.

Lemma smc_table_ok : NoDup (key <$> fst (table_of smc_keys)) /\
  Forall2 key_ok (fst (table_of smc_keys)) (snd (table_of smc_keys)).
Proof. apply tableb_ok. by vm_compute. Qed.

(** The controller is created with its table and its end point, and answers. *)
Lemma smc_create_ok r ram a : ready r -> 256 <= zlen ram <= 0xffffffff -> Forall (in_width 8) ram ->
  exists m, apple_smc_create r ram a = Done m /\ live m /\ registered m /\
    keys (smc m) = fst (table_of smc_keys) /\ sram (smc m) = ram /\ is_booted (smc m) = false.
Proof.
  intros Hr Hram Hb. unfold apple_smc_create. rewrite (proj2 (Z.leb_le _ _)) by lia. cbn [c_assert]. run.
  set (m0 := mkMachine (mkSmc r [] [] ram a false) 0 []).
  set (eps := <[EP_USER_START := mkEPData (Some (HandleDevice 0)) true]>
    (<[EP_CRASHLOG := mkEPData None false]> (<[EP_MANAGEMENT := mkEPData (Some HandleMgmt) false]> (∅ : gmap Z AppleRTKitEPData)))).
  set (r1 := r <| endpoints := eps |> <| rollcall := [] |>).
  assert (E : (m ← apple_rtkit_init m0; apple_rtkit_register_user_ep m kSMCKeyEndpoint (Some (HandleDevice 0))) =
    Done (mkMachine (mkSmc r1 [] [] ram a false) 0 [])) by reflexivity.
  apply bind_Done_inv in E as (m1 & E1 & E2). rewrite E1. run. rewrite E2. run. cbn [smc].
  rewrite smc_keys_table. run. cbv zeta.
  destruct smc_table_ok as [T1 T2]. generalize dependent (table_of smc_keys). intros [ks ds] T1 T2. cbn [fst snd] in *.
  eexists. split; [reflexivity|]. split; [|done].
  split; [split; cbn; try done; lia|]. exact Hr.
Qed.

(** The machine of the examples: the controller and the buttons on a
    co-processor that has been started. *)
Definition smc_example : Machine :=
  match (m ← apple_smc_create rtkit_example (map (fun i => i mod 256) (seqZ 0 256)) 0x2000; apple_buttons_create m) with
  | Done m => m <| smc ::= fun s => s <| is_booted := true |> |>
  | _ => mkMachine (mkSmc rtkit_example [] [] [] 0 false) 0 []
  end.

Lemma smc_example_live : live smc_example.
Proof.
  split.
  - destruct (tableb_ok (keys (smc smc_example)) (key_data (smc smc_example))) as [H1 H2]; [by vm_compute|].
    split; [done|done|by vm_compute|]. apply Forall_forall. intros x Hx. apply byteb_ok.
    assert (forallb byteb (sram (smc smc_example)) = true) as Hf by by vm_compute.
    rewrite forallb_forall in Hf. by apply Hf, list_elem_of_In.
  - assert (E : a7iop smc_example = a7iop rtkit_example) by by vm_compute.
    unfold ready, a7iop_inv. rewrite E. apply example_ready.
Qed.

Lemma smc_example_registered : registered smc_example.
Proof. by vm_compute. Qed.

Lemma smc_answers_witness : exists m' notes w,
  smc_dispatch map_order smc_example (answer (key_request SMC_GET_KEY_BY_INDEX 0x10 0 0 3)) = Done m' /\
    live m' /\ registered m' /\ keys (smc m') = keys (smc smc_example) /\
    ap_inbox m' = ap_inbox smc_example ++ (answer <$> notes ++ [w]) /\ (length notes <= 1)%nat /\
    (kmsg_cmd (key_request SMC_GET_KEY_BY_INDEX 0x10 0 0 3) <> SMC_GET_SRAM_ADDR ->
     kmsg_tag_and_id w = kmsg_tag_and_id (key_request SMC_GET_KEY_BY_INDEX 0x10 0 0 3)).
Proof.
  apply (smc_answers map_order smc_example (key_request SMC_GET_KEY_BY_INDEX 0x10 0 0 3)
    smc_example_live smc_example_registered).
  split; by vm_compute.
Defined.

(** The clock's key: eight bytes, delivered in the SRAM. *)
Definition clkh : SMCKey :=
  mkKey (mkInfo 8 (bswap32 SMC_KEY_TYPE_CLH) SMC_ATTR_RW_LE) (fourcc "CLKH") false None None.

Lemma smc_key_roundtrip_witness :
  let bytes := take (Z.to_nat (size (info clkh))) (sram (smc smc_example)) in
  exists m1 m2 r,
  smc_dispatch map_order smc_example (answer (key_request SMC_WRITE_KEY 1 (size (info clkh)) 0 (fourcc "CLKH"))) = Done m1 /\
    ap_inbox m1 = ap_inbox smc_example ++ [answer (resp_raw (mkResp SMC_RESULT_SUCCESS 1 (size (info clkh)) [0; 0; 0; 0]))] /\
    smc_dispatch map_order (m1 <| smc ::= fun s => s <| sram := replicate 256 0 |> |>)
      (answer (key_request SMC_READ_KEY 2 16 0 (fourcc "CLKH"))) = Done m2 /\
    ap_inbox m2 = ap_inbox m1 ++ [answer (resp_raw r)] /\
    tag_and_id r = 2 /\ status r = SMC_RESULT_SUCCESS /\ length_ r = size (info clkh) /\
    (if size (info clkh) <=? 4 then response r = bytes ++ drop (length bytes) [0; 0; 0; 0]
     else take (length bytes) (sram (smc m2)) = bytes).
Proof.
  apply (smc_key_roundtrip map_order smc_example (fourcc "CLKH") clkh 1 2 16 (replicate 256 0)
    smc_example_live smc_example_registered).
  1, 2, 8: split; by vm_compute.
  7: apply Forall_replicate; split; by vm_compute.
  all: by vm_compute.
Defined.

(** Volume up is pressed twice and released, the ringer switched between. *)
Definition press_example : list (QKeyCode * bool) := [(F4, true); (F4, true); (F2, true); (F2, false); (F4, false)].

Lemma buttons_reported_witness : exists m', run_events smc_example press_example = Done m' /\ live m' /\
  ap_inbox m' = ap_inbox smc_example ++ ((fun c => answer (hid_word c)) <$>
    [(SMC_HID_BUTTON_VOL_UP, true); (SMC_HID_BUTTON_RINGER, true); (SMC_HID_BUTTON_VOL_UP, false)]).
Proof.
  destruct (buttons_reported map_order smc_example press_example smc_example_live smc_example_registered)
    as (m' & E & Hl & Hin & _).
  exists m'. split; [exact E|]. split; [exact Hl|]. exact Hin.
Defined.

(** ** Reset *)

(** RTKit's own reset is not run: a roll call that was under way is still
    there, and the next boot fails the assertion that there is none. *)
Lemma smc_reset_keeps_rollcall iter m : rollcall (rtkit m) <> [] ->
  rollcall (rtkit (apple_smc_reset_hold m)) = rollcall (rtkit m) /\
  ep0_status (rtkit (apple_smc_reset_hold m)) = ep0_status (rtkit m) /\
  apple_rtkit_mgmt_rollcall_v11 iter (apple_smc_reset_hold m) = Abort.
Proof.
  intros Hq. split; [done|]. split; [done|]. unfold apple_rtkit_mgmt_rollcall_v11.
  change (rollcall (rtkit (apple_smc_reset_hold m))) with (rollcall (rtkit m)). by rewrite bool_decide_false.
Qed.

(** With RTKit's reset the roll call would be gone. *)
Lemma rtkit_reset_clears_rollcall (m : Machine) : rollcall (rtkit (apple_rtkit_reset_hold m)) = [].
Proof. done. Qed.

(** A snapshot of a consistent table is accepted. *)
Lemma post_load_ok m : smc_ok m -> vmstate_apple_smc_post_load (smc m) = 0.
Proof.
  intros [Hnd Hall _ _]. unfold vmstate_apple_smc_post_load.
  assert (forall ks ds, Forall2 key_ok ks ds -> NoDup (key <$> ks) -> forall i e d, ks !! i = Some e -> ds !! i = Some d ->
    apple_smc_get_key ks (dkey d) = Some e) as Hget.
  { intros ks ds HF. induction HF as [|e0 d0 ks ds Hk HF IH]; [done|]. rewrite fmap_cons, NoDup_cons.
    intros [Hni Hnd'] [|i] e d; cbn [lookup list_lookup apple_smc_get_key].
    - intros [= <-] [= <-]. by rewrite (ko_key _ _ Hk), Z.eqb_refl.
    - intros He Hd. assert (key e0 <> dkey d) as Hne.
      { pose proof (Forall2_lookup_lr _ _ _ _ _ _ HF He Hd) as Hk'. rewrite (ko_key _ _ Hk'). intros Heq. apply Hni.
        rewrite Heq. by apply list_elem_of_fmap_2, (list_elem_of_lookup_2 _ i). }
      rewrite (proj2 (Z.eqb_neq _ _)) by done. by apply (IH Hnd' i). }
  rewrite (proj2 (forallb_forall _ _)).
  - rewrite (proj2 (forallb_forall _ _)); [done|]. intros e [i He]%list_elem_of_In%list_elem_of_lookup_1.
    destruct (Forall2_lookup_l _ _ _ _ _ Hall He) as (d & Hd & Hk). rewrite <- (ko_key _ _ Hk).
    destruct (get_key_data_ok _ _ _ _ Hall (Hget _ _ Hall Hnd _ _ _ He Hd)) as (d' & -> & _). done.
  - intros d [i Hd]%list_elem_of_In%list_elem_of_lookup_1.
    destruct (Forall2_lookup_r _ _ _ _ _ Hall Hd) as (e & He & Hk).
    rewrite (Hget _ _ Hall Hnd _ _ _ He Hd), (ko_size _ _ Hk). apply Z.eqb_refl.
Qed.
