(* ===== verification/Dt.v ===== *)
(** * Apple device trees

    Model of [hw/arm/apple-silicon/dt.c].  A C string is the list of its bytes
    without the terminating zero; a [GHashTable] of properties is a finite map
    keyed by name, and the order in which GLib enumerates a table is a
    parameter.  The blob and the buffer are byte arrays with a position. *)

From S2P Require Import Prelude CString.

Definition APPLE_DT_PROP_NAME_LEN : Z := 32.
Definition APPLE_DT_PROP_PLACEHOLDER : Z := 1 .<< 31.

Definition ROUND_UP (n d : Z) : Z := u32 (n + d - 1) .&~ (d - 1).

Record AppleDTProp := mkProp {
  p_len : Z;
  p_placeholder : bool;
  p_data : bytes;
}.

Inductive AppleDTNode := Node {
  props : gmap bytes AppleDTProp;
  children : list AppleDTNode;
  finalised : bool;
}.

Definition SLASH : Z := 47.
Definition COMMA : Z := 44.

(** ** Errors

    The [Error **] argument of the accessors. *)
Inductive errp := ErrNull | ErrWarn | ErrFatal | ErrLocal.

(** [error_setg]: [error_fatal] ends the process, the others continue. *)
Definition error_setg (e : errp) : outcome unit :=
  match e with ErrFatal => Abort | _ => mret tt end.

Definition apple_dt_missing_errp_from_errp (e : errp) : errp :=
  match e with ErrNull | ErrWarn => ErrFatal | _ => e end.

(** ** Properties *)

Definition apple_dt_new_node : AppleDTNode := Node ∅ [] false.

Definition apple_dt_get_prop (node : AppleDTNode) (name : bytes) : option AppleDTProp :=
  props node !! name.

Definition set_props (node : AppleDTNode) (m : gmap bytes AppleDTProp) : AppleDTNode :=
  Node m (children node) (finalised node).

(** [val] is [None] for a null pointer. *)
Definition apple_dt_set_prop (node : AppleDTNode) (name : bytes) (len : Z) (val : option bytes)
    : outcome AppleDTNode :=
  _ ← c_assert (zlen name <? APPLE_DT_PROP_NAME_LEN);
  _ ← match apple_dt_get_prop node name with
      | None => c_assert (negb (finalised node))
      | Some prop => c_assert (negb (finalised node && negb (p_len prop =? len)))
      end;
  d ← match val with
      | None => mret (replicate (Z.to_nat len) 0)
      | Some v => slice v 0 len
      end;
  mret (set_props node (<[name := mkProp len false d]> (props node))).

Definition apple_dt_set_prop_null (node : AppleDTNode) (name : bytes) :=
  apple_dt_set_prop node name 0 None.

Definition apple_dt_set_prop_u32 (node : AppleDTNode) (name : bytes) (val : Z) :=
  apple_dt_set_prop node name 4 (Some (le_split 4 val)).

Definition apple_dt_set_prop_u64 (node : AppleDTNode) (name : bytes) (val : Z) :=
  apple_dt_set_prop node name 8 (Some (le_split 8 val)).

Definition apple_dt_set_prop_str (node : AppleDTNode) (name val : bytes) :=
  apple_dt_set_prop node name (u32 (zlen val + 1)) (Some (val ++ [0])).

Definition apple_dt_set_prop_strn (node : AppleDTNode) (name : bytes) (max_len : Z) (val : bytes) :=
  apple_dt_set_prop node name max_len (Some (strncpy (Z.to_nat max_len) val)).

Definition apple_dt_del_prop_named (node : AppleDTNode) (name : bytes) : bool * AppleDTNode :=
  match props node !! name with
  | Some _ => (true, set_props node (delete name (props node)))
  | None => (false, node)
  end.

(** Returns the bytes at the pointer, [None] standing for a null default. *)
Definition apple_dt_get_prop_str_full (node : AppleDTNode) (name : bytes)
    (default_s : option bytes) (missing_errp invalid_errp : errp) : outcome (option bytes) :=
  match apple_dt_get_prop node name with
  | None => _ ← error_setg missing_errp; mret default_s
  | Some prop =>
      last ← (if p_len prop =? 0 then mret 1 else aget (p_data prop) (p_len prop - 1));
      if (p_len prop =? 0) || nonzero last then
        _ ← error_setg invalid_errp; mret default_s
      else s ← c_string (p_data prop); mret (Some s)
  end.

Definition apple_dt_get_prop_str (node : AppleDTNode) (name : bytes) (e : errp) :=
  apple_dt_get_prop_str_full node name None (apple_dt_missing_errp_from_errp e) e.

Definition apple_dt_get_prop_str_or (node : AppleDTNode) (name default_s : bytes) (e : errp) :=
  apple_dt_get_prop_str_full node name (Some default_s) ErrNull e.

(** [DEFINE_GET_PROP_INT] for an integer of [size] bytes. *)
Definition apple_dt_get_prop_int_full (size : Z) (node : AppleDTNode) (name : bytes)
    (default_val : Z) (missing_errp invalid_errp : errp) : outcome Z :=
  match apple_dt_get_prop node name with
  | None => _ ← error_setg missing_errp; mret default_val
  | Some prop =>
      _ ← (if p_len prop =? size then mret tt
           else if p_len prop <? size then error_setg ErrFatal else error_setg invalid_errp);
      d ← slice (p_data prop) 0 size;
      mret (le_combine d)
  end.

Definition apple_dt_get_prop_u32_or (node : AppleDTNode) (name : bytes) (default_val : Z) (e : errp) :=
  apple_dt_get_prop_int_full 4 node name default_val ErrNull e.
Definition apple_dt_get_prop_u64_or (node : AppleDTNode) (name : bytes) (default_val : Z) (e : errp) :=
  apple_dt_get_prop_int_full 8 node name default_val ErrNull e.
Definition apple_dt_get_prop_u32 (node : AppleDTNode) (name : bytes) (e : errp) :=
  apple_dt_get_prop_int_full 4 node name 0 (apple_dt_missing_errp_from_errp e) e.
Definition apple_dt_get_prop_u64 (node : AppleDTNode) (name : bytes) (e : errp) :=
  apple_dt_get_prop_int_full 8 node name 0 (apple_dt_missing_errp_from_errp e) e.

(** ** Finding nodes *)

Definition str (s : string) : bytes :=
  map (fun a => Z.of_nat (Ascii.nat_of_ascii a)) (String.list_ascii_of_string s).

(** A child matches a token when its property "name" compares equal to it. *)
Definition name_matches (token : bytes) (child : AppleDTNode) : bool :=
  match apple_dt_get_prop child (str "name") with
  | None => false
  | Some prop => strncmp_eq (Z.to_nat (p_len prop)) (p_data prop) token
  end.

Fixpoint find_child (token : bytes) (l : list AppleDTNode) (i : nat) : option (nat * AppleDTNode) :=
  match l with
  | [] => None
  | child :: l' => if name_matches token child then Some (i, child) else find_child token l' (S i)
  end.

(** Where the node sits below the given one, and the node. *)
Fixpoint walk (node : AppleDTNode) (tokens : list bytes) : option (list nat * AppleDTNode) :=
  match tokens with
  | [] => Some ([], node)
  | [] :: ts => walk node ts
  | token :: ts =>
      '(i, child) ← find_child token (children node) 0;
      '(path, r) ← walk child ts;
      Some (i :: path, r)
  end.

Definition apple_dt_get_node (node : AppleDTNode) (path : bytes) : option (list nat * AppleDTNode) :=
  walk node (strsep_all SLASH path).

(** Returns the new node and the parent with it; [None] for a null result. *)
Definition apple_dt_node_new (parent : option AppleDTNode) (name : option bytes)
    : outcome (option (AppleDTNode * option AppleDTNode)) :=
  let make :=
    match name with
    | None => mret apple_dt_new_node
    | Some n => apple_dt_set_prop_str apple_dt_new_node (str "name") n
    end in
  match parent with
  | None => node ← make; mret (Some (node, None))
  | Some p =>
      _ ← c_assert (negb (finalised p));
      match name with
      | None => mret None
      | Some n =>
          match apple_dt_get_node p n with
          | Some _ => mret None
          | None =>
              node ← make;
              mret (Some (node, Some (Node (props p) (children p ++ [node]) (finalised p))))
          end
      end
  end.

(** The child at index [i] is the node to delete. *)
Definition apple_dt_del_node (parent : AppleDTNode) (i : nat) : outcome AppleDTNode :=
  _ ← c_assert (negb (finalised parent));
  match children parent !! i with
  | None => mret parent
  | Some node =>
      _ ← c_assert (negb (finalised node));
      mret (Node (props parent) (delete i (children parent)) (finalised parent))
  end.

(** A path that names the parent itself stops the process; a node deeper than
    a child is freed while its own parent still points to it, which the model
    counts as a memory error. *)
Definition apple_dt_del_node_named (parent : AppleDTNode) (name : bytes)
    : outcome (bool * AppleDTNode) :=
  match apple_dt_get_node parent name with
  | None => mret (false, parent)
  | Some ([], _) => Abort
  | Some ([i], _) => p ← apple_dt_del_node parent i; mret (true, p)
  | Some (_, node) =>
      _ ← c_assert (negb (finalised parent));
      _ ← c_assert (negb (finalised node));
      Oob
  end.

(** ** Reading a blob *)

Definition ldl_le_p (blob : bytes) (pos : Z) : outcome Z :=
  le_combine <$> slice blob pos 4.

Definition apple_dt_deserialise_prop (blob : bytes) (pos : Z)
    : outcome (bytes * AppleDTProp * Z) :=
  name_len ← strnlen (drop (Z.to_nat pos) blob) (Z.to_nat (APPLE_DT_PROP_NAME_LEN - 1));
  name ← slice blob pos name_len;
  let pos := pos + APPLE_DT_PROP_NAME_LEN in
  len ← ldl_le_p blob pos;
  let placeholder := nonzero (len .& APPLE_DT_PROP_PLACEHOLDER) in
  let len := if placeholder then len .&~ APPLE_DT_PROP_PLACEHOLDER else len in
  let pos := pos + 4 in
  if nonzero len then
    d ← slice blob pos len;
    mret (name, mkProp len placeholder d, pos + ROUND_UP len 4)
  else mret (name, mkProp len placeholder [], pos).

Fixpoint deserialise_props (fuel : nat) (blob : bytes) (n pos : Z) (m : gmap bytes AppleDTProp)
    : outcome (gmap bytes AppleDTProp * Z) :=
  if n <=? 0 then mret (m, pos)
  else
    match fuel with
    | O => NoFuel
    | S fuel' =>
        r ← apple_dt_deserialise_prop blob pos;
        let '(key, prop, pos) := r in
        deserialise_props fuel' blob (n - 1) pos (<[key := prop]> m)
    end.

Fixpoint deserialise_children (fuel : nat) (rec : Z -> outcome (AppleDTNode * Z)) (n pos : Z)
    : outcome (list AppleDTNode * Z) :=
  if n <=? 0 then mret ([], pos)
  else
    match fuel with
    | O => NoFuel
    | S fuel' =>
        r ← rec pos;
        rs ← deserialise_children fuel' rec (n - 1) (snd r);
        mret (fst r :: fst rs, snd rs)
    end.

Fixpoint apple_dt_deserialise_node (fuel : nat) (blob : bytes) (pos : Z)
    : outcome (AppleDTNode * Z) :=
  match fuel with
  | O => NoFuel
  | S fuel' =>
      prop_count ← ldl_le_p blob pos;
      children_count ← ldl_le_p blob (pos + 4);
      r ← deserialise_props (S (length blob)) blob prop_count (pos + 8) ∅;
      let '(m, pos) := r in
      rs ← deserialise_children (S (length blob)) (apple_dt_deserialise_node fuel' blob)
             children_count pos;
      mret (Node m (fst rs) false, snd rs)
  end.

(** Every property and every child takes at least 8 bytes of the blob, so its
    length bounds the number of properties, of children and of levels. *)
Definition apple_dt_deserialise (blob : bytes) : outcome AppleDTNode :=
  fst <$> apple_dt_deserialise_node (S (length blob)) blob 0.

(** ** Writing a blob *)

Section Serialise.

(** [g_hash_table_iter_next] enumerates a table in an order that GLib chooses;
    [g_ascii_strtoull] with base 0 is GLib's number parser. *)
Variable g_hash_table_iter : gmap bytes AppleDTProp -> list (bytes * AppleDTProp).
Variable g_ascii_strtoull : bytes -> Z.

Definition starts_with (prefix token : bytes) : bool :=
  strncmp_eq (length prefix) prefix token.

(** The length one token of a placeholder asks for; [None] goes on. *)
Definition placeholder_token (token : bytes) : option Z :=
  if bool_decide (token = []) then None
  else if starts_with (str "macaddr/") token then Some 6
  else if starts_with (str "syscfg/") token then
    if (zlen token <? 12) || negb (bool_decide (token !! 11%nat = Some SLASH)) then None
    else
      let len := u32 (g_ascii_strtoull (drop 12 token)) in
      if len =? 0 then None else Some len
  else if starts_with (str "zeroes/") token then
    let len := u32 (g_ascii_strtoull (drop 7 token)) in
    if len =? 0 then None else Some len
  else None.

Fixpoint first_token (ts : list bytes) : Z :=
  match ts with
  | [] => 0
  | t :: ts' => match placeholder_token t with Some len => len | None => first_token ts' end
  end.

Definition apple_dt_prop_placeholder_len (prop : AppleDTProp) : outcome Z :=
  if p_len prop =? 0 then mret 0
  else
    buf ← slice (p_data prop) 0 (p_len prop);
    s ← c_string buf;
    mret (first_token (strsep_all COMMA s)).

(** The buffer and the position behind the bytes written so far. *)
Definition put (st : bytes * Z) (d : bytes) : outcome (bytes * Z) :=
  buf ← blit (fst st) (snd st) d;
  mret (buf, snd st + zlen d).

(** The position moves by the padded length, the padding is left as it is. *)
Definition put_padded (st : bytes * Z) (d : bytes) : outcome (bytes * Z) :=
  buf ← blit (fst st) (snd st) d;
  mret (buf, snd st + ROUND_UP (zlen d) 4).

(** Also returns whether the property was written. *)
Definition serialise_prop (st : bytes * Z) (key : bytes) (prop : AppleDTProp)
    : outcome (bool * (bytes * Z)) :=
  if p_placeholder prop then
    placeholder_len ← apple_dt_prop_placeholder_len prop;
    if placeholder_len =? 0 then mret (false, st)
    else
      st ← put st (strncpy (Z.to_nat APPLE_DT_PROP_NAME_LEN) key);
      st ← put st (le_split 4 placeholder_len);
      st ← put_padded st (replicate (Z.to_nat placeholder_len) 0);
      mret (true, st)
  else
    st ← put st (strncpy (Z.to_nat APPLE_DT_PROP_NAME_LEN) key);
    st ← put st (le_split 4 (p_len prop));
    st ← (if nonzero (p_len prop) then
            d ← slice (p_data prop) 0 (p_len prop);
            put_padded st d
          else mret st);
    mret (true, st).

Fixpoint serialise_props (st : bytes * Z) (prop_count : Z) (l : list (bytes * AppleDTProp))
    : outcome (Z * (bytes * Z)) :=
  match l with
  | [] => mret (prop_count, st)
  | (key, prop) :: l' =>
      r ← serialise_prop st key prop;
      let '(written, st) := r in
      serialise_props st (if written : bool then u32 (prop_count + 1) else prop_count) l'
  end.

Fixpoint apple_dt_serialise_node (node : AppleDTNode) (st : bytes * Z) : outcome (bytes * Z) :=
  _ ← c_assert (finalised node);
  let prop_count_pos := snd st in
  st ← put (fst st, snd st + 4) (le_split 4 (zlen (children node)));
  r ← serialise_props st 0 (g_hash_table_iter (props node));
  let '(prop_count, st) := r in
  buf ← blit (fst st) prop_count_pos (le_split 4 prop_count);
  (fix serialise_children (l : list AppleDTNode) (st : bytes * Z) : outcome (bytes * Z) :=
     match l with
     | [] => mret st
     | child :: l' => st ← apple_dt_serialise_node child st; serialise_children l' st
     end) (children node) (buf, snd st).

Definition apple_dt_serialise (root : AppleDTNode) (buf : bytes) : outcome bytes :=
  fst <$> apple_dt_serialise_node root (buf, 0).

Definition apple_dt_prop_serialised_len (prop : AppleDTProp) : outcome Z :=
  if p_placeholder prop then
    placeholder_len ← apple_dt_prop_placeholder_len prop;
    if placeholder_len =? 0 then mret 0
    else mret (APPLE_DT_PROP_NAME_LEN + 4 + ROUND_UP placeholder_len 4)
  else mret (APPLE_DT_PROP_NAME_LEN + 4 + ROUND_UP (p_len prop) 4).

Fixpoint serialised_len (len : Z) (l : list (bytes * AppleDTProp)) : outcome Z :=
  match l with
  | [] => mret len
  | (_, prop) :: l' =>
      n ← apple_dt_prop_serialised_len prop;
      serialised_len (u64 (len + n)) l'
  end.

Fixpoint apple_dt_finalise (node : AppleDTNode) : outcome (Z * AppleDTNode) :=
  _ ← c_assert (negb (finalised node));
  len ← serialised_len (4 + 4) (g_hash_table_iter (props node));
  r ← (fix finalise_children (l : list AppleDTNode) (len : Z) : outcome (Z * list AppleDTNode) :=
         match l with
         | [] => mret (len, [])
         | child :: l' =>
             r ← apple_dt_finalise child;
             rs ← finalise_children l' (u64 (len + fst r));
             mret (fst rs, snd r :: snd rs)
         end) (children node) len;
  mret (fst r, Node (props node) (snd r) true).

Fixpoint apple_dt_unfinalise (root : AppleDTNode) : AppleDTNode :=
  Node (props root) (map apple_dt_unfinalise (children root)) false.

(** ** Theorems *)

(** What GLib promises of the enumeration: every entry of the table once. *)
Hypothesis g_hash_table_iter_perm : forall m, g_hash_table_iter m ≡ₚ map_to_list m.

Definition key_ok (key : bytes) : Prop :=
  zlen key < APPLE_DT_PROP_NAME_LEN /\ Forall (fun b => 0 < b < 256) key.

(** The value of a property in the blob: placeholders that ask for a length
    become zeros, the other placeholders are left out. *)
Definition expand_prop (prop : AppleDTProp) : option AppleDTProp :=
  if p_placeholder prop then
    match apple_dt_prop_placeholder_len prop with
    | Done n => if n =? 0 then None
                else Some (mkProp n false (replicate (Z.to_nat n) 0))
    | _ => None
    end
  else Some prop.

Fixpoint expand (node : AppleDTNode) : AppleDTNode :=
  Node (omap expand_prop (props node)) (map expand (children node)) false.

Record prop_ok (prop : AppleDTProp) : Prop := {
  ok_len : p_len prop = zlen (p_data prop);
  ok_bound : p_len prop < 2 ^ 31;
  ok_bytes : Forall (in_width 8) (p_data prop);
  ok_placeholder : p_placeholder prop = true ->
    exists n, apple_dt_prop_placeholder_len prop = Done n /\ 0 <= n < 2 ^ 31;
}.

Inductive node_ok (fin : bool) : AppleDTNode -> Prop :=
| node_ok_intro m l :
    (forall key prop, m !! key = Some prop -> key_ok key /\ prop_ok prop) ->
    Z.of_nat (size m) < 2 ^ 32 -> zlen l < 2 ^ 32 ->
    Forall (node_ok fin) l -> node_ok fin (Node m l fin).

(** Lengths in the blob. *)
Definition prop_len (prop : AppleDTProp) : Z :=
  match expand_prop prop with
  | Some prop' => APPLE_DT_PROP_NAME_LEN + 4 + ROUND_UP (p_len prop') 4
  | None => 0
  end.

Definition props_len (l : list (bytes * AppleDTProp)) : Z := foldr (fun kp n => prop_len (snd kp) + n) 0 l.

Fixpoint node_len (node : AppleDTNode) : Z :=
  8 + props_len (g_hash_table_iter (props node)) +
  foldr (fun c n => node_len c + n) 0 (children node).

Definition children_len (l : list AppleDTNode) : Z := foldr (fun c n => node_len c + n) 0 l.

Lemma round_up_ok n : 0 <= n < 2 ^ 31 -> n <= ROUND_UP n 4 < n + 4.
Proof.
  intros Hn. unfold ROUND_UP. rewrite wrap_small by (unfold in_width; lia).
  change (4 - 1) with (Z.ones 2). rewrite Z.ldiff_ones_r by done.
  rewrite Z.shiftl_mul_pow2, Z.shiftr_div_pow2 by done. change (2 ^ 2) with 4.
  replace (n + 4 - 1) with (n + 3) by lia.
  pose proof (Z.div_mod (n + 3) 4 ltac:(lia)). pose proof (Z.mod_pos_bound (n + 3) 4 eq_refl). lia.
Qed.

(** What is written of a property is read back. *)
Lemma expand_prop_ok prop prop' : prop_ok prop -> expand_prop prop = Some prop' ->
  p_placeholder prop' = false /\ p_len prop' = zlen (p_data prop') /\ 0 <= p_len prop' < 2 ^ 31.
Proof.
  intros [Hl Hb _ Hp]. unfold expand_prop. destruct (p_placeholder prop) eqn:E.
  - destruct (Hp eq_refl) as (n & -> & Hn). destruct (Z.eqb_spec n 0); [done|].
    intros [= <-]. simpl. unfold zlen. rewrite length_replicate. split; [done|]. lia.
  - intros [= <-]. split; [done|]. split; [done|]. rewrite Hl in *. unfold zlen in *. lia.
Qed.

Lemma prop_len_pos prop : prop_ok prop -> 0 <= prop_len prop.
Proof.
  intros Hok. unfold prop_len. destruct (expand_prop prop) eqn:E; [|lia].
  pose proof (expand_prop_ok _ _ Hok E) as (_ & _ & Hn). pose proof (round_up_ok _ Hn).
  unfold APPLE_DT_PROP_NAME_LEN. lia.
Qed.

Lemma strnlen_ok key rest n : Forall (fun b => 0 < b < 256) key -> (length key <= n)%nat ->
  strnlen (key ++ 0 :: rest) n = Done (zlen key).
Proof.
  revert n. induction key as [|b key IH]; intros n Hk Hn; simpl.
  { by destruct n. }
  destruct n as [|n]; [simpl in Hn; lia|]. inversion_clear Hk as [|? ? Hb Hk'].
  simpl. destruct (Z.eqb_spec b 0); [lia|]. rewrite IH by (done || simpl in Hn; lia).
  run. unfold zlen, mret, outcome_ret. simpl length. f_equal. lia.
Qed.

Lemma strncpy_key key : key_ok key ->
  exists k, strncpy 32 key = key ++ 0 :: k /\ length (strncpy 32 key) = 32%nat.
Proof.
  intros [Hl _]. unfold APPLE_DT_PROP_NAME_LEN, zlen in Hl. unfold strncpy.
  exists (replicate (31 - length key) 0). split.
  - rewrite take_app_ge, take_replicate by lia. f_equal.
    replace (32 `min` 32)%nat with 32%nat by lia.
    replace ((32 - length key) `min` 32)%nat with (S (31 - length key)) by lia. done.
  - rewrite length_take, length_app, length_replicate. lia.
Qed.

Lemma put_ok b pos d : 0 <= pos -> pos + zlen d <= zlen b ->
  exists b', put (b, pos) d = Done (b', pos + zlen d) /\ length b' = length b /\
    slice b' pos (zlen d) = Done d /\
    (forall lo hi, hi <= pos \/ pos + zlen d <= lo -> agree b b' lo hi).
Proof.
  intros H1 H2. destruct (blit_ok b d pos H1 H2) as (b' & Hb & Hl & Hs & Ha).
  exists b'. unfold put. cbn [fst snd]. rewrite Hb. by run.
Qed.

Lemma put_padded_ok b pos d : 0 <= pos -> pos + zlen d <= zlen b ->
  exists b', put_padded (b, pos) d = Done (b', pos + ROUND_UP (zlen d) 4) /\ length b' = length b /\
    slice b' pos (zlen d) = Done d /\
    (forall lo hi, hi <= pos \/ pos + zlen d <= lo -> agree b b' lo hi).
Proof.
  intros H1 H2. destruct (blit_ok b d pos H1 H2) as (b' & Hb & Hl & Hs & Ha).
  exists b'. unfold put_padded. cbn [fst snd]. rewrite Hb. by run.
Qed.

Lemma ldl_ok b pos n : 0 <= n < 2 ^ 32 -> slice b pos 4 = Done (le_split 4 n) -> ldl_le_p b pos = Done n.
Proof.
  intros Hn Hs. unfold ldl_le_p. rewrite Hs. cbn [fmap outcome_fmap]. f_equal.
  rewrite le_combine_split. apply wrap_small. exact Hn.
Qed.

Lemma no_placeholder_bit n : 0 <= n < 2 ^ 31 -> nonzero (n .& APPLE_DT_PROP_PLACEHOLDER) = false.
Proof.
  intros Hn. unfold APPLE_DT_PROP_PLACEHOLDER.
  change (nonzero (n .& BIT 31) = false). rewrite land_BIT_nonzero by done.
  by apply (testbit_high 31).
Qed.

(** Reading a property whose parts are in the blob. *)
Lemma deserialise_prop_ok b pos key prop : 0 <= pos -> key_ok key ->
  p_placeholder prop = false -> p_len prop = zlen (p_data prop) -> 0 <= p_len prop < 2 ^ 31 ->
  slice b pos 32 = Done (strncpy 32 key) -> slice b (pos + 32) 4 = Done (le_split 4 (p_len prop)) ->
  (p_len prop <> 0 -> slice b (pos + 36) (p_len prop) = Done (p_data prop)) ->
  apple_dt_deserialise_prop b pos = Done (key, prop, pos + (32 + 4 + ROUND_UP (p_len prop) 4)).
Proof.
  intros Hpos Hk Hph Hl Hn Hs1 Hs2 Hs3. unfold apple_dt_deserialise_prop, APPLE_DT_PROP_NAME_LEN.
  destruct (strncpy_key key Hk) as (k & Hk1 & Hk2). pose proof Hk as [Hklen Hkb].
  unfold APPLE_DT_PROP_NAME_LEN in Hklen.
  rewrite (slice_split b pos 32 _ _ Hpos Hs1 eq_refl), Hk1, <- (assoc_L (++)).
  cbn [app]. rewrite strnlen_ok by (done || unfold zlen in *; lia). run.
  rewrite (slice_take b pos 32 (zlen key) (strncpy 32 key)) by (done || unfold zlen in *; lia).
  run. cbv zeta.
  rewrite (ldl_ok b (pos + 32) (p_len prop)) by (done || lia). run.
  rewrite no_placeholder_bit by done. cbv iota.
  assert (take (Z.to_nat (zlen key)) (strncpy 32 key) = key) as ->.
  { rewrite Hk1. unfold zlen. rewrite Nat2Z.id. apply take_app_length. }
  destruct prop as [len ph d]; simpl in *. subst ph.
  destruct (nonzero len) eqn:E.
  - apply nonzero_iff in E. replace (pos + 32 + 4) with (pos + 36) by lia.
    rewrite Hs3 by done. run. unfold mret, outcome_ret. do 2 f_equal. lia.
  - assert (len = 0) as ->.
    { destruct (Z.eq_dec len 0) as [|Hne]; [done|]. apply nonzero_iff in Hne. congruence. }
    assert (d = []) as -> by (destruct d; [done|unfold zlen in Hl; simpl in Hl; lia]).
    unfold mret, outcome_ret. do 2 f_equal. change (ROUND_UP 0 4) with 0. lia.
Qed.

(** The bytes of a property: written in place, nothing else touched. *)
Lemma write_prop_ok b pos key prop : 0 <= pos -> key_ok key ->
  p_placeholder prop = false -> p_len prop = zlen (p_data prop) -> 0 <= p_len prop < 2 ^ 31 ->
  let len := 32 + 4 + ROUND_UP (p_len prop) 4 in
  pos + len <= zlen b ->
  exists b', (st ← put (b, pos) (strncpy 32 key);
              st ← put st (le_split 4 (p_len prop));
              st ← (if nonzero (p_len prop) then put_padded st (p_data prop) else mret st);
              mret (true, st)) = Done (true, (b', pos + len)) /\ length b' = length b /\
    (forall lo hi, hi <= pos \/ pos + len <= lo -> agree b b' lo hi) /\
    (forall b'', agree b' b'' pos (pos + len) ->
       apple_dt_deserialise_prop b'' pos = Done (key, prop, pos + len)).
Proof.
  intros Hpos Hk Hph Hl Hn len Hfit. pose proof (round_up_ok _ Hn) as Hru.
  destruct (strncpy_key key Hk) as (k & _ & Hk2).
  assert (zlen (strncpy 32 key) = 32) as Hz by (unfold zlen; by rewrite Hk2).
  assert (zlen (le_split 4 (p_len prop)) = 4) as Hz4 by (unfold zlen; by rewrite length_le_split).
  destruct (put_ok b pos (strncpy 32 key)) as (b1 & -> & Hl1 & Hs1 & Ha1); [lia..|]. run.
  rewrite Hz in *.
  destruct (put_ok b1 (pos + 32) (le_split 4 (p_len prop))) as (b2 & -> & Hl2 & Hs2 & Ha2);
    [lia|unfold zlen in *; lia|]. run. rewrite Hz4 in *.
  assert (exists b3, (if nonzero (p_len prop) then put_padded (b2, pos + 32 + 4) (p_data prop)
      else mret (b2, pos + 32 + 4)) = Done (b3, pos + len) /\ length b3 = length b2 /\
    (p_len prop <> 0 -> slice b3 (pos + 36) (p_len prop) = Done (p_data prop)) /\
    (forall lo hi, hi <= pos + 36 \/ pos + len <= lo -> agree b2 b3 lo hi))
    as (b3 & -> & Hl3 & Hs3 & Ha3).
  { destruct (nonzero (p_len prop)) eqn:E.
    - destruct (put_padded_ok b2 (pos + 36) (p_data prop)) as (b3 & Hp & Hl3 & Hs3 & Ha3);
        [lia|unfold zlen in *; lia|].
      replace (pos + 32 + 4) with (pos + 36) by lia. rewrite Hp. exists b3.
      rewrite <- Hl in *. split; [do 2 f_equal; lia|]. split; [done|]. split; [done|].
      intros lo hi Hr. apply Ha3. lia.
    - assert (p_len prop = 0) as H0.
      { destruct (Z.eq_dec (p_len prop) 0) as [|Hne]; [done|]. apply nonzero_iff in Hne. congruence. }
      exists b2. split; [unfold len; rewrite H0; change (ROUND_UP 0 4) with 0;
        unfold mret, outcome_ret; do 2 f_equal; lia|]. split; [done|]. split; [lia|done]. }
  run. exists b3. split; [done|]. split; [congruence|]. split.
  - intros lo hi Hr. eapply agree_trans; [apply Ha1; lia|].
    eapply agree_trans; [apply Ha2; lia|]. apply Ha3. lia.
  - intros b'' Hag.
    assert (forall off n, pos <= off -> 0 <= n -> off + n <= pos + len ->
      slice b'' off n = slice b3 off n) as Hread.
    { intros off n ???. symmetry. apply (slice_agree _ _ pos (pos + len)); [done|lia|lia]. }
    apply deserialise_prop_ok; try done.
    + rewrite Hread by lia. rewrite <- Hs1. symmetry.
      apply (slice_agree _ _ pos (pos + 32)); [|lia|lia].
      eapply agree_trans; [apply Ha2; lia|apply Ha3; lia].
    + rewrite Hread by lia. rewrite <- Hs2. symmetry.
      apply (slice_agree _ _ (pos + 32) (pos + 36)); [|lia|lia]. apply Ha3. lia.
    + intros Hne. rewrite Hread by lia. by apply Hs3.
Qed.

Lemma serialise_prop_eq st key prop : prop_ok prop ->
  serialise_prop st key prop =
  match expand_prop prop with
  | None => Done (false, st)
  | Some prop' =>
      st ← put st (strncpy 32 key);
      st ← put st (le_split 4 (p_len prop'));
      st ← (if nonzero (p_len prop') then put_padded st (p_data prop') else mret st);
      mret (true, st)
  end.
Proof.
  intros [Hl Hb _ Hp]. unfold serialise_prop, expand_prop.
  destruct (p_placeholder prop) eqn:E.
  - destruct (Hp eq_refl) as (n & -> & Hn). run.
    destruct (Z.eqb_spec n 0); [done|]. cbn [p_len p_data].
    by rewrite (proj2 (nonzero_iff n)) by done.
  - assert (slice (p_data prop) 0 (p_len prop) = Done (p_data prop)) as ->; [|done].
    rewrite slice_in_range by (unfold zlen in *; lia). f_equal.
    change (Z.to_nat 0) with 0%nat. rewrite drop_0. apply take_ge.
    rewrite Hl. unfold zlen. lia.
Qed.

Definition entry_ok (kp : bytes * AppleDTProp) : Prop := key_ok (fst kp) /\ prop_ok (snd kp).

Definition expand_entry (kp : bytes * AppleDTProp) : option (bytes * AppleDTProp) :=
  pair (fst kp) <$> expand_prop (snd kp).

Lemma props_len_pos l : Forall entry_ok l -> 0 <= props_len l.
Proof.
  induction 1 as [|kp l [_ Hp] _ IH]; [done|]. pose proof (prop_len_pos _ Hp).
  change (props_len (kp :: l)) with (prop_len (snd kp) + props_len l). lia.
Qed.

(** The loop over the properties, and the loop that reads them back. *)
Lemma serialise_props_ok l : forall b pos cnt, Forall entry_ok l -> 0 <= pos ->
  pos + props_len l <= zlen b -> 0 <= cnt -> cnt + zlen l < 2 ^ 32 ->
  exists b', serialise_props (b, pos) cnt l =
      Done (cnt + zlen (omap expand_entry l), (b', pos + props_len l)) /\
    length b' = length b /\
    (forall lo hi, hi <= pos \/ pos + props_len l <= lo -> agree b b' lo hi) /\
    (forall b'' fuel m, agree b' b'' pos (pos + props_len l) ->
       (length (omap expand_entry l) <= fuel)%nat ->
       deserialise_props fuel b'' (zlen (omap expand_entry l)) pos m =
       Done (foldl (fun m kp => <[fst kp := snd kp]> m) m (omap expand_entry l),
             pos + props_len l)).
Proof.
  induction l as [|[key prop] l IH]; intros b pos cnt Hok Hpos Hfit Hc Hlt.
  { exists b. simpl. rewrite !Z.add_0_r. split; [done|]. split; [done|]. split; [done|].
    intros b'' [|fuel] m _ _; done. }
  inversion_clear Hok as [|? ? [Hk Hp] Hok']. cbn [fst snd] in *.
  pose proof (props_len_pos l Hok') as Hpl. pose proof (prop_len_pos prop Hp) as Hp0.
  change (props_len ((key, prop) :: l)) with (prop_len prop + props_len l) in *.
  assert (zlen ((key, prop) :: l) = zlen l + 1) as Hzl by (unfold zlen; simpl; lia).
  cbn [serialise_props]. rewrite serialise_prop_eq by done.
  change (omap expand_entry ((key, prop) :: l)) with
    (match pair key <$> expand_prop prop with
     | Some y => y :: omap expand_entry l
     | None => omap expand_entry l
     end).
  destruct (expand_prop prop) as [prop'|] eqn:E; cbn [fmap option_fmap option_map].
  - destruct (expand_prop_ok _ _ Hp E) as (Hph & Hl & Hn).
    assert (prop_len prop = 32 + 4 + ROUND_UP (p_len prop') 4) as Hlen
      by (unfold prop_len; by rewrite E).
    destruct (write_prop_ok b pos key prop' Hpos Hk Hph Hl Hn) as (b1 & -> & Hl1 & Ha1 & Hr1);
      [lia|]. rewrite <- Hlen in *. run. cbv zeta.
    rewrite wrap_small by (unfold in_width; unfold zlen in *; lia).
    destruct (IH b1 (pos + prop_len prop) (cnt + 1)) as (b2 & -> & Hl2 & Ha2 & Hr2);
      [done|lia|unfold zlen in *; lia|lia|lia|].
    exists b2. split; [unfold zlen; simpl length; do 2 f_equal; [lia|f_equal; lia]|].
    split; [congruence|]. split.
    { intros lo hi Hr. eapply agree_trans; [apply Ha1; lia|apply Ha2; lia]. }
    intros b'' [|fuel] m Hag Hfuel; [simpl in Hfuel; lia|]. cbn [deserialise_props].
    destruct (Z.leb_spec (zlen ((key, prop') :: omap expand_entry l)) 0);
      [unfold zlen in *; simpl in *; lia|].
    rewrite Hr1; [|eapply agree_trans; [apply Ha2; lia|eapply agree_sub; [exact Hag|lia|lia]]].
    run. replace (zlen ((key, prop') :: omap expand_entry l) - 1) with
      (zlen (omap expand_entry l)) by (unfold zlen; simpl length; lia).
    rewrite Hr2; [|eapply agree_sub; [exact Hag|lia|lia]|simpl in Hfuel; lia].
    cbn [foldl fst snd]. f_equal. f_equal. lia.
  - assert (prop_len prop = 0) as Hlen by (unfold prop_len; by rewrite E).
    run. cbv zeta. rewrite Hlen in *. rewrite Z.add_0_l in *.
    destruct (IH b pos cnt) as (b2 & -> & Hl2 & Ha2 & Hr2); [done|lia..|].
    exists b2. split; [done|]. split; [done|]. split; [done|].
    intros b'' fuel m Hag Hfuel. by apply Hr2.
Qed.

(** The table that is read back does not depend on the order. *)
Lemma expand_table (m : gmap bytes AppleDTProp) l : l ≡ₚ map_to_list m ->
  foldl (fun m kp => <[fst kp := snd kp]> m) ∅ (omap expand_entry l) = omap expand_prop m.
Proof.
  intros Hperm.
  assert (forall (l' : list (bytes * AppleDTProp)) (m0 : gmap bytes AppleDTProp), NoDup l'.*1 ->
    (forall k, k ∈ l'.*1 -> m0 !! k = None) ->
    forall k v, foldl (fun m kp => <[fst kp := snd kp]> m) m0 l' !! k = Some v <->
      m0 !! k = Some v \/ (k, v) ∈ l') as Hfold.
  { induction l' as [|[k0 v0] l' IH]; intros m0 Hnd Hfresh k v; simpl.
    - split; [by left|]. intros [?|Hin]; [done|]. by apply not_elem_of_nil in Hin.
    - simpl in Hnd. apply NoDup_cons in Hnd as [Hk0 Hnd].
      rewrite IH; [|done|].
      + rewrite elem_of_cons, lookup_insert_Some.
        assert (m0 !! k0 = None) as Hn by (apply Hfresh; simpl; by left).
        split.
        * intros [[[-> ->]|[? ?]]|?]; [right; by left|by left|right; by right].
        * intros [Hm|[[= -> ->]|?]]; [|left; by left|by right].
          left; right. split; [congruence|done].
      + intros k1 Hk1. rewrite lookup_insert_ne by (intros ->; done).
        apply Hfresh. simpl. by right. }
  assert (NoDup (omap expand_entry l).*1) as Hnd.
  { assert (NoDup l.*1) as Hl by (rewrite Hperm; apply NoDup_fst_map_to_list).
    eapply sublist_NoDup; [exact Hl|]. clear. induction l as [|[k p] l IH]; simpl; [done|].
    unfold expand_entry at 1. simpl. destruct (expand_prop p); simpl; by constructor. }
  apply map_eq. intros k. apply option_eq. intros v.
  rewrite Hfold; [|done|intros; apply lookup_empty].
  rewrite lookup_omap, lookup_empty, bind_Some, list_elem_of_omap. split.
  - intros [|([k1 p] & Hin & He)]; [done|]. unfold expand_entry in He. simpl in He.
    destruct (expand_prop p) as [p'|] eqn:E; simplify_eq/=.
    exists p. split; [|done]. rewrite Hperm in Hin. by apply elem_of_map_to_list.
  - intros (p & Hp & He). right. exists (k, p). split.
    + rewrite Hperm. by apply elem_of_map_to_list.
    + unfold expand_entry. simpl. by rewrite He.
Qed.

Lemma props_count l : Forall entry_ok l -> 36 * zlen (omap expand_entry l) <= props_len l.
Proof.
  induction 1 as [|[key prop] l [_ Hp] _ IH]; [done|]. cbn [snd] in Hp.
  change (props_len ((key, prop) :: l)) with (prop_len prop + props_len l).
  change (omap expand_entry ((key, prop) :: l)) with
    (match pair key <$> expand_prop prop with
     | Some y => y :: omap expand_entry l
     | None => omap expand_entry l
     end).
  unfold prop_len. destruct (expand_prop prop) as [prop'|] eqn:E; [|exact IH].
  destruct (expand_prop_ok _ _ Hp E) as (_ & _ & Hn). pose proof (round_up_ok _ Hn).
  cbn [fmap option_fmap option_map]. unfold zlen, APPLE_DT_PROP_NAME_LEN in *. simpl length. lia.
Qed.

Fixpoint node_ind' (P : AppleDTNode -> Prop)
    (H : forall m l fin, Forall P l -> P (Node m l fin)) (n : AppleDTNode) : P n :=
  match n with
  | Node m l fin =>
      H m l fin ((fix go (l : list AppleDTNode) : Forall P l :=
        match l with
        | [] => List.Forall_nil P
        | c :: l' => List.Forall_cons P c l' (node_ind' P H c) (go l')
        end) l)
  end.

Fixpoint serialise_children (l : list AppleDTNode) (st : bytes * Z) : outcome (bytes * Z) :=
  match l with
  | [] => mret st
  | child :: l' => st ← apple_dt_serialise_node child st; serialise_children l' st
  end.

Lemma serialise_node_eq m l fin st :
  apple_dt_serialise_node (Node m l fin) st =
    (_ ← c_assert fin;
     st1 ← put (fst st, snd st + 4) (le_split 4 (zlen l));
     r ← serialise_props st1 0 (g_hash_table_iter m);
     let '(prop_count, st2) := r in
     buf ← blit (fst st2) (snd st) (le_split 4 prop_count);
     serialise_children l (buf, snd st2)).
Proof. reflexivity. Qed.

Lemma node_len_eq m l fin :
  node_len (Node m l fin) = 8 + props_len (g_hash_table_iter m) + children_len l.
Proof. reflexivity. Qed.

Lemma iter_entries m : (forall key prop, m !! key = Some prop -> key_ok key /\ prop_ok prop) ->
  Forall entry_ok (g_hash_table_iter m) /\ zlen (g_hash_table_iter m) = Z.of_nat (size m).
Proof.
  intros Hm. split.
  - rewrite g_hash_table_iter_perm. apply Forall_forall. intros [k p] Hin.
    apply elem_of_map_to_list in Hin. by apply Hm.
  - unfold zlen. rewrite g_hash_table_iter_perm. by rewrite length_map_to_list.
Qed.

Lemma node_len_pos fin n : node_ok fin n -> 8 <= node_len n.
Proof.
  induction n as [m l fin' IH] using node_ind'. inversion_clear 1 as [? ? Hm _ _ Hl].
  rewrite node_len_eq. destruct (iter_entries m Hm) as [He _].
  pose proof (props_len_pos _ He). assert (0 <= children_len l); [|lia].
  clear -IH Hl. induction IH as [|c l Hc _ IHl]; [done|]. inversion_clear Hl as [|? ? H1 H2].
  change (children_len (c :: l)) with (node_len c + children_len l).
  specialize (Hc H1). specialize (IHl H2). lia.
Qed.

(** A node is written in place and read back as its expansion. *)
Definition written (n : AppleDTNode) : Prop := forall b pos,
  0 <= pos -> pos + node_len n <= zlen b ->
  exists b', apple_dt_serialise_node n (b, pos) = Done (b', pos + node_len n) /\
    length b' = length b /\
    (forall lo hi, hi <= pos \/ pos + node_len n <= lo -> agree b b' lo hi) /\
    (forall b'' fuel, agree b' b'' pos (pos + node_len n) -> node_len n <= Z.of_nat fuel ->
       apple_dt_deserialise_node fuel b'' pos = Done (expand n, pos + node_len n)).

Lemma children_written l : Forall written l -> Forall (fun n => 8 <= node_len n) l ->
  forall b pos, 0 <= pos -> pos + children_len l <= zlen b ->
  exists b', serialise_children l (b, pos) = Done (b', pos + children_len l) /\
    length b' = length b /\
    (forall lo hi, hi <= pos \/ pos + children_len l <= lo -> agree b b' lo hi) /\
    (forall b'' f fuel, agree b' b'' pos (pos + children_len l) ->
       children_len l <= Z.of_nat fuel -> (length l <= f)%nat ->
       deserialise_children f (apple_dt_deserialise_node fuel b'') (zlen l) pos =
       Done (map expand l, pos + children_len l)).
Proof.
  intros Hw H8. induction Hw as [|c l Hc _ IH]; intros b pos Hpos Hfit.
  { exists b. cbn. rewrite Z.add_0_r. split; [done|]. split; [done|]. split; [done|].
    intros b'' [|f] fuel _ _ _; done. }
  inversion_clear H8 as [|? ? Hc8 Hl8].
  change (children_len (c :: l)) with (node_len c + children_len l) in *.
  assert (0 <= children_len l) as Hcl.
  { clear -Hl8. induction Hl8 as [|c l H _ IH]; [done|].
    change (children_len (c :: l)) with (node_len c + children_len l). lia. }
  cbn [serialise_children].
  destruct (Hc b pos) as (b1 & -> & Hl1 & Ha1 & Hr1); [lia..|]. run.
  destruct (IH Hl8 b1 (pos + node_len c)) as (b2 & -> & Hl2 & Ha2 & Hr2);
    [lia|unfold zlen in *; lia|].
  exists b2. split; [do 2 f_equal; lia|]. split; [congruence|]. split.
  { intros lo hi Hr. eapply agree_trans; [apply Ha1; lia|apply Ha2; lia]. }
  intros b'' [|f] fuel Hag Hf Hlen; [simpl in Hlen; lia|]. cbn [deserialise_children].
  destruct (Z.leb_spec (zlen (c :: l)) 0); [unfold zlen in *; simpl in *; lia|].
  rewrite Hr1; [|eapply agree_trans; [apply Ha2; lia|eapply agree_sub; [exact Hag|lia|lia]]|lia].
  run. cbn [fst snd].
  replace (zlen (c :: l) - 1) with (zlen l) by (unfold zlen; simpl length; lia).
  rewrite Hr2; [|eapply agree_sub; [exact Hag|lia|lia]|lia|simpl in Hlen; lia].
  run. cbn [fst snd map]. unfold mret, outcome_ret. do 2 f_equal. lia.
Qed.

Lemma children_count l : Forall (fun n => 8 <= node_len n) l -> 8 * zlen l <= children_len l.
Proof.
  induction 1 as [|c l H _ IH]; [done|].
  change (children_len (c :: l)) with (node_len c + children_len l).
  unfold zlen in *. simpl length. lia.
Qed.

Lemma omap_length_le {A B} (f : A -> option B) l : (length (omap f l) <= length l)%nat.
Proof. induction l as [|a l IH]; [done|]. cbn. case_match; cbn in *; lia. Qed.

Lemma node_written n : node_ok true n -> written n.
Proof.
  induction n as [m l fin IH] using node_ind'. intros Hok.
  assert (Forall (fun n => 8 <= node_len n) l) as H8.
  { inversion_clear Hok. eapply Forall_impl; [eassumption|]. apply node_len_pos. }
  inversion_clear Hok as [? ? Hm Hsz Hzl Hl].
  assert (Forall written l) as Hw.
  { clear -IH Hl. induction IH as [|c l Hc _ IHl]; [done|]. inversion_clear Hl.
    constructor; auto. }
  clear IH. destruct (iter_entries m Hm) as [He Hsize].
  pose proof (props_len_pos _ He) as Hpp. pose proof (props_count _ He) as Hpc.
  pose proof (children_count l H8) as Hcc.
  assert (0 <= zlen l) as Hl0 by (unfold zlen; lia).
  intros b pos Hpos Hfit. rewrite node_len_eq in *. rewrite serialise_node_eq.
  set (L := g_hash_table_iter m) in *. cbn [c_assert fst snd]. run.
  assert (forall n, zlen (le_split 4 n) = 4) as Hz4 by (intros; unfold zlen; by rewrite length_le_split).
  destruct (put_ok b (pos + 4) (le_split 4 (zlen l))) as (b1 & -> & Hl1 & Hs1 & Ha1);
    [lia|rewrite Hz4; lia|]. rewrite Hz4 in *. run.
  replace (pos + 4 + 4) with (pos + 8) in * by lia.
  destruct (serialise_props_ok L b1 (pos + 8) 0) as (b2 & -> & Hl2 & Ha2 & Hr2);
    [done|lia|unfold zlen in *; lia|lia|lia|]. rewrite Z.add_0_l in *. run.
  set (k := zlen (omap expand_entry L)) in *. assert (0 <= k) as Hk0 by (unfold k, zlen; lia).
  cbn [fst snd].
  destruct (blit_ok b2 (le_split 4 k) pos) as (b3 & -> & Hl3 & Hs3 & Ha3);
    [lia|rewrite Hz4; unfold zlen in *; lia|]. rewrite Hz4 in *. run.
  destruct (children_written l Hw H8 b3 (pos + 8 + props_len L)) as (b4 & -> & Hl4 & Ha4 & Hr4);
    [lia|unfold zlen in *; lia|].
  exists b4. split; [do 2 f_equal; lia|]. split; [congruence|]. split.
  { intros lo hi Hr. eapply agree_trans; [apply Ha1; lia|]. eapply agree_trans; [apply Ha2; lia|].
    eapply agree_trans; [apply Ha3; lia|apply Ha4; lia]. }
  intros b'' [|fuel] Hag Hf; [lia|]. cbn [apple_dt_deserialise_node].
  assert (length b'' = length b) as Hlb by (destruct Hag; congruence).
  rewrite (ldl_ok b'' pos k).
  2:{ pose proof (omap_length_le expand_entry L). unfold k, zlen in *. lia. }
  2:{ rewrite <- Hs3. symmetry. apply (slice_agree _ _ pos (pos + 4)); [|lia|lia].
      eapply agree_trans; [apply Ha4; lia|eapply agree_sub; [exact Hag|lia|lia]]. }
  run. rewrite (ldl_ok b'' (pos + 4) (zlen l)); [|lia|].
  2:{ rewrite <- Hs1. symmetry. apply (slice_agree _ _ (pos + 4) (pos + 8)); [|lia|lia].
      eapply agree_trans; [apply Ha2; lia|]. eapply agree_trans; [apply Ha3; lia|].
      eapply agree_trans; [apply Ha4; lia|eapply agree_sub; [exact Hag|lia|lia]]. }
  run. rewrite Hr2; [|eapply agree_trans; [apply Ha3; lia|];
    eapply agree_trans; [apply Ha4; lia|eapply agree_sub; [exact Hag|lia|lia]]
    |unfold k, zlen in *; lia].
  run. rewrite Hr4; [|eapply agree_sub; [exact Hag|lia|lia]|lia|unfold zlen in *; lia].
  run. cbn [fst snd expand props children]. unfold mret, outcome_ret.
  rewrite (expand_table m L) by apply g_hash_table_iter_perm. do 2 f_equal. lia.
Qed.

(** ** Finalising *)

Fixpoint finalised_tree (n : AppleDTNode) : AppleDTNode :=
  Node (props n) (map finalised_tree (children n)) true.

Lemma finalised_tree_ok n : node_ok false n ->
  node_ok true (finalised_tree n) /\ node_len (finalised_tree n) = node_len n /\
  expand (finalised_tree n) = expand n.
Proof.
  induction n as [m l fin IH] using node_ind'. intros Hok.
  inversion_clear Hok as [? ? Hm Hsz Hzl Hl]. cbn [finalised_tree props children].
  assert (Forall (node_ok true) (map finalised_tree l) /\
    children_len (map finalised_tree l) = children_len l /\
    map expand (map finalised_tree l) = map expand l) as (H1 & H2 & H3).
  { clear -IH Hl. induction IH as [|c l Hc _ IHl]; [done|]. inversion_clear Hl as [|? ? Hc0 Hl0].
    destruct (Hc Hc0) as (? & Hlen & Hex). destruct (IHl Hl0) as (? & Hlens & Hexs). cbn [map].
    split; [by constructor|]. split; [|by rewrite Hex, Hexs].
    change (node_len (finalised_tree c) + children_len (map finalised_tree l) =
      node_len c + children_len l). by rewrite Hlen, Hlens. }
  split; [|split].
  - constructor; [done..| |done]. unfold zlen. by rewrite length_map.
  - rewrite !node_len_eq. by rewrite H2.
  - cbn [expand props children]. by rewrite H3.
Qed.

Lemma prop_serialised_len_ok prop : prop_ok prop ->
  apple_dt_prop_serialised_len prop = Done (prop_len prop).
Proof.
  intros [Hl Hb _ Hp]. unfold apple_dt_prop_serialised_len, prop_len, expand_prop.
  destruct (p_placeholder prop); [|done]. destruct (Hp eq_refl) as (n & -> & Hn). run.
  by destruct (Z.eqb_spec n 0).
Qed.

Lemma serialised_len_ok l : forall len, Forall entry_ok l -> 0 <= len -> len + props_len l < 2 ^ 64 ->
  serialised_len len l = Done (len + props_len l).
Proof.
  induction l as [|[key prop] l IH]; intros len Hok H0 Hlt; cbn [serialised_len].
  { cbn. by rewrite Z.add_0_r. }
  inversion_clear Hok as [|? ? [_ Hp] Hok']. cbn [snd] in Hp.
  pose proof (prop_len_pos _ Hp). pose proof (props_len_pos _ Hok').
  change (props_len ((key, prop) :: l)) with (prop_len prop + props_len l) in *.
  rewrite prop_serialised_len_ok by done. run. rewrite wrap_small by (unfold in_width; lia).
  rewrite IH by (done || lia). f_equal. lia.
Qed.

Fixpoint finalise_children (l : list AppleDTNode) (len : Z) : outcome (Z * list AppleDTNode) :=
  match l with
  | [] => mret (len, [])
  | child :: l' =>
      r ← apple_dt_finalise child;
      rs ← finalise_children l' (u64 (len + fst r));
      mret (fst rs, snd r :: snd rs)
  end.

Lemma finalise_eq m l fin : apple_dt_finalise (Node m l fin) =
  (_ ← c_assert (negb fin);
   len ← serialised_len (4 + 4) (g_hash_table_iter m);
   r ← finalise_children l len;
   mret (fst r, Node m (snd r) true)).
Proof. reflexivity. Qed.

Lemma finalise_ok n : node_ok false n -> node_len n < 2 ^ 64 ->
  apple_dt_finalise n = Done (node_len n, finalised_tree n).
Proof.
  induction n as [m l fin IH] using node_ind'. intros Hok Hlt.
  assert (Forall (fun n => 8 <= node_len n) l) as H8.
  { inversion_clear Hok. eapply Forall_impl; [eassumption|]. apply node_len_pos. }
  inversion_clear Hok as [? ? Hm Hsz Hzl Hl].
  destruct (iter_entries m Hm) as [He _]. rewrite finalise_eq, node_len_eq in *.
  pose proof (props_len_pos _ He). pose proof (children_count l H8).
  assert (0 <= zlen l) by (unfold zlen; lia).
  cbn [negb c_assert]. run. rewrite serialised_len_ok by (done || lia). run.
  assert (forall len, 0 <= len -> len + children_len l < 2 ^ 64 ->
    finalise_children l len = Done (len + children_len l, map finalised_tree l)) as Hch.
  { clear -IH H8 Hl. induction IH as [|c l Hc _ IHl]; intros len H0 Hlt; cbn [finalise_children].
    - cbn. by rewrite Z.add_0_r.
    - inversion_clear Hl as [|? ? Hc0 Hl0]. inversion_clear H8 as [|? ? Hc8 Hl8].
      pose proof (children_count l Hl8). assert (0 <= zlen l) by (unfold zlen; lia).
      change (children_len (c :: l)) with (node_len c + children_len l) in *.
      rewrite Hc by (done || lia). run. cbn [fst snd].
      rewrite wrap_small by (unfold in_width; lia). rewrite IHl by (done || lia). run.
      cbn [fst snd map]. unfold mret, outcome_ret. do 2 f_equal. lia. }
  rewrite Hch by lia. by run.
Qed.

End Serialise.

(** ** Examples and further properties *)

Definition no_strtoull (_ : bytes) : Z := 0.

(** A root with a name and a placeholder, and one child. *)
Definition dt_example : AppleDTNode :=
  Node {[ str "name" := mkProp 5 false (str "root" ++ [0]);
          str "mac" := mkProp 10 true (str "macaddr/x" ++ [0]) ]}
    [Node {[ str "reg" := mkProp 4 false [1; 2; 3; 4] ]} [] false] false.

Lemma str_ok s : Forall (fun b => 0 < b < 256) (str s) \/ In 0 (str s).
Proof.
  unfold str. induction (String.list_ascii_of_string s) as [|a l IH]; [by left; constructor|].
  destruct IH as [IH|IH]; [|right; by right]. simpl.
  pose proof (Ascii.nat_ascii_bounded a). destruct (decide (Ascii.nat_of_ascii a = 0%nat)).
  - right. left. lia.
  - left. constructor; [lia|done].
Qed.

Lemma dt_example_ok : node_ok no_strtoull false dt_example.
Proof.
  assert (forall k s, k = str s -> existsb (Z.eqb 0) k = false -> zlen k < 32 -> key_ok k) as Hkey.
  { intros k s -> Hz Hl. split; [done|]. destruct (str_ok s) as [|Hin]; [done|].
    assert (existsb (Z.eqb 0) (str s) = true); [|congruence].
    apply existsb_exists. by exists 0. }
  assert (forall d, forallb (fun b => (0 <=? b) && (b <? 256)) d = true -> Forall (in_width 8) d) as Hby.
  { intros d Hd. apply Forall_forall. intros b Hb. apply list_elem_of_In in Hb.
    apply (proj1 (forallb_forall _ _) Hd) in Hb. apply andb_prop in Hb as [?%Z.leb_le ?%Z.ltb_lt].
    unfold in_width. lia. }
  unfold dt_example. constructor; [|vm_compute; reflexivity..|].
  - intros key prop Hl. apply lookup_insert_Some in Hl as [[<- <-]|[_ Hl]].
    + split; [by apply (Hkey _ "name")|]. split; [done|vm_compute; done|by apply Hby|done].
    + apply lookup_singleton_Some in Hl as [<- <-].
      split; [by apply (Hkey _ "mac")|]. split; [done|vm_compute; done|by apply Hby|].
      intros _. exists 6. split; [reflexivity|lia].
  - constructor; [|constructor]. constructor; [|vm_compute; reflexivity..|constructor].
    intros key prop Hl. apply lookup_singleton_Some in Hl as [<- <-].
    split; [by apply (Hkey _ "reg")|]. split; [done|vm_compute; done|by apply Hby|done].
Qed.


(** ** Reading terminates *)

(** A value or a read outside the blob. *)
Definition ended {A} (m : outcome A) : Prop :=
  match m with Done _ | Oob => True | Abort | NoFuel => False end.

(** A result that has ended and that moves forward in the blob. *)
Definition advances {A} (m : outcome A) (next : A -> Z) (b : bytes) (pos k : Z) : Prop :=
  ended m /\ forall a, m = Done a -> pos + k <= zlen b /\ pos + k <= next a.

Lemma slice_bounds {A} (b : list A) off n d : slice b off n = Done d -> 0 <= off /\ 0 <= n /\ off + n <= zlen b.
Proof.
  unfold slice. destruct ((0 <=? off) && (0 <=? n) && _) eqn:E; [|done].
  apply andb_prop in E as [[E1%Z.leb_le E2%Z.leb_le]%andb_prop E3%Z.leb_le]. done.
Qed.

Lemma slice_not_fuel {A} (b : list A) off n : ended (slice b off n).
Proof. unfold slice. by destruct (_ && _ && _). Qed.

Lemma ldl_cases b pos : (exists n, ldl_le_p b pos = Done n /\ 0 <= pos /\ pos + 4 <= zlen b) \/
  ldl_le_p b pos = Oob.
Proof.
  unfold ldl_le_p, slice. destruct ((0 <=? pos) && (0 <=? 4) && _) eqn:E; [left|by right].
  apply andb_prop in E as [[E1%Z.leb_le E2%Z.leb_le]%andb_prop E3%Z.leb_le]. by eexists.
Qed.

Lemma strnlen_not_fuel s n : ended (strnlen s n).
Proof.
  revert s. induction n as [|n IH]; intros [|b s]; simpl; try done.
  destruct (b =? 0); [done|]. specialize (IH s). by destruct (strnlen s n).
Qed.

Lemma round_up_nonneg n d : 0 <= ROUND_UP n d.
Proof. unfold ROUND_UP. apply Z.ldiff_nonneg. left. by apply wrap_range. Qed.

Lemma deserialise_prop_advances b pos :
  advances (apple_dt_deserialise_prop b pos) snd b pos 36.
Proof.
  unfold advances, apple_dt_deserialise_prop.
  pose proof (strnlen_not_fuel (drop (Z.to_nat pos) b) (Z.to_nat (APPLE_DT_PROP_NAME_LEN - 1))) as Hs.
  destruct (strnlen _ _) as [n| | |]; [|done..]. run.
  pose proof (slice_not_fuel b pos n) as Hn. destruct (slice b pos n); [|done..]. run. cbv zeta.
  destruct (ldl_cases b (pos + APPLE_DT_PROP_NAME_LEN)) as [(len & -> & _ & Hl)| ->]; [|done].
  run. unfold APPLE_DT_PROP_NAME_LEN in *.
  set (len' := if nonzero (len .& APPLE_DT_PROP_PLACEHOLDER) then _ else len).
  destruct (nonzero len').
  - pose proof (slice_not_fuel b (pos + 32 + 4) len') as Hn'.
    destruct (slice b (pos + 32 + 4) len'); [|done..]. run.
    split; [done|]. intros ? [= <-]. simpl. pose proof (round_up_nonneg len' 4). lia.
  - split; [done|]. intros ? [= <-]. simpl. lia.
Qed.

Definition enough (fuel : nat) (b : bytes) (pos : Z) : Prop :=
  1 <= Z.of_nat fuel /\ zlen b - pos + 1 <= Z.of_nat fuel.

Lemma deserialise_props_total fuel : forall b n pos m, enough fuel b pos ->
  ended (deserialise_props fuel b n pos m) /\
  forall r, deserialise_props fuel b n pos m = Done r -> pos <= snd r.
Proof.
  induction fuel as [|fuel IH]; intros b n pos m [H1 H2]; [lia|]. cbn [deserialise_props].
  destruct (n <=? 0). { split; [done|]. intros r [= <-]. done. }
  destruct (deserialise_prop_advances b pos) as [Hnf Hadv].
  destruct (apple_dt_deserialise_prop b pos) as [[[key prop] pos']| | |] eqn:E; [|done..].
  destruct (Hadv _ eq_refl) as [Ha Hb]. cbn [snd] in Hb. run.
  destruct (IH b (n - 1) pos' (<[key := prop]> m)) as [Hn Hr]; [split; lia|].
  split; [done|]. intros r Hr'. apply Hr in Hr'. lia.
Qed.

Lemma deserialise_children_total fuel : forall b rec n pos, enough fuel b pos ->
  (forall p, pos <= p -> advances (rec p) snd b p 8) ->
  ended (deserialise_children fuel rec n pos) /\
  forall r, deserialise_children fuel rec n pos = Done r -> pos <= snd r.
Proof.
  induction fuel as [|fuel IH]; intros b rec n pos [H1 H2] Hrec; [lia|].
  cbn [deserialise_children].
  destruct (n <=? 0). { split; [done|]. intros r [= <-]. done. }
  destruct (Hrec pos ltac:(lia)) as [Hnf Hadv].
  destruct (rec pos) as [[c pos']| | |]; [|done..]. destruct (Hadv _ eq_refl) as [Ha Hb].
  cbn [snd] in Hb. run. cbn [fst snd].
  destruct (IH b rec (n - 1) pos') as [Hn Hr]; [split; lia|intros; apply Hrec; lia|].
  destruct (deserialise_children fuel rec (n - 1) pos') as [rs| | |]; [|done..]. run.
  split; [done|]. intros r [= <-]. cbn [snd]. specialize (Hr rs eq_refl). lia.
Qed.

Lemma deserialise_node_total fuel : forall b pos, enough fuel b pos ->
  advances (apple_dt_deserialise_node fuel b pos) snd b pos 8.
Proof.
  induction fuel as [|fuel IH]; intros b pos [H1 H2]; [lia|]. unfold advances.
  cbn [apple_dt_deserialise_node].
  destruct (ldl_cases b pos) as [(pc & -> & Hp0 & _)| ->]; [|done]. run.
  destruct (ldl_cases b (pos + 4)) as [(cc & -> & _ & Hp4)| ->]; [|done]. run.
  destruct (deserialise_props_total (S (length b)) b pc (pos + 8) ∅) as [Hn Hr].
  { unfold enough, zlen in *. lia. }
  destruct (deserialise_props _ _ _ _ _) as [[m pos']| | |]; [|done..].
  specialize (Hr _ eq_refl). cbn [snd] in Hr. run.
  destruct (deserialise_children_total (S (length b)) b (apple_dt_deserialise_node fuel b) cc pos')
    as [Hn' Hr'].
  { unfold enough, zlen in *. lia. }
  { intros p Hp. apply IH. unfold enough. lia. }
  destruct (deserialise_children _ _ _ _) as [rs| | |]; [|done..]. run.
  split; [done|]. intros a [= <-]. cbn [snd]. specialize (Hr' _ eq_refl). lia.
Qed.

(** reading a device tree ends on every blob, however malformed: the
    counts in the blob cannot make [apple_dt_deserialise] recurse or loop
    beyond the bytes there are; it returns a tree or reads past the end. *)
Theorem dt_deserialise_terminates blob :
  (exists n, apple_dt_deserialise blob = Done n) \/ apple_dt_deserialise blob = Oob.
Proof.
  unfold apple_dt_deserialise.
  destruct (deserialise_node_total (S (length blob)) blob 0) as [Hn _].
  { unfold enough, zlen. lia. }
  destruct (apple_dt_deserialise_node _ _ _); simpl; eauto; done.
Qed.

(** ** Access *)

Lemma set_prop_ok node name v : zlen name < APPLE_DT_PROP_NAME_LEN -> finalised node = false ->
  apple_dt_set_prop node name (zlen v) (Some v) =
  Done (set_props node (<[name := mkProp (zlen v) false v]> (props node))).
Proof.
  intros Hl Hf. unfold apple_dt_set_prop. rewrite (proj2 (Z.ltb_lt _ _) Hl). cbn [c_assert]. run.
  assert (forall o, match o with
      | None => c_assert (negb (finalised node))
      | Some prop => c_assert (negb (finalised node && negb (p_len prop =? zlen v)))
      end = Done tt) as -> by (intros []; by rewrite Hf).
  run. rewrite slice_in_range by (unfold zlen; lia). run.
  change (Z.to_nat 0) with 0%nat. rewrite drop_0, take_ge by (unfold zlen; lia). done.
Qed.

Lemma get_int_ok size node name v d e1 e2 : apple_dt_get_prop node name = Some v ->
  p_len v = size -> zlen (p_data v) = size ->
  apple_dt_get_prop_int_full size node name d e1 e2 = Done (le_combine (p_data v)).
Proof.
  intros Hg Hl Hz. unfold apple_dt_get_prop_int_full. rewrite Hg, Hl, Z.eqb_refl. run.
  rewrite slice_in_range by (unfold zlen in *; lia). run.
  change (Z.to_nat 0) with 0%nat. rewrite drop_0, take_ge by (unfold zlen in *; lia). done.
Qed.

(** an integer property reads back as it was written, whatever the error
    arguments, and writing it leaves every other property and the children
    alone. *)
Theorem dt_set_get_int node name v32 v64 e : zlen name < APPLE_DT_PROP_NAME_LEN ->
  finalised node = false -> in_width 32 v32 -> in_width 64 v64 ->
  exists n32 n64, apple_dt_set_prop_u32 node name v32 = Done n32 /\
    apple_dt_set_prop_u64 node name v64 = Done n64 /\
    apple_dt_get_prop_u32 n32 name e = Done v32 /\ apple_dt_get_prop_u64 n64 name e = Done v64 /\
    (forall other, other <> name -> apple_dt_get_prop n32 other = apple_dt_get_prop node other /\
       apple_dt_get_prop n64 other = apple_dt_get_prop node other) /\
    children n32 = children node /\ children n64 = children node.
Proof.
  intros Hl Hf H32 H64. unfold apple_dt_set_prop_u32, apple_dt_set_prop_u64.
  pose proof (set_prop_ok node name (le_split 4 v32) Hl Hf) as E32.
  pose proof (set_prop_ok node name (le_split 8 v64) Hl Hf) as E64.
  assert (forall n x, zlen (le_split n x) = Z.of_nat n) as Hz
    by (intros; unfold zlen; by rewrite length_le_split).
  rewrite (Hz 4%nat) in E32. rewrite (Hz 8%nat) in E64.
  eexists _, _. split; [exact E32|]. split; [exact E64|].
  unfold apple_dt_get_prop_u32, apple_dt_get_prop_u64.
  split; [|split; [|split; [|done]]].
  - erewrite get_int_ok; [|apply lookup_insert_eq|reflexivity|reflexivity].
    cbn [p_data]. rewrite le_combine_split. by rewrite wrap_small.
  - erewrite get_int_ok; [|apply lookup_insert_eq|reflexivity|reflexivity].
    cbn [p_data]. rewrite le_combine_split. by rewrite wrap_small.
  - intros other Ho. unfold apple_dt_get_prop. cbn. by rewrite !lookup_insert_ne.
Qed.

Lemma dt_set_get_int_witness : exists n32,
  apple_dt_set_prop_u32 dt_example (str "x") 77 = Done n32 /\
  apple_dt_get_prop_u32 n32 (str "x") ErrNull = Done 77.
Proof.
  destruct (dt_set_get_int dt_example (str "x") 77 77 ErrNull) as (n32 & n64 & H1 & _ & H2 & _);
    [vm_compute; reflexivity|reflexivity|vm_compute; intuition congruence..|].
  exists n32. split; [exact H1|exact H2].
Defined.

Lemma strsep_no_delim d t : ~ In d t -> strsep_all d t = [t].
Proof.
  induction t as [|b t IH]; simpl; intros H; [done|].
  destruct (Z.eqb_spec b d) as [->|]; [naive_solver|]. by rewrite IH by naive_solver.
Qed.

Lemma strncmp_refl t : Forall (fun b => 0 < b < 256) t -> strncmp_eq (S (length t)) (t ++ [0]) t = true.
Proof.
  induction 1 as [|b t _ _ IH]; [done|]. cbn. rewrite Z.eqb_refl. exact IH.
Qed.

Lemma find_child_last t l i c : Forall (fun x => name_matches t x = false) l -> name_matches t c = true ->
  find_child t (l ++ [c]) i = Some ((i + length l)%nat, c).
Proof.
  intros Hl Hc. revert i. induction Hl as [|x l Hx _ IH]; intros i; simpl.
  - rewrite Hc. by rewrite Nat.add_0_r.
  - rewrite Hx, IH. f_equal. f_equal. lia.
Qed.

Lemma find_child_none t l i : find_child t l i = None -> Forall (fun x => name_matches t x = false) l.
Proof.
  revert i. induction l as [|x l IH]; intros i; simpl; [constructor|].
  destruct (name_matches t x) eqn:E; [done|]. constructor; eauto.
Qed.

(** a node created under a parent is the one its name finds: for a name
    that is not empty, has no slash and is not taken, [apple_dt_node_new] adds a
    child at the end, [apple_dt_get_node] returns exactly this child, and a
    second node of the same name is refused. *)
Theorem dt_node_new_get p name : finalised p = false -> name <> [] -> ~ In SLASH name ->
  Forall (fun b => 0 < b < 256) name -> zlen name < 2 ^ 32 - 1 ->
  apple_dt_get_node p name = None ->
  exists node p', apple_dt_node_new (Some p) (Some name) = Done (Some (node, Some p')) /\
    children p' = children p ++ [node] /\ props p' = props p /\
    apple_dt_get_node p' name = Some ([length (children p)], node) /\
    apple_dt_node_new (Some p') (Some name) = Done None.
Proof.
  intros Hf Hne Hs Hb Hl Hnone. unfold apple_dt_node_new. rewrite Hf, Hnone. cbn [c_assert negb]. run.
  unfold apple_dt_set_prop_str. rewrite wrap_small by (unfold in_width, zlen in *; lia).
  replace (zlen name + 1) with (zlen (name ++ [0]))
    by (unfold zlen; rewrite length_app; simpl; lia).
  rewrite set_prop_ok by done. run.
  set (node := set_props _ _). set (p' := Node _ _ _).
  assert (name_matches name node = true) as Hm.
  { unfold name_matches, node, apple_dt_get_prop. cbn [set_props props].
    rewrite lookup_insert_eq. cbn [p_len p_data].
    replace (Z.to_nat (zlen (name ++ [0]))) with (S (length name))
      by (unfold zlen; rewrite length_app; simpl; lia). by apply strncmp_refl. }
  assert (forall q, apple_dt_get_node q name =
    ('(i, child) ← find_child name (children q) 0; Some ([i], child))) as Hget.
  { intros q. unfold apple_dt_get_node. rewrite strsep_no_delim by done.
    destruct name as [|b name']; [done|]. cbn [walk]. by destruct (find_child _ _ _) as [[]|]. }
  assert (apple_dt_get_node p' name = Some ([length (children p)], node)) as Hfound.
  { rewrite Hget. cbn [p' children]. rewrite find_child_last; [done| |done].
    apply (find_child_none _ _ 0). rewrite Hget in Hnone.
    destruct (find_child name (children p) 0) as [[]|]; done. }
  exists node, p'. split; [done|]. do 2 (split; [done|]). split; [done|].
  change (finalised p') with false. cbn [negb c_assert]. run. by rewrite Hfound.
Qed.

Lemma dt_node_new_get_witness : exists node p',
  apple_dt_node_new (Some dt_example) (Some (str "arm-io")) = Done (Some (node, Some p')) /\
  apple_dt_get_node p' (str "arm-io") = Some ([1%nat], node).
Proof.
  destruct (dt_node_new_get dt_example (str "arm-io")) as (node & p' & H1 & _ & _ & H2 & _).
  - reflexivity.
  - discriminate.
  - vm_compute. intuition congruence.
  - repeat constructor.
  - vm_compute. reflexivity.
  - reflexivity.
  - exists node, p'. split; [exact H1|exact H2].
Defined.

(** A placeholder whose text is not terminated is read past its end: the copy
    that is searched has no room for a terminating zero. *)
Theorem dt_placeholder_unterminated f :
  apple_dt_prop_placeholder_len f (mkProp 8 true (str "zeroes/8")) = Oob.
Proof. reflexivity. Qed.
