(* ===== verification/Dart.v ===== *)
(** * DART: the IOMMU of the peripherals

    Model of [hw/arm/apple-silicon/dart.c].  Guest memory is a parameter: the
    function [ldq] gives the 64-bit word at a physical address, or [None] for a
    failed transaction.  A register write also returns the streams whose
    mappings it tells the memory core to drop. *)

From S2P Require Import Prelude Bitops.

Definition DART_MAX_STREAMS : Z := 16.
Definition DART_MAX_TTBR : Z := 4.

(** [REG_FIELD_EX32] and [REG_FIELD_DP32] for a field given by its first bit
    and its length. *)
Definition REG_FIELD_EX32 (storage : Z) (field : Z * Z) : Z :=
  extract32 storage (fst field) (snd field).
Definition REG_FIELD_DP32 (storage : Z) (field : Z * Z) (val : Z) : Z :=
  deposit32 storage (fst field) (snd field) (wrap (snd field) val).

Definition PARAMS1_PAGE_SHIFT : Z * Z := (24, 4).
Definition PARAMS1_ACCESS_REGION_PROTECTION : Z * Z := (31, 1).
Definition PARAMS2_BYPASS_SUPPORT : Z * Z := (0, 1).
Definition TLB_OP_OP : Z * Z := (0, 2).
Definition TLB_OP_BUSY : Z * Z := (2, 1).
Definition TLB_OP_SET_INDEX : Z * Z := (20, 12).
Definition DART_TLB_OP_INVALIDATE : Z := 0.
Definition R_DART_TLB_OP_BUSY_MASK : Z := BIT 2.
Definition ERROR_TTBR_INVLD : Z * Z := (0, 1).
Definition ERROR_L2E_INVLD : Z * Z := (1, 1).
Definition ERROR_PTE_INVLD : Z * Z := (2, 1).
Definition ERROR_WRITE_PROT : Z * Z := (3, 1).
Definition ERROR_READ_PROT : Z * Z := (4, 1).
Definition ERROR_SID : Z * Z := (24, 4).
Definition ERROR_FLAG : Z * Z := (31, 1).
Definition SID_CONFIG_TRANSLATION_ENABLE : Z * Z := (7, 1).
Definition SID_CONFIG_FULL_BYPASS : Z * Z := (8, 1).
Definition TTBR_VALID : Z * Z := (31, 1).
Definition PTE_NO_WRITE : Z * Z := (7, 1).
Definition PTE_NO_READ : Z * Z := (8, 1).
Definition DART_TTBR_SHIFT : Z := 12.
Definition DART_TTBR_MASK : Z := 0xFFFFFFF.
Definition DART_PTE_VALID : Z := 1.
Definition DART_PTE_ADDR_MASK : Z := 0xFFFFFFFFFF.

Definition R_DART_PARAMS1 : Z := 0x0.
Definition R_DART_PARAMS2 : Z := 0x1.
Definition R_DART_TLB_OP : Z := 0x8.
Definition R_DART_TLB_OP_SET_0_LOW : Z := 0xD.
Definition R_DART_TLB_OP_SET_0_HIGH : Z := 0xE.
Definition R_DART_ERROR_STATUS : Z := 0x10.
Definition R_DART_ERROR_ADDRESS_LOW : Z := 0x14.
Definition R_DART_ERROR_ADDRESS_HIGH : Z := 0x15.
Definition R_DART_CONFIG : Z := 0x18.
Definition A_DART_SID_REMAP (sid : Z) : Z := 0x80 + (sid .<< 2).
Definition R_DART_SID_REMAP (sid : Z) : Z := A_DART_SID_REMAP sid .>> 2.
Definition R_DART_SID_CONFIG (sid : Z) : Z := (0x100 + (sid .<< 2)) .>> 2.
Definition A_DART_TTBR (sid idx : Z) : Z :=
  0x200 + ((DART_MAX_STREAMS * sid + DART_MAX_TTBR * idx) .<< 2).
Definition R_DART_TTBR (sid idx : Z) : Z := A_DART_TTBR sid idx .>> 2.

Definition IOMMU_NONE : Z := 0.
Definition IOMMU_RO : Z := 1.
Definition IOMMU_WO : Z := 2.
Definition IOMMU_ACCESS_FLAG (r w : bool) : Z :=
  (if r then IOMMU_RO else 0) .| (if w then IOMMU_WO else 0).

Record AppleDARTDARTRegs := mkRegs {
  params1 : Z;
  params2 : Z;
  tlb_op : Z;
  tlb_op_set : Z;
  error_status : Z;
  error_address : Z;
  config : Z;
  sid_remap : list Z;
  sid_config : list Z;
  ttbr : list Z;
}.
#[global] Instance eta_AppleDARTDARTRegs : Eta AppleDARTDARTRegs := fun r =>
  mkRegs (params1 r) (params2 r) (tlb_op r) (tlb_op_set r) (error_status r)
    (error_address r) (config r) (sid_remap r) (sid_config r) (ttbr r).

(** An instance with its registers when it is a mapper. *)
Inductive AppleDARTInstance :=
| DART_DART (regs : AppleDARTDARTRegs)
| DART_SMMU
| DART_DAPF
| DART_UNKNOWN.

Record AppleDARTState := mkDART {
  irq : bool;
  instances : list AppleDARTInstance;
  page_shift : Z;
  page_mask : Z;
  page_bits : Z;
  l_mask : list Z;
  l_shift : list Z;
  sid_mask : Z;
  dart_options : Z;
}.
#[global] Instance eta_AppleDARTState : Eta AppleDARTState := fun r =>
  mkDART (irq r) (instances r) (page_shift r) (page_mask r) (page_bits r)
    (l_mask r) (l_shift r) (sid_mask r) (dart_options r).

(** The registers of instance [id]; the callbacks belong to mappers only. *)
Definition mapper_regs (dart : AppleDARTState) (id : nat) : outcome AppleDARTDARTRegs :=
  match instances dart !! id with Some (DART_DART regs) => Done regs | _ => Oob end.

Definition set_regs (dart : AppleDARTState) (id : nat) (regs : AppleDARTDARTRegs) : AppleDARTState :=
  dart <| instances ::= <[id := DART_DART regs]> |>.

Definition has_error (i : AppleDARTInstance) : bool :=
  match i with DART_DART regs => nonzero (error_status regs) | _ => false end.

Definition apple_dart_update_irq (dart : AppleDARTState) : AppleDARTState :=
  dart <| irq := existsb has_error (instances dart) |>.

Definition busy (regs : AppleDARTDARTRegs) : bool :=
  nonzero (REG_FIELD_EX32 (tlb_op regs) TLB_OP_BUSY).

Definition in_words (lo hi r : Z) : bool := (lo <=? r) && (r <=? hi).

(** The streams that an invalidation notifies, lowest first. *)
Definition notified (mask : Z) : list Z :=
  filter (fun i => Z.testbit mask i = true) (seqZ 0 DART_MAX_STREAMS).

Definition apple_dart_mapper_reg_write (dart : AppleDARTState) (id : nat) (addr data : Z)
    : outcome (list Z * AppleDARTState) :=
  regs ← mapper_regs dart id;
  let val := u32 data in
  let r := addr .>> 2 in
  if r =? R_DART_TLB_OP then
    if negb (REG_FIELD_EX32 val TLB_OP_OP =? DART_TLB_OP_INVALIDATE) ||
       (REG_FIELD_EX32 val TLB_OP_SET_INDEX =? 0) || busy regs
    then mret ([], dart)
    else
      let op := REG_FIELD_DP32 val TLB_OP_BUSY 1 in
      let set_index := REG_FIELD_EX32 val TLB_OP_SET_INDEX in
      let mask := if set_index .& BIT 0 =? 0 then 0 else tlb_op_set regs .& sid_mask dart in
      mret (notified mask,
            set_regs dart id (regs <| tlb_op := op .&~ R_DART_TLB_OP_BUSY_MASK |>))
  else if r =? R_DART_TLB_OP_SET_0_LOW then
    mret ([], if busy regs then dart
              else set_regs dart id (regs <| tlb_op_set ::= fun s => deposit64 s 0 32 val |>))
  else if r =? R_DART_TLB_OP_SET_0_HIGH then
    mret ([], if busy regs then dart
              else set_regs dart id (regs <| tlb_op_set ::= fun s => deposit64 s 32 32 val |>))
  else if r =? R_DART_ERROR_STATUS then
    mret ([], apple_dart_update_irq
                (set_regs dart id (regs <| error_status ::= fun e => e .&~ val |>)))
  else if r =? R_DART_CONFIG then mret ([], set_regs dart id (regs <| config := val |>))
  else if in_words (R_DART_SID_REMAP 0) (R_DART_SID_REMAP DART_MAX_STREAMS - 1) r then
    l ← blit (sid_remap regs) (u32 (addr - A_DART_SID_REMAP 0)) (le_split 4 val);
    mret ([], set_regs dart id (regs <| sid_remap := l |>))
  else if in_words (R_DART_SID_CONFIG 0) (R_DART_SID_CONFIG DART_MAX_STREAMS - 1) r then
    l ← aset (sid_config regs) (u32 (r - R_DART_SID_CONFIG 0)) val;
    mret ([], set_regs dart id (regs <| sid_config := l |>))
  else if in_words (R_DART_TTBR 0 0) (R_DART_TTBR DART_MAX_STREAMS DART_MAX_TTBR - 1) r then
    l ← aset (ttbr regs) (u32 (r - R_DART_TTBR 0 0)) val;
    mret ([], set_regs dart id (regs <| ttbr := l |>))
  else mret ([], dart).

Definition apple_dart_mapper_reg_read (dart : AppleDARTState) (id : nat) (addr : Z) : outcome Z :=
  regs ← mapper_regs dart id;
  let r := addr .>> 2 in
  if r =? R_DART_PARAMS1 then mret (params1 regs)
  else if r =? R_DART_PARAMS2 then mret (params2 regs)
  else if r =? R_DART_TLB_OP then mret (tlb_op regs)
  else if r =? R_DART_TLB_OP_SET_0_LOW then mret (extract64 (tlb_op_set regs) 0 32)
  else if r =? R_DART_TLB_OP_SET_0_HIGH then mret (extract64 (tlb_op_set regs) 32 32)
  else if r =? R_DART_ERROR_STATUS then mret (error_status regs)
  else if r =? R_DART_ERROR_ADDRESS_LOW then mret (extract64 (error_address regs) 0 32)
  else if r =? R_DART_ERROR_ADDRESS_HIGH then mret (extract64 (error_address regs) 32 32)
  else if r =? R_DART_CONFIG then mret (config regs)
  else if in_words (R_DART_SID_REMAP 0) (R_DART_SID_REMAP DART_MAX_STREAMS - 1) r then
    le_combine <$> slice (sid_remap regs) (u32 (addr - A_DART_SID_REMAP 0)) 4
  else if in_words (R_DART_SID_CONFIG 0) (R_DART_SID_CONFIG DART_MAX_STREAMS - 1) r then
    aget (sid_config regs) (u32 (r - R_DART_SID_CONFIG 0))
  else if in_words (R_DART_TTBR 0 0) (R_DART_TTBR DART_MAX_STREAMS DART_MAX_TTBR - 1) r then
    aget (ttbr regs) (u32 (r - R_DART_TTBR 0 0))
  else mret 0.

(** The registers of the SMMU, DAPF and unknown instances do nothing. *)
Definition apple_dart_dummy_reg_write (dart : AppleDARTState) (_ _ : Z) : AppleDARTState := dart.
Definition apple_dart_dummy_reg_read (_ : AppleDARTState) (_ : Z) : Z := 0.

(** ** Translation *)

Record IOMMUTLBEntry := mkEntry {
  iova : Z;
  translated_addr : Z;
  addr_mask : Z;
  perm : Z;
}.

Definition error_with (field : Z * Z) : Z :=
  REG_FIELD_DP32 (REG_FIELD_DP32 0 ERROR_FLAG 1) field 1.

(** The index into the table of level [level]. *)
Definition level_index (dart : AppleDARTState) (iova : Z) (level : nat) : outcome Z :=
  mask ← aget (l_mask dart) (Z.of_nat level);
  shift ← aget (l_shift dart) (Z.of_nat level);
  mret ((iova .& mask) .>> shift).

Section Walk.

(** [address_space_ldq] on the system memory. *)
Variable ldq : Z -> option Z.

(** One turn of the loop over the levels: the error, or the entry and the
    address of the next table. *)
Definition ptw_level (dart : AppleDARTState) (iova pa : Z) (level : nat) : outcome (Z + Z * Z) :=
  idx ← level_index dart iova level;
  let pa := u64 (pa + 8 * idx) in
  match ldq pa with
  | None => mret (inl (error_with ERROR_L2E_INVLD))
  | Some pte =>
      if pte .& DART_PTE_VALID =? 0 then mret (inl (error_with ERROR_PTE_INVLD))
      else mret (inr (pte, (pte .& page_mask dart) .& DART_PTE_ADDR_MASK))
  end.

(** [inl] is the error status, [inr] the translated page and the permissions. *)
Definition apple_dart_mapper_ptw (dart : AppleDARTState) (regs : AppleDARTDARTRegs) (sid iova : Z)
    : outcome (Z + Z * Z) :=
  idx ← level_index dart iova 0;
  let invalid := inl (error_with ERROR_TTBR_INVLD) in
  if (DART_MAX_STREAMS <=? sid) || negb (Z.testbit (sid_mask dart) sid) || (DART_MAX_TTBR <=? idx)
  then mret invalid
  else
    t ← aget (ttbr regs) (DART_MAX_TTBR * sid + idx);
    if REG_FIELD_EX32 t TTBR_VALID =? 0 then mret invalid
    else
      let pa := (t .& DART_TTBR_MASK) .<< DART_TTBR_SHIFT in
      r1 ← ptw_level dart iova pa 1;
      match r1 with
      | inl e => mret (inl e)
      | inr (_, pa) =>
          r2 ← ptw_level dart iova pa 2;
          match r2 with
          | inl e => mret (inl e)
          | inr (pte, pa) =>
              mret (inr (pa, IOMMU_ACCESS_FLAG (REG_FIELD_EX32 (u32 pte) PTE_NO_READ =? 0)
                                               (REG_FIELD_EX32 (u32 pte) PTE_NO_WRITE =? 0)))
          end
      end.

(** Recording a fault of stream [s]. *)
Definition fault (dart : AppleDARTState) (id : nat) (regs : AppleDARTDARTRegs) (addr status s : Z)
    : AppleDARTState :=
  set_regs dart id (regs <| error_address := addr |>
    <| error_status := REG_FIELD_DP32 status ERROR_SID s |>) <| irq := true |>.

Definition protection_status (status : Z) : Z :=
  REG_FIELD_DP32 (REG_FIELD_DP32 status ERROR_FLAG 1) ERROR_WRITE_PROT 1.

(** A missing permission is recorded with the write protection bit, also when
    it is the one to read. *)
Definition check_permission (dart : AppleDARTState) (id : nat) (addr flag s need have : Z)
    : outcome AppleDARTState :=
  if nonzero (flag .& need) && (have .& need =? 0) then
    regs ← mapper_regs dart id;
    mret (fault dart id regs addr (protection_status (error_status regs)) s)
  else mret dart.

Definition apple_dart_mapper_translate (dart : AppleDARTState) (id : nat) (s addr flag : Z)
    : outcome (IOMMUTLBEntry * AppleDARTState) :=
  regs ← mapper_regs dart id;
  let none := mkEntry addr 0 (page_bits dart) IOMMU_NONE in
  if busy regs then mret (none, dart)
  else
    sid ← aget (sid_remap regs) s;
    cfg ← aget (sid_config regs) sid;
    if (REG_FIELD_EX32 cfg SID_CONFIG_TRANSLATION_ENABLE =? 0) ||
       nonzero (REG_FIELD_EX32 cfg SID_CONFIG_FULL_BYPASS)
    then mret (none, dart)
    else
      r ← apple_dart_mapper_ptw dart regs sid (addr .>> page_shift dart);
      match r with
      | inl status =>
          mret (none, fault dart id regs addr (error_status regs .| status) s)
      | inr (page, p) =>
          let entry := mkEntry addr (page .| (addr .& page_bits dart)) (page_bits dart) p in
          dart ← check_permission dart id addr flag s IOMMU_WO p;
          dart ← check_permission dart id addr flag s IOMMU_RO p;
          mret (entry, dart)
      end.
End Walk.

(** ** Reset and creation *)

Definition reset_regs (dart : AppleDARTState) : AppleDARTDARTRegs :=
  {| params1 := REG_FIELD_DP32 (REG_FIELD_DP32 0 PARAMS1_PAGE_SHIFT (page_shift dart))
                  PARAMS1_ACCESS_REGION_PROTECTION
                  (Z.b2z (nonzero (dart_options dart .& BIT 1)));
     params2 := REG_FIELD_DP32 0 PARAMS2_BYPASS_SUPPORT 1;
     tlb_op := 0; tlb_op_set := 0; error_status := 0; error_address := 0; config := 0;
     sid_remap := seqZ 0 DART_MAX_STREAMS;
     sid_config := replicate 16 0;
     ttbr := replicate 64 0 |}.

Definition reset_instance (dart : AppleDARTState) (i : AppleDARTInstance) : AppleDARTInstance :=
  match i with DART_DART _ => DART_DART (reset_regs dart) | _ => i end.

Definition apple_dart_reset (dart : AppleDARTState) : AppleDARTState :=
  dart <| instances ::= map (reset_instance dart) |>.

(** The index of the mapper whose region for stream [sid] is returned. *)
Fixpoint first_mapper (l : list AppleDARTInstance) (i : nat) : option nat :=
  match l with
  | [] => None
  | DART_DART _ :: _ => Some i
  | _ :: l' => first_mapper l' (S i)
  end.

Definition apple_dart_iommu_mr (dart : AppleDARTState) (sid : Z) : option nat :=
  if Z.testbit (sid_mask dart) sid then first_mapper (instances dart) 0 else None.

Definition apple_dart_instance_iommu_mr (dart : AppleDARTState) (instance : nat) (sid : Z) : option nat :=
  if (Z.of_nat (length (instances dart)) <=? Z.of_nat instance) ||
     negb (Z.testbit (sid_mask dart) sid) then None
  else match instances dart !! instance with
       | Some (DART_DART _) => Some instance
       | _ => None
       end.

(** The part of [apple_dart_from_node] that sets up the state, from the
    values of the properties "page-size", "sids" and "dart-options" and the
    type codes of the instances. *)
Inductive instance_code := Code_DART | Code_SMMU | Code_DAPF | Code_other.

Definition zero_regs : AppleDARTDARTRegs :=
  mkRegs 0 0 0 0 0 0 0 (replicate 16 0) (replicate 16 0) (replicate 64 0).

Definition new_instance (c : instance_code) : AppleDARTInstance :=
  match c with
  | Code_DART => DART_DART zero_regs
  | Code_SMMU => DART_SMMU
  | Code_DAPF => DART_DAPF
  | Code_other => DART_UNKNOWN
  end.

Definition apple_dart_from_node (page_size sids options : Z) (codes : list instance_code)
    : outcome AppleDARTState :=
  let shift := Z.log2 page_size in
  let bits := page_size - 1 in
  let make masks shifts :=
    mkDART false (map new_instance codes) shift (u64 (Z.lnot bits)) bits masks shifts sids options in
  if shift =? 12 then mret (make [0xC0000; 0x3FE00; 0x1FF] [0x12; 9; 0])
  else if shift =? 14 then mret (make [0xC00000; 0x3FF800; 0x7FF] [0x16; 11; 0])
  else Abort.

(** ** Well-formed states *)

Record regs_ok (r : AppleDARTDARTRegs) : Prop := {
  ok_remap : length (sid_remap r) = 16%nat;
  ok_targets : Forall (fun sid => 0 <= sid < 16) (sid_remap r);
  ok_config : length (sid_config r) = 16%nat;
  ok_ttbr : length (ttbr r) = 64%nat;
}.

(** The two page sizes: [b] is the number of index bits of a level. *)
Definition geometry (dart : AppleDARTState) (b : Z) : Prop :=
  (b = 9 /\ page_shift dart = 12 \/ b = 11 /\ page_shift dart = 14) /\
  page_bits dart = 2 ^ page_shift dart - 1 /\ page_mask dart = u64 (Z.lnot (page_bits dart)) /\
  l_mask dart = [3 .<< (2 * b); Z.ones b .<< b; Z.ones b] /\ l_shift dart = [2 * b; b; 0].

Record dart_wf (dart : AppleDARTState) : Prop := {
  wf_geometry : exists b, geometry dart b;
  wf_regs : forall id r, instances dart !! id = Some (DART_DART r) -> regs_ok r;
}.

(** An error that is recorded holds the line up. *)
Definition irq_ok (dart : AppleDARTState) : Prop :=
  existsb has_error (instances dart) = true -> irq dart = true.

(** The reference decomposition of an address: the indices of the three levels
    are digits of its page number. *)
Definition va_index (b : Z) (dart : AppleDARTState) (addr : Z) (level : nat) : Z :=
  match level with
  | 0%nat => (addr / 2 ^ (page_shift dart + 2 * b)) mod 4
  | 1%nat => (addr / 2 ^ (page_shift dart + b)) mod 2 ^ b
  | _ => (addr / 2 ^ page_shift dart) mod 2 ^ b
  end.

Lemma aget_three (a b c : Z) n : (n < 3)%nat -> aget [a; b; c] (Z.of_nat n) = Done (nth n [a; b; c] 0).
Proof. by destruct n as [|[|[|n]]]; [| | |lia]. Qed.

Lemma level_index_ok dart b addr level : geometry dart b -> (level < 3)%nat ->
  level_index dart (addr .>> page_shift dart) level = Done (va_index b dart addr level).
Proof.
  intros (Hb & _ & _ & Hm & Hs) Hl. unfold level_index. rewrite Hm, Hs.
  assert (0 < b /\ 0 < page_shift dart) as [Hb0 Hp0] by lia.
  assert (forall k, 0 <= k -> (addr .>> page_shift dart) / 2 ^ k = addr / 2 ^ (page_shift dart + k)) as Hd.
  { intros k Hk. rewrite Z.shiftr_div_pow2, Z.div_div, <- Z.pow_add_r by lia. done. }
  rewrite !aget_three by done. run.
  destruct level as [|[|[|level]]]; [| | |lia]; cbn [nth va_index]; unfold mret, outcome_ret; f_equal.
  - change 3 with (Z.ones 2). rewrite mask_shift by lia. by rewrite Hd by lia.
  - rewrite mask_shift by lia. by rewrite Hd by lia.
  - rewrite Z.shiftr_0_r, Z.land_ones, Z.shiftr_div_pow2 by lia. done.
Qed.

Lemma va_index_range dart b addr level : geometry dart b ->
  0 <= va_index b dart addr level < match level with 0%nat => 4 | _ => 2 ^ b end.
Proof.
  intros (Hb & _). assert (0 < 2 ^ b) by (apply Z.pow_pos_nonneg; lia).
  destruct level as [|[|level]]; cbn; apply Z.mod_pos_bound; lia.
Qed.

(** ** The reference walk *)

(** The page frame of a table entry. *)
Definition frame (dart : AppleDARTState) (pte : Z) : Z :=
  (pte .& page_mask dart) .& DART_PTE_ADDR_MASK.

Definition pte_valid (pte : Z) : bool := Z.testbit pte 0.
Definition pte_readable (pte : Z) : bool := negb (Z.testbit pte 8).
Definition pte_writable (pte : Z) : bool := negb (Z.testbit pte 7).

(** The entry that maps [addr]: two table lookups from the base register. *)
Definition table_walk (ldq : Z -> option Z) (dart : AppleDARTState) (b : Z) (t addr : Z) : option Z :=
  if negb (Z.testbit t 31) then None
  else
    pte1 ← ldq (u64 ((t .& DART_TTBR_MASK) * 2 ^ 12 + 8 * va_index b dart addr 1));
    if negb (pte_valid pte1) then None
    else
      pte2 ← ldq (u64 (frame dart pte1 + 8 * va_index b dart addr 2));
      if negb (pte_valid pte2) then None else Some pte2.

Lemma land_1 x : (x .& 1 =? 0) = negb (Z.testbit x 0).
Proof. change 1 with (BIT 0). pose proof (land_BIT_nonzero x 0 ltac:(done)) as H.
  unfold nonzero in H. by rewrite <- H, negb_involutive. Qed.

Lemma ex32_bit x i : 0 <= i < 32 -> (REG_FIELD_EX32 x (i, 1) =? 0) = negb (Z.testbit x i).
Proof.
  intros Hi. unfold REG_FIELD_EX32. cbn [fst snd]. rewrite extract32_bit by done.
  by destruct (Z.testbit x i).
Qed.

Lemma ex32_bit_u32 x i : 0 <= i < 32 -> (REG_FIELD_EX32 (u32 x) (i, 1) =? 0) = negb (Z.testbit x i).
Proof.
  intros Hi. rewrite ex32_bit by done. rewrite testbit_wrap by lia. by eval_cmp.
Qed.

(** The walk of the source finds the same entry as the reference. *)
Lemma ptw_walk ldq dart b regs sid addr t : geometry dart b -> 0 <= sid < 16 ->
  Z.testbit (sid_mask dart) sid = true ->
  ttbr regs !! Z.to_nat (4 * sid + va_index b dart addr 0) = Some t ->
  exists r, apple_dart_mapper_ptw ldq dart regs sid (addr .>> page_shift dart) = Done r /\
    match table_walk ldq dart b t addr with
    | Some pte => r = inr (frame dart pte, IOMMU_ACCESS_FLAG (pte_readable pte) (pte_writable pte))
    | None => exists f, r = inl (error_with f) /\
        (f = ERROR_TTBR_INVLD \/ f = ERROR_L2E_INVLD \/ f = ERROR_PTE_INVLD)
    end.
Proof.
  intros Hg Hsid Hmask Ht. pose proof (va_index_range dart b addr 0 Hg) as Hi0. cbn iota in Hi0.
  unfold apple_dart_mapper_ptw, table_walk, ptw_level.
  rewrite !(level_index_ok dart b) by (done || lia). run. cbv zeta.
  unfold DART_MAX_STREAMS, DART_MAX_TTBR. eval_cmp. rewrite Hmask. cbn [orb negb].
  rewrite (proj2 (aget_Done (ttbr regs) _ t)) by (split; [lia|exact Ht]). run.
  unfold TTBR_VALID. rewrite ex32_bit by lia.
  destruct (Z.testbit t 31); cbn [negb]; [|eauto 10].
  rewrite Z.shiftl_mul_pow2 by done. unfold DART_TTBR_SHIFT, DART_PTE_VALID.
  destruct (ldq _) as [pte1|]; run; cbn [mbind option_bind]; [|eauto 10].
  rewrite land_1. unfold pte_valid. destruct (Z.testbit pte1 0); cbn [negb]; run; [|eauto 10].
  fold (frame dart pte1). destruct (ldq _) as [pte2|]; run; cbn [mbind option_bind]; [|eauto 10].
  rewrite land_1. destruct (Z.testbit pte2 0); cbn [negb]; run; [|eauto 10].
  unfold PTE_NO_READ, PTE_NO_WRITE. rewrite !ex32_bit_u32 by lia. eauto.
Qed.

(** ** Faults *)

(** [dart'] is [dart] with a fault of stream [s] at [addr] recorded in [id]. *)
Definition faulted (dart : AppleDARTState) (id : nat) (s addr : Z) (dart' : AppleDARTState) : Prop :=
  exists regs', dart' = set_regs dart id regs' <| irq := true |> /\
    error_address regs' = addr /\ Z.testbit (error_status regs') 31 = true /\
    REG_FIELD_EX32 (error_status regs') ERROR_SID = s.

Lemma set_regs_again dart id r r' :
  set_regs (set_regs dart id r <| irq := true |>) id r' <| irq := true |> =
  set_regs dart id r' <| irq := true |>.
Proof. unfold set_regs, setf. destruct dart. cbn. by rewrite list_insert_insert_eq. Qed.

Lemma fault_faulted dart id regs addr status s : 0 <= s < 16 ->
  Z.testbit status 31 = true -> faulted dart id s addr (fault dart id regs addr status s).
Proof.
  intros Hs Hf. eexists. split; [done|]. split; [done|].
  match goal with |- context [error_status ?r] =>
    change (error_status r) with (REG_FIELD_DP32 status ERROR_SID s) end.
  unfold REG_FIELD_EX32, REG_FIELD_DP32. cbn [fst snd].
  rewrite testbit_deposit32, extract32_deposit32_same by done. split; [done|].
  rewrite !wrap_small; unfold in_width; rewrite ?wrap_small; unfold in_width; cbn; lia.
Qed.

Lemma faulted_again dart id s addr d1 d2 :
  faulted dart id s addr d1 -> faulted d1 id s addr d2 -> faulted dart id s addr d2.
Proof.
  intros (r1 & -> & _) (r2 & -> & H). exists r2. split; [|done]. apply set_regs_again.
Qed.

Lemma faulted_regs dart id s addr dart' r : instances dart !! id = Some (DART_DART r) ->
  faulted dart id s addr dart' -> exists r', instances dart' !! id = Some (DART_DART r').
Proof.
  intros Hr (r' & -> & _). exists r'. cbn. apply list_lookup_insert_eq, lookup_lt_is_Some. eauto.
Qed.

(** A check either passes and leaves the state, or records a fault. *)
Lemma check_permission_ok dart id addr flag s need have r :
  instances dart !! id = Some (DART_DART r) -> 0 <= s < 16 ->
  exists dart', check_permission dart id addr flag s need have = Done dart' /\
    if nonzero (flag .& need) && (have .& need =? 0)
    then faulted dart id s addr dart' else dart' = dart.
Proof.
  intros Hr Hs. unfold check_permission. destruct (_ && _); [|eauto].
  unfold mapper_regs. rewrite Hr. run. eexists. split; [done|].
  apply fault_faulted; [done|].
  unfold protection_status, REG_FIELD_DP32. cbn [fst snd].
  by rewrite !testbit_deposit32 by done.
Qed.

Lemma frame_disjoint dart b pte addr : geometry dart b ->
  frame dart pte .| (addr .& page_bits dart) = frame dart pte + addr mod 2 ^ page_shift dart.
Proof.
  intros (Hb & Hbits & Hmask & _). assert (0 < page_shift dart) by lia.
  unfold frame. rewrite Hmask, Hbits. replace (2 ^ page_shift dart - 1) with (Z.ones (page_shift dart))
    by (rewrite Z.ones_equiv; lia).
  rewrite <- Z.land_ones by lia. rewrite Z.add_nocarry_lxor, Z.lxor_lor; [done| |].
  all: apply Z.bits_inj'; intros i Hi; rewrite !Z.land_spec, testbit_wrap, Z.lnot_spec, Z.testbit_ones, Z.bits_0 by lia.
  all: eval_cmp; destruct (i <? page_shift dart); cbn; rewrite ?andb_false_r; done.
Qed.

(** Whether the entry [pte] grants the access [flag]. *)
Definition granted (flag pte : Z) : bool :=
  (negb (nonzero (flag .& IOMMU_WO)) || pte_writable pte) &&
  (negb (nonzero (flag .& IOMMU_RO)) || pte_readable pte).

(** Both checks together, for the permissions of an entry. *)
Lemma check_both dart id addr flag s pte r : instances dart !! id = Some (DART_DART r) ->
  0 <= s < 16 ->
  let p := IOMMU_ACCESS_FLAG (pte_readable pte) (pte_writable pte) in
  exists dart', (d ← check_permission dart id addr flag s IOMMU_WO p;
                 check_permission d id addr flag s IOMMU_RO p) = Done dart' /\
    if granted flag pte then dart' = dart else faulted dart id s addr dart'.
Proof.
  intros Hr Hs p.
  destruct (check_permission_ok dart id addr flag s IOMMU_WO p r Hr Hs) as (d1 & E1 & H1).
  assert (exists r1, instances d1 !! id = Some (DART_DART r1)) as (r1 & Hr1).
  { destruct (_ && _); [by eapply faulted_regs|subst; eauto]. }
  destruct (check_permission_ok d1 id addr flag s IOMMU_RO p r1 Hr1 Hs) as (d2 & E2 & H2).
  exists d2. rewrite E1, bind_Done, E2. split; [done|]. unfold granted.
  replace (p .& IOMMU_WO =? 0) with (negb (pte_writable pte)) in H1
    by (subst p; by destruct (pte_readable pte), (pte_writable pte)).
  replace (p .& IOMMU_RO =? 0) with (negb (pte_readable pte)) in H2
    by (subst p; by destruct (pte_readable pte), (pte_writable pte)).
  destruct (nonzero (flag .& IOMMU_WO)), (nonzero (flag .& IOMMU_RO)), (pte_writable pte), (pte_readable pte);
    cbn in *; subst; eauto using faulted_again.
Qed.

(** C36: translation of an enabled stream.  For a mapper that is not
    invalidating, a stream [s] remapped to a served stream [sid] whose
    configuration enables translation, the entry of the three-level walk of the
    reference decides the result.  If the walk finds a page, the address is sent
    to that page's frame plus the offset of the address in its page, with the
    permissions of the entry; the state does not change when the entry grants
    the access, and otherwise a fault with the address and the stream is
    recorded and the interrupt raised.  If the walk finds no page, nothing is
    mapped and the fault is recorded. *)
Theorem dart_translate_spec ldq dart id b regs s sid cfg t addr flag :
  geometry dart b -> instances dart !! id = Some (DART_DART regs) ->
  busy regs = false -> 0 <= s < 16 ->
  sid_remap regs !! Z.to_nat s = Some sid -> 0 <= sid < 16 ->
  Z.testbit (sid_mask dart) sid = true ->
  sid_config regs !! Z.to_nat sid = Some cfg -> Z.testbit cfg 7 = true -> Z.testbit cfg 8 = false ->
  ttbr regs !! Z.to_nat (4 * sid + va_index b dart addr 0) = Some t ->
  exists entry dart', apple_dart_mapper_translate ldq dart id s addr flag = Done (entry, dart') /\
    iova entry = addr /\ addr_mask entry = 2 ^ page_shift dart - 1 /\
    match table_walk ldq dart b t addr with
    | Some pte =>
        translated_addr entry = frame dart pte + addr mod 2 ^ page_shift dart /\
        perm entry = IOMMU_ACCESS_FLAG (pte_readable pte) (pte_writable pte) /\
        (if granted flag pte then dart' = dart else faulted dart id s addr dart')
    | None => perm entry = IOMMU_NONE /\ faulted dart id s addr dart'
    end.
Proof.
  intros Hg Hr Hb Hs Hremap Hsid Hmask Hcfg Hen Hby Ht.
  pose proof (proj1 (proj2 Hg)) as Hbits.
  unfold apple_dart_mapper_translate, mapper_regs. rewrite Hr. run. cbv zeta. rewrite Hb.
  rewrite (proj2 (aget_Done (sid_remap regs) s sid)) by (split; [lia|done]). run.
  rewrite (proj2 (aget_Done (sid_config regs) sid cfg)) by (split; [lia|done]). run.
  unfold SID_CONFIG_TRANSLATION_ENABLE, SID_CONFIG_FULL_BYPASS, nonzero.
  rewrite !ex32_bit, Hen, Hby by lia. cbn [negb orb].
  destruct (ptw_walk ldq dart b regs sid addr t Hg Hsid Hmask Ht) as (r & -> & Hw). run.
  destruct (table_walk ldq dart b t addr) as [pte|].
  - subst r. destruct (check_both dart id addr flag s pte regs Hr Hs) as (d & Ed & Hd).
    apply bind_Done_inv in Ed as (d1 & -> & Ed). rewrite bind_Done, Ed. run.
    eexists _, d. split; [done|]. cbn [iova addr_mask translated_addr perm].
    split_and!; [done|done|by eapply frame_disjoint|done|done].
  - destruct Hw as (f & -> & Hf). eexists _, _. split; [done|]. split_and!; [done..|].
    apply fault_faulted; [done|]. rewrite Z.lor_spec.
    by destruct Hf as [-> | [-> | ->]]; rewrite orb_true_r.
Qed.

(** A mapper with 4K pages that serves stream 0, with one page mapped. *)
Definition example_regs : AppleDARTDARTRegs :=
  mkRegs 0 1 0 0 0 0 0 (seqZ 0 16) (0x80 :: replicate 15 0) (0x80000001 :: replicate 63 0).
Definition example_dart : AppleDARTState :=
  mkDART false [DART_SMMU; DART_DART example_regs] 12 0xFFFFFFFFFFFFF000 0xFFF
    [0xC0000; 0x3FE00; 0x1FF] [0x12; 9; 0] 1 0.
Definition example_tables (pa : Z) : option Z :=
  if pa =? 0x1000 then Some 0x2001 else if pa =? 0x2018 then Some 0x7081 else Some 0.

Lemma example_geometry : geometry example_dart 9.
Proof. repeat split; auto. Qed.

Lemma dart_translate_spec_witness :
  exists entry dart',
    apple_dart_mapper_translate example_tables example_dart 1 0 0x3ABC IOMMU_RO = Done (entry, dart') /\
    translated_addr entry = 0x7ABC /\ perm entry = IOMMU_RO /\ dart' = example_dart.
Proof.
  destruct (dart_translate_spec example_tables example_dart 1 9 example_regs 0 0 0x80 0x80000001
    0x3ABC IOMMU_RO example_geometry eq_refl eq_refl ltac:(lia) eq_refl ltac:(lia)
    eq_refl eq_refl eq_refl eq_refl eq_refl) as (entry & dart' & H & _ & _ & Ht & Hp & Hd).
  exists entry, dart'. vm_compute in Hd, Ht, Hp. repeat split; assumption.
Defined.

(** the tables separate pages.  Two addresses of the translated range
    ([2^32] bytes with 4K pages, [2^38] with 16K pages) that use the same
    entries at all three levels lie in the same page. *)
Theorem dart_levels_injective dart b a a' : geometry dart b ->
  0 <= a < 2 ^ (page_shift dart + 2 * b + 2) -> 0 <= a' < 2 ^ (page_shift dart + 2 * b + 2) ->
  (forall level, (level < 3)%nat ->
    level_index dart (a .>> page_shift dart) level = level_index dart (a' .>> page_shift dart) level) ->
  a .>> page_shift dart = a' .>> page_shift dart.
Proof.
  intros Hg Ha Ha' H. pose proof Hg as (Hb & _).
  assert (forall x, 0 <= x < 2 ^ (page_shift dart + 2 * b + 2) ->
    x .>> page_shift dart = va_index b dart x 2 + 2 ^ b * (va_index b dart x 1 + 2 ^ b * va_index b dart x 0)) as Hdigits.
  { intros x Hx. cbn [va_index]. rewrite Z.shiftr_div_pow2 by lia.
    replace (page_shift dart + 2 * b) with (page_shift dart + b + b) by lia.
    rewrite !(Z.pow_add_r _ _ b), <- !Z.div_div by (try apply Z.pow_pos_nonneg; lia).
    rewrite (Z.mod_small _ 4).
    - pose proof (Z.div_mod (x / 2 ^ page_shift dart) (2 ^ b)).
      pose proof (Z.div_mod (x / 2 ^ page_shift dart / 2 ^ b) (2 ^ b)).
      assert (2 ^ b <> 0) by (apply Z.pow_nonzero; lia). lia.
    - replace (page_shift dart + 2 * b + 2) with (page_shift dart + b + b + 2) in Hx by lia.
      rewrite !Z.pow_add_r in Hx by lia. change (2 ^ 2) with 4 in Hx.
      rewrite !Z.div_div by (try apply Z.mul_pos_pos; try apply Z.pow_pos_nonneg; lia).
      split; [apply Z.div_pos|apply Z.div_lt_upper_bound];
        try apply Z.mul_pos_pos; try apply Z.mul_pos_pos; try apply Z.pow_pos_nonneg; lia. }
  rewrite !Hdigits by done.
  pose proof (fun l Hl => eq_trans (eq_sym (level_index_ok dart b a l Hg Hl))
    (eq_trans (H l Hl) (level_index_ok dart b a' l Hg Hl))) as Heq.
  assert (forall l, (l < 3)%nat -> va_index b dart a l = va_index b dart a' l) as E
    by (intros l Hl; by injection (Heq l Hl)).
  by rewrite !(E 0%nat), !(E 1%nat), !(E 2%nat) by lia.
Qed.

Lemma dart_levels_injective_witness :
  0x3ABC .>> page_shift example_dart = 0x3DEF .>> page_shift example_dart.
Proof.
  apply (dart_levels_injective example_dart 9 0x3ABC 0x3DEF example_geometry);
    [vm_compute; split; congruence..|].
  intros [|[|[|level]]] Hl; [done..|lia].
Defined.

(** ** The device as a whole *)

(** What the guest and the devices behind the mapper can do. *)
Inductive dart_op :=
| OpWrite (id : nat) (addr data : Z)
| OpTranslate (id : nat) (s addr flag : Z)
| OpReset.

Definition dart_step (ldq : Z -> option Z) (dart : AppleDARTState) (op : dart_op)
    : outcome AppleDARTState :=
  match op with
  | OpWrite id addr data => snd <$> apple_dart_mapper_reg_write dart id addr data
  | OpTranslate id s addr flag => snd <$> apple_dart_mapper_translate ldq dart id s addr flag
  | OpReset => mret (apple_dart_reset dart)
  end.

Definition is_mapper (dart : AppleDARTState) (id : nat) : bool :=
  match instances dart !! id with Some (DART_DART _) => true | _ => false end.

(** The accesses that stay inside the register arrays: of the sixteen words
    of the remap range only the first four, of the base registers the first
    sixty-four; a remap value names a stream. *)
Definition op_safe (dart : AppleDARTState) (op : dart_op) : bool :=
  match op with
  | OpWrite id addr data =>
      let r := addr .>> 2 in
      is_mapper dart id && (0 <=? addr) && (addr <? 2 ^ 32) &&
      (if in_words 0x20 0x2F r
       then (addr <=? 0x8C) && forallb (fun byte => byte <? 16) (le_split 4 (u32 data)) else true) &&
      (if in_words 0x80 0x18F r then r <? 0xC0 else true)
  | OpTranslate id s addr flag => is_mapper dart id && (0 <=? s) && (s <? 16)
  | OpReset => true
  end.

Lemma is_mapper_regs dart id : is_mapper dart id = true ->
  exists regs, instances dart !! id = Some (DART_DART regs).
Proof. unfold is_mapper. destruct (_ !! id) as [[]|]; [eauto|done..]. Qed.

(** Replacing the registers of a mapper. *)
Lemma set_regs_wf dart id regs : dart_wf dart -> regs_ok regs -> dart_wf (set_regs dart id regs).
Proof.
  intros [[b Hg] Hr] Hok. split; [exists b; exact Hg|]. intros i r Hi.
  change (instances (set_regs dart id regs)) with (<[id := DART_DART regs]> (instances dart)) in Hi.
  apply list_lookup_insert_Some in Hi as [(_ & [= ->] & _)|[_ Hi]]; eauto.
Qed.

Lemma irq_wf dart b : dart_wf dart -> dart_wf (dart <| irq := b |>).
Proof. intros [Hg Hr]. split; [exact Hg|exact Hr]. Qed.

Lemma existsb_insert_same (l : list AppleDARTInstance) id i j :
  l !! id = Some i -> has_error j = has_error i ->
  existsb has_error (<[id := j]> l) = existsb has_error l.
Proof.
  revert id. induction l as [|x l IH]; intros [|id]; [done..| |]; cbn.
  - intros [= ->] ->. done.
  - intros Hl He. f_equal. exact (IH id Hl He).
Qed.

(** A register update that keeps the error status keeps both invariants. *)
Lemma set_regs_ok dart id regs regs' : dart_wf dart -> irq_ok dart ->
  instances dart !! id = Some (DART_DART regs) -> regs_ok regs' ->
  error_status regs' = error_status regs ->
  dart_wf (set_regs dart id regs') /\ irq_ok (set_regs dart id regs').
Proof.
  intros Hwf Hirq Hr Hok He. split; [by apply set_regs_wf|]. unfold irq_ok in *.
  change (irq (set_regs dart id regs')) with (irq dart).
  change (instances (set_regs dart id regs')) with (<[id := DART_DART regs']> (instances dart)).
  rewrite (existsb_insert_same _ _ (DART_DART regs)); [done..|]. cbn. by rewrite He.
Qed.

Lemma fault_ok dart id regs addr status s : dart_wf dart -> regs_ok regs ->
  dart_wf (fault dart id regs addr status s) /\ irq_ok (fault dart id regs addr status s).
Proof.
  intros Hwf [H1 H2 H3 H4]. split; [|done].
  apply irq_wf, set_regs_wf; [done|]. by split.
Qed.

Lemma check_permission_wf dart id addr flag s need have : dart_wf dart -> irq_ok dart ->
  is_mapper dart id = true ->
  exists dart', check_permission dart id addr flag s need have = Done dart' /\
    dart_wf dart' /\ irq_ok dart' /\ is_mapper dart' id = true.
Proof.
  intros Hwf Hirq Hm. unfold check_permission. destruct (_ && _); [|eauto].
  destruct (is_mapper_regs _ _ Hm) as [r Hr]. unfold mapper_regs. rewrite Hr. run.
  destruct (fault_ok dart id r addr (protection_status (error_status r)) s Hwf
    (wf_regs _ Hwf _ _ Hr)) as [Hwf' Hirq'].
  eexists. split_and!; [done..|].
  unfold is_mapper, fault, set_regs.
  match goal with |- context [instances ?d !! id] =>
    change (instances d) with (<[id := DART_DART (r <| error_address := addr |>
      <| error_status := REG_FIELD_DP32 (protection_status (error_status r)) ERROR_SID s |>)]>
      (instances dart)) end.
  rewrite list_lookup_insert_eq; [done|]. by eapply lookup_lt_Some.
Qed.

(** The walk of a stream below sixteen never leaves the base registers. *)
Lemma ptw_Done ldq dart regs sid addr : dart_wf dart -> regs_ok regs -> 0 <= sid < 16 ->
  exists r, apple_dart_mapper_ptw ldq dart regs sid (addr .>> page_shift dart) = Done r.
Proof.
  intros [[b Hg] _] [_ _ _ Ht] Hsid. pose proof (va_index_range dart b addr 0 Hg) as Hi. cbn iota in Hi.
  destruct (Z.testbit (sid_mask dart) sid) eqn:Hm.
  - destruct (lookup_lt_is_Some_2 (ttbr regs) (Z.to_nat (4 * sid + va_index b dart addr 0)))
      as [t Hl]; [lia|].
    destruct (ptw_walk ldq dart b regs sid addr t Hg Hsid Hm Hl) as (r & -> & _). eauto.
  - unfold apple_dart_mapper_ptw. rewrite (level_index_ok dart b) by (done || lia). run. cbv zeta.
    rewrite Hm, orb_true_r. eauto.
Qed.

Lemma translate_ok ldq dart id s addr flag : dart_wf dart -> irq_ok dart ->
  is_mapper dart id = true -> 0 <= s < 16 ->
  exists entry dart', apple_dart_mapper_translate ldq dart id s addr flag = Done (entry, dart') /\
    dart_wf dart' /\ irq_ok dart'.
Proof.
  intros Hwf Hirq Hm Hs. destruct (is_mapper_regs _ _ Hm) as [regs Hr].
  pose proof (wf_regs _ Hwf _ _ Hr) as Hok. pose proof Hok as [Hl HT Hc Ht].
  unfold apple_dart_mapper_translate, mapper_regs. rewrite Hr. run. cbv zeta.
  destruct (busy regs); [eauto 6|].
  destruct (aget_in_range (sid_remap regs) s) as [sid E]; [unfold zlen; lia|].
  rewrite E. run. apply aget_Done in E as [_ E]. assert (0 <= sid < 16) as Hsid by (eapply Forall_lookup_1 in HT; eauto).
  destruct (aget_in_range (sid_config regs) sid) as [cfg ->]; [unfold zlen; lia|]. run.
  destruct (_ || _); [eauto 6|].
  destruct (ptw_Done ldq dart regs sid addr Hwf Hok Hsid) as [[st|[page p]] ->]; run.
  { eexists _, _. split; [done|]. by apply fault_ok. }
  destruct (check_permission_wf dart id addr flag s IOMMU_WO p Hwf Hirq Hm) as (d1 & -> & Hwf1 & Hirq1 & Hm1). run.
  destruct (check_permission_wf d1 id addr flag s IOMMU_RO p Hwf1 Hirq1 Hm1) as (d2 & -> & Hwf2 & Hirq2 & _). run.
  eauto 6.
Qed.

Lemma dart_update_irq_ok dart : dart_wf dart ->
  dart_wf (apple_dart_update_irq dart) /\ irq_ok (apple_dart_update_irq dart).
Proof. intros Hwf. split; [by apply irq_wf|]. intros H. exact H. Qed.

Lemma blit_targets l off val : length l = 16%nat -> Forall (fun sid => 0 <= sid < 16) l ->
  0 <= off <= 12 -> forallb (fun byte => byte <? 16) (le_split 4 val) = true ->
  exists l', blit l off (le_split 4 val) = Done l' /\ length l' = 16%nat /\
    Forall (fun sid => 0 <= sid < 16) l'.
Proof.
  intros Hl HF Hoff Hb. destruct (blit_in_range l (le_split 4 val) off) as (l' & -> & Hl' & Hi).
  { lia. } { unfold zlen. rewrite length_le_split, Hl. lia. }
  eexists. split_and!; [done|congruence|]. apply Forall_lookup_2. intros i x Hx. rewrite Hi in Hx.
  case_decide; [|by eapply Forall_lookup_1 in HF].
  pose proof (proj1 (Forall_lookup _ _) (le_split_bytes 4 val) _ _ Hx) as [H0 _].
  rewrite forallb_forall in Hb. specialize (Hb x). rewrite Z.ltb_lt in Hb.
  split; [done|]. apply Hb, list_elem_of_In. by eapply list_elem_of_lookup_2.
Qed.

Lemma in_words_iff lo hi r : in_words lo hi r = true <-> lo <= r <= hi.
Proof. unfold in_words. rewrite andb_true_iff, !Z.leb_le. done. Qed.

Lemma aset_word (l : list Z) lo r v : 0 <= lo -> lo <= r < lo + Z.of_nat (length l) -> r < 2 ^ 30 ->
  exists l', aset l (u32 (r - lo)) v = Done l' /\ length l' = length l.
Proof.
  intros H0 Hr Hlt. rewrite wrap_small by (unfold in_width; lia).
  rewrite aset_in_range by (unfold zlen; lia). eexists. split; [done|]. apply length_insert.
Qed.

Lemma write_ok dart id addr data : dart_wf dart -> irq_ok dart ->
  op_safe dart (OpWrite id addr data) = true ->
  exists l dart', apple_dart_mapper_reg_write dart id addr data = Done (l, dart') /\
    dart_wf dart' /\ irq_ok dart'.
Proof.
  intros Hwf Hirq Hsafe. unfold op_safe in Hsafe. rewrite !andb_true_iff in Hsafe.
  destruct Hsafe as ((((Hm & Ha0) & Ha1) & Hremap) & Httbr).
  apply Z.leb_le in Ha0. apply Z.ltb_lt in Ha1.
  destruct (is_mapper_regs _ _ Hm) as [regs Hr].
  pose proof (wf_regs _ Hwf _ _ Hr) as Hok. pose proof Hok as [Hl HT Hc Ht].
  pose proof (fun regs' => set_regs_ok dart id regs regs' Hwf Hirq Hr) as Hset.
  assert (0 <= addr .>> 2 < 2 ^ 30) as Hrr.
  { rewrite Z.shiftr_div_pow2 by done.
    split; [apply Z.div_pos; lia|apply Z.div_lt_upper_bound; lia]. }
  unfold apple_dart_mapper_reg_write, mapper_regs. rewrite Hr. run. cbv zeta.
  unfold DART_MAX_STREAMS, DART_MAX_TTBR.
  change (R_DART_SID_REMAP 0) with 0x20. change (R_DART_SID_REMAP 16 - 1) with 0x2F.
  change (R_DART_SID_CONFIG 0) with 0x40. change (R_DART_SID_CONFIG 16 - 1) with 0x4F.
  change (R_DART_TTBR 0 0) with 0x80. change (R_DART_TTBR 16 4 - 1) with 0x18F.
  change (A_DART_SID_REMAP 0) with 0x80.
  destruct (_ =? R_DART_TLB_OP).
  { destruct (_ || _); [eauto 6|]. eexists _, _. split; [done|]. by apply Hset. }
  destruct (_ =? R_DART_TLB_OP_SET_0_LOW).
  { eexists _, _. split; [done|]. destruct (busy regs); [done|]. by apply Hset. }
  destruct (_ =? R_DART_TLB_OP_SET_0_HIGH).
  { eexists _, _. split; [done|]. destruct (busy regs); [done|]. by apply Hset. }
  destruct (_ =? R_DART_ERROR_STATUS).
  { eexists _, _. split; [done|]. by apply dart_update_irq_ok, set_regs_wf. }
  destruct (_ =? R_DART_CONFIG).
  { eexists _, _. split; [done|]. by apply Hset. }
  destruct (in_words 0x20 0x2F (addr .>> 2)) eqn:Ein.
  { apply andb_true_iff in Hremap as [Hhi Hb]. apply Z.leb_le in Hhi. apply in_words_iff in Ein.
    assert (0x80 <= addr) by (rewrite Z.shiftr_div_pow2 in Ein by done; pose proof (Z.mul_div_le addr (2 ^ 2)); lia).
    rewrite wrap_small by (unfold in_width; lia).
    destruct (blit_targets (sid_remap regs) (addr - 0x80) (u32 data)) as (l' & -> & ? & ?); [done..|lia|done|].
    run. eexists _, _. split; [done|]. by apply Hset. }
  destruct (in_words 0x40 0x4F (addr .>> 2)) eqn:Ecfg.
  { apply in_words_iff in Ecfg.
    destruct (aset_word (sid_config regs) 0x40 (addr .>> 2) (u32 data)) as (l' & -> & ?); [lia..|].
    run. eexists _, _. split; [done|]. apply Hset; [|done]. split; cbn; congruence. }
  destruct (in_words 0x80 0x18F (addr .>> 2)) eqn:Etb; [|eauto 6].
  apply in_words_iff in Etb. apply Z.ltb_lt in Httbr.
  destruct (aset_word (ttbr regs) 0x80 (addr .>> 2) (u32 data)) as (l' & -> & ?); [lia..|].
  run. eexists _, _. split; [done|]. apply Hset; [|done]. split; cbn; congruence.
Qed.

Lemma reset_ok dart : dart_wf dart -> dart_wf (apple_dart_reset dart) /\ irq_ok (apple_dart_reset dart).
Proof.
  intros [[b Hg] Hr]. split.
  - split; [exists b; exact Hg|]. intros id r Hid.
    change (instances (apple_dart_reset dart)) with (reset_instance dart <$> instances dart) in Hid.
    rewrite list_lookup_fmap in Hid. apply fmap_Some in Hid as (i & Hi & E).
    destruct i as [r'| | |]; [|done..]. injection E as ->.
    split; [done| |done..]. apply Forall_forall. intros x Hx. apply elem_of_seqZ in Hx. exact Hx.
  - intros H. exfalso. apply existsb_exists in H as (i & Hi & He).
    change (instances (apple_dart_reset dart)) with (map (reset_instance dart) (instances dart)) in Hi.
    apply in_map_iff in Hi as (i' & <- & _). by destruct i'.
Qed.


Lemma example_wf : dart_wf example_dart.
Proof.
  split; [exists 9; apply example_geometry|]. intros [|[|[|id]]] r [= <-].
  split; [done| |done..]. apply Forall_forall. intros x Hx. apply elem_of_seqZ in Hx. exact Hx.
Qed.


(** The remap range is four times the array: the fifth word is outside. *)
Lemma dart_remap_overrun :
  dart_step example_tables example_dart (OpWrite 1 0x90 0) = Oob.
Proof. vm_compute. reflexivity. Qed.

(** The range of the base registers goes past the 64 of them. *)
Lemma dart_ttbr_overrun :
  dart_step example_tables example_dart (OpWrite 1 0x300 0) = Oob.
Proof. vm_compute. reflexivity. Qed.

(** A remap byte above fifteen is used as an index of the stream
    configurations. *)
Lemma dart_remap_target_overrun :
  match dart_step example_tables example_dart (OpWrite 1 0x80 0x10) with
  | Done dart' => dart_step example_tables dart' (OpTranslate 1 0 0x3ABC IOMMU_RO)
  | _ => Abort
  end = Oob.
Proof. vm_compute. reflexivity. Qed.

(** A read that is not permitted is reported as a write protection fault. *)
Lemma dart_read_fault_bit :
  match dart_step (fun pa => option_map (Z.lor 0x100) (example_tables pa)) example_dart
          (OpTranslate 1 0 0x3ABC IOMMU_RO) with
  | Done dart' =>
      match instances dart' !! 1%nat with
      | Some (DART_DART regs) => Some (REG_FIELD_EX32 (error_status regs) ERROR_WRITE_PROT,
                                       REG_FIELD_EX32 (error_status regs) ERROR_READ_PROT)
      | _ => None
      end
  | _ => None
  end = Some (1, 0).
Proof. vm_compute. reflexivity. Qed.

(** Reset clears the errors and leaves the line as it was. *)
Lemma dart_reset_keeps_irq dart : irq (apple_dart_reset dart) = irq dart.
Proof. reflexivity. Qed.

(** A device made from a device tree node with one of the two page sizes is
    well formed. *)
Lemma dart_from_node_wf page_size sids options codes :
  page_size = 2 ^ 12 \/ page_size = 2 ^ 14 ->
  exists dart, apple_dart_from_node page_size sids options codes = Done dart /\
    dart_wf dart /\ irq_ok dart.
Proof.
  assert (forall d, instances d = map new_instance codes -> (exists b, geometry d b) ->
    dart_wf d /\ irq_ok d) as H.
  { intros d Hd Hg. split.
    - split; [done|]. intros id r Hi. rewrite Hd in Hi.
      change (map new_instance codes) with (new_instance <$> codes) in Hi.
      rewrite list_lookup_fmap in Hi. apply fmap_Some in Hi as (c & _ & E).
      destruct c; [|done..]. injection E as ->. split; [done| |done..].
      by repeat constructor.
    - intros He. rewrite Hd in He. apply existsb_exists in He as (i & (c & <- & _)%in_map_iff & He).
      by destruct c. }
  intros [-> | ->]; eexists; (split; [reflexivity|]); (apply H; [done|]).
  - exists 9. repeat split; auto.
  - exists 11. repeat split; auto.
Qed.
