(* ===== verification/Lzss.v ===== *)
(** * LZSS decompression of kernel images

    Model of [hw/arm/apple-silicon/lzss.h].  The destination is the list of
    bytes written so far and the capacity of the caller's buffer; the part of
    the window that the source leaves uninitialised holds the parameter
    [junk].  The format is given by the encoding of a list of tokens. *)

From S2P Require Import Prelude.

Definition N : Z := 4096.
Definition F : Z := 18.
Definition THRESHOLD : Z := 2.

(** The variables of the loop. *)
Record lzss := mkLzss {
  src : list Z;
  flags : Z;
  text_buf : list Z;
  r : Z;
  dst : list Z;
}.
#[global] Instance eta_lzss : Eta lzss := fun s =>
  mkLzss (src s) (flags s) (text_buf s) (r s) (dst s).

Section Decoder.
(** The capacity of the destination. *)
Variable capacity : Z.

Definition put_byte (c : Z) (s : lzss) : outcome lzss :=
  if zlen (dst s) <? capacity then
    buf ← aset (text_buf s) (r s) c;
    mret (s <| dst ::= fun d => d ++ [c] |> <| text_buf := buf |> <| r := (r s + 1) .& (N - 1) |>)
  else Oob.

(** The inner loop, with [n] turns left. *)
Fixpoint copy_loop (n : nat) (i k : Z) (s : lzss) : outcome lzss :=
  match n with
  | O => mret s
  | S n' =>
      c ← aget (text_buf s) ((i + k) .& (N - 1));
      s ← put_byte c s;
      copy_loop n' i (k + 1) s
  end.

(** The next flags, from the source when the eight of the last byte are used. *)
Definition refill (s : lzss) : option lzss :=
  let flags' := flags s .>> 1 in
  if flags' .& 0x100 =? 0 then
    match src s with
    | [] => None
    | c :: rest => Some (s <| src := rest |> <| flags := c .| 0xFF00 |>)
    end
  else Some (s <| flags := flags' |>).

(** One literal or one copy; [None] when the source ends. *)
Definition token_step (s : lzss) : outcome (option lzss) :=
  if nonzero (flags s .& 1) then
    match src s with
    | [] => mret None
    | c :: rest => s ← put_byte c (s <| src := rest |>); mret (Some s)
    end
  else
    match src s with
    | i :: j :: rest =>
        let i := i .| ((j .& 0xF0) .<< 4) in
        let j := (j .& 0x0F) + THRESHOLD in
        s ← copy_loop (Z.to_nat (j + 1)) i 0 (s <| src := rest |>);
        mret (Some s)
    | _ => mret None
    end.

Fixpoint lzss_loop (fuel : nat) (s : lzss) : outcome (list Z) :=
  match refill s with
  | None => mret (dst s)
  | Some s =>
      match fuel with
      | O => NoFuel
      | S fuel' =>
          t ← token_step s;
          match t with
          | None => mret (dst s)
          | Some s => lzss_loop fuel' s
          end
      end
  end.

(** [junk] is what the uninitialised end of the window holds. *)
Definition decompress_lzss (junk : list Z) (data : list Z) : outcome (list Z) :=
  lzss_loop (length data)
    (mkLzss data 0 (replicate (Z.to_nat (N - F)) 0x20 ++ junk) (N - F) []).
End Decoder.

(** ** The format *)

Inductive token :=
| Literal (c : Z)
| Copy (pos len : Z).

Definition token_ok (t : token) : Prop :=
  match t with
  | Literal c => 0 <= c < 256
  | Copy pos len => 0 <= pos < N /\ THRESHOLD < len <= F
  end.

(** The history before the first byte is [N - F] spaces, at the positions from
    zero; byte [n] of the history is at position [n mod N] of the window. *)
Definition history (out : list Z) : list Z := replicate (Z.to_nat (N - F)) 0x20 ++ out.

(** The byte of the history last written at position [p]. *)
Definition window (junk h : list Z) (p : Z) : Z :=
  let last := zlen h - 1 in
  let n := last - (last - p) mod N in
  if 0 <=? n then default 0 (h !! Z.to_nat n) else default 0 (junk !! Z.to_nat (p - (N - F))).

Fixpoint copy_bytes (junk : list Z) (n : nat) (pos : Z) (out : list Z) : list Z :=
  match n with
  | O => out
  | S n' => copy_bytes junk n' (pos + 1) (out ++ [window junk (history out) (pos mod N)])
  end.

Definition expand_token (junk : list Z) (out : list Z) (t : token) : list Z :=
  match t with
  | Literal c => out ++ [c]
  | Copy pos len => copy_bytes junk (Z.to_nat len) pos out
  end.

(** What a list of tokens stands for. *)
Definition expand (junk : list Z) (ts : list token) : list Z := foldl (expand_token junk) [] ts.

(** A token is one or two bytes; a byte with one bit per token comes before
    every eight of them. *)
Definition payload (t : token) : list Z :=
  match t with
  | Literal c => [c]
  | Copy pos len => [pos mod 256; 16 * (pos / 256) + (len - 3)]
  end.

Definition is_literal (t : token) : bool := match t with Literal _ => true | _ => false end.

Fixpoint flag_byte (g : list token) : Z :=
  match g with
  | [] => 0
  | t :: g' => Z.b2z (is_literal t) + 2 * flag_byte g'
  end.

Fixpoint encode_groups (n : nat) (ts : list token) : list Z :=
  match n, ts with
  | S n', _ :: _ =>
      flag_byte (take 8 ts) :: concat (payload <$> take 8 ts) ++ encode_groups n' (drop 8 ts)
  | _, _ => []
  end.
Definition encode (ts : list token) : list Z := encode_groups (length ts) ts.

(** ** The window of the source holds the history *)

Record lzss_inv (junk : list Z) (s : lzss) : Prop := {
  inv_buf : length (text_buf s) = 4113%nat;
  inv_r : r s = zlen (history (dst s)) mod N;
  inv_window : forall p, 0 <= p < N ->
    text_buf s !! Z.to_nat p = Some (window junk (history (dst s)) p);
}.

Lemma history_snoc out c : history (out ++ [c]) = history out ++ [c].
Proof. unfold history. by rewrite (assoc_L (++)). Qed.

Lemma zlen_history out : zlen (history out) = 4078 + zlen out.
Proof. unfold history, zlen. rewrite length_app, length_replicate. change (Z.to_nat (N - F)) with 4078%nat. lia. Qed.

Lemma window_snoc junk h c p : 0 <= p < N ->
  window junk (h ++ [c]) p = if p =? zlen h mod N then c else window junk h p.
Proof.
  intros Hp. unfold window. cbv zeta.
  assert (zlen (h ++ [c]) - 1 = zlen h) as -> by (unfold zlen; rewrite length_app; cbn; lia).
  assert (0 <= zlen h) as Hl by (unfold zlen; lia). unfold N in *.
  destruct (Z.eqb_spec p (zlen h mod 4096)) as [->|Hne].
  - replace ((zlen h - zlen h mod 4096) mod 4096) with 0.
    + rewrite Z.sub_0_r. eval_cmp. unfold zlen. rewrite Nat2Z.id, lookup_app_r, Nat.sub_diag by lia. done.
    + pose proof (Z.div_mod (zlen h) 4096 ltac:(done)) as E.
      replace (zlen h - zlen h mod 4096) with (zlen h / 4096 * 4096) by lia. by rewrite Z.mod_mul.
  - assert ((zlen h - p) mod 4096 <> 0) as H0.
    { intros H0. apply Hne. apply Z.mod_divide in H0 as [q Hq]; [|done].
      replace (zlen h) with (p + q * 4096) by lia. rewrite Z.mod_add, Z.mod_small by lia. done. }
    assert ((zlen h - 1 - p) mod 4096 = (zlen h - p) mod 4096 - 1) as ->.
    { pose proof (Z.mod_pos_bound (zlen h - p) 4096 ltac:(done)).
      pose proof (Z.div_mod (zlen h - p) 4096 ltac:(done)).
      symmetry. apply Z.mod_unique with (q := (zlen h - p) / 4096); lia. }
    replace (zlen h - 1 - ((zlen h - p) mod 4096 - 1)) with (zlen h - (zlen h - p) mod 4096) by lia.
    pose proof (Z.mod_pos_bound (zlen h - p) 4096 ltac:(done)).
    destruct (Z.leb_spec 0 (zlen h - (zlen h - p) mod 4096)); [|done].
    rewrite lookup_app_l; [done|]. unfold zlen in *. lia.
Qed.

Lemma land_mod x : x .& (N - 1) = x mod N.
Proof. change (N - 1) with (Z.ones 12). by rewrite Z.land_ones. Qed.

Lemma put_byte_ok capacity junk c s : lzss_inv junk s -> zlen (dst s) < capacity ->
  exists s', put_byte capacity c s = Done s' /\ lzss_inv junk s' /\ dst s' = dst s ++ [c] /\
    src s' = src s /\ flags s' = flags s.
Proof.
  intros [Hb Hr Hw] Hc. unfold put_byte. eval_cmp.
  assert (0 <= r s < N) as Hrange by (rewrite Hr; by apply Z.mod_pos_bound).
  rewrite aset_in_range by (unfold zlen, N in *; lia). run. eexists. split; [done|]. split; [|done].
  split; cbn [text_buf dst setf r].
  - by rewrite length_insert.
  - rewrite land_mod, history_snoc, Hr, Zplus_mod_idemp_l. unfold zlen. rewrite length_app. cbn. f_equal. lia.
  - intros p Hp. rewrite history_snoc, window_snoc, <- Hr by done.
    destruct (Z.eqb_spec p (r s)) as [->|Hne].
    + apply list_lookup_insert_eq. unfold N in *. lia.
    + rewrite list_lookup_insert_ne by lia. by apply Hw.
Qed.

Lemma copy_loop_ok capacity junk n : forall i k s, lzss_inv junk s ->
  zlen (dst s) + Z.of_nat n <= capacity ->
  exists s', copy_loop capacity n i k s = Done s' /\ lzss_inv junk s' /\
    dst s' = copy_bytes junk n (i + k) (dst s) /\ src s' = src s /\ flags s' = flags s.
Proof.
  induction n as [|n IH]; intros i k s Hs Hc; [by exists s|]. cbn [copy_loop copy_bytes].
  assert (0 <= (i + k) mod N < N) as Hm by (by apply Z.mod_pos_bound).
  rewrite land_mod, (proj2 (aget_Done _ _ _) (conj (proj1 Hm) (inv_window _ _ Hs _ Hm))). run.
  destruct (put_byte_ok capacity junk (window junk (history (dst s)) ((i + k) mod N)) s Hs)
    as (s1 & -> & Hs1 & Hd & Hsrc & Hf); [lia|]. run.
  destruct (IH i (k + 1) s1 Hs1) as (s2 & -> & Hs2 & Hd2 & Hsrc2 & Hf2).
  { rewrite Hd. unfold zlen in *. rewrite length_app. cbn. lia. }
  exists s2. rewrite Hd2, Hd, Hsrc2, Hf2. by rewrite Z.add_assoc.
Qed.

Lemma copy_bytes_length junk n : forall pos out,
  length (copy_bytes junk n pos out) = (length out + n)%nat.
Proof. induction n as [|n IH]; intros pos out; cbn; [lia|]. rewrite IH, length_app. cbn. lia. Qed.

(** ** Every input is decoded *)

Lemma lzss_inv_src junk s l : lzss_inv junk s -> lzss_inv junk (s <| src := l |>).
Proof. intros [H1 H2 H3]. by split. Qed.

Lemma lzss_inv_flags junk s f : lzss_inv junk s -> lzss_inv junk (s <| flags := f |>).
Proof. intros [H1 H2 H3]. by split. Qed.

Lemma nibble_range j : 0 <= j .& 0x0F < 16.
Proof. change 0x0F with (Z.ones 4). rewrite Z.land_ones by done. by apply Z.mod_pos_bound. Qed.

(** The room that the rest of the source can need. *)
Definition room (s : lzss) : Z := zlen (dst s) + 9 * zlen (src s).

Lemma token_step_total capacity junk s : lzss_inv junk s -> room s <= capacity ->
  exists t, token_step capacity s = Done t /\
    match t with
    | None => True
    | Some s' => lzss_inv junk s' /\ flags s' = flags s /\ (length (src s') < length (src s))%nat /\
        room s' <= room s
    end.
Proof.
  intros Hs Hc. unfold token_step, room in *. destruct (nonzero _).
  - destruct (src s) as [|c rest] eqn:E; [by exists None|].
    destruct (put_byte_ok capacity junk c (s <| src := rest |>)) as (s' & -> & Hs' & Hd & Hsrc & Hf).
    + by apply lzss_inv_src.
    + cbn [dst setf]. unfold zlen in *. cbn [length] in Hc. lia.
    + run. exists (Some s'). split_and!; [done..| |]; rewrite Hsrc; cbn [src setf length]; [lia|].
      rewrite Hd. unfold zlen. rewrite length_app. cbn [length dst setf]. lia.
  - destruct (src s) as [|i [|j rest]] eqn:E; [by exists None..|]. cbv zeta.
    pose proof (nibble_range j) as Hj. unfold THRESHOLD.
    destruct (copy_loop_ok capacity junk (Z.to_nat ((j .& 0x0F) + 2 + 1)) (i .| ((j .& 0xF0) .<< 4)) 0
      (s <| src := rest |>)) as (s' & -> & Hs' & Hd & Hsrc & Hf).
    + by apply lzss_inv_src.
    + cbn [dst setf]. unfold zlen in *. cbn [length] in Hc. lia.
    + run. exists (Some s'). split_and!; [done..| |]; rewrite Hsrc; cbn [src setf length]; [lia|].
      rewrite Hd. unfold zlen. rewrite copy_bytes_length. cbn [length dst setf]. lia.
Qed.

Lemma lzss_loop_total capacity junk fuel : forall s, lzss_inv junk s -> room s <= capacity ->
  (length (src s) < fuel)%nat \/ (flags s .>> 1) .& 0x100 = 0 /\ (length (src s) <= fuel)%nat ->
  exists out, lzss_loop capacity fuel s = Done out /\ zlen out <= room s.
Proof.
  induction fuel as [|fuel IH]; intros s Hs Hc Hf; cbn [lzss_loop]; unfold refill; cbv zeta.
  all: assert (zlen (dst s) <= room s) by (unfold room, zlen; lia).
  - destruct Hf as [Hf|[-> Hf]]; [lia|]. destruct (src s); [|cbn in Hf; lia]. eauto.
  - assert (forall s1, lzss_inv junk s1 -> room s1 <= room s -> dst s1 = dst s -> (length (src s1) <= fuel)%nat ->
      exists out, (t ← token_step capacity s1;
        match t with None => mret (dst s1) | Some s => lzss_loop capacity fuel s end) = Done out /\
        zlen out <= room s) as Hstep.
    { intros s1 Hs1 Hr Hd Hl. destruct (token_step_total capacity junk s1) as (t & -> & Ht); [done|lia|]. run.
      destruct t as [s2|]; [|rewrite Hd; eauto]. destruct Ht as (Hs2 & _ & Hl2 & Hr2).
      destruct (IH s2) as (out & -> & Ho); [done|lia|left; lia|]. exists out. split; [done|lia]. }
    destruct (Z.eqb_spec ((flags s .>> 1) .& 0x100) 0) as [E|E].
    + destruct (src s) as [|c rest] eqn:Es; [eauto|].
      apply Hstep; [by apply lzss_inv_flags, lzss_inv_src| |done|].
      * unfold room. cbn [dst src setf]. rewrite Es. unfold zlen. cbn [length]. lia.
      * cbn [src setf]. cbn [length] in Hf. lia.
    + apply Hstep; [by apply lzss_inv_flags|done|done|]. cbn [src setf]. lia.
Qed.

Lemma initial_inv junk data : length junk = 35%nat ->
  lzss_inv junk (mkLzss data 0 (replicate (Z.to_nat (N - F)) 0x20 ++ junk) (N - F) []).
Proof.
  intros Hj. split; cbn [text_buf r dst].
  - rewrite length_app, length_replicate, Hj. done.
  - rewrite zlen_history. done.
  - intros p Hp. unfold window. rewrite zlen_history. change (4078 + zlen []) with 4078. cbv zeta.
    unfold N in *. destruct (Z.ltb_spec p 4078).
    + replace (4078 - 1 - (4078 - 1 - p) mod 4096) with p by (rewrite Z.mod_small by lia; lia).
      eval_cmp. unfold history. rewrite !lookup_app_l by (rewrite length_replicate; unfold N, F; lia).
      by rewrite !lookup_replicate_2 by (unfold N, F; lia).
    + replace (4078 - 1 - (4078 - 1 - p) mod 4096) with (p - 4096)
        by (rewrite <- (Z.mod_add (4078 - 1 - p) 1 4096), Z.mod_small by lia; lia).
      eval_cmp. rewrite lookup_app_r by (rewrite length_replicate; unfold F; lia).
      rewrite length_replicate. replace (Z.to_nat p - Z.to_nat (4096 - F))%nat with (Z.to_nat (p - (4096 - F)))
        by (unfold F; lia).
      destruct (lookup_lt_is_Some_2 junk (Z.to_nat (p - (4096 - F)))) as [x ->]; [unfold F; lia|]. done.
Qed.

(** decompression ends on every input, with a destination of nine times its
    length: no access leaves the window or the destination, whatever the input
    and the uninitialised part of the window hold. *)
Theorem lzss_total capacity junk data : length junk = 35%nat -> 9 * zlen data <= capacity ->
  exists out, decompress_lzss capacity junk data = Done out /\ zlen out <= 9 * zlen data.
Proof.
  intros Hj Hc. apply (lzss_loop_total capacity junk _ _ (initial_inv junk data Hj)); [exact Hc|].
  right. by split.
Qed.

Lemma lzss_total_witness : exists out,
  decompress_lzss 27 (replicate 35 0) [0x01; 0x41; 0xFF] = Done out /\ zlen out <= 27.
Proof. apply (lzss_total 27 (replicate 35 0) [0x01; 0x41; 0xFF]); vm_compute; congruence. Defined.

(** ** Encoded tokens are decoded *)

Lemma expand_token_mono junk out t : (length out <= length (expand_token junk out t))%nat.
Proof. destruct t; cbn; rewrite ?length_app, ?copy_bytes_length; lia. Qed.

Lemma expand_mono junk ts : forall out, (length out <= length (foldl (expand_token junk) out ts))%nat.
Proof.
  induction ts as [|t ts IH]; intros out; cbn [foldl]; [lia|].
  etransitivity; [apply (expand_token_mono junk out t)|apply IH].
Qed.

(** The two bytes of a copy hold its position and its length. *)
Lemma copy_payload pos len : 0 <= pos < N -> THRESHOLD < len <= F ->
  let j := 16 * (pos / 256) + (len - 3) in
  (pos mod 256) .| ((j .& 0xF0) .<< 4) = pos /\ (j .& 0x0F) + THRESHOLD + 1 = len.
Proof.
  intros Hp Hl. unfold N, F, THRESHOLD in *.
  assert (forallb (fun p => forallb (fun l =>
    let j := 16 * (p / 256) + l in
    ((p mod 256) .| ((j .& 0xF0) .<< 4) =? p) && ((j .& 0x0F) =? l)) (seqZ 0 16)) (seqZ 0 4096) = true) as H
    by (vm_compute; reflexivity).
  rewrite forallb_forall in H. specialize (H pos (proj1 (list_elem_of_In _ _) (proj2 (elem_of_seqZ 0 4096 pos) Hp))).
  rewrite forallb_forall in H. specialize (H (len - 3)).
  rewrite <- list_elem_of_In, elem_of_seqZ, andb_true_iff, !Z.eqb_eq in H. destruct H as [H1 H2]; [lia|].
  split; [exact H1|]. cbv zeta. rewrite H2. lia.
Qed.

Lemma token_step_decodes capacity junk s t rest : lzss_inv junk s -> token_ok t ->
  Z.testbit (flags s) 0 = is_literal t -> src s = payload t ++ rest ->
  zlen (expand_token junk (dst s) t) <= capacity ->
  exists s', token_step capacity s = Done (Some s') /\ lzss_inv junk s' /\ src s' = rest /\
    flags s' = flags s /\ dst s' = expand_token junk (dst s) t.
Proof.
  intros Hs Ht Hf Hsrc Hc. unfold token_step. change (flags s .& 1) with (flags s .& BIT 0). rewrite land_BIT_nonzero, Hf, Hsrc by done.
  destruct t as [c|pos len]; cbn [is_literal payload app expand_token] in *.
  - destruct (put_byte_ok capacity junk c (s <| src := rest |>)) as (s' & -> & Hs' & Hd & Hr & Hfl).
    + by apply lzss_inv_src.
    + cbn [dst setf]. unfold zlen in *. rewrite length_app in Hc. cbn [length] in Hc. lia.
    + run. by exists s'.
  - destruct Ht as [Hp Hl]. destruct (copy_payload pos len Hp Hl) as [E1 E2]. cbv zeta in *. rewrite E1, E2.
    destruct (copy_loop_ok capacity junk (Z.to_nat len) pos 0 (s <| src := rest |>)) as (s' & -> & Hs' & Hd & Hr & Hfl).
    + by apply lzss_inv_src.
    + cbn [dst setf]. unfold zlen in *. rewrite copy_bytes_length in Hc. lia.
    + run. rewrite Z.add_0_r in Hd. by exists s'.
Qed.

Lemma bit8 x i : 0 <= i -> ((x .>> i) .& 0x100 =? 0) = negb (Z.testbit x (8 + i)).
Proof.
  intros Hi. change 0x100 with (BIT 8). pose proof (land_BIT_nonzero (x .>> i) 8 ltac:(done)) as H.
  unfold nonzero in H. rewrite Z.shiftr_spec in H by done. by rewrite <- H, negb_involutive.
Qed.

(** The tokens of a group after its first. *)
Lemma run_rest capacity junk f g : (forall i, 8 <= i < 16 -> Z.testbit f i = true) ->
  forall t s fuel rest, 1 <= t -> t + zlen g <= 8 -> flags s = f .>> (t - 1) ->
  (forall i x, g !! i = Some x -> Z.testbit f (t + Z.of_nat i) = is_literal x) ->
  lzss_inv junk s -> Forall token_ok g -> src s = concat (payload <$> g) ++ rest ->
  zlen (foldl (expand_token junk) (dst s) g) <= capacity ->
  exists s', lzss_loop capacity (length g + fuel) s = lzss_loop capacity fuel s' /\ lzss_inv junk s' /\
    src s' = rest /\ flags s' = f .>> (t + zlen g - 1) /\ dst s' = foldl (expand_token junk) (dst s) g.
Proof.
  intros Hones. induction g as [|x g IH]; intros t s fuel rest Ht Hlen Hf Hbits Hs Hok Hsrc Hc.
  { exists s. split_and!; try done. rewrite Hf. f_equal. unfold zlen. cbn. lia. }
  apply Forall_cons in Hok as [Hx Hok]. cbn [foldl fmap list_fmap concat] in *.
  assert (zlen (x :: g) = zlen g + 1) as El by (unfold zlen; cbn; lia).
  assert (flags s .>> 1 = f .>> t) as Ef by (rewrite Hf, Z.shiftr_shiftr by lia; f_equal; lia).
  cbn [length Nat.add lzss_loop]. unfold refill. cbv zeta. rewrite Ef, bit8, Hones by (unfold zlen in *; lia). cbn [negb].
  rewrite <- (assoc_L (++)) in Hsrc.
  destruct (token_step_decodes capacity junk (s <| flags := f .>> t |>) x (concat (payload <$> g) ++ rest))
    as (s1 & -> & Hs1 & Hsrc1 & Hf1 & Hd1).
  - by apply lzss_inv_flags.
  - done.
  - cbn [flags setf]. rewrite Z.shiftr_spec by done. rewrite Z.add_comm. by apply (Hbits 0%nat x).
  - exact Hsrc.
  - cbn [dst setf]. pose proof (expand_mono junk g (expand_token junk (dst s) x)). unfold zlen in *. lia.
  - run. cbn [dst flags setf] in Hd1, Hf1.
    destruct (IH (t + 1) s1 fuel rest) as (s' & -> & Hs' & Hsrc' & Hf' & Hd').
    + lia.
    + lia.
    + rewrite Hf1. f_equal. lia.
    + intros i y Hi. rewrite <- (Hbits (S i) y Hi). f_equal. lia.
    + done.
    + done.
    + done.
    + by rewrite Hd1.
    + exists s'. split_and!; try done; [|by rewrite Hd', Hd1]. rewrite Hf'. f_equal. lia.
Qed.

Lemma flag_byte_bit g : forall i, 0 <= i ->
  Z.testbit (flag_byte g) i = default false (is_literal <$> g !! Z.to_nat i).
Proof.
  induction g as [|x g IH]; intros i Hi; cbn [flag_byte]; [by rewrite Z.bits_0, lookup_nil|].
  rewrite Z.add_comm. destruct (Z.eq_dec i 0) as [->|Hne].
  - rewrite Z.testbit_0_r. done.
  - replace i with (Z.succ (i - 1)) by lia. rewrite Z.testbit_succ_r, IH by lia.
    replace (Z.to_nat (Z.succ (i - 1))) with (S (Z.to_nat (i - 1))) by lia. done.
Qed.

(** The flags word after the byte of a group is read. *)
Definition group_flags (g : list token) : Z := flag_byte g .| 0xFF00.

Lemma group_flags_bit g i : (length g <= 8)%nat -> 0 <= i < 17 ->
  Z.testbit (group_flags g) i =
  if i <? 8 then default false (is_literal <$> g !! Z.to_nat i) else i <? 16.
Proof.
  intros Hg Hi. unfold group_flags. rewrite Z.lor_spec, flag_byte_bit by lia.
  change 0xFF00 with (Z.ones 8 .<< 8). rewrite testbit_shiftl, Z.testbit_ones by lia.
  destruct (Z.ltb_spec i 8); eval_cmp.
  - by rewrite orb_false_r.
  - rewrite lookup_ge_None_2 by lia. cbn. destruct (Z.ltb_spec i 16); eval_cmp; done.
Qed.

(** A whole group, from its byte on. *)
Lemma run_group capacity junk g s fuel rest : g <> [] -> (length g <= 8)%nat ->
  (flags s .>> 1) .& 0x100 = 0 -> lzss_inv junk s -> Forall token_ok g ->
  src s = flag_byte g :: concat (payload <$> g) ++ rest ->
  zlen (foldl (expand_token junk) (dst s) g) <= capacity ->
  exists s', lzss_loop capacity (length g + fuel) s = lzss_loop capacity fuel s' /\ lzss_inv junk s' /\
    src s' = rest /\ flags s' = group_flags g .>> (zlen g - 1) /\
    dst s' = foldl (expand_token junk) (dst s) g.
Proof.
  intros Hne Hlen Hfl Hs Hok Hsrc Hc. destruct g as [|x g]; [done|]. apply Forall_cons in Hok as [Hx Hok].
  assert (zlen (x :: g) = zlen g + 1) as El by (unfold zlen; cbn; lia).
  cbn [length Nat.add lzss_loop]. unfold refill. cbv zeta. rewrite Hfl, Z.eqb_refl, Hsrc. fold (group_flags (x :: g)).
  cbn [foldl fmap list_fmap concat] in *. rewrite <- (assoc_L (++)).
  destruct (token_step_decodes capacity junk
    (s <| src := payload x ++ concat (payload <$> g) ++ rest |> <| flags := group_flags (x :: g) |>) x
    (concat (payload <$> g) ++ rest)) as (s1 & E1 & Hs1 & Hsrc1 & Hf1 & Hd1).
  - by apply lzss_inv_flags, lzss_inv_src.
  - done.
  - cbn [flags setf]. by rewrite group_flags_bit by (done || lia).
  - done.
  - cbn [dst setf]. pose proof (expand_mono junk g (expand_token junk (dst s) x)). unfold zlen in *. lia.
  - rewrite E1. run. cbn [dst flags setf] in Hd1, Hf1.
    destruct (run_rest capacity junk (group_flags (x :: g)) g) with (t := 1) (s := s1) (fuel := fuel) (rest := rest)
      as (s' & E & Hs' & Hsrc' & Hf' & Hd'); try done.
    + intros i Hi. rewrite group_flags_bit by (done || lia). by eval_cmp.
    + unfold zlen in *. cbn in Hlen. lia.
    + intros i y Hi. pose proof (lookup_lt_Some _ _ _ Hi). cbn in Hlen.
      rewrite group_flags_bit by (done || lia). eval_cmp.
      replace (Z.to_nat (1 + Z.of_nat i)) with (S i) by lia.
      change ((x :: g) !! S i) with (g !! i). by rewrite Hi.
    + by rewrite Hd1.
    + exists s'. rewrite E, Hd', Hd1. split_and!; try done. rewrite Hf'. f_equal. lia.
Qed.

Lemma loop_decodes capacity junk n : forall ts s fuel, (length ts <= n)%nat ->
  lzss_inv junk s -> (flags s .>> 1) .& 0x100 = 0 -> Forall token_ok ts ->
  src s = encode_groups n ts -> (ts <> [] -> length ts < fuel)%nat ->
  zlen (foldl (expand_token junk) (dst s) ts) <= capacity ->
  lzss_loop capacity fuel s = Done (foldl (expand_token junk) (dst s) ts).
Proof.
  induction n as [|n IH]; intros [|x ts] s fuel Hn Hs Hfl Hok Hsrc Hfuel Hc; try (cbn in Hn; lia).
  1, 2: cbn [encode_groups foldl] in *; destruct fuel; cbn [lzss_loop]; unfold refill; cbv zeta;
    by rewrite Hfl, Hsrc.
  set (g := take 8 (x :: ts)) in *. set (d := drop 8 (x :: ts)) in *.
  assert (x :: ts = g ++ d) as Hsplit by (symmetry; apply take_drop).
  assert (length g = Nat.min 8 (S (length ts))) as Hg by (unfold g; by rewrite length_take).
  change (encode_groups (S n) (x :: ts)) with (flag_byte g :: concat (payload <$> g) ++ encode_groups n d) in Hsrc.
  assert (length d = S (length ts) - 8)%nat as Hd by (unfold d; by rewrite length_drop).
  rewrite Hsplit, foldl_app in *. apply Forall_app in Hok as [Hokg Hokd].
  specialize (Hfuel ltac:(done)). rewrite length_app in Hfuel, Hn.
  replace fuel with (length g + (fuel - length g))%nat by lia.
  destruct (run_group capacity junk g s (fuel - length g) (encode_groups n d)) as (s' & -> & Hs' & Hsrc' & Hf' & Hd');
    try done; [lia| |].
  { pose proof (expand_mono junk d (foldl (expand_token junk) (dst s) g)). unfold zlen in *. lia. }
  assert (flags s' .>> 1 = group_flags g .>> zlen g) as Ef
    by (rewrite Hf', Z.shiftr_shiftr by lia; f_equal; lia).
  destruct (decide (length g = 8)%nat) as [E8|E8].
  - rewrite <- Hd'. apply IH; rewrite ?Hd'; [lia|done| |done|done|lia|done].
    rewrite Ef. apply Z.eqb_eq. rewrite bit8, group_flags_bit by (unfold zlen; lia).
    unfold zlen. rewrite E8. done.
  - assert (d = []) as -> by (apply nil_length_inv; lia). cbn [foldl] in *.
    destruct (fuel - length g)%nat as [|fuel'] eqn:Efu; [cbn [length] in Hfuel; lia|].
    destruct n; cbn [encode_groups] in Hsrc'; cbn [lzss_loop]; unfold refill; cbv zeta;
      rewrite Ef, bit8, group_flags_bit by (unfold zlen; lia); unfold zlen; eval_cmp; cbn [negb];
      unfold token_step; cbn [flags src setf]; rewrite Hsrc'; destruct (nonzero _); run; cbn [dst setf]; by rewrite Hd'.
Qed.

Lemma encode_length n : forall ts, (length ts <= n)%nat -> ts <> [] ->
  (length ts < length (encode_groups n ts))%nat.
Proof.
  assert (forall g, length g <= length (concat (payload <$> g)))%nat as Hpay.
  { induction g as [|[] g IHg]; cbn; lia. }
  induction n as [|n IH]; intros [|x ts] Hn Hne; try done; [cbn in Hn; lia|].
  change (encode_groups (S n) (x :: ts)) with
    (flag_byte (take 8 (x :: ts)) :: concat (payload <$> take 8 (x :: ts)) ++ encode_groups n (drop 8 (x :: ts))).
  rewrite (length_cons (flag_byte _)), length_app. specialize (Hpay (take 8 (x :: ts))).
  pose proof (length_take (x :: ts) 8) as Hg. pose proof (length_drop (x :: ts) 8) as Hd.
  destruct (drop 8 (x :: ts)) as [|y d] eqn:E; [cbn [length] in *; lia|].
  assert (length (y :: d) < length (encode_groups n (y :: d)))%nat by (apply IH; [cbn [length] in *; lia|done]).
  cbn [length] in *. lia.
Qed.

(** Decompression inverts the encoding.  For every list of literals and
    copies, the encoded bytes decompress to what the list stands for, a copy
    being taken byte by byte from the last [N] bytes of the output and the
    spaces before it, so that a copy may overlap the bytes it writes. *)
Lemma lzss_decodes capacity junk ts : length junk = 35%nat -> Forall token_ok ts ->
  zlen (expand junk ts) <= capacity ->
  decompress_lzss capacity junk (encode ts) = Done (expand junk ts).
Proof.
  intros Hj Hok Hc. unfold decompress_lzss.
  refine (loop_decodes capacity junk (length ts) ts (mkLzss _ _ _ _ []) _ _ _ _ _ _ _ _);
    [lia|by apply initial_inv|done|done|done| |done].
  intros Hne. by apply encode_length.
Qed.

Definition lzss_example : list token :=
  [Literal 0x61; Literal 0x62; Copy 4078 9; Copy 0 3; Literal 0x63; Copy 4079 4; Literal 1; Literal 2; Copy 4078 18].

Lemma lzss_decodes_example :
  decompress_lzss 40 (replicate 35 0) (encode lzss_example) = Done (expand (replicate 35 0) lzss_example) /\
  expand (replicate 35 0) [Literal 0x61; Literal 0x62; Copy 4078 9] =
    [0x61; 0x62; 0x61; 0x62; 0x61; 0x62; 0x61; 0x62; 0x61; 0x62; 0x61].
Proof.
  split; [|vm_compute; reflexivity].
  apply (lzss_decodes 40 (replicate 35 0) lzss_example); [reflexivity| |vm_compute; congruence].
  unfold lzss_example, token_ok, N, F, THRESHOLD. repeat (apply List.Forall_cons; [lia|]). apply List.Forall_nil.
Defined.

(** A copy from the part of the window that is not initialised reaches the
    output. *)
Lemma lzss_reads_uninitialised :
  decompress_lzss 27 (replicate 35 0xAA) [0; 0xF0; 0xF0] = Done (0xAA :: 0xAA :: [0xAA]).
Proof. vm_compute. reflexivity. Qed.
