(* ===== verification/Mem.v ===== *)
(** * Addresses and memory carve-outs

    Model of [hw/arm/apple-silicon/mem.c]: the conversion between the static
    virtual and physical addresses of the kernel, and the allocator that takes
    regions from the end of memory and records them in the device tree. *)

From S2P Require Import Prelude CString Dt.

(** ** Static addresses *)

Definition vtop_bases (va phys_base virt_base : Z) : outcome Z :=
  c_assert (nonzero phys_base);; c_assert (nonzero virt_base);;
  mret (u64 (va - virt_base + phys_base)).

Definition ptov_bases (pa phys_base virt_base : Z) : outcome Z :=
  c_assert (nonzero phys_base);; c_assert (nonzero virt_base);;
  mret (u64 (pa - phys_base + virt_base)).

(** The global variables. *)
Record mem_globals := mkGlobals {
  g_virt_base : Z;
  g_phys_base : Z;
  g_virt_slide : Z;
}.

Definition vtop_static (g : mem_globals) (va : Z) : outcome Z :=
  vtop_bases va (g_phys_base g) (g_virt_base g).
Definition ptov_static (g : mem_globals) (pa : Z) : outcome Z :=
  ptov_bases pa (g_phys_base g) (g_virt_base g).
Definition vtop_slid (g : mem_globals) (va : Z) : outcome Z :=
  vtop_static g (u64 (va + g_virt_slide g)).

(** ** Carve-outs *)

Definition ROUND_DOWN (n d : Z) : Z := n .& u64 (- d).

Record CarveoutAllocator := mkCarveout {
  dram_base : Z;
  ca_end : Z;
  alignment : Z;
  node : option AppleDTNode;
  cur_id : Z;
}.
#[global] Instance eta_CarveoutAllocator : Eta CarveoutAllocator := fun c =>
  mkCarveout (dram_base c) (ca_end c) (alignment c) (node c) (cur_id c).

(** [%u] of a 32-bit value. *)
Definition print_u32 (n : Z) : bytes := print_digits 10 10 n [].

(** The bytes of "region-id-". *)
Definition region_prefix : bytes := [114; 101; 103; 105; 111; 110; 45; 105; 100; 45].
Definition region_name (id : Z) : bytes := take 31 (region_prefix ++ print_u32 id).

Definition carveout_alloc_new (carveout_mmap : option AppleDTNode) (base size align : Z)
    : outcome CarveoutAllocator :=
  c_assert (nonzero size);; c_assert (nonzero align);;
  mret (mkCarveout base (u64 (base + size)) align carveout_mmap 0).

Definition carveout_alloc_mem (ca : CarveoutAllocator) (size : Z)
    : outcome (Z * CarveoutAllocator) :=
  c_assert (nonzero size);;
  let ca := ca <| ca_end := ROUND_DOWN (u64 (ca_end ca - size)) (alignment ca) |> in
  let data := le_split 8 (ca_end ca) ++ le_split 8 size in
  match node ca with
  | None => mret (ca_end ca, ca)
  | Some n =>
      n ← apple_dt_set_prop n (region_name (cur_id ca)) 16 (Some data);
      let id := u32 (cur_id ca + 1) in
      let id := if id =? 55 then u32 (id + 1) else id in
      mret (ca_end ca, ca <| node := Some n |> <| cur_id := id |>)
  end.

Definition carveout_alloc_finalise (ca : CarveoutAllocator) : Z :=
  ROUND_DOWN (u64 (ca_end ca - dram_base ca)) (alignment ca).

(** Several allocations, in order. *)
Fixpoint alloc_all (ca : CarveoutAllocator) (sizes : list Z) : outcome (list (Z * Z) * CarveoutAllocator) :=
  match sizes with
  | [] => mret ([], ca)
  | size :: sizes' =>
      r ← carveout_alloc_mem ca size;
      let '(addr, ca) := r in
      r ← alloc_all ca sizes';
      let '(regions, ca) := r in
      mret ((addr, size) :: regions, ca)
  end.

(** ** Theorems *)

(** The two conversions are inverse to each other, also when the difference
    of the bases wraps around. *)
Theorem static_roundtrip g va : in_width 64 va -> g_phys_base g <> 0 -> g_virt_base g <> 0 ->
  exists pa, vtop_static g va = Done pa /\ in_width 64 pa /\ ptov_static g pa = Done va.
Proof.
  intros Hva Hp Hv. unfold vtop_static, ptov_static, vtop_bases, ptov_bases.
  rewrite !(proj2 (nonzero_iff _)) by done. cbn [c_assert]. run.
  eexists. split; [done|]. split; [by apply wrap_range|]. run. unfold mret, outcome_ret. f_equal.
  unfold wrap. rewrite <- Zplus_mod_idemp_l, Zminus_mod_idemp_l, Zplus_mod_idemp_l.
  replace (va - g_virt_base g + g_phys_base g - g_phys_base g + g_virt_base g) with va by lia.
  by apply wrap_small.
Qed.

Lemma static_roundtrip_witness :
  exists pa, vtop_static (mkGlobals 0xFFFFFFF007004000 0x801000000 0) 0xFFFFFFF007008000 = Done pa /\
    in_width 64 pa /\ ptov_static (mkGlobals 0xFFFFFFF007004000 0x801000000 0) pa = Done 0xFFFFFFF007008000.
Proof.
  apply (static_roundtrip (mkGlobals 0xFFFFFFF007004000 0x801000000 0) 0xFFFFFFF007008000);
    [vm_compute; split; congruence|vm_compute; congruence..].
Defined.

Lemma round_down_pow2 n k : in_width 64 n -> 0 <= k < 64 ->
  ROUND_DOWN n (2 ^ k) = n - n mod 2 ^ k.
Proof.
  intros Hn Hk. unfold ROUND_DOWN.
  replace (n - n mod 2 ^ k) with ((n .>> k) .<< k).
  - apply Z.bits_inj'. intros i Hi.
    replace (- 2 ^ k) with (Z.lnot (Z.ones k)) by (rewrite Z.ones_equiv; unfold Z.lnot; lia).
    rewrite Z.land_spec, testbit_wrap, Z.lnot_spec, Z.testbit_ones, testbit_shiftl by lia.
    destruct (Z.ltb_spec i k); eval_cmp.
    + by rewrite !andb_false_r.
    + rewrite Z.shiftr_spec by lia. replace (i - k + k) with i by lia. cbn.
      destruct (Z.ltb_spec i 64); cbn; [by rewrite andb_true_r|].
      by rewrite (testbit_high 64 n i) by (done || lia).
  - rewrite Z.shiftl_mul_pow2, Z.shiftr_div_pow2 by lia. pose proof (Z.div_mod n (2 ^ k)).
    assert (2 ^ k <> 0) by (apply Z.pow_nonzero; lia). lia.
Qed.

(** The allocator over memory from [base], aligned to [2^k]. *)
Record ca_inv (base k : Z) (ca : CarveoutAllocator) : Prop := {
  inv_base : dram_base ca = base /\ 0 <= base;
  inv_align : alignment ca = 2 ^ k /\ 0 <= k < 64 /\ (2 ^ k | base);
  inv_end : base <= ca_end ca < 2 ^ 64;
  inv_node : forall n, node ca = Some n -> finalised n = false;
}.

(** The end of memory after a region of [size] bytes is taken from [hi]. *)
Lemma next_end base k hi size : 0 <= base -> 0 <= k < 64 -> (2 ^ k | base) -> hi < 2 ^ 64 ->
  0 < size <= hi - base ->
  let a := ROUND_DOWN (u64 (hi - size)) (2 ^ k) in
  (2 ^ k | a) /\ base <= a /\ a + size <= hi /\ hi - size - 2 ^ k < a.
Proof.
  intros Hb Hk Hal Hhi Hs. assert (0 < 2 ^ k) as Hp by (apply Z.pow_pos_nonneg; lia).
  cbv zeta. rewrite wrap_small by (unfold in_width; lia). rewrite round_down_pow2 by (unfold in_width; lia).
  pose proof (Z.mod_pos_bound (hi - size) (2 ^ k) Hp). pose proof (Z.div_mod (hi - size) (2 ^ k)).
  destruct Hal as [q ->]. split; [exists ((hi - size) / 2 ^ k); lia|]. split; [|lia].
  assert (q <= (hi - size) / 2 ^ k) by (apply Z.div_le_lower_bound; lia). nia.
Qed.

Definition next_id (id : Z) : Z := if id + 1 =? 55 then 56 else id + 1.

(** What is recorded of a region. *)
Definition region_prop (addr size : Z) : AppleDTProp :=
  mkProp 16 false (le_split 8 addr ++ le_split 8 size).

Lemma region_name_eq id : region_name id = region_prefix ++ print_u32 id.
Proof.
  unfold region_name. apply take_ge. rewrite length_app. pose proof (print_digits_length 10 10 id []).
  unfold print_u32. cbn [length region_prefix] in *. lia.
Qed.

Lemma set_region_ok n id addr size : finalised n = false ->
  apple_dt_set_prop n (region_name id) 16 (Some (le_split 8 addr ++ le_split 8 size)) =
  Done (set_props n (<[region_name id := region_prop addr size]> (props n))).
Proof.
  intros Hf. unfold apple_dt_set_prop. rewrite Hf.
  assert ((zlen (region_name id) <? APPLE_DT_PROP_NAME_LEN) = true) as ->.
  { unfold region_name, zlen, APPLE_DT_PROP_NAME_LEN. rewrite length_take. apply Z.ltb_lt. lia. }
  cbn [c_assert]. run. assert (forall p : option AppleDTProp,
    match p with None => c_assert (negb false) | Some prop => c_assert (negb (false && negb (p_len prop =? 16))) end
    = Done tt) as -> by (by intros []). run.
  assert (zlen (le_split 8 addr ++ le_split 8 size) = 16) as Hz
    by (unfold zlen; rewrite length_app, !length_le_split; done).
  rewrite slice_in_range by lia. rewrite drop_0, take_ge by (unfold zlen in Hz; lia). run. done.
Qed.

Lemma alloc_mem_ok base k ca size : ca_inv base k ca -> 0 < size <= ca_end ca - base ->
  0 <= cur_id ca < 2 ^ 31 ->
  exists a ca', carveout_alloc_mem ca size = Done (a, ca') /\ ca_inv base k ca' /\
    (2 ^ k | a) /\ base <= a /\ a + size <= ca_end ca /\ ca_end ca - size - 2 ^ k < a /\ ca_end ca' = a /\
    match node ca with
    | None => node ca' = None /\ cur_id ca' = cur_id ca
    | Some n => node ca' = Some (set_props n (<[region_name (cur_id ca) := region_prop a size]> (props n))) /\
        cur_id ca' = next_id (cur_id ca)
    end.
Proof.
  intros [[Hb Hb0] (Ha & Hk & Hal) He Hn] Hs Hid. unfold carveout_alloc_mem.
  rewrite (proj2 (nonzero_iff size)) by lia. cbn [c_assert]. run. cbv zeta. cbn [ca_end node cur_id setf].
  destruct (next_end base k (ca_end ca) size) as (H1 & H2 & H3 & H4); [done|done|done|lia|done|].
  cbv zeta in *. rewrite Ha. set (a := ROUND_DOWN _ _) in *.
  destruct (node ca) as [n|] eqn:En.
  - rewrite (set_region_ok n _ _ _ (Hn n eq_refl)). run. rewrite (wrap_small 32 (cur_id ca + 1)) by (unfold in_width; lia).
    eexists a, _. split; [done|]. split_and!; try done.
    + split; cbn [dram_base alignment ca_end node setf]; [done|done|lia|].
      intros n' [= <-]. cbn. by apply Hn.
    + cbn [cur_id setf]. unfold next_id. rewrite wrap_small by (unfold in_width; lia).
      destruct (Z.eqb_spec (cur_id ca + 1) 55); lia.
  - eexists a, _. split; [done|]. split_and!; try done.
    split; cbn [dram_base alignment ca_end node setf]; [done|done|lia|by rewrite En].
Qed.

Lemma region_name_inj i j : 0 <= i < 2 ^ 32 -> 0 <= j < 2 ^ 32 -> region_name i = region_name j -> i = j.
Proof.
  intros Hi Hj. rewrite !region_name_eq. intros E%(inj (app _)). unfold print_u32 in E.
  destruct (print_digits_value 10 10 ltac:(lia) i []) as (di & Ei & _ & _ & <-); [cbn; lia|].
  destruct (print_digits_value 10 10 ltac:(lia) j []) as (dj & Ej & _ & _ & <-); [cbn; lia|].
  rewrite Ei, Ej, !app_nil_r in E. by rewrite E.
Qed.

(** The identifier of the region with index [i]: 55 is left out. *)
Definition region_id (i : nat) : Z := if Z.of_nat i <? 55 then Z.of_nat i else Z.of_nat i + 1.

Lemma next_region_id i : next_id (region_id i) = region_id (S i).
Proof.
  unfold next_id, region_id. destruct (Z.ltb_spec (Z.of_nat i) 55), (Z.ltb_spec (Z.of_nat (S i)) 55);
    case_match; lia.
Qed.

Lemma region_id_inj i j : region_id i = region_id j -> i = j.
Proof.
  unfold region_id. destruct (Z.ltb_spec (Z.of_nat i) 55), (Z.ltb_spec (Z.of_nat j) 55); lia.
Qed.

Lemma region_id_range i : Z.of_nat i < 2 ^ 30 -> 0 <= region_id i < 2 ^ 31.
Proof. unfold region_id. destruct (Z.ltb_spec (Z.of_nat i) 55); lia. Qed.

Definition total (k : Z) (sizes : list Z) : Z := foldr (fun s t => s + 2 ^ k + t) 0 sizes.

Lemma total_nonneg k sizes : Forall (fun s => 0 < s) sizes -> 0 <= total k sizes.
Proof.
  intros H. induction H; cbn [total foldr]; [lia|]. fold (total k l).
  pose proof (Z.pow_nonneg 2 k ltac:(lia)). lia.
Qed.

(** The region names used from index [m] on. *)
Definition recorded (m : nat) (regions : list (Z * Z)) (n n' : AppleDTNode) : Prop :=
  (forall i a s, regions !! i = Some (a, s) ->
     props n' !! region_name (region_id (m + i)) = Some (region_prop a s)) /\
  (forall j, (j < m)%nat -> props n' !! region_name (region_id j) = props n !! region_name (region_id j)).

Lemma recorded_cons m a s regions n n' : Z.of_nat (S m) < 2 ^ 30 ->
  recorded (S m) regions (set_props n (<[region_name (region_id m) := region_prop a s]> (props n))) n' ->
  recorded m ((a, s) :: regions) n n'.
Proof.
  intros Hm [H1 H2]. split.
  - intros [|i] a' s' Hi; cbn in Hi.
    + injection Hi as <- <-. rewrite Nat.add_0_r, H2 by lia. cbn. apply lookup_insert_eq.
    + rewrite <- (H1 i a' s' Hi). f_equal. f_equal. f_equal. lia.
  - intros j Hj. rewrite H2 by lia. cbn. apply lookup_insert_ne. intros E.
    pose proof (region_id_range m ltac:(lia)). pose proof (region_id_range j ltac:(lia)).
    apply region_name_inj, region_id_inj in E; lia.
Qed.

Lemma alloc_all_ok base k sizes : forall m ca, ca_inv base k ca -> Forall (fun s => 0 < s) sizes ->
  total k sizes <= ca_end ca - base -> (forall n, node ca = Some n -> cur_id ca = region_id m) ->
  0 <= cur_id ca < 2 ^ 31 ->
  Z.of_nat m + zlen sizes < 2 ^ 30 ->
  exists regions ca', alloc_all ca sizes = Done (regions, ca') /\ ca_inv base k ca' /\ regions.*2 = sizes /\
    ca_end ca' <= ca_end ca /\
    (forall i a s, regions !! i = Some (a, s) ->
       (2 ^ k | a) /\ ca_end ca' <= a /\ a + s <= ca_end ca) /\
    (forall i j a s a' s', (i < j)%nat -> regions !! i = Some (a, s) -> regions !! j = Some (a', s') ->
       a' + s' <= a) /\
    match node ca with
    | Some n => exists n', node ca' = Some n' /\ recorded m regions n n'
    | None => node ca' = None
    end.
Proof.
  induction sizes as [|s sizes IH]; intros m ca Hinv Hpos Htot Hid Hid31 Hlen.
  { exists [], ca. split_and!; try done. destruct (node ca) as [n|]; [|done]. exists n. by repeat split. }
  apply Forall_cons in Hpos as [Hs Hpos]. cbn [total foldr] in Htot. fold (total k sizes) in Htot.
  assert (zlen (s :: sizes) = zlen sizes + 1) as El by (unfold zlen; cbn; lia).
  pose proof (total_nonneg k sizes Hpos) as Ht0. pose proof (Z.pow_nonneg 2 k ltac:(lia)).
  assert (0 <= zlen sizes) by (unfold zlen; lia).
  destruct (alloc_mem_ok base k ca s Hinv) as (a & ca1 & E & Hinv1 & Hd & Hb & Hhi & Hlo & Hend & Hnode); [lia|done|].
  cbn [alloc_all]. rewrite E. run.
  destruct (IH (S m) ca1) as (regions & ca' & -> & Hinv' & Hsz & Hle & Hreg & Hord & Hn'); [done|done|lia| | |lia|].
  { intros n1 En1. destruct (node ca) as [n|]; destruct Hnode as [Hn1 ->]; [|congruence].
    by rewrite (Hid n), next_region_id. }
  { destruct (node ca) as [n|]; destruct Hnode as [_ ->]; [|done].
    rewrite (Hid n), next_region_id by done. apply region_id_range. lia. }
  run. exists ((a, s) :: regions), ca'. split_and!; [done|done|by rewrite fmap_cons, Hsz|lia| | |].
  - intros [|i] a' s' Hi; [injection Hi as <- <-; split_and!; [done|lia|lia]|].
    destruct (Hreg i a' s' Hi) as (? & ? & ?). split_and!; [done|done|lia].
  - intros [|i] [|j] a0 s0 a' s' Hij Hi Hj; try lia.
    + injection Hi as <- <-. destruct (Hreg j a' s' Hj) as (_ & _ & ?). lia.
    + apply (Hord i j a0 s0 a' s'); [lia|done|done].
  - destruct (node ca) as [n|]; destruct Hnode as [Hn1 _]; rewrite Hn1 in Hn'; [|done].
    destruct Hn' as (n' & -> & Hrec). exists n'. split; [done|].
    apply recorded_cons; [lia|]. by rewrite <- (Hid n).
Qed.

(** C38: carve-outs do not overlap.  When memory has room for the regions asked
    for and their alignment, all allocations succeed; every region is aligned
    and inside memory, no two overlap, and the memory that is left for the
    kernel ends below all of them.  With a device tree node, region [i] is
    recorded there with its address and size under its own identifier, and no
    region has the identifier 55. *)
Theorem carveout_regions base size k mmap sizes :
  0 <= base -> 0 < size -> base + size < 2 ^ 64 -> 0 <= k < 64 -> (2 ^ k | base) ->
  Forall (fun s => 0 < s) sizes -> total k sizes <= size -> zlen sizes < 2 ^ 30 ->
  (forall n, mmap = Some n -> finalised n = false) ->
  exists ca regions ca', carveout_alloc_new mmap base size (2 ^ k) = Done ca /\
    alloc_all ca sizes = Done (regions, ca') /\ regions.*2 = sizes /\
    (forall i a s, regions !! i = Some (a, s) ->
       (2 ^ k | a) /\ base + carveout_alloc_finalise ca' <= a /\ a + s <= base + size) /\
    (forall i j a s a' s', (i < j)%nat -> regions !! i = Some (a, s) -> regions !! j = Some (a', s') ->
       a' + s' <= a) /\
    match mmap with
    | Some n => exists n', node ca' = Some n' /\ forall i a s, regions !! i = Some (a, s) ->
        region_id i <> 55 /\ props n' !! region_name (region_id i) = Some (region_prop a s)
    | None => True
    end.
Proof.
  intros Hb Hs Hhi Hk Hal Hpos Htot Hlen Hfin. assert (0 < 2 ^ k) as Hp by (apply Z.pow_pos_nonneg; lia).
  unfold carveout_alloc_new. rewrite !(proj2 (nonzero_iff _)) by lia. cbn [c_assert]. run.
  rewrite wrap_small by (unfold in_width; lia).
  set (ca := mkCarveout _ _ _ _ _).
  assert (ca_inv base k ca) as Hinv by (split; cbn [ca dram_base alignment ca_end node]; [done|done|lia|done]).
  destruct (alloc_all_ok base k sizes 0 ca Hinv Hpos) as (regions & ca' & E & Hinv' & Hsz & Hle & Hreg & Hord & Hn);
    [cbn [ca_end ca]; lia|done|done|lia|].
  exists ca, regions, ca'. split_and!; [done|done|done| |done|].
  - intros i a s Hi. destruct (Hreg i a s Hi) as (H1 & H2 & H3). cbn [ca_end ca] in H3. split_and!; [done| |done].
    destruct Hinv' as [[Hb' _] (Ha' & _) He _]. unfold carveout_alloc_finalise. rewrite Hb', Ha'.
    rewrite wrap_small by (unfold in_width; lia). rewrite round_down_pow2 by (unfold in_width; lia).
    pose proof (Z.mod_pos_bound (ca_end ca' - base) (2 ^ k) Hp). lia.
  - cbn [node ca] in Hn. destruct mmap as [n|]; [|done]. destruct Hn as (n' & -> & Hrec & _).
    exists n'. split; [done|]. intros i a s Hi. split; [|by apply Hrec].
    unfold region_id. destruct (Z.ltb_spec (Z.of_nat i) 55); lia.
Qed.

Lemma carveout_regions_witness : exists ca regions ca',
  carveout_alloc_new (Some apple_dt_new_node) 0x800000000 0x100000000 (2 ^ 14) = Done ca /\
  alloc_all ca [0x1000; 0x90000; 1] = Done (regions, ca') /\
  forall i j a s a' s', (i < j)%nat -> regions !! i = Some (a, s) -> regions !! j = Some (a', s') -> a' + s' <= a.
Proof.
  destruct (carveout_regions 0x800000000 0x100000000 14 (Some apple_dt_new_node) [0x1000; 0x90000; 1])
    as (ca & regions & ca' & H1 & H2 & _ & _ & H5 & _).
  - lia.
  - lia.
  - lia.
  - lia.
  - exists 0x200000. reflexivity.
  - repeat (apply List.Forall_cons; [lia|]). apply List.Forall_nil.
  - vm_compute. congruence.
  - reflexivity.
  - intros n [= <-]. reflexivity.
  - exists ca, regions, ca'. split; [exact H1|]. split; [exact H2|exact H5].
Defined.
