(* ===== verification/Sart.v ===== *)
(** * SART: the address filter of the storage controllers

    Model of [hw/arm/apple-silicon/sart.c].  A register write also returns the
    addresses of the pages whose mappings it tells the memory core to drop. *)

From S2P Require Import Prelude.

Definition SART_NUM_REGIONS : Z := 16.
Definition SART_REG_WORDS : Z := 0x2000.

Record AppleSARTRegion := mkRegion {
  sr_addr : Z;
  sr_size : Z;
  sr_flags : Z;
}.

#[export] Instance region_eq_dec : EqDecision AppleSARTRegion.
Proof. solve_decision. Defined.

Record AppleSARTState := mkSART {
  regions : list AppleSARTRegion;
  version : Z;
  reg : list Z;
}.
#[global] Instance eta_AppleSARTState : Eta AppleSARTState := fun s =>
  mkSART (regions s) (version s) (reg s).

Definition sart_get_reg (s : AppleSARTState) (offset : Z) : outcome Z := aget (reg s) (offset / 4).

Definition sart_get_region_addr (s : AppleSARTState) (region : Z) : outcome Z :=
  c_assert (region <? SART_NUM_REGIONS);;
  if (version s =? 1) || (version s =? 2) then
    w ← sart_get_reg s (0x40 + region * 4); mret (w .& 0xFFFFFF)
  else if version s =? 3 then
    w ← sart_get_reg s (0x40 + region * 4); mret (w .& 0x3FFFFFFF)
  else Abort.

Definition sart_get_region_size (s : AppleSARTState) (region : Z) : outcome Z :=
  c_assert (region <? SART_NUM_REGIONS);;
  if version s =? 1 then w ← sart_get_reg s (0x0 + region * 4); mret (w .& 0x7FFFF)
  else if version s =? 2 then w ← sart_get_reg s (0x0 + region * 4); mret (w .& 0xFFFFFF)
  else if version s =? 3 then w ← sart_get_reg s (0x80 + region * 4); mret (w .& 0x3FFFFFFF)
  else Abort.

Definition sart_get_region_flags (s : AppleSARTState) (region : Z) : outcome Z :=
  c_assert (region <? SART_NUM_REGIONS);;
  if version s =? 1 then
    w ← sart_get_reg s (0x0 + region * 4); mret (u32 (w .&~ (0x7FFFF .<< 12)))
  else if version s =? 2 then
    w ← sart_get_reg s (0x0 + region * 4); mret (u32 (w .&~ (0xFFFFFF .<< 12)))
  else if version s =? 3 then sart_get_reg s (0x0 + region * 4)
  else Abort.

(** The three together. *)
Definition sart_get_region (s : AppleSARTState) (region : Z) : outcome AppleSARTRegion :=
  a ← sart_get_region_addr s region;
  z ← sart_get_region_size s region;
  f ← sart_get_region_flags s region;
  mret (mkRegion a z f).

(** The pages of a region, as the events name them. *)
Definition region_pages (r : AppleSARTRegion) : list Z :=
  (fun curr => u64 (curr .<< 12)) <$> seqZ (sr_addr r) (sr_size r).

(** One turn of the loop of [base_reg_write]. *)
Definition refresh_region (s : AppleSARTState) (i : Z) : outcome (list Z * AppleSARTState) :=
  old ← aget (regions s) i;
  new ← sart_get_region s i;
  if bool_decide (new = old) then mret ([], s)
  else
    l ← aset (regions s) i new;
    mret (region_pages old, s <| regions := l |>).

Fixpoint refresh_regions (todo : list Z) (s : AppleSARTState) : outcome (list Z * AppleSARTState) :=
  match todo with
  | [] => mret ([], s)
  | i :: todo' =>
      r ← refresh_region s i;
      let '(events, s) := r in
      r ← refresh_regions todo' s;
      let '(events', s) := r in
      mret (events ++ events', s)
  end.

Definition base_reg_write (s : AppleSARTState) (addr data : Z) : outcome (list Z * AppleSARTState) :=
  l ← aset (reg s) (addr / 4) (u32 data);
  refresh_regions (seqZ 0 SART_NUM_REGIONS) (s <| reg := l |>).

Definition base_reg_read (s : AppleSARTState) (addr : Z) : outcome Z := aget (reg s) (addr .>> 2).

Record sart_entry := mkSartEntry {
  se_iova : Z;
  se_translated_addr : Z;
  se_addr_mask : Z;
  se_perm : Z;
}.
Definition SART_IOMMU_RW : Z := 3.

(** The loop stops at the first region that holds the page and has flags. *)
Fixpoint region_perm (l : list AppleSARTRegion) (page perm : Z) : Z :=
  match l with
  | [] => perm
  | r :: l' =>
      if (sr_addr r <=? page) && (page <? u64 (sr_addr r + sr_size r)) && nonzero (sr_flags r)
      then SART_IOMMU_RW else region_perm l' page perm
  end.

Definition apple_sart_translate (s : AppleSARTState) (addr : Z) : sart_entry :=
  let page := addr .&~ 0xFFF in
  mkSartEntry page page 0xFFF (region_perm (regions s) (addr .>> 12) SART_IOMMU_RW).

Definition apple_sart_reset (s : AppleSARTState) : AppleSARTState :=
  s <| reg := replicate (Z.to_nat SART_REG_WORDS) 0 |>
    <| regions := replicate (Z.to_nat SART_NUM_REGIONS) (mkRegion 0 0 0) |>.

(** The part of [apple_sart_from_node] that sets the version. *)
Definition apple_sart_from_node (sart_version : Z) : outcome AppleSARTState :=
  c_assert (1 <=? sart_version);; c_assert (sart_version <=? 3);;
  mret (mkSART (replicate (Z.to_nat SART_NUM_REGIONS) (mkRegion 0 0 0)) sart_version
          (replicate (Z.to_nat SART_REG_WORDS) 0)).

(** ** Theorems *)

(** The descriptors follow the registers. *)
Record sart_inv (s : AppleSARTState) : Prop := {
  sart_version_ok : 1 <= version s <= 3;
  sart_reg_length : zlen (reg s) = SART_REG_WORDS;
  sart_regions_length : zlen (regions s) = SART_NUM_REGIONS;
  sart_synced : forall i r, 0 <= i -> regions s !! Z.to_nat i = Some r -> sart_get_region s i = Done r;
}.

Lemma sart_get_reg_ok s offset : zlen (reg s) = SART_REG_WORDS -> 0 <= offset < 0x8000 ->
  exists w, sart_get_reg s offset = Done w.
Proof.
  intros Hl Ho. apply aget_in_range. rewrite Hl. unfold SART_REG_WORDS.
  split; [apply Z.div_pos; lia|apply Z.div_lt_upper_bound; lia].
Qed.

Lemma get_region_ok s i : 1 <= version s <= 3 -> zlen (reg s) = SART_REG_WORDS -> 0 <= i < 16 ->
  exists r, sart_get_region s i = Done r.
Proof.
  intros Hv Hl Hi. unfold sart_get_region, sart_get_region_addr, sart_get_region_size, sart_get_region_flags.
  unfold SART_NUM_REGIONS. eval_cmp. cbn [c_assert]. run.
  assert (version s = 1 \/ version s = 2 \/ version s = 3) as [-> |[-> | ->]] by lia;
    cbn [Z.eqb Pos.eqb orb];
    destruct (sart_get_reg_ok s (0x40 + i * 4) Hl ltac:(lia)) as [w1 ->];
    destruct (sart_get_reg_ok s (0x0 + i * 4) Hl ltac:(lia)) as [w2 ->];
    destruct (sart_get_reg_ok s (0x80 + i * 4) Hl ltac:(lia)) as [w3 E3]; rewrite ?E3; run; eauto.
Qed.

(** The registers decide the descriptor. *)
Lemma get_region_same s s' i : version s' = version s -> reg s' = reg s ->
  sart_get_region s' i = sart_get_region s i.
Proof. destruct s, s'. cbn. by intros -> ->. Qed.

Lemma refresh_region_ok s i : 1 <= version s <= 3 -> zlen (reg s) = SART_REG_WORDS ->
  zlen (regions s) = SART_NUM_REGIONS -> 0 <= i < 16 ->
  exists new old events s', sart_get_region s i = Done new /\ regions s !! Z.to_nat i = Some old /\
    refresh_region s i = Done (events, s') /\ version s' = version s /\ reg s' = reg s /\
    regions s' = <[Z.to_nat i := new]> (regions s) /\ (new <> old -> region_pages old = events).
Proof.
  intros Hv Hl Hz Hi. destruct (get_region_ok s i Hv Hl Hi) as [new En].
  destruct (aget_in_range (regions s) i) as [old Eo]; [unfold SART_NUM_REGIONS in Hz; lia|].
  unfold refresh_region. rewrite Eo, En. run. pose proof (proj2 (proj1 (aget_Done _ _ _) Eo)) as Hold.
  case_bool_decide as Hd.
  - subst old. exists new, new, [], s. split_and!; try done. symmetry. by apply list_insert_id.
  - rewrite aset_in_range by (unfold SART_NUM_REGIONS in Hz; lia). run.
    eexists new, old, _, _. by split_and!.
Qed.

Lemma refresh_regions_ok todo : forall s, 1 <= version s <= 3 -> zlen (reg s) = SART_REG_WORDS ->
  zlen (regions s) = SART_NUM_REGIONS -> Forall (fun i => 0 <= i < 16) todo ->
  exists events s', refresh_regions todo s = Done (events, s') /\ version s' = version s /\ reg s' = reg s /\
    zlen (regions s') = SART_NUM_REGIONS /\
    (forall i, 0 <= i -> i ∈ todo -> exists r, regions s' !! Z.to_nat i = Some r /\ sart_get_region s i = Done r) /\
    (forall i, 0 <= i -> i ∉ todo -> regions s' !! Z.to_nat i = regions s !! Z.to_nat i) /\
    (forall i old, 0 <= i -> regions s !! Z.to_nat i = Some old -> regions s' !! Z.to_nat i <> Some old ->
       region_pages old ⊆ events).
Proof.
  induction todo as [|i todo IH]; intros s Hv Hl Hz Hr.
  { exists [], s. split_and!; try done; [intros i _ Hi; by apply not_elem_of_nil in Hi]. }
  apply Forall_cons in Hr as [Hi Hr]. cbn [refresh_regions].
  destruct (refresh_region_ok s i Hv Hl Hz Hi) as (new & old & ev & s1 & En & Eo & -> & Hv1 & Hg1 & Hs1 & Hev). run.
  destruct (IH s1) as (ev' & s2 & -> & Hv2 & Hg2 & Hz2 & Hin & Hout & Hpages); [by rewrite Hv1|by rewrite Hg1| |done|].
  { by rewrite Hs1, zlen_insert. }
  run. exists (ev ++ ev'), s2. split_and!; [done|congruence|congruence|done| | |].
  - intros j Hj Hjin. destruct (decide (j ∈ todo)) as [Ht|Ht].
    + destruct (Hin j Hj Ht) as (r & ? & ?). exists r. by rewrite <- (get_region_same s s1).
    + apply elem_of_cons in Hjin as [-> |]; [|done]. exists new. rewrite Hout, Hs1 by done. split; [|done].
      apply list_lookup_insert_eq. by eapply lookup_lt_Some.
  - intros j Hj Hjn. apply not_elem_of_cons in Hjn as [Hne Ht]. rewrite Hout, Hs1 by done.
    apply list_lookup_insert_ne. lia.
  - intros j o Hj Ho Hch. destruct (decide (regions s1 !! Z.to_nat j = Some o)) as [Hsame|Hdiff].
    + etransitivity; [by apply (Hpages j)|]. intros x. rewrite elem_of_app. auto.
    + assert (j = i) as ->.
      { destruct (decide (j = i)) as [|Hne]; [done|]. exfalso. apply Hdiff. rewrite Hs1, list_lookup_insert_ne by lia. done. }
      rewrite Eo in Ho. injection Ho as ->. rewrite <- Hev; [intros x; rewrite elem_of_app; auto|].
      intros ->. apply Hdiff. rewrite Hs1. apply list_lookup_insert_eq. by eapply lookup_lt_Some.
Qed.

(** the region descriptors follow the registers.  A write to a register of
    the device completes, keeps every descriptor equal to what the registers
    describe, and names every page of every region that it changes or removes,
    so that no stale mapping survives. *)
Theorem sart_write_synced s addr data : sart_inv s -> 0 <= addr < 0x8000 ->
  exists events s', base_reg_write s addr data = Done (events, s') /\ sart_inv s' /\
    forall i old, 0 <= i -> regions s !! Z.to_nat i = Some old -> regions s' !! Z.to_nat i <> Some old ->
      region_pages old ⊆ events.
Proof.
  intros [Hv Hl Hz _] Ha. unfold base_reg_write.
  rewrite aset_in_range by (rewrite Hl; unfold SART_REG_WORDS; split; [apply Z.div_pos; lia|apply Z.div_lt_upper_bound; lia]).
  run. set (s1 := s <| reg := _ |>).
  destruct (refresh_regions_ok (seqZ 0 SART_NUM_REGIONS) s1) as (ev & s2 & -> & Hv2 & Hg2 & Hz2 & Hin & _ & Hp).
  - done.
  - unfold s1. cbn [reg setf]. by rewrite zlen_insert.
  - done.
  - apply Forall_forall. intros i Hi%elem_of_seqZ. exact Hi.
  - exists ev, s2. split; [done|]. split; [|exact Hp]. split.
    + by rewrite Hv2.
    + rewrite Hg2. unfold s1. cbn [reg setf]. by rewrite zlen_insert.
    + done.
    + intros i r Hi Hr. rewrite (get_region_same s1 s2) by done.
      destruct (Hin i Hi) as (r' & Hr' & ->).
      * apply elem_of_seqZ. split; [done|]. apply lookup_lt_Some in Hr. unfold zlen in Hz2. lia.
      * congruence.
Qed.

Lemma zero_region s i : 1 <= version s <= 3 -> reg s = replicate (Z.to_nat SART_REG_WORDS) 0 -> 0 <= i < 16 ->
  sart_get_region s i = Done (mkRegion 0 0 0).
Proof.
  intros Hv Hreg Hi.
  assert (forall offset, 0 <= offset < 0x8000 -> sart_get_reg s offset = Done 0) as Hz.
  { intros o Ho. unfold sart_get_reg. rewrite Hreg. apply aget_Done. split; [apply Z.div_pos; lia|].
    apply lookup_replicate_2. unfold SART_REG_WORDS. assert (o / 4 < 0x2000) by (apply Z.div_lt_upper_bound; lia).
    assert (0 <= o / 4) by (apply Z.div_pos; lia). lia. }
  unfold sart_get_region, sart_get_region_addr, sart_get_region_size, sart_get_region_flags.
  unfold SART_NUM_REGIONS. eval_cmp. cbn [c_assert]. run. rewrite !Hz by lia. run.
  assert (version s = 1 \/ version s = 2 \/ version s = 3) as [-> |[-> | ->]] by lia; reflexivity.
Qed.

(** A new device and a device that was reset satisfy the invariant. *)
Lemma sart_reset_inv s : 1 <= version s <= 3 -> sart_inv (apple_sart_reset s).
Proof.
  intros Hv. split; [done|done|done|]. intros i r Hi Hr.
  apply lookup_replicate in Hr as [-> Hlt]. apply zero_region; [done|done|].
  unfold SART_NUM_REGIONS in Hlt. lia.
Qed.

Definition sart_example : AppleSARTState := apple_sart_reset (mkSART [] 3 []).

Lemma sart_write_synced_witness :
  exists events s', base_reg_write sart_example 0x80 0x10 = Done (events, s') /\ sart_inv s'.
Proof.
  destruct (sart_write_synced sart_example 0x80 0x10) as (ev & s' & H1 & H2 & _).
  - apply sart_reset_inv. cbn. lia.
  - lia.
  - exists ev, s'. split; [exact H1|exact H2].
Defined.

(** The permissions start as read and write and a region can only confirm
    them: every address passes, in every state. *)
Lemma sart_filters_nothing s addr :
  apple_sart_translate s addr = mkSartEntry (addr .&~ 0xFFF) (addr .&~ 0xFFF) 0xFFF SART_IOMMU_RW.
Proof.
  unfold apple_sart_translate. f_equal. induction (regions s) as [|r l IH]; [done|]. cbn [region_perm].
  by destruct (_ && _).
Qed.
