(* ===== verification/Gpio.v ===== *)
(** * GPIO controller

    Model of [hw/gpio/apple_gpio.c].  The lines [out] and [irqs] hold the level
    they were last set to.  [int_config] is one array with the pending bits of
    all interrupt groups; the pointer [&s->int_config[g * s->pin_count]] is the
    array from that word on, so that bit [n] of group [g] is bit
    [32 * (g * pin_count) + n] of the array. *)

From S2P Require Import Prelude Bitops.

Definition GPIO_MAX_PIN_NR : Z := 512.
Definition GPIO_MAX_INT_GRP_NR : Z := 7.
Definition REG_GPIOCFG (n : Z) : Z := 0x000 + n * 4.
Definition REG_GPIOINT (g n : Z) : Z := 0x800 + g * 0x40 + ((n + 31) .>> 5) * 4.
Definition REG_GPIO_NPL_IN_EN : Z := 0xC48.

Definition DATA_1 : Z := 1.
Definition CFG_GP_IN : Z := 0 .<< 1.
Definition CFG_GP_OUT : Z := 1 .<< 1.
Definition CFG_INT_LVL_HI : Z := 2 .<< 1.
Definition CFG_INT_LVL_LO : Z := 3 .<< 1.
Definition CFG_INT_EDG_RIS : Z := 4 .<< 1.
Definition CFG_INT_EDG_FAL : Z := 5 .<< 1.
Definition CFG_INT_EDG_ANY : Z := 6 .<< 1.
Definition CFG_DISABLE : Z := 7 .<< 1.
Definition CFG_MASK : Z := 7 .<< 1.
Definition FUNC_GPIO : Z := 0 .<< 5.
Definition FUNC_ALT0 : Z := 1 .<< 5.
Definition FUNC_MASK : Z := 3 .<< 5.
Definition INPUT_ENABLE : Z := BIT 9.
Definition INTR_GRP_SHIFT : Z := 16.
Definition INT_MASKED : Z := 7 .<< INTR_GRP_SHIFT.
Definition CFG_DISABLED : Z := (FUNC_GPIO .| CFG_DISABLE) .| INT_MASKED.
Definition CFG_FUNC0 : Z := (INPUT_ENABLE .| FUNC_ALT0) .| INT_MASKED.

Record AppleGPIOState := mkGPIO {
  pin_count : Z;
  irq_group_count : Z;
  irqs : list bool;
  out : list bool;
  gpio_cfg : list Z;
  int_config : list Z;
  in_ : list Z;
  in_old : list Z;
  npl : Z;
}.
#[global] Instance eta_AppleGPIOState : Eta AppleGPIOState := fun s =>
  mkGPIO (pin_count s) (irq_group_count s) (irqs s) (out s) (gpio_cfg s) (int_config s)
    (in_ s) (in_old s) (npl s).

(** The first word of group [g]. *)
Definition group_word (s : AppleGPIOState) (g : Z) : Z := g * pin_count s.

Definition set_pending (s : AppleGPIOState) (g pin : Z) : outcome AppleGPIOState :=
  l ← set_bit32 (32 * group_word s g + pin) (int_config s); mret (s <| int_config := l |>).

Definition clear_pending (s : AppleGPIOState) (g pin : Z) : outcome AppleGPIOState :=
  l ← clear_bit32 (32 * group_word s g + pin) (int_config s); mret (s <| int_config := l |>).

(** Whether the pending bits of group [g] are all clear. *)
Definition group_idle (s : AppleGPIOState) (g : Z) : outcome bool :=
  r ← find_first_bit32 (drop (Z.to_nat (group_word s g)) (int_config s)) (pin_count s);
  mret (r =? pin_count s).

Definition set_irq (s : AppleGPIOState) (g : Z) (level : bool) : outcome AppleGPIOState :=
  l ← aset (irqs s) g level; mret (s <| irqs := l |>).

Definition update_group_irq (s : AppleGPIOState) (g : Z) : outcome AppleGPIOState :=
  idle ← group_idle s g; set_irq s g (negb idle).

Definition set_out (s : AppleGPIOState) (pin : Z) (level : bool) : outcome AppleGPIOState :=
  l ← aset (out s) pin level; mret (s <| out := l |>).

Definition set_cfg (s : AppleGPIOState) (pin v : Z) : outcome AppleGPIOState :=
  l ← aset (gpio_cfg s) pin v; mret (s <| gpio_cfg := l |>).

Definition interrupt_group (value : Z) : Z := (value .& INT_MASKED) .>> INTR_GRP_SHIFT.

(** The first half: the pending bit of the pin follows a level condition. *)
Definition update_pin_interrupt (s : AppleGPIOState) (pin value : Z) : outcome AppleGPIOState :=
  if value .& INT_MASKED =? INT_MASKED then mret s
  else
    let irqgrp := interrupt_group value in
    s ← clear_pending s irqgrp pin;
    let mode := value .& CFG_MASK in
    s ← (if mode =? CFG_INT_LVL_HI then
           b ← test_bit32 pin (in_ s); if nonzero b then set_pending s irqgrp pin else mret s
         else if mode =? CFG_INT_LVL_LO then
           b ← test_bit32 pin (in_ s); if nonzero b then mret s else set_pending s irqgrp pin
         else mret s);
    update_group_irq s irqgrp.

Definition apple_gpio_update_pincfg (s : AppleGPIOState) (pin value : Z) : outcome AppleGPIOState :=
  s ← update_pin_interrupt s pin value;
  s ← set_cfg s pin value;
  let func := value .& FUNC_MASK in
  let mode := value .& CFG_MASK in
  if nonzero func then
    if func =? FUNC_ALT0 then
      if mode =? CFG_DISABLE then mret s
      else
        s ← set_cfg s pin (if mode =? CFG_GP_OUT then value .&~ DATA_1 else value .| DATA_1);
        set_out s pin true
    else mret s
  else set_out s pin (if mode =? CFG_GP_OUT then nonzero (value .& DATA_1) else true).

(** Whether a change of the input makes the interrupt pending. *)
Definition triggers (mode : Z) (old level : bool) : bool :=
  if mode =? CFG_INT_LVL_HI then level
  else if mode =? CFG_INT_LVL_LO then negb level
  else if mode =? CFG_INT_EDG_RIS then negb old && level
  else if mode =? CFG_INT_EDG_FAL then old && negb level
  else if mode =? CFG_INT_EDG_ANY then negb (Bool.eqb old level)
  else false.

Definition apple_gpio_set (s : AppleGPIOState) (pin : Z) (level : bool) : outcome AppleGPIOState :=
  if pin_count s <=? pin then mret s
  else
    l ← (if level then set_bit32 pin (in_ s) else clear_bit32 pin (in_ s));
    let s := s <| in_ := l |> in
    let grp := pin .>> 5 in
    cfg ← aget (gpio_cfg s) pin;
    let masked := cfg .& INT_MASKED =? INT_MASKED in
    let irqgrp := interrupt_group cfg in
    s ← (if masked then mret s
         else
           old ← test_bit32 pin (in_old s);
           if triggers (cfg .& CFG_MASK) (nonzero old) level then set_pending s irqgrp pin else mret s);
    w ← aget (in_ s) grp;
    o ← aset (in_old s) grp w;
    let s := s <| in_old := o |> in
    if masked then mret s else update_group_irq s irqgrp.

Definition apple_gpio_reset (s : AppleGPIOState) : AppleGPIOState :=
  s <| gpio_cfg := replicate (Z.to_nat (pin_count s)) CFG_DISABLED |>
    <| int_config ::= map (fun _ => 0) |>
    <| in_old ::= map (fun _ => 0) |> <| in_ ::= map (fun _ => 0) |>.

(** ** Registers *)

Definition apple_gpio_cfg_write (s : AppleGPIOState) (pin value : Z) : outcome AppleGPIOState :=
  if pin_count s <=? pin then mret s else apple_gpio_update_pincfg s pin value.

Definition apple_gpio_cfg_read (s : AppleGPIOState) (pin : Z) : outcome Z :=
  if pin_count s <=? pin then mret 0
  else
    val ← aget (gpio_cfg s) pin;
    b ← test_bit32 pin (in_ s);
    let val := if val .& FUNC_MASK =? FUNC_GPIO then (val .&~ DATA_1) .| b else val in
    mret (if (val .& CFG_FUNC0 =? CFG_FUNC0) && (val .& CFG_MASK =? CFG_DISABLE)
          then (val .| DATA_1) .&~ b else val).

(** The word of group [group] at the register [addr]. *)
Definition int_word (s : AppleGPIOState) (group addr : Z) : Z :=
  group * pin_count s + (addr - REG_GPIOINT group 0) / 4.

Definition apple_gpio_int_write (s : AppleGPIOState) (group addr value : Z) : outcome AppleGPIOState :=
  if irq_group_count s <=? group then mret s
  else
    l ← aupd (int_config s) (int_word s group addr) (fun w => w .&~ value);
    let s := s <| int_config := l |> in
    idle ← group_idle s group;
    if (idle : bool) then set_irq s group false else mret s.

Definition apple_gpio_int_read (s : AppleGPIOState) (group addr : Z) : outcome Z :=
  if irq_group_count s <=? group then mret 0 else aget (int_config s) (int_word s group addr).

Definition between (lo hi x : Z) : bool := (lo <=? x) && (x <=? hi).

Definition apple_gpio_reg_write (s : AppleGPIOState) (addr data : Z) : outcome AppleGPIOState :=
  if between (REG_GPIOCFG 0) (REG_GPIOCFG (GPIO_MAX_PIN_NR - 1)) addr then
    apple_gpio_cfg_write s ((addr - REG_GPIOCFG 0) .>> 2) (u32 data)
  else if between (REG_GPIOINT 0 0) (REG_GPIOINT GPIO_MAX_INT_GRP_NR (GPIO_MAX_PIN_NR - 1)) addr then
    apple_gpio_int_write s ((addr - REG_GPIOINT 0 0) .>> 6) addr (u32 data)
  else if addr =? REG_GPIO_NPL_IN_EN then mret (s <| npl := u32 data |>)
  else mret s.

Definition apple_gpio_reg_read (s : AppleGPIOState) (addr : Z) : outcome Z :=
  if between (REG_GPIOCFG 0) (REG_GPIOCFG (GPIO_MAX_PIN_NR - 1)) addr then
    apple_gpio_cfg_read s ((addr - REG_GPIOCFG 0) .>> 2)
  else if between (REG_GPIOINT 0 0) (REG_GPIOINT GPIO_MAX_INT_GRP_NR (GPIO_MAX_PIN_NR - 1)) addr then
    apple_gpio_int_read s ((addr - REG_GPIOINT 0 0) .>> 6) addr
  else if addr =? REG_GPIO_NPL_IN_EN then mret (npl s)
  else if addr =? 0xC4C then mret 0xFF
  else mret 0.

Definition apple_gpio_new (pins groups : Z) : outcome AppleGPIOState :=
  c_assert (pins <? GPIO_MAX_PIN_NR);;
  let len := Z.to_nat ((pins + 31) / 32) in
  mret (mkGPIO pins groups (replicate (Z.to_nat groups) false) (replicate (Z.to_nat pins) false)
          (replicate (Z.to_nat pins) 0) (replicate (Z.to_nat (groups * pins)) 0)
          (replicate len 0) (replicate len 0) 0).

(** ** The invariant *)

(** Interrupt [pin] of group [g] is pending. *)
Definition pending (s : AppleGPIOState) (g pin : Z) : bool :=
  bit32 (int_config s) (32 * group_word s g + pin).

(** Sizes of the arrays.  Seven groups are what a configuration can name;
    sixteen pins are what the interrupt registers of a group cover at least. *)
Record gpio_wf (s : AppleGPIOState) : Prop := {
  wf_pins : 16 <= pin_count s < 512;
  wf_groups : 7 <= irq_group_count s < 16;
  wf_irqs : zlen (irqs s) = irq_group_count s;
  wf_out : zlen (out s) = pin_count s;
  wf_cfg : zlen (gpio_cfg s) = pin_count s;
  wf_int : zlen (int_config s) = irq_group_count s * pin_count s;
  wf_int_words : words_ok (int_config s);
  wf_in : zlen (in_ s) = (pin_count s + 31) / 32;
  wf_in_words : words_ok (in_ s);
}.

(** The line of group [g] is up exactly when one of its pins is pending. *)
Definition line_ok (s : AppleGPIOState) (g : Z) : Prop :=
  irqs s !! Z.to_nat g = Some true <-> exists pin, 0 <= pin < pin_count s /\ pending s g pin = true.

(** What holds between operations. *)
Record gpio_inv (s : AppleGPIOState) : Prop := {
  inv_gpio_wf : gpio_wf s;
  inv_old : in_old s = in_ s;
  inv_lines : forall g, 0 <= g < irq_group_count s -> line_ok s g;
}.

Lemma pin_bit_range s g pin : gpio_wf s -> 0 <= g < irq_group_count s -> 0 <= pin < pin_count s ->
  0 <= 32 * group_word s g + pin < 32 * zlen (int_config s).
Proof.
  intros Hs Hg Hp. rewrite (wf_int s Hs). unfold group_word. pose proof (wf_pins s Hs). nia.
Qed.

(** Bits of different groups are different bits. *)
Lemma pin_bit_inj s g pin g' pin' : 0 <= pin < pin_count s -> 0 <= pin' < pin_count s ->
  32 * group_word s g + pin = 32 * group_word s g' + pin' -> g = g' /\ pin = pin'.
Proof. unfold group_word. intros H1 H2 H3. assert (g = g') by nia. subst. lia. Qed.

Lemma interrupt_group_range v : v .& INT_MASKED <> INT_MASKED -> 0 <= interrupt_group v < 7.
Proof.
  unfold interrupt_group, INT_MASKED. change (7 .<< INTR_GRP_SHIFT) with (Z.ones 3 .<< INTR_GRP_SHIFT).
  rewrite <- (mask_unshift v 3 INTR_GRP_SHIFT) at 1 by done. rewrite mask_shift by done.
  pose proof (Z.mod_pos_bound (v / 2 ^ INTR_GRP_SHIFT) (2 ^ 3) ltac:(done)) as Hr.
  change (2 ^ 3) with 8 in *. intros Hne. destruct (decide ((v / 2 ^ INTR_GRP_SHIFT) mod 8 = 7)) as [E|E]; [|lia].
  rewrite E in Hne. by destruct Hne.
Qed.

(** Two states that differ in the pending bits only. *)
Definition pending_changed (s s' : AppleGPIOState) (f : Z -> Z -> bool) : Prop :=
  (exists l, s' = s <| int_config := l |>) /\ gpio_wf s' /\
  forall g pin, 0 <= g < irq_group_count s -> 0 <= pin < pin_count s -> pending s' g pin = f g pin.

Lemma int_config_wf s l : gpio_wf s -> zlen l = zlen (int_config s) -> words_ok l ->
  gpio_wf (s <| int_config := l |>).
Proof. intros [] Hl Hw. split; cbn; try done. congruence. Qed.

Lemma set_pending_ok s g pin : gpio_wf s -> 0 <= g < irq_group_count s -> 0 <= pin < pin_count s ->
  exists s', set_pending s g pin = Done s' /\
    pending_changed s s' (fun g' pin' => ((g' =? g) && (pin' =? pin)) || pending s g' pin').
Proof.
  intros Hs Hg Hp. unfold set_pending.
  destruct (set_bit32_ok (32 * group_word s g + pin) (int_config s)) as (l & -> & Hl & Hw & Hb);
    [by apply pin_bit_range|apply Hs|]. run.
  eexists. split; [done|]. split; [by eexists|]. split; [by apply int_config_wf|].
  intros g' pin' Hg' Hp'. unfold pending. change (group_word _ g') with (group_word s g').
  cbn [int_config setf]. rewrite Hb by (apply (pin_bit_range s); done).
  destruct (Z.eqb_spec (32 * group_word s g' + pin') (32 * group_word s g + pin)) as [E|E].
  - apply pin_bit_inj in E as [-> ->]; [|done..]. by rewrite !Z.eqb_refl.
  - destruct (Z.eqb_spec g' g), (Z.eqb_spec pin' pin); try done. subst. done.
Qed.

Lemma clear_pending_ok s g pin : gpio_wf s -> 0 <= g < irq_group_count s -> 0 <= pin < pin_count s ->
  exists s', clear_pending s g pin = Done s' /\
    pending_changed s s' (fun g' pin' => negb ((g' =? g) && (pin' =? pin)) && pending s g' pin').
Proof.
  intros Hs Hg Hp. unfold clear_pending.
  destruct (clear_bit32_ok (32 * group_word s g + pin) (int_config s)) as (l & -> & Hl & Hw & Hb);
    [by apply pin_bit_range|apply Hs|]. run.
  eexists. split; [done|]. split; [by eexists|]. split; [by apply int_config_wf|].
  intros g' pin' Hg' Hp'. unfold pending. change (group_word _ g') with (group_word s g').
  cbn [int_config setf]. rewrite Hb by (apply (pin_bit_range s); done).
  destruct (Z.eqb_spec (32 * group_word s g' + pin') (32 * group_word s g + pin)) as [E|E].
  - apply pin_bit_inj in E as [-> ->]; [|done..]. by rewrite !Z.eqb_refl.
  - destruct (Z.eqb_spec g' g), (Z.eqb_spec pin' pin); try done. subst. done.
Qed.

Lemma group_idle_ok s g : gpio_wf s -> 0 <= g < irq_group_count s ->
  exists b, group_idle s g = Done b /\
    (b = false <-> exists pin, 0 <= pin < pin_count s /\ pending s g pin = true).
Proof.
  intros Hs Hg. pose proof (wf_pins s Hs). unfold group_idle, group_word.
  destruct (find_first_bit32_spec (drop (Z.to_nat (g * pin_count s)) (int_config s)) (pin_count s))
    as (r & -> & Hnone & Hr).
  - apply Forall_drop, Hs.
  - unfold zlen. rewrite length_drop. pose proof (wf_int s Hs) as Hl. unfold zlen in Hl. nia.
  - run. eexists. split; [done|]. unfold pending, group_word.
    assert (0 <= g * pin_count s) by nia.
    split.
    + intros Hb%Z.eqb_neq. destruct Hr as [[Hr Hbit]|]; [|done]. exists r. split; [done|].
      by rewrite bit32_drop in Hbit by lia.
    + intros (pin & Hp & Hbit). apply Z.eqb_neq. intros ->.
      specialize (Hnone pin ltac:(lia) ltac:(lia)). rewrite bit32_drop in Hnone by lia. congruence.
Qed.

Lemma update_group_irq_ok s g : gpio_wf s -> 0 <= g < irq_group_count s ->
  (forall g', 0 <= g' < irq_group_count s -> g' <> g -> line_ok s g') ->
  exists l, update_group_irq s g = Done (s <| irqs := l |>) /\ gpio_wf (s <| irqs := l |>) /\
    forall g', 0 <= g' < irq_group_count s -> line_ok (s <| irqs := l |>) g'.
Proof.
  intros Hs Hg Ho. unfold update_group_irq, set_irq.
  destruct (group_idle_ok s g Hs Hg) as (b & -> & Hb). run.
  rewrite aset_in_range by (rewrite (wf_irqs s Hs); done). run. eexists. split; [done|]. split.
  { destruct Hs. split; cbn; try done. by rewrite zlen_insert. }
  intros g' Hg'. set (l := <[_ := _]> _).
  change (l !! Z.to_nat g' = Some true <-> exists pin, 0 <= pin < pin_count s /\ pending s g' pin = true).
  unfold l. destruct (decide (g' = g)) as [->|Hne].
  - rewrite list_lookup_insert_eq by (pose proof (wf_irqs s Hs); unfold zlen in *; lia).
    rewrite <- Hb. by destruct b.
  - rewrite list_lookup_insert_ne by lia. by apply Ho.
Qed.

(** A change of the pending bits of group [g] alone, and the update of its line. *)
Lemma change_group_ok s s' g f : gpio_inv s -> 0 <= g < irq_group_count s -> pending_changed s s' f ->
  (forall g' pin, g' <> g -> f g' pin = pending s g' pin) ->
  exists s2, update_group_irq s' g = Done s2 /\ gpio_wf s2 /\
    (forall g', 0 <= g' < irq_group_count s -> line_ok s2 g') /\
    (forall g' pin, pending s2 g' pin = pending s' g' pin) /\
    exists l1 l2, s2 = s <| int_config := l1 |> <| irqs := l2 |>.
Proof.
  intros [Hwf Hold Hl] Hg ([l1 ->] & Hwf' & Hp) Hf.
  destruct (update_group_irq_ok (s <| int_config := l1 |>) g Hwf' Hg) as (l2 & E & Hwf2 & Hl2).
  - intros g' Hg' Hne. specialize (Hl g' Hg'). unfold line_ok in *.
    change (irqs (s <| int_config := l1 |>)) with (irqs s).
    change (pin_count (s <| int_config := l1 |>)) with (pin_count s). rewrite Hl.
    split; intros (pin & Hpin & Hb); exists pin; (split; [done|]); rewrite ?Hp, ?Hf in * by done; done.
  - eexists. split_and!; [done|done|done|done|by eexists _, _].
Qed.

Lemma frame_inv s l1 l2 : gpio_inv s -> gpio_wf (s <| int_config := l1 |> <| irqs := l2 |>) ->
  (forall g, 0 <= g < irq_group_count s -> line_ok (s <| int_config := l1 |> <| irqs := l2 |>) g) ->
  gpio_inv (s <| int_config := l1 |> <| irqs := l2 |>).
Proof. intros [_ Ho _] Hwf Hl. by split. Qed.

(** The level conditions of a new configuration. *)
Definition level_pending (mode : Z) (level : bool) : bool :=
  ((mode =? CFG_INT_LVL_HI) && level) || ((mode =? CFG_INT_LVL_LO) && negb level).

Lemma test_in_ok s pin : gpio_wf s -> 0 <= pin < pin_count s ->
  test_bit32 pin (in_ s) = Done (Z.b2z (bit32 (in_ s) pin)).
Proof.
  intros Hs Hp. apply test_bit32_ok. rewrite (wf_in s Hs).
  pose proof (Z.div_mod (pin_count s + 31) 32 ltac:(done)).
  pose proof (Z.mod_pos_bound (pin_count s + 31) 32 ltac:(done)). lia.
Qed.

(** The pending bit of a pin set to [b]. *)
Lemma refresh_pin_ok s g pin (b : bool) : gpio_wf s -> 0 <= g < irq_group_count s -> 0 <= pin < pin_count s ->
  exists l1 s2, clear_pending s g pin = Done (s <| int_config := l1 |>) /\
    (if b then set_pending (s <| int_config := l1 |>) g pin else mret (s <| int_config := l1 |>)) = Done s2 /\
    pending_changed s s2 (fun g' p' => if (g' =? g) && (p' =? pin) then b else pending s g' p').
Proof.
  intros Hwf Hg Hp. destruct (clear_pending_ok s g pin Hwf Hg Hp) as (s1 & E1 & [l1 ->] & Hwf1 & Hp1).
  exists l1. destruct b.
  - destruct (set_pending_ok (s <| int_config := l1 |>) g pin Hwf1 Hg Hp) as (s2 & E2 & [l2 ->] & Hwf2 & Hp2).
    eexists. split_and!; [done|done|]. split; [by exists l2|]. split; [exact Hwf2|]. intros g' p' Hg' Hp'.
    rewrite Hp2, Hp1 by done. by destruct ((g' =? g) && (p' =? pin)).
  - eexists. split_and!; [done|done|]. split; [by eexists|]. split; [exact Hwf1|]. intros g' p' Hg' Hp'.
    rewrite Hp1 by done. by destruct ((g' =? g) && (p' =? pin)).
Qed.

Lemma update_pin_interrupt_ok s pin value : gpio_inv s -> 0 <= pin < pin_count s ->
  exists l1 l2, let s' := s <| int_config := l1 |> <| irqs := l2 |> in
    update_pin_interrupt s pin value = Done s' /\ gpio_inv s' /\
    (value .& INT_MASKED <> INT_MASKED -> forall g p, 0 <= g < irq_group_count s -> 0 <= p < pin_count s ->
       pending s' g p = if (g =? interrupt_group value) && (p =? pin)
                        then level_pending (value .& CFG_MASK) (bit32 (in_ s) pin) else pending s g p).
Proof.
  intros Hinv Hp. pose proof (inv_gpio_wf s Hinv) as Hwf. unfold update_pin_interrupt.
  destruct (Z.eqb_spec (value .& INT_MASKED) INT_MASKED) as [E|E].
  { exists (int_config s), (irqs s). cbv zeta.
    assert (s <| int_config := int_config s |> <| irqs := irqs s |> = s) as -> by (by destruct s). done. }
  pose proof (interrupt_group_range value E) as Hg7. pose proof (wf_groups s Hwf). cbv zeta.
  set (g := interrupt_group value) in *. set (mode := value .& CFG_MASK).
  assert (0 <= g < irq_group_count s) as Hg by lia.
  destruct (refresh_pin_ok s g pin (level_pending mode (bit32 (in_ s) pin)) Hwf Hg Hp) as (l & s2 & -> & E2 & Hs2). run.
  pose proof (test_in_ok s pin Hwf Hp) as Et. change (in_ s) with (in_ (s <| int_config := l |>)) in Et at 1.
  rewrite Et. run.
  match goal with |- context [mbind _ (if mode =? CFG_INT_LVL_HI then ?x else ?y)] =>
    replace (if mode =? CFG_INT_LVL_HI then x else y) with (Done s2) end.
  - run. destruct (change_group_ok s s2 g _ Hinv Hg Hs2) as (s3 & E3 & Hwf3 & Hl3 & Hp3 & l1 & l2 & ->).
    { intros g' p' Hne. by rewrite (proj2 (Z.eqb_neq _ _) Hne). }
    exists l1, l2. split; [exact E3|]. split; [by apply frame_inv|]. intros _ g' p' Hg' Hp'.
    rewrite Hp3. by apply Hs2.
  - rewrite <- E2. unfold level_pending.
    destruct (Z.eqb_spec mode CFG_INT_LVL_HI) as [Eh|], (Z.eqb_spec mode CFG_INT_LVL_LO) as [El|],
      (bit32 (in_ s) pin); try done. rewrite Eh in El. done.
Qed.

(** ** Operations keep the invariant *)

Lemma set_cfg_ok s pin v : gpio_inv s -> 0 <= pin < pin_count s ->
  set_cfg s pin v = Done (s <| gpio_cfg := <[Z.to_nat pin := v]> (gpio_cfg s) |>) /\
  gpio_inv (s <| gpio_cfg := <[Z.to_nat pin := v]> (gpio_cfg s) |>).
Proof.
  intros [Hwf Ho Hl] Hp. unfold set_cfg. rewrite aset_in_range by (rewrite (wf_cfg s Hwf); done). split; [done|].
  split; [|done|exact Hl]. destruct Hwf. split; cbn; try done. by rewrite zlen_insert.
Qed.

Lemma set_out_ok s pin b : gpio_inv s -> 0 <= pin < pin_count s ->
  exists s', set_out s pin b = Done s' /\ gpio_inv s'.
Proof.
  intros [Hwf Ho Hl] Hp. unfold set_out. rewrite aset_in_range by (rewrite (wf_out s Hwf); done).
  eexists. split; [done|]. split; [|exact Ho|exact Hl].
  destruct Hwf. split; cbn; try done. by rewrite zlen_insert.
Qed.

Lemma update_pincfg_ok s pin value : gpio_inv s -> 0 <= pin < pin_count s ->
  exists s', apple_gpio_update_pincfg s pin value = Done s' /\ gpio_inv s'.
Proof.
  intros Hinv Hp. unfold apple_gpio_update_pincfg.
  destruct (update_pin_interrupt_ok s pin value Hinv Hp) as (l1 & l2 & E & Hinv1 & _). cbv zeta in *.
  rewrite E. run. set (s1 := s <| int_config := l1 |> <| irqs := l2 |>) in *.
  destruct (set_cfg_ok s1 pin value Hinv1 Hp) as [-> Hinv2]. run.
  set (s2 := s1 <| gpio_cfg := _ |>) in *. cbv zeta.
  destruct (nonzero _); [|by apply set_out_ok].
  destruct (_ =? FUNC_ALT0); [|eauto]. destruct (_ =? CFG_DISABLE); [eauto|].
  match goal with |- context [set_cfg s2 pin ?v] => destruct (set_cfg_ok s2 pin v Hinv2 Hp) as [-> Hinv3] end.
  run. by apply set_out_ok.
Qed.

(** Clearing bits of a word of group [g]. *)
Lemma clear_word_ok s g i value : gpio_wf s -> 0 <= g < irq_group_count s -> 0 <= i < 16 ->
  exists l, aupd (int_config s) (g * pin_count s + i) (fun w => w .&~ value) = Done l /\
    pending_changed s (s <| int_config := l |>) (pending (s <| int_config := l |>)) /\
    (forall g' p, g' <> g -> 0 <= g' < irq_group_count s -> 0 <= p < pin_count s ->
       pending (s <| int_config := l |>) g' p = pending s g' p) /\
    (forall p, 0 <= p < pin_count s -> pending (s <| int_config := l |>) g p = true -> pending s g p = true).
Proof.
  intros Hwf Hg Hi. pose proof (wf_pins s Hwf) as Hpins.
  assert (0 <= g * pin_count s + i < zlen (int_config s)) as Hr by (rewrite (wf_int s Hwf); nia).
  unfold aupd. destruct (aget_in_range _ _ Hr) as [w Ew]. rewrite Ew. run. rewrite aset_in_range by done.
  apply aget_Done in Ew as [_ Ew]. pose proof (proj1 (Forall_lookup _ _) (wf_int_words s Hwf) _ _ Ew) as Hww.
  eexists. split; [done|]. set (l := <[_ := _]> _).
  assert (forall g' p, 0 <= g' < irq_group_count s -> 0 <= p < pin_count s ->
    pending (s <| int_config := l |>) g' p =
    if (32 * group_word s g' + p) / 32 =? g * pin_count s + i
    then Z.testbit (w .&~ value) ((32 * group_word s g' + p) mod 32) else pending s g' p) as Hb.
  { intros g' p Hg' Hp. unfold pending, l. cbn [int_config setf]. change (group_word _ g') with (group_word s g').
    apply bit32_insert; [done|]. by apply (pin_bit_range s g' p). }
  split_and!.
  - split; [by eexists|]. split; [|done].
    apply int_config_wf; [done|apply zlen_insert|]. apply Forall_insert; [apply Hwf|]. by apply in_width_ldiff.
  - intros g' p Hne Hg' Hp. rewrite Hb by done. destruct (Z.eqb_spec ((32 * group_word s g' + p) / 32) (g * pin_count s + i)) as [E|]; [|done].
    exfalso. apply Hne. unfold group_word in E.
    rewrite Z.mul_comm, Z.div_add_l in E by done. assert (0 <= p / 32 < pin_count s).
    { split; [apply Z.div_pos; lia|]. apply Z.div_lt_upper_bound; lia. } nia.
  - intros p Hp. rewrite Hb by (done || lia). destruct (Z.eqb_spec ((32 * group_word s g + p) / 32) (g * pin_count s + i)) as [E|]; [|done].
    unfold pending, bit32. rewrite E, Ew. cbn [default]. rewrite Z.ldiff_spec, andb_true_iff. by intros [? _].
Qed.

Lemma int_write_ok s group addr value : gpio_inv s -> 0 <= group ->
  0 <= (addr - REG_GPIOINT group 0) / 4 < 16 ->
  exists s', apple_gpio_int_write s group addr value = Done s' /\ gpio_inv s'.
Proof.
  intros Hinv Hg Hw. pose proof Hinv as [Hwf Ho Hl]. unfold apple_gpio_int_write.
  destruct (Z.leb_spec (irq_group_count s) group) as [|Hgc]; [eauto|]. unfold int_word.
  destruct (clear_word_ok s group _ value Hwf ltac:(lia) Hw) as (l & -> & Hch & Hother & Hmono). run.
  destruct (change_group_ok s (s <| int_config := l |>) group (fun g p => if g =? group then pending (s <| int_config := l |>) g p else pending s g p) Hinv)
    as (s2 & E & Hwf2 & Hl2 & _ & l1 & l2 & ->); [lia| |intros g' p Hne; by rewrite (proj2 (Z.eqb_neq _ _) Hne)|].
  { destruct Hch as (H1 & H2 & _). split; [done|]. split; [done|]. intros g p Hgr Hp.
    destruct (Z.eqb_spec g group); [done|]. by apply Hother. }
  exists (s <| int_config := l1 |> <| irqs := l2 |>). split; [|by apply frame_inv]. rewrite <- E. unfold update_group_irq.
  destruct (group_idle_ok (s <| int_config := l |>) group (proj1 (proj2 Hch)) ltac:(cbn; lia)) as (b & -> & Hb). run.
  destruct b; [done|]. destruct (proj1 Hb eq_refl) as (p & Hp & Hpend). cbn [negb].
  assert (irqs s !! Z.to_nat group = Some true) as Hup by (apply Hl; [lia|]; exists p; split; [done|by apply Hmono]).
  unfold set_irq. rewrite aset_in_range by (change (irqs (s <| int_config := l |>)) with (irqs s); rewrite (wf_irqs s Hwf); lia).
  run. change (irqs (s <| int_config := l |>)) with (irqs s). rewrite list_insert_id by done. by destruct s.
Qed.

(** A new level of a pin changes one word of the inputs. *)
Lemma set_input_ok s pin (level : bool) : gpio_wf s -> 0 <= pin < pin_count s ->
  exists w l, (if level then set_bit32 pin (in_ s) else clear_bit32 pin (in_ s)) = Done l /\
    l = <[Z.to_nat (pin / 32) := w]> (in_ s) /\ 0 <= pin / 32 < zlen (in_ s) /\ words_ok l /\
    forall j, 0 <= j -> bit32 l j = if j =? pin then level else bit32 (in_ s) j.
Proof.
  intros Hwf Hp.
  assert (0 <= pin < 32 * zlen (in_ s)) as Hr.
  { rewrite (wf_in s Hwf). pose proof (Z.div_mod (pin_count s + 31) 32 ltac:(done)).
    pose proof (Z.mod_pos_bound (pin_count s + 31) 32 ltac:(done)). lia. }
  assert (forall f l, aupd (in_ s) (BIT32_WORD pin) f = Done l ->
    exists w, l = <[Z.to_nat (pin / 32) := w]> (in_ s) /\ 0 <= pin / 32 < zlen (in_ s)) as Hupd.
  { intros f l E. unfold aupd, BIT32_WORD in E. apply bind_Done_inv in E as (w & _ & E).
    apply aset_Done in E as [? ->]. by eexists. }
  destruct level.
  - destruct (set_bit32_ok pin (in_ s) Hr (wf_in_words s Hwf)) as (l & E & _ & Hw & Hb).
    destruct (Hupd _ _ E) as (w & El & Hq). exists w, l. done.
  - destruct (clear_bit32_ok pin (in_ s) Hr (wf_in_words s Hwf)) as (l & E & _ & Hw & Hb).
    destruct (Hupd _ _ E) as (w & El & Hq). exists w, l. done.
Qed.

Lemma in_wf s l o : gpio_wf s -> zlen l = zlen (in_ s) -> words_ok l ->
  gpio_wf (s <| in_ := l |> <| in_old := o |>).
Proof. intros [] Hl Hw. split; cbn; try done. congruence. Qed.

(** The interrupt of a pin that becomes pending when it is set to [level]. *)
Definition raises (s : AppleGPIOState) (pin : Z) (level : bool) : bool :=
  let cfg := default 0 (gpio_cfg s !! Z.to_nat pin) in
  negb (cfg .& INT_MASKED =? INT_MASKED) && triggers (cfg .& CFG_MASK) (bit32 (in_ s) pin) level.

Definition pin_group (s : AppleGPIOState) (pin : Z) : Z :=
  interrupt_group (default 0 (gpio_cfg s !! Z.to_nat pin)).

Lemma nonzero_b2z b : nonzero (Z.b2z b) = b.
Proof. by destruct b. Qed.

(** The pending bit that a new input may set, before the last inputs are updated. *)
Lemma trigger_ok s l g pin (t : bool) : gpio_wf (s <| in_ := l |> <| in_old := l |>) ->
  0 <= g < irq_group_count s -> 0 <= pin < pin_count s ->
  exists lp, (if t then set_pending (s <| in_ := l |>) g pin else mret (s <| in_ := l |>)) =
      Done (s <| in_ := l |> <| int_config := lp |>) /\
    pending_changed (s <| in_ := l |> <| in_old := l |>) (s <| in_ := l |> <| int_config := lp |> <| in_old := l |>)
      (fun g' p' => pending s g' p' || ((g' =? g) && (p' =? pin) && t)).
Proof.
  set (s0 := s <| in_ := l |> <| in_old := l |>). intros Hwf Hg Hp. destruct t.
  - destruct (set_pending_ok s0 g pin Hwf Hg Hp) as (s1 & E1 & _ & Hwf1 & Hpd). unfold set_pending in *.
    change (group_word (s <| in_ := l |>) g) with (group_word s0 g).
    change (int_config (s <| in_ := l |>)) with (int_config s0).
    apply bind_Done_inv in E1 as (lp & -> & [= <-]). run. exists lp. split; [done|].
    split; [by exists lp|]. split; [exact Hwf1|].
    intros g' p' Hg' Hp'. rewrite andb_true_r, orb_comm. by apply Hpd.
  - exists (int_config s). split; [by destruct s|]. split; [by exists (int_config s); destruct s|].
    split; [by destruct s|]. intros g' p' _ _. rewrite andb_false_r, orb_false_r. done.
Qed.

Lemma gpio_set_ok s pin level : gpio_inv s -> 0 <= pin < pin_count s ->
  exists s', apple_gpio_set s pin level = Done s' /\ gpio_inv s' /\
    gpio_cfg s' = gpio_cfg s /\ pin_count s' = pin_count s /\ irq_group_count s' = irq_group_count s /\
    (forall j, 0 <= j -> bit32 (in_ s') j = if j =? pin then level else bit32 (in_ s) j) /\
    (forall g p, 0 <= g < irq_group_count s -> 0 <= p < pin_count s ->
       pending s' g p = pending s g p || ((g =? pin_group s pin) && (p =? pin) && raises s pin level)).
Proof.
  intros Hinv Hp. pose proof Hinv as [Hwf Hold Hl]. unfold apple_gpio_set, raises, pin_group. eval_cmp.
  destruct (set_input_ok s pin level Hwf Hp) as (w & l & -> & El & Hq & Hw & Hb). run. cbv zeta.
  assert (zlen l = zlen (in_ s)) as Hlen by (by rewrite El, zlen_insert).
  change (gpio_cfg (s <| in_ := l |>)) with (gpio_cfg s).
  destruct (aget_in_range (gpio_cfg s) pin) as [cfg Ec]; [by rewrite (wf_cfg s Hwf)|]. rewrite Ec. run.
  apply aget_Done in Ec as [_ Ec]. rewrite Ec. change (default 0 (Some cfg)) with cfg.
  rewrite Z.shiftr_div_pow2 by done. change (2 ^ 5) with 32.
  assert (forall s1, in_ s1 = l -> in_old s1 = in_ s -> forall f : AppleGPIOState -> outcome AppleGPIOState,
    (w ← aget (in_ s1) (pin / 32); o ← aset (in_old s1) (pin / 32) w; f (s1 <| in_old := o |>)) =
    f (s1 <| in_old := l |>)) as Hcopy.
  { intros s1 E1 E2 f. rewrite E1, E2. rewrite (proj2 (aget_Done l (pin / 32) w)).
    - run. rewrite aset_in_range by done. run. by rewrite <- El.
    - split; [lia|]. rewrite El. apply list_lookup_insert_eq. unfold zlen in Hq. lia. }
  destruct (Z.eqb_spec (cfg .& INT_MASKED) INT_MASKED) as [Em|Em].
  - run. rewrite Hcopy by done. eexists. split; [done|]. split.
    + split; [by apply in_wf|done|exact Hl].
    + split_and!; try done. intros g p _ _. cbn [negb andb]. rewrite andb_false_r, orb_false_r. done.
  - pose proof (interrupt_group_range cfg Em). pose proof (wf_groups s Hwf).
    set (g := interrupt_group cfg) in *. cbn [negb andb].
    change (in_old (s <| in_ := l |>)) with (in_old s). rewrite Hold, (test_in_ok s pin Hwf Hp). run. rewrite nonzero_b2z.
    set (t := triggers _ _ _).
    set (s0 := s <| in_ := l |> <| in_old := l |>).
    assert (gpio_inv s0) as Hinv0 by (split; [by apply in_wf|done|exact Hl]).
    destruct (trigger_ok s l g pin t) as (lp & -> & Hch'); [exact (inv_gpio_wf _ Hinv0)|lia|done|].
    run. specialize (Hcopy (s <| in_ := l |> <| int_config := lp |>)).
    rewrite (Hcopy eq_refl Hold (fun s => update_group_irq s g)).
    destruct (change_group_ok s0 _ g _ Hinv0 ltac:(change (0 <= g < irq_group_count s); lia) Hch')
      as (s2 & E2 & Hwf2 & Hl2 & Hp2 & l1 & l2 & ->).
    { intros g' p' Hne. rewrite (proj2 (Z.eqb_neq _ _) Hne). cbn. by rewrite orb_false_r. }
    eexists. split; [exact E2|]. split; [by apply frame_inv|]. split_and!; try done.
    intros g' p' Hg' Hp'. rewrite Hp2. by apply Hch'.
Qed.

(** ** Properties *)

(** What a guest and the devices wired to the pins can do. *)
Inductive gpio_op :=
| OpSet (pin : Z) (level : bool)
| OpWrite (addr data : Z)
| OpRead (addr : Z).

Definition gpio_step (s : AppleGPIOState) (op : gpio_op) : outcome AppleGPIOState :=
  match op with
  | OpSet pin level => apple_gpio_set s pin level
  | OpWrite addr data => apple_gpio_reg_write s addr data
  | OpRead addr => _ ← apple_gpio_reg_read s addr; mret s
  end.

Definition op_arg (op : gpio_op) : Z :=
  match op with OpSet pin _ => pin | OpWrite addr _ => addr | OpRead addr => addr end.

(** The group and the word that an interrupt register names. *)
Lemma int_reg_range addr : 0x800 <= addr ->
  0 <= (addr - REG_GPIOINT 0 0) .>> 6 /\
  0 <= (addr - REG_GPIOINT ((addr - REG_GPIOINT 0 0) .>> 6) 0) / 4 < 16.
Proof.
  intros Ha. rewrite Z.shiftr_div_pow2 by done. unfold REG_GPIOINT. change ((0 + 31) .>> 5) with 0. change (2 ^ 6) with 64.
  replace (addr - (0x800 + 0 * 0x40 + 0 * 4)) with (addr - 0x800) by lia. split; [apply Z.div_pos; lia|].
  pose proof (Z.div_mod (addr - 0x800) 64 ltac:(done)). pose proof (Z.mod_pos_bound (addr - 0x800) 64 ltac:(done)).
  split; [apply Z.div_pos; lia|apply Z.div_lt_upper_bound; lia].
Qed.

Lemma cfg_read_ok s pin : gpio_wf s -> 0 <= pin -> exists v, apple_gpio_cfg_read s pin = Done v.
Proof.
  intros Hwf Hp. unfold apple_gpio_cfg_read. destruct (Z.leb_spec (pin_count s) pin); [eauto|].
  destruct (aget_in_range (gpio_cfg s) pin) as [v ->]; [rewrite (wf_cfg s Hwf); lia|]. run.
  rewrite (test_in_ok s pin Hwf) by lia. run. eauto.
Qed.

(** safety and the interrupt invariant of the controller.  From a state with
    its invariant every operation completes, with no access outside an array,
    and keeps the invariant: the line of each interrupt group is up exactly when
    an interrupt of the group is pending, and the inputs last seen are the
    inputs.  The invariant asks for the seven groups that a pin configuration
    can name and for at least sixteen pins. *)
Theorem gpio_step_inv s op : gpio_inv s -> 0 <= op_arg op ->
  exists s', gpio_step s op = Done s' /\ gpio_inv s'.
Proof.
  intros Hinv Harg. pose proof (inv_gpio_wf s Hinv) as Hwf. destruct op as [pin level|addr data|addr]; cbn [gpio_step op_arg] in *.
  - destruct (Z.leb_spec (pin_count s) pin) as [Hge|Hlt].
    + exists s. unfold apple_gpio_set. by eval_cmp.
    + destruct (gpio_set_ok s pin level Hinv ltac:(lia)) as (s' & E & H & _). eauto.
  - unfold apple_gpio_reg_write. destruct (between (REG_GPIOCFG 0) _ addr).
    { unfold apple_gpio_cfg_write. case_match; [eauto|]. apply update_pincfg_ok; [done|].
      rewrite Z.shiftr_div_pow2 in * by done. unfold REG_GPIOCFG in *. rewrite Z.sub_0_r in *.
      split; [apply Z.div_pos; lia|lia]. }
    destruct (between (REG_GPIOINT 0 0) _ addr) eqn:E.
    { apply andb_true_iff in E as [E%Z.leb_le _]. destruct (int_reg_range addr E). by apply int_write_ok. }
    destruct (addr =? REG_GPIO_NPL_IN_EN); [|eauto]. eexists. split; [done|].
    destruct Hinv as [[] Ho Hl]. split; [by split|done|exact Hl].
  - unfold apple_gpio_reg_read. destruct (between (REG_GPIOCFG 0) _ addr).
    { destruct (cfg_read_ok s ((addr - REG_GPIOCFG 0) .>> 2) Hwf) as [v ->]; [|run; eauto].
      unfold REG_GPIOCFG. rewrite Z.sub_0_r. by apply Z.shiftr_nonneg. }
    destruct (between (REG_GPIOINT 0 0) _ addr) eqn:E; [|repeat case_match; run; eauto].
    apply andb_true_iff in E as [E%Z.leb_le _]. destruct (int_reg_range addr E) as [Hg Hw].
    unfold apple_gpio_int_read. case_match; [run; eauto|]. unfold int_word.
    edestruct (aget_in_range (int_config s)) as [v ->]; [|run; eauto].
    rewrite (wf_int s Hwf). pose proof (wf_pins s Hwf). nia.
Qed.

(** The conditions of the interrupt modes, for a level before and after. *)
Inductive fires : Z -> bool -> bool -> Prop :=
| fires_high old : fires CFG_INT_LVL_HI old true
| fires_low old : fires CFG_INT_LVL_LO old false
| fires_rising : fires CFG_INT_EDG_RIS false true
| fires_falling : fires CFG_INT_EDG_FAL true false
| fires_any old new : old <> new -> fires CFG_INT_EDG_ANY old new.

Lemma triggers_iff mode old level : triggers mode old level = true <-> fires mode old level.
Proof.
  unfold triggers. split.
  - repeat (case_match; [match goal with H : (_ =? _) = true |- _ => apply Z.eqb_eq in H as -> end|]); [..|done];
      destruct old, level; try done; intros _; by constructor.
  - intros [o|o| | |o n Hne]; try done. by destruct o, n.
Qed.

Lemma cfg_read_level s pin cfg : gpio_wf s -> 0 <= pin < pin_count s ->
  gpio_cfg s !! Z.to_nat pin = Some cfg -> cfg .& FUNC_MASK = FUNC_GPIO ->
  exists v, apple_gpio_cfg_read s pin = Done v /\ Z.testbit v 0 = bit32 (in_ s) pin.
Proof.
  intros Hwf Hp Hc Hf. unfold apple_gpio_cfg_read. eval_cmp.
  rewrite (proj2 (aget_Done (gpio_cfg s) pin cfg)) by (split; [lia|done]). run.
  rewrite (test_in_ok s pin Hwf Hp). run. cbv zeta. rewrite Hf, Z.eqb_refl. eexists. split; [done|].
  set (b := bit32 (in_ s) pin).
  assert (Z.testbit ((cfg .&~ DATA_1) .| Z.b2z b) 5 = false) as H5.
  { assert (Z.testbit (cfg .& FUNC_MASK) 5 = false) as Hz by (by rewrite Hf).
    rewrite Z.land_spec in Hz. change (Z.testbit FUNC_MASK 5) with true in Hz. rewrite andb_true_r in Hz.
    rewrite Z.lor_spec, Z.ldiff_spec, Hz. by destruct b. }
  destruct (Z.eqb_spec (((cfg .&~ DATA_1) .| Z.b2z b) .& CFG_FUNC0) CFG_FUNC0) as [E|_].
  - exfalso. apply (f_equal (fun x => Z.testbit x 5)) in E. rewrite Z.land_spec, H5 in E. done.
  - cbn [andb]. rewrite Z.lor_spec, Z.ldiff_spec. change (Z.testbit DATA_1 0) with true. cbn [negb].
    rewrite andb_false_r. by destruct b.
Qed.

(** what a change of an input does.  The pin takes the new level and no
    other pin changes; an interrupt becomes pending exactly when the pin is
    configured for one and its mode fires for the level before and after; no
    other interrupt changes; a read of the configuration of a plain pin then
    shows the level. *)
Theorem gpio_set_spec s pin level cfg : gpio_inv s -> 0 <= pin < pin_count s ->
  gpio_cfg s !! Z.to_nat pin = Some cfg ->
  exists s', apple_gpio_set s pin level = Done s' /\
    (forall j, 0 <= j -> bit32 (in_ s') j = if j =? pin then level else bit32 (in_ s) j) /\
    (forall g p, 0 <= g < irq_group_count s -> 0 <= p < pin_count s ->
       pending s' g p = true <->
       pending s g p = true \/
       (g = interrupt_group cfg /\ p = pin /\ cfg .& INT_MASKED <> INT_MASKED /\
        fires (cfg .& CFG_MASK) (bit32 (in_ s) pin) level)) /\
    (cfg .& FUNC_MASK = FUNC_GPIO ->
     exists v, apple_gpio_cfg_read s' pin = Done v /\ Z.testbit v 0 = level).
Proof.
  intros Hinv Hp Hc. destruct (gpio_set_ok s pin level Hinv Hp) as (s' & E & Hinv' & Hcfg & Hpc & _ & Hb & Hpend).
  exists s'. split; [done|]. split; [done|]. split.
  - intros g p Hg Hpp. rewrite Hpend by done. unfold raises, pin_group. rewrite Hc.
    change (default 0 (Some cfg)) with cfg. cbv zeta.
    rewrite orb_true_iff, !andb_true_iff, !Z.eqb_eq, negb_true_iff, Z.eqb_neq, triggers_iff. naive_solver.
  - intros Hf. destruct (cfg_read_level s' pin cfg) as (v & Ev & Hv); [apply Hinv'|by rewrite Hpc|by rewrite Hcfg|done|].
    exists v. split; [done|]. by rewrite Hv, Hb, Z.eqb_refl by lia.
Qed.

(** A controller with sixteen pins and seven groups. *)
Definition gpio_example : AppleGPIOState :=
  mkGPIO 16 7 (replicate 7 false) (replicate 16 false) (replicate 16 CFG_INT_EDG_RIS)
    (replicate 112 0) [0] [0] 0.

Lemma gpio_example_inv : gpio_inv gpio_example.
Proof.
  assert (words_ok (replicate 112 0)) as Hw by (apply Forall_replicate; done).
  split; [split; try done; by apply List.Forall_cons|done|].
  intros g Hg. unfold line_ok, pending, bit32. change (irqs gpio_example) with (replicate 7 false).
  change (int_config gpio_example) with (replicate 112 0). split.
  - intros H. by apply lookup_replicate in H as [? _].
  - intros (pin & _ & H). exfalso. destruct (replicate 112 0 !! _) as [x|] eqn:E.
    + apply lookup_replicate in E as [-> _]. by rewrite Z.bits_0 in H.
    + by rewrite Z.bits_0 in H.
Qed.

Lemma gpio_step_inv_witness :
  exists s', gpio_step gpio_example (OpWrite 0x804 0xFFFFFFFF) = Done s' /\ gpio_inv s'.
Proof. apply (gpio_step_inv gpio_example (OpWrite 0x804 0xFFFFFFFF) gpio_example_inv). vm_compute. congruence. Defined.

Lemma gpio_set_spec_witness : exists s', apple_gpio_set gpio_example 3 true = Done s' /\ pending s' 0 3 = true.
Proof.
  destruct (gpio_set_spec gpio_example 3 true CFG_INT_EDG_RIS gpio_example_inv ltac:(vm_compute; split; congruence) eq_refl)
    as (s' & H1 & _ & H3 & _).
  exists s'. split; [exact H1|]. apply H3; [vm_compute; split; congruence..|]. right.
  split; [reflexivity|]. split; [reflexivity|]. split; [vm_compute; congruence|]. constructor.
Defined.

(** With fewer than seven groups a configuration that names a missing one
    reaches outside the pending bits. *)
Lemma gpio_missing_group :
  match apple_gpio_new 16 6 with
  | Done s => apple_gpio_reg_write s (REG_GPIOCFG 2) (6 .<< INTR_GRP_SHIFT)
  | r => r
  end = Oob.
Proof. vm_compute. reflexivity. Qed.

(** With fewer than sixteen pins the last interrupt registers of the last group
    reach outside the pending bits. *)
Lemma gpio_few_pins :
  match apple_gpio_new 8 7 with
  | Done s => apple_gpio_reg_write s 0x9BC 0
  | r => r
  end = Oob.
Proof. vm_compute. reflexivity. Qed.

(** Reset clears the pending interrupts and leaves the lines as they were. *)
Lemma gpio_reset_keeps_lines s : irqs (apple_gpio_reset s) = irqs s.
Proof. reflexivity. Qed.
