(* ===== verification/Nvram.v ===== *)
(** * Non-volatile memory

    Model of [hw/nvram/apple_nvram.c]: the environment variables, the bank of
    partitions in the layout of CHRP and the functions that load both from the
    backing device and save them to it.  The Adler-32 checksum of zlib is a
    parameter; the block device is the list of its bytes, with a flag that says
    whether the access succeeds. *)

From S2P Require Import Prelude CString.

(** ** Environment variables *)

Module Env.

Record env_var := mkVar {
  v_name : bytes;  (** at most 63 bytes *)
  v_str : bytes;
  v_u : Z;
  v_flags : Z;
}.

Abbreviation env := (list env_var).

Fixpoint env_find (e : env) (name : bytes) : option env_var :=
  match e with
  | [] => None
  | v :: e' => if decide (v_name v = name) then Some v else env_find e' name
  end.

Definition env_get (e : env) (name : bytes) : option bytes := v_str <$> env_find e name.

Definition env_get_uint (e : env) (name : bytes) (default_val : Z) : Z :=
  match env_find e name with Some v => v_u v | None => default_val end.

Definition env_get_bool (e : env) (name : bytes) (default_val : bool) : bool :=
  match env_find e name with
  | None => default_val
  | Some v => if decide (v_str v = lit "true") then true else nonzero (v_u v)
  end.

(** [QTAILQ_REMOVE] of the first variable with the name. *)
Fixpoint env_remove (e : env) (name : bytes) : env :=
  match e with
  | [] => []
  | v :: e' => if decide (v_name v = name) then e' else v :: env_remove e' name
  end.

Definition env_unset (e : env) (name : bytes) : env * Z :=
  match env_find e name with None => (e, 0) | Some _ => (env_remove e name, 1) end.

(** [g_strlcpy] cuts the name to the 63 bytes of the field. *)
Definition env_set (e : env) (name val : bytes) (flags : Z) : env :=
  let e := match env_find e name with Some _ => fst (env_unset e name) | None => e end in
  e ++ [mkVar (take 63 name) val (strtoul val) flags].

Definition env_set_uint (e : env) (name : bytes) (val flags : Z) : env :=
  env_set e name (print_hex val) flags.

Definition env_set_bool (e : env) (name : bytes) (val : bool) (flags : Z) : env :=
  env_set e name (if val then lit "true" else lit "false") flags.

(** One turn of the loop: [snprintf] of "name=value" at [pos], of which at most
    [len - pos - 1] bytes are stored, and [strlen] of what was stored. *)
Definition serialize_var (st : bytes * Z) (v : env_var) : outcome (bytes * Z) :=
  let '(buf, pos) := st in
  let text := v_name v ++ lit "=" ++ v_str v in
  buf ← blit buf pos (take (Z.to_nat (zlen buf - pos - 1)) text ++ [0]);
  s ← c_string (drop (Z.to_nat pos) buf);
  mret (buf, pos + zlen s + 1).

Fixpoint serialize_vars (e : env) (buf : bytes) (pos : Z) : outcome (option (bytes * Z)) :=
  match e with
  | [] => mret (Some (buf, pos))
  | v :: e' =>
      '(buf, pos) ← serialize_var (buf, pos) v;
      if zlen buf <=? pos then mret None else serialize_vars e' buf pos
  end.

(** The new contents of the buffer of [len] bytes and the length used; [None]
    is the result -1, which leaves the buffer as it is. *)
Definition env_serialize (e : env) (len : Z) : outcome (option (bytes * Z)) :=
  if len =? 0 then mret None else serialize_vars e (replicate (Z.to_nat len) 0) 0.

(** The loop of [apple_nvram_load_env] on the rest of the partition. *)
Fixpoint load_env_loop (fuel : nat) (data : bytes) (e : env) : outcome env :=
  match fuel with
  | O => NoFuel
  | S fuel' =>
      match data with
      | [] => mret e
      | b :: _ =>
          if b =? 0 then mret e
          else match split_at 61 data with
               | None => mret e
               | Some (name, data) =>
                   match split_at 0 data with
                   | None => mret e
                   | Some (val, data) =>
                       load_env_loop fuel' data (env_set e (before_nul name) (before_nul val) 0)
                   end
               end
      end
  end.

End Env.
Import Env.

(** ** Partitions *)

Module Bank.

Definition CHRP_NVPART_FREE : Z := 0x7f.
Definition APPLE_NVRAM_PANIC_NAME_TRUNCATED : bytes := lit "APL,OSXPani".

(** [sizeof(ChrpNvramPartHdr)]; the fields are the signature at 0, the checksum
    at 1, the length in units of 16 bytes at 2 and the name at 4. *)
Definition HDR : Z := 16.

Record NvramPartition := mkPart {
  p_sig : Z;
  p_data : bytes;
  p_name : bytes;  (** 16 bytes *)
}.

Record NvramBank := mkBank {
  parts : list NvramPartition;
  bank_len : Z;
}.
#[global] Instance eta_NvramBank : Eta NvramBank := fun b => mkBank (parts b) (bank_len b).

Definition chrp_add (sum b : Z) : Z :=
  let sum := u32 (sum + b) in
  u32 (sum + ((sum .& 0xff00) .>> 8)) .& 0xff.

(** The checksum of the header at [off]; byte 1, the checksum, is left out. *)
Definition chrp_checksum (buf : bytes) (off : Z) : outcome Z :=
  b0 ← aget buf off;
  rest ← slice buf (off + 2) 14;
  mret (fold_left chrp_add rest b0 .& 0xff).

Definition put_checksum (buf : bytes) (off : Z) : outcome bytes :=
  c ← chrp_checksum buf off;
  aset buf (off + 1) c.

Fixpoint nvram_find_part (ps : list NvramPartition) (name : bytes) : outcome (option nat) :=
  match ps with
  | [] => mret None
  | p :: ps' =>
      eq ← strcmp_eq (p_name p) name;
      if (eq : bool) then mret (Some O)
      else r ← nvram_find_part ps' name; mret (S <$> r)
  end.

(** The header's length field, and the name as [strncpy] into 16 bytes reads
    it: it goes on behind the 12 bytes of the field. *)
Definition hdr_len_at (buf : bytes) (off : Z) : outcome Z :=
  l ← slice buf (off + 2) 2; mret (le_combine l).

Fixpoint parse_loop (fuel : nat) (buf : bytes) (len off : Z) (ps : list NvramPartition)
    : outcome (list NvramPartition) :=
  match fuel with
  | O => NoFuel
  | S fuel' =>
      if len <? off + HDR then mret ps
      else
        stored ← aget buf (off + 1);
        sum ← chrp_checksum buf off;
        if negb (stored =? sum) then mret ps
        else
          sig ← aget buf off;
          if sig =? CHRP_NVPART_FREE then mret ps
          else
            n ← hdr_len_at buf off;
            if (len <? n * 0x10 + off) || (n <? 1) then mret ps
            else
              field ← slice buf (off + 4) 12;
              if decide (field = APPLE_NVRAM_PANIC_NAME_TRUNCATED ++ [0]) then
                parse_loop fuel' buf len (off + n * 0x10) ps
              else
                name ← strncpy_from 16 (drop (Z.to_nat (off + 4)) buf);
                data ← slice buf (off + 0x10) (n * 0x10 - 0x10);
                parse_loop fuel' buf len (off + n * 0x10) (ps ++ [mkPart sig data name])
  end.

Definition nvram_parse_partitions (buf : bytes) (len : Z) : outcome (list NvramPartition) :=
  parse_loop (S (length buf)) buf len 0x20 [].

Section Adler.

(** [adler32(1, p, n)] of zlib on the [n] bytes. *)
Context (adler32 : bytes -> Z).

Definition nvram_parse (buf : bytes) (len : Z) : outcome NvramBank :=
  let bank := mkBank [] len in
  stored ← aget buf 1;
  sum ← chrp_checksum buf 0;
  if negb (stored =? sum) then mret bank
  else
    covered ← slice buf 0x14 (len - 0x14);
    expected ← slice buf 0x10 4;
    if negb (adler32 covered =? le_combine expected) then mret bank
    else
      ps ← nvram_parse_partitions buf len;
      mret (mkBank ps len).

(** [ROUND_UP(len + 0x10, 0x10) / 0x10] in the 16-bit field. *)
Definition part_units (len : Z) : Z := u16 (((len + 0x10 + 0xf) .&~ 0xf) / 0x10).

(** The stores that fill in the header of a partition. *)
Definition put_hdr (buf : bytes) (off : Z) (p : NvramPartition) : outcome bytes :=
  buf ← aset buf off (p_sig p);
  buf ← blit buf (off + 2) (le_split 2 (part_units (zlen (p_data p))));
  name ← slice (p_name p) 0 12;
  buf ← blit buf (off + 4) name;
  put_checksum buf off.

(** One turn of the loop over the partitions; [None] is the early return. *)
Definition prepare_part (len : Z) (p : NvramPartition) (buf : bytes) (off : Z)
    : outcome (option (bytes * Z)) :=
  if zlen (p_data p) =? 0 then mret (Some (buf, off))
  else if len <? off + HDR then mret None
  else
    buf ← put_hdr buf off p;
    if len <? off + HDR + zlen (p_data p) then mret None
    else
      buf ← blit buf (off + HDR) (p_data p);
      n ← hdr_len_at buf off;
      mret (Some (buf, off + n * 0x10)).

Fixpoint prepare_parts (len : Z) (ps : list NvramPartition) (buf : bytes) (off : Z)
    : outcome (option (bytes * Z)) :=
  match ps with
  | [] => mret (Some (buf, off))
  | p :: ps' =>
      r ← prepare_part len p buf off;
      match r with
      | None => mret None
      | Some (buf, off) => prepare_parts len ps' buf off
      end
  end.

Definition prepare_free (len : Z) (buf : bytes) (off : Z) : outcome bytes :=
  if off + HDR <=? len then
    buf ← aset buf off CHRP_NVPART_FREE;
    buf ← blit buf (off + 2) (le_split 2 ((len - off) / 0x10));
    put_checksum buf off
  else mret buf.

(** The stores to the header of the bank. *)
Definition put_bank_hdr (buf : bytes) : outcome bytes :=
  buf ← aset buf 0 0x5a;
  buf ← blit buf 2 (le_split 2 2);
  buf ← blit buf 4 (lit "nvram" ++ [0]);
  buf ← put_checksum buf 0;
  blit buf 0x14 (le_split 4 0).

Definition nvram_prepare_bank (bank : NvramBank) : outcome (option bytes) :=
  let len := bank_len bank in
  buf ← put_bank_hdr (replicate (Z.to_nat len) 0);
  r ← prepare_parts len (parts bank) buf 0x20;
  match r with
  | None => mret None
  | Some (buf, off) =>
      buf ← prepare_free len buf off;
      covered ← slice buf 0x14 (len - 0x14);
      buf ← blit buf 0x10 (le_split 4 (adler32 covered));
      mret (Some buf)
  end.

End Adler.

End Bank.
Import Bank.

(** ** The device *)

Section Device.

Context (adler32 : bytes -> Z).

Record AppleNvramState := mkNvram {
  bank : option NvramBank;
  vars : env;
  nv_len : Z;
}.
#[global] Instance eta_AppleNvramState : Eta AppleNvramState := fun s => mkNvram (bank s) (vars s) (nv_len s).

(** The partition both functions create when there is none. *)
Definition new_common : NvramPartition := mkPart 0x70 (replicate 0x7f0 0) (strncpy 16 (lit "common")).

(** The partitions with "common" among them, and its index. *)
Definition with_common (ps : list NvramPartition) : outcome (list NvramPartition * nat) :=
  r ← nvram_find_part ps (lit "common");
  match r with
  | Some i => mret (ps, i)
  | None => mret (new_common :: ps, O)
  end.

Definition apple_nvram_load_env (s : AppleNvramState) : outcome AppleNvramState :=
  match bank s with
  | None => Oob
  | Some b =>
      r ← nvram_find_part (parts b) (lit "common");
      match r with
      | None => Oob
      | Some i =>
          match parts b !! i with
          | None => Oob
          | Some p =>
              e ← load_env_loop (S (length (p_data p))) (p_data p) (vars s);
              mret (s <| vars := e |>)
          end
      end
  end.

(** The result is what [buffer] of [size] bytes begins with afterwards; [None]
    is the result -1. *)
Definition apple_nvram_serialize (s : AppleNvramState) (size : Z) : outcome (AppleNvramState * option bytes) :=
  match bank s with
  | None => Oob
  | Some b =>
      '(ps, i) ← with_common (parts b);
      match ps !! i with
      | None => Oob
      | Some p =>
          r ← env_serialize (vars s) (zlen (p_data p));
          let ps := match r with
                    | Some (data, _) => <[i := mkPart (p_sig p) data (p_name p)]> ps
                    | None => ps
                    end : list NvramPartition in
          let b := b <| parts := ps |> in
          let s := s <| bank := Some b |> in
          buf ← nvram_prepare_bank adler32 b;
          mret (s, option_map (take (Z.to_nat size)) buf)
      end
  end.

Definition apple_nvram_cleanup (s : AppleNvramState) : AppleNvramState :=
  s <| bank := None |> <| vars := [] |>.

Definition apple_nvram_save (s : AppleNvramState) (disk : bytes) (write_ok : bool)
    : outcome (AppleNvramState * bytes) :=
  '(s, out) ← apple_nvram_serialize s (nv_len s);
  match out with
  | Some out => if write_ok && (zlen out <=? zlen disk) then disk ← blit disk 0 out; mret (s, disk) else mret (s, disk)
  | None => mret (s, disk)
  end.

Definition apple_nvram_load (s : AppleNvramState) (disk : bytes) (read_ok : bool) : outcome AppleNvramState :=
  let len := if 0x2000 <? zlen disk then 0x2000 else zlen disk in
  if negb read_ok then mret s
  else
    buffer ← slice disk 0 len;
    let s := apple_nvram_cleanup s in
    let s := s <| nv_len := u32 len |> in
    b ← nvram_parse adler32 buffer len;
    '(ps, _) ← with_common (parts b);
    apple_nvram_load_env (s <| bank := Some (b <| parts := ps |>) |> <| vars := [] |>).

End Device.

(** ** The environment round trip *)

Definition var_text (v : env_var) : bytes := v_name v ++ lit "=" ++ v_str v ++ [0].
Definition env_image (e : env) : bytes := concat (map var_text e).

Record good_var (v : env_var) : Prop := {
  gv_name : no_nul (v_name v) /\ (61 ∉ v_name v) /\ (length (v_name v) <= 63)%nat;
  gv_str : no_nul (v_str v);
  gv_u : v_u v = strtoul (v_str v);
}.

Lemma serialize_var_ok pre k v : good_var v -> (length (var_text v) < k)%nat ->
  serialize_var (pre ++ replicate k 0, zlen pre) v =
  Done (pre ++ var_text v ++ replicate (k - length (var_text v)) 0, zlen pre + zlen (var_text v)).
Proof.
  intros [[Hn _] Hs _] Hk. unfold serialize_var.
  set (text := v_name v ++ lit "=" ++ v_str v).
  assert (var_text v = text ++ [0]) as Et by (unfold var_text, text; by rewrite <- !(assoc_L (++))).
  rewrite Et in *. rewrite length_app in Hk. cbn [length] in Hk.
  assert (no_nul text) as Ht.
  { unfold text, no_nul in *. rewrite !Forall_app. split_and!; [done|by repeat constructor|done]. }
  rewrite take_ge by (rewrite zlen_app, zlen_replicate; lia).
  replace (replicate k 0) with (replicate k 0 ++ []) by apply app_nil_r.
  rewrite (blit_part pre _ [] _ 0) by (rewrite ?length_app, ?length_replicate; cbn [length]; lia). run.
  rewrite take_0, app_nil_r, app_nil_l, drop_part.
  rewrite drop_replicate, <- !(assoc_L (++)). cbn [app]. rewrite c_string_app by done. run.
  rewrite zlen_app, Z.add_assoc. done.
Qed.

Lemma serialize_vars_ok e : forall pre k, Forall good_var e -> (length (env_image e) < k)%nat ->
  serialize_vars e (pre ++ replicate k 0) (zlen pre) =
  Done (Some (pre ++ env_image e ++ replicate (k - length (env_image e)) 0, zlen pre + zlen (env_image e))).
Proof.
  induction e as [|v e IH]; intros pre k Hg Hk.
  { cbn. change (zlen (@nil Z)) with 0. by rewrite Z.add_0_r, Nat.sub_0_r. }
  apply Forall_cons in Hg as [Hv Hg]. cbn [serialize_vars]. unfold env_image in *. cbn [map concat] in *.
  rewrite length_app in *. rewrite serialize_var_ok by (done || lia). run.
  rewrite (proj2 (Z.leb_gt _ _)).
  2:{ rewrite !zlen_app, zlen_replicate. unfold zlen. lia. }
  rewrite (assoc_L (++)), <- zlen_app. rewrite IH by (done || lia).
  rewrite !zlen_app. rewrite <- !(assoc_L (++)). do 3 f_equal; [|lia]. do 4 f_equal. lia.
Qed.

Lemma env_find_None e name : name ∉ map v_name e -> env_find e name = None.
Proof.
  induction e as [|v e IH]; cbn; [done|]. intros [H1 H2]%not_elem_of_cons.
  rewrite decide_False by done. by apply IH.
Qed.

Definition saved_var (v : env_var) : env_var := mkVar (v_name v) (v_str v) (v_u v) 0.

Lemma load_env_image e : forall fuel e0 rest, Forall good_var e -> NoDup (map v_name (e0 ++ e)) ->
  (length e < fuel)%nat ->
  load_env_loop fuel (env_image e ++ 0 :: rest) e0 = Done (e0 ++ map saved_var e).
Proof.
  induction e as [|v e IH]; intros [|fuel] e0 rest Hg Hnd Hf; cbn [length] in *; [lia| |lia|].
  { cbn. by rewrite app_nil_r. }
  apply Forall_cons in Hg as [[(Hn & H61 & Hlen) Hs Hu] Hg].
  assert (env_image (v :: e) ++ 0 :: rest = v_name v ++ 61 :: (v_str v ++ 0 :: (env_image e ++ 0 :: rest))) as ->.
  { unfold env_image, var_text. cbn [map concat]. rewrite <- !(assoc_L (++)). done. }
  cbn [load_env_loop]. rewrite split_at_app by done. rewrite split_at_app by (by apply no_nul_not_elem).
  rewrite !before_nul_id by done.
  assert (forall X (x y : X), match v_name v ++ 61 :: (v_str v ++ 0 :: (env_image e ++ 0 :: rest)) with
     [] => x | b :: _ => if b =? 0 then x else y end = y) as ->.
  { intros X x y. destruct Hn as [|b n Hb Hn]; cbn [app]; [done|]. by rewrite (proj2 (Z.eqb_neq b 0)) by lia. }
  assert (env_set e0 (v_name v) (v_str v) 0 = e0 ++ [saved_var v]) as ->.
  { unfold env_set, saved_var. rewrite env_find_None, Hu, take_ge; [done|done|].
    rewrite map_app in Hnd. apply NoDup_app in Hnd as (_ & Hd & _). intros Hin. apply (Hd _ Hin). cbn. left. }
  rewrite IH; [by rewrite <- (assoc_L (++))|done| |lia].
  rewrite <- (assoc_L (++)). cbn [app]. rewrite map_app in *. cbn [map] in *. done.
Qed.

(** ** The bank round trip *)

(** The 16 bytes of a header: what is read back from it. *)
Definition hdr_sum (h : bytes) : Z := fold_left chrp_add (take 14 (drop 2 h)) (default 0 (head h)) .& 0xff.
Definition hdr_image (sig units : Z) (name : bytes) : bytes :=
  let h := sig :: 0 :: le_split 2 units ++ name in
  <[1%nat := hdr_sum h]> h.

Lemma chrp_checksum_at a h c off : off = zlen a -> length h = 16%nat ->
  chrp_checksum (a ++ h ++ c) off = Done (hdr_sum h).
Proof.
  intros -> H. destruct h as [|b h]; [done|]. unfold chrp_checksum.
  rewrite (aget_part a (b :: h) c 0 b) by (done || lia). run.
  rewrite (slice_part a (b :: h) c 2 14) by lia. run. done.
Qed.

Lemma put_checksum_at a h c off : off = zlen a -> length h = 16%nat ->
  put_checksum (a ++ h ++ c) off = Done (a ++ <[1%nat := hdr_sum h]> h ++ c).
Proof.
  intros -> H. unfold put_checksum. rewrite chrp_checksum_at by done. run.
  by rewrite (aset_part a h c 1) by lia.
Qed.

Lemma hdr_sum_insert h x : hdr_sum (<[1%nat := x]> h) = hdr_sum h.
Proof. by destruct h as [|b [|b' h]]. Qed.

Lemma hdr_image_length sig units name : length name = 12%nat -> length (hdr_image sig units name) = 16%nat.
Proof. intros H. unfold hdr_image. rewrite length_insert. cbn. by rewrite H. Qed.

(** The stores of a header over zeros. *)
Definition zero_hdr : bytes := replicate 16 0.


Lemma put_hdr_ok a c p off : off = zlen a -> length (p_name p) = 16%nat ->
  put_hdr (a ++ zero_hdr ++ c) off p =
  Done (a ++ hdr_image (p_sig p) (part_units (zlen (p_data p))) (take 12 (p_name p)) ++ c).
Proof.
  intros -> Hn. unfold put_hdr. rewrite (aset_part a _ c 0) by (cbn; lia). run.
  set (units := part_units _).
  rewrite (blit_part a _ c _ 2) by (rewrite ?length_le_split; cbn; lia). run.
  rewrite slice_in_range by (unfold zlen; rewrite ?Hn; lia). run. change (drop (Z.to_nat 0) (p_name p)) with (p_name p).
  change (Z.to_nat 12) with 12%nat. set (name := take 12 (p_name p)).
  assert (length name = 12%nat) as Hl by (unfold name; rewrite length_take, Hn; done).
  rewrite (blit_part a _ c _ 4) by (rewrite ?Hl; cbn; lia). run. rewrite Hl.
  match goal with |- put_checksum (a ++ ?h ++ c) _ = _ =>
    assert (h = p_sig p :: 0 :: le_split 2 units ++ name) as -> by (cbn; by rewrite app_nil_r) end.
  by rewrite put_checksum_at by (done || (cbn; by rewrite Hl)).
Qed.

Lemma prepare_free_ok a k len off : off = zlen a -> off + Z.of_nat k = len ->
  exists tail, length tail = k /\ prepare_free len (a ++ replicate k 0) off = Done (a ++ tail) /\
    ((k < 16)%nat \/ exists units rest, tail = hdr_image CHRP_NVPART_FREE units (replicate 12 0) ++ rest).
Proof.
  intros -> Hk. unfold prepare_free, HDR. destruct (Z.leb_spec (zlen a + 16) len).
  2:{ exists (replicate k 0). rewrite length_replicate. split_and!; [done..|]. left. lia. }
  replace (replicate k 0) with (zero_hdr ++ replicate (k - 16) 0).
  2:{ unfold zero_hdr. rewrite <- replicate_add. f_equal. lia. }
  rewrite (aset_part a _ _ 0) by (cbn; lia). run. set (units := (len - zlen a) / 16).
  rewrite (blit_part a _ _ _ 2) by (rewrite ?length_le_split; cbn; lia). run.
  match goal with |- context [put_checksum (a ++ ?h ++ _) _] =>
    change h with (CHRP_NVPART_FREE :: 0 :: le_split 2 units ++ replicate 12 0) end.
  rewrite put_checksum_at by done.
  eexists. split; [|split; [done|right; eexists units, _; done]].
  rewrite length_app, length_insert. cbn [length app le_split replicate]. rewrite length_replicate. lia.
Qed.

(** A partition that survives a save: its data fill whole units and its name
    leaves room for the terminating zero. *)
Record good_part (p : NvramPartition) : Prop := {
  gp_sig : p_sig p <> CHRP_NVPART_FREE;
  gp_data : exists m, zlen (p_data p) = 16 * m /\ 0 < m < 65535;
  gp_name : exists nm, p_name p = nm ++ replicate (16 - length nm) 0 /\ no_nul nm /\
    (length nm <= 11)%nat /\ nm <> APPLE_NVRAM_PANIC_NAME_TRUNCATED;
}.

Definition part_image (p : NvramPartition) : bytes :=
  hdr_image (p_sig p) (part_units (zlen (p_data p))) (take 12 (p_name p)) ++ p_data p.

Lemma part_units_ok m : 0 <= m < 65535 -> part_units (16 * m) = m + 1.
Proof.
  intros H. unfold part_units. replace (16 * m + 16 + 15) with (15 + (m + 1) * 2 ^ 4) by lia.
  change 15 with (Z.ones 4) at 2. rewrite Z.ldiff_ones_r, Z.shiftr_div_pow2, Z.shiftl_mul_pow2 by lia.
  rewrite Z.div_add by lia. change (15 / 2 ^ 4) with 0. change (2 ^ 4) with 16. rewrite Z.div_mul by lia.
  apply wrap_small. unfold in_width. lia.
Qed.

Lemma good_part_name p : good_part p -> length (p_name p) = 16%nat /\ length (take 12 (p_name p)) = 12%nat.
Proof.
  intros [_ _ (nm & -> & _ & H & _)]. rewrite length_take, length_app, length_replicate. lia.
Qed.

(** The image of a partition is one unit for the header and the data. *)
Lemma part_image_length p : good_part p ->
  zlen (part_image p) = 16 + zlen (p_data p) /\ part_units (zlen (p_data p)) * 16 = zlen (part_image p) /\
  0 < part_units (zlen (p_data p)) < 2 ^ 16 /\ 16 <= zlen (p_data p).
Proof.
  intros Hp. destruct (gp_data p Hp) as (m & Hm & H).
  assert (zlen (part_image p) = 16 + zlen (p_data p)) as ->.
  { unfold part_image, zlen. rewrite length_app, hdr_image_length by (by apply good_part_name). lia. }
  rewrite Hm, part_units_ok by lia. lia.
Qed.

(** The length in the header of an image. *)
Lemma hdr_len_image a sig units name c off : off = zlen a -> 0 <= units < 2 ^ 16 -> length name = 12%nat ->
  hdr_len_at (a ++ hdr_image sig units name ++ c) off = Done units.
Proof.
  intros -> Hu Hn. unfold hdr_len_at.
  rewrite (slice_part a _ _ 2 2) by (rewrite ?hdr_image_length; lia || done). run.
  change (take 2 (drop 2 (hdr_image sig units name))) with (le_split 2 units).
  rewrite le_combine_split. unfold mret, outcome_ret. f_equal. by apply wrap_small.
Qed.

Lemma prepare_part_ok a k p len : good_part p -> len = zlen a + Z.of_nat k -> (length (part_image p) <= k)%nat ->
  prepare_part len p (a ++ replicate k 0) (zlen a) =
  Done (Some (a ++ part_image p ++ replicate (k - length (part_image p)) 0, zlen a + zlen (part_image p))).
Proof.
  intros Hp -> Hk. destruct (part_image_length p Hp) as (H1 & H2 & H3 & H4).
  destruct (good_part_name p Hp) as [Hn1 Hn2]. unfold prepare_part, HDR.
  assert (zlen (part_image p) <= Z.of_nat k) by (unfold zlen; lia). eval_cmp.
  replace (replicate k 0) with (zero_hdr ++ replicate (k - 16) 0).
  2:{ unfold zero_hdr. rewrite <- replicate_add. f_equal. lia. }
  rewrite put_hdr_ok by done. run. unfold part_image in *. set (h := hdr_image _ _ _) in *.
  assert (length h = 16%nat) as Hh by (by apply hdr_image_length).
  replace (replicate (k - 16) 0) with (replicate (k - 16) 0 ++ []) by apply app_nil_r.
  rewrite (assoc_L (++) a h), (blit_part (a ++ h) _ [] _ 0)
    by (rewrite ?zlen_app, ?length_replicate; unfold zlen in *; rewrite ?Hh; lia). run.
  rewrite take_0, app_nil_l, app_nil_r, drop_replicate, <- !(assoc_L (++)).
  unfold h in *. rewrite hdr_len_image by (done || lia). run. rewrite <- H2, length_app, Hh, !Nat.sub_add_distr, Nat.sub_0_r.
  done.
Qed.

Definition parts_image (ps : list NvramPartition) : bytes := concat (map part_image ps).

Lemma prepare_parts_ok ps : forall a k len, Forall good_part ps -> len = zlen a + Z.of_nat k ->
  (length (parts_image ps) <= k)%nat ->
  prepare_parts len ps (a ++ replicate k 0) (zlen a) =
  Done (Some (a ++ parts_image ps ++ replicate (k - length (parts_image ps)) 0, zlen a + zlen (parts_image ps))).
Proof.
  induction ps as [|p ps IH]; intros a k len Hg Hl Hk.
  { cbn. change (zlen (@nil Z)) with 0. by rewrite Z.add_0_r, Nat.sub_0_r. }
  apply Forall_cons in Hg as [Hp Hg]. cbn [prepare_parts]. unfold parts_image in *. cbn [map concat] in *.
  rewrite length_app in *. rewrite prepare_part_ok by (done || lia). run.
  rewrite (assoc_L (++)), <- zlen_app.
  rewrite IH by (done || lia || (rewrite zlen_app; unfold zlen in *; lia)).
  rewrite !zlen_app, <- !(assoc_L (++)). do 3 f_equal; [|lia]. do 4 f_equal. lia.
Qed.

Lemma panic_name_differs nm : no_nul nm -> (length nm <= 11)%nat -> nm <> APPLE_NVRAM_PANIC_NAME_TRUNCATED ->
  nm ++ replicate (12 - length nm) 0 <> APPLE_NVRAM_PANIC_NAME_TRUNCATED ++ [0].
Proof.
  intros H1 H2 H3 E. apply H3.
  assert (forall s t x y : bytes, no_nul s -> no_nul t -> s ++ 0 :: x = t ++ 0 :: y -> s = t) as Hinj.
  { intros s. induction s as [|b s IH]; intros [|c t] x y Hs Ht; cbn; [done|..].
    - intros [= <- _]. apply Forall_cons in Ht. lia.
    - intros [= -> _]. apply Forall_cons in Hs. lia.
    - intros [= -> E']. apply Forall_cons in Hs as [_ Hs], Ht as [_ Ht]. f_equal. eauto. }
  replace (12 - length nm)%nat with (S (11 - length nm)) in E by lia. cbn [replicate] in E.
  eapply Hinj; [done| |exact E]. by repeat constructor.
Qed.

Lemma take_name (nm : bytes) : (length nm <= 11)%nat -> take 12 (nm ++ replicate (16 - length nm) 0) = nm ++ replicate (12 - length nm) 0.
Proof. intros H. rewrite take_app, take_ge, take_replicate by lia. do 2 f_equal. lia. Qed.

(** What the parser reads at the image of a partition. *)
Lemma image_reads a p c : good_part p ->
  let buf := a ++ part_image p ++ c in
  let off := zlen a in
  (exists sum, aget buf (off + 1) = Done sum /\ chrp_checksum buf off = Done sum) /\
  aget buf off = Done (p_sig p) /\
  hdr_len_at buf off = Done (part_units (zlen (p_data p))) /\
  (exists field, slice buf (off + 4) 12 = Done field /\ field <> APPLE_NVRAM_PANIC_NAME_TRUNCATED ++ [0]) /\
  strncpy_from 16 (drop (Z.to_nat (off + 4)) buf) = Done (p_name p) /\
  slice buf (off + 0x10) (zlen (p_data p)) = Done (p_data p).
Proof.
  intros Hp. destruct (part_image_length p Hp) as (_ & _ & H3 & _). destruct (good_part_name p Hp) as [Hn1 Hn2].
  pose proof Hp as [_ _ (nm & En & Hnul & Hlen & Hpanic)].
  set (h := hdr_image (p_sig p) (part_units (zlen (p_data p))) (take 12 (p_name p))).
  assert (length h = 16%nat) as Hh by (by apply hdr_image_length).
  assert (drop 4 h = nm ++ replicate (12 - length nm) 0) as Ed.
  { change (drop 4 h) with (take 12 (p_name p)). rewrite En. by rewrite take_name. }
  cbv zeta. unfold part_image. fold h. rewrite <- (assoc_L (++) h). split_and!.
  - exists (hdr_sum h). split; [|by apply chrp_checksum_at]. apply (aget_part a h _ 1); [lia|].
    unfold h, hdr_image. by rewrite hdr_sum_insert, list_lookup_insert_eq by (cbn; lia).
  - apply (aget_part a h _ 0); [lia|done].
  - apply hdr_len_image; [done|lia|done].
  - eexists. split; [apply (slice_part a h _ 4 12); lia|]. rewrite Ed, take_ge.
    + by apply panic_name_differs.
    + rewrite length_app, length_replicate. lia.
  - assert (Z.to_nat (zlen a + 4) = length a + 4)%nat as -> by (unfold zlen; lia).
    rewrite drop_app, drop_ge, Nat.add_sub' by lia. rewrite app_nil_l, drop_app_le, Ed, <- (assoc_L (++)) by lia.
    replace (12 - length nm)%nat with (S (11 - length nm)) by lia. cbn [replicate app].
    replace 16%nat with (length nm + S (15 - length nm))%nat at 1 by lia. rewrite strncpy_from_app by done.
    rewrite En. do 3 f_equal. lia.
  - rewrite (assoc_L (++)), (slice_part (a ++ h) (p_data p) c 0 (length (p_data p)));
      [by rewrite drop_0, take_ge|..|lia]; [|done]. rewrite zlen_app. unfold zlen. rewrite Hh. lia.
Qed.

Lemma parse_part_ok fuel a p c ps : good_part p -> let buf := a ++ part_image p ++ c in
  parse_loop (S fuel) buf (zlen buf) (zlen a) ps =
  parse_loop fuel buf (zlen buf) (zlen a + zlen (part_image p)) (ps ++ [p]).
Proof.
  intros Hp. destruct (part_image_length p Hp) as (H1 & H2 & H3 & H4).
  destruct (image_reads a p c Hp) as ((sum & R1 & R2) & R3 & R4 & (field & R5 & R6) & R7 & R8).
  cbv zeta in *. set (buf := a ++ part_image p ++ c) in *.
  assert (zlen buf = zlen a + zlen (part_image p) + zlen c) as Hz by (unfold buf; rewrite !zlen_app; lia).
  assert (0 <= zlen c) by (unfold zlen; lia). cbn [parse_loop]. unfold HDR. rewrite (proj2 (Z.ltb_ge _ _)) by lia.
  rewrite R1, R2. run. rewrite Z.eqb_refl. cbn [negb]. rewrite R3. run.
  rewrite (proj2 (Z.eqb_neq _ _)) by (by apply Hp). rewrite R4. run. rewrite H2.
  rewrite (proj2 (Z.ltb_ge _ _)) by lia. rewrite (proj2 (Z.ltb_ge _ _)) by lia. cbn [orb]. rewrite R5. run.
  rewrite decide_False by done. rewrite R7. run. rewrite H1, Z.add_simpl_l, R8. run. by destruct p.
Qed.

(** The tail [prepare_free] leaves ends the loop. *)
Lemma parse_end fuel a tail ps :
  (length tail < 16)%nat \/ (exists units rest, tail = hdr_image CHRP_NVPART_FREE units (replicate 12 0) ++ rest) ->
  parse_loop (S fuel) (a ++ tail) (zlen (a ++ tail)) (zlen a) ps = Done ps.
Proof.
  intros H. cbn [parse_loop]. unfold HDR. destruct (Z.ltb_spec (zlen (a ++ tail)) (zlen a + 16)) as [|Hl]; [done|].
  destruct H as [H|(units & rest & ->)]; [rewrite zlen_app in Hl; unfold zlen in Hl; lia|].
  set (h := hdr_image _ _ _). rewrite (aget_part a h _ 1 (hdr_sum h) (zlen a + 1)); [|lia|].
  2:{ unfold h, hdr_image. by rewrite hdr_sum_insert, list_lookup_insert_eq by (cbn; lia). }
  run. rewrite chrp_checksum_at by done. run. rewrite Z.eqb_refl. cbn [negb].
  rewrite (aget_part a h _ 0 CHRP_NVPART_FREE) by (done || lia). run. done.
Qed.

Lemma parse_parts_ok qs : forall fuel a tail ps, Forall good_part qs -> (length qs < fuel)%nat ->
  (length tail < 16)%nat \/ (exists units rest, tail = hdr_image CHRP_NVPART_FREE units (replicate 12 0) ++ rest) ->
  let buf := a ++ parts_image qs ++ tail in
  parse_loop fuel buf (zlen buf) (zlen a) ps = Done (ps ++ qs).
Proof.
  induction qs as [|p qs IH]; intros [|fuel] a tail ps Hg Hf Ht; cbn [length] in *; [lia| |lia|].
  { cbv zeta. rewrite app_nil_r. by apply parse_end. }
  apply Forall_cons in Hg as [Hp Hg]. cbv zeta. unfold parts_image. cbn [map concat].
  rewrite <- (assoc_L (++) (part_image p)). rewrite parse_part_ok by done.
  rewrite <- zlen_app, (assoc_L (++) a). fold (parts_image qs).
  rewrite (IH fuel (a ++ part_image p) tail (ps ++ [p])) by (done || lia). by rewrite <- (assoc_L (++)).
Qed.

(** The first header of a bank. *)
Definition bank_hdr : bytes := hdr_image 0x5a 2 (lit "nvram" ++ replicate 7 0).

Lemma bank_start_ok k :
  put_bank_hdr (replicate (32 + k) 0) = Done (bank_hdr ++ replicate 16 0 ++ replicate k 0).
Proof.
  unfold put_bank_hdr.
  replace (replicate (32 + k) 0) with ([] ++ replicate 32 0 ++ replicate k 0) by by rewrite replicate_add.
  rewrite (aset_part [] _ _ 0) by (done || cbn; lia). run. rewrite (blit_part [] _ _ _ 2) by (done || cbn; lia). run.
  rewrite (blit_part [] _ _ _ 4) by (done || cbn; lia). run.
  match goal with |- context [put_checksum ([] ++ ?h ++ ?c) 0] =>
    replace ([] ++ h ++ c) with ([] ++ take 16 h ++ (replicate 16 0 ++ c)) by (cbn; done) end.
  rewrite put_checksum_at by done. run.
  match goal with |- context [blit ([] ++ ?h ++ ?c) _ _] => change ([] ++ h ++ c) with (h ++ c) end.
  rewrite (blit_part _ (replicate 16 0) _ _ 4) by (done || cbn; lia). f_equal.
Qed.

(** What the Adler-32 sum covers. *)
Lemma slice_covered l (X : bytes) len : length l = 16%nat -> len = 32 + zlen X ->
  slice (bank_hdr ++ l ++ X) 20 (len - 20) = Done (drop 4 l ++ X).
Proof.
  intros Hl ->. replace (l ++ X) with ((l ++ X) ++ []) by apply app_nil_r.
  rewrite (slice_part bank_hdr (l ++ X) [] 4 (12 + length X)); [|done|unfold zlen; lia|rewrite length_app; lia].
  rewrite drop_app_le by lia. by rewrite take_ge by (rewrite length_app, length_drop; lia).
Qed.

Lemma parts_image_count ps : Forall good_part ps -> (length ps <= length (parts_image ps))%nat.
Proof.
  induction 1 as [|p ps Hp _ IH]; [done|]. unfold parts_image in *. cbn [map concat length]. rewrite length_app.
  destruct (part_image_length p Hp) as (H1 & _ & _ & H2). unfold zlen in *. lia.
Qed.

Definition free_tail (tail : bytes) : Prop :=
  (length tail < 16)%nat \/ exists units rest, tail = hdr_image CHRP_NVPART_FREE units (replicate 12 0) ++ rest.

Definition bank_image (adler32 : bytes -> Z) (X : bytes) : bytes :=
  bank_hdr ++ (le_split 4 (adler32 (replicate 12 0 ++ X)) ++ replicate 12 0) ++ X.

Lemma prepare_bank_ok adler32 ps len : Forall good_part ps -> 0x20 + zlen (parts_image ps) <= len ->
  exists tail, free_tail tail /\ len = 32 + zlen (parts_image ps ++ tail) /\
    nvram_prepare_bank adler32 (mkBank ps len) = Done (Some (bank_image adler32 (parts_image ps ++ tail))).
Proof.
  intros Hg Hlen. unfold nvram_prepare_bank. cbn [bank_len parts].
  set (k := Z.to_nat (len - 32)). assert (Z.to_nat len = 32 + k)%nat as -> by (unfold k, zlen in *; lia).
  assert (len = 32 + Z.of_nat k) as Hk by (unfold k, zlen in *; lia).
  rewrite bank_start_ok. run. rewrite (assoc_L (++)).
  change 32 with (zlen (bank_hdr ++ replicate 16 0)) at 1.
  rewrite prepare_parts_ok by (done || (unfold zlen in *; lia)). run. rewrite <- zlen_app, (assoc_L (++)).
  set (k' := (k - length (parts_image ps))%nat).
  destruct (prepare_free_ok ((bank_hdr ++ replicate 16 0) ++ parts_image ps) k' len _ eq_refl) as (tail & Ht1 & -> & Ht2).
  { rewrite zlen_app. change (zlen (bank_hdr ++ replicate 16 0)) with 32. unfold k', zlen in *. lia. }
  run. rewrite <- !(assoc_L (++)).
  assert (len = 32 + zlen (parts_image ps ++ tail)) as HX by (rewrite zlen_app; unfold k', zlen in *; lia).
  rewrite slice_covered by done. run.
  rewrite (blit_part bank_hdr (replicate 16 0) _ _ 0) by (done || (rewrite length_le_split; cbn; lia)). run.
  exists tail. split_and!; [|done..]. unfold free_tail. destruct Ht2 as [?|?]; [left; lia|by right].
Qed.

Lemma parse_bank_ok adler32 ps tail len : (forall l, in_width 32 (adler32 l)) -> Forall good_part ps ->
  free_tail tail -> len = 32 + zlen (parts_image ps ++ tail) ->
  nvram_parse adler32 (bank_image adler32 (parts_image ps ++ tail)) len = Done (mkBank ps len).
Proof.
  intros Had Hg Ht Hlen. unfold bank_image. set (X := parts_image ps ++ tail) in *. set (sum := adler32 _).
  set (l := le_split 4 sum ++ replicate 12 0). unfold nvram_parse.
  assert (aget (bank_hdr ++ l ++ X) 1 = Done (hdr_sum bank_hdr)) as -> by (by apply (aget_part [] bank_hdr _ 1)).
  run. assert (chrp_checksum (bank_hdr ++ l ++ X) 0 = Done (hdr_sum bank_hdr)) as ->
    by (by apply (chrp_checksum_at [] bank_hdr)).
  run. rewrite Z.eqb_refl. cbn [negb]. rewrite slice_covered by done. run.
  rewrite (slice_part bank_hdr l X 0 4) by (done || (cbn; lia)). run.
  change (drop 4 l) with (replicate 12 0). change (take 4 (drop 0 l)) with (le_split 4 sum). fold sum.
  rewrite le_combine_split, wrap_small by apply Had. rewrite Z.eqb_refl. cbn [negb].
  assert (bank_hdr ++ l ++ X = (bank_hdr ++ l) ++ X) as -> by by rewrite (assoc_L (++)).
  assert (len = zlen ((bank_hdr ++ l) ++ X)) as -> by (rewrite zlen_app; exact Hlen).
  unfold nvram_parse_partitions. change 32 with (zlen (bank_hdr ++ l)). unfold X at 1 2 3.
  rewrite parse_parts_ok; [done|done| |done]. pose proof (parts_image_count ps Hg). rewrite !length_app. lia.
Qed.

(** ** Saving and loading *)

Lemma find_part_names name ps : forall qs, map p_name ps = map p_name qs ->
  nvram_find_part ps name = nvram_find_part qs name.
Proof.
  induction ps as [|p ps IH]; intros [|q qs] E; try done. cbn in *. injection E as -> E. by rewrite (IH qs E).
Qed.

Lemma with_common_find ps ps' i : with_common ps = Done (ps', i) ->
  nvram_find_part ps' (lit "common") = Done (Some i).
Proof.
  unfold with_common. destruct (nvram_find_part ps (lit "common")) as [[j|]| | |] eqn:E; [..|done|done|done]; cbn.
  - by intros [= <- <-].
  - intros [= <- <-]. cbn [nvram_find_part]. change (strcmp_eq _ _) with (Done true). done.
Qed.

(** The partition with new contents. *)
Definition with_data (p : NvramPartition) (data : bytes) : NvramPartition := mkPart (p_sig p) data (p_name p).

Lemma zlen_parts_image p ps : zlen (parts_image (p :: ps)) = zlen (part_image p) + zlen (parts_image ps).
Proof. unfold parts_image. cbn [map concat]. apply zlen_app. Qed.

Lemma with_data_parts ps i p data : ps !! i = Some p -> length data = length (p_data p) -> Forall good_part ps ->
  let qs := <[i := with_data p data]> ps in
  map p_name qs = map p_name ps /\ Forall good_part qs /\ zlen (parts_image qs) = zlen (parts_image ps).
Proof.
  intros Hi Hd Hg. assert (good_part (with_data p data)) as Hw.
  { destruct (proj1 (Forall_lookup _ _) Hg _ _ Hi) as [H1 H2 H3]. split; [done| |done].
    unfold zlen. cbn. by rewrite Hd. }
  cbv zeta. revert i Hi. induction Hg as [|q ps Hq Hg IH]; intros [|i] Hi; [done..| |]; cbn in Hi.
  - injection Hi as ->. change (<[0%nat := with_data p data]> (p :: ps)) with (with_data p data :: ps).
    split_and!; [done|by constructor|]. rewrite !zlen_parts_image. f_equal. destruct (part_image_length _ Hw) as (-> & _), (part_image_length _ Hq) as (-> & _).
    unfold zlen. cbn. by rewrite Hd.
  - destruct (IH i Hi) as (H1 & H2 & H3). change (<[S i := with_data p data]> (q :: ps)) with (q :: <[i := with_data p data]> ps).
    cbn [map]. split_and!; [by rewrite H1|by constructor|]. rewrite !zlen_parts_image. by rewrite H3.
Qed.

Lemma blit_prefix {A} (d src : list A) : zlen src <= zlen d ->
  blit d 0 src = Done (src ++ drop (length src) d).
Proof.
  intros H. unfold blit. change (0 <=? 0) with true. rewrite (proj2 (Z.leb_le _ _)) by lia. done.
Qed.

Lemma zlen_bank_image adler32 X : zlen (bank_image adler32 X) = 32 + zlen X.
Proof.
  unfold bank_image. rewrite !zlen_app. change (zlen bank_hdr) with 16. change (zlen (replicate 12 0)) with 12.
  rewrite (eq_refl : zlen (le_split 4 _) = 4). lia.
Qed.

(** The environment and the partitions on the device after a save. *)
Definition saved_parts (ps : list NvramPartition) (i : nat) (p : NvramPartition) (e : env) : list NvramPartition :=
  <[i := with_data p (env_image e ++ replicate (length (p_data p) - length (env_image e)) 0)]> ps.

Lemma serialize_ok adler32 ps ps' i p e len : with_common ps = Done (ps', i) -> ps' !! i = Some p ->
  Forall good_var e -> (length (env_image e) < length (p_data p))%nat ->
  Forall good_part ps' -> 0x20 + zlen (parts_image ps') <= len ->
  exists tail, free_tail tail /\ len = 32 + zlen (parts_image (saved_parts ps' i p e) ++ tail) /\
    apple_nvram_serialize adler32 (mkNvram (Some (mkBank ps len)) e len) len =
    Done (mkNvram (Some (mkBank (saved_parts ps' i p e) len)) e len,
          Some (bank_image adler32 (parts_image (saved_parts ps' i p e) ++ tail))).
Proof.
  intros Hc Hi He Hlt Hg Hlen. unfold apple_nvram_serialize. cbn [bank parts vars]. rewrite Hc. run. rewrite Hi.
  unfold env_serialize. rewrite (proj2 (Z.eqb_neq _ _)) by (unfold zlen; lia). 
  replace (Z.to_nat (zlen (p_data p))) with (length (p_data p)) by (unfold zlen; lia).
  pose proof (serialize_vars_ok e [] (length (p_data p)) He Hlt) as Hs. rewrite !app_nil_l in Hs.
  change (zlen []) with 0 in Hs. rewrite Hs. clear Hs. run. fold (with_data p (env_image e ++ replicate (length (p_data p) - length (env_image e)) 0)).
  fold (saved_parts ps' i p e).
  destruct (with_data_parts ps' i p (env_image e ++ replicate (length (p_data p) - length (env_image e)) 0) Hi) as (_ & Hg' & Hz).
  { rewrite length_app, length_replicate. lia. } { done. }
  fold (saved_parts ps' i p e) in *.
  destruct (prepare_bank_ok adler32 (saved_parts ps' i p e) len) as (tail & Ht & Hl & Hp); [done|lia|].
  exists tail. split_and!; [done..|]. cbn [setf parts bank_len]. 
  match goal with |- context [nvram_prepare_bank adler32 ?b] => change b with (mkBank (saved_parts ps' i p e) len) end.
  rewrite Hp. run. cbn [option_map]. rewrite take_ge; [done|].
  pose proof (zlen_bank_image adler32 (parts_image (saved_parts ps' i p e) ++ tail)). unfold zlen in *. lia.
Qed.

Lemma env_image_count e : (length e <= length (env_image e))%nat.
Proof.
  induction e as [|v e IH]; [done|]. unfold env_image in *. cbn [map concat length].
  unfold var_text at 1. rewrite !length_app. change (length (lit "=")) with 1%nat. lia.
Qed.

Lemma load_ok adler32 s0 disk X tail ps i p e : (forall l, in_width 32 (adler32 l)) ->
  nvram_find_part ps (lit "common") = Done (Some i) -> ps !! i = Some p -> Forall good_part ps -> free_tail tail ->
  X = parts_image ps ++ tail -> 32 + zlen X = Z.min (32 + zlen X + zlen disk) 0x2000 ->
  Forall good_var e -> NoDup (map v_name e) ->
  (exists rest, p_data p = env_image e ++ 0 :: rest) ->
  apple_nvram_load adler32 s0 (bank_image adler32 X ++ disk) true =
  Done (mkNvram (Some (mkBank ps (32 + zlen X))) (map saved_var e) (32 + zlen X)).
Proof.
  intros Had Hf Hi Hg Ht -> Hlen He Hnd [rest Hd]. set (X := parts_image ps ++ tail) in *. unfold apple_nvram_load. cbn [negb].
  pose proof (zlen_bank_image adler32 X) as Hz.
  assert ((if 0x2000 <? zlen (bank_image adler32 X ++ disk) then 0x2000 else zlen (bank_image adler32 X ++ disk)) = 32 + zlen X) as ->.
  { rewrite zlen_app, Hz. case_match; lia. }
  rewrite (slice_part [] (bank_image adler32 X) disk 0 (length (bank_image adler32 X))); [|done|unfold zlen in *; lia|lia].
  run. rewrite drop_0, take_ge by done. rewrite (parse_bank_ok adler32 ps tail (32 + zlen X) Had Hg Ht eq_refl : nvram_parse adler32 (bank_image adler32 X) _ = _). run. cbn [parts].
  unfold with_common. rewrite Hf. run. unfold apple_nvram_load_env. cbn [bank setf parts vars bank_len]. 
  unfold apple_nvram_cleanup. cbn [bank setf parts vars bank_len nv_len]. rewrite Hf. run. rewrite Hi.
  rewrite Hd, load_env_image; [|done|done|]. 
  - run. rewrite wrap_small by (unfold in_width, zlen in *; lia). done.
  - rewrite length_app. pose proof (env_image_count e). lia.
Qed.

(** C29: a save followed by a load: when the variables have distinct names that
    hold no equals sign and at most 63 bytes, and they fit in the partition
    "common" (found or created), the device then holds the environment and
    every partition, and a load finds the same variables, with their numeric
    values and without their flags, and the same partitions, whatever the
    device held before. *)
Theorem nvram_save_load adler32 s0 ps ps' i p e len disk :
  (forall l, in_width 32 (adler32 l)) ->
  with_common ps = Done (ps', i) -> ps' !! i = Some p ->
  Forall good_part ps' -> 0x20 + zlen (parts_image ps') <= len ->
  Forall good_var e -> NoDup (map v_name e) -> (length (env_image e) < length (p_data p))%nat ->
  len = Z.min (zlen disk) 0x2000 ->
  let bank' := Some (mkBank (saved_parts ps' i p e) len) in
  exists disk',
    apple_nvram_save adler32 (mkNvram (Some (mkBank ps len)) e len) disk true = Done (mkNvram bank' e len, disk') /\
    zlen disk' = zlen disk /\
    apple_nvram_load adler32 s0 disk' true = Done (mkNvram bank' (map saved_var e) len).
Proof.
  intros Had Hc Hi Hg Hlen He Hnd Hlt Hd. cbv zeta.
  destruct (serialize_ok adler32 ps ps' i p e len) as (tail & Ht & Hl & Hs); [done..|].
  set (qs := saved_parts ps' i p e) in *. set (X := parts_image qs ++ tail) in *.
  pose proof (zlen_bank_image adler32 X) as Hz. unfold apple_nvram_save. cbn [nv_len]. rewrite Hs. run.
  rewrite (proj2 (Z.leb_le _ _)) by lia. cbn [andb]. rewrite blit_prefix by lia. run.
  eexists. split; [done|]. split; [rewrite zlen_app; unfold zlen in *; rewrite length_drop; lia|].
  destruct (with_data_parts ps' i p (env_image e ++ replicate (length (p_data p) - length (env_image e)) 0) Hi) as (Hn & Hg' & _).
  { rewrite length_app, length_replicate. lia. } { done. }
  pose proof (find_part_names (lit "common") _ _ Hn) as Hf. rewrite (with_common_find _ _ _ Hc) in Hf.
  rewrite Hl. eapply (load_ok adler32 s0 _ X tail qs i); [done|exact Hf| |done|done|done| |done|done|].
  - unfold qs, saved_parts. apply list_lookup_insert_eq. by eapply lookup_lt_Some.
  - unfold zlen in *. rewrite length_drop. lia.
  - cbn [with_data p_data]. replace (length (p_data p) - length (env_image e))%nat with (S (length (p_data p) - length (env_image e) - 1)) by lia.
    eexists. done.
Qed.

(** An Adler-32 function for the examples. *)
Definition example_adler32 (l : bytes) : Z :=
  let '(a, b) := fold_left (fun '(a, b) x => let a := (a + x) mod 65521 in (a, (b + a) mod 65521)) l (1, 0) in
  u32 (b * 65536 + a).

Definition example_var (name val : string) : env_var := mkVar (lit name) (lit val) (strtoul (lit val)) 0.

Definition example_vars : env :=
  [example_var "auto-boot" "true"; example_var "boot-delay" "0x10"].

Lemma example_vars_good : Forall good_var example_vars.
Proof.
  constructor; [|constructor; [|constructor]];
    (split; [split_and!; [repeat constructor|by apply (bool_decide_unpack _); vm_compute|cbn; lia]|repeat constructor|done]).
Qed.

Lemma new_common_good : good_part new_common.
Proof.
  split; [done|exists 127; split; [vm_compute; done|lia]|]. exists (lit "common").
  split_and!; [vm_compute; done|repeat constructor|cbn; lia|done].
Qed.

Lemma nvram_save_load_witness : exists disk',
  apple_nvram_save example_adler32
    (mkNvram (Some (mkBank [] 0x2000)) example_vars 0x2000)
    (replicate 0x2000 0) true =
  Done (mkNvram (Some (mkBank (saved_parts [new_common] 0 new_common
          example_vars) 0x2000))
          example_vars 0x2000, disk') /\
  zlen disk' = zlen (replicate 0x2000 0) /\
  apple_nvram_load example_adler32 (mkNvram None [] 0) disk' true =
  Done (mkNvram (Some (mkBank (saved_parts [new_common] 0 new_common
          example_vars) 0x2000))
          (map saved_var example_vars) 0x2000).
Proof.
  destruct (nvram_save_load example_adler32 (mkNvram None [] 0) [] [new_common] 0 new_common
    example_vars 0x2000 (replicate 0x2000 0))
    as (disk' & H1 & H2 & H3).
  - intros l. unfold example_adler32. destruct (fold_left _ _ _). by apply wrap_range.
  - done.
  - done.
  - constructor; [apply new_common_good|constructor].
  - vm_compute. done.
  - apply example_vars_good.
  - by apply (bool_decide_unpack _); vm_compute.
  - apply Nat.ltb_lt. vm_compute. done.
  - vm_compute. done.
  - exact (ex_intro _ disk' (conj H1 (conj H2 H3))).
Defined.

(** ** The environment as a map *)

Lemma env_remove_names e name : env_remove e name = e \/
  exists e1 v e2, e = e1 ++ v :: e2 /\ v_name v = name /\ env_remove e name = e1 ++ e2 /\ name ∉ map v_name e1.
Proof.
  induction e as [|v e IH]; [by left|]. cbn. destruct (decide (v_name v = name)) as [<-|Hn].
  - right. exists [], v, e. split_and!; [done..|]. apply not_elem_of_nil.
  - destruct IH as [->|(e1 & w & e2 & -> & H & -> & H')]; [by left|]. right. exists (v :: e1), w, e2.
    split_and!; [done..|]. cbn. apply not_elem_of_cons. done.
Qed.

Lemma env_find_app e1 e2 name : env_find (e1 ++ e2) name =
  match env_find e1 name with Some v => Some v | None => env_find e2 name end.
Proof. induction e1 as [|v e1 IH]; cbn; [done|]. case_decide; done. Qed.

Lemma env_find_name e name v : env_find e name = Some v -> v_name v = name /\ v ∈ e.
Proof.
  induction e as [|w e IH]; cbn; [done|]. case_decide; [intros [= <-]; split; [done|left]|].
  intros [? ?]%IH. split; [done|by right].
Qed.

Lemma env_find_None_inv e name : env_find e name = None -> name ∉ map v_name e.
Proof.
  induction e as [|v e IH]; cbn; [intros _; apply not_elem_of_nil|]. case_decide; [done|]. intros H'.
  apply not_elem_of_cons. split; [done|]. by apply IH.
Qed.

(** The variables behind a removal. *)
Lemma env_remove_ok e name : NoDup (map v_name e) ->
  (name ∉ map v_name (env_remove e name)) /\ NoDup (map v_name (env_remove e name)) /\
  forall m, m <> name -> env_find (env_remove e name) m = env_find e m.
Proof.
  induction e as [|v e IH]; cbn; intros Hnd.
  { split_and!; [apply not_elem_of_nil|constructor|done]. }
  apply NoDup_cons in Hnd as [Hv Hnd]. destruct (IH Hnd) as (H1 & H2 & H3). case_decide as Hd.
  - subst. split_and!; [done|done|]. intros m Hm. by rewrite decide_False by done.
  - cbn. split_and!.
    + apply not_elem_of_cons. done.
    + apply NoDup_cons. split; [|done]. intros Hin. apply Hv.
      destruct (env_remove_names e name) as [E|(e1 & w & e2 & -> & _ & E & _)]; rewrite E in Hin; [done|].
      rewrite map_app in *. apply elem_of_app in Hin as [?|?]; apply elem_of_app; [by left|right; by right].
    + intros m Hm. case_decide; [done|]. by apply H3.
Qed.

Lemma env_set_names e name val flags : NoDup (map v_name e) -> (length name <= 63)%nat ->
  NoDup (map v_name (env_set e name val flags)) /\
  env_find (env_set e name val flags) name = Some (mkVar name val (strtoul val) flags) /\
  forall m, m <> name -> env_find (env_set e name val flags) m = env_find e m.
Proof.
  intros Hnd Hl. unfold env_set. rewrite take_ge by lia.
  set (e' := match env_find e name with Some _ => fst (env_unset e name) | None => e end).
  assert ((name ∉ map v_name e') /\ NoDup (map v_name e') /\ forall m, m <> name -> env_find e' m = env_find e m)
    as (H1 & H2 & H3).
  { unfold e', env_unset. destruct (env_find e name) eqn:E; cbn [fst]; [by apply env_remove_ok|].
    split_and!; [by apply env_find_None_inv|done..]. }
  split_and!.
  - rewrite map_app. apply NoDup_app. split_and!; [done| |apply NoDup_singleton].
    intros x Hx. cbn. rewrite list_elem_of_singleton. by intros ->.
  - rewrite env_find_app, env_find_None by done. cbn. by rewrite decide_True.
  - intros m Hm. rewrite env_find_app, H3 by done. destruct (env_find e m); [done|]. cbn. by rewrite decide_False.
Qed.

(** the environment is a map: with a name that fits the field, setting a
    variable keeps the names distinct, is what is read afterwards, both as a
    string and as a number, and changes no other variable; a number of 64 bits
    is read back from the text it is stored as. *)
Theorem env_set_spec e name val flags (x d : Z) :
  NoDup (map v_name e) -> (length name <= 63)%nat -> in_width 64 x ->
  let e1 := env_set e name val flags in
  let e2 := env_set_uint e name x flags in
  NoDup (map v_name e1) /\ env_get e1 name = Some val /\ env_get_uint e1 name d = strtoul val /\
  (forall m, m <> name -> env_find e1 m = env_find e m) /\
  NoDup (map v_name e2) /\ env_get_uint e2 name d = x /\ env_get_bool e2 name false = nonzero x.
Proof.
  intros Hnd Hl Hx. cbv zeta. unfold env_set_uint, env_get, env_get_uint, env_get_bool.
  destruct (env_set_names e name val flags Hnd Hl) as (H1 & -> & H3).
  destruct (env_set_names e name (print_hex x) flags Hnd Hl) as (H4 & -> & _).
  cbn [fmap option_fmap option_map v_str v_u]. rewrite strtoul_print_hex by done.
  split_and!; try done.
Qed.

Lemma env_set_spec_witness :
  env_get_uint (env_set_uint [example_var "auto-boot" "true"] (lit "boot-delay") 0x1234 0) (lit "boot-delay") 0 = 0x1234 /\
  env_get (env_set [example_var "auto-boot" "true"] (lit "auto-boot") (lit "false") 0) (lit "auto-boot") = Some (lit "false").
Proof.
  split.
  - destruct (env_set_spec [example_var "auto-boot" "true"] (lit "boot-delay") (lit "x") 0 0x1234 0)
      as (_ & _ & _ & _ & _ & H & _); [apply NoDup_singleton|cbn; lia|unfold in_width; lia|]. exact H.
  - destruct (env_set_spec [example_var "auto-boot" "true"] (lit "auto-boot") (lit "false") 0 0 0)
      as (_ & H & _); [apply NoDup_singleton|cbn; lia|unfold in_width; lia|]. exact H.
Defined.

(** A name of 64 bytes or more is cut when it is stored and looked up whole: it
    is not found, and setting it again adds a second variable. *)
Lemma env_long_name :
  let name := replicate 64 97 in
  let e := env_set (env_set [] name (lit "1") 0) name (lit "2") 0 in
  env_get e name = None /\ length e = 2%nat.
Proof. vm_compute. done. Qed.

(** Variables that fill the partition to its last byte are not stored. *)
Lemma env_serialize_full :
  env_serialize [example_var "a" "b"] 4 = Done None /\
  env_serialize [example_var "a" "b"] 5 = Done (Some ([97; 61; 98; 0; 0], 4)).
Proof. done. Qed.

(** ** Loading whatever the device holds *)

Lemma slice_total {A} (l : list A) off n : 0 <= off -> 0 <= n -> off + n <= zlen l -> exists r, slice l off n = Done r.
Proof. intros. rewrite slice_in_range by done. eauto. Qed.

Lemma chrp_checksum_total buf off : 0 <= off -> off + 16 <= zlen buf -> exists c, chrp_checksum buf off = Done c.
Proof.
  intros H1 H2. unfold chrp_checksum. destruct (aget_in_range buf off) as [b ->]; [lia|]. run.
  destruct (slice_total buf (off + 2) 14) as [r ->]; [lia..|]. run. eauto.
Qed.

Definition part_ok (len : Z) (p : NvramPartition) : Prop := length (p_name p) = 16%nat /\ zlen (p_data p) <= len - 0x30.

(** The bytes from the name of the last header on hold a zero. *)
Definition name_ends (buf : bytes) : Prop := 0 ∈ drop (length buf - 12) buf.

Lemma name_read buf off : name_ends buf -> 0 <= off -> (16 | off) -> (16 | zlen buf) -> off + 16 <= zlen buf ->
  exists r, strncpy_from 16 (drop (Z.to_nat (off + 4)) buf) = Done r /\ length r = 16%nat.
Proof.
  intros Hz H0 [x ->] [y Hy] Hle. apply strncpy_from_total. rewrite length_drop. unfold zlen in *.
  destruct (decide (x = y - 1)) as [->|Hn]; [right|left; lia].
  unfold name_ends in Hz. replace (Z.to_nat _) with (length buf - 12)%nat by lia. done.
Qed.

Lemma parse_loop_total fuel : forall buf off ps, name_ends buf -> (16 | zlen buf) -> (16 | off) ->
  0x20 <= off <= zlen buf -> zlen buf - off < Z.of_nat fuel -> Forall (part_ok (zlen buf)) ps ->
  exists qs, parse_loop fuel buf (zlen buf) off ps = Done qs /\ Forall (part_ok (zlen buf)) qs.
Proof.
  induction fuel as [|fuel IH]; intros buf off ps Hz Hd Hd1 H0 Hf Hps; [lia|].
  cbn [parse_loop]. unfold HDR. destruct (Z.ltb_spec (zlen buf) (off + 16)); [by eauto|].
  destruct (aget_in_range buf (off + 1)) as [st ->]; [lia|]. run.
  destruct (chrp_checksum_total buf off) as [sum ->]; [lia..|]. run.
  destruct (st =? sum); cbn [negb]; [|by eauto].
  destruct (aget_in_range buf off) as [sig ->]; [lia|]. run.
  destruct (sig =? CHRP_NVPART_FREE); [by eauto|].
  unfold hdr_len_at. destruct (slice_total buf (off + 2) 2) as [r ->]; [lia..|]. run. set (n := le_combine r).
  destruct (Z.ltb_spec (zlen buf) (n * 16 + off)); cbn [orb]; [by eauto|].
  destruct (Z.ltb_spec n 1); [by eauto|].
  destruct (slice_total buf (off + 4) 12) as [field ->]; [lia..|]. run.
  assert (16 | off + n * 16) as Hd2 by (apply Z.divide_add_r; [done|by exists n]).
  case_decide; [apply IH; done || lia|].
  destruct (name_read buf off) as (name & -> & Hn); [done|lia|done|done|lia|]. run.
  destruct (slice_total buf (off + 16) (n * 16 - 16)) as [data Hs]; [lia..|]. rewrite Hs. run.
  apply IH; [done..|lia|lia|]. apply Forall_app. split; [done|]. constructor; [|constructor].
  split; [done|]. cbn [p_data]. rewrite (slice_length _ _ _ _ Hs). lia.
Qed.

Lemma nvram_parse_total adler32 buf : name_ends buf -> (16 | zlen buf) -> 0x20 <= zlen buf ->
  exists b, nvram_parse adler32 buf (zlen buf) = Done b /\ bank_len b = zlen buf /\ Forall (part_ok (zlen buf)) (parts b).
Proof.
  intros Hz Hd Hl. unfold nvram_parse. destruct (aget_in_range buf 1) as [st ->]; [lia|]. run.
  destruct (chrp_checksum_total buf 0) as [sum ->]; [lia..|]. run.
  assert (Forall (part_ok (zlen buf)) []) as Hnil by constructor.
  destruct (st =? sum); cbn [negb]; [|by eauto].
  destruct (slice_total buf 20 (zlen buf - 20)) as [c ->]; [lia..|]. run.
  destruct (slice_total buf 16 4) as [x ->]; [lia..|]. run.
  destruct (adler32 c =? le_combine x); cbn [negb]; [|by eauto].
  destruct (parse_loop_total (S (length buf)) buf 32 []) as (qs & E & Hq);
    [done|done|by exists 2|lia|unfold zlen; lia|done|].
  unfold nvram_parse_partitions. rewrite E. run. eauto.
Qed.

Lemma find_part_total name ps : (length name < 16)%nat -> Forall (fun p => length (p_name p) = 16%nat) ps ->
  exists r, nvram_find_part ps name = Done r /\ forall i, r = Some i -> is_Some (ps !! i).
Proof.
  intros Hn. induction 1 as [|p ps Hp _ IH]; [by exists None|]. cbn [nvram_find_part].
  destruct (strcmp_eq_total (p_name p) name) as [[] ->]; [lia|..]; run.
  - exists (Some 0%nat). split; [done|]. intros i [= <-]. by exists p.
  - destruct IH as (r & -> & Hr). run. exists (S <$> r). split; [done|]. destruct r as [j|]; cbn; [|done].
    intros i [= <-]. by apply Hr.
Qed.

Lemma load_env_total fuel : forall data e, (length data < fuel)%nat ->
  Forall (fun v => (length (v_name v) <= 63)%nat) e ->
  exists e', load_env_loop fuel data e = Done e' /\ Forall (fun v => (length (v_name v) <= 63)%nat) e'.
Proof.
  induction fuel as [|fuel IH]; intros data e Hf He; [lia|]. cbn [load_env_loop].
  destruct data as [|b data0]; [by eauto|]. destruct (b =? 0); [by eauto|].
  destruct (split_at 61 (b :: data0)) as [[name d1]|] eqn:E1; [|by eauto].
  destruct (split_at 0 d1) as [[val d2]|] eqn:E2; [|by eauto].
  apply split_at_length in E1, E2. apply IH; [lia|]. unfold env_set. apply Forall_app. split.
  - case_match; [|done]. unfold env_unset. case_match; cbn [fst]; [|done].
    destruct (env_remove_names e (before_nul name)) as [->|(x1 & v & x2 & -> & _ & -> & _)]; [done|].
    rewrite Forall_app, Forall_cons in He. apply Forall_app. naive_solver.
  - constructor; [|constructor]. cbn [v_name]. rewrite length_take. lia.
Qed.

Lemma with_common_total ps : Forall (fun p => length (p_name p) = 16%nat) ps ->
  exists ps' i p, with_common ps = Done (ps', i) /\ nvram_find_part ps' (lit "common") = Done (Some i) /\
    ps' !! i = Some p /\ Forall (fun p => length (p_name p) = 16%nat) ps'.
Proof.
  intros Hps. destruct (find_part_total (lit "common") ps) as (r & E & Hr); [cbn; lia|done|].
  unfold with_common. rewrite E. run. destruct r as [i|].
  - destruct (Hr i eq_refl) as [p Hp]. by exists ps, i, p.
  - exists (new_common :: ps), 0%nat, new_common. split_and!; [done|done|done|by constructor].
Qed.

(** a load never leaves the buffers whatever the device holds, provided the
    device holds at least a bank header, has a whole number of 16-byte units
    and the last 12 bytes that are read hold a zero; the state afterwards has
    the partition "common", partitions inside the bank and names that fit
    their fields. *)
Theorem nvram_load_total adler32 s disk : 0x20 <= zlen disk -> (16 | zlen disk) -> name_ends (take (Z.to_nat 0x2000) disk) ->
  exists s' b i, apple_nvram_load adler32 s disk true = Done s' /\
    nv_len s' = Z.min (zlen disk) 0x2000 /\ bank s' = Some b /\ bank_len b = nv_len s' /\
    nvram_find_part (parts b) (lit "common") = Done (Some i) /\ is_Some (parts b !! i) /\
    Forall (fun p => length (p_name p) = 16%nat) (parts b) /\
    Forall (fun v => (length (v_name v) <= 63)%nat) (vars s').
Proof.
  intros H0 Hd Hz. unfold apple_nvram_load. cbn [negb].
  set (len := if 8192 <? zlen disk then 8192 else zlen disk).
  assert (len = Z.min (zlen disk) 8192) as Hlen by (unfold len; case_match; lia).
  destruct (slice_total disk 0 len) as [buf Hs]; [lia..|]. rewrite Hs. run.
  pose proof (slice_length _ _ _ _ Hs) as Hb.
  assert (buf = take (Z.to_nat 8192) disk) as Eb.
  { rewrite slice_in_range in Hs by lia. injection Hs as <-. change (drop (Z.to_nat 0) disk) with disk.
    destruct (Z.le_gt_cases (zlen disk) 8192); [rewrite !take_ge by (unfold zlen in *; lia); done|].
    f_equal. lia. }
  assert (16 | len) as Hd' by (unfold len; case_match; [by exists 512|done]).
  rewrite <- Hb in Hd' |- *. destruct (nvram_parse_total adler32 buf) as (b & -> & Hbl & Hps);
    [by rewrite Eb|done|lia|]. run.
  assert (Forall (fun p => length (p_name p) = 16%nat) (parts b)) as Hn
    by (eapply Forall_impl; [exact Hps|]; by intros ? [? _]).
  destruct (with_common_total (parts b) Hn) as (ps & i & p & Hc & Hf & Hi & Hn'). rewrite Hc. run.
  unfold apple_nvram_load_env, apple_nvram_cleanup. cbn [bank parts vars setf]. rewrite Hf. run. rewrite Hi.
  destruct (load_env_total (S (length (p_data p))) (p_data p) []) as (e & -> & He); [lia|constructor|]. run.
  eexists _, _, i. split; [done|]. cbn [bank parts vars nv_len setf bank_len].
  rewrite wrap_small by (unfold in_width; lia). split_and!; [lia|done|..|done|by exists p|done|done].
  cbn [bank_len setf]. lia.
Qed.

Lemma nvram_load_total_witness : exists s',
  apple_nvram_load example_adler32 (mkNvram None [] 0) (replicate 0x100 0) true = Done s' /\ nv_len s' = 0x100.
Proof.
  destruct (nvram_load_total example_adler32 (mkNvram None [] 0) (replicate 0x100 0)) as (s' & _ & _ & H1 & H2 & _).
  - vm_compute. done.
  - exists 16. done.
  - by apply (bool_decide_unpack _); vm_compute.
  - exists s'. split; [exact H1|exact H2].
Defined.

(** A partition of one unit at the end of the bank whose name fills its field:
    the name is read past the buffer. *)
Lemma nvram_name_overread :
  let hdr := hdr_image 0x70 1 (replicate 12 97) in
  nvram_parse_partitions (replicate 0x20 0 ++ hdr) 0x30 = Oob.
Proof. done. Qed.

(** With a partition behind it, the name goes on with the first bytes of data. *)
Lemma nvram_name_runs_on :
  let hdr := hdr_image 0x70 2 (replicate 12 97) in
  nvram_parse_partitions (replicate 0x20 0 ++ hdr ++ replicate 16 98) 0x40 =
  Done [mkPart 0x70 (replicate 16 98) (replicate 12 97 ++ replicate 4 98)].
Proof. done. Qed.

(** A read error at start-up is only reported; the next save goes through the
    null bank. *)
Lemma nvram_failed_load_save adler32 disk : forall s,
  apple_nvram_load adler32 (mkNvram None [] 0) disk false = Done s ->
  apple_nvram_save adler32 s disk true = Oob.
Proof. intros s. cbn. by intros [= <-]. Qed.
