(* ===== verification/I2c.v ===== *)
(** * The I2C bus and its controller

    Models of [hw/i2c/core.c], the bus that finds the addressed devices and
    hands them events and bytes, and of [hw/i2c/apple_i2c.c], the controller a
    guest drives through its registers. *)

From S2P Require Import Prelude Fifo8.

(** ** Devices on the bus *)

Inductive i2c_event := I2C_START_RECV | I2C_START_SEND | I2C_START_SEND_ASYNC | I2C_FINISH | I2C_NACK.

#[global] Instance i2c_event_eq_dec : EqDecision i2c_event.
Proof. solve_decision. Defined.

(** The callbacks of a device with state [S]; one that is not set is null. *)
Class I2CSlaveClass (S : Type) := {
  sc_send : option (S -> Z -> outcome (Z * S));
  sc_recv : option (S -> outcome (Z * S));
  sc_event : option (S -> i2c_event -> outcome (Z * S));
}.

Record I2CSlave := mkSlave {
  sl_state_type : Type;
  sl_class : I2CSlaveClass sl_state_type;
  address : Z;
  sl_state : sl_state_type;
}.

(** The callbacks of a device, called through its class. *)
Definition slave_event (s : I2CSlave) (ev : i2c_event) : outcome (Z * I2CSlave) :=
  match s with
  | mkSlave T c a st =>
      match @sc_event T c with
      | Some f => r ← f st ev; mret (fst r, mkSlave T c a (snd r))
      | None => mret (0, s)
      end
  end.

Definition slave_send (s : I2CSlave) (data : Z) : outcome (Z * I2CSlave) :=
  match s with
  | mkSlave T c a st =>
      match @sc_send T c with
      | Some f => r ← f st data; mret (fst r, mkSlave T c a (snd r))
      | None => mret (-1, s)
      end
  end.

Definition slave_recv (s : I2CSlave) : outcome (Z * I2CSlave) :=
  match s with
  | mkSlave T c a st =>
      match @sc_recv T c with
      | Some f => r ← f st; mret (fst r, mkSlave T c a (snd r))
      | None => mret (0xff, s)
      end
  end.

Definition has_send (s : I2CSlave) : bool := match s with mkSlave T c _ _ => bool_decide (is_Some (@sc_send T c)) end.

(** ** The bus *)

Definition I2C_BROADCAST : Z := 0x00.

(** The devices of the current transfer are named by their index on the bus. *)
Record I2CBus := mkBus {
  children : list I2CSlave;
  current_devs : list nat;
  broadcast : bool;
}.
#[global] Instance eta_I2CBus : Eta I2CBus := fun b => mkBus (children b) (current_devs b) (broadcast b).

Definition child (bus : I2CBus) (i : nat) : outcome I2CSlave :=
  match children bus !! i with Some s => Done s | None => Oob end.

Definition set_child (bus : I2CBus) (i : nat) (s : I2CSlave) : I2CBus :=
  bus <| children ::= <[i := s]> |>.

Definition i2c_slave_match (candidate : I2CSlave) (addr : Z) (bcast : bool) : bool :=
  (address candidate =? addr) || bcast.

(** [current_devs] after the scan of the devices from index [i] on. *)
Fixpoint i2c_scan_bus (kids : list I2CSlave) (i : nat) (addr : Z) (bcast : bool) (cur : list nat) : list nat :=
  match kids with
  | [] => cur
  | k :: kids' =>
      if i2c_slave_match k addr bcast then
        if negb bcast then i :: cur else i2c_scan_bus kids' (S i) addr bcast (i :: cur)
      else i2c_scan_bus kids' (S i) addr bcast cur
  end.

Fixpoint finish_devs (bus : I2CBus) (devs : list nat) : outcome I2CBus :=
  match devs with
  | [] => mret bus
  | i :: devs' =>
      s ← child bus i;
      r ← slave_event s I2C_FINISH;
      finish_devs (set_child bus i (snd r)) devs'
  end.

Definition i2c_end_transfer (bus : I2CBus) : outcome I2CBus :=
  bus ← finish_devs bus (current_devs bus);
  mret (bus <| current_devs := [] |> <| broadcast := false |>).

Fixpoint start_devs (bus : I2CBus) (devs : list nat) (scanned : bool) (ev : i2c_event) : outcome (Z * I2CBus) :=
  match devs with
  | [] => mret (0, bus)
  | i :: devs' =>
      s ← child bus i;
      r ← slave_event s ev;
      let bus := set_child bus i (snd r) in
      if nonzero (fst r) && negb (broadcast bus) then
        bus ← (if scanned : bool then i2c_end_transfer bus else mret bus);
        mret (fst r, bus)
      else start_devs bus devs' scanned ev
  end.

Definition i2c_do_start_transfer (bus : I2CBus) (addr : Z) (ev : i2c_event) : outcome (Z * I2CBus) :=
  let bus := if addr =? I2C_BROADCAST then bus <| broadcast := true |> else bus in
  let scanned := match current_devs bus with [] => true | _ => false end in
  let bus := if scanned then
               bus <| current_devs := i2c_scan_bus (children bus) 0 addr (broadcast bus) [] |>
             else bus in
  match current_devs bus with
  | [] => mret (1, bus)
  | devs => start_devs bus devs scanned ev
  end.

Definition i2c_start_transfer (bus : I2CBus) (addr : Z) (is_recv : bool) : outcome (Z * I2CBus) :=
  i2c_do_start_transfer bus addr (if is_recv then I2C_START_RECV else I2C_START_SEND).

(** [ret = ret || sc->send(s, data)]: behind a device that refuses, no device
    gets the byte. *)
Fixpoint send_devs (bus : I2CBus) (devs : list nat) (data : Z) (ret : bool) : outcome (bool * I2CBus) :=
  match devs with
  | [] => mret (ret, bus)
  | i :: devs' =>
      s ← child bus i;
      if has_send s then
        if ret then send_devs bus devs' data true
        else
          r ← slave_send s data;
          send_devs (set_child bus i (snd r)) devs' data (nonzero (fst r))
      else send_devs bus devs' data true
  end.

Definition i2c_send (bus : I2CBus) (data : Z) : outcome (Z * I2CBus) :=
  '(ret, bus) ← send_devs bus (current_devs bus) data false;
  mret (if (ret : bool) then -1 else 0, bus).

Definition i2c_recv (bus : I2CBus) : outcome (Z * I2CBus) :=
  match current_devs bus with
  | i :: _ =>
      if negb (broadcast bus) then
        s ← child bus i;
        r ← slave_recv s;
        mret (fst r, set_child bus i (snd r))
      else mret (0xff, bus)
  | [] => mret (0xff, bus)
  end.

(** ** The controller *)

Definition REG_MTXFIFO : Z := 0x00.
Definition REG_MRXFIFO : Z := 0x04.
Definition REG_MCNT : Z := 0x08.
Definition REG_SMSTA : Z := 0x14.
Definition REG_IMASK : Z := 0x18.
Definition REG_CTL : Z := 0x1C.
Definition REG_VERSION : Z := 0x28.
Definition REG_RDCOUNT : Z := 0x2C.

Definition kMTXFIFORead : Z := BIT 10.
Definition kMTXFIFOStop : Z := BIT 9.
Definition kMTXFIFOStart : Z := BIT 8.
Definition kMTXFIFOData (v : Z) : Z := (v .>> 0) .& 0xff.
Definition kMRXFIFOEmpty : Z := BIT 8.
Definition kMRXFIFOData (d : Z) : Z := (d .& 0xff) .<< 0.
Definition kMCNTRxCnt (v : Z) : Z := (v .& 0xff) .<< 8.
Definition kMCNTTxCnt (v : Z) : Z := (v .& 0xff) .<< 0.
Definition kSMSTAxip : Z := BIT 28.
Definition kSMSTAxen : Z := BIT 27.
Definition kSMSTAmtn : Z := BIT 21.
Definition kSMSTAmrf : Z := BIT 20.
Definition kSMSTAmrne : Z := BIT 19.
Definition kCTLMRR : Z := BIT 10.
Definition kRDCOUNT (v : Z) : Z := (v .>> 8) .& 0xff.

Definition APPLE_I2C_MMIO_SIZE : Z := 0x10000.

(** [reg] holds the 32-bit word at each aligned offset. *)
Record AppleI2CState := mkI2C {
  bus : I2CBus;
  irq : bool;
  sda : bool;
  scl : bool;
  reg : gmap Z Z;
  rx_fifo : Fifo8;
  last_irq : bool;
  nak : bool;
  xip : bool;
  is_recv : bool;
}.
#[global] Instance eta_AppleI2CState : Eta AppleI2CState := fun s =>
  mkI2C (bus s) (irq s) (sda s) (scl s) (reg s) (rx_fifo s) (last_irq s) (nak s) (xip s) (is_recv s).

Definition REG (s : AppleI2CState) (x : Z) : Z := default 0 (reg s !! x).
Definition REG_or (s : AppleI2CState) (x v : Z) : AppleI2CState := s <| reg ::= <[x := REG s x .| v]> |>.

Definition apple_i2c_update_irq (s : AppleI2CState) : AppleI2CState :=
  let level := nonzero (REG s REG_SMSTA .& REG s REG_IMASK) in
  if negb (eqb level (last_irq s)) then s <| irq := level |> <| last_irq := level |> else s.

(** [while (len--) fifo8_push(&s->rx_fifo, i2c_recv(s->bus));] *)
Fixpoint recv_bytes (s : AppleI2CState) (len : nat) : outcome AppleI2CState :=
  match len with
  | O => mret s
  | S len' =>
      r ← i2c_recv (bus s);
      f ← fifo8_push (rx_fifo s) (fst r);
      recv_bytes (s <| bus := snd r |> <| rx_fifo := f |>) len'
  end.

(** A start condition in the direction [recv]; the flag says that the write
    goes on, [false] is the [break] after an error. *)
Definition start_or_nak (s : AppleI2CState) (i2c_addr : Z) (recv : bool) : outcome (bool * AppleI2CState) :=
  let s := s <| is_recv := recv |> in
  r ← i2c_start_transfer (bus s) i2c_addr recv;
  let s := s <| bus := snd r |> in
  if nonzero (fst r) then mret (false, REG_or s REG_SMSTA kSMSTAmtn) else mret (true, s).

Definition mtx_start (s : AppleI2CState) (value : Z) : outcome (bool * AppleI2CState) :=
  '(ok, s) ← start_or_nak s (kMTXFIFOData value .>> 1) (nonzero (kMTXFIFOData value .& 1));
  if (ok : bool) then mret (true, REG_or (s <| xip := true |>) REG_SMSTA kSMSTAxip) else mret (false, s).

Definition mtx_read (s : AppleI2CState) (value : Z) : outcome (bool * AppleI2CState) :=
  '(ok, s) ← (if negb (is_recv s) then start_or_nak s (kMTXFIFOData value .>> 1) true else mret (true, s));
  if (ok : bool) then
    s ← recv_bytes s (Z.to_nat (kMTXFIFOData value));
    let s := if 0 <? kMTXFIFOData value then
               let s := REG_or s REG_SMSTA kSMSTAmrne in
               if kRDCOUNT (REG s REG_RDCOUNT) <=? kMTXFIFOData value then REG_or s REG_SMSTA kSMSTAmrf else s
             else s in
    mret (true, s)
  else mret (false, s).

Definition mtx_write (s : AppleI2CState) (value : Z) : outcome (bool * AppleI2CState) :=
  '(ok, s) ← (if is_recv s then start_or_nak s (kMTXFIFOData value .>> 1) false else mret (true, s));
  if (ok : bool) then
    r ← i2c_send (bus s) (kMTXFIFOData value);
    let s := s <| bus := snd r |> in
    mret (true, if nonzero (fst r) then REG_or s REG_SMSTA kSMSTAmtn else s)
  else mret (false, s).

Definition mtx_stop (s : AppleI2CState) (value : Z) : outcome AppleI2CState :=
  if nonzero (value .& kMTXFIFOStop) && xip s then
    b ← i2c_end_transfer (bus s);
    mret (REG_or (s <| bus := b |>) REG_SMSTA kSMSTAxen <| xip := false |>)
  else mret s.

Definition mtx_fifo (s : AppleI2CState) (value : Z) : outcome AppleI2CState :=
  '(ok, s) ← (if nonzero (value .& kMTXFIFOStart) then mtx_start s value
              else if xip s then
                if nonzero (value .& kMTXFIFORead) then mtx_read s value else mtx_write s value
              else mret (true, s));
  if (ok : bool) then mtx_stop s value else mret s.

Definition apple_i2c_reg_write (s : AppleI2CState) (addr data : Z) : outcome AppleI2CState :=
  let value := u32 data in
  orig ← mget APPLE_I2C_MMIO_SIZE (reg s) addr;
  '(s, value, iflg) ←
    (if addr =? REG_MTXFIFO then s ← mtx_fifo s value; mret (s, value, true)
     else if addr =? REG_SMSTA then mret (s, orig .&~ value, true)
     else if addr =? REG_IMASK then mret (s, value, true)
     else if addr =? REG_CTL then
       mret (if nonzero (value .& kCTLMRR) then s <| rx_fifo := fifo8_reset (rx_fifo s) |> else s, 0, false)
     else mret (s, value, false));
  r ← mset APPLE_I2C_MMIO_SIZE (reg s) addr value;
  let s := s <| reg := r |> in
  mret (if (iflg : bool) then apple_i2c_update_irq s else s).

Definition apple_i2c_reg_read (s : AppleI2CState) (addr : Z) : outcome (Z * AppleI2CState) :=
  value ← mget APPLE_I2C_MMIO_SIZE (reg s) addr;
  if addr =? REG_MRXFIFO then
    if fifo8_is_empty (rx_fifo s) then mret (kMRXFIFOEmpty, s)
    else
      r ← fifo8_pop (rx_fifo s);
      mret (kMRXFIFOData (fst r), s <| rx_fifo := snd r |>)
  else if addr =? REG_MCNT then
    mret ((value .&~ (kMCNTRxCnt 0xff .| kMCNTTxCnt 0xff)) .| kMCNTRxCnt (fifo8_num_used (rx_fifo s)), s)
  else if addr =? REG_VERSION then mret (2, s)
  else mret (value, s).

Definition apple_i2c_reset_enter (s : AppleI2CState) : AppleI2CState :=
  s <| reg := ∅ |> <| nak := false |> <| xip := false |> <| is_recv := false |>
    <| rx_fifo := fifo8_reset (rx_fifo s) |>.

Definition apple_i2c_reset_hold (s : AppleI2CState) : AppleI2CState :=
  s <| irq := false |> <| last_irq := false |>.

Definition apple_i2c_reset_exit (s : AppleI2CState) : AppleI2CState := s <| sda := true |> <| scl := true |>.

Definition apple_i2c_reset (s : AppleI2CState) : AppleI2CState :=
  apple_i2c_reset_exit (apple_i2c_reset_hold (apple_i2c_reset_enter s)).

Definition i2c_init_bus (kids : list I2CSlave) : I2CBus := mkBus kids [] false.

(** The controller with the devices the machine puts on its bus. *)
Definition apple_i2c_create (kids : list I2CSlave) : AppleI2CState :=
  mkI2C (i2c_init_bus kids) false false false ∅ (fifo8_create 0x100) false false false false.

(** ** What a device promises the bus

    Every callback completes and keeps the invariant of the device, and a byte
    received is a byte. *)
Class I2CSlaveLaws (T : Type) `{I2CSlaveClass T} := {
  sl_inv : T -> Prop;
  event_law : forall f st ev, sc_event = Some f -> sl_inv st ->
    exists rv st', f st ev = Done (rv, st') /\ sl_inv st';
  send_law : forall f st b, sc_send = Some f -> sl_inv st -> in_width 8 b ->
    exists rv st', f st b = Done (rv, st') /\ sl_inv st';
  recv_law : forall f st, sc_recv = Some f -> sl_inv st ->
    exists b st', f st = Done (b, st') /\ in_width 8 b /\ sl_inv st';
}.

Definition slave_ok (s : I2CSlave) : Prop :=
  exists L : @I2CSlaveLaws (sl_state_type s) (sl_class s), @sl_inv _ _ L (sl_state s).

Record same_slave (s s' : I2CSlave) : Prop := {
  ss_ok : slave_ok s';
  ss_address : address s' = address s;
}.

Lemma slave_event_ok s ev : slave_ok s -> exists rv s', slave_event s ev = Done (rv, s') /\ same_slave s s'.
Proof.
  destruct s as [T c a st]. intros [L Hi]. cbn in *. destruct (@sc_event T c) as [f|] eqn:E.
  - destruct (event_law f st ev E Hi) as (rv & st' & -> & H). run. eexists _, _. split; [done|].
    split; [by exists L|done].
  - eexists _, _. split; [done|]. split; [by exists L|done].
Qed.

Lemma slave_send_ok s b : slave_ok s -> in_width 8 b -> exists rv s', slave_send s b = Done (rv, s') /\ same_slave s s'.
Proof.
  destruct s as [T c a st]. intros [L Hi] Hb. cbn in *. destruct (@sc_send T c) as [f|] eqn:E.
  - destruct (send_law f st b E Hi Hb) as (rv & st' & -> & H). run. eexists _, _. split; [done|].
    split; [by exists L|done].
  - eexists _, _. split; [done|]. split; [by exists L|done].
Qed.

Lemma slave_recv_ok s : slave_ok s -> exists b s', slave_recv s = Done (b, s') /\ in_width 8 b /\ same_slave s s'.
Proof.
  destruct s as [T c a st]. intros [L Hi]. cbn in *. destruct (@sc_recv T c) as [f|] eqn:E.
  - destruct (recv_law f st E Hi) as (b & st' & -> & Hb & H). run. eexists _, _. split; [done|]. split; [done|].
    split; [by exists L|done].
  - eexists _, _. split; [done|]. split; [done|]. split; [by exists L|done].
Qed.

(** ** What the bus promises the controller *)

Record bus_ok (b : I2CBus) : Prop := {
  bo_children : Forall slave_ok (children b);
  bo_current : Forall (fun i => (i < length (children b))%nat) (current_devs b);
}.

(** An operation that changes devices and not the transfer. *)
Record same_bus (b b' : I2CBus) : Prop := {
  sb_ok : bus_ok b';
  sb_addresses : map address (children b') = map address (children b);
  sb_current : current_devs b' = current_devs b;
  sb_broadcast : broadcast b' = broadcast b;
}.

Lemma same_bus_refl b : bus_ok b -> same_bus b b.
Proof. by split. Qed.

Lemma same_bus_trans b1 b2 b3 : same_bus b1 b2 -> same_bus b2 b3 -> same_bus b1 b3.
Proof. intros [? ? ? ?] [? ? ? ?]. split; [done|congruence..]. Qed.

Lemma child_ok b i : bus_ok b -> (i < length (children b))%nat -> exists s, child b i = Done s /\
  children b !! i = Some s /\ slave_ok s.
Proof.
  intros [Hc _] Hi. destruct (lookup_lt_is_Some_2 _ _ Hi) as [s Hs]. exists s. unfold child. rewrite Hs.
  split_and!; [done..|]. by apply (proj1 (Forall_lookup _ _) Hc i).
Qed.

Lemma set_child_ok b i s s' : bus_ok b -> children b !! i = Some s -> same_slave s s' -> same_bus b (set_child b i s').
Proof.
  intros [Hc Hd] Hi [Ho Ha]. split; [split|..]; cbn [set_child children current_devs broadcast setf].
  - by apply Forall_insert.
  - by rewrite length_insert.
  - change (map address) with (fmap (M := list) address). rewrite list_fmap_insert, Ha. apply list_insert_id. by rewrite list_lookup_fmap, Hi.
  - done.
  - done.
Qed.

Definition in_bus (b : I2CBus) (devs : list nat) : Prop := Forall (fun i => (i < length (children b))%nat) devs.

Lemma same_bus_in b b' devs : same_bus b b' -> in_bus b devs -> in_bus b' devs.
Proof.
  intros [_ H _ _] Hd. apply (f_equal length) in H. rewrite !length_map in H. unfold in_bus. by rewrite H.
Qed.

Lemma finish_devs_ok devs : forall b, bus_ok b -> in_bus b devs -> exists b', finish_devs b devs = Done b' /\ same_bus b b'.
Proof.
  induction devs as [|i devs IH]; intros b Hb Hd; [by exists b|]. apply Forall_cons in Hd as [Hi Hd]. cbn [finish_devs].
  destruct (child_ok b i Hb Hi) as (s & -> & Hl & Hs). run.
  destruct (slave_event_ok s I2C_FINISH Hs) as (rv & s' & -> & Hs'). run. cbn [snd].
  pose proof (set_child_ok b i s s' Hb Hl Hs') as H1.
  destruct (IH (set_child b i s')) as (b' & E & H2); [apply H1|by eapply same_bus_in|].
  exists b'. split; [exact E|]. by eapply same_bus_trans.
Qed.

(** The end of a transfer: no device is addressed. *)
Record idle_bus (b b' : I2CBus) : Prop := {
  ib_ok : bus_ok b';
  ib_addresses : map address (children b') = map address (children b);
  ib_current : current_devs b' = [];
  ib_broadcast : broadcast b' = false;
}.

Lemma i2c_end_transfer_ok b : bus_ok b -> exists b', i2c_end_transfer b = Done b' /\ idle_bus b b'.
Proof.
  intros Hb. unfold i2c_end_transfer. destruct (finish_devs_ok (current_devs b) b Hb) as (b' & -> & [[H0 _] H1 H2 H3]); [apply Hb|].
  run. eexists. split; [done|]. split; [split; [done|constructor]|done..].
Qed.

Lemma start_devs_ok devs : forall b scanned ev, bus_ok b -> in_bus b devs ->
  exists rv b', start_devs b devs scanned ev = Done (rv, b') /\
    (same_bus b b' \/ scanned = true /\ nonzero rv = true /\ idle_bus b b').
Proof.
  induction devs as [|i devs IH]; intros b scanned ev Hb Hd; [exists 0, b; split; [done|left; by apply same_bus_refl]|].
  apply Forall_cons in Hd as [Hi Hd]. cbn [start_devs].
  destruct (child_ok b i Hb Hi) as (s & -> & Hl & Hs). run.
  destruct (slave_event_ok s ev Hs) as (rv & s' & -> & Hs'). run. cbn [fst snd].
  pose proof (set_child_ok b i s s' Hb Hl Hs') as H1. set (b1 := set_child b i s') in *.
  destruct (nonzero rv && negb (broadcast b1)) eqn:E.
  - apply andb_prop in E as [E _]. destruct scanned.
    + destruct (i2c_end_transfer_ok b1) as (b2 & -> & [? H2 ? ?]); [apply H1|]. run. eexists _, b2. split; [done|].
      right. split_and!; [done..|]. split; [done| |done|done]. rewrite H2. apply H1.
    + run. eexists _, b1. split; [done|by left].
  - destruct (IH b1 scanned ev) as (rv' & b' & E' & [H|(H & Hz & [? H2 ? ?])]);
      [apply H1|by eapply same_bus_in|exists rv', b'..]; (split; [exact E'|]).
    + left. by eapply same_bus_trans.
    + right. split_and!; [done..|]. split; [done| |done|done]. rewrite H2. apply H1.
Qed.

Lemma scan_in_bus kids : forall i addr bcast cur n, (i + length kids = n)%nat -> Forall (fun j => (j < n)%nat) cur ->
  Forall (fun j => (j < n)%nat) (i2c_scan_bus kids i addr bcast cur).
Proof.
  induction kids as [|k kids IH]; intros i addr bcast cur n Hn Hc; [done|]. cbn [length i2c_scan_bus] in *.
  repeat case_match; try (apply IH; [lia|]); try done; constructor; (lia || done).
Qed.

(** A start condition completes: it addresses devices, or it fails and leaves
    the transfer as it was, except that address 0 makes it a broadcast. *)
Lemma i2c_start_ok b addr recv : bus_ok b ->
  exists rv b', i2c_start_transfer b addr recv = Done (rv, b') /\ bus_ok b' /\
    map address (children b') = map address (children b) /\
    (nonzero rv = false -> current_devs b' <> []) /\
    (current_devs b <> [] -> current_devs b' = current_devs b).
Proof.
  intros Hb. unfold i2c_start_transfer, i2c_do_start_transfer. set (ev := if recv then _ else _). cbv zeta.
  set (b1 := if addr =? I2C_BROADCAST then _ else b).
  assert (bus_ok b1 /\ children b1 = children b /\ current_devs b1 = current_devs b) as (H1 & H2 & H3).
  { unfold b1. case_match; [|done]. destruct Hb. by repeat split. }
  set (scanned := match current_devs b1 with [] => true | _ => false end).
  set (b2 := if scanned then _ else b1).
  assert (bus_ok b2 /\ children b2 = children b /\ (current_devs b <> [] -> current_devs b2 = current_devs b /\ scanned = false))
    as (H4 & H5 & H6).
  { unfold b2, scanned. destruct (current_devs b1) eqn:E; [|by rewrite <- H3].
    split_and!; [|done|by rewrite <- H3]. destruct H1 as [Hc Hd]. split; [done|]. cbn. by apply scan_in_bus. }
  destruct (current_devs b2) as [|d ds] eqn:Ed.
  { exists 1, b2. split; [done|]. split_and!; [done|by rewrite H5|done|]. intros Hn. apply H6 in Hn as [Hn _]. congruence. }
  destruct (start_devs_ok (d :: ds) b2 scanned ev) as (rv & b' & -> & Hr); [done|rewrite <- Ed; apply bo_current, H4|].
  exists rv, b'. split; [done|]. destruct Hr as [[Ho Ha Hc Hbc]|(Hs & Hz & [Ho Ha Hc Hbc])].
  - split_and!; [done|by rewrite Ha, H5|by rewrite Hc, Ed|]. intros Hn. rewrite Hc, Ed. by apply H6.
  - split_and!; [done|by rewrite Ha, H5|by rewrite Hz|]. intros Hn. apply H6 in Hn as [_ Hn]. congruence.
Qed.

Lemma send_devs_ok devs : forall b data ret, bus_ok b -> in_bus b devs -> in_width 8 data ->
  exists ret' b', send_devs b devs data ret = Done (ret', b') /\ same_bus b b'.
Proof.
  induction devs as [|i devs IH]; intros b data ret Hb Hd Hw; [exists ret, b; split; [done|by apply same_bus_refl]|].
  apply Forall_cons in Hd as [Hi Hd]. cbn [send_devs].
  destruct (child_ok b i Hb Hi) as (s & -> & Hl & Hs). run. destruct (has_send s); [|by apply IH].
  destruct ret; [by apply IH|]. destruct (slave_send_ok s data Hs Hw) as (rv & s' & -> & Hs'). run. cbn [fst snd].
  pose proof (set_child_ok b i s s' Hb Hl Hs') as H1.
  destruct (IH (set_child b i s') data (nonzero rv)) as (rv' & b' & E & H2); [apply H1|by eapply same_bus_in|done|].
  exists rv', b'. split; [exact E|]. by eapply same_bus_trans.
Qed.

Lemma i2c_send_ok b data : bus_ok b -> in_width 8 data -> exists rv b', i2c_send b data = Done (rv, b') /\ same_bus b b'.
Proof.
  intros Hb Hw. unfold i2c_send. destruct (send_devs_ok (current_devs b) b data false) as (r & b' & -> & H); [done|apply Hb|done|].
  run. eauto.
Qed.

Lemma i2c_recv_ok b : bus_ok b -> exists x b', i2c_recv b = Done (x, b') /\ in_width 8 x /\ same_bus b b'.
Proof.
  intros Hb. unfold i2c_recv. destruct (current_devs b) as [|i ds] eqn:E.
  { eexists _, b. split; [done|]. split; [done|by apply same_bus_refl]. }
  destruct (broadcast b); cbn [negb].
  { eexists _, b. split; [done|]. split; [done|by apply same_bus_refl]. }
  pose proof (bo_current b Hb) as Hd. rewrite E in Hd. apply Forall_cons in Hd as [Hi _].
  destruct (child_ok b i Hb Hi) as (s & -> & Hl & Hs). run.
  destruct (slave_recv_ok s Hs) as (x & s' & -> & Hx & Hs'). run. eexists _, _. split; [done|]. split; [done|].
  by eapply set_child_ok.
Qed.

(** ** The controller's invariant *)

(** What holds in the middle of a register write. *)
Record core_ok (s : AppleI2CState) : Prop := {
  co_bus : bus_ok (bus s);
  co_fifo : fifo8_wf (rx_fifo s);
  co_capacity : capacity (rx_fifo s) = 0x100;
  co_bytes : Forall (in_width 8) (contents (rx_fifo s));
  co_xip : xip s = true -> current_devs (bus s) <> [];
}.

Definition irq_level (s : AppleI2CState) : bool := nonzero (REG s REG_SMSTA .& REG s REG_IMASK).

Record i2c_inv (s : AppleI2CState) : Prop := {
  iv_core : core_ok s;
  iv_line : irq s = last_irq s;
  iv_level : last_irq s = irq_level s;
}.

(** A step in the middle of a write: the interrupt line waits for its end. *)
Definition core_step (s s' : AppleI2CState) : Prop := core_ok s' /\ irq s' = irq s /\ last_irq s' = last_irq s.

Lemma REG_or_step s s' x v : core_step s s' -> core_step s (REG_or s' x v).
Proof. intros ([? ? ? ? ?] & ? & ?). split; [by split|done]. Qed.

Lemma data_width v : in_width 8 (kMTXFIFOData v).
Proof. unfold kMTXFIFOData. change 0xff with (Z.ones 8). rewrite Z.land_ones by done. by apply wrap_range. Qed.

Lemma start_or_nak_ok s0 s a recv : core_step s0 s -> exists ok s', start_or_nak s a recv = Done (ok, s') /\
  core_step s0 s' /\ (ok = true -> current_devs (bus s') <> []) /\
  rx_fifo s' = rx_fifo s /\ xip s' = xip s.
Proof.
  intros ([H1 H2 H3 H4 H5] & Hi & Hl). unfold start_or_nak. cbv zeta. cbn [bus setf].
  destruct (i2c_start_ok (bus s) a recv H1) as (rv & b & -> & Hb & _ & Hn & Hk). run. cbn [fst snd].
  destruct (nonzero rv) eqn:E; eexists _, _; (split; [done|]).
  - split_and!; [|done|done|done]. apply REG_or_step. split; [|done]. split; try done. cbn.
    intros Hx. rewrite Hk; by apply H5.
  - split_and!; [|by intros _; apply Hn|done|done]. split; [|done]. split; try done. cbn.
    intros Hx. rewrite Hk; by apply H5.
Qed.

Lemma recv_bytes_ok n : forall s0 s, core_step s0 s -> num (rx_fifo s) + Z.of_nat n <= 0x100 ->
  exists s', recv_bytes s n = Done s' /\ core_step s0 s'.
Proof.
  induction n as [|n IH]; intros s0 s Hs Hn; [by exists s|]. cbn [recv_bytes].
  pose proof Hs as ([H1 H2 H3 H4 H5] & Hi & Hl).
  destruct (i2c_recv_ok (bus s) H1) as (x & b & -> & Hx & [Hb _ Hc _]). run. cbn [fst snd].
  destruct (fifo8_push_ok (rx_fifo s) x) as (f & -> & Hw & Hcont & Hcap & Hnum); [done|lia|]. run.
  apply IH; [|cbn; lia]. split; [|done]. split; cbn; [done|done|congruence| |].
  - rewrite Hcont. apply Forall_app. split; [done|]. by apply Forall_singleton.
  - by rewrite Hc.
Qed.

Lemma mtx_start_ok s v : core_ok s -> exists ok s', mtx_start s v = Done (ok, s') /\ core_step s s'.
Proof.
  intros Hs. unfold mtx_start.
  destruct (start_or_nak_ok s s (kMTXFIFOData v .>> 1) (nonzero (kMTXFIFOData v .& 1))) as (ok & s1 & -> & Hs1 & Hc & _); [done|].
  run. destruct ok; [|by eauto]. eexists _, _. split; [done|]. apply REG_or_step.
  destruct Hs1 as ([? ? ? ? ?] & ? & ?). split; [|done]. by split; auto.
Qed.

Lemma mtx_read_ok s v : core_ok s -> num (rx_fifo s) + kMTXFIFOData v <= 0x100 ->
  exists ok s', mtx_read s v = Done (ok, s') /\ core_step s s'.
Proof.
  intros Hs Hn. unfold mtx_read. pose proof (data_width v) as [Hw _].
  assert (exists ok s1, (if negb (is_recv s) then start_or_nak s (kMTXFIFOData v .>> 1) true else mret (true, s)) = Done (ok, s1) /\
    core_step s s1 /\ rx_fifo s1 = rx_fifo s) as (ok & s1 & -> & Hs1 & Hf).
  { destruct (is_recv s); cbn [negb]; [by exists true, s|].
    destruct (start_or_nak_ok s s (kMTXFIFOData v .>> 1) true) as (ok & s1 & -> & Hs1 & _ & Hf & _); [done|]. eauto. }
  run. destruct ok; [|by eauto].
  destruct (recv_bytes_ok (Z.to_nat (kMTXFIFOData v)) s s1) as (s2 & -> & Hs2); [done|rewrite Hf; lia|]. run.
  eexists _, _. split; [done|]. cbv zeta. repeat case_match; by repeat apply REG_or_step.
Qed.

Lemma mtx_write_ok s v : core_ok s -> exists ok s', mtx_write s v = Done (ok, s') /\ core_step s s'.
Proof.
  intros Hs. unfold mtx_write.
  assert (exists ok s1, (if is_recv s then start_or_nak s (kMTXFIFOData v .>> 1) false else mret (true, s)) = Done (ok, s1) /\
    core_step s s1) as (ok & s1 & -> & Hs1).
  { destruct (is_recv s); [|by exists true, s].
    destruct (start_or_nak_ok s s (kMTXFIFOData v .>> 1) false) as (ok & s1 & -> & Hs1 & _); [done|]. eauto. }
  run. destruct ok; [|by eauto]. pose proof Hs1 as ([H1 H2 H3 H4 H5] & Hi & Hl).
  destruct (i2c_send_ok (bus s1) (kMTXFIFOData v) H1 (data_width v)) as (rv & b & -> & [Hb _ Hc _]). run. cbn [fst snd].
  eexists _, _. split; [done|].
  assert (core_step s (s1 <| bus := b |>)) as H' by (split; [split; cbn; rewrite ?Hc; done|done]).
  case_match; [by apply REG_or_step|done].
Qed.

Lemma mtx_stop_ok s0 s v : core_step s0 s -> exists s', mtx_stop s v = Done s' /\ core_step s0 s'.
Proof.
  intros ([H1 H2 H3 H4 H5] & Hi & Hl). unfold mtx_stop. destruct (nonzero (v .& kMTXFIFOStop) && xip s).
  - destruct (i2c_end_transfer_ok (bus s) H1) as (b & -> & [Hb _ _ _]). run. eexists. split; [done|].
    split; [|done]. split; try done.
  - eexists. split; [done|]. by split; [split|].
Qed.

(** The bytes a write asks for fit in the receive queue. *)
Definition room (s : AppleI2CState) (v : Z) : Prop :=
  nonzero (v .& kMTXFIFOStart) = false -> nonzero (v .& kMTXFIFORead) = true -> xip s = true ->
  num (rx_fifo s) + kMTXFIFOData v <= 0x100.

Lemma mtx_fifo_ok s v : core_ok s -> room s v -> exists s', mtx_fifo s v = Done s' /\ core_step s s'.
Proof.
  intros Hs Hr. unfold mtx_fifo.
  assert (exists ok s1, (if nonzero (v .& kMTXFIFOStart) then mtx_start s v
     else if xip s then if nonzero (v .& kMTXFIFORead) then mtx_read s v else mtx_write s v else mret (true, s)) = Done (ok, s1) /\
     core_step s s1) as (ok & s1 & -> & Hs1).
  { destruct (nonzero (v .& kMTXFIFOStart)) eqn:E1; [by apply mtx_start_ok|]. destruct (xip s) eqn:E2; [|by exists true, s].
    destruct (nonzero (v .& kMTXFIFORead)) eqn:E3; [apply mtx_read_ok; [done|by apply Hr]|by apply mtx_write_ok]. }
  run. destruct ok; [by apply mtx_stop_ok|by eauto].
Qed.

(** ** Accesses of the guest *)

Inductive i2c_op :=
| OpWrite (addr data : Z)
| OpRead (addr : Z)
| OpReset.

Definition i2c_exec (s : AppleI2CState) (op : i2c_op) : outcome AppleI2CState :=
  match op with
  | OpWrite addr data => apple_i2c_reg_write s addr data
  | OpRead addr => r ← apple_i2c_reg_read s addr; mret (snd r)
  | OpReset => mret (apple_i2c_reset s)
  end.

(** The memory region passes accesses inside it on; a read command does not ask
    for more bytes than the queue has room for. *)
Definition i2c_allowed (s : AppleI2CState) (op : i2c_op) : Prop :=
  match op with
  | OpWrite addr data => 0 <= addr < APPLE_I2C_MMIO_SIZE /\ (addr = REG_MTXFIFO -> room s (u32 data))
  | OpRead addr => 0 <= addr < APPLE_I2C_MMIO_SIZE
  | OpReset => True
  end.

Lemma i2c_update_irq_ok s : core_ok s -> irq s = last_irq s -> i2c_inv (apple_i2c_update_irq s).
Proof.
  intros Hc Hi. unfold apple_i2c_update_irq. fold (irq_level s). cbv zeta.
  destruct (eqb (irq_level s) (last_irq s)) eqn:E; cbn [negb].
  - apply eqb_prop in E. by split.
  - split; [by destruct Hc|done|done].
Qed.

Lemma store_ok s r : core_ok s -> core_ok (s <| reg := r |>).
Proof. by intros []. Qed.

Lemma reset_fifo_ok f : fifo8_wf f -> fifo8_wf (fifo8_reset f) /\ contents (fifo8_reset f) = [].
Proof. intros [? ? ? ?]. split; [|done]. split; cbn; lia. Qed.

Lemma i2c_write_ok s addr data : i2c_inv s -> i2c_allowed s (OpWrite addr data) ->
  exists s', apple_i2c_reg_write s addr data = Done s' /\ i2c_inv s'.
Proof.
  intros [Hc Hi Hl] [Ha Hr]. unfold apple_i2c_reg_write. cbv zeta. rewrite mget_ok by done. run.
  destruct (Z.eqb_spec addr REG_MTXFIFO) as [->|Hn1].
  { destruct (mtx_fifo_ok s (u32 data) Hc (Hr eq_refl)) as (s1 & -> & Hc1 & Hi1 & Hl1). run. rewrite mset_ok by done.
    run. eexists. split; [done|]. apply i2c_update_irq_ok; [by apply store_ok|cbn; congruence]. }
  destruct (Z.eqb_spec addr REG_SMSTA) as [->|Hn2].
  { run. rewrite mset_ok by done. run. eexists. split; [done|]. apply i2c_update_irq_ok; [by apply store_ok|done]. }
  destruct (Z.eqb_spec addr REG_IMASK) as [->|Hn3].
  { run. rewrite mset_ok by done. run. eexists. split; [done|]. apply i2c_update_irq_ok; [by apply store_ok|done]. }
  assert (forall s1 v, core_ok s1 -> irq s1 = irq s -> last_irq s1 = last_irq s -> reg s1 = reg s ->
    i2c_inv (s1 <| reg := <[addr := v]> (reg s1) |>)) as Hother.
  { intros s1 v H1 H2 H3 H4. split; [by apply store_ok|cbn; congruence|]. cbn [last_irq setf]. rewrite H3, Hl.
    unfold irq_level, REG. cbn [reg setf]. by rewrite H4, !lookup_insert_ne by done. }
  destruct (Z.eqb_spec addr REG_CTL) as [->|Hn4].
  - run. rewrite mset_ok by done. run. eexists. split; [done|]. apply Hother; try by case_match.
    case_match; [|done]. destruct Hc as [? Hw ? ? ?]. destruct (reset_fifo_ok _ Hw) as [Hw1 Hw2].
    by split.
  - run. rewrite mset_ok by done. run. eexists. split; [done|]. by apply Hother.
Qed.

Lemma i2c_read_ok s addr : i2c_inv s -> 0 <= addr < APPLE_I2C_MMIO_SIZE ->
  exists v s', apple_i2c_reg_read s addr = Done (v, s') /\ i2c_inv s'.
Proof.
  intros Hs Ha. pose proof Hs as [[H1 H2 H3 H4 H5] Hi Hl]. unfold apple_i2c_reg_read. rewrite mget_ok by done. run.
  destruct (Z.eqb_spec addr REG_MRXFIFO).
  - unfold fifo8_is_empty. destruct (Z.eqb_spec (num (rx_fifo s)) 0); [by eexists _, s|].
    destruct (contents (rx_fifo s)) as [|b q] eqn:E.
    { pose proof (length_contents _ H2) as Hz. rewrite E in Hz. done. }
    destruct (fifo8_pop_ok (rx_fifo s) b q H2 E) as (f & -> & Hw & Hc & Hcap & _). run. eexists _, _. split; [done|].
    split; [|done|done]. split; cbn; [done|done|congruence| |done]. rewrite Hc. by apply Forall_cons in H4 as [_ H4].
  - repeat case_match; by eexists _, s.
Qed.

(** the controller with lawful devices on its bus: every access of the
    guest to its registers that asks for no more bytes than the receive queue
    has room for, and a reset, completes; the devices keep their invariants,
    the queue holds bytes, a transfer in progress has a device, and the
    interrupt line is up exactly when an enabled status bit is set. *)
Theorem i2c_step_inv s op : i2c_inv s -> i2c_allowed s op -> exists s', i2c_exec s op = Done s' /\ i2c_inv s'.
Proof.
  intros Hs Ha. destruct op as [addr data|addr|]; cbn [i2c_exec].
  - by apply i2c_write_ok.
  - destruct (i2c_read_ok s addr Hs Ha) as (v & s' & -> & H). run. eauto.
  - eexists. split; [done|]. destruct Hs as [[H1 H2 H3 H4 H5] _ _]. destruct (reset_fifo_ok _ H2) as [Hw1 Hw2].
    split; [|done|done]. split; cbn; [done|done|done|by rewrite Hw2|done].
Qed.

(** A read command beyond the room stops the emulator. *)
Lemma i2c_read_overflow s v : i2c_inv s -> xip s = true -> is_recv s = true ->
  nonzero (u32 v .& kMTXFIFOStart) = false -> nonzero (u32 v .& kMTXFIFORead) = true ->
  0x100 < num (rx_fifo s) + kMTXFIFOData (u32 v) -> apple_i2c_reg_write s REG_MTXFIFO v = Abort.
Proof.
  intros [Hc _ _] Hx Hr E1 E2 Hn. unfold apple_i2c_reg_write. cbv zeta. rewrite mget_ok by done. run.
  rewrite Z.eqb_refl. unfold mtx_fifo. rewrite E1, Hx, E2. unfold mtx_read. rewrite Hr. cbn [negb]. run.
  assert (forall n s, core_ok s -> 0x100 < num (rx_fifo s) + Z.of_nat n -> recv_bytes s n = Abort) as Hrec.
  { clear. induction n as [|n IH]; intros s [H1 H2 H3 H4 H5] Hn; [destruct H2; lia|]. cbn [recv_bytes].
    destruct (i2c_recv_ok (bus s) H1) as (x & b & -> & Hx & [Hb _ Hcu _]). run. cbn [fst snd].
    destruct (decide (num (rx_fifo s) = 0x100)) as [E|E].
    { rewrite fifo8_push_full by (done || congruence). done. }
    destruct (fifo8_push_ok (rx_fifo s) x) as (f & -> & Hw & Hcont & Hcap & Hnum); [done|destruct H2; lia|]. run.
    apply IH; [|cbn; lia]. split; cbn; [done|done|congruence| |by rewrite Hcu].
    rewrite Hcont. apply Forall_app. split; [done|]. by apply Forall_singleton. }
  pose proof (data_width (u32 v)) as [Hw _]. rewrite Hrec by (done || lia). done.
Qed.

(** A device that returns the last byte it was sent, for the examples. *)
Module Echo.
#[global] Instance echo_class : I2CSlaveClass Z :=
  {| sc_send := Some (fun _ b => mret (0, b)); sc_recv := Some (fun st => mret (st, st)); sc_event := None |}.

#[global] Program Instance echo_laws : I2CSlaveLaws Z := {| sl_inv := in_width 8 |}.
Next Obligation. done. Qed.
Next Obligation. intros f st b [= <-] _ Hb. by exists 0, b. Qed.
Next Obligation. intros f st [= <-] Hs. by exists st, st. Qed.

Definition echo (a : Z) : I2CSlave := mkSlave Z echo_class a 0.
End Echo.

Lemma i2c_create_inv kids : Forall slave_ok kids -> i2c_inv (apple_i2c_create kids).
Proof.
  intros Hk. destruct (fifo8_create_wf 0x100) as [Hw Hc]; [lia|]. split; [|done|done].
  split; cbn [apple_i2c_create bus rx_fifo i2c_init_bus current_devs xip]; [by split|done|done|by rewrite Hc|done].
Qed.

Lemma i2c_step_inv_witness : exists s',
  i2c_exec (apple_i2c_create [Echo.echo 0x20]) (OpWrite REG_MTXFIFO (kMTXFIFOStart .| 0x41)) = Done s' /\ i2c_inv s'.
Proof.
  apply (i2c_step_inv (apple_i2c_create [Echo.echo 0x20]) (OpWrite REG_MTXFIFO (kMTXFIFOStart .| 0x41))).
  - apply i2c_create_inv, Forall_singleton. exists Echo.echo_laws. cbn. unfold in_width. lia.
  - split; [unfold APPLE_I2C_MMIO_SIZE, REG_MTXFIFO; lia|]. intros _ H. vm_compute in H. discriminate.
Defined.

(** The guest writes a register address and turns to reading with a read
    command of one byte and no start condition: the controller takes the length
    for the address, which makes the transfer a broadcast, and the byte is lost. *)
Lemma i2c_turn_is_broadcast :
  match s ← apple_i2c_reg_write (apple_i2c_create [Echo.echo 0x20]) REG_MTXFIFO (kMTXFIFOStart .| 0x40);
        s ← apple_i2c_reg_write s REG_MTXFIFO 0x55;
        s ← apple_i2c_reg_write s REG_MTXFIFO (kMTXFIFORead .| 1);
        r ← apple_i2c_reg_read s REG_MRXFIFO; mret (fst r, broadcast (bus (snd r))) with
  | Done r => r
  | _ => (0, false)
  end = (0xff, true).
Proof. vm_compute. reflexivity. Qed.

(** A reset in the middle of a transfer leaves the device addressed: the next
    start condition reaches it whatever address it has. *)
Lemma i2c_reset_keeps_transfer :
  match s ← apple_i2c_reg_write (apple_i2c_create [Echo.echo 0x20; Echo.echo 0x21]) REG_MTXFIFO (kMTXFIFOStart .| 0x40);
        s ← apple_i2c_reg_write (apple_i2c_reset s) REG_MTXFIFO (kMTXFIFOStart .| 0x42);
        mret (current_devs (bus s), map address (children (bus s))) with
  | Done r => r
  | _ => ([], [])
  end = ([0%nat], [0x20; 0x21]).
Proof. vm_compute. reflexivity. Qed.

(** ** Transactions *)

(** The words a driver writes: a byte with its flags. *)
Definition mtx_word (start stop read : bool) (d : Z) : Z :=
  d .| (if start then kMTXFIFOStart else 0) .| (if stop then kMTXFIFOStop else 0) .| (if read then kMTXFIFORead else 0).

Lemma mtx_word_bits start stop read d : in_width 8 d ->
  let w := u32 (mtx_word start stop read d) in
  kMTXFIFOData w = d /\ nonzero (w .& kMTXFIFOStart) = start /\ nonzero (w .& kMTXFIFOStop) = stop /\
  nonzero (w .& kMTXFIFORead) = read.
Proof.
  intros Hd. cbv zeta. unfold kMTXFIFOStart, kMTXFIFOStop, kMTXFIFORead. rewrite !land_BIT_nonzero by done.
  assert (forall i, 0 <= i -> Z.testbit (u32 (mtx_word start stop read d)) i =
    (i <? 8) && Z.testbit d i || (8 =? i) && start || (9 =? i) && stop || (10 =? i) && read) as Hb.
  { intros i Hi. unfold mtx_word, kMTXFIFOStart, kMTXFIFOStop, kMTXFIFORead. rewrite testbit_wrap, !Z.lor_spec by lia.
    assert (Z.testbit d i = (i <? 8) && Z.testbit d i) as ->.
    { destruct (Z.ltb_spec i 8); [done|]. by apply (testbit_high 8). }
    destruct start, stop, read; rewrite ?testbit_BIT, ?Z.bits_0 by lia; split_bits; cbn; try lia; try done; btauto. }
  rewrite !Hb by done. split_and!; [|cbn; btauto..]. unfold kMTXFIFOData. change 0xff with (Z.ones 8).
  apply Z.bits_inj'. intros i Hi. rewrite Z.land_spec, Z.shiftr_0_r, Hb, Z.testbit_ones by done.
  destruct (Z.ltb_spec i 8).
  - eval_cmp. cbn. btauto.
  - rewrite (testbit_high 8 d i) by (done || lia). eval_cmp. cbn. btauto.
Qed.

(** The bus between transfers, and in a transfer with one device. *)
Definition at_rest (s : AppleI2CState) (kids : list I2CSlave) : Prop :=
  bus s = mkBus kids [] false /\ xip s = false.
Definition talking (s : AppleI2CState) (kids : list I2CSlave) (i : nat) (dir : bool) : Prop :=
  bus s = mkBus kids [i] false /\ xip s = true /\ is_recv s = dir.

(** The device a start condition finds is the first with the address. *)
Definition first_at (kids : list I2CSlave) (i : nat) (s : I2CSlave) : Prop :=
  kids !! i = Some s /\ forall j t, (j < i)%nat -> kids !! j = Some t -> address t <> address s.

Lemma scan_first kids : forall k i s cur, first_at kids i s ->
  i2c_scan_bus kids k (address s) false cur = (k + i)%nat :: cur.
Proof.
  induction kids as [|t kids IH]; intros k [|i] s cur [Hi Hj]; [done..| |]; cbn [i2c_scan_bus]; unfold i2c_slave_match;
    rewrite orb_false_r.
  - injection Hi as ->. rewrite Z.eqb_refl. cbn [negb]. by rewrite Nat.add_0_r.
  - rewrite (proj2 (Z.eqb_neq _ _)) by (by apply (Hj 0%nat t); [lia|]). rewrite (IH (S k) i s cur).
    + f_equal. lia.
    + split; [done|]. intros j u Hlt Hu. by apply (Hj (S j) u); [lia|].
Qed.

(** What a write to the command register leaves for the next one. *)
Lemma mtx_reg_write s v s1 : mtx_fifo s (u32 v) = Done s1 ->
  exists s', apple_i2c_reg_write s REG_MTXFIFO v = Done s' /\
    bus s' = bus s1 /\ xip s' = xip s1 /\ is_recv s' = is_recv s1 /\ rx_fifo s' = rx_fifo s1.
Proof.
  intros E. unfold apple_i2c_reg_write. cbv zeta. rewrite mget_ok by done. run. rewrite Z.eqb_refl, E. run.
  rewrite mset_ok by done. run. eexists. split; [done|]. unfold apple_i2c_update_irq. cbv zeta. by case_match.
Qed.

Definition i2c_dir (recv : bool) : i2c_event := if recv then I2C_START_RECV else I2C_START_SEND.

(** The address byte of a start condition. *)
Definition addr_byte (a : Z) (recv : bool) : Z := 2 * a + (if recv then 1 else 0).

Lemma addr_byte_ok a recv : 0 < a < 128 -> in_width 8 (addr_byte a recv) /\ addr_byte a recv .>> 1 = a /\
  nonzero (addr_byte a recv .& 1) = recv.
Proof.
  intros Ha. unfold addr_byte, in_width. rewrite Z.shiftr_div_pow2 by done.
  rewrite ((fun x => Z.land_ones x 1 ltac:(done)) : forall x, x .& 1 = x mod 2 ^ 1). destruct recv; split_and!; try lia.
  - symmetry. apply (Z.div_unique _ _ _ 1); lia.
  - replace ((2 * a + 1) mod 2 ^ 1) with 1; [done|]. apply (Z.mod_unique _ _ a); lia.
  - symmetry. apply (Z.div_unique _ _ _ 0); lia.
  - replace ((2 * a + 0) mod 2 ^ 1) with 0; [done|]. apply (Z.mod_unique _ _ a); lia.
Qed.

Lemma start_transfer_one kids i sl sl' recv : first_at kids i sl -> address sl <> 0 ->
  slave_event sl (i2c_dir recv) = Done (0, sl') ->
  i2c_start_transfer (mkBus kids [] false) (address sl) recv = Done (0, mkBus (<[i := sl']> kids) [i] false).
Proof.
  intros Hf Ha He. unfold i2c_start_transfer, i2c_do_start_transfer. unfold I2C_BROADCAST.
  rewrite (proj2 (Z.eqb_neq _ _)) by done. cbv zeta. cbn [current_devs setf children broadcast].
  rewrite (scan_first kids 0 i sl []) by done. cbn [Nat.add start_devs]. unfold child. cbn [children].
  cbn [setf children]. rewrite (proj1 Hf). run. fold (i2c_dir recv). rewrite He. run. done.
Qed.

Lemma write_start s kids i sl sl' recv : at_rest s kids -> first_at kids i sl -> 0 < address sl < 128 ->
  slave_event sl (i2c_dir recv) = Done (0, sl') ->
  exists s', apple_i2c_reg_write s REG_MTXFIFO (mtx_word true false false (addr_byte (address sl) recv)) = Done s' /\
    talking s' (<[i := sl']> kids) i recv /\ rx_fifo s' = rx_fifo s.
Proof.
  intros [Hb Hx] Hf Ha He. destruct (addr_byte_ok (address sl) recv Ha) as (Hw & Hs & Hr).
  destruct (mtx_word_bits true false false _ Hw) as (B1 & B2 & B3 & B4). cbv zeta in *. set (w := u32 _) in *.
  destruct (mtx_reg_write s (mtx_word true false false (addr_byte (address sl) recv))
    (REG_or (s <| is_recv := recv |> <| bus := mkBus (<[i := sl']> kids) [i] false |> <| xip := true |>) REG_SMSTA kSMSTAxip))
    as (s' & E & E1 & E2 & E3 & E4).
  { fold w. unfold mtx_fifo. rewrite B2. unfold mtx_start, start_or_nak. rewrite B1, Hs, Hr. cbv zeta. cbn [bus setf].
    rewrite Hb, (start_transfer_one kids i sl sl' recv) by (done || lia). run. cbn [fst]. run.
    unfold mtx_stop. rewrite B3. done. }
  exists s'. split; [exact E|]. unfold talking. rewrite E1, E2, E3, E4. done.
Qed.

(** The end of a transfer with one device. *)
Lemma stop_one s kids i dir sl v fin : talking s kids i dir -> kids !! i = Some sl ->
  nonzero (v .& kMTXFIFOStop) = true -> slave_event sl I2C_FINISH = Done fin ->
  exists s', mtx_stop s v = Done s' /\ at_rest s' (<[i := snd fin]> kids) /\ rx_fifo s' = rx_fifo s.
Proof.
  intros (Hb & Hx & Hr) Hi Hv Hf. unfold mtx_stop. rewrite Hv, Hx. cbn [andb]. rewrite Hb. unfold i2c_end_transfer.
  cbn [current_devs finish_devs]. unfold child. cbn [children]. rewrite Hi. run. rewrite Hf. run.
  eexists. split; [done|]. done.
Qed.

Lemma send_one kids i sl sl' d : kids !! i = Some sl -> has_send sl = true -> slave_send sl d = Done (0, sl') ->
  i2c_send (mkBus kids [i] false) d = Done (0, mkBus (<[i := sl']> kids) [i] false).
Proof.
  intros Hi Hs Hd. unfold i2c_send. cbn [current_devs send_devs]. unfold child. cbn [children]. rewrite Hi. run.
  rewrite Hs, Hd. run. done.
Qed.

Lemma write_send s kids i sl sl' d stop : talking s kids i false -> kids !! i = Some sl -> has_send sl = true ->
  in_width 8 d -> slave_send sl d = Done (0, sl') ->
  exists s1, talking s1 (<[i := sl']> kids) i false /\ rx_fifo s1 = rx_fifo s /\
    mtx_fifo s (u32 (mtx_word false stop false d)) = mtx_stop s1 (u32 (mtx_word false stop false d)).
Proof.
  intros (Hb & Hx & Hr) Hi Hs Hw Hd. destruct (mtx_word_bits false stop false _ Hw) as (B1 & B2 & B3 & B4). cbv zeta in *.
  set (w := u32 _) in *. exists (s <| bus := mkBus (<[i := sl']> kids) [i] false |>). split; [done|]. split; [done|].
  unfold mtx_fifo. rewrite B2, Hx, B4. unfold mtx_write. rewrite Hr. run. rewrite B1, Hb, (send_one kids i sl sl') by done.
  run. done.
Qed.

(** The bytes a device accepts, and those it returns. *)
Fixpoint slave_sends (sl : I2CSlave) (bs : list Z) : option I2CSlave :=
  match bs with
  | [] => Some sl
  | b :: bs' =>
      match slave_send sl b with
      | Done (rv, sl') => if rv =? 0 then slave_sends sl' bs' else None
      | _ => None
      end
  end.

Fixpoint slave_recvs (sl : I2CSlave) (n : nat) : option (list Z * I2CSlave) :=
  match n with
  | O => Some ([], sl)
  | S n' =>
      match slave_recv sl with
      | Done (b, sl') =>
          match slave_recvs sl' n' with Some (bs, sl'') => Some (b :: bs, sl'') | None => None end
      | _ => None
      end
  end.

(** A driver's accesses: writes to the command register, and reads of the
    receive queue. *)
Fixpoint guest_writes (s : AppleI2CState) (vs : list Z) : outcome AppleI2CState :=
  match vs with
  | [] => mret s
  | v :: vs' => s ← apple_i2c_reg_write s REG_MTXFIFO v; guest_writes s vs'
  end.

Fixpoint guest_reads (s : AppleI2CState) (n : nat) : outcome (list Z * AppleI2CState) :=
  match n with
  | O => mret ([], s)
  | S n' =>
      '(b, s) ← apple_i2c_reg_read s REG_MRXFIFO;
      '(bs, s) ← guest_reads s n';
      mret (b :: bs, s)
  end.

(** The bytes of a send, the last with the stop condition. *)
Fixpoint byte_words (bs : list Z) : list Z :=
  match bs with
  | [] => []
  | [b] => [mtx_word false true false b]
  | b :: bs' => mtx_word false false false b :: byte_words bs'
  end.

Definition send_words (a : Z) (bs : list Z) : list Z := mtx_word true false false (addr_byte a false) :: byte_words bs.
Definition recv_words (a n : Z) : list Z :=
  [mtx_word true false false (addr_byte a true); mtx_word false true true n].

Lemma slave_send_has sl b rv sl' : slave_send sl b = Done (rv, sl') -> has_send sl = true -> has_send sl' = true.
Proof.
  destruct sl as [T c a st]. cbn. destruct (@sc_send T c) as [f|] eqn:E; [|done]. destruct (f st b) as [[x y]| | |]; [|done..].
  cbn. intros [= <- <-] _. cbn. by rewrite E.
Qed.

Lemma first_at_insert kids i sl sl' : first_at kids i sl -> (<[i := sl']> kids) !! i = Some sl'.
Proof. intros [H _]. apply list_lookup_insert_eq. by eapply lookup_lt_Some. Qed.

Lemma send_bytes bs : forall s kids i sl sl' fin, talking s kids i false -> kids !! i = Some sl -> has_send sl = true ->
  bs <> [] -> Forall (in_width 8) bs -> slave_sends sl bs = Some sl' -> slave_event sl' I2C_FINISH = Done fin ->
  exists s', guest_writes s (byte_words bs) = Done s' /\ at_rest s' (<[i := snd fin]> kids) /\ rx_fifo s' = rx_fifo s.
Proof.
  induction bs as [|b bs IH]; intros s kids i sl sl' fin Ht Hi Hh Hne Hw Hs Hf; [done|].
  apply Forall_cons in Hw as [Hb Hw]. cbn [slave_sends] in Hs.
  destruct (slave_send sl b) as [[rv sl1]| | |] eqn:E; [|done..]. destruct (Z.eqb_spec rv 0) as [->|]; [|done].
  assert (i < length kids)%nat as Hlt by (by eapply lookup_lt_Some). destruct bs as [|b' bs].
  - injection Hs as <-. destruct (write_send s kids i sl sl1 b true) as (s1 & Ht1 & Hr1 & Em); [done..|].
    destruct (stop_one s1 (<[i := sl1]> kids) i false sl1 (u32 (mtx_word false true false b)) fin) as (s2 & Es & Hr & Hx);
      [done|by apply list_lookup_insert_eq|by apply (mtx_word_bits false true false)|done|].
    rewrite Es in Em. destruct (mtx_reg_write s (mtx_word false true false b) s2 Em) as (s3 & E3 & Q1 & Q2 & Q3 & Q4).
    cbn [byte_words guest_writes]. rewrite E3. run. exists s3. split; [done|]. destruct Hr as [R1 R2]. unfold at_rest.
    rewrite Q1, Q2, Q4, R1, list_insert_insert_eq. split; [done|congruence].
  - destruct (write_send s kids i sl sl1 b false) as (s1 & Ht1 & Hr1 & Em); [done..|].
    assert (mtx_stop s1 (u32 (mtx_word false false false b)) = Done s1) as Es.
    { unfold mtx_stop. destruct (mtx_word_bits false false false b Hb) as (_ & _ & B3 & _). cbv zeta in B3. by rewrite B3. }
    rewrite Es in Em. destruct (mtx_reg_write s (mtx_word false false false b) s1 Em) as (s3 & E3 & Q1 & Q2 & Q3 & Q4).
    destruct (IH s3 (<[i := sl1]> kids) i sl1 sl' fin) as (s4 & E4 & Hr & Hx); try done.
    + destruct Ht1 as (T1 & T2 & T3). unfold talking. rewrite Q1, Q2, Q3. done.
    + by apply list_lookup_insert_eq.
    + by eapply slave_send_has.
    + change (byte_words (b :: b' :: bs)) with (mtx_word false false false b :: byte_words (b' :: bs)).
      cbn [guest_writes]. rewrite E3. run. exists s4. split; [exact E4|]. rewrite list_insert_insert_eq in Hr.
      split; [done|congruence].
Qed.

Lemma recv_bytes_one n : forall s kids i dir sl bs sl', talking s kids i dir -> kids !! i = Some sl ->
  fifo8_wf (rx_fifo s) -> capacity (rx_fifo s) = 0x100 -> num (rx_fifo s) + Z.of_nat n <= 0x100 ->
  slave_recvs sl n = Some (bs, sl') ->
  exists s', recv_bytes s n = Done s' /\ talking s' (<[i := sl']> kids) i dir /\ fifo8_wf (rx_fifo s') /\
    capacity (rx_fifo s') = 0x100 /\ contents (rx_fifo s') = contents (rx_fifo s) ++ bs.
Proof.
  induction n as [|n IH]; intros s kids i dir sl bs sl' (Hb & Hx & Hr) Hi Hw Hc Hn Hs; cbn [slave_recvs recv_bytes] in *.
  { injection Hs as <- <-. exists s. rewrite app_nil_r, list_insert_id by done. done. }
  destruct (slave_recv sl) as [[b sl1]| | |] eqn:E; [|done..].
  destruct (slave_recvs sl1 n) as [[bs1 sl2]|] eqn:E1; [|done]. injection Hs as <- <-.
  assert (i < length kids)%nat as Hlt by (by eapply lookup_lt_Some).
  rewrite Hb. unfold i2c_recv. cbn [current_devs broadcast negb]. unfold child. cbn [children]. rewrite Hi. run.
  rewrite E. run. cbn [fst snd].
  destruct (fifo8_push_ok (rx_fifo s) b) as (f & -> & Hwf & Hcont & Hcap & Hnum); [done|lia|]. run.
  destruct (IH (s <| bus := set_child (mkBus kids [i] false) i sl1 |> <| rx_fifo := f |>) (<[i := sl1]> kids) i dir sl1 bs1 sl2)
    as (s' & -> & Ht & Hw' & Hc' & Hcon'); [done|by apply list_lookup_insert_eq|done|cbn; lia|cbn; lia|done|].
  exists s'. split; [done|]. rewrite list_insert_insert_eq in Ht. split_and!; [done..|]. rewrite Hcon'. cbn [rx_fifo setf].
  by rewrite Hcont, <- (assoc_L (++)).
Qed.

Lemma guest_reads_ok bs : forall s q, fifo8_wf (rx_fifo s) -> contents (rx_fifo s) = bs ++ q -> Forall (in_width 8) bs ->
  exists s', guest_reads s (length bs) = Done (bs, s') /\ bus s' = bus s /\ xip s' = xip s /\
    fifo8_wf (rx_fifo s') /\ capacity (rx_fifo s') = capacity (rx_fifo s) /\ contents (rx_fifo s') = q.
Proof.
  induction bs as [|b bs IH]; intros s q Hw Hc Hb; [by exists s|]. apply Forall_cons in Hb as [Hb Hbs].
  cbn [length guest_reads app] in *. unfold apple_i2c_reg_read at 1. rewrite mget_ok by done. run. rewrite Z.eqb_refl.
  unfold fifo8_is_empty. pose proof (length_contents _ Hw) as Hl. rewrite Hc in Hl. unfold zlen in Hl. cbn [length] in Hl.
  rewrite (proj2 (Z.eqb_neq _ _)) by lia. destruct (fifo8_pop_ok (rx_fifo s) b (bs ++ q) Hw Hc) as (f & -> & Hw1 & Hc1 & Hcap & _).
  run. cbn [fst snd]. destruct (IH (s <| rx_fifo := f |>) q) as (s' & -> & H1 & H2 & H3 & H4 & H5); [done|done|done|].
  run. exists s'. split; [|cbn in *; split_and!; congruence || done]. unfold mret, outcome_ret, kMRXFIFOData. do 3 f_equal.
  change 0xff with (Z.ones 8). rewrite Z.shiftl_0_r, Z.land_ones by done. by apply Z.mod_small.
Qed.

Lemma send_transaction s kids i sl sl1 sl2 bs fin : at_rest s kids -> first_at kids i sl -> 0 < address sl < 128 ->
  slave_event sl I2C_START_SEND = Done (0, sl1) -> has_send sl1 = true -> bs <> [] -> Forall (in_width 8) bs ->
  slave_sends sl1 bs = Some sl2 -> slave_event sl2 I2C_FINISH = Done fin ->
  exists s', guest_writes s (send_words (address sl) bs) = Done s' /\ at_rest s' (<[i := snd fin]> kids) /\
    rx_fifo s' = rx_fifo s.
Proof.
  intros Hr Hf Ha He Hh Hne Hw Hs Hfin. unfold send_words. cbn [guest_writes].
  destruct (write_start s kids i sl sl1 false) as (s1 & -> & Ht & Hx); [done..|]. run.
  destruct (send_bytes bs s1 (<[i := sl1]> kids) i sl1 sl2 fin) as (s2 & E & Hr2 & Hx2); try done.
  { by eapply first_at_insert. }
  exists s2. split; [exact E|]. rewrite list_insert_insert_eq in Hr2. split; [done|congruence].
Qed.

Lemma recv_transaction s kids i sl sl1 sl2 bs fin : at_rest s kids -> first_at kids i sl -> 0 < address sl < 128 ->
  fifo8_wf (rx_fifo s) -> capacity (rx_fifo s) = 0x100 -> contents (rx_fifo s) = [] ->
  slave_event sl I2C_START_RECV = Done (0, sl1) -> (length bs < 256)%nat -> Forall (in_width 8) bs ->
  slave_recvs sl1 (length bs) = Some (bs, sl2) -> slave_event sl2 I2C_FINISH = Done fin ->
  exists s' s'', guest_writes s (recv_words (address sl) (zlen bs)) = Done s' /\
    guest_reads s' (length bs) = Done (bs, s'') /\ at_rest s'' (<[i := snd fin]> kids) /\
    fifo8_wf (rx_fifo s'') /\ capacity (rx_fifo s'') = 0x100 /\ contents (rx_fifo s'') = [].
Proof.
  intros Hr Hf Ha Hw Hcap Hcont He Hlen Hb Hs Hfin. unfold recv_words. cbn [guest_writes].
  destruct (write_start s kids i sl sl1 true) as (s1 & -> & Ht & Hx); [done..|]. run.
  assert (in_width 8 (zlen bs)) as Hwid by (unfold in_width, zlen; lia).
  destruct (mtx_word_bits false true true _ Hwid) as (B1 & B2 & B3 & B4). cbv zeta in *.
  pose proof (length_contents _ Hw) as Hn. rewrite Hcont in Hn. change (zlen []) with 0 in Hn.
  destruct (recv_bytes_one (length bs) s1 (<[i := sl1]> kids) i true sl1 bs sl2) as (s2 & E2 & Ht2 & Hw2 & Hc2 & Hcon2);
    [done|by eapply first_at_insert|by rewrite Hx|by rewrite Hx|rewrite Hx; lia|done|].
  set (w := u32 (mtx_word false true true (zlen bs))) in *.
  set (s3 := if 0 <? zlen bs then
               let s := REG_or s2 REG_SMSTA kSMSTAmrne in
               if kRDCOUNT (REG s REG_RDCOUNT) <=? zlen bs then REG_or s REG_SMSTA kSMSTAmrf else s
             else s2).
  assert (bus s3 = bus s2 /\ xip s3 = xip s2 /\ is_recv s3 = is_recv s2 /\ rx_fifo s3 = rx_fifo s2) as (Q1 & Q2 & Q3 & Q4)
    by (unfold s3; cbv zeta; by repeat case_match).
  destruct (stop_one s3 (<[i := sl2]> (<[i := sl1]> kids)) i true sl2 w fin) as (s4 & E4 & Hr4 & Hx4).
  { destruct Ht2 as (T1 & T2 & T3). unfold talking. by rewrite Q1, Q2, Q3. }
  { apply list_lookup_insert_eq. rewrite length_insert. destruct Hf as [Hi _]. by eapply lookup_lt_Some. }
  { done. } { done. }
  destruct (mtx_reg_write s1 (mtx_word false true true (zlen bs)) s4) as (s5 & -> & Z1 & Z2 & Z3 & Z4).
  { fold w. unfold mtx_fifo. destruct Ht as (T1 & T2 & T3). rewrite B2, T2, B4. unfold mtx_read. rewrite T3. cbn [negb]. run.
    rewrite B1. rewrite (Nat2Z.id (length bs) : Z.to_nat (zlen bs) = length bs), E2. run. exact E4. }
  run. destruct (guest_reads_ok bs s5 []) as (s6 & E6 & G1 & G2 & G3 & G4 & G5); [..|done|].
  - rewrite Z4, Hx4, Q4. done.
  - rewrite Z4, Hx4, Q4, Hcon2, Hx, Hcont, app_nil_r. done.
  - exists s5, s6. split; [done|]. split; [exact E6|]. destruct Hr4 as [R1 R2]. unfold at_rest.
    rewrite G1, G2, Z1, Z2, R1, !list_insert_insert_eq. split_and!; try done. by rewrite G4, Z4, Hx4, Q4.
Qed.

(** C30: a transaction of a driver reaches the device that is first on the bus
    with the address and no other.  A write transaction hands it every byte in
    order, a read transaction puts the bytes it answers in the receive queue,
    from which the driver reads them, and both end with the stop condition and
    the bus at rest. *)
Theorem i2c_transaction_spec s kids i sl : at_rest s kids -> first_at kids i sl -> 0 < address sl < 128 ->
  fifo8_wf (rx_fifo s) -> capacity (rx_fifo s) = 0x100 -> contents (rx_fifo s) = [] ->
  (forall bs sl1 sl2 fin, slave_event sl I2C_START_SEND = Done (0, sl1) -> has_send sl1 = true -> bs <> [] ->
     Forall (in_width 8) bs -> slave_sends sl1 bs = Some sl2 -> slave_event sl2 I2C_FINISH = Done fin ->
     exists s', guest_writes s (send_words (address sl) bs) = Done s' /\ at_rest s' (<[i := snd fin]> kids) /\
       rx_fifo s' = rx_fifo s) /\
  (forall bs sl1 sl2 fin, slave_event sl I2C_START_RECV = Done (0, sl1) -> (length bs < 256)%nat ->
     Forall (in_width 8) bs -> slave_recvs sl1 (length bs) = Some (bs, sl2) -> slave_event sl2 I2C_FINISH = Done fin ->
     exists s' s'', guest_writes s (recv_words (address sl) (zlen bs)) = Done s' /\
       guest_reads s' (length bs) = Done (bs, s'') /\ at_rest s'' (<[i := snd fin]> kids)).
Proof.
  intros Hr Hf Ha Hw Hc Hn. split.
  - intros. by eapply send_transaction.
  - intros bs sl1 sl2 fin H1 H2 H3 H4 H5.
    destruct (recv_transaction s kids i sl sl1 sl2 bs fin) as (s' & s'' & E1 & E2 & Hr' & _); [done..|]. eauto.
Qed.

Lemma i2c_transaction_spec_witness :
  let s := apple_i2c_create [Echo.echo 0x21; Echo.echo 0x20] in
  (exists s', guest_writes s (send_words 0x20 [1; 2]) = Done s' /\
     at_rest s' [Echo.echo 0x21; mkSlave Z Echo.echo_class 0x20 2] /\ rx_fifo s' = rx_fifo s) /\
  (exists s' s'', guest_writes s (recv_words 0x20 (zlen [0; 0])) = Done s' /\ guest_reads s' 2 = Done ([0; 0], s'') /\
     at_rest s'' [Echo.echo 0x21; Echo.echo 0x20]).
Proof.
  cbv zeta. destruct (fifo8_create_wf 0x100) as [Hw Hc]; [lia|].
  destruct (i2c_transaction_spec (apple_i2c_create [Echo.echo 0x21; Echo.echo 0x20]) [Echo.echo 0x21; Echo.echo 0x20]
    1 (Echo.echo 0x20)) as [H1 H2].
  - done.
  - split; [done|]. intros [|j] t Hj Ht; [|lia]. injection Ht as <-. done.
  - cbn. lia.
  - exact Hw.
  - done.
  - exact Hc.
  - split.
    + refine (H1 [1; 2] (Echo.echo 0x20) (mkSlave Z Echo.echo_class 0x20 2) (0, mkSlave Z Echo.echo_class 0x20 2) _ _ _ _ _ _);
        try done. by repeat apply Forall_cons_2.
    + refine (H2 [0; 0] (Echo.echo 0x20) (Echo.echo 0x20) (0, Echo.echo 0x20) _ _ _ _ _); try done; [cbn; lia|].
      by repeat apply Forall_cons_2.
Defined.
