(* ===== verification/I2cSlaves.v ===== *)
(** * Devices on the I2C buses

    The devices the machines put behind [hw/i2c/apple_i2c.c], each an instance
    of the class of callbacks of [I2c]: the Roswell authentication coprocessor
    ([roswell.c]), the display power unit ([chestnut.c]), the FAN53740 buck
    ([fan53740.c]), the microphone temperature sensor ([mic_tempsensor.c]), the
    backlight ([lm-backlight.c]), the CS35L27 amplifier ([cs35l27.c]) and the
    D2255 power management unit with its clock ([pmu-d2255.c]). *)

From S2P Require Import Prelude Bitops CString Fifo8 I2c.

(** ** Devices that accept everything and answer zero *)

Module Stubs.

Inductive AppleChestnutState := ChestnutState.
Definition apple_chestnut_rx (s : AppleChestnutState) : outcome (Z * AppleChestnutState) := mret (0x00, s).
Definition apple_chestnut_tx (s : AppleChestnutState) (data : Z) : outcome (Z * AppleChestnutState) := mret (0x00, s).

Inductive FAN53740State := FanState.
Definition fan53740_rx (s : FAN53740State) : outcome (Z * FAN53740State) := mret (0x00, s).
Definition fan53740_tx (s : FAN53740State) (data : Z) : outcome (Z * FAN53740State) := mret (0, s).
Definition fan53740_event (s : FAN53740State) (ev : i2c_event) : outcome (Z * FAN53740State) := mret (0, s).

Inductive AppleLMBacklightState := BacklightState.
Definition apple_lm_backlight_rx (s : AppleLMBacklightState) : outcome (Z * AppleLMBacklightState) := mret (0x00, s).
Definition apple_lm_backlight_tx (s : AppleLMBacklightState) (data : Z)
    : outcome (Z * AppleLMBacklightState) := mret (0, s).

#[global] Instance chestnut_class : I2CSlaveClass AppleChestnutState :=
  {| sc_send := Some apple_chestnut_tx; sc_recv := Some apple_chestnut_rx; sc_event := None |}.
#[global] Instance fan53740_class : I2CSlaveClass FAN53740State :=
  {| sc_send := Some fan53740_tx; sc_recv := Some fan53740_rx; sc_event := Some fan53740_event |}.
#[global] Instance lm_backlight_class : I2CSlaveClass AppleLMBacklightState :=
  {| sc_send := Some apple_lm_backlight_tx; sc_recv := Some apple_lm_backlight_rx; sc_event := None |}.

End Stubs.

(** ** The authentication coprocessor *)

Module Roswell.

Definition ROSWELL_COMMAND_GET_DEVICE_INFO : Z := 0.
Definition ROSWELL_COMMAND_GEN_SIGNATURE : Z := 1.
Definition ROSWELL_COMMAND_GET_SIGNATURE_LENGTH : Z := 2.
Definition ROSWELL_COMMAND_GET_SIGNATURE : Z := 3.
Definition ROSWELL_COMMAND_GET_CERT_LENGTH : Z := 4.
Definition ROSWELL_COMMAND_GET_CERT : Z := 5.
Definition ROSWELL_COMMAND_GET_CERT_SN : Z := 6.
Definition ROSWELL_COMMAND_EXTENDED : Z := 7.
Definition ROSWELL_COMMAND_INVALID : Z := 8.

Record AppleRoswellResponse := mkResp {
  buf : list Z;
  len : Z;
  pos : Z;
}.
#[global] Instance eta_AppleRoswellResponse : Eta AppleRoswellResponse := fun r => mkResp (buf r) (len r) (pos r).

Record AppleRoswellState := mkRoswell {
  command : Z;
  resp : AppleRoswellResponse;
}.
#[global] Instance eta_AppleRoswellState : Eta AppleRoswellState := fun r => mkRoswell (command r) (resp r).

Definition BUF_SIZE : nat := 0x261.

Definition apple_roswell_reset_command (r : AppleRoswellState) : AppleRoswellState :=
  r <| command := ROSWELL_COMMAND_INVALID |> <| resp := mkResp (replicate BUF_SIZE 0) 0 0 |>.

Definition apple_roswell_pop_resp (r : AppleRoswellState) : outcome (Z * AppleRoswellState) :=
  if command r =? ROSWELL_COMMAND_INVALID then mret (0x00, r)
  else if len (resp r) =? 0 then mret (0x00, r)
  else
    ret ← aget (buf (resp r)) (pos (resp r));
    let r := r <| resp := resp r <| pos := u16 (pos (resp r) + 1) |> |> in
    if len (resp r) =? pos (resp r) then mret (ret, apple_roswell_reset_command r) else mret (ret, r).

Definition apple_roswell_rx (r : AppleRoswellState) : outcome (Z * AppleRoswellState) := apple_roswell_pop_resp r.

Definition roswell_command (data : Z) : option Z :=
  if data =? 0x00 then Some ROSWELL_COMMAND_GET_DEVICE_INFO
  else if data =? 0x10 then Some ROSWELL_COMMAND_GEN_SIGNATURE
  else if data =? 0x11 then Some ROSWELL_COMMAND_GET_SIGNATURE_LENGTH
  else if data =? 0x12 then Some ROSWELL_COMMAND_GET_SIGNATURE
  else if data =? 0x30 then Some ROSWELL_COMMAND_GET_CERT_LENGTH
  else if data =? 0x31 then Some ROSWELL_COMMAND_GET_CERT
  else if data =? 0x4E then Some ROSWELL_COMMAND_GET_CERT_SN
  else if data =? 0x60 then Some ROSWELL_COMMAND_EXTENDED
  else None.

(** [stl_be_p] stores the most significant byte first. *)
Definition be32 (x : Z) : list Z := rev (le_split 4 x).

Definition roswell_run (r : AppleRoswellState) : outcome AppleRoswellState :=
  if command r =? ROSWELL_COMMAND_GET_DEVICE_INFO then
    b ← blit (buf (resp r)) 0 [0x0; 0x0; 0x2; 0x0];
    b ← blit b 4 (be32 0xDEADBEEF);
    mret (r <| resp := resp r <| buf := b |> <| len := 8 |> |>)
  else if command r =? ROSWELL_COMMAND_EXTENDED then
    b ← blit (buf (resp r)) 0 (replicate 9 0);
    b ← aset b 9 0xE3;
    b ← blit b 10 (lit "CKRosw");
    mret (r <| resp := resp r <| buf := b |> <| len := 9 + 7 |> |>)
  else mret r.

Definition apple_roswell_tx (r : AppleRoswellState) (data : Z) : outcome (Z * AppleRoswellState) :=
  if negb (command r =? ROSWELL_COMMAND_INVALID) then mret (0, r)
  else
    match roswell_command data with
    | None => mret (-1, r)
    | Some c => r ← roswell_run (r <| command := c |>); mret (0, r)
    end.

#[global] Instance roswell_class : I2CSlaveClass AppleRoswellState :=
  {| sc_send := Some apple_roswell_tx; sc_recv := Some apple_roswell_rx; sc_event := None |}.

End Roswell.

(** ** The microphone temperature sensor *)

Module MicTempSensor.

Definition R_ID0 : Z := 0.
Definition R_ID1 : Z := 1.
Definition R_STATUS : Z := 2.
Definition R_VALUE0 : Z := 4.

Record AppleMicTempSensorState := mkSensor {
  receiving_addr : bool;
  addr : Z;
  cur_addr : Z;
  id0 : Z;
  id1 : Z;
}.
#[global] Instance eta_AppleMicTempSensorState : Eta AppleMicTempSensorState := fun s =>
  mkSensor (receiving_addr s) (addr s) (cur_addr s) (id0 s) (id1 s).

(** [REG_FIELD_DP8]: the value goes through a bit field of the field's length. *)
Definition REG_FIELD_DP8 (storage shift length v : Z) : Z := u8 (deposit32 storage shift length (wrap length v)).

Definition apple_mic_temp_sensor_rx (s : AppleMicTempSensorState) : outcome (Z * AppleMicTempSensorState) :=
  let ret := if cur_addr s =? R_ID0 then id0 s
             else if cur_addr s =? R_ID1 then id1 s
             else if cur_addr s =? R_STATUS then REG_FIELD_DP8 0 1 1 1
             else if cur_addr s =? R_VALUE0 then 0x0A
             else 0x00 in
  mret (ret, s <| cur_addr := u8 (cur_addr s + 1) |>).

Definition apple_mic_temp_sensor_tx (s : AppleMicTempSensorState) (data : Z)
    : outcome (Z * AppleMicTempSensorState) :=
  if receiving_addr s then
    mret (0, s <| receiving_addr := false |> <| addr := data |> <| cur_addr := data |>)
  else mret (0, s <| cur_addr := u8 (cur_addr s + 1) |>).

Definition apple_mic_temp_sensor_event (s : AppleMicTempSensorState) (ev : i2c_event)
    : outcome (Z * AppleMicTempSensorState) :=
  mret (0, match ev with
           | I2C_START_SEND => s <| receiving_addr := true |>
           | I2C_FINISH => s <| cur_addr := addr s |>
           | _ => s
           end).

Definition apple_mic_temp_sensor_create (product_id vendor_id revision fab_id : Z) : AppleMicTempSensorState :=
  mkSensor false 0 0 (REG_FIELD_DP8 (REG_FIELD_DP8 0 0 5 product_id) 5 3 vendor_id)
                     (REG_FIELD_DP8 (REG_FIELD_DP8 0 0 5 revision) 5 3 fab_id).

#[global] Instance mic_temp_sensor_class : I2CSlaveClass AppleMicTempSensorState :=
  {| sc_send := Some apple_mic_temp_sensor_tx; sc_recv := Some apple_mic_temp_sensor_rx;
     sc_event := Some apple_mic_temp_sensor_event |}.

End MicTempSensor.

(** ** The amplifier *)

Module Cs35l27.

Definition CS35L27_REG_SIZE : Z := 0x1000000.
Definition DEVID_SFT_RESET_DEVICE_ID_REG : Z := 0x0.
Definition VPBR_PAC_INT_INT_REGISTER_2 : Z := 0x2814.
Definition VPBR_PAC_INT_INT_REGISTER_6 : Z := 0x2824.

Record AppleCS35L27State := mkAmp {
  addr : Z;
  tx_bytes : Z;
  regs : gmap Z Z;
}.
#[global] Instance eta_AppleCS35L27State : Eta AppleCS35L27State := fun s => mkAmp (addr s) (tx_bytes s) (regs s).

(** The byte of a constant register that [addr] names. *)
Definition const_byte (value base addr : Z) : Z := (bswap32 value .>> ((addr - base) * 8)) .& 0xFF.

Definition in_reg (base a : Z) : bool := (base <=? a) && (a <=? base + 3).

Definition apple_cs35l27_rx (s : AppleCS35L27State) : outcome (Z * AppleCS35L27State) :=
  let a := addr s in
  ret ← (if in_reg DEVID_SFT_RESET_DEVICE_ID_REG a then
           mret (const_byte 0x0035A270 DEVID_SFT_RESET_DEVICE_ID_REG a)
         else if in_reg VPBR_PAC_INT_INT_REGISTER_2 a then
           mret (const_byte (BIT 12) VPBR_PAC_INT_INT_REGISTER_2 a)
         else if in_reg VPBR_PAC_INT_INT_REGISTER_6 a then
           mret (const_byte (BIT 27) VPBR_PAC_INT_INT_REGISTER_6 a)
         else if a <? 0x1000000 then mget CS35L27_REG_SIZE (regs s) a
         else mret 0x00);
  let s := s <| addr := u32 (addr s + 1) |> in
  mret (ret, if addr s =? 4 then s <| addr := 0 |> <| tx_bytes := 0 |> else s).

Definition apple_cs35l27_tx (s : AppleCS35L27State) (data : Z) : outcome (Z * AppleCS35L27State) :=
  if tx_bytes s <? 4 then
    let s := s <| addr := addr s .| u32 (data .<< (tx_bytes s * 8)) |> in
    let s := if tx_bytes s =? 3 then s <| addr := bswap32 (addr s) |> else s in
    mret (0, s <| tx_bytes := u32 (tx_bytes s + 1) |>)
  else if tx_bytes s <? 0x40 then
    r ← (if addr s <? 0x1000000 then mset CS35L27_REG_SIZE (regs s) (addr s) data else mret (regs s));
    mret (0, s <| regs := r |> <| addr := u32 (addr s + 1) |> <| tx_bytes := u32 (tx_bytes s + 1) |>)
  else mret (0, s <| addr := 0 |> <| tx_bytes := 0 |>).

Definition apple_cs35l27_event (s : AppleCS35L27State) (ev : i2c_event) : outcome (Z * AppleCS35L27State) :=
  mret (0, match ev with I2C_FINISH => s <| addr := 0 |> <| tx_bytes := 0 |> | _ => s end).

#[global] Instance cs35l27_class : I2CSlaveClass AppleCS35L27State :=
  {| sc_send := Some apple_cs35l27_tx; sc_recv := Some apple_cs35l27_rx; sc_event := Some apple_cs35l27_event |}.

End Cs35l27.

(** ** The power management unit *)

Module PmuD2255.

Inductive PMUOpState := PMU_OP_STATE_NONE | PMU_OP_STATE_RECV | PMU_OP_STATE_SEND.
Inductive PMUAddrState := PMU_ADDR_UPPER | PMU_ADDR_LOWER | PMU_ADDR_RECEIVED.

#[global] Instance PMUOpState_eq_dec : EqDecision PMUOpState.
Proof. solve_decision. Defined.
#[global] Instance PMUAddrState_eq_dec : EqDecision PMUAddrState.
Proof. solve_decision. Defined.

Definition REG_SIZE : Z := 0x8800.
Definition RTC_TICK_FREQ : Z := 32768.
Definition REG_EVENT_C : Z := 0x142.
Definition REG_IRQ_MASK_A : Z := 0x1C0.
Definition REG_MASK_REV_CODE : Z := 0x200.
Definition REG_DEVICE_ID7 : Z := 0x20A.
Definition REG_RTC_CONTROL : Z := 0x500.
Definition REG_RTC_SUB_SECOND_A : Z := 0x502.
Definition REG_RTC_SUB_SECOND_B : Z := 0x503.
Definition REG_RTC_SECOND_A : Z := 0x504.
Definition REG_RTC_SECOND_B : Z := 0x505.
Definition REG_RTC_SECOND_C : Z := 0x506.
Definition REG_RTC_SECOND_D : Z := 0x507.
Definition REG_RTC_ALARM_A : Z := 0x508.
Definition REG_RTC_ALARM_D : Z := 0x50B.
Definition REG_SCRATCH : Z := 0x5000.
Definition RTC_EVENT_ALARM : Z := BIT 0.
Definition RTC_CONTROL_ALARM_EN : Z := BIT 6.
Definition OFF_SCRATCH_SECS_OFFSET : Z := 4.
Definition OFF_SCRATCH_TICKS_OFFSET : Z := 21.

(** [clock] is what [qemu_clock_get_ns(rtc_clock)] returns, [timer] the
    deadline of the armed timer and [wakeup] says that the machine was asked to
    wake up. *)
Record PMUD2255State := mkPmu {
  reg : gmap Z Z;
  timer : option Z;
  irq : bool;
  tick_period : Z;
  rtc_offset : Z;
  op_state : PMUOpState;
  address_state : PMUAddrState;
  address : Z;
  clock : Z;
  wakeup : bool;
}.
#[global] Instance eta_PMUD2255State : Eta PMUD2255State := fun s =>
  mkPmu (reg s) (timer s) (irq s) (tick_period s) (rtc_offset s) (op_state s) (address_state s) (address s)
    (clock s) (wakeup s).

Definition rreg32 (s : PMUD2255State) (off : Z) : outcome Z :=
  b0 ← mget REG_SIZE (reg s) off; b1 ← mget REG_SIZE (reg s) (off + 1);
  b2 ← mget REG_SIZE (reg s) (off + 2); b3 ← mget REG_SIZE (reg s) (off + 3);
  mret (le_combine [b0; b1; b2; b3]).

Fixpoint put_bytes (m : gmap Z Z) (off : Z) (bs : list Z) : outcome (gmap Z Z) :=
  match bs with
  | [] => mret m
  | b :: bs' => m ← mset REG_SIZE m off b; put_bytes m (off + 1) bs'
  end.

Definition wreg32 (s : PMUD2255State) (off v : Z) : outcome PMUD2255State :=
  m ← put_bytes (reg s) off (le_split 4 v); mret (s <| reg := m |>).

Definition frq_to_period_ns (freq_hz : Z) : Z :=
  if freq_hz <? NANOSECONDS_PER_SECOND then NANOSECONDS_PER_SECOND / freq_hz else 1.

(** The tick of a time [now] behind the offset; the remainder by zero stops the
    process. *)
Definition tick_at (period now : Z) : outcome Z :=
  if period =? 0 then Abort
  else mret (u64 ((now / NANOSECONDS_PER_SECOND) .<< 15) .| ((now / period) .& 0x7FFF)).

Definition rtc_get_tick (s : PMUD2255State) : outcome Z := tick_at (tick_period s) (u64 (clock s - rtc_offset s)).

Definition pmu_d2255_set_tick_offset (s : PMUD2255State) (tick_offset : Z) : outcome PMUD2255State :=
  s ← wreg32 s (REG_SCRATCH + OFF_SCRATCH_SECS_OFFSET) (u32 (tick_offset .>> 15));
  s ← wreg32 s (REG_SCRATCH + OFF_SCRATCH_TICKS_OFFSET + 0) (tick_offset .& 0xFF);
  wreg32 s (REG_SCRATCH + OFF_SCRATCH_TICKS_OFFSET + 1) ((tick_offset .>> 8) .& 0x7F).

Definition pmu_d2255_update_irq (s : PMUD2255State) : outcome PMUD2255State :=
  m ← rreg32 s REG_IRQ_MASK_A;
  e ← rreg32 s REG_EVENT_C;
  mret (s <| irq := nonzero (m .& e) |>).

Definition pmu_d2255_alarm (s : PMUD2255State) : outcome PMUD2255State :=
  e ← rreg32 s REG_EVENT_C;
  s ← wreg32 s REG_EVENT_C (e .| RTC_EVENT_ALARM);
  s ← pmu_d2255_update_irq s;
  mret (s <| wakeup := true |>).

Definition pmu_d2255_set_alarm (s : PMUD2255State) : outcome PMUD2255State :=
  a ← rreg32 s REG_RTC_ALARM_A;
  t ← rtc_get_tick s;
  let seconds := u32 (a - (t .>> 15)) in
  c ← rreg32 s REG_RTC_CONTROL;
  if nonzero (c .& RTC_CONTROL_ALARM_EN) then
    if seconds =? 0 then pmu_d2255_alarm (s <| timer := None |>)
    else mret (s <| timer := Some (clock s + seconds * NANOSECONDS_PER_SECOND) |>)
  else mret (s <| timer := None |>).

Definition pmu_d2255_event (s : PMUD2255State) (ev : i2c_event) : outcome (Z * PMUD2255State) :=
  match ev with
  | I2C_START_RECV =>
      if decide (op_state s = PMU_OP_STATE_NONE) then mret (0, s <| op_state := PMU_OP_STATE_RECV |>)
      else mret (-1, s)
  | I2C_START_SEND =>
      if decide (op_state s = PMU_OP_STATE_NONE) then
        mret (0, s <| op_state := PMU_OP_STATE_SEND |> <| address := 0 |> <| address_state := PMU_ADDR_UPPER |>)
      else mret (-1, s)
  | I2C_START_SEND_ASYNC => mret (-1, s)
  | I2C_FINISH => mret (0, s <| op_state := PMU_OP_STATE_NONE |>)
  | I2C_NACK => mret (-1, s)
  end.

(** The clock registers as they are when the first of them is read. *)
Definition latch_clock (s : PMUD2255State) : outcome PMUD2255State :=
  now ← rtc_get_tick s;
  m ← mset REG_SIZE (reg s) REG_RTC_SUB_SECOND_A ((now .<< 1) .& 0xFF);
  m ← mset REG_SIZE m REG_RTC_SUB_SECOND_B ((now .>> 7) .& 0xFF);
  m ← mset REG_SIZE m REG_RTC_SECOND_A ((now .>> 15) .& 0xFF);
  m ← mset REG_SIZE m REG_RTC_SECOND_B ((now .>> 23) .& 0xFF);
  m ← mset REG_SIZE m REG_RTC_SECOND_C ((now .>> 31) .& 0xFF);
  m ← mset REG_SIZE m REG_RTC_SECOND_D ((now .>> 39) .& 0xFF);
  mret (s <| reg := m |>).

Definition pmu_d2255_rx (s : PMUD2255State) : outcome (Z * PMUD2255State) :=
  if negb (bool_decide (op_state s = PMU_OP_STATE_RECV)) then mret (0x00, s)
  else if negb (bool_decide (address_state s = PMU_ADDR_RECEIVED)) then mret (0x00, s)
  else if REG_SIZE <=? address s then mret (0x00, s)
  else
    s ← (if address s =? REG_RTC_SUB_SECOND_A then latch_clock s else mret s);
    b ← mget REG_SIZE (reg s) (address s);
    mret (b, s <| address := u16 (address s + 1) |>).

Definition sets_alarm (a : Z) : bool :=
  (a =? REG_RTC_CONTROL) || ((REG_RTC_ALARM_A <=? a) && (a <=? REG_RTC_ALARM_D)).

Definition pmu_d2255_tx (s : PMUD2255State) (data : Z) : outcome (Z * PMUD2255State) :=
  if negb (bool_decide (op_state s = PMU_OP_STATE_SEND)) then mret (0x00, s)
  else
    match address_state s with
    | PMU_ADDR_UPPER => mret (0, s <| address := u16 (address s .| (data .<< 8)) |> <| address_state := PMU_ADDR_LOWER |>)
    | PMU_ADDR_LOWER => mret (0, s <| address := address s .| data |> <| address_state := PMU_ADDR_RECEIVED |>)
    | PMU_ADDR_RECEIVED =>
        if bool_decide (op_state s = PMU_OP_STATE_RECV) then mret (-1, s)
        else if REG_SIZE <=? address s then mret (-1, s)
        else
          m ← mset REG_SIZE (reg s) (address s) data;
          let s := s <| reg := m |> in
          s ← (if sets_alarm (address s) then pmu_d2255_set_alarm s else mret s);
          mret (0, s <| address := u16 (address s + 1) |>)
    end.

(** [memset] of [n] bytes. *)
Fixpoint fill (m : gmap Z Z) (off : Z) (n : nat) (b : Z) : gmap Z Z :=
  match n with O => m | S n' => fill (<[off := b]> m) (off + 1) n' b end.

Definition pmu_d2255_reset (s : PMUD2255State) : PMUD2255State :=
  s <| op_state := PMU_OP_STATE_NONE |> <| address := 0 |> <| address_state := PMU_ADDR_UPPER |>
    <| reg := fill ∅ REG_MASK_REV_CODE (Z.to_nat (REG_DEVICE_ID7 - REG_MASK_REV_CODE)) 0xFF |>.

(** [instance_init] on an object of zeros, when the clock reads [now]. *)
Definition pmu_d2255_instance_init (now : Z) : outcome PMUD2255State :=
  let s := mkPmu ∅ None false (frq_to_period_ns RTC_TICK_FREQ) 0 PMU_OP_STATE_NONE PMU_ADDR_UPPER 0 now false in
  tick ← rtc_get_tick s;
  pmu_d2255_set_tick_offset (s <| rtc_offset := u64 now |>) tick.

#[global] Instance pmu_d2255_class : I2CSlaveClass PMUD2255State :=
  {| sc_send := Some pmu_d2255_tx; sc_recv := Some pmu_d2255_rx; sc_event := Some pmu_d2255_event |}.

End PmuD2255.

(** ** Every device keeps the promises of its class *)

(** [slave_law] proves a law whose callback is one of the cases of the class. *)
Ltac slave_law := intros; simplify_eq/=; (done || (repeat eexists; done)).

#[global] Program Instance chestnut_laws : I2CSlaveLaws Stubs.AppleChestnutState := {| sl_inv := fun _ => True |}.
Solve All Obligations with slave_law.
#[global] Program Instance fan53740_laws : I2CSlaveLaws Stubs.FAN53740State := {| sl_inv := fun _ => True |}.
Solve All Obligations with slave_law.
#[global] Program Instance lm_backlight_laws : I2CSlaveLaws Stubs.AppleLMBacklightState := {| sl_inv := fun _ => True |}.
Solve All Obligations with slave_law.

Module RoswellLaws.
Import Roswell.

(** A response is read from its first byte to its last; the buffer keeps its
    size. *)
Record roswell_inv (r : AppleRoswellState) : Prop := {
  ri_buf : zlen (buf (resp r)) = 0x261;
  ri_bytes : Forall (in_width 8) (buf (resp r));
  ri_resp : len (resp r) = 0 /\ pos (resp r) = 0 \/ 0 <= pos (resp r) < len (resp r) /\ len (resp r) <= 16;
  ri_idle : command r = ROSWELL_COMMAND_INVALID -> len (resp r) = 0;
}.

Lemma reset_command_inv r : roswell_inv (apple_roswell_reset_command r).
Proof.
  split; cbn [apple_roswell_reset_command command resp buf len pos setf]; [done| |by left|done].
  by apply Forall_replicate.
Qed.

Lemma blit_bytes (d : list Z) off src : Forall (in_width 8) d -> Forall (in_width 8) src ->
  0 <= off -> off + zlen src <= zlen d ->
  exists d', blit d off src = Done d' /\ zlen d' = zlen d /\ Forall (in_width 8) d'.
Proof.
  intros H1 H2 H3 H4. destruct (blit_in_range d src off H3 H4) as (l & E & Hl & _). exists l. split; [done|].
  split; [unfold zlen; by rewrite Hl|]. unfold blit in E. case_match; [|done]. injection E as <-.
  rewrite !Forall_app. split_and!; [by apply Forall_take|done|by apply Forall_drop].
Qed.

Lemma roswell_run_ok r : zlen (buf (resp r)) = 0x261 -> Forall (in_width 8) (buf (resp r)) ->
  len (resp r) = 0 -> pos (resp r) = 0 -> command r <> ROSWELL_COMMAND_INVALID ->
  exists r', roswell_run r = Done r' /\ roswell_inv r'.
Proof.
  intros H1 H2 H3 H4 H5. unfold roswell_run. repeat case_match.
  - destruct (blit_bytes (buf (resp r)) 0 [0; 0; 2; 0]) as (b1 & -> & Hl1 & Hb1); [done|by repeat apply Forall_cons_2|done|by rewrite H1|]. run.
    destruct (blit_bytes b1 4 (be32 0xDEADBEEF)) as (b2 & -> & Hl2 & Hb2); [done| |done|by rewrite Hl1, H1|].
    { by repeat apply Forall_cons_2. }
    run. eexists. split; [done|]. split; cbn [command resp buf len pos setf]; [lia|done|right; lia|done].
  - destruct (blit_bytes (buf (resp r)) 0 (replicate 9 0)) as (b1 & -> & Hl1 & Hb1); [done|by apply Forall_replicate|done|by rewrite H1|]. run.
    rewrite aset_in_range by lia. run.
    destruct (blit_bytes (<[Z.to_nat 9 := 0xE3]> b1) 10 (lit "CKRosw")) as (b2 & -> & Hl2 & Hb2);
      [by apply Forall_insert|by repeat apply Forall_cons_2|done|by rewrite zlen_insert, Hl1, H1|].
    run. eexists. split; [done|]. rewrite zlen_insert in Hl2.
    split; cbn [command resp buf len pos setf]; [lia|done|right; lia|done].
  - eexists. split; [done|]. split; [done|done|by left|done].
Qed.

#[global] Program Instance roswell_laws : I2CSlaveLaws AppleRoswellState := {| sl_inv := roswell_inv |}.
Next Obligation. done. Qed.
Next Obligation.
  intros f r b [= <-] Hr Hb. pose proof Hr as [H1 H2 H3 H4]. unfold apple_roswell_tx.
  destruct (Z.eqb_spec (command r) ROSWELL_COMMAND_INVALID) as [E|E]; cbn [negb]; [|by repeat eexists].
  destruct (roswell_command b) as [c|] eqn:Ec; [|by exists (-1), r].
  destruct (roswell_run_ok (r <| command := c |>)) as (r' & -> & Hr'); cbn [command resp setf]; try done.
  - auto.
  - specialize (H4 E). lia.
  - unfold roswell_command in Ec. repeat case_match; by simplify_eq.
  - run. eauto.
Qed.
Next Obligation.
  intros f r [= <-] Hr. pose proof Hr as [H1 H2 H3 H4]. unfold apple_roswell_rx, apple_roswell_pop_resp.
  destruct (command r =? ROSWELL_COMMAND_INVALID); [by exists 0, r|].
  destruct (Z.eqb_spec (len (resp r)) 0); [by exists 0, r|].
  destruct (aget_in_range (buf (resp r)) (pos (resp r))) as [b Hb]; [lia|]. rewrite Hb. run. cbv zeta.
  assert (in_width 8 b) by (apply aget_Done in Hb as [_ Hb]; by apply (proj1 (Forall_lookup _ _) H2 _ _ Hb)).
  cbn [resp len pos setf]. rewrite wrap_small by (unfold in_width; lia).
  destruct (Z.eqb_spec (len (resp r)) (pos (resp r) + 1)); eexists _, _; (split; [done|]); (split; [done|]).
  - apply reset_command_inv.
  - split; cbn [command resp buf len pos setf]; [done|done|right; lia|done].
Qed.
End RoswellLaws.

Lemma land_ff_width x : in_width 8 (x .& 0xff).
Proof. change 0xff with (Z.ones 8). rewrite Z.land_ones by done. by apply wrap_range. Qed.

(** The elements of a sparse array of bytes. *)
Definition map_bytes (m : gmap Z Z) : Prop := map_Forall (fun _ x => in_width 8 x) m.

Lemma map_bytes_get m i : map_bytes m -> in_width 8 (default 0 (m !! i)).
Proof. intros H. destruct (m !! i) as [x|] eqn:E; cbn; [by apply (H i)|done]. Qed.

Lemma map_bytes_set m i x : map_bytes m -> in_width 8 x -> map_bytes (<[i := x]> m).
Proof. intros. by apply map_Forall_insert_2. Qed.

Module MicTempSensorLaws.
Import MicTempSensor.

Record mic_inv (s : AppleMicTempSensorState) : Prop := {
  mi_addr : in_width 8 (addr s);
  mi_cur : in_width 8 (cur_addr s);
  mi_id0 : in_width 8 (id0 s);
  mi_id1 : in_width 8 (id1 s);
}.

#[global] Program Instance mic_laws : I2CSlaveLaws AppleMicTempSensorState := {| sl_inv := mic_inv |}.
Next Obligation.
  intros f s ev [= <-] [? ? ? ?]. eexists _, _. split; [done|]. destruct ev; by split.
Qed.
Next Obligation.
  intros f s b [= <-] [? ? ? ?] Hb. unfold apple_mic_temp_sensor_tx. case_match; eexists _, _; (split; [done|]);
    split; try done. by apply wrap_range.
Qed.
Next Obligation.
  intros f s [= <-] [? ? ? ?]. eexists _, _. split; [done|]. split.
  - repeat case_match; done.
  - split; try done. by apply wrap_range.
Qed.

Lemma mic_create_inv p v r f : mic_inv (apple_mic_temp_sensor_create p v r f).
Proof. split; try done; by apply wrap_range. Qed.
End MicTempSensorLaws.

Module Cs35l27Laws.
Import Cs35l27.

Record amp_inv (s : AppleCS35L27State) : Prop := {
  am_addr : in_width 32 (addr s);
  am_tx : 0 <= tx_bytes s <= 0x40;
  am_regs : map_bytes (regs s);
}.

Lemma bswap32_width x : in_width 32 (bswap32 x).
Proof. apply (le_combine_width (rev (le_split 4 x))). apply Forall_rev, le_split_bytes. Qed.

#[global] Program Instance cs35l27_laws : I2CSlaveLaws AppleCS35L27State := {| sl_inv := amp_inv |}.
Next Obligation.
  intros f s ev [= <-] [? ? ?]. eexists _, _. split; [done|]. destruct ev; by split.
Qed.
Next Obligation.
  intros f s b [= <-] [H1 H2 H3] Hb. unfold apple_cs35l27_tx.
  destruct (Z.ltb_spec (tx_bytes s) 4); [|destruct (Z.ltb_spec (tx_bytes s) 0x40)].
  - eexists _, _. split; [done|]. cbv zeta. cbn [tx_bytes setf].
    assert (in_width 32 (addr s .| u32 (b .<< (tx_bytes s * 8)))) by (apply in_width_lor; [done|done|by apply wrap_range]).
    case_match; split; cbn [addr tx_bytes regs setf]; try done; try apply bswap32_width;
      (rewrite wrap_small by (unfold in_width; lia); lia).
  - assert (exists r, (if addr s <? 0x1000000 then mset CS35L27_REG_SIZE (regs s) (addr s) b else mret (regs s)) = Done r /\
      map_bytes r) as (r & -> & Hr).
    { destruct (Z.ltb_spec (addr s) 0x1000000); [|by eauto]. rewrite mset_ok by (destruct H1; unfold CS35L27_REG_SIZE; lia).
      eexists. split; [done|]. by apply map_bytes_set. }
    run. eexists _, _. split; [done|]. split; cbn [addr tx_bytes regs setf]; [by apply wrap_range| |done].
    rewrite wrap_small by (unfold in_width; lia). lia.
  - eexists _, _. split; [done|]. split; cbn [addr tx_bytes regs setf]; [done|lia|done].
Qed.
Next Obligation.
  intros f s [= <-] [H1 H2 H3]. unfold apple_cs35l27_rx. cbv zeta.
  match goal with |- context [?m ≫= _] => assert (exists x, m = Done x /\ in_width 8 x) as (x & -> & Hx) end.
  { repeat case_match; try (eexists; split; [done|apply land_ff_width || done]).
    rewrite mget_ok by (destruct H1; unfold CS35L27_REG_SIZE; lia). eexists. split; [done|]. by apply map_bytes_get. }
  run. eexists _, _. split; [done|]. split; [done|]. cbn [addr setf].
  case_match; split; cbn [addr tx_bytes regs setf]; try done; by apply wrap_range.
Qed.
End Cs35l27Laws.

Module PmuD2255Laws.
Import PmuD2255.

Record pmu_inv (s : PMUD2255State) : Prop := {
  pi_period : 0 < tick_period s;
  pi_address : in_width 16 (address s);
  pi_reg : map_bytes (reg s);
}.

Lemma rreg32_ok s off : 0 <= off -> off + 3 < REG_SIZE -> exists x, rreg32 s off = Done x.
Proof. intros. unfold rreg32. rewrite !mget_ok by lia. run. eauto. Qed.

Lemma put_bytes_ok bs : forall m off, map_bytes m -> Forall (in_width 8) bs -> 0 <= off -> off + zlen bs <= REG_SIZE ->
  exists m', put_bytes m off bs = Done m' /\ map_bytes m'.
Proof.
  induction bs as [|b bs IH]; intros m off Hm Hb H1 H2; [by exists m|]. apply Forall_cons in Hb as [Hb Hbs].
  unfold zlen in *. cbn [length put_bytes] in *. rewrite mset_ok by lia. run. apply IH; [by apply map_bytes_set|done|lia|lia].
Qed.

(** The fields the callbacks below leave alone. *)
Definition same_regs (s s' : PMUD2255State) : Prop :=
  pmu_inv s' /\ address s' = address s /\ op_state s' = op_state s /\ address_state s' = address_state s.

Lemma wreg32_ok s off v : pmu_inv s -> 0 <= off -> off + 4 <= REG_SIZE -> exists s', wreg32 s off v = Done s' /\ same_regs s s'.
Proof.
  intros [? ? Hm] H1 H2. unfold wreg32.
  destruct (put_bytes_ok (le_split 4 v) (reg s) off) as (m & -> & Hm'); [done|apply le_split_bytes|done|done|].
  run. eexists. split; [done|]. by split; [split|].
Qed.

Lemma alarm_ok s : pmu_inv s -> exists s', pmu_d2255_alarm s = Done s' /\ same_regs s s'.
Proof.
  intros Hs. unfold pmu_d2255_alarm. destruct (rreg32_ok s REG_EVENT_C) as [e ->]; [done..|]. run.
  destruct (wreg32_ok s REG_EVENT_C (e .| RTC_EVENT_ALARM) Hs) as (s1 & -> & [? ? ?] & ? & ? & ?); [done..|]. run.
  unfold pmu_d2255_update_irq. destruct (rreg32_ok s1 REG_IRQ_MASK_A) as [m ->]; [done..|]. run.
  destruct (rreg32_ok s1 REG_EVENT_C) as [e1 ->]; [done..|]. run. eexists. split; [done|]. by split; [split|].
Qed.

Lemma rtc_get_tick_ok s : pmu_inv s -> exists t, rtc_get_tick s = Done t.
Proof.
  intros [H _ _]. unfold rtc_get_tick, tick_at. rewrite (proj2 (Z.eqb_neq _ _)) by lia. eauto.
Qed.

Lemma set_alarm_ok s : pmu_inv s -> exists s', pmu_d2255_set_alarm s = Done s' /\ same_regs s s'.
Proof.
  intros Hs. unfold pmu_d2255_set_alarm. destruct (rreg32_ok s REG_RTC_ALARM_A) as [a ->]; [done..|]. run.
  destruct (rtc_get_tick_ok s Hs) as [t ->]. run. destruct (rreg32_ok s REG_RTC_CONTROL) as [c ->]; [done..|]. run.
  pose proof Hs as [? ? ?]. repeat case_match; [|by eexists; split; [|split; [split|]]..].
  destruct (alarm_ok (s <| timer := None |>)) as (s' & -> & H'); [by split|]. eauto.
Qed.

Lemma latch_clock_ok s : pmu_inv s -> exists s', latch_clock s = Done s' /\ same_regs s s'.
Proof.
  intros Hs. unfold latch_clock. destruct (rtc_get_tick_ok s Hs) as [t ->]. run. rewrite mset_ok by done. run.
  do 5 (rewrite mset_ok by done; run). pose proof Hs as [? ? ?]. eexists. split; [done|]. split; [|done]. split; try done.
  cbn [reg setf]. by repeat (apply map_bytes_set; [|apply land_ff_width]).
Qed.

#[global] Program Instance pmu_laws : I2CSlaveLaws PMUD2255State := {| sl_inv := pmu_inv |}.
Next Obligation.
  intros f s ev [= <-] Hs. pose proof Hs as [? ? ?]. unfold pmu_d2255_event.
  repeat case_match; eexists _, _; (split; [done|]); by split.
Qed.
Next Obligation.
  intros f s b [= <-] Hs Hb. pose proof Hs as [H1 H2 H3]. unfold pmu_d2255_tx.
  case_match; [by exists 0, s|]. destruct (address_state s).
  - eexists _, _. split; [done|]. split; [done|by apply wrap_range|done].
  - eexists _, _. split; [done|]. split; [done| |done]. cbn [address setf]. apply in_width_lor; [done|done|].
    unfold in_width in *. lia.
  - repeat (case_match; [by eexists _, _|]). rewrite mset_ok by (destruct H2; lia). run.
    set (s1 := s <| reg := _ |>).
    assert (exists s', (if sets_alarm (address s1) then pmu_d2255_set_alarm s1 else mret s1) = Done s' /\ pmu_inv s')
      as (s' & -> & [? ? ?]).
    { assert (pmu_inv s1) as Hs1 by (split; [done|done|by apply map_bytes_set]). case_match; [|by eauto].
      destruct (set_alarm_ok s1 Hs1) as (s' & E & H' & _). eauto. }
    run. eexists _, _. split; [done|]. split; [done|by apply wrap_range|done].
Qed.
Next Obligation.
  intros f s [= <-] Hs. unfold pmu_d2255_rx. repeat (case_match; [by exists 0, s|]).
  assert (exists s', (if address s =? REG_RTC_SUB_SECOND_A then latch_clock s else mret s) = Done s' /\ same_regs s s')
    as (s' & -> & [? ? ?] & Ha & _).
  { case_match; [by apply latch_clock_ok|]. by exists s. }
  run. rewrite mget_ok by (rewrite Ha; destruct Hs as [_ [? _] _]; lia). run. eexists _, _. split; [done|].
  split; [by apply map_bytes_get|]. split; [done|by apply wrap_range|done].
Qed.
End PmuD2255Laws.

(** ** Registers of the power management unit through the controller *)

Module PmuTransfer.
Import PmuD2255 PmuD2255Laws.

Definition pmu (a : Z) (p : PMUD2255State) : I2CSlave := mkSlave PMUD2255State pmu_d2255_class a p.

(** The two bytes of a register's address. *)
Definition hi (r : Z) : Z := r .>> 8.
Definition lo (r : Z) : Z := r .& 0xff.

Lemma addr_bytes r : in_width 16 r -> in_width 8 (hi r) /\ in_width 8 (lo r) /\ u16 (0 .| (hi r .<< 8)) .| lo r = r.
Proof.
  intros Hr. split_and!; [|apply land_ff_width|].
  - unfold hi, in_width in *. rewrite Z.shiftr_div_pow2 by done. split; [apply Z.div_pos; lia|apply Z.div_lt_upper_bound; lia].
  - unfold hi, lo. change 0xff with (Z.ones 8). apply Z.bits_inj'. intros i Hi.
    rewrite Z.lor_spec, testbit_wrap, Z.lor_spec, Z.bits_0, testbit_shiftl, Z.land_spec, Z.testbit_ones by lia.
    destruct (Z.le_gt_cases 16 i); [rewrite (testbit_high 16 r i) by (done || lia); eval_cmp; done|].
    destruct (Z.le_gt_cases 8 i).
    + rewrite Z.shiftr_spec by lia. replace (i - 8 + 8) with i by lia. eval_cmp. cbn. btauto.
    + eval_cmp. cbn. btauto.
Qed.

(** Registers that are plain memory: not the clock, not the alarm. *)
Definition plain (r n : Z) : Prop := 0 <= r /\ r + n <= REG_SIZE /\ (r + n <= REG_RTC_CONTROL \/ REG_RTC_ALARM_D < r).

Fixpoint store (m : gmap Z Z) (r : Z) (bs : list Z) : gmap Z Z :=
  match bs with [] => m | b :: bs' => store (<[r := b]> m) (r + 1) bs' end.

Lemma store_lookup bs : forall m r x, store m r bs !! x =
  if bool_decide (r <= x < r + zlen bs) then bs !! Z.to_nat (x - r) else m !! x.
Proof.
  induction bs as [|b bs IH]; intros m r x; unfold zlen in *; cbn [store length].
  { rewrite bool_decide_false by lia. done. }
  rewrite IH. destruct (decide (x = r)) as [->|Hx].
  - rewrite bool_decide_false, bool_decide_true, lookup_insert_eq by lia. by rewrite Z.sub_diag.
  - rewrite lookup_insert_ne by done. destruct (decide (r + 1 <= x < r + 1 + Z.of_nat (length bs))).
    + rewrite !bool_decide_true by lia. replace (Z.to_nat (x - r)) with (S (Z.to_nat (x - (r + 1)))) by lia. done.
    + rewrite !bool_decide_false by lia. done.
Qed.

(** The device while a driver writes or reads its registers. *)
Definition with_op (p : PMUD2255State) (o : PMUOpState) (ast : PMUAddrState) (r : Z) (m : gmap Z Z) : PMUD2255State :=
  p <| op_state := o |> <| address_state := ast |> <| address := r |> <| reg := m |>.

Lemma send_address a p m r : in_width 16 r ->
  slave_sends (pmu a (with_op p PMU_OP_STATE_SEND PMU_ADDR_UPPER 0 m)) [hi r; lo r] =
  Some (pmu a (with_op p PMU_OP_STATE_SEND PMU_ADDR_RECEIVED r m)).
Proof.
  intros Hr. destruct (addr_bytes r Hr) as (_ & _ & E).
  transitivity (Some (pmu a (with_op p PMU_OP_STATE_SEND PMU_ADDR_RECEIVED (u16 (0 .| (hi r .<< 8)) .| lo r) m)));
    [reflexivity|by rewrite E].
Qed.

Lemma send_data a p bs : forall m r, plain r (zlen bs) ->
  slave_sends (pmu a (with_op p PMU_OP_STATE_SEND PMU_ADDR_RECEIVED r m)) bs =
  Some (pmu a (with_op p PMU_OP_STATE_SEND PMU_ADDR_RECEIVED (r + zlen bs) (store m r bs))).
Proof.
  induction bs as [|b bs IH]; intros m r (H1 & H2 & H3); unfold zlen in *; cbn [length] in *.
  { cbn. by rewrite Z.add_0_r. }
  cbn [slave_sends store]. assert (slave_send (pmu a (with_op p PMU_OP_STATE_SEND PMU_ADDR_RECEIVED r m)) b =
    Done (0, pmu a (with_op p PMU_OP_STATE_SEND PMU_ADDR_RECEIVED (r + 1) (<[r := b]> m)))) as ->.
  { cbn [slave_send pmu sc_send pmu_d2255_class]. unfold pmu_d2255_tx.
    cbn [op_state address_state with_op setf address reg]. rewrite (bool_decide_true (PMU_OP_STATE_SEND = _)) by done.
    cbn [negb]. rewrite bool_decide_false by done. unfold REG_SIZE in *. rewrite (proj2 (Z.leb_gt _ _)) by lia.
    rewrite mset_ok by lia. run. assert (sets_alarm r = false) as ->.
    { unfold sets_alarm, REG_RTC_CONTROL, REG_RTC_ALARM_A, REG_RTC_ALARM_D in *. eval_cmp. cbn. split_bits; lia || done. }
    run. match goal with |- context [u16 ?x] => change x with (r + 1) end.
    rewrite wrap_small by (unfold in_width; lia). done. }
  rewrite IH; [|split; lia]. do 3 f_equal. lia.
Qed.

Lemma recv_data a p m n : forall r, plain r (Z.of_nat n) ->
  slave_recvs (pmu a (with_op p PMU_OP_STATE_RECV PMU_ADDR_RECEIVED r m)) n =
  Some (map (fun k => default 0 (m !! (r + Z.of_nat k))) (seq 0 n),
        pmu a (with_op p PMU_OP_STATE_RECV PMU_ADDR_RECEIVED (r + Z.of_nat n) m)).
Proof.
  induction n as [|n IH]; intros r (H1 & H2 & H3); cbn [slave_recvs].
  { cbn. by rewrite Z.add_0_r. }
  assert (slave_recv (pmu a (with_op p PMU_OP_STATE_RECV PMU_ADDR_RECEIVED r m)) =
    Done (default 0 (m !! r), pmu a (with_op p PMU_OP_STATE_RECV PMU_ADDR_RECEIVED (r + 1) m))) as ->.
  { cbn [slave_recv pmu sc_recv pmu_d2255_class]. unfold pmu_d2255_rx.
    cbn [op_state address_state with_op setf address reg]. rewrite !bool_decide_true by done. cbn [negb].
    unfold REG_SIZE, REG_RTC_SUB_SECOND_A, REG_RTC_CONTROL, REG_RTC_ALARM_D in *.
    rewrite (proj2 (Z.leb_gt _ _)), (proj2 (Z.eqb_neq _ _)) by lia. run. cbn [address reg setf with_op]. rewrite mget_ok by lia. run.
    match goal with |- context [u16 ?x] => change x with (r + 1) end. rewrite wrap_small by (unfold in_width; lia). done. }
  rewrite IH by (split; lia). cbn [seq map]. rewrite Z.add_0_r. do 2 f_equal; [|do 2 f_equal; lia].
  f_equal. rewrite <- seq_shift, map_map. apply map_ext. intros k. do 2 f_equal. lia.
Qed.

Lemma stored_bytes m r bs : map (fun k => default 0 (store m r bs !! (r + Z.of_nat k))) (seq 0 (length bs)) = bs.
Proof.
  apply list_eq. intros k. change (map ?f) with (fmap (M := list) f). rewrite list_lookup_fmap.
  destruct (decide (k < length bs)%nat) as [Hk|Hk].
  - rewrite lookup_seq_lt by done. cbn [fmap option_fmap option_map Nat.add]. rewrite store_lookup, bool_decide_true.
    + replace (Z.to_nat (r + Z.of_nat k - r)) with k by lia.
      destruct (lookup_lt_is_Some_2 bs k Hk) as [b ->]. done.
    + unfold zlen. lia.
  - rewrite lookup_seq_ge by lia. cbn. symmetry. apply lookup_ge_None_2. lia.
Qed.

Lemma slave_sends_app sl b1 : forall b2, slave_sends sl (b1 ++ b2) =
  match slave_sends sl b1 with Some sl' => slave_sends sl' b2 | None => None end.
Proof.
  revert sl. induction b1 as [|b b1 IH]; intros sl b2; [done|]. cbn [app slave_sends].
  destruct (slave_send sl b) as [[rv sl']| | |]; [|done..]. case_match; [apply IH|done].
Qed.

Lemma first_at_update kids i sl sl' : first_at kids i sl -> I2c.address sl' = I2c.address sl ->
  first_at (<[i := sl']> kids) i sl'.
Proof.
  intros Hf Ha. split; [by eapply first_at_insert|]. intros j t Hj Ht. rewrite list_lookup_insert_ne in Ht by lia.
  rewrite Ha. by apply (proj2 Hf j).
Qed.

Section Registers.
Context (kids : list I2CSlave) (i : nat) (a : Z).
Hypothesis (Ha : 0 < a < 128).

(** A driver writes registers, or only their address. *)
Lemma pmu_write_regs s p r bs : at_rest s kids -> first_at kids i (pmu a p) -> op_state p = PMU_OP_STATE_NONE ->
  Forall (in_width 8) bs -> plain r (zlen bs) ->
  exists s', guest_writes s (send_words a (hi r :: lo r :: bs)) = Done s' /\ rx_fifo s' = rx_fifo s /\
    at_rest s' (<[i := pmu a (with_op p PMU_OP_STATE_NONE PMU_ADDR_RECEIVED (r + zlen bs) (store (reg p) r bs))]> kids).
Proof.
  intros Hr Hf Ho Hb Hp. assert (in_width 16 r) as Hw.
  { destruct Hp as (? & ? & _). unfold in_width, REG_SIZE, zlen in *. lia. }
  destruct (addr_bytes r Hw) as (Hh & Hl & _).
  destruct (send_transaction s kids i (pmu a p) (pmu a (with_op p PMU_OP_STATE_SEND PMU_ADDR_UPPER 0 (reg p)))
    (pmu a (with_op p PMU_OP_STATE_SEND PMU_ADDR_RECEIVED (r + zlen bs) (store (reg p) r bs))) (hi r :: lo r :: bs)
    (0, pmu a (with_op p PMU_OP_STATE_NONE PMU_ADDR_RECEIVED (r + zlen bs) (store (reg p) r bs)))) as (s' & E & H1 & H2); try done.
  - cbn [slave_event pmu sc_event pmu_d2255_class pmu_d2255_event]. by rewrite decide_True.
  - by repeat apply Forall_cons_2.
  - change (hi r :: lo r :: bs) with ([hi r; lo r] ++ bs). rewrite slave_sends_app, send_address by done. by apply send_data.
  - exists s'. done.
Qed.
End Registers.

(** registers of the power management unit that are plain memory, driven
    through the registers of the controller: a driver that writes bytes at an
    address, sends the address again and reads gets the same bytes back, and
    the write changes no other register. *)
Theorem pmu_registers_roundtrip kids i a p s r bs :
  0 < a < 128 -> at_rest s kids -> first_at kids i (pmu a p) -> op_state p = PMU_OP_STATE_NONE ->
  fifo8_wf (rx_fifo s) -> capacity (rx_fifo s) = 0x100 -> contents (rx_fifo s) = [] ->
  Forall (in_width 8) bs -> (length bs < 256)%nat -> plain r (zlen bs) ->
  exists s' p',
    (s1 ← guest_writes s (send_words a (hi r :: lo r :: bs));
     s2 ← guest_writes s1 (send_words a [hi r; lo r]);
     s3 ← guest_writes s2 (recv_words a (zlen bs));
     guest_reads s3 (length bs)) = Done (bs, s') /\
    at_rest s' (<[i := pmu a p']> kids) /\ op_state p' = PMU_OP_STATE_NONE /\
    forall x, ~ (r <= x < r + zlen bs) -> reg p' !! x = reg p !! x.
Proof.
  intros Ha Hr Hf Ho Hw Hcap Hcont Hb Hlen Hp.
  destruct (pmu_write_regs kids i a Ha s p r bs) as (s1 & -> & Hx1 & Hr1); [done..|]. run.
  set (m := store (reg p) r bs) in *. set (p1 := with_op p _ _ _ m) in *.
  assert (plain r (zlen (@nil Z))) as Hp0 by (destruct Hp as (? & ? & ?); change (zlen (@nil Z)) with 0; split; unfold zlen in *; lia).
  destruct (pmu_write_regs (<[i := pmu a p1]> kids) i a Ha s1 p1 r []) as (s2 & -> & Hx2 & Hr2);
    [done|by eapply first_at_update|done|done|done|]. run. rewrite list_insert_insert_eq in Hr2.
  change (zlen (@nil Z)) with 0 in Hr2. rewrite Z.add_0_r in Hr2. cbn [store] in Hr2.
  change (reg p1) with m in Hr2. change (with_op p1 ?o ?s r m) with (with_op p o s r m) in Hr2.
  set (p2 := with_op p PMU_OP_STATE_NONE PMU_ADDR_RECEIVED r m) in *.
  destruct (recv_transaction s2 (<[i := pmu a p2]> kids) i (pmu a p2) (pmu a (with_op p PMU_OP_STATE_RECV PMU_ADDR_RECEIVED r m))
    (pmu a (with_op p PMU_OP_STATE_RECV PMU_ADDR_RECEIVED (r + zlen bs) m)) bs
    (0, pmu a (with_op p PMU_OP_STATE_NONE PMU_ADDR_RECEIVED (r + zlen bs) m))) as (s3 & s4 & E3 & E4 & Hr4 & _); try done.
  - by eapply first_at_update.
  - by rewrite Hx2, Hx1.
  - by rewrite Hx2, Hx1.
  - by rewrite Hx2, Hx1.
  - rewrite recv_data by done. unfold m. by rewrite stored_bytes.
  - change (I2c.address (pmu a p2)) with a in E3. rewrite E3. run. exists s4, (with_op p PMU_OP_STATE_NONE PMU_ADDR_RECEIVED (r + zlen bs) m).
    split; [exact E4|]. cbn [snd] in Hr4. rewrite list_insert_insert_eq in Hr4. split; [done|]. split; [done|].
    intros x Hx. unfold m. change (reg (with_op p _ _ _ ?m)) with m. by rewrite store_lookup, bool_decide_false.
Qed.

Definition example_pmu : PMUD2255State :=
  mkPmu ∅ None false (frq_to_period_ns RTC_TICK_FREQ) 0 PMU_OP_STATE_NONE PMU_ADDR_UPPER 0 0 false.

Lemma pmu_registers_roundtrip_witness : exists s' p',
  (s1 ← guest_writes (apple_i2c_create [pmu 0x74 example_pmu]) (send_words 0x74 [hi 0x5000; lo 0x5000; 0xab; 0xcd]);
   s2 ← guest_writes s1 (send_words 0x74 [hi 0x5000; lo 0x5000]);
   s3 ← guest_writes s2 (recv_words 0x74 (zlen [0xab; 0xcd]));
   guest_reads s3 2) = Done ([0xab; 0xcd], s') /\
  at_rest s' [pmu 0x74 p'] /\ op_state p' = PMU_OP_STATE_NONE /\
  forall x, ~ (0x5000 <= x < 0x5000 + zlen [0xab; 0xcd]) -> reg p' !! x = reg example_pmu !! x.
Proof.
  destruct (fifo8_create_wf 0x100) as [Hw Hc]; [lia|].
  apply (pmu_registers_roundtrip [pmu 0x74 example_pmu] 0 0x74 example_pmu (apple_i2c_create [pmu 0x74 example_pmu])
    0x5000 [0xab; 0xcd]).
  - lia.
  - done.
  - split; [done|]. intros j t Hj. lia.
  - done.
  - exact Hw.
  - done.
  - exact Hc.
  - by repeat apply Forall_cons_2.
  - cbn. lia.
  - unfold plain, REG_SIZE, REG_RTC_CONTROL, REG_RTC_ALARM_D. change (zlen [0xab; 0xcd]) with 2. lia.
Defined.

(** The ticks inside a second are counted with the period rounded down and
    from the start of the clock, not of the second: before the first second is
    over the tick falls back to zero. *)
Lemma rtc_tick_falls_back :
  tick_at (frq_to_period_ns RTC_TICK_FREQ) 999960000 = Done 32767 /\
  tick_at (frq_to_period_ns RTC_TICK_FREQ) 999999999 = Done 0.
Proof. done. Qed.

(** The offset [instance_init] stores in the scratch registers does not survive
    the reset that follows it. *)
Lemma pmu_reset_drops_offset :
  match pmu_d2255_instance_init 3000000000 with
  | Done s => (rreg32 s (REG_SCRATCH + OFF_SCRATCH_SECS_OFFSET),
               rreg32 (pmu_d2255_reset s) (REG_SCRATCH + OFF_SCRATCH_SECS_OFFSET))
  | _ => (Oob, Oob)
  end = (Done 3, Done 0).
Proof. done. Qed.

(** Writing a register address and turning to reading without a stop condition
    is refused by the device. *)
Lemma pmu_refuses_repeated_start p : op_state p = PMU_OP_STATE_SEND ->
  pmu_d2255_event p I2C_START_RECV = Done (-1, p).
Proof. intros H. unfold pmu_d2255_event. by rewrite decide_False by (by rewrite H). Qed.

End PmuTransfer.

(** A command the coprocessor has no answer for leaves it waiting: every later
    command is ignored. *)
Lemma roswell_wedged r data : Roswell.command r = Roswell.ROSWELL_COMMAND_GEN_SIGNATURE ->
  Roswell.len (Roswell.resp r) = 0 ->
  Roswell.apple_roswell_tx r data = Done (0, r) /\ Roswell.apple_roswell_rx r = Done (0, r).
Proof.
  intros H1 H2. unfold Roswell.apple_roswell_tx, Roswell.apple_roswell_rx, Roswell.apple_roswell_pop_resp.
  by rewrite H1, H2.
Qed.
