(* ===== verification/Wdt.v ===== *)
(** * The watchdog

    Model of [hw/watchdog/apple_wdt.c]: two counters driven by the virtual
    clock, the timer that looks at them and the action of the watchdog.  The
    clock is a field the environment advances; the timer is the deadline it is
    armed for, and [wdt_update] runs some time after it. *)

From S2P Require Import Prelude.

Definition REG_SIZE : Z := 0x44.
Definition REG_CHIP_WDOG_TMR : Z := 0x0.
Definition REG_CHIP_WDOG_CTL : Z := 0xc.
Definition REG_SYS_WDOG_TMR : Z := 0x10.

Definition WDOG_CTL_EN_IRQ : Z := BIT 0.
Definition WDOG_CTL_ACK_IRQ : Z := BIT 1.
Definition WDOG_CTL_EN_RESET : Z := BIT 2.
Definition WDOG_CNTFRQ_HZ : Z := 24000000.

(** [actions] counts the calls of [watchdog_perform_action]. *)
Record AppleWDTState := mkWdt {
  irq0 : bool;
  timer : option Z;
  cnt_period_ns : Z;
  cntfrq_hz : Z;
  raw : list Z;
  clock : Z;
  actions : nat;
}.
#[global] Instance eta_AppleWDTState : Eta AppleWDTState := fun s =>
  mkWdt (irq0 s) (timer s) (cnt_period_ns s) (cntfrq_hz s) (raw s) (clock s) (actions s).

(** The named registers of the union. *)
Definition word (s : AppleWDTState) (i : nat) : Z := default 0 (raw s !! i).
Definition chip_timer (s : AppleWDTState) : Z := word s 0.
Definition chip_reset_counter (s : AppleWDTState) : Z := word s 1.
Definition chip_interrupt_counter (s : AppleWDTState) : Z := word s 2.
Definition chip_control (s : AppleWDTState) : Z := word s 3.
Definition sys_timer (s : AppleWDTState) : Z := word s 4.
Definition sys_reset_counter (s : AppleWDTState) : Z := word s 5.
Definition sys_control (s : AppleWDTState) : Z := word s 7.

Definition wdog_cntfrq_period_ns (freq : Z) : Z :=
  if freq <? NANOSECONDS_PER_SECOND then NANOSECONDS_PER_SECOND / freq else 1.

Definition wdt_set_irq (s : AppleWDTState) (level : bool) : AppleWDTState := s <| irq0 := level |>.

Definition wdt_get_clock (s : AppleWDTState) : Z := u32 (clock s / cnt_period_ns s).
Definition wdt_get_chip_timer (s : AppleWDTState) : Z := u32 (wdt_get_clock s - chip_timer s).
Definition wdt_get_sys_timer (s : AppleWDTState) : Z := u32 (wdt_get_clock s - sys_timer s).

Definition apple_wdt_reset (s : AppleWDTState) : AppleWDTState :=
  s <| raw := replicate (Z.to_nat (REG_SIZE / 4)) 0 |>.

Definition watchdog_perform_action (s : AppleWDTState) : AppleWDTState := s <| actions ::= S |>.

(** A reset counter: expired, or the earlier of [expiry] and its distance. *)
Definition reset_check (control tmr counter expiry : Z) : option Z :=
  if nonzero (control .& WDOG_CTL_EN_RESET) then
    if counter <=? tmr then None else Some (Z.min expiry (u32 (counter - tmr)))
  else Some expiry.

Definition irq_check (s : AppleWDTState) (chip_tmr expiry : Z) : AppleWDTState * Z :=
  if nonzero (chip_control s .& WDOG_CTL_EN_IRQ) then
    if chip_interrupt_counter s <=? chip_tmr then
      if negb (nonzero (chip_control s .& WDOG_CTL_ACK_IRQ)) then
        (wdt_set_irq (s <| raw ::= <[3%nat := chip_control s .| WDOG_CTL_ACK_IRQ]> |>) true, expiry)
      else (s, expiry)
    else (s, Z.min expiry (u32 (chip_interrupt_counter s - chip_tmr)))
  else (s, expiry).

Definition wdt_update (s : AppleWDTState) : AppleWDTState :=
  let chip_tmr := wdt_get_chip_timer s in
  let sys_tmr := wdt_get_sys_timer s in
  match reset_check (chip_control s) chip_tmr (chip_reset_counter s) 0xffffffff with
  | None => apple_wdt_reset (watchdog_perform_action s)
  | Some expiry =>
      match reset_check (sys_control s) sys_tmr (sys_reset_counter s) expiry with
      | None => apple_wdt_reset (watchdog_perform_action s)
      | Some expiry =>
          let '(s, expiry) := irq_check s chip_tmr expiry in
          s <| timer := Some (clock s + u64 (expiry * cnt_period_ns s)) |>
      end
  end.

Definition wdt_reg_write (s : AppleWDTState) (addr data : Z) : outcome AppleWDTState :=
  let val := u32 data in
  if REG_SIZE <=? addr then mret s
  else
    let '(s, val) :=
      if addr =? REG_CHIP_WDOG_TMR then (s, u32 (wdt_get_clock s - val))
      else if addr =? REG_CHIP_WDOG_CTL then
        (if nonzero (val .& WDOG_CTL_ACK_IRQ) then wdt_set_irq s false else s, val .&~ WDOG_CTL_ACK_IRQ)
      else if addr =? REG_SYS_WDOG_TMR then (s, u32 (wdt_get_clock s - val))
      else (s, val) in
    r ← aset (raw s) (addr .>> 2) val;
    mret (s <| raw := r |> <| timer := Some (clock s) |>).

Definition wdt_reg_read (s : AppleWDTState) (addr : Z) : outcome Z :=
  if REG_SIZE <=? addr then mret 0
  else
    val ← aget (raw s) (addr .>> 2);
    mret (if addr =? REG_CHIP_WDOG_TMR then wdt_get_chip_timer s
          else if addr =? REG_SYS_WDOG_TMR then wdt_get_sys_timer s
          else val).

Definition apple_wdt_realize (now : Z) : AppleWDTState :=
  apple_wdt_reset (mkWdt false None (wdog_cntfrq_period_ns WDOG_CNTFRQ_HZ) WDOG_CNTFRQ_HZ [] now 0).

(** The environment: the virtual clock has come to [t], and a timer that is due
    runs. *)
Definition wdt_run_to (s : AppleWDTState) (t : Z) : AppleWDTState :=
  let s := s <| clock := t |> in
  match timer s with
  | Some deadline => if deadline <=? t then wdt_update (s <| timer := None |>) else s
  | None => s
  end.

(** ** Lemmas *)

Record wdt_ok (s : AppleWDTState) : Prop := {
  wo_period : cnt_period_ns s = 41;
  wo_raw : length (raw s) = 17%nat;
  wo_words : Forall (in_width 32) (raw s);
  wo_clock : 0 <= clock s;
}.

Lemma word_width s i : wdt_ok s -> in_width 32 (word s i).
Proof.
  intros [_ _ H _]. unfold word. destruct (raw s !! i) as [x|] eqn:E; cbn; [|done]. by apply (proj1 (Forall_lookup _ _) H i).
Qed.

Lemma wdt_reset_ok s : wdt_ok s -> wdt_ok (apple_wdt_reset s).
Proof. intros [? ? ? ?]. split; cbn; [done|done|by apply Forall_replicate|done]. Qed.

(** What a counter's check returns. *)
Lemma reset_check_spec control tmr counter expiry : in_width 32 tmr -> in_width 32 counter ->
  (reset_check control tmr counter expiry = None <-> Z.testbit control 2 = true /\ counter <= tmr) /\
  forall e, reset_check control tmr counter expiry = Some e ->
    e <= expiry /\ (0 < expiry -> 0 < e) /\ (Z.testbit control 2 = true -> tmr < counter /\ e <= counter - tmr) /\
    (e = expiry \/ Z.testbit control 2 = true /\ e = counter - tmr).
Proof.
  intros Ht Hc. unfold reset_check, WDOG_CTL_EN_RESET. rewrite land_BIT_nonzero by done.
  destruct (Z.testbit control 2); [|split; [split; [done|by intros []]|]; intros e [= <-]; split_and!; (done || lia || by left)].
  destruct (Z.leb_spec counter tmr).
  - split; [split; done|done].
  - rewrite wrap_small by (unfold in_width in *; lia). split; [split; [done|intros []; lia]|].
    intros e [= <-]. split_and!; [lia..|]. destruct (Z.min_spec expiry (counter - tmr)) as [[? ->]|[? ->]]; [by left|by right].
Qed.

Definition chip_reset_on (s : AppleWDTState) : bool := Z.testbit (chip_control s) 2.
Definition sys_reset_on (s : AppleWDTState) : bool := Z.testbit (sys_control s) 2.
Definition chip_irq_on (s : AppleWDTState) : bool := Z.testbit (chip_control s) 0.

(** The watchdog bites: an enabled reset counter has been reached. *)
Definition bites (s : AppleWDTState) : Prop :=
  chip_reset_on s = true /\ chip_reset_counter s <= wdt_get_chip_timer s \/
  sys_reset_on s = true /\ sys_reset_counter s <= wdt_get_sys_timer s.

Definition irq_due (s : AppleWDTState) : Prop :=
  chip_irq_on s = true /\ chip_interrupt_counter s <= wdt_get_chip_timer s.

(** The configuration of the guest: all but the acknowledge bit. *)
Record same_cfg (s s' : AppleWDTState) : Prop := {
  sc_ok : wdt_ok s';
  sc_words : forall i, i <> 3%nat -> word s' i = word s i;
  sc_reset : chip_reset_on s' = chip_reset_on s;
  sc_irq : chip_irq_on s' = chip_irq_on s;
  sc_clock : clock s' = clock s;
  sc_actions : actions s' = actions s;
}.

Lemma timer_width s : in_width 32 (wdt_get_chip_timer s) /\ in_width 32 (wdt_get_sys_timer s).
Proof. split; by apply wrap_range. Qed.

(** The distance [irq_check] adds. *)
Lemma irq_check_spec s expiry : wdt_ok s -> 0 < expiry ->
  let '(s', e) := irq_check s (wdt_get_chip_timer s) expiry in
  same_cfg s s' /\ 0 < e <= expiry /\
  (e = expiry \/ chip_irq_on s = true /\ e = chip_interrupt_counter s - wdt_get_chip_timer s) /\
  (chip_irq_on s = true -> irq_due s \/ e <= chip_interrupt_counter s - wdt_get_chip_timer s).
Proof.
  intros Hs He. unfold irq_check, irq_due, chip_irq_on, WDOG_CTL_EN_IRQ. rewrite land_BIT_nonzero by done.
  assert (same_cfg s s) as Hrefl by (by split).
  pose proof (timer_width s) as [Ht _]. pose proof (word_width s 2 Hs) as Hw. fold (chip_interrupt_counter s) in Hw.
  destruct (Z.testbit (chip_control s) 0) eqn:E0; [|split_and!; (done || lia || by left)].
  destruct (Z.leb_spec (chip_interrupt_counter s) (wdt_get_chip_timer s)) as [Hle|Hlt].
  - destruct (negb _); [|split_and!; (done || lia || by left)]. split_and!; [|lia|lia|by left|by intros _; left].
    pose proof Hs as [H1 H2 H3 H4]. pose proof (word_width s 3 Hs) as Hc. fold (chip_control s) in Hc.
    set (s1 := wdt_set_irq _ true). assert (forall i, word s1 i =
      if decide (i = 3%nat) then chip_control s .| WDOG_CTL_ACK_IRQ else word s i) as Hword.
    { intros i. unfold word. cbn. case_decide as Hd; [subst; by rewrite list_lookup_insert_eq by lia|].
      by rewrite list_lookup_insert_ne by congruence. }
    pose proof (Hword 3%nat : chip_control s1 = chip_control s .| WDOG_CTL_ACK_IRQ) as Hctl. split; try done.
    + split; cbn; [done|by rewrite length_insert| |done]. apply Forall_insert; [done|]. apply in_width_lor; [done|done|].
      by apply in_width_BIT.
    + intros i Hi. rewrite Hword. by rewrite decide_False.
    + unfold chip_reset_on. rewrite Hctl, Z.lor_spec. unfold WDOG_CTL_ACK_IRQ. rewrite testbit_BIT by done. apply orb_false_r.
    + unfold chip_irq_on. rewrite Hctl, Z.lor_spec. unfold WDOG_CTL_ACK_IRQ. rewrite testbit_BIT by done. apply orb_false_r.
  - rewrite wrap_small by (unfold in_width in *; lia).
    split_and!; [done|lia|lia| |intros _; right; lia]. destruct (Z.min_spec expiry (chip_interrupt_counter s - wdt_get_chip_timer s)) as [[? ->]|[? ->]]; [by left|by right].
Qed.

(** What the timer's callback does. *)
Lemma update_cases s : wdt_ok s ->
  bites s /\ wdt_update s = apple_wdt_reset (watchdog_perform_action s) \/
  ~ bites s /\ exists s' e, wdt_update s = s' <| timer := Some (clock s + e * 41) |> /\ same_cfg s s' /\
    0 < e <= 0xffffffff /\
    (chip_reset_on s = true -> e <= chip_reset_counter s - wdt_get_chip_timer s) /\
    (sys_reset_on s = true -> e <= sys_reset_counter s - wdt_get_sys_timer s) /\
    (chip_irq_on s = true -> irq_due s \/ e <= chip_interrupt_counter s - wdt_get_chip_timer s) /\
    (e = 0xffffffff \/ chip_reset_on s = true /\ e = chip_reset_counter s - wdt_get_chip_timer s \/
     sys_reset_on s = true /\ e = sys_reset_counter s - wdt_get_sys_timer s \/
     chip_irq_on s = true /\ e = chip_interrupt_counter s - wdt_get_chip_timer s).
Proof.
  intros Hs. unfold wdt_update. cbv zeta. pose proof (timer_width s) as [Hc Hy].
  pose proof (word_width s 1 Hs) as Hr. pose proof (word_width s 5 Hs) as Hsr.
  fold (chip_reset_counter s) in Hr. fold (sys_reset_counter s) in Hsr.
  destruct (reset_check_spec (chip_control s) (wdt_get_chip_timer s) (chip_reset_counter s) 0xffffffff Hc Hr) as [N1 S1].
  destruct (reset_check (chip_control s) _ _ _) as [e1|]; [|left; split; [left; by apply N1|done]].
  destruct (S1 e1 eq_refl) as (A1 & A2 & A3 & A4).
  destruct (reset_check_spec (sys_control s) (wdt_get_sys_timer s) (sys_reset_counter s) e1 Hy Hsr) as [N2 S2].
  destruct (reset_check (sys_control s) _ _ _) as [e2|]; [|left; split; [right; by apply N2|done]].
  destruct (S2 e2 eq_refl) as (B1 & B2 & B3 & B4). right.
  pose proof (irq_check_spec s e2 Hs ltac:(lia)) as Hi. destruct (irq_check s (wdt_get_chip_timer s) e2) as [s' e].
  destruct Hi as (Hcfg & C1 & C2 & C3). split.
  { intros [[E H]|[E H]]; [apply A3 in E|apply B3 in E]; lia. }
  exists s', e. pose proof Hcfg as [Ho _ _ _ Hcl _]. rewrite (wo_period _ Ho), Hcl, wrap_small by (unfold in_width; lia).
  split_and!; [done|done|lia|lia|..].
  - intros E. apply A3 in E. lia.
  - intros E. apply B3 in E. lia.
  - done.
  - unfold chip_reset_on, sys_reset_on. destruct C2 as [->|?]; [|by auto]. destruct B4 as [->|?]; [|by auto]. destruct A4; auto.
Qed.

(** ** The counters as time passes *)

Definition at_time (s : AppleWDTState) (t : Z) : AppleWDTState := s <| clock := t |>.

(** Ticks of the counters between two times. *)
Definition elapsed (t0 t : Z) : Z := t / 41 - t0 / 41.

Lemma counter_at t0 t base : u32 (u32 (t / 41) - base) = u32 (u32 (u32 (t0 / 41) - base) + elapsed t0 t).
Proof.
  unfold wrap, elapsed. rewrite Zplus_mod_idemp_l, Zminus_mod_idemp_l.
  replace ((t0 / 41) mod 2 ^ 32 - base + (t / 41 - t0 / 41)) with ((t0 / 41) mod 2 ^ 32 - (base - (t / 41 - t0 / 41))) by lia.
  rewrite Zminus_mod_idemp_l. f_equal. lia.
Qed.

Lemma chip_timer_at s t : wdt_ok s ->
  wdt_get_chip_timer (at_time s t) = u32 (wdt_get_chip_timer s + elapsed (clock s) t).
Proof. intros [Hp _ _ _]. unfold wdt_get_chip_timer, wdt_get_clock. cbn [at_time clock cnt_period_ns setf]. rewrite Hp. apply counter_at. Qed.

Lemma sys_timer_at s t : wdt_ok s ->
  wdt_get_sys_timer (at_time s t) = u32 (wdt_get_sys_timer s + elapsed (clock s) t).
Proof. intros [Hp _ _ _]. unfold wdt_get_sys_timer, wdt_get_clock. cbn [at_time clock cnt_period_ns setf]. rewrite Hp. apply counter_at. Qed.

Lemma elapsed_before t0 t e : t0 <= t -> t <= t0 + e * 41 - 41 -> 0 <= elapsed t0 t <= e - 1.
Proof.
  intros H1 H2. unfold elapsed. pose proof (Z.div_le_mono t0 t 41 ltac:(lia) H1).
  assert (t / 41 <= (t0 + (e - 1) * 41) / 41) as H3 by (apply Z.div_le_mono; lia). rewrite Z.div_add in H3 by lia. lia.
Qed.

Lemma elapsed_exact t0 e : elapsed t0 (t0 + e * 41) = e.
Proof. unfold elapsed. rewrite Z.div_add by lia. lia. Qed.

Lemma elapsed_after t0 t e : t0 + e * 41 <= t -> e <= elapsed t0 t.
Proof.
  intros H. unfold elapsed. assert ((t0 + e * 41) / 41 <= t / 41) as H3 by (apply Z.div_le_mono; lia).
  rewrite Z.div_add in H3 by lia. lia.
Qed.

Lemma bites_at s t : wdt_ok s -> bites (at_time s t) <->
  chip_reset_on s = true /\ chip_reset_counter s <= u32 (wdt_get_chip_timer s + elapsed (clock s) t) \/
  sys_reset_on s = true /\ sys_reset_counter s <= u32 (wdt_get_sys_timer s + elapsed (clock s) t).
Proof. intros Hs. unfold bites. by rewrite chip_timer_at, sys_timer_at. Qed.

Lemma irq_due_at s t : wdt_ok s -> irq_due (at_time s t) <->
  chip_irq_on s = true /\ chip_interrupt_counter s <= u32 (wdt_get_chip_timer s + elapsed (clock s) t).
Proof. intros Hs. unfold irq_due. by rewrite chip_timer_at. Qed.

Lemma counter_widths s : wdt_ok s -> chip_reset_counter s < 2 ^ 32 /\ sys_reset_counter s < 2 ^ 32 /\
  chip_interrupt_counter s < 2 ^ 32 /\ 0 <= wdt_get_chip_timer s < 2 ^ 32 /\ 0 <= wdt_get_sys_timer s < 2 ^ 32.
Proof.
  intros Hs. pose proof (timer_width s) as [? ?].
  split; [apply (word_width s 1 Hs)|]. split; [apply (word_width s 5 Hs)|]. split; [apply (word_width s 2 Hs)|]. done.
Qed.

(** where the timer is set.  As long as the watchdog does not bite, the
    callback arms the timer at least one and at most 2^32 - 1 ticks ahead; up to
    one tick before the deadline no enabled reset counter has been reached and
    no interrupt has become due, and at the deadline one has, unless the
    deadline is the longest there is. *)
Theorem wdt_deadline_bounds s : wdt_ok s -> ~ bites s ->
  exists deadline, timer (wdt_update s) = Some deadline /\
    clock s + 41 <= deadline <= clock s + 0xffffffff * 41 /\
    (forall t, clock s <= t -> t <= deadline - 41 ->
       ~ bites (at_time s t) /\ (irq_due (at_time s t) -> irq_due s)) /\
    (deadline = clock s + 0xffffffff * 41 \/ bites (at_time s deadline) \/ irq_due (at_time s deadline)).
Proof.
  intros Hs Hb. destruct (update_cases s Hs) as [[? _]|(_ & s' & e & -> & Hcfg & He & H1 & H2 & H3 & H4)]; [done|].
  exists (clock s + e * 41). split; [done|]. split; [lia|].
  destruct (counter_widths s Hs) as (R1 & R2 & R3 & Wc & Wy). split.
  - intros t Ht1 Ht2. pose proof (elapsed_before (clock s) t e Ht1 ltac:(lia)) as Hel.
    rewrite bites_at, irq_due_at by done. split.
    + intros [[E H]|[E H]]; [apply H1 in E|apply H2 in E]; rewrite wrap_small in H by (unfold in_width; lia); lia.
    + intros [E H]. destruct (H3 E) as [?|H5]; [done|]. rewrite wrap_small in H by (unfold in_width; lia). lia.
  - rewrite bites_at, irq_due_at, elapsed_exact by done.
    destruct H4 as [->|[[E ->]|[[E ->]|[E ->]]]]; [by left|right; left; left|right; left; right|right; right];
      (split; [exact E|]); rewrite wrap_small by (unfold in_width; lia); lia.
Qed.

Definition example_wdt : AppleWDTState :=
  mkWdt false None 41 WDOG_CNTFRQ_HZ ([0; 1000; 500; 5] ++ replicate 13 0) 4100 0.

Lemma example_wdt_ok : wdt_ok example_wdt.
Proof. split; [done|done| |done]. by repeat apply Forall_cons_2. Qed.

Lemma wdt_deadline_bounds_witness : exists deadline, timer (wdt_update example_wdt) = Some deadline /\
  clock example_wdt + 41 <= deadline <= clock example_wdt + 0xffffffff * 41.
Proof.
  destruct (wdt_deadline_bounds example_wdt example_wdt_ok) as (d & H1 & H2 & _).
  - intros [[_ H]|[H _]]; vm_compute in H; [by apply H|discriminate].
  - exact (ex_intro _ d (conj H1 H2)).
Defined.

(** ** The watchdog bites *)

(** The state the callback leaves: the timer is set for one of the counters. *)
Record armed (s : AppleWDTState) (e : Z) : Prop := {
  ar_ok : wdt_ok s;
  ar_timer : timer s = Some (clock s + e * 41);
  ar_pos : 0 < e <= 0xffffffff;
  ar_chip : chip_reset_on s = true -> e <= chip_reset_counter s - wdt_get_chip_timer s;
  ar_exact : e = 0xffffffff \/ chip_reset_on s = true /\ e = chip_reset_counter s - wdt_get_chip_timer s \/
     sys_reset_on s = true /\ e = sys_reset_counter s - wdt_get_sys_timer s \/
     chip_irq_on s = true /\ e = chip_interrupt_counter s - wdt_get_chip_timer s;
}.

(** The guest's settings and the counters they define are those of [s] later. *)
Record follows (s s' : AppleWDTState) : Prop := {
  fo_chip : wdt_get_chip_timer s' = wdt_get_chip_timer (at_time s (clock s'));
  fo_sys : wdt_get_sys_timer s' = wdt_get_sys_timer (at_time s (clock s'));
  fo_reset : chip_reset_on s' = chip_reset_on s;
  fo_sreset : sys_reset_on s' = sys_reset_on s;
  fo_irq : chip_irq_on s' = chip_irq_on s;
  fo_counters : chip_reset_counter s' = chip_reset_counter s /\ sys_reset_counter s' = sys_reset_counter s /\
    chip_interrupt_counter s' = chip_interrupt_counter s;
  fo_actions : actions s' = actions s;
}.

Lemma fire_cases s t d : wdt_ok s -> timer s = Some d -> d <= t -> 0 <= t ->
  bites (at_time s t) /\ actions (wdt_run_to s t) = S (actions s) /\ timer (wdt_run_to s t) = None \/
  ~ bites (at_time s t) /\ exists e, armed (wdt_run_to s t) e /\ follows s (wdt_run_to s t) /\ clock (wdt_run_to s t) = t.
Proof.
  intros Hs Ht Hd H0. unfold wdt_run_to. cbv zeta. cbn [timer setf]. rewrite Ht, (proj2 (Z.leb_le _ _)) by done.
  set (u := s <| clock := t |> <| timer := None |>).
  assert (wdt_ok u) as Hu by (destruct Hs; by split).
  destruct (update_cases u Hu) as [[Hb ->]|(Hb & s' & e & -> & [Ho Hw Hr Hi Hc Ha] & He & H1 & H2 & H3 & H4)]; [by left|].
  right. split; [exact Hb|]. exists e. set (s1 := s' <| timer := _ |>).
  assert (wdt_get_chip_timer s1 = wdt_get_chip_timer u) as Ec.
  { unfold wdt_get_chip_timer, wdt_get_clock, chip_timer. change (clock s1) with (clock s'). change (cnt_period_ns s1) with (cnt_period_ns s').
    change (word s1 0) with (word s' 0). rewrite Hc, Hw, (wo_period _ Ho), (wo_period _ Hu) by done. done. }
  assert (wdt_get_sys_timer s1 = wdt_get_sys_timer u) as Ey.
  { unfold wdt_get_sys_timer, wdt_get_clock, sys_timer. change (clock s1) with (clock s'). change (cnt_period_ns s1) with (cnt_period_ns s').
    change (word s1 4) with (word s' 4). rewrite Hc, Hw, (wo_period _ Ho), (wo_period _ Hu) by done. done. }
  assert (chip_reset_counter s1 = chip_reset_counter u /\ sys_reset_counter s1 = sys_reset_counter u /\
    chip_interrupt_counter s1 = chip_interrupt_counter u /\ sys_reset_on s1 = sys_reset_on u) as (Q1 & Q2 & Q3 & Q4).
  { unfold sys_reset_on. split_and!; try by apply Hw. f_equal. by apply (Hw 7%nat). }
  assert (chip_reset_on s1 = chip_reset_on u) as Q5 by exact Hr. assert (chip_irq_on s1 = chip_irq_on u) as Q6 by exact Hi.
  split; [|split; [|exact Hc]].
  - split; rewrite ?Ec, ?Ey, ?Q1, ?Q2, ?Q3, ?Q4, ?Q5, ?Q6; try done; [by destruct Ho|]. change (clock s1) with (clock s'). by rewrite Hc.
  - assert (at_time s (clock s1) = at_time s t) as E by (f_equal; exact Hc). split; rewrite ?E; try done.
Qed.

(** The timer runs: the watchdog bites or the interrupt has become due. *)
Lemma armed_fires s e t : armed s e -> chip_reset_on s = true -> clock s + e * 41 <= t ->
  wdt_get_chip_timer s + elapsed (clock s) t < 2 ^ 32 ->
  (sys_reset_on s = true -> wdt_get_sys_timer s + elapsed (clock s) t < 2 ^ 32) ->
  bites (at_time s t) \/ wdt_get_chip_timer s < chip_interrupt_counter s <= wdt_get_chip_timer (at_time s t).
Proof.
  intros [Hs Ht Hp Hc Hx] Hon Hd Hw Hy. destruct (counter_widths s Hs) as (R1 & R2 & R3 & Wc & Wy).
  pose proof (elapsed_after (clock s) t e Hd) as Hel. rewrite bites_at, chip_timer_at by done.
  specialize (Hc Hon). rewrite (wrap_small 32 (wdt_get_chip_timer s + _)) by (unfold in_width; lia).
  destruct Hx as [->|[[E ->]|[[E ->]|[E ->]]]]; [left; left; split; [done|lia]..| |].
  - left. right. split; [done|]. specialize (Hy E). rewrite wrap_small by (unfold in_width; lia). lia.
  - right. lia.
Qed.

Lemma elapsed_trans t0 t1 t2 : elapsed t0 t2 = elapsed t0 t1 + elapsed t1 t2.
Proof. unfold elapsed. lia. Qed.

Lemma elapsed_mono t0 t1 : t0 <= t1 -> 0 <= elapsed t0 t1.
Proof. intros H. unfold elapsed. pose proof (Z.div_le_mono t0 t1 41 ltac:(lia) H). lia. Qed.

(** A counter that does not wrap before [t2] is the one of [s] and the ticks
    since. *)
Lemma follows_chip s s' t2 : wdt_ok s -> follows s s' -> clock s <= clock s' <= t2 ->
  wdt_get_chip_timer s + elapsed (clock s) t2 < 2 ^ 32 ->
  wdt_get_chip_timer s' + elapsed (clock s') t2 < 2 ^ 32.
Proof.
  intros Hs [Hc _ _ _ _ _ _] Ht Hw. destruct (counter_widths s Hs) as (_ & _ & _ & Wc & _).
  pose proof (elapsed_mono _ _ (proj1 Ht)). pose proof (elapsed_mono _ _ (proj2 Ht)).
  rewrite (elapsed_trans (clock s) (clock s') t2) in Hw.
  rewrite Hc, chip_timer_at, wrap_small by (done || (unfold in_width; lia)). lia.
Qed.

Lemma follows_sys s s' t2 : wdt_ok s -> follows s s' -> clock s <= clock s' <= t2 ->
  wdt_get_sys_timer s + elapsed (clock s) t2 < 2 ^ 32 ->
  wdt_get_sys_timer s' + elapsed (clock s') t2 < 2 ^ 32.
Proof.
  intros Hs [_ Hc _ _ _ _ _] Ht Hw. destruct (counter_widths s Hs) as (_ & _ & _ & _ & Wc).
  pose proof (elapsed_mono _ _ (proj1 Ht)). pose proof (elapsed_mono _ _ (proj2 Ht)).
  rewrite (elapsed_trans (clock s) (clock s') t2) in Hw.
  rewrite Hc, sys_timer_at, wrap_small by (done || (unfold in_width; lia)). lia.
Qed.

Lemma run_to_idle s t : timer s = None -> actions (wdt_run_to s t) = actions s /\ timer (wdt_run_to s t) = None.
Proof. intros H. unfold wdt_run_to. cbv zeta. cbn [timer setf]. by rewrite H. Qed.

(** The environment lets the clock pass the deadline of the timer. *)
Definition due (s : AppleWDTState) (t : Z) : Prop := forall d, timer s = Some d -> d <= t.

(** The settings and the margins of the counters carry over to the state behind
    a run that did not bite. *)
Record margins (s : AppleWDTState) (t : Z) : Prop := {
  ma_on : chip_reset_on s = true;
  ma_chip : wdt_get_chip_timer s + elapsed (clock s) t < 2 ^ 32;
  ma_sys : sys_reset_on s = true -> wdt_get_sys_timer s + elapsed (clock s) t < 2 ^ 32;
}.

Lemma margins_follow s s' t : wdt_ok s -> follows s s' -> clock s <= clock s' <= t -> margins s t -> margins s' t.
Proof.
  intros Hs Hf Ht [H1 H2 H3]. split.
  - by rewrite (fo_reset _ _ Hf).
  - by eapply follows_chip.
  - rewrite (fo_sreset _ _ Hf). intros E. eapply follows_sys; eauto.
Qed.

Lemma margins_earlier s t t' : t <= t' -> margins s t' -> margins s t.
Proof.
  intros H [H1 H2 H3]. pose proof (elapsed_mono t t' H). pose proof (elapsed_trans (clock s) t t').
  split; [done|lia|]. intros E. specialize (H3 E). lia.
Qed.

(** A run of an armed timer that does not bite is the one of the interrupt. *)
Lemma armed_run s e t : armed s e -> margins s t -> clock s <= t -> due s t ->
  actions (wdt_run_to s t) = S (actions s) /\ timer (wdt_run_to s t) = None \/
  exists e', armed (wdt_run_to s t) e' /\ follows s (wdt_run_to s t) /\ clock (wdt_run_to s t) = t /\
    wdt_get_chip_timer s < chip_interrupt_counter s <= wdt_get_chip_timer (wdt_run_to s t).
Proof.
  intros Ha [M1 M2 M3] Ht Hd. pose proof Ha as [Ho Htm _ _ _]. pose proof (wo_clock _ Ho).
  destruct (fire_cases s t _ Ho Htm (Hd _ Htm) ltac:(lia)) as [(_ & A & N)|(Hb & e' & Ha' & F & C)]; [by left|].
  right. exists e'. do 3 (split; [done|]). rewrite (fo_chip _ _ F), C.
  destruct (armed_fires s e t Ha M1 (Hd _ Htm) M2 M3) as [?|?]; done.
Qed.



Lemma counter_written a b x : u32 (u32 a - u32 (u32 b - u32 x)) = u32 (x + (a - b)).
Proof.
  unfold wrap. set (m := 2 ^ 32). rewrite Zminus_mod_idemp_r, Zminus_mod_idemp_l.
  replace (a - (b mod m - x mod m)) with ((a + x mod m) - b mod m) by lia. rewrite Zminus_mod_idemp_r.
  replace (a + x mod m - b) with ((a - b) + x mod m) by lia. rewrite Zplus_mod_idemp_r. f_equal. lia.
Qed.

(** The chip counter a guest has written counts up from what it wrote, one
    for each tick of the clock. *)
Lemma wdt_timer_counts s x t : wdt_ok s ->
  exists s', wdt_reg_write s REG_CHIP_WDOG_TMR x = Done s' /\
    wdt_reg_read (at_time s' t) REG_CHIP_WDOG_TMR = Done (u32 (x + elapsed (clock s) t)).
Proof.
  intros [H1 H2 H3 H4]. unfold wdt_reg_write. cbv zeta. change (REG_SIZE <=? REG_CHIP_WDOG_TMR) with false.
  rewrite Z.eqb_refl. cbv iota. unfold wdt_get_clock at 1. rewrite H1. change (REG_CHIP_WDOG_TMR .>> 2) with 0.
  rewrite aset_in_range by (unfold zlen; lia). run. eexists. split; [done|]. unfold wdt_reg_read.
  change (REG_SIZE <=? REG_CHIP_WDOG_TMR) with false. change (REG_CHIP_WDOG_TMR .>> 2) with 0. cbv iota.
  cbn [at_time raw setf]. 
  destruct (aget_in_range (<[Z.to_nat 0 := u32 (u32 (clock s / 41) - u32 x)]> (raw s)) 0) as [v ->];
    [rewrite zlen_insert; unfold zlen; lia|]. run.
  rewrite Z.eqb_refl. unfold wdt_get_chip_timer, wdt_get_clock, chip_timer, word. cbn [at_time raw setf clock cnt_period_ns].
  rewrite (list_lookup_insert_eq (raw s) 0) by lia. rewrite H1. unfold mret, outcome_ret. f_equal. apply counter_written.
Qed.

(** A reset leaves the interrupt line as it is. *)
Lemma wdt_reset_keeps_line s : irq0 (apple_wdt_reset s) = irq0 s.
Proof. done. Qed.
