(* ===== verification/Spmi.v ===== *)
(** * The SPMI bus, its controller and its devices

    Models of [hw/spmi/core.c], [hw/spmi/apple_spmi.c],
    [hw/misc/apple-silicon/spmi-pmu.c] and
    [hw/misc/apple-silicon/spmi-baseband.c]: requests a guest queues are sent to
    the addressed device and answered in a response queue whose interrupt is
    wired back to the controller. *)

From S2P Require Import Prelude Fifo8.

(** ** Devices on the bus *)

Definition SPMI_CMD_EXT_WRITE : Z := 0x00.
Definition SPMI_CMD_EXT_READ : Z := 0x20.
Definition SPMI_CMD_EXT_WRITEL : Z := 0x30.
Definition SPMI_CMD_EXT_READL : Z := 0x38.

(** The callbacks of a device with state [T]; [send] is given the buffer and the
    number of bytes in it to send, [recv] the buffer to fill. *)
Class SPMISlaveClass (T : Type) := {
  sp_send : option (T -> list Z -> Z -> outcome (Z * T));
  sp_recv : option (T -> list Z -> Z -> outcome (Z * list Z * T));
  sp_command : option (T -> Z -> Z -> outcome (Z * T));
  sp_finish : option (T -> outcome T);
}.

Record SPMISlave := mkSpmiSlave {
  sp_type : Type;
  sp_class : SPMISlaveClass sp_type;
  sid : Z;
  sp_state : sp_type;
}.

Definition call_command (s : SPMISlave) (opcode addr : Z) : outcome (Z * SPMISlave) :=
  match s with
  | mkSpmiSlave T c i st =>
      match @sp_command T c with
      | Some f => r ← f st opcode addr; mret (fst r, mkSpmiSlave T c i (snd r))
      | None => mret (0, s)
      end
  end.

Definition call_finish (s : SPMISlave) : outcome SPMISlave :=
  match s with
  | mkSpmiSlave T c i st =>
      match @sp_finish T c with Some f => st ← f st; mret (mkSpmiSlave T c i st) | None => mret s end
  end.

Definition call_send (s : SPMISlave) (data : list Z) (len : Z) : outcome (Z * SPMISlave) :=
  match s with
  | mkSpmiSlave T c i st =>
      match @sp_send T c with
      | Some f => r ← f st data len; mret (fst r, mkSpmiSlave T c i (snd r))
      | None => mret (-1, s)
      end
  end.

Definition call_recv (s : SPMISlave) (data : list Z) (len : Z) : outcome (Z * list Z * SPMISlave) :=
  match s with
  | mkSpmiSlave T c i st =>
      match @sp_recv T c with
      | Some f => r ← f st data len; mret (fst r, mkSpmiSlave T c i (snd r))
      | None => mret (-1, data, s)
      end
  end.

(** ** The bus *)

Record SPMIBus := mkSpmiBus {
  spmi_children : list SPMISlave;
  current_dev : option nat;
}.
#[global] Instance eta_SPMIBus : Eta SPMIBus := fun b => mkSpmiBus (spmi_children b) (current_dev b).

Definition spmi_child (bus : SPMIBus) (i : nat) : outcome SPMISlave :=
  match spmi_children bus !! i with Some s => Done s | None => Oob end.

Definition set_spmi_child (bus : SPMIBus) (i : nat) (s : SPMISlave) : SPMIBus :=
  bus <| spmi_children ::= <[i := s]> |>.

(** The loop has no [break]: the last device with the identifier is taken. *)
Fixpoint spmi_scan (kids : list SPMISlave) (i : nat) (id : Z) (cur : option nat) : option nat :=
  match kids with
  | [] => cur
  | k :: kids' => spmi_scan kids' (S i) id (if sid k =? id then Some i else cur)
  end.

Definition spmi_end_transfer (bus : SPMIBus) : outcome SPMIBus :=
  match current_dev bus with
  | Some i =>
      s ← spmi_child bus i;
      s ← call_finish s;
      mret (set_spmi_child bus i s)
  | None => mret bus
  end.

Definition spmi_start_transfer (bus : SPMIBus) (id opcode addr : Z) : outcome (Z * SPMIBus) :=
  let scanned := match current_dev bus with None => true | Some _ => false end in
  let bus := if scanned then bus <| current_dev := spmi_scan (spmi_children bus) 0 id None |> else bus in
  match current_dev bus with
  | None => mret (1, bus)
  | Some i =>
      s ← spmi_child bus i;
      r ← call_command s opcode addr;
      let bus := set_spmi_child bus i (snd r) in
      if nonzero (fst r) then
        bus ← (if scanned then spmi_end_transfer bus else mret bus);
        mret (fst r, bus)
      else mret (0, bus)
  end.

Definition spmi_send (bus : SPMIBus) (data : list Z) (len : Z) : outcome (Z * SPMIBus) :=
  match current_dev bus with
  | Some i =>
      s ← spmi_child bus i;
      r ← call_send s data len;
      mret (fst r, set_spmi_child bus i (snd r))
  | None => mret (0, bus)
  end.

Definition spmi_recv (bus : SPMIBus) (data : list Z) (len : Z) : outcome (Z * list Z * SPMIBus) :=
  match current_dev bus with
  | Some i =>
      s ← spmi_child bus i;
      '(r, s) ← call_recv s data len;
      mret (r, set_spmi_child bus i s)
  | None => mret (0, data, bus)
  end.

(** ** The controller *)

Definition SPMI_QUEUE_DEPTH : Z := 0x100.
Definition SPMI_CONTROL_QUEUE_RESET : Z := 0x14.
Definition SPMI_CONTROL_QUEUE_RESET_REQ : Z := BIT 0.
Definition SPMI_CONTROL_QUEUE_RESET_RSP : Z := BIT 1.
Definition SPMI_QUEUE_STATUS : Z := 0x0.
Definition SPMI_QUEUE_STATUS_REQ_EMPTY : Z := BIT 8.
Definition SPMI_QUEUE_STATUS_RSP_EMPTY : Z := BIT 24.
Definition SPMI_REQ_QUEUE_PUSH : Z := 0x4.
Definition SPMI_REQ_ADDR_SHIFT : Z := 16.
Definition SPMI_REQ_SID (x : Z) : Z := (x .>> 8) .& 0xf.
Definition SPMI_REQ_FINAL : Z := BIT 15.
Definition SPMI_RSP_QUEUE_POP : Z := 0x8.
Definition SPMI_RSP_ACK_SHIFT : Z := 16.
Definition SPMI_NUM_IRQ_BANK : Z := 9.
Definition SPMI_INT_STATUS_V0 (b : Z) : Z := 0x40 + b * 4.
Definition SPMI_INT_STATUS_V1 (b : Z) : Z := 0x60 + b * 4.
Definition SPMI_INT_ENAB (b : Z) : Z := 0x20 + b * 4.
Definition SPMI_RESP_IRQ : Z := 0xc0.

Definition spmi_opcode (req : Z) : Z := if (req .>> 4) .& 0xf =? 1 then req .& 0xff else req .& 0xf8.
Definition spmi_data_length (req : Z) : Z := if (req .>> 4) .& 0xf =? 1 then 0 else (req .& 0x7) + 1.

Definition is_ext (opc : Z) : bool :=
  (opc =? SPMI_CMD_EXT_WRITE) || (opc =? SPMI_CMD_EXT_READ) || (opc =? SPMI_CMD_EXT_WRITEL) || (opc =? SPMI_CMD_EXT_READL).

Definition spmi_address (req : Z) : Z :=
  if is_ext (spmi_opcode req) then (req .>> SPMI_REQ_ADDR_SHIFT) .& 0xffff
  else (req .>> SPMI_REQ_ADDR_SHIFT) .& 0xff.

(** [data] is the words of a write still to be completed, or null. *)
Record AppleSPMIState := mkSpmi {
  sbus : SPMIBus;
  sirq : bool;
  resp_fifo : Fifo8;
  control_reg : list Z;
  queue_reg : list Z;
  fault_reg : list Z;
  fault_counter_reg : list Z;
  resp_intr_index : Z;
  reg_vers : Z;
  sdata : option (list Z);
  data_length : Z;
  data_filled : Z;
  scommand : Z;
}.
#[global] Instance eta_AppleSPMIState : Eta AppleSPMIState := fun s =>
  mkSpmi (sbus s) (sirq s) (resp_fifo s) (control_reg s) (queue_reg s) (fault_reg s) (fault_counter_reg s)
    (resp_intr_index s) (reg_vers s) (sdata s) (data_length s) (data_filled s) (scommand s).

(** The register that holds the status of a bank in this version. *)
Definition int_status (s : AppleSPMIState) (b : Z) : outcome Z :=
  if reg_vers s =? 0 then mret (SPMI_INT_STATUS_V0 b .>> 2)
  else if reg_vers s =? 1 then mret (SPMI_INT_STATUS_V1 b .>> 2)
  else Abort.

Fixpoint irq_banks (s : AppleSPMIState) (n : nat) (i : Z) : outcome bool :=
  match n with
  | O => mret false
  | S n' =>
      k ← int_status s i;
      status ← aget (queue_reg s) k;
      enab ← aget (queue_reg s) (SPMI_INT_ENAB i .>> 2);
      if nonzero (status .& enab) then mret true else irq_banks s n' (i + 1)
  end.

Definition apple_spmi_update_irq (s : AppleSPMIState) : outcome AppleSPMIState :=
  level ← irq_banks s (Z.to_nat SPMI_NUM_IRQ_BANK) 0;
  mret (s <| sirq := level |>).

Definition apple_spmi_set_irq (s : AppleSPMIState) (irq : Z) (level : bool) : outcome AppleSPMIState :=
  k ← int_status s (irq .>> 5);
  status ← aget (queue_reg s) k;
  q ← aset (queue_reg s) k (if level then status .| BIT (irq .& 31) else status .&~ BIT (irq .& 31));
  apple_spmi_update_irq (s <| queue_reg := q |>).

(** The response interrupt is wired to an input of the controller. *)
Definition apple_spmi_update_queues_status (s : AppleSPMIState) : outcome AppleSPMIState :=
  apple_spmi_set_irq s (resp_intr_index s) (negb (fifo8_is_empty (resp_fifo s))).

(** The bytes of the words of a buffer, and back. *)
Definition words_bytes (ws : list Z) : list Z := concat (map (le_split 4) ws).
Fixpoint bytes_words (n : nat) (bs : list Z) : list Z :=
  match n with
  | O => []
  | S n' => le_combine (take 4 bs) :: bytes_words n' (drop 4 bs)
  end.

(** The first word of a request; the flags are those of the interrupt and queue
    updates, [None] is the early return. *)
Definition push_request (s : AppleSPMIState) (value : Z) : outcome (AppleSPMIState * option (Z * bool)) :=
  let opc := u8 (spmi_opcode value) in
  let addr2 := spmi_address value in
  let parity := negb (nonzero (value .& SPMI_REQ_FINAL)) in
  let len := spmi_data_length value in
  let s := s <| scommand := value |> in
  let s := if (opc =? SPMI_CMD_EXT_WRITE) || (opc =? SPMI_CMD_EXT_WRITEL) then
             s <| data_length := (len + 3) / 4 |> <| data_filled := 0 |>
               <| sdata := Some (replicate (Z.to_nat ((len + 3) / 4)) 0) |>
           else s in
  '(rv, b) ← spmi_start_transfer (sbus s) (SPMI_REQ_SID value) opc addr2;
  let s := s <| sbus := b |> in
  if nonzero rv then mret (s, None)
  else
    let idle := match sdata s with None => true | Some _ => false end in
    '(s, value) ←
      (if idle && nonzero len then
         c_assert ((opc =? SPMI_CMD_EXT_READ) || (opc =? SPMI_CMD_EXT_READL));;
         '(count, data2, b) ← spmi_recv (sbus s) (replicate (Z.to_nat (len + 3)) 0) len;
         let value := value .& 0xFFF in
         let ack := if 0 <? count then u8 (Z.ones count) else 0 in
         let value := value .| (ack .<< SPMI_RSP_ACK_SHIFT) in
         f ← fifo32_push (resp_fifo s) value;
         f ← fifo32_push_all f (bytes_words (Z.to_nat ((len + 3) / 4)) data2);
         mret (s <| sbus := b |> <| resp_fifo := f |>, value)
       else mret (s, value));
    if idle && negb parity then
      b ← spmi_end_transfer (sbus s);
      mret (s <| sbus := b |>, Some (value, true))
    else mret (s, Some (value, false)).

(** A word of data of a write. *)
Definition push_data (s : AppleSPMIState) (d : list Z) (value : Z) : outcome (AppleSPMIState * bool) :=
  d ← aset d (data_filled s) value;
  let s := s <| sdata := Some d |> <| data_filled := u32 (data_filled s + 1) |> in
  if data_length s <=? data_filled s then
    let requested_len := spmi_data_length (scommand s) in
    '(count, b) ← spmi_send (sbus s) (words_bytes d) requested_len;
    f ← fifo32_push (resp_fifo s)
          ((scommand s .& 0xFFF) .| (if u32 count =? requested_len then BIT 15 else 0));
    let s := s <| sbus := b |> <| resp_fifo := f |> <| sdata := None |> <| data_length := 0 |> in
    if nonzero (scommand s .& SPMI_REQ_FINAL) then
      b ← spmi_end_transfer (sbus s);
      mret (s <| sbus := b |>, true)
    else mret (s, false)
  else mret (s, false).

(** The end of a write: the register, then the queue and the interrupts. *)
Definition queue_store (s : AppleSPMIState) (addr value : Z) (qflg iflg : bool) : outcome AppleSPMIState :=
  q ← aset (queue_reg s) (addr .>> 2) value;
  let s := s <| queue_reg := q |> in
  s ← (if qflg then apple_spmi_update_queues_status s else mret s);
  if iflg then apple_spmi_update_irq s else mret s.

Definition apple_spmi_queue_reg_write (s : AppleSPMIState) (addr data : Z) : outcome AppleSPMIState :=
  let value := u32 data in
  if addr =? SPMI_REQ_QUEUE_PUSH then
    match sdata s with
    | None =>
        '(s, r) ← push_request s value;
        match r with
        | None => mret s
        | Some (value, flg) => queue_store s addr value flg flg
        end
    | Some d =>
        '(s, flg) ← push_data s d value;
        queue_store s addr value flg flg
    end
  else if (SPMI_INT_ENAB 0 <=? addr) && (addr <=? SPMI_INT_ENAB (SPMI_NUM_IRQ_BANK - 1)) then
    queue_store s addr value false true
  else if (SPMI_INT_STATUS_V1 0 <=? addr) && (addr <=? SPMI_INT_STATUS_V1 (SPMI_NUM_IRQ_BANK - 1)) then
    old ← aget (queue_reg s) (addr .>> 2);
    queue_store s addr (old .&~ value) false true
  else queue_store s addr value false false.

Definition apple_spmi_queue_reg_read (s : AppleSPMIState) (addr : Z) : outcome (Z * AppleSPMIState) :=
  value ← aget (queue_reg s) (addr .>> 2);
  if addr =? SPMI_RSP_QUEUE_POP then
    '(value, s) ← (if fifo8_is_empty (resp_fifo s) then mret (0, s)
                   else r ← fifo32_pop (resp_fifo s); mret (fst r, s <| resp_fifo := snd r |>));
    s ← apple_spmi_update_queues_status s;
    s ← apple_spmi_update_irq s;
    mret (value, s)
  else if addr =? SPMI_QUEUE_STATUS then
    let value := (value .&~ (SPMI_QUEUE_STATUS_REQ_EMPTY .| SPMI_QUEUE_STATUS_RSP_EMPTY)) .| SPMI_QUEUE_STATUS_REQ_EMPTY in
    mret (if fifo8_is_empty (resp_fifo s) then value .| SPMI_QUEUE_STATUS_RSP_EMPTY else value, s)
  else mret (value, s).

Definition apple_spmi_control_read (s : AppleSPMIState) (addr : Z) : outcome Z := aget (control_reg s) (addr .>> 2).

Definition apple_spmi_control_write (s : AppleSPMIState) (addr data : Z) : outcome AppleSPMIState :=
  let value := u32 data in
  if addr =? SPMI_CONTROL_QUEUE_RESET then
    let '(s, value) :=
      if nonzero (value .& SPMI_CONTROL_QUEUE_RESET_RSP) then
        (s <| resp_fifo := fifo8_reset (resp_fifo s) |>, value .&~ SPMI_CONTROL_QUEUE_RESET_RSP)
      else (s, value) in
    c ← aset (control_reg s) (addr .>> 2) (value .&~ SPMI_CONTROL_QUEUE_RESET_REQ);
    apple_spmi_update_queues_status (s <| control_reg := c |>)
  else
    c ← aset (control_reg s) (addr .>> 2) value;
    mret (s <| control_reg := c |>).

Definition apple_spmi_fault_read (s : AppleSPMIState) (addr : Z) : outcome Z :=
  value ← aget (fault_reg s) (addr .>> 2);
  mret (if addr =? SPMI_QUEUE_STATUS then
          (value .&~ (SPMI_QUEUE_STATUS_REQ_EMPTY .| SPMI_QUEUE_STATUS_RSP_EMPTY))
            .| SPMI_QUEUE_STATUS_REQ_EMPTY .| SPMI_QUEUE_STATUS_RSP_EMPTY
        else value).

Definition apple_spmi_fault_write (s : AppleSPMIState) (addr data : Z) : outcome AppleSPMIState :=
  f ← aset (fault_reg s) (addr .>> 2) (u32 data);
  mret (s <| fault_reg := f |>).

Definition apple_spmi_reset_enter (s : AppleSPMIState) : AppleSPMIState :=
  s <| control_reg := replicate 64 0 |> <| queue_reg := replicate 64 0 |> <| fault_reg := replicate 64 0 |>
    <| fault_counter_reg := replicate 25 0 |> <| resp_fifo := fifo8_reset (resp_fifo s) |>
    <| sdata := None |> <| data_length := 0 |>.

Definition apple_spmi_reset_exit (s : AppleSPMIState) : outcome AppleSPMIState :=
  s ← apple_spmi_update_queues_status s;
  apple_spmi_update_irq s.

(** The controller with the devices the machine puts on its bus. *)
Definition apple_spmi_init (kids : list SPMISlave) (intr : Z) : AppleSPMIState :=
  mkSpmi (mkSpmiBus kids None) false (fifo32_create SPMI_QUEUE_DEPTH) (replicate 64 0) (replicate 64 0) (replicate 64 0)
    (replicate 25 0) intr 1 None 0 0 0.

(** The copying loop the devices' [recv] share: [regs] is the register array of
    [size] bytes, [base] the address the transfer starts at, [a] the 16-bit
    counter. *)
Fixpoint recv_loop (fuel : nat) (size : Z) (regs : gmap Z Z) (base a stop : Z) (data : list Z) : outcome (Z * list Z) :=
  match fuel with
  | O => NoFuel
  | S fuel' =>
      if a <? stop then
        x ← mget size regs a;
        data ← aset data (a - base) x;
        recv_loop fuel' size regs base (u16 (a + 1)) stop data
      else mret (a, data)
  end.

(** ** The power management unit *)

Module SpmiPmu.

Definition RTC_TICK_FREQ : Z := 32768.
Definition R_LEG_SCRPAD_OFFSET_SECS : Z := 4.
Definition R_LEG_SCRPAD_OFFSET_TICKS : Z := 21.
Definition R_RTC_CONTROL_ALARM_EN_MASK : Z := BIT 6.
Definition R_RTC_EVENT_ALARM_MASK : Z := BIT 0.
Definition REG_SIZE : Z := 0x10000.

(** The places of the registers come from the device tree.  [clock] is what
    [qemu_clock_get_ns(rtc_clock)] returns, [timer] the deadline of the armed
    timer, [wakeup] says that the machine was asked to wake up. *)
Record AppleSPMIPMUState := mkPmu {
  irq : bool;
  timer : option Z;
  reg_leg_scrpad : Z;
  reg_rtc : Z;
  reg_rtc_irq_mask : Z;
  reg_alarm : Z;
  reg_alarm_ctrl : Z;
  reg_alarm_event : Z;
  reg : gmap Z Z;
  addr : Z;
  clock : Z;
  wakeup : bool;
}.
#[global] Instance eta_AppleSPMIPMUState : Eta AppleSPMIPMUState := fun p =>
  mkPmu (irq p) (timer p) (reg_leg_scrpad p) (reg_rtc p) (reg_rtc_irq_mask p) (reg_alarm p) (reg_alarm_ctrl p)
    (reg_alarm_event p) (reg p) (addr p) (clock p) (wakeup p).

Definition apple_spmi_pmu_get_tick_offset (p : AppleSPMIPMUState) : outcome Z :=
  let secs := u32 (reg_leg_scrpad p + R_LEG_SCRPAD_OFFSET_SECS) in
  let ticks := u32 (reg_leg_scrpad p + R_LEG_SCRPAD_OFFSET_TICKS) in
  s3 ← mget REG_SIZE (reg p) (u32 (secs + 3)); s2 ← mget REG_SIZE (reg p) (u32 (secs + 2));
  s1 ← mget REG_SIZE (reg p) (u32 (secs + 1)); s0 ← mget REG_SIZE (reg p) (u32 (secs + 0));
  t1 ← mget REG_SIZE (reg p) (u32 (ticks + 1)); t0 ← mget REG_SIZE (reg p) (u32 (ticks + 0));
  mret ((s3 .<< 39) .| (s2 .<< 31) .| (s1 .<< 23) .| (s0 .<< 15) .| ((t1 .& 0x7F) .<< 8) .| t0).

Definition apple_spmi_pmu_set_tick_offset (p : AppleSPMIPMUState) (o : Z) : outcome AppleSPMIPMUState :=
  let secs := u32 (reg_leg_scrpad p + R_LEG_SCRPAD_OFFSET_SECS) in
  let ticks := u32 (reg_leg_scrpad p + R_LEG_SCRPAD_OFFSET_TICKS) in
  m ← mset REG_SIZE (reg p) (u32 (secs + 3)) ((o .>> 39) .& 0xFF);
  m ← mset REG_SIZE m (u32 (secs + 2)) ((o .>> 31) .& 0xFF);
  m ← mset REG_SIZE m (u32 (secs + 1)) ((o .>> 23) .& 0xFF);
  m ← mset REG_SIZE m (u32 (secs + 0)) ((o .>> 15) .& 0xFF);
  m ← mset REG_SIZE m (u32 (ticks + 1)) ((o .>> 8) .& 0x7F);
  m ← mset REG_SIZE m (u32 (ticks + 0)) (o .& 0xFF);
  mret (p <| reg := m |>).

(** The tick of a time before the offset is taken off. *)
Definition raw_tick (now : Z) : Z :=
  let secs := now / NANOSECONDS_PER_SECOND in
  let frac_ns := now mod NANOSECONDS_PER_SECOND in
  let frac_ticks := (frac_ns * RTC_TICK_FREQ + NANOSECONDS_PER_SECOND / 2) / NANOSECONDS_PER_SECOND in
  u64 (secs .<< 15) .| (frac_ticks .& 0x7FFF).

Definition apple_rtc_ns_to_tick (p : AppleSPMIPMUState) (now : Z) : outcome Z :=
  o ← apple_spmi_pmu_get_tick_offset p;
  mret (u64 (raw_tick (u64 now) - o)).

Definition apple_rtc_get_current_tick (p : AppleSPMIPMUState) : outcome Z := apple_rtc_ns_to_tick p (clock p).

Definition apple_spmi_pmu_update_irq (p : AppleSPMIPMUState) : outcome AppleSPMIPMUState :=
  m ← mget REG_SIZE (reg p) (reg_rtc_irq_mask p);
  e ← mget REG_SIZE (reg p) (reg_alarm_event p);
  mret (p <| irq := nonzero (m .& e) |>).

Definition apple_spmi_pmu_alarm (p : AppleSPMIPMUState) : outcome AppleSPMIPMUState :=
  e ← mget REG_SIZE (reg p) (reg_alarm_event p);
  m ← mset REG_SIZE (reg p) (reg_alarm_event p) (e .| R_RTC_EVENT_ALARM_MASK);
  p ← apple_spmi_pmu_update_irq (p <| reg := m |>);
  mret (p <| wakeup := true |>).

(** [(int64_t)x] of an unsigned value. *)
Definition s64 (x : Z) : Z := if x <? 2 ^ 63 then x else x - 2 ^ 64.

Definition apple_spmi_pmu_set_alarm (p : AppleSPMIPMUState) : outcome AppleSPMIPMUState :=
  b0 ← mget REG_SIZE (reg p) (reg_alarm p); b1 ← mget REG_SIZE (reg p) (u32 (reg_alarm p + 1));
  b2 ← mget REG_SIZE (reg p) (u32 (reg_alarm p + 2)); b3 ← mget REG_SIZE (reg p) (u32 (reg_alarm p + 3));
  t ← apple_rtc_ns_to_tick p (clock p);
  let seconds := s32 (le_combine [b0; b1; b2; b3]) - s64 (t .>> 15) in
  c ← mget REG_SIZE (reg p) (reg_alarm_ctrl p);
  if nonzero (c .& R_RTC_CONTROL_ALARM_EN_MASK) then
    if seconds <=? 0 then apple_spmi_pmu_alarm (p <| timer := None |>)
    else mret (p <| timer := Some (clock p + seconds * NANOSECONDS_PER_SECOND) |>)
  else mret (p <| timer := None |>).

Definition sets_alarm (p : AppleSPMIPMUState) (a : Z) : bool :=
  (a =? reg_alarm_ctrl p) || ((reg_alarm p <=? a) && (a <? u32 (reg_alarm p + 4))).

(** The loop of [send]: [a] is the 16-bit counter, [stop] the [int] it is
    compared with.  The index into [data] is negative behind a wrap. *)
Fixpoint pmu_send_bytes (fuel : nat) (p : AppleSPMIPMUState) (a stop : Z) (data : list Z) : outcome (Z * AppleSPMIPMUState) :=
  match fuel with
  | O => NoFuel
  | S fuel' =>
      if a <? stop then
        x ← aget data (a - addr p);
        m ← mset REG_SIZE (reg p) a x;
        let p := p <| reg := m |> in
        p ← (if sets_alarm p a then apple_spmi_pmu_set_alarm p else mret p);
        pmu_send_bytes fuel' p (u16 (a + 1)) stop data
      else mret (a, p)
  end.

Definition apple_spmi_pmu_send (p : AppleSPMIPMUState) (data : list Z) (len : Z) : outcome (Z * AppleSPMIPMUState) :=
  '(a, p) ← pmu_send_bytes (S (Z.to_nat len)) p (addr p) (addr p + len) data;
  mret (len, p <| addr := a |>).

Definition latch_clock (p : AppleSPMIPMUState) : outcome AppleSPMIPMUState :=
  now ← apple_rtc_get_current_tick p;
  m ← mset REG_SIZE (reg p) (reg_rtc p) (u64 (now .<< 1) .& 0xFF);
  m ← mset REG_SIZE m (u32 (reg_rtc p + 1)) ((now .>> 7) .& 0xFF);
  m ← mset REG_SIZE m (u32 (reg_rtc p + 2)) ((now .>> 15) .& 0xFF);
  m ← mset REG_SIZE m (u32 (reg_rtc p + 3)) ((now .>> 23) .& 0xFF);
  m ← mset REG_SIZE m (u32 (reg_rtc p + 4)) ((now .>> 31) .& 0xFF);
  m ← mset REG_SIZE m (u32 (reg_rtc p + 5)) ((now .>> 39) .& 0xFF);
  mret (p <| reg := m |>).

Definition apple_spmi_pmu_recv (p : AppleSPMIPMUState) (data : list Z) (len : Z)
    : outcome (Z * list Z * AppleSPMIPMUState) :=
  let end_addr := u16 (addr p + len) in
  p ← (if (reg_rtc p <? end_addr) && (addr p <? u32 (reg_rtc p + 6)) then latch_clock p else mret p);
  '(a, data) ← recv_loop (S (Z.to_nat len)) REG_SIZE (reg p) (addr p) (addr p) end_addr data;
  mret (len, data, p <| addr := a |>).

Definition apple_spmi_pmu_command (p : AppleSPMIPMUState) (opcode a : Z) : outcome (Z * AppleSPMIPMUState) :=
  mret (if is_ext opcode then 0 else 1, p <| addr := a |>).

(** The places are those of the node's properties; the offset is set so that the
    clock starts now. *)
Definition apple_spmi_pmu_from_node (rtc alarm alarm_ctrl alarm_event irq_mask leg_scrpad now : Z)
    : outcome AppleSPMIPMUState :=
  let p := mkPmu false None leg_scrpad rtc irq_mask alarm alarm_ctrl alarm_event ∅ 0 now false in
  t ← apple_rtc_get_current_tick p;
  apple_spmi_pmu_set_tick_offset p t.

#[global] Instance spmi_pmu_class : SPMISlaveClass AppleSPMIPMUState :=
  {| sp_send := Some apple_spmi_pmu_send; sp_recv := Some apple_spmi_pmu_recv;
     sp_command := Some apple_spmi_pmu_command; sp_finish := None |}.

End SpmiPmu.

(** ** The baseband's device *)

Module SpmiBaseband.

Definition BB_REG_SIZE : Z := 0xFFFF.

Record AppleSPMIBasebandState := mkBb {
  irq : bool;
  reg : gmap Z Z;
  addr : Z;
}.
#[global] Instance eta_AppleSPMIBasebandState : Eta AppleSPMIBasebandState := fun p => mkBb (irq p) (reg p) (addr p).

Definition apple_spmi_baseband_set_irq (p : AppleSPMIBasebandState) (value : bool) : AppleSPMIBasebandState :=
  p <| irq := value |>.

Fixpoint bb_send_bytes (fuel : nat) (p : AppleSPMIBasebandState) (a stop : Z) (data : list Z)
    : outcome (Z * AppleSPMIBasebandState) :=
  match fuel with
  | O => NoFuel
  | S fuel' =>
      if a <? stop then
        x ← aget data (a - addr p);
        m ← mset BB_REG_SIZE (reg p) a x;
        bb_send_bytes fuel' (p <| reg := m |>) (u16 (a + 1)) stop data
      else mret (a, p)
  end.

Definition apple_spmi_baseband_send (p : AppleSPMIBasebandState) (data : list Z) (len : Z)
    : outcome (Z * AppleSPMIBasebandState) :=
  '(a, p) ← bb_send_bytes (S (Z.to_nat len)) p (addr p) (addr p + len) data;
  _ ← (if addr p =? 0x147 then mget BB_REG_SIZE (reg p) (addr p) else mret 0);
  mret (len, p <| addr := a |>).

Definition apple_spmi_baseband_recv (p : AppleSPMIBasebandState) (data : list Z) (len : Z)
    : outcome (Z * list Z * AppleSPMIBasebandState) :=
  '(a, data) ← recv_loop (S (Z.to_nat len)) BB_REG_SIZE (reg p) (addr p) (addr p) (addr p + len) data;
  mret (len, data, p <| addr := a |>).

Definition apple_spmi_baseband_command (p : AppleSPMIBasebandState) (opcode a : Z)
    : outcome (Z * AppleSPMIBasebandState) :=
  mret (if is_ext opcode then 0 else 1, p <| addr := a |>).

#[global] Instance spmi_baseband_class : SPMISlaveClass AppleSPMIBasebandState :=
  {| sp_send := Some apple_spmi_baseband_send; sp_recv := Some apple_spmi_baseband_recv;
     sp_command := Some apple_spmi_baseband_command; sp_finish := None |}.

End SpmiBaseband.

(** ** What a register file promises *)

Fixpoint store_bytes (m : gmap Z Z) (a : Z) (bs : list Z) : gmap Z Z :=
  match bs with
  | [] => m
  | b :: bs' => store_bytes (<[a := b]> m) (a + 1) bs'
  end.

Fixpoint load_bytes (m : gmap Z Z) (a : Z) (n : nat) : list Z :=
  match n with
  | O => []
  | S n' => default 0 (m !! a) :: load_bytes m (a + 1) n'
  end.

Lemma length_load_bytes m a n : length (load_bytes m a n) = n.
Proof. revert a. induction n as [|n IH]; intros a; simpl; [done|by rewrite IH]. Qed.

Lemma store_bytes_other m a bs k : k < a \/ a + zlen bs <= k -> store_bytes m a bs !! k = m !! k.
Proof.
  revert m a. induction bs as [|b bs IH]; intros m a Hk; [done|]. cbn [store_bytes].
  unfold zlen in *. simpl length in *. rewrite IH by lia. apply lookup_insert_ne. lia.
Qed.

Lemma load_store m a bs : load_bytes (store_bytes m a bs) a (length bs) = bs.
Proof.
  revert m a. induction bs as [|b bs IH]; intros m a; [done|]. cbn [store_bytes load_bytes length].
  rewrite IH. rewrite store_bytes_other by lia. by rewrite lookup_insert_eq.
Qed.

Lemma load_bytes_ext m m' a n : (forall k, a <= k < a + Z.of_nat n -> m !! k = m' !! k) ->
  load_bytes m a n = load_bytes m' a n.
Proof.
  revert a. induction n as [|n IH]; intros a Hk; [done|]. cbn [load_bytes].
  rewrite (Hk a) by lia. f_equal. apply IH. intros k ?. apply Hk. lia.
Qed.

(** A device whose bytes in a plain range are memory: a command sets the place
    the next transfer starts at, [send] stores and [recv] loads from there. *)
Class SPMIRegisters (T : Type) {C : SPMISlaveClass T} := {
  plain : T -> Z -> Z -> Prop;
  cursor : T -> Z;
  bytes_of : T -> gmap Z Z;
  command_law t i opc a : is_ext opc = true ->
    exists t', call_command (mkSpmiSlave T C i t) opc a = Done (0, mkSpmiSlave T C i t') /\
      cursor t' = a /\ bytes_of t' = bytes_of t /\ (forall b n, plain t b n -> plain t' b n);
  send_law t i bs rest n : 0 < n -> zlen bs = n -> plain t (cursor t) n ->
    exists t', call_send (mkSpmiSlave T C i t) (bs ++ rest) n = Done (n, mkSpmiSlave T C i t') /\
      bytes_of t' = store_bytes (bytes_of t) (cursor t) bs /\ (forall b n, plain t b n -> plain t' b n);
  recv_law t i n pad : 0 < n -> 0 <= pad -> plain t (cursor t) n ->
    exists t', call_recv (mkSpmiSlave T C i t) (replicate (Z.to_nat (n + pad)) 0) n =
        Done (n, load_bytes (bytes_of t) (cursor t) (Z.to_nat n) ++ replicate (Z.to_nat pad) 0, mkSpmiSlave T C i t') /\
      bytes_of t' = bytes_of t /\ (forall b n, plain t b n -> plain t' b n);
  no_finish : sp_finish (T := T) = None;
}.

(** The bookkeeping of one step of a copying loop at [a], behind [pre]. *)
Lemma step_next (a : Z) (pre : list Z) base b : 0 <= base -> a = base + zlen pre -> a < 0xFFFF ->
  u16 (a + 1) = a + 1 /\ a + 1 = base + zlen (pre ++ [b]).
Proof.
  intros ? -> ?. rewrite zlen_app. unfold zlen in *. simpl. split; [|lia].
  apply wrap_small. unfold in_width. lia.
Qed.

Lemma recv_loop_ok size regs base n : forall fuel pre a rest, (n < fuel)%nat -> 0 <= base -> a = base + zlen pre ->
  a + Z.of_nat n <= 0xFFFF -> 0xFFFF <= size ->
  recv_loop fuel size regs base a (a + Z.of_nat n) (pre ++ replicate n 0 ++ rest) =
    Done (a + Z.of_nat n, pre ++ load_bytes regs a n ++ rest).
Proof.
  induction n as [|n IH]; intros [|fuel] pre a rest Hf H0 Ha Hend Hsz; try lia; cbn [recv_loop load_bytes replicate].
  - by rewrite Z.add_0_r, Z.ltb_irrefl.
  - assert (0 <= zlen pre) by (unfold zlen; lia). eval_cmp. rewrite mget_ok by lia. run.
    change ((0 :: replicate n 0) ++ rest) with ([0] ++ (replicate n 0 ++ rest)).
    rewrite (aset_part pre [0] _ 0) by (simpl; lia). run. cbn [insert list_insert].
    destruct (step_next a pre base (default 0 (regs !! a)) H0 Ha ltac:(lia)) as [-> Hn].
    rewrite (assoc_L (++) pre). replace (a + Z.of_nat (S n)) with (a + 1 + Z.of_nat n) by lia.
    rewrite IH by (done || lia). rewrite <- (assoc_L (++) pre). done.
Qed.

Module SpmiPmuLaws.
Import SpmiPmu.

(** Neither the clock, which [recv] latches, nor a register that sets the alarm
    is in the range, and the range ends before the last register. *)
Definition pmu_plain (p : AppleSPMIPMUState) (a n : Z) : Prop :=
  0 <= a /\ a + n <= 0xFFFF /\ 0 <= reg_rtc p /\ in_width 32 (reg_rtc p + 6) /\
  (a + n <= reg_rtc p \/ reg_rtc p + 6 <= a) /\ forall k, a <= k < a + n -> sets_alarm p k = false.

Lemma pmu_send_loop bs : forall fuel p pre rest a, (length bs < fuel)%nat ->
  0 <= addr p -> a = addr p + zlen pre -> a + zlen bs <= 0xFFFF ->
  (forall k, a <= k < a + zlen bs -> sets_alarm p k = false) ->
  pmu_send_bytes fuel p a (a + zlen bs) (pre ++ bs ++ rest) =
    Done (a + zlen bs, p <| reg := store_bytes (reg p) a bs |>).
Proof.
  induction bs as [|b bs IH]; intros [|fuel] p pre rest a Hf H0 Ha Hend Hal; try (simpl in Hf; lia).
  - change (zlen []) with 0. rewrite Z.add_0_r. cbn [pmu_send_bytes]. rewrite Z.ltb_irrefl. by destruct p.
  - assert (Hz : zlen (b :: bs) = 1 + zlen bs) by (unfold zlen; simpl length; lia).
    assert (0 <= zlen pre /\ 0 <= zlen bs) by (unfold zlen; lia).
    rewrite Hz in *. cbn [pmu_send_bytes]. eval_cmp.
    change ((b :: bs) ++ rest) with ([b] ++ (bs ++ rest)).
    rewrite (aget_part pre [b] (bs ++ rest) 0 b) by (simpl; done || lia). run.
    rewrite mset_ok by (unfold REG_SIZE; lia). run.
    change (sets_alarm (p <| reg := <[a:=b]> (reg p) |>) a) with (sets_alarm p a).
    rewrite (Hal a) by lia. run.
    destruct (step_next a pre (addr p) b H0 Ha ltac:(lia)) as [-> Hn].
    rewrite (assoc_L (++) pre). replace (a + (1 + zlen bs)) with (a + 1 + zlen bs) by lia.
    rewrite IH; [done|simpl in Hf; lia|done|done|lia|]. intros k Hk. apply (Hal k). lia.
Qed.

#[global] Program Instance pmu_registers : SPMIRegisters AppleSPMIPMUState :=
  {| plain := pmu_plain; cursor := addr; bytes_of := reg |}.
Next Obligation.
  intros p i opc a Hopc. exists (p <| addr := a |>). unfold call_command. cbn [sp_command spmi_pmu_class].
  unfold apple_spmi_pmu_command. run. by rewrite Hopc.
Qed.
Next Obligation.
  intros p i bs rest n Hn Hz (Ha & Hend & _ & _ & _ & Hal). cbn in Ha, Hend, Hal.
  exists (p <| reg := store_bytes (reg p) (addr p) bs |> <| addr := addr p + n |>).
  split; [|done]. unfold call_send. cbn [sp_send spmi_pmu_class]. unfold apple_spmi_pmu_send.
  subst n. pose proof (pmu_send_loop bs (S (Z.to_nat (zlen bs))) p [] rest (addr p)) as HL.
  cbn [app] in HL. rewrite HL; [by run|unfold zlen; lia|done|unfold zlen; simpl; lia|done|done].
Qed.
Next Obligation.
  intros p i n pad Hn Hpad (Ha & Hend & Hr & Hr' & Hout & _). cbn in Ha, Hend, Hr, Hr', Hout.
  exists (p <| addr := addr p + n |>).
  split; [|done]. unfold call_recv. cbn [sp_recv spmi_pmu_class]. unfold apple_spmi_pmu_recv.
  assert (u16 (addr p + n) = addr p + n) as -> by (apply wrap_small; unfold in_width; lia).
  assert (u32 (reg_rtc p + 6) = reg_rtc p + 6) as -> by by apply wrap_small.
  assert ((reg_rtc p <? addr p + n) && (addr p <? reg_rtc p + 6) = false) as -> by (destruct Hout; eval_cmp; btauto).
  run. replace (Z.to_nat (n + pad)) with (Z.to_nat n + Z.to_nat pad)%nat by lia. rewrite replicate_add.
  pose proof (recv_loop_ok REG_SIZE (reg p) (addr p) (Z.to_nat n) (S (Z.to_nat n)) [] (addr p)) as HL.
  rewrite Z2Nat.id in HL by lia. cbn [app] in HL.
  rewrite HL; [by run|lia|done|unfold zlen; simpl; lia|done|done].
Qed.
Next Obligation. done. Qed.

End SpmiPmuLaws.

Module SpmiBasebandLaws.
Import SpmiBaseband.

Definition bb_plain (p : AppleSPMIBasebandState) (a n : Z) : Prop := 0 <= a /\ a + n <= 0xFFFF.

Lemma bb_send_loop bs : forall fuel p pre rest a, (length bs < fuel)%nat ->
  0 <= addr p -> a = addr p + zlen pre -> a + zlen bs <= 0xFFFF ->
  bb_send_bytes fuel p a (a + zlen bs) (pre ++ bs ++ rest) =
    Done (a + zlen bs, p <| reg := store_bytes (reg p) a bs |>).
Proof.
  induction bs as [|b bs IH]; intros [|fuel] p pre rest a Hf H0 Ha Hend; try (simpl in Hf; lia).
  - change (zlen []) with 0. rewrite Z.add_0_r. cbn [bb_send_bytes]. rewrite Z.ltb_irrefl. by destruct p.
  - assert (Hz : zlen (b :: bs) = 1 + zlen bs) by (unfold zlen; simpl length; lia).
    assert (0 <= zlen pre /\ 0 <= zlen bs) by (unfold zlen; lia).
    rewrite Hz in *. cbn [bb_send_bytes]. eval_cmp.
    change ((b :: bs) ++ rest) with ([b] ++ (bs ++ rest)).
    rewrite (aget_part pre [b] (bs ++ rest) 0 b) by (simpl; done || lia). run.
    rewrite mset_ok by (unfold BB_REG_SIZE; lia). run.
    destruct (step_next a pre (addr p) b H0 Ha ltac:(lia)) as [-> Hn].
    rewrite (assoc_L (++) pre). replace (a + (1 + zlen bs)) with (a + 1 + zlen bs) by lia.
    rewrite IH; [done|simpl in Hf; lia|done|done|lia].
Qed.

#[global] Program Instance baseband_registers : SPMIRegisters AppleSPMIBasebandState :=
  {| plain := bb_plain; cursor := addr; bytes_of := reg |}.
Next Obligation.
  intros p i opc a Hopc. exists (p <| addr := a |>). unfold call_command. cbn [sp_command spmi_baseband_class].
  unfold apple_spmi_baseband_command. run. by rewrite Hopc.
Qed.
Next Obligation.
  intros p i bs rest n Hn Hz [Ha Hend]. cbn in Ha, Hend.
  exists (p <| reg := store_bytes (reg p) (addr p) bs |> <| addr := addr p + n |>).
  split; [|done]. unfold call_send. cbn [sp_send spmi_baseband_class]. unfold apple_spmi_baseband_send.
  subst n. pose proof (bb_send_loop bs (S (Z.to_nat (zlen bs))) p [] rest (addr p)) as HL.
  cbn [app] in HL. rewrite HL; [run|unfold zlen; lia|done|unfold zlen; simpl; lia|done].
  cbn [addr setf]. rewrite mget_ok by (unfold BB_REG_SIZE; lia). by destruct (addr p =? 0x147); run.
Qed.
Next Obligation.
  intros p i n pad Hn Hpad [Ha Hend]. cbn in Ha, Hend. exists (p <| addr := addr p + n |>).
  split; [|done]. unfold call_recv. cbn [sp_recv spmi_baseband_class]. unfold apple_spmi_baseband_recv.
  replace (Z.to_nat (n + pad)) with (Z.to_nat n + Z.to_nat pad)%nat by lia. rewrite replicate_add.
  pose proof (recv_loop_ok BB_REG_SIZE (reg p) (addr p) (Z.to_nat n) (S (Z.to_nat n)) [] (addr p)) as HL.
  rewrite Z2Nat.id in HL by lia. cbn [app] in HL.
  rewrite HL; [by run|lia|done|unfold zlen; simpl; lia|done|done].
Qed.
Next Obligation. done. Qed.

End SpmiBasebandLaws.

(** ** The controller's registers *)

Record spmi_wf (s : AppleSPMIState) : Prop := {
  wf_queue_reg : zlen (queue_reg s) = 64;
  wf_vers : reg_vers s = 0 \/ reg_vers s = 1;
  wf_intr : 0 <= resp_intr_index s < 32 * SPMI_NUM_IRQ_BANK;
  wf_fifo : fifo8_wf (resp_fifo s);
  wf_fifo_cap : capacity (resp_fifo s) = 4 * SPMI_QUEUE_DEPTH;
}.

Lemma shr_range x k n : 0 <= k -> 0 <= x < n * 2 ^ k -> 0 <= x .>> k < n.
Proof.
  intros Hk Hx. rewrite Z.shiftr_div_pow2 by done. split.
  - apply Z.div_pos; [lia|]. apply Z.pow_pos_nonneg; lia.
  - apply Z.div_lt_upper_bound; [apply Z.pow_pos_nonneg|]; lia.
Qed.

Lemma int_status_ok s b : spmi_wf s -> 0 <= b < SPMI_NUM_IRQ_BANK ->
  exists k, int_status s b = Done k /\ 0 <= k < 64.
Proof.
  unfold int_status, SPMI_NUM_IRQ_BANK. intros Hwf Hb. destruct (wf_vers _ Hwf) as [-> | ->]; cbn [Z.eqb Pos.eqb];
    eexists; (split; [reflexivity|]); unfold SPMI_INT_STATUS_V0, SPMI_INT_STATUS_V1;
    apply shr_range; lia.
Qed.

Lemma irq_banks_ok s n : spmi_wf s -> forall i, 0 <= i -> i + Z.of_nat n <= SPMI_NUM_IRQ_BANK ->
  exists l, irq_banks s n i = Done l.
Proof.
  intros Hwf. induction n as [|n IH]; intros i Hi Hn; cbn [irq_banks]; [by eexists|].
  destruct (int_status_ok s i Hwf ltac:(lia)) as (k & -> & Hk). run.
  destruct (aget_in_range (queue_reg s) k) as [x Hx]; [rewrite (wf_queue_reg _ Hwf); lia|]. rewrite Hx. run.
  destruct (aget_in_range (queue_reg s) (SPMI_INT_ENAB i .>> 2)) as [y Hy].
  { rewrite (wf_queue_reg _ Hwf). unfold SPMI_INT_ENAB, SPMI_NUM_IRQ_BANK in *.
    apply shr_range; lia. }
  rewrite Hy. run. destruct (nonzero _); [by eexists|]. apply IH; lia.
Qed.

(** [s'] differs from [s] in the queue registers and the interrupt line. *)
Definition only_regs (s s' : AppleSPMIState) : Prop :=
  exists q l, s' = s <| queue_reg := q |> <| sirq := l |> /\ zlen q = 64.

Lemma only_regs_wf s s' : spmi_wf s -> only_regs s s' -> spmi_wf s'.
Proof. intros [] (q & l & -> & Hq). by constructor. Qed.

Lemma only_regs_trans s1 s2 s3 : only_regs s1 s2 -> only_regs s2 s3 -> only_regs s1 s3.
Proof. intros (q & l & -> & _) (q' & l' & -> & ?). by exists q', l'. Qed.

Lemma spmi_update_irq_ok s : spmi_wf s -> exists s', apple_spmi_update_irq s = Done s' /\ only_regs s s'.
Proof.
  intros Hwf. unfold apple_spmi_update_irq.
  destruct (irq_banks_ok s (Z.to_nat SPMI_NUM_IRQ_BANK) Hwf 0) as [l ->]; [done|done|]. run.
  eexists. split; [done|]. exists (queue_reg s), l. split; [by destruct s|apply Hwf].
Qed.

Lemma aset_only_regs s k x : spmi_wf s -> 0 <= k < 64 ->
  exists q, aset (queue_reg s) k x = Done q /\ only_regs s (s <| queue_reg := q |>).
Proof.
  intros Hwf Hk. exists (<[Z.to_nat k := x]> (queue_reg s)).
  split; [apply aset_in_range; rewrite (wf_queue_reg _ Hwf); lia|].
  eexists (<[Z.to_nat k := x]> (queue_reg s)), (sirq s). split; [by destruct s|]. unfold zlen. rewrite length_insert. apply Hwf.
Qed.

Lemma update_queues_ok s : spmi_wf s -> exists s', apple_spmi_update_queues_status s = Done s' /\ only_regs s s'.
Proof.
  intros Hwf. unfold apple_spmi_update_queues_status, apple_spmi_set_irq.
  destruct (int_status_ok s (resp_intr_index s .>> 5) Hwf) as (k & -> & Hk).
  { pose proof (wf_intr _ Hwf). unfold SPMI_NUM_IRQ_BANK in *. apply shr_range; lia. }
  run. destruct (aget_in_range (queue_reg s) k) as [x ->]; [rewrite (wf_queue_reg _ Hwf); lia|]. run.
  destruct (aset_only_regs s k (if negb (fifo8_is_empty (resp_fifo s)) then x .| BIT (resp_intr_index s .& 31)
    else x .&~ BIT (resp_intr_index s .& 31)) Hwf Hk) as (q & -> & Hq). run.
  destruct (spmi_update_irq_ok _ (only_regs_wf _ _ Hwf Hq)) as (s' & -> & Hs').
  exists s'. split; [done|exact (only_regs_trans _ _ _ Hq Hs')].
Qed.

Lemma queue_store_ok s addr v qf lf : spmi_wf s -> 0 <= addr < 256 ->
  exists s', queue_store s addr v qf lf = Done s' /\ only_regs s s'.
Proof.
  intros Hwf Ha. unfold queue_store.
  destruct (aset_only_regs s (addr .>> 2) v Hwf) as (q & -> & Hq).
  { apply shr_range; lia. }
  run. pose proof (only_regs_wf _ _ Hwf Hq) as Hwf1.
  assert (exists s2, (if qf then apple_spmi_update_queues_status (s <| queue_reg := q |>)
     else mret (s <| queue_reg := q |>)) = Done s2 /\ only_regs s s2) as (s2 & -> & Hs2).
  { destruct qf; [|by eexists]. destruct (update_queues_ok _ Hwf1) as (s2 & -> & H2).
    exists s2. split; [done|exact (only_regs_trans _ _ _ Hq H2)]. }
  run. destruct lf; [|by eexists]. destruct (spmi_update_irq_ok _ (only_regs_wf _ _ Hwf Hs2)) as (s3 & -> & H3).
  exists s3. split; [done|exact (only_regs_trans _ _ _ Hs2 H3)].
Qed.

(** ** A guest's transfers *)

(** The request word for [n] bytes at [a] of the device [i]. *)
Definition request (opc i a n : Z) : Z :=
  opc .| (n - 1) .| (i .<< 8) .| SPMI_REQ_FINAL .| (a .<< SPMI_REQ_ADDR_SHIFT).

Lemma request_low opc i a n m : in_width 8 opc -> 1 <= n <= 8 -> 0 <= m <= 8 ->
  request opc i a n .& Z.ones m = (opc .| (n - 1)) .& Z.ones m.
Proof.
  intros Ho Hn Hm. unfold request, SPMI_REQ_FINAL, SPMI_REQ_ADDR_SHIFT. by_bits.
  all: rewrite ?(Z.testbit_neg_r i), ?(Z.testbit_neg_r a) by lia; simpl; btauto.
Qed.

Definition is_long (opc : Z) : Prop := opc = SPMI_CMD_EXT_WRITEL \/ opc = SPMI_CMD_EXT_READL.

Lemma spmi_opcode_low x : spmi_opcode x = spmi_opcode (x .& Z.ones 8).
Proof.
  unfold spmi_opcode. replace (((x .& Z.ones 8) .>> 4) .& 0xf) with ((x .>> 4) .& 0xf);
    [|change 0xf with (Z.ones 4); by_bits]. rewrite <- !Z.land_assoc. done.
Qed.

Lemma spmi_data_length_low x : spmi_data_length x = spmi_data_length (x .& Z.ones 8).
Proof.
  unfold spmi_data_length. replace (((x .& Z.ones 8) .>> 4) .& 0xf) with ((x .>> 4) .& 0xf);
    [|change 0xf with (Z.ones 4); by_bits]. rewrite <- !Z.land_assoc. done.
Qed.

Lemma request_decodes opc i a n : is_long opc -> in_width 4 i -> in_width 16 a -> 1 <= n <= 8 ->
  spmi_opcode (request opc i a n) = opc /\ spmi_data_length (request opc i a n) = n /\
  SPMI_REQ_SID (request opc i a n) = i /\ spmi_address (request opc i a n) = a /\
  nonzero (request opc i a n .& SPMI_REQ_FINAL) = true.
Proof.
  intros Hopc Hi Ha Hn. assert (in_width 8 opc) by (by destruct Hopc; subst).
  assert (Ho : spmi_opcode (request opc i a n) = opc).
  { rewrite spmi_opcode_low, request_low by (done || lia). destruct Hopc; subst;
      assert (n = 1 \/ n = 2 \/ n = 3 \/ n = 4 \/ n = 5 \/ n = 6 \/ n = 7 \/ n = 8) as Hc by lia;
      by repeat destruct Hc as [->|Hc]; subst. }
  split; [done|]. split.
  { rewrite spmi_data_length_low, request_low by (done || lia). destruct Hopc; subst;
      assert (n = 1 \/ n = 2 \/ n = 3 \/ n = 4 \/ n = 5 \/ n = 6 \/ n = 7 \/ n = 8) as Hc by lia;
      by repeat destruct Hc as [->|Hc]; subst. }
  assert (in_width 3 (n - 1)) by (unfold in_width; lia).
  assert (Hbits : forall k, 8 <= k -> Z.testbit opc k = false /\ Z.testbit (n - 1) k = false).
  { intros k Hk. rewrite (testbit_high 8 opc), (testbit_high 3 (n - 1)) by (done || lia). done. }
  split; [|split].
  - unfold SPMI_REQ_SID. change 0xf with (Z.ones 4). unfold request, SPMI_REQ_FINAL, SPMI_REQ_ADDR_SHIFT. by_bits.
    all: try by rewrite (testbit_high 4 i) by (done || lia).
    destruct (Hbits (i0 + 8) ltac:(lia)) as [-> ->].
    replace (i0 + 8 - 8) with i0 by lia. btauto.
  - unfold spmi_address. rewrite Ho. assert (is_ext opc = true) as -> by (by destruct Hopc; subst).
    change 0xffff with (Z.ones 16). unfold request, SPMI_REQ_FINAL, SPMI_REQ_ADDR_SHIFT. by_bits.
    2: by rewrite (testbit_high 16 a) by (done || lia).
    destruct (Hbits (i0 + 16) ltac:(lia)) as [-> ->]. rewrite (testbit_high 4 i) by (done || lia).
    simpl. f_equal. lia.
  - unfold SPMI_REQ_FINAL. rewrite land_BIT_nonzero by done.
    unfold request, SPMI_REQ_FINAL, SPMI_REQ_ADDR_SHIFT. rewrite Z.lor_spec, Z.lor_spec, testbit_BIT by done.
    rewrite Z.eqb_refl. btauto.
Qed.

(** A request is pushed, the words of a write follow it, the response is popped. *)
Fixpoint guest_push (s : AppleSPMIState) (ws : list Z) : outcome AppleSPMIState :=
  match ws with
  | [] => mret s
  | w :: ws' => s ← apple_spmi_queue_reg_write s SPMI_REQ_QUEUE_PUSH w; guest_push s ws'
  end.

Fixpoint guest_pop (s : AppleSPMIState) (n : nat) : outcome (list Z * AppleSPMIState) :=
  match n with
  | O => mret ([], s)
  | S n' =>
      '(w, s) ← apple_spmi_queue_reg_read s SPMI_RSP_QUEUE_POP;
      '(ws, s) ← guest_pop s n';
      mret (w :: ws, s)
  end.

Definition nwords (n : Z) : nat := Z.to_nat ((n + 3) / 4).

Definition guest_write (s : AppleSPMIState) (i a n : Z) (ws : list Z) : outcome (list Z * AppleSPMIState) :=
  s ← guest_push s (request SPMI_CMD_EXT_WRITEL i a n :: ws);
  guest_pop s 1.

Definition guest_read (s : AppleSPMIState) (i a n : Z) : outcome (list Z * AppleSPMIState) :=
  s ← guest_push s [request SPMI_CMD_EXT_READL i a n];
  guest_pop s (S (nwords n)).

Section Transfer.
Context {T : Type} {C : SPMISlaveClass T} {L : SPMIRegisters T}.

(** Requests for [i] reach the device at [k], which is in the state [t]: it is
    held by the bus, or a scan of the bus finds it. *)
Record addressed (b : SPMIBus) (i : Z) (k : nat) (t : T) : Prop := {
  ad_child : spmi_children b !! k = Some (mkSpmiSlave T C i t);
  ad_scan : current_dev b = Some k \/ current_dev b = None /\ spmi_scan (spmi_children b) 0 i None = Some k;
}.

Lemma spmi_child_ok b i k t : addressed b i k t -> spmi_child b k = Done (mkSpmiSlave T C i t).
Proof. intros [H _]. unfold spmi_child. by rewrite H. Qed.

Lemma addressed_set b i k t t' : addressed b i k t -> current_dev b = Some k ->
  addressed (set_spmi_child b k (mkSpmiSlave T C i t')) i k t'.
Proof.
  intros [H _] Hc. split; [|by left]. cbn. apply list_lookup_insert_eq. by eapply lookup_lt_Some.
Qed.

Lemma spmi_start_ok b i k t opc a : addressed b i k t -> is_ext opc = true ->
  exists b' t', spmi_start_transfer b i opc a = Done (0, b') /\ addressed b' i k t' /\ current_dev b' = Some k /\
    cursor t' = a /\ bytes_of t' = bytes_of t /\ (forall b n, plain t b n -> plain t' b n).
Proof.
  intros Had Hopc. destruct (command_law t i opc a Hopc) as (t' & Hcmd & Hcur & Hb & Hp).
  unfold spmi_start_transfer. cbv zeta.
  set (b1 := if match current_dev b with Some _ => false | None => true end then _ else b).
  assert (Hb1 : addressed b1 i k t /\ current_dev b1 = Some k).
  { destruct Had as [Hk [Hc|[Hc Hs]]]; unfold b1; rewrite Hc; [by split; [split; [|left]|]|].
    split; [|done]. split; [done|by left]. }
  destruct Hb1 as [Had1 Hc1]. rewrite Hc1, (spmi_child_ok _ _ _ _ Had1). run. rewrite Hcmd. run.
  cbn [fst snd]. change (nonzero 0) with false. cbv iota.
  eexists _, t'. split; [done|]. split; [by apply (addressed_set _ _ _ t)|done].
Qed.

Lemma spmi_end_ok b i k t : addressed b i k t -> current_dev b = Some k ->
  exists b', spmi_end_transfer b = Done b' /\ addressed b' i k t /\ current_dev b' = Some k.
Proof.
  intros Had Hc. unfold spmi_end_transfer. rewrite Hc, (spmi_child_ok _ _ _ _ Had). run.
  unfold call_finish. rewrite no_finish. run. eexists. split; [done|]. split; [by apply (addressed_set _ _ _ t)|done].
Qed.

Lemma spmi_send_ok b i k t n bs rest : addressed b i k t -> current_dev b = Some k ->
  0 < n -> zlen bs = n -> plain t (cursor t) n ->
  exists b' t', spmi_send b (bs ++ rest) n = Done (n, b') /\ addressed b' i k t' /\ current_dev b' = Some k /\
    bytes_of t' = store_bytes (bytes_of t) (cursor t) bs /\ (forall b n, plain t b n -> plain t' b n).
Proof.
  intros Had Hc Hn Hz Hpl. destruct (send_law t i bs rest n Hn Hz Hpl) as (t' & Hs & Hb & Hp).
  unfold spmi_send. rewrite Hc, (spmi_child_ok _ _ _ _ Had). run. rewrite Hs. run. cbn [fst snd].
  eexists _, t'. split; [done|]. split; [by apply (addressed_set _ _ _ t)|done].
Qed.

Lemma spmi_recv_ok b i k t n pad : addressed b i k t -> current_dev b = Some k ->
  0 < n -> 0 <= pad -> plain t (cursor t) n ->
  exists b' t', spmi_recv b (replicate (Z.to_nat (n + pad)) 0) n =
      Done (n, load_bytes (bytes_of t) (cursor t) (Z.to_nat n) ++ replicate (Z.to_nat pad) 0, b') /\
    addressed b' i k t' /\ current_dev b' = Some k /\
    bytes_of t' = bytes_of t /\ (forall b n, plain t b n -> plain t' b n).
Proof.
  intros Had Hc Hn Hpad Hpl. destruct (recv_law t i n pad Hn Hpad Hpl) as (t' & Hs & Hb & Hp).
  unfold spmi_recv. rewrite Hc, (spmi_child_ok _ _ _ _ Had). run. rewrite Hs. run.
  eexists _, t'. split; [done|]. split; [by apply (addressed_set _ _ _ t)|done].
Qed.

(** The controller between transfers: the words [q] wait in the response queue. *)
Record idle (s : AppleSPMIState) (i : Z) (k : nat) (t : T) (q : list Z) : Prop := {
  id_wf : spmi_wf s;
  id_data : sdata s = None;
  id_queue : contents (resp_fifo s) = concat (word_bytes <$> q);
  id_words : Forall (in_width 32) q;
  id_bus : addressed (sbus s) i k t;
}.

Lemma idle_only_regs s s' i k t q : idle s i k t q -> only_regs s s' -> idle s' i k t q.
Proof. intros [] H. split; [by eapply only_regs_wf|..]; by destruct H as (? & ? & -> & _). Qed.

Lemma guest_pop_ok q r : forall s i k t, idle s i k t (q ++ r) ->
  exists s', guest_pop s (length q) = Done (q, s') /\ idle s' i k t r.
Proof.
  induction q as [|w q IH]; intros s i k t Hid; cbn [guest_pop length]; [by eexists|].
  destruct Hid as [Hwf Hd Hq Hw Hb]. cbn [app] in *. inversion Hw as [|?? Hw1 Hw2]; subst.
  unfold apple_spmi_queue_reg_read.
  destruct (aget_in_range (queue_reg s) (SPMI_RSP_QUEUE_POP .>> 2)) as [x ->]; [by rewrite (wf_queue_reg _ Hwf)|]. run.
  rewrite Z.eqb_refl. rewrite fmap_cons in Hq. cbn [concat] in Hq.
  destruct (fifo32_pop_ok _ w _ (wf_fifo _ Hwf) Hw1 Hq) as (f & Hpop & Hf & Hfc & Hcap & Hnum).
  assert (fifo8_is_empty (resp_fifo s) = false) as ->.
  { unfold fifo8_is_empty. apply Z.eqb_neq. pose proof (wf_num _ Hf). lia. }
  rewrite Hpop. run. cbn [fst snd].
  assert (Hid : idle (s <| resp_fifo := f |>) i k t (q ++ r)).
  { destruct Hwf. split; [|done|done|done|done]. split; try done. cbn. by rewrite Hcap. }
  destruct (update_queues_ok _ (id_wf _ _ _ _ _ Hid)) as (s1 & -> & H1). run.
  pose proof (idle_only_regs _ _ _ _ _ _ Hid H1) as Hid1.
  destruct (spmi_update_irq_ok _ (id_wf _ _ _ _ _ Hid1)) as (s2 & -> & H2). run.
  destruct (IH _ _ _ _ (idle_only_regs _ _ _ _ _ _ Hid1 H2)) as (s3 & -> & H3). run. by eexists.
Qed.
End Transfer.

Section Requests.
Context {T : Type} {C : SPMISlaveClass T} {L : SPMIRegisters T}.

Lemma request_width opc i a n : is_long opc -> in_width 4 i -> in_width 16 a -> 1 <= n <= 8 ->
  in_width 32 (request opc i a n).
Proof.
  intros Ho Hi Ha Hn. unfold in_width in *. unfold request, SPMI_REQ_FINAL, SPMI_REQ_ADDR_SHIFT.
  rewrite !Z.shiftl_mul_pow2 by lia.
  repeat apply (in_width_lor 32); try done; unfold in_width; try lia. by destruct Ho; subst.
Qed.

Lemma bytes_words_width n bs : Forall (in_width 8) bs -> Forall (in_width 32) (bytes_words n bs).
Proof.
  revert bs. induction n as [|n IH]; intros bs Hbs; cbn [bytes_words]; [constructor|].
  apply Forall_cons_2; [|by apply IH, Forall_drop].
  pose proof (le_combine_width (take 4 bs) ltac:(by apply Forall_take)) as [H1 H2]. split; [done|].
  eapply Z.lt_le_trans; [exact H2|]. apply Z.pow_le_mono_r; [done|]. unfold zlen. rewrite length_take. lia.
Qed.

Lemma length_bytes_words n bs : length (bytes_words n bs) = n.
Proof. revert bs. induction n as [|n IH]; intros bs; simpl; [done|by rewrite IH]. Qed.

(** What answers a read: the request's low bits and a mask of the bytes read,
    then the bytes in words. *)
Definition read_header (i a n : Z) : Z :=
  (request SPMI_CMD_EXT_READL i a n .& 0xFFF) .| (u8 (Z.ones n) .<< SPMI_RSP_ACK_SHIFT).

Lemma read_header_width i a n : in_width 4 i -> in_width 16 a -> 1 <= n <= 8 -> in_width 32 (read_header i a n).
Proof.
  intros Hi Ha Hn. unfold read_header. apply in_width_lor; [done|..].
  - apply in_width_land; [done|done|]. apply request_width; [by right|done..].
  - assert (in_width 8 (u8 (Z.ones n))) by by apply wrap_range. unfold in_width in *. unfold SPMI_RSP_ACK_SHIFT.
    rewrite Z.shiftl_mul_pow2 by lia. lia.
Qed.

Lemma nwords_le n : 1 <= n <= 8 -> Z.of_nat (nwords n) <= 2.
Proof.
  intros Hn. unfold nwords. assert (0 <= (n + 3) / 4 < 3); [|lia].
  split; [apply Z.div_pos|apply Z.div_lt_upper_bound]; lia.
Qed.

Lemma empty_push s h ws : spmi_wf s -> contents (resp_fifo s) = [] -> zlen ws <= 2 ->
  exists f, (f ← fifo32_push (resp_fifo s) h; fifo32_push_all f ws) = Done f /\ fifo8_wf f /\
    contents f = concat (word_bytes <$> h :: ws) /\ capacity f = capacity (resp_fifo s).
Proof.
  intros Hwf Hq Hz. destruct (fifo32_push_all_ok (h :: ws) (resp_fifo s) (wf_fifo _ Hwf)) as (f & Hf & Hfwf & Hfc & Hcap).
  { rewrite (wf_fifo_cap _ Hwf), <- (length_contents _ (wf_fifo _ Hwf)), Hq. unfold zlen, SPMI_QUEUE_DEPTH in *.
    simpl length. lia. }
  exists f. split; [done|]. split; [done|]. by rewrite Hfc, Hq.
Qed.

Lemma push_read_ok s i k t a n : idle s i k t [] -> in_width 4 i -> in_width 16 a -> 1 <= n <= 8 ->
  plain t a n -> Forall (in_width 8) (load_bytes (bytes_of t) a (Z.to_nat n)) ->
  exists s' t', apple_spmi_queue_reg_write s SPMI_REQ_QUEUE_PUSH (request SPMI_CMD_EXT_READL i a n) = Done s' /\
    idle s' i k t' (read_header i a n ::
      bytes_words (nwords n) (load_bytes (bytes_of t) a (Z.to_nat n) ++ replicate 3 0)) /\
    bytes_of t' = bytes_of t /\ (forall b n, plain t b n -> plain t' b n).
Proof.
  intros [Hwf Hd Hq _ Hb] Hi Ha Hn Hpl Hbytes. unfold apple_spmi_queue_reg_write. cbv zeta.
  rewrite (wrap_small 32 (request _ _ _ _)) by (apply request_width; [by right|done..]).
  rewrite Z.eqb_refl, Hd. unfold push_request.
  destruct (request_decodes SPMI_CMD_EXT_READL i a n ltac:(by right) Hi Ha Hn) as (-> & -> & -> & -> & ->).
  change (u8 SPMI_CMD_EXT_READL) with SPMI_CMD_EXT_READL. cbv zeta.
  change ((SPMI_CMD_EXT_READL =? SPMI_CMD_EXT_WRITE) || (SPMI_CMD_EXT_READL =? SPMI_CMD_EXT_WRITEL)) with false.
  change (c_assert ((SPMI_CMD_EXT_READL =? SPMI_CMD_EXT_READ) || (SPMI_CMD_EXT_READL =? SPMI_CMD_EXT_READL))) with (Done tt).
  cbv iota. cbn [sbus setf sdata resp_fifo]. rewrite Hd.
  destruct (spmi_start_ok (sbus s) i k t SPMI_CMD_EXT_READL a Hb eq_refl) as (b1 & t1 & -> & Hb1 & Hc1 & Hcur & Hby & Hp1).
  run. change (nonzero 0) with false. cbv iota.
  assert (nonzero n = true) as -> by (apply nonzero_iff; lia). cbv iota. cbn [andb].
  destruct (spmi_recv_ok b1 i k t1 n 3 Hb1 Hc1 ltac:(lia) ltac:(done)) as (b2 & t2 & -> & Hb2 & Hc2 & Hby2 & Hp2).
  { rewrite Hcur. by apply Hp1. }
  run. rewrite Hcur, Hby, (proj2 (Z.ltb_lt 0 n)) by lia. change (Z.to_nat 3) with 3%nat.
  fold (read_header i a n). fold (nwords n).
  destruct (empty_push s (read_header i a n) (bytes_words (nwords n)
    (load_bytes (bytes_of t) a (Z.to_nat n) ++ replicate 3 0)) Hwf Hq) as (f & Hf & Hfwf & Hfc & Hcap).
  { unfold zlen. rewrite length_bytes_words. by apply nwords_le. }
  apply bind_Done_inv in Hf as (f1 & Hf1 & Hf2). rewrite Hf1. run. rewrite Hf2. run. cbn [negb sbus setf].
  destruct (spmi_end_ok b2 i k t2 Hb2 Hc2) as (b3 & -> & Hb3 & _). run.
  match goal with |- context [queue_store ?x _ _ _ _] => assert (Hid : idle x i k t2 (read_header i a n ::
      bytes_words (nwords n) (load_bytes (bytes_of t) a (Z.to_nat n) ++ replicate 3 0))) end.
  { destruct Hwf. split; [|done|done| |done].
    - split; cbn; try done. by rewrite Hcap.
    - apply Forall_cons_2; [by apply read_header_width|]. apply bytes_words_width, Forall_app. split; [done|].
      by repeat apply Forall_cons_2. }
  destruct (queue_store_ok _ SPMI_REQ_QUEUE_PUSH (read_header i a n) true true (id_wf _ _ _ _ _ Hid) ltac:(done))
    as (s' & -> & Hs').
  exists s', t2. split; [done|]. split; [by eapply idle_only_regs|]. split; [congruence|eauto].
Qed.
End Requests.

Section Writes.
Context {T : Type} {C : SPMISlaveClass T} {L : SPMIRegisters T}.
Context (i a n : Z) (k : nat) (Hi : in_width 4 i) (Ha : in_width 16 a) (Hn : 1 <= n <= 8).

Definition write_header : Z := (request SPMI_CMD_EXT_WRITEL i a n .& 0xFFF) .| BIT 15.

(** The controller in a write: the words [pre] are there, [m] are missing. *)
Record writing (s : AppleSPMIState) (t : T) (pre : list Z) (m : nat) : Prop := {
  wr_wf : spmi_wf s;
  wr_data : sdata s = Some (pre ++ replicate m 0);
  wr_length : data_length s = zlen pre + Z.of_nat m;
  wr_filled : data_filled s = zlen pre;
  wr_command : scommand s = request SPMI_CMD_EXT_WRITEL i a n;
  wr_queue : contents (resp_fifo s) = [];
  wr_bus : addressed (sbus s) i k t;
  wr_current : current_dev (sbus s) = Some k;
  wr_cursor : cursor t = a;
  wr_plain : plain t a n;
  wr_enough : n <= 4 * (zlen pre + Z.of_nat m) <= 8;
}.

Lemma writing_only_regs s s' t pre m : writing s t pre m -> only_regs s s' -> writing s' t pre m.
Proof. intros [] H. split; [by eapply only_regs_wf|..]; by destruct H as (? & ? & -> & _). Qed.

Lemma words_bytes_length ws : zlen (words_bytes ws) = 4 * zlen ws.
Proof.
  unfold zlen, words_bytes. induction ws as [|w ws IH]; [done|]. cbn [map concat]. rewrite length_app, length_le_split.
  cbn [length]. lia.
Qed.

Lemma write_header_width : in_width 32 write_header.
Proof.
  unfold write_header. apply in_width_lor; [done| |done].
  apply in_width_land; [done|done|]. apply request_width; [by left|done..].
Qed.

(** A word that is not the last one. *)
Lemma push_more s t pre m w : writing s t pre (S (S m)) -> in_width 32 w ->
  exists s', apple_spmi_queue_reg_write s SPMI_REQ_QUEUE_PUSH w = Done s' /\ writing s' t (pre ++ [w]) (S m).
Proof.
  intros Hw Hww. pose proof Hw as []. unfold apple_spmi_queue_reg_write. cbv zeta.
  rewrite (wrap_small 32 w) by done. rewrite Z.eqb_refl, wr_data0. unfold push_data.
  change (pre ++ replicate (S (S m)) 0) with (pre ++ [0] ++ replicate (S m) 0).
  rewrite (aset_part pre [0] _ 0) by (simpl; lia). run. cbn [insert list_insert data_length data_filled setf].
  assert (0 <= zlen pre) by (unfold zlen; lia).
  rewrite wr_length0, wr_filled0, (wrap_small 32) by (unfold in_width; lia).
  rewrite (proj2 (Z.leb_gt _ _)) by lia. run.
  match goal with |- context [queue_store ?x _ _ _ _] => assert (Hx : writing x t (pre ++ [w]) (S m)) end.
  { destruct wr_wf0. split; cbn [sdata data_length data_filled scommand resp_fifo sbus setf]; rewrite ?zlen_app; try done;
      try (unfold zlen in *; simpl length; lia). by rewrite <- (assoc_L (++)). }
  destruct (queue_store_ok _ SPMI_REQ_QUEUE_PUSH w false false (wr_wf _ _ _ _ Hx) ltac:(done)) as (s' & -> & Hs').
  exists s'. split; [done|]. by eapply writing_only_regs.
Qed.

(** The last word sends the bytes to the device. *)
Lemma push_last s t pre w : writing s t pre 1 -> in_width 32 w ->
  exists s' t', apple_spmi_queue_reg_write s SPMI_REQ_QUEUE_PUSH w = Done s' /\ idle s' i k t' [write_header] /\
    bytes_of t' = store_bytes (bytes_of t) a (take (Z.to_nat n) (words_bytes (pre ++ [w]))) /\
    (forall b n, plain t b n -> plain t' b n).
Proof.
  intros Hw Hww. pose proof Hw as []. unfold apple_spmi_queue_reg_write. cbv zeta.
  rewrite (wrap_small 32 w) by done. rewrite Z.eqb_refl, wr_data0. unfold push_data.
  change (pre ++ replicate 1 0) with (pre ++ [0] ++ []).
  rewrite (aset_part pre [0] _ 0) by (simpl; lia). run. change (<[0%nat := w]> [0] ++ []) with [w].
  cbn [data_length data_filled scommand sbus resp_fifo setf].
  assert (0 <= zlen pre) by (unfold zlen; lia).
  rewrite wr_length0, wr_filled0, (wrap_small 32) by (unfold in_width; lia).
  rewrite (proj2 (Z.leb_le _ _)) by lia. rewrite wr_command0.
  destruct (request_decodes SPMI_CMD_EXT_WRITEL i a n ltac:(by left) Hi Ha Hn) as (_ & -> & _ & _ & ->).
  set (bs := words_bytes (pre ++ [w])).
  assert (Hbs : zlen (take (Z.to_nat n) bs) = n).
  { unfold zlen. rewrite length_take. pose proof (words_bytes_length (pre ++ [w])) as Hlen. fold bs in Hlen.
    rewrite zlen_app in Hlen. unfold zlen in *. simpl length in *. lia. }
  replace (spmi_send (sbus s) bs n) with (spmi_send (sbus s) (take (Z.to_nat n) bs ++ drop (Z.to_nat n) bs) n)
    by by rewrite take_drop.
  destruct (spmi_send_ok (sbus s) i k t n _ (drop (Z.to_nat n) bs) wr_bus0 wr_current0 ltac:(lia) Hbs)
    as (b1 & t1 & -> & Hb1 & Hc1 & Hby & Hp1); [by rewrite wr_cursor0|].
  run. rewrite (wrap_small 32 n) by (unfold in_width; lia). rewrite Z.eqb_refl.
  fold write_header.
  destruct (empty_push s write_header [] wr_wf0 wr_queue0 ltac:(done)) as (f & Hf & Hfwf & Hfc & Hcap).
  apply bind_Done_inv in Hf as (f1 & -> & [= ->]). run. cbn [sbus setf].
  destruct (spmi_end_ok b1 i k t1 Hb1 Hc1) as (b2 & -> & Hb2 & _). run.
  match goal with |- context [queue_store ?x _ _ _ _] => assert (Hid : idle x i k t1 [write_header]) end.
  { destruct wr_wf0. split; [|done|done| |done].
    - split; cbn; try done. by rewrite Hcap.
    - apply Forall_singleton, write_header_width. }
  destruct (queue_store_ok _ SPMI_REQ_QUEUE_PUSH w true true (id_wf _ _ _ _ _ Hid) ltac:(done)) as (s' & -> & Hs').
  exists s', t1. split; [done|]. split; [by eapply idle_only_regs|]. split; [by rewrite Hby, wr_cursor0|done].
Qed.

Lemma push_words_ok ws : forall s t pre, writing s t pre (length ws) -> ws <> [] -> Forall (in_width 32) ws ->
  exists s' t', guest_push s ws = Done s' /\ idle s' i k t' [write_header] /\
    bytes_of t' = store_bytes (bytes_of t) a (take (Z.to_nat n) (words_bytes (pre ++ ws))) /\
    (forall b n, plain t b n -> plain t' b n).
Proof.
  induction ws as [|w ws IH]; intros s t pre Hw Hne Hws; [done|]. inversion Hws as [|?? Hw1 Hw2]; subst.
  cbn [guest_push]. destruct ws as [|w2 ws].
  - destruct (push_last s t pre w Hw Hw1) as (s' & t' & -> & H'). run. by exists s', t'.
  - destruct (push_more s t pre _ w Hw Hw1) as (s1 & -> & Hs1). run.
    destruct (IH s1 t (pre ++ [w]) Hs1 ltac:(done) Hw2) as (s' & t' & -> & Hid & Hby & Hp).
    exists s', t'. rewrite <- (assoc_L (++)) in Hby. done.
Qed.

(** The request of a write. *)
Lemma push_write_ok s t : idle s i k t [] -> plain t a n ->
  exists s' t', apple_spmi_queue_reg_write s SPMI_REQ_QUEUE_PUSH (request SPMI_CMD_EXT_WRITEL i a n) = Done s' /\
    writing s' t' [] (nwords n) /\ bytes_of t' = bytes_of t /\ (forall b n, plain t b n -> plain t' b n).
Proof.
  intros [Hwf Hd Hq _ Hb] Hpl. unfold apple_spmi_queue_reg_write. cbv zeta.
  rewrite (wrap_small 32 (request _ _ _ _)) by (apply request_width; [by left|done..]).
  rewrite Z.eqb_refl, Hd. unfold push_request.
  destruct (request_decodes SPMI_CMD_EXT_WRITEL i a n ltac:(by left) Hi Ha Hn) as (-> & -> & -> & -> & ->).
  change (u8 SPMI_CMD_EXT_WRITEL) with SPMI_CMD_EXT_WRITEL. cbv zeta.
  change ((SPMI_CMD_EXT_WRITEL =? SPMI_CMD_EXT_WRITE) || (SPMI_CMD_EXT_WRITEL =? SPMI_CMD_EXT_WRITEL)) with true.
  cbv iota. cbn [sbus setf sdata resp_fifo].
  destruct (spmi_start_ok (sbus s) i k t SPMI_CMD_EXT_WRITEL a Hb eq_refl) as (b1 & t1 & -> & Hb1 & Hc1 & Hcur & Hby & Hp1).
  run. change (nonzero 0) with false. cbv iota. cbn [andb]. run.
  fold (nwords n).
  match goal with |- context [queue_store ?x _ _ _ _] => assert (Hx : writing x t1 [] (nwords n)) end.
  { destruct Hwf. assert (Z.of_nat (nwords n) = (n + 3) / 4) as Hnw.
    { unfold nwords. rewrite Z2Nat.id; [done|]. apply Z.div_pos; lia. }
    split; cbn [sdata data_length data_filled scommand resp_fifo sbus setf]; try done; [by apply Hp1|].
    pose proof (nwords_le n Hn). pose proof (Z.div_mod (n + 3) 4 ltac:(done)).
    pose proof (Z.mod_pos_bound (n + 3) 4 ltac:(done)). change (zlen []) with 0. lia. }
  destruct (queue_store_ok _ SPMI_REQ_QUEUE_PUSH (request SPMI_CMD_EXT_WRITEL i a n) false false
    (wr_wf _ _ _ _ Hx) ltac:(done)) as (s' & -> & Hs').
  exists s', t1. split; [done|]. split; [by eapply writing_only_regs|done].
Qed.
End Writes.

(** ** Sequences of accesses *)

Inductive spmi_op :=
  | QueueWrite (addr data : Z)
  | QueueRead (addr : Z)
  | ControlWrite (addr data : Z)
  | FaultWrite (addr data : Z)
  | Reset.

Definition spmi_step (s : AppleSPMIState) (op : spmi_op) : outcome AppleSPMIState :=
  match op with
  | QueueWrite addr data => apple_spmi_queue_reg_write s addr data
  | QueueRead addr => '(_, s) ← apple_spmi_queue_reg_read s addr; mret s
  | ControlWrite addr data => apple_spmi_control_write s addr data
  | FaultWrite addr data => apple_spmi_fault_write s addr data
  | Reset => apple_spmi_reset_exit (apple_spmi_reset_enter s)
  end.

Fixpoint spmi_steps (s : AppleSPMIState) (ops : list spmi_op) : outcome AppleSPMIState :=
  match ops with
  | [] => mret s
  | op :: ops' => s ← spmi_step s op; spmi_steps s ops'
  end.

(** [inv_binds H] takes apart a computation [H] that returned. *)
Ltac inv_binds H :=
  repeat match type of H with
  | _ ≫= _ = Done _ => let x := fresh "x" in let Hx := fresh "Hx" in
      apply bind_Done_inv in H as (x & Hx & H); cbv beta iota in H; try inv_binds Hx
  | (let '(_, _) := ?p in _) = Done _ => destruct p; cbv beta iota in H
  | match ?p with pair _ _ => _ end = Done _ => destruct p; cbv beta iota in H
  | mret _ = Done _ => injection H as H; subst
  | Done _ = Done _ => injection H as H; subst
  | (if ?c then _ else _) = Done _ => destruct c eqn:?; cbv beta iota in H
  | match ?c with Some _ => _ | None => _ end = Done _ => destruct c eqn:?; cbv beta iota in H
  | (_, _) = (_, _) => injection H as ??; subst
  end; try discriminate.

#[local] Create HintDb held.

Section Held.
Context (k : nat).

Definition held (b : SPMIBus) : Prop := current_dev b = Some k.

Lemma end_held b b' : held b -> spmi_end_transfer b = Done b' -> held b'.
Proof. unfold held. intros H E. unfold spmi_end_transfer in E. rewrite H in E. inv_binds E. done. Qed.

Lemma start_held b b' i opc a r : held b -> spmi_start_transfer b i opc a = Done (r, b') -> held b'.
Proof.
  unfold held. intros H E. unfold spmi_start_transfer in E. rewrite H in E. cbv zeta in E. rewrite H in E.
  inv_binds E; done.
Qed.

Lemma send_held b b' d n r : held b -> spmi_send b d n = Done (r, b') -> held b'.
Proof. unfold held. intros H E. unfold spmi_send in E. rewrite H in E. inv_binds E; done. Qed.

Lemma recv_held b b' d n r : held b -> spmi_recv b d n = Done (r, b') -> held b'.
Proof. unfold held. intros H E. unfold spmi_recv in E. rewrite H in E. inv_binds E; done. Qed.

#[local] Hint Resolve end_held start_held send_held recv_held : held.

Lemma update_irq_bus s s' : apple_spmi_update_irq s = Done s' -> sbus s' = sbus s.
Proof. intros E. unfold apple_spmi_update_irq in E. inv_binds E. done. Qed.

Lemma reset_enter_bus s : sbus (apple_spmi_reset_enter s) = sbus s.
Proof. reflexivity. Qed.

Lemma update_queues_bus s s' : apple_spmi_update_queues_status s = Done s' -> sbus s' = sbus s.
Proof.
  intros E. unfold apple_spmi_update_queues_status, apple_spmi_set_irq in E. inv_binds E; by apply update_irq_bus in E.
Qed.

Lemma queue_store_bus s s' addr v qf lf : queue_store s addr v qf lf = Done s' -> sbus s' = sbus s.
Proof.
  intros E. unfold queue_store in E. inv_binds E; try (apply update_irq_bus in E); try rewrite E;
    try (by match goal with Hq : apple_spmi_update_queues_status _ = Done _ |- _ => apply update_queues_bus in Hq end); done.
Qed.

Lemma push_request_held s s' v r : held (sbus s) -> push_request s v = Done (s', r) -> held (sbus s').
Proof.
  intros H E. unfold push_request in E. cbv zeta in E.
  match type of E with context [sbus ?x] => set (s0 := x) in E end.
  assert (H0 : held (sbus s0)) by (unfold s0; by case_match). clearbody s0.
  inv_binds E; cbn [sbus setf] in *; eauto with held.
Qed.

Lemma push_data_held s s' d v r : held (sbus s) -> push_data s d v = Done (s', r) -> held (sbus s').
Proof. intros H E. unfold push_data in E. cbv zeta in E. inv_binds E; cbn [sbus setf] in *; eauto with held. Qed.

Lemma queue_write_held s s' addr v : held (sbus s) -> apple_spmi_queue_reg_write s addr v = Done s' -> held (sbus s').
Proof.
  intros H E. unfold apple_spmi_queue_reg_write in E. inv_binds E; apply queue_store_bus in E || idtac; try rewrite E;
    eauto using push_request_held, push_data_held.
Qed.

Lemma queue_read_held s s' addr v : held (sbus s) -> apple_spmi_queue_reg_read s addr = Done (v, s') -> held (sbus s').
Proof.
  intros H E. unfold apple_spmi_queue_reg_read in E. inv_binds E; try done.
  all: repeat match goal with
    | H : apple_spmi_update_irq _ = Done _ |- _ => apply update_irq_bus in H; rewrite ?H; clear H
    | H : apple_spmi_update_queues_status _ = Done _ |- _ => apply update_queues_bus in H; rewrite ?H; clear H
    end; done.
Qed.

Lemma control_write_held s s' addr v : held (sbus s) -> apple_spmi_control_write s addr v = Done s' -> held (sbus s').
Proof.
  intros H E. unfold apple_spmi_control_write in E. cbv zeta in E. destruct (nonzero _) in E; inv_binds E; try done.
  all: apply update_queues_bus in E; by rewrite E.
Qed.

Lemma reset_held s s' : held (sbus s) -> apple_spmi_reset_exit (apple_spmi_reset_enter s) = Done s' -> held (sbus s').
Proof.
  intros H E. rewrite <- reset_enter_bus in H. generalize dependent (apple_spmi_reset_enter s). intros s0 H E.
  unfold apple_spmi_reset_exit in E. apply bind_Done_inv in E as (s1 & Hq & E).
  apply update_queues_bus in Hq. apply update_irq_bus in E. by rewrite E, Hq.
Qed.

Lemma spmi_step_held s op s' : held (sbus s) -> spmi_step s op = Done s' -> held (sbus s').
Proof.
  intros H. destruct op; unfold spmi_step; intros E.
  - by eapply queue_write_held.
  - inv_binds E. by eapply queue_read_held.
  - by eapply control_write_held.
  - unfold apple_spmi_fault_write in E. inv_binds E. done.
  - by eapply reset_held.
Qed.

Lemma spmi_steps_held ops : forall s s', held (sbus s) -> spmi_steps s ops = Done s' -> held (sbus s').
Proof.
  induction ops as [|op ops IH]; intros s s' H E; cbn [spmi_steps] in E; inv_binds E; [done|].
  eauto using spmi_step_held.
Qed.
End Held.

(** ** Properties *)

Lemma words_bytes_bytes ws : Forall (in_width 8) (words_bytes ws).
Proof. unfold words_bytes. induction ws; cbn [map concat]; [constructor|]. by apply Forall_app; split; [apply le_split_bytes|]. Qed.

(** C32: Through the controller's queue, a guest reads back the bytes it wrote
    to a device's plain registers: the write of one to eight bytes is answered
    with the flag that says they were taken, the read with a mask of as many
    ones as there were bytes, and the words that follow are the bytes written
    with zeros behind them.  It is proved against what a device promises, for
    the power management unit and the baseband alike. *)
Theorem spmi_registers_roundtrip {T} {C : SPMISlaveClass T} {L : SPMIRegisters T} s i k (t : T) a n ws :
  idle s i k t [] -> in_width 4 i -> in_width 16 a -> 1 <= n <= 8 -> plain t a n ->
  length ws = nwords n -> Forall (in_width 32) ws ->
  exists s1 s2 t2, guest_write s i a n ws = Done ([write_header i a n], s1) /\
    guest_read s1 i a n = Done (read_header i a n ::
      bytes_words (nwords n) (take (Z.to_nat n) (words_bytes ws) ++ replicate 3 0), s2) /\ idle s2 i k t2 [].
Proof.
  intros Hid Hi Ha Hn Hpl Hlen Hws. unfold guest_write, guest_read. cbn [guest_push].
  destruct (push_write_ok i a n k Hi Ha Hn s t Hid Hpl) as (s1 & t1 & -> & Hw & Hb1 & Hp1). run.
  rewrite <- Hlen in Hw. assert (Hz : zlen (take (Z.to_nat n) (words_bytes ws)) = n).
  { unfold zlen. rewrite length_take. pose proof (words_bytes_length ws) as Hl.
    pose proof (wr_enough _ _ _ _ _ _ _ _ Hw) as He. unfold zlen in *. simpl length in He. lia. }
  destruct (push_words_ok i a n k Hi Ha Hn ws s1 t1 [] Hw) as (s2 & t2 & -> & Hid2 & Hb2 & Hp2); [|done|].
  { intros ->. unfold words_bytes in Hz. cbn [map concat] in Hz. rewrite take_nil in Hz. change (zlen (@nil Z)) with 0 in Hz. lia. }
  run. cbn [app] in Hb2. destruct (guest_pop_ok [write_header i a n] [] s2 i k t2 Hid2) as (s3 & Hpop & Hid3).
  cbn [length] in Hpop. rewrite Hpop. exists s3.
  assert (Hl : load_bytes (bytes_of t2) a (Z.to_nat n) = take (Z.to_nat n) (words_bytes ws)).
  { rewrite Hb2. replace (Z.to_nat n) with (length (take (Z.to_nat n) (words_bytes ws))) at 2 by (unfold zlen in Hz; lia).
    apply load_store. }
  destruct (push_read_ok s3 i k t2 a n Hid3 Hi Ha Hn) as (s4 & t4 & -> & Hid4 & _); [by apply Hp2, Hp1|..].
  { rewrite Hl. apply Forall_take, words_bytes_bytes. }
  run. rewrite Hl in Hid4. rewrite <- (app_nil_r (read_header i a n :: _)) in Hid4.
  destruct (guest_pop_ok _ [] s4 i k t4 Hid4) as (s5 & Hpop5 & Hid5).
  cbn [length] in Hpop5. rewrite length_bytes_words in Hpop5. rewrite Hpop5. by exists s5, t4.
Qed.

Definition pmu_example : SpmiPmu.AppleSPMIPMUState :=
  SpmiPmu.mkPmu false None 0x500 0x300 0x200 0x310 0x320 0x330 ∅ 0 0 false.

Definition spmi_example : AppleSPMIState :=
  apple_spmi_init [mkSpmiSlave _ SpmiPmu.spmi_pmu_class 1 pmu_example;
                   mkSpmiSlave _ SpmiBaseband.spmi_baseband_class 2 (SpmiBaseband.mkBb false ∅ 0)] SPMI_RESP_IRQ.

Lemma spmi_example_idle : idle spmi_example 1 0 pmu_example [].
Proof.
  destruct (fifo8_create_wf (u32 (SPMI_QUEUE_DEPTH * 4))) as [Hwf Hc]; [done|].
  split; [|done|exact Hc|constructor|]. 2: { split; [done|by right]. }
  split; [done|by right|done|exact Hwf|done].
Qed.

Lemma spmi_registers_roundtrip_witness :
  exists s1 s2 (t2 : SpmiPmu.AppleSPMIPMUState), guest_write spmi_example 1 0x40 5 [0x44332211; 0x99] = Done ([write_header 1 0x40 5], s1) /\
    guest_read s1 1 0x40 5 = Done (read_header 1 0x40 5 :: [0x44332211; 0x99], s2) /\ idle s2 1 0 t2 [].
Proof.
  change [0x44332211; 0x99] with (bytes_words (nwords 5) (take (Z.to_nat 5) (words_bytes [0x44332211; 0x99]) ++ replicate 3 0)) at 2.
  apply (spmi_registers_roundtrip spmi_example 1 0 pmu_example 0x40 5 [0x44332211; 0x99] spmi_example_idle).
  - done.
  - done.
  - done.
  - repeat split; try done; [by left|]. intros k Hk. unfold SpmiPmu.sets_alarm.
    change (SpmiPmu.reg_alarm_ctrl pmu_example) with 0x320. change (SpmiPmu.reg_alarm pmu_example) with 0x310.
    by eval_cmp.
  - done.
  - by repeat apply Forall_cons_2.
Defined.

(** Once a transfer has reached a device, the bus keeps it for good: after
    any further accesses to the controller, a reset included, every request is
    handed to that device whatever identifier it names. *)
Theorem spmi_bus_sticks k s ops s' : current_dev (sbus s) = Some k -> spmi_steps s ops = Done s' ->
  current_dev (sbus s') = Some k /\
  forall i j opc a, spmi_start_transfer (sbus s') i opc a = spmi_start_transfer (sbus s') j opc a.
Proof.
  intros Hk E. pose proof (spmi_steps_held k ops s s' Hk E) as Hh. split; [done|].
  intros i j opc a. unfold held in Hh. unfold spmi_start_transfer. rewrite Hh. cbv zeta iota. reflexivity.
Qed.

(** The unit was read; the guest then resets the controller. *)
Definition spmi_example_held : AppleSPMIState :=
  spmi_example <| sbus ::= fun b => b <| current_dev := Some 0%nat |> |>.

Lemma spmi_bus_sticks_witness : exists s',
  spmi_steps spmi_example_held [QueueWrite SPMI_REQ_QUEUE_PUSH (request SPMI_CMD_EXT_READL 1 0x40 4);
    QueueRead SPMI_RSP_QUEUE_POP; QueueRead SPMI_RSP_QUEUE_POP; Reset] = Done s' /\
  current_dev (sbus s') = Some 0%nat /\
  forall i j opc a, spmi_start_transfer (sbus s') i opc a = spmi_start_transfer (sbus s') j opc a.
Proof.
  destruct (spmi_steps _ _) as [s'| | |] eqn:E.
  1: exists s'; split; [reflexivity|]; exact (spmi_bus_sticks 0 spmi_example_held _ s' eq_refl E).
  all: exfalso; apply (f_equal is_done) in E; vm_compute in E; discriminate.
Defined.

(** ** Corners *)

(** The sixteenth bit of the counter is lost at the last register: the loop goes
    on at address 0 and indexes in front of the buffer. *)
Lemma pmu_send_wraps p b : SpmiPmu.addr p = 0xFFFF -> SpmiPmu.sets_alarm p 0xFFFF = false ->
  SpmiPmu.apple_spmi_pmu_send p [b] 1 = Oob.
Proof.
  intros Ha Hs. unfold SpmiPmu.apple_spmi_pmu_send. change (S (Z.to_nat 1)) with 2%nat. cbn [SpmiPmu.pmu_send_bytes].
  rewrite Ha. change (0xFFFF <? 0xFFFF + 1) with true. cbv iota. change (aget [b] (0xFFFF - 0xFFFF)) with (Done b). run.
  rewrite mset_ok by done. run.
  change (SpmiPmu.sets_alarm (p <| SpmiPmu.reg := <[65535 := b]> (SpmiPmu.reg p) |>)) with (SpmiPmu.sets_alarm p).
  rewrite Hs. run. change (u16 (0xFFFF + 1) <? 0xFFFF + 1) with true. cbv iota. cbn [SpmiPmu.addr setf]. by rewrite Ha.
Qed.

(** The baseband's array is a byte too short for its addresses. *)
Lemma baseband_last_register p b : SpmiBaseband.addr p = 0xFFFF ->
  SpmiBaseband.apple_spmi_baseband_send p [b] 1 = Oob.
Proof.
  intros Ha. unfold SpmiBaseband.apple_spmi_baseband_send. change (S (Z.to_nat 1)) with 2%nat.
  cbn [SpmiBaseband.bb_send_bytes]. by rewrite Ha.
Qed.

(** Half a tick before a second is over the fraction is rounded up to 2^15 ticks
    and masked to 0: the clock falls back by a second. *)
Lemma pmu_tick_falls_back : SpmiPmu.raw_tick 999984742 = 0 /\ SpmiPmu.raw_tick 999984741 = 32767.
Proof. by vm_compute. Qed.

(** The answers of reads no guest pops fill the queue, and the next one fails
    the queue's assertion. *)
Lemma spmi_unread_answers_abort :
  guest_push spmi_example (replicate 86 (request SPMI_CMD_EXT_READL 1 0x40 8)) = Abort.
Proof. by vm_compute. Qed.

(** A write to a device that is not there keeps the buffer: the next request is
    taken for the data of that write. *)
Lemma spmi_failed_write_keeps_data :
  match guest_push spmi_example [request SPMI_CMD_EXT_WRITEL 3 0x40 4] with
  | Done s => sdata s = Some [0] /\
      match guest_push s [request SPMI_CMD_EXT_READL 1 0x40 4] with
      | Done s' => sdata s' = None /\ current_dev (sbus s') = None /\ fifo32_num_used (resp_fifo s') = 1
      | _ => False
      end
  | _ => False
  end.
Proof. by vm_compute. Qed.

Module SpmiPmuClock.
Import SpmiPmu.

Lemma insert_get size m i x : 0 <= i < size -> mget size (<[i := x]> m) i = Done x.
Proof. intros. by rewrite mget_ok, lookup_insert_eq. Qed.

Lemma insert_get_ne size m i j x : 0 <= i < size -> i <> j -> mget size (<[j := x]> m) i = mget size m i.
Proof. intros. rewrite !mget_ok, lookup_insert_ne by done. done. Qed.

Lemma tick_fields o : in_width 47 o ->
  ((o .>> 39) .& Z.ones 8) .<< 39 .| ((o .>> 31) .& Z.ones 8) .<< 31
  .| ((o .>> 23) .& Z.ones 8) .<< 23 .| ((o .>> 15) .& Z.ones 8) .<< 15
  .| (((o .>> 8) .& Z.ones 7) .& Z.ones 7) .<< 8 .| (o .& Z.ones 8) = o.
Proof.
  intros Ho. apply Z.bits_inj'. intros i Hi.
  destruct (Z.lt_ge_cases i 47).
  - assert (0 <= i < 8 \/ 8 <= i < 15 \/ 15 <= i < 23 \/ 23 <= i < 31 \/ 31 <= i < 39 \/ 39 <= i < 47) as Hcase by lia.
    destruct Hcase as [?|[?|[?|[?|[?|?]]]]]; do 3 (autorewrite with cbits; eval_cmp; simpl);
      rewrite ?andb_false_r, ?orb_false_r, ?andb_true_r; simpl; f_equal; lia.
  - rewrite (testbit_high 47 o i) by (done || lia).
    do 3 (autorewrite with cbits; eval_cmp; simpl). rewrite ?andb_false_r. simpl.
    done.
Qed.

(** The offset of 47 bits is kept whole in the scratch registers. *)
Lemma tick_offset_roundtrip p o : in_width 47 o -> 0 <= reg_leg_scrpad p -> reg_leg_scrpad p + 23 <= REG_SIZE ->
  exists p', apple_spmi_pmu_set_tick_offset p o = Done p' /\ apple_spmi_pmu_get_tick_offset p' = Done o /\
    clock p' = clock p.
Proof.
  intros Ho H0 Hend. unfold apple_spmi_pmu_set_tick_offset, REG_SIZE, R_LEG_SCRPAD_OFFSET_SECS, R_LEG_SCRPAD_OFFSET_TICKS in *.
  set (l := reg_leg_scrpad p) in *.
  rewrite !(wrap_small 32 (l + 4)), !(wrap_small 32 (l + 21)) by (unfold in_width; lia).
  rewrite !(wrap_small 32 (_ + _)) by (unfold in_width; lia).
  repeat (rewrite mset_ok by lia; run). eexists. split; [done|]. split; [|done].
  unfold apple_spmi_pmu_get_tick_offset, R_LEG_SCRPAD_OFFSET_SECS, R_LEG_SCRPAD_OFFSET_TICKS, REG_SIZE.
  cbn [reg_leg_scrpad reg setf]. fold l.
  rewrite !(wrap_small 32 (l + 4)), !(wrap_small 32 (l + 21)) by (unfold in_width; lia).
  rewrite !(wrap_small 32 (_ + _)) by (unfold in_width; lia).
  repeat first [rewrite insert_get by lia; run | rewrite insert_get_ne by lia].
  f_equal. change 0xFF with (Z.ones 8). change 0x7F with (Z.ones 7). by apply tick_fields.
Qed.
Lemma raw_tick_width now : 0 <= now < 2 ^ 32 * NANOSECONDS_PER_SECOND -> in_width 47 (raw_tick now).
Proof.
  intros Hnow. unfold raw_tick. cbv zeta.
  assert (0 <= now / NANOSECONDS_PER_SECOND < 2 ^ 32).
  { split; [apply Z.div_pos; [lia|done]|apply Z.div_lt_upper_bound; [done|lia]]. }
  rewrite Z.shiftl_mul_pow2 by lia. rewrite (wrap_small 64) by (unfold in_width; lia).
  apply in_width_lor; [done|unfold in_width; lia|]. change 0x7FFF with (Z.ones 15). rewrite Z.land_ones by lia.
  pose proof (Z.mod_pos_bound ((now mod NANOSECONDS_PER_SECOND * RTC_TICK_FREQ + NANOSECONDS_PER_SECOND / 2)
    / NANOSECONDS_PER_SECOND) (2 ^ 15) ltac:(done)). unfold in_width. lia.
Qed.

(** The unit's clock reads zero when the machine is made. *)
Lemma pmu_clock_starts_at_zero rtc alarm ctrl event mask scrpad now :
  0 <= now < 2 ^ 32 * NANOSECONDS_PER_SECOND -> 0 <= scrpad -> scrpad + 23 <= REG_SIZE ->
  exists p, apple_spmi_pmu_from_node rtc alarm ctrl event mask scrpad now = Done p /\
    apple_rtc_get_current_tick p = Done 0.
Proof.
  intros Hnow H0 Hend. unfold apple_spmi_pmu_from_node. cbv zeta.
  set (p0 := mkPmu _ _ _ _ _ _ _ _ _ _ _ _).
  assert (Hz : apple_spmi_pmu_get_tick_offset p0 = Done 0).
  { unfold apple_spmi_pmu_get_tick_offset, R_LEG_SCRPAD_OFFSET_SECS, R_LEG_SCRPAD_OFFSET_TICKS, REG_SIZE in *.
    cbn [reg_leg_scrpad reg p0].
    rewrite !(wrap_small 32 (scrpad + 4)), !(wrap_small 32 (scrpad + 21)) by (unfold in_width; lia).
    rewrite !(wrap_small 32 (_ + _)) by (unfold in_width; lia).
    by repeat (rewrite mget_ok by lia; run). }
  pose proof (raw_tick_width now Hnow) as Hw.
  assert (Hu : u64 now = now) by (apply wrap_small; unfold in_width, NANOSECONDS_PER_SECOND in *; lia).
  unfold apple_rtc_get_current_tick, apple_rtc_ns_to_tick. rewrite Hz. run.
  change (clock p0) with now. rewrite Hu, Z.sub_0_r, (wrap_small 64) by (unfold in_width in *; lia).
  destruct (tick_offset_roundtrip p0 (raw_tick now) Hw H0 Hend) as (p & -> & Hg & Hc).
  exists p. split; [done|]. rewrite Hg. run. rewrite Hc. change (clock p0) with now. by rewrite Hu, Z.sub_diag.
Qed.
End SpmiPmuClock.
