(* ===== verification/Uart.v ===== *)
(** * The serial port

    Model of [hw/char/apple_uart.c]: the registers, the receive queue of
    [Fifo8], the interrupt line and the receive timeout.  The character back end
    is the list [sent] of the bytes written to it and the flag [connected]; the
    virtual clock is a field, the timer the deadline it is armed for. *)

From S2P Require Import Prelude Fifo8.

Definition ULCON : Z := 0x00.
Definition UCON : Z := 0x04.
Definition UFCON : Z := 0x08.
Definition UMCON : Z := 0x0C.
Definition UTRSTAT : Z := 0x10.
Definition UERSTAT : Z := 0x14.
Definition UFSTAT : Z := 0x18.
Definition UMSTAT : Z := 0x1C.
Definition UTXH : Z := 0x20.
Definition URXH : Z := 0x24.
Definition UBRDIV : Z := 0x28.
Definition UFRACVAL : Z := 0x2C.
Definition APPLE_UART_REGS_MEM_SIZE : Z := 0x3C.

(** The index of a register in the array. *)
Definition I_ (offset : Z) : Z := offset / 4.

Definition UCON_TXTHRESH_ENA : Z := BIT 13.
Definition UCON_RXTHRESH_ENA : Z := BIT 12.
Definition UCON_RXTIMEOUT_ENA : Z := BIT 9.
Definition UFCON_FIFO_ENABLE : Z := BIT 0.
Definition UFCON_Rx_FIFO_RESET : Z := BIT 1.
Definition UFCON_Tx_FIFO_RESET : Z := BIT 2.
Definition UFCON_Tx_FIFO_TRIGGER_LEVEL_SHIFT : Z := 6.
Definition UFCON_Rx_FIFO_TRIGGER_LEVEL_SHIFT : Z := 4.
Definition UFSTAT_Rx_FIFO_FULL : Z := BIT 8.
Definition UTRSTAT_Rx_TIMEOUT : Z := BIT 3.
Definition UTRSTAT_Tx_THRESH : Z := BIT 5.
Definition UTRSTAT_Rx_THRESH : Z := BIT 4.
Definition UTRSTAT_Tx_EMPTY : Z := BIT 2.
Definition UTRSTAT_Tx_BUFFER_EMPTY : Z := BIT 1.
Definition UTRSTAT_Rx_BUFFER_DATA_READY : Z := BIT 0.
Definition UERSTAT_BREAK : Z := 0x8.

Inductive uart_parity := ParityEven | ParityOdd | ParityNone.

Record QEMUSerialSetParams := mkSsp {
  speed : Z;
  parity : uart_parity;
  data_bits : Z;
  stop_bits : Z;
}.

Record AppleUartState := mkUart {
  reg : list Z;
  rx : Fifo8;
  tx : Fifo8;
  fifo_timeout_timer : option Z;
  wordtime : Z;
  irq : bool;
  channel : Z;
  last_irq : Z;
  connected : bool;
  sent : list Z;
  ssp : option QEMUSerialSetParams;
  clock : Z;
}.
#[global] Instance eta_AppleUartState : Eta AppleUartState := fun s =>
  mkUart (reg s) (rx s) (tx s) (fifo_timeout_timer s) (wordtime s) (irq s) (channel s) (last_irq s)
    (connected s) (sent s) (ssp s) (clock s).

(** [s->reg[I_(offset)]] for a register that is named. *)
Definition rd (s : AppleUartState) (offset : Z) : Z := default 0 (reg s !! Z.to_nat (I_ offset)).
Definition wr (s : AppleUartState) (offset x : Z) : AppleUartState := s <| reg ::= <[Z.to_nat (I_ offset) := x]> |>.

Definition apple_uart_FIFO_trigger_level (ch r : Z) : Z :=
  u32 (if ch =? 0 then r * 32
       else if (ch =? 1) || (ch =? 4) then r * 8
       else if (ch =? 2) || (ch =? 3) then r * 2
       else 0).

Definition apple_uart_Tx_FIFO_trigger_level (s : AppleUartState) : Z :=
  apple_uart_FIFO_trigger_level (channel s)
    ((rd s UFCON .& (3 .<< UFCON_Tx_FIFO_TRIGGER_LEVEL_SHIFT)) .>> UFCON_Tx_FIFO_TRIGGER_LEVEL_SHIFT).

Definition apple_uart_Rx_FIFO_trigger_level (s : AppleUartState) : Z :=
  apple_uart_FIFO_trigger_level (channel s)
    (((rd s UFCON .& (3 .<< UFCON_Rx_FIFO_TRIGGER_LEVEL_SHIFT)) .>> UFCON_Rx_FIFO_TRIGGER_LEVEL_SHIFT) + 1).

(** The transmit part of [apple_uart_update_irq], with the mask. *)
Definition tx_threshold (s : AppleUartState) (mask : Z) : AppleUartState * Z :=
  if nonzero (rd s UCON .& UCON_TXTHRESH_ENA) then
    let mask := mask .| (UTRSTAT_Tx_THRESH .| UTRSTAT_Tx_EMPTY .| UTRSTAT_Tx_BUFFER_EMPTY) in
    (if (fifo8_num_used (tx s) <=? apple_uart_Tx_FIFO_trigger_level s) && negb (nonzero (last_irq s .& UTRSTAT_Tx_THRESH))
     then wr s UTRSTAT (rd s UTRSTAT .| UTRSTAT_Tx_THRESH) else s, mask)
  else (s, mask).

(** The receive part. *)
Definition rx_threshold (s : AppleUartState) (mask : Z) : AppleUartState * Z :=
  let '(s, mask) :=
    if nonzero (rd s UCON .& UCON_RXTHRESH_ENA) then
      (if apple_uart_Rx_FIFO_trigger_level s <=? fifo8_num_used (rx s)
       then wr s UTRSTAT (rd s UTRSTAT .| UTRSTAT_Rx_THRESH) <| fifo_timeout_timer := None |> else s,
       mask .| UTRSTAT_Rx_THRESH)
    else (s, mask) in
  (s, if nonzero (rd s UCON .& UCON_RXTIMEOUT_ENA) then mask .| UTRSTAT_Rx_TIMEOUT else mask).

Definition apple_uart_update_irq (s : AppleUartState) : AppleUartState :=
  let mask := UTRSTAT_Rx_BUFFER_DATA_READY in
  let '(s, mask) :=
    if nonzero (rd s UFCON .& UFCON_FIFO_ENABLE) then
      let '(s, mask) := tx_threshold s mask in rx_threshold s mask
    else (s, mask) in
  if nonzero (rd s UTRSTAT .& mask) then s <| last_irq := rd s UTRSTAT .& mask |> <| irq := true |>
  else s <| irq := false |>.

Definition apple_uart_timeout_int (s : AppleUartState) : AppleUartState :=
  if nonzero (rd s UTRSTAT .& UTRSTAT_Rx_BUFFER_DATA_READY) || nonzero (rd s UCON .& UCON_RXTIMEOUT_ENA) then
    apple_uart_update_irq (wr s UTRSTAT (rd s UTRSTAT .| UTRSTAT_Rx_TIMEOUT))
  else s.

(** The parameters the line registers stand for. *)
Definition line_params (s : AppleUartState) : outcome QEMUSerialSetParams :=
  let par := if nonzero (rd s ULCON .& 0x20) then
               if nonzero (rd s ULCON .& 0x28) then ParityEven else ParityOdd
             else ParityNone in
  let stop := if nonzero (rd s ULCON .& 0x4) then 2 else 1 in
  let bits := (rd s ULCON .& 0x3) + 5 in
  let divisor := u32 ((u32 (16 * rd s UBRDIV) .& 0xffff) + (rd s UFRACVAL .& 0x7) + 16) in
  if divisor =? 0 then Abort else mret (mkSsp (24000000 / divisor) par bits stop).

Definition apple_uart_update_parameters (s : AppleUartState) : outcome AppleUartState :=
  if rd s UBRDIV =? 0 then mret s
  else
    p ← line_params s;
    if speed p =? 0 then Abort
    else mret (s <| wordtime := NANOSECONDS_PER_SECOND * (data_bits p + stop_bits p + 1) / speed p |> <| ssp := Some p |>).

Definition apple_uart_rx_timeout_set (s : AppleUartState) : AppleUartState :=
  if nonzero (rd s UCON .& UCON_RXTIMEOUT_ENA) then
    let timeout := u32 (((rd s UCON .>> 12) .& 0x0f) * wordtime s) in
    s <| fifo_timeout_timer := Some (clock s + timeout) |>
  else s <| fifo_timeout_timer := None |>.

Definition write_ufcon (s : AppleUartState) (val : Z) : AppleUartState :=
  let s := wr s UFCON (u32 val) in
  let s := if nonzero (val .& UFCON_Rx_FIFO_RESET) then
             wr (s <| rx := fifo8_reset (rx s) |>) UFCON (rd s UFCON .&~ UFCON_Rx_FIFO_RESET) else s in
  if nonzero (val .& UFCON_Tx_FIFO_RESET) then
    wr (s <| tx := fifo8_reset (tx s) |>) UFCON (rd s UFCON .&~ UFCON_Tx_FIFO_RESET) else s.

Definition write_utxh (s : AppleUartState) (val : Z) : AppleUartState :=
  if connected s then
    let s := wr s UTRSTAT (rd s UTRSTAT .&~ (UTRSTAT_Tx_EMPTY .| UTRSTAT_Tx_BUFFER_EMPTY)) in
    let s := s <| sent ::= fun l => l ++ [u8 val] |> in
    apple_uart_update_irq (wr s UTRSTAT (rd s UTRSTAT .| (UTRSTAT_Tx_EMPTY .| UTRSTAT_Tx_BUFFER_EMPTY)))
  else s.

(** The register [UCON] has a case of its own, which does not store it. *)
Definition apple_uart_write (s : AppleUartState) (offset val : Z) : outcome AppleUartState :=
  if (offset =? ULCON) || (offset =? UBRDIV) || (offset =? UFRACVAL) then
    apple_uart_update_parameters (wr s offset (u32 val))
  else if offset =? UFCON then mret (write_ufcon s val)
  else if offset =? UTXH then mret (write_utxh s val)
  else if offset =? UTRSTAT then
    mret (apple_uart_update_irq (wr s UTRSTAT (rd s UTRSTAT .&~ (val .& UTRSTAT_Tx_EMPTY))))
  else if offset =? UERSTAT then mret (apple_uart_update_irq (wr s UERSTAT (rd s UERSTAT .&~ u32 val)))
  else if (offset =? UFSTAT) || (offset =? UMSTAT) || (offset =? URXH) then mret s
  else if offset =? UCON then mret (apple_uart_update_irq s)
  else r ← aset (reg s) (I_ offset) (u32 val); mret (s <| reg := r |>).

Definition read_urxh (s : AppleUartState) : outcome (Z * AppleUartState) :=
  if nonzero (rd s UFCON .& UFCON_FIFO_ENABLE) then
    if nonzero (fifo8_num_used (rx s)) then
      '(res, f) ← fifo8_pop (rx s);
      let s := s <| rx := f |> in
      mret (res, if fifo8_is_empty (rx s) then wr s UTRSTAT (rd s UTRSTAT .&~ UTRSTAT_Rx_BUFFER_DATA_READY)
                 else wr s UTRSTAT (rd s UTRSTAT .| UTRSTAT_Rx_BUFFER_DATA_READY))
    else mret (0, s)
  else
    let s := wr s UTRSTAT (rd s UTRSTAT .&~ UTRSTAT_Rx_BUFFER_DATA_READY) in
    mret (rd s URXH, s).

Definition apple_uart_read (s : AppleUartState) (offset : Z) : outcome (Z * AppleUartState) :=
  if offset =? UERSTAT then mret (rd s UERSTAT, wr s UERSTAT 0)
  else if offset =? UFSTAT then
    let v := fifo8_num_used (rx s) .& 0xf in
    let v := if fifo8_num_free (rx s) =? 0 then v .| UFSTAT_Rx_FIFO_FULL else v in
    mret (v, wr s UFSTAT v)
  else if offset =? URXH then read_urxh s
  else if offset =? UTXH then mret (0, s)
  else v ← aget (reg s) (I_ offset); mret (v, s).

Definition apple_uart_can_receive (s : AppleUartState) : Z :=
  if nonzero (rd s UFCON .& UFCON_FIFO_ENABLE) then fifo8_num_free (rx s)
  else Z.b2z (negb (nonzero (rd s UTRSTAT .& UTRSTAT_Rx_BUFFER_DATA_READY))).

Definition apple_uart_receive (s : AppleUartState) (buf : list Z) : outcome AppleUartState :=
  s ← (if nonzero (rd s UFCON .& UFCON_FIFO_ENABLE) then
         let n := if fifo8_num_free (rx s) <? zlen buf then fifo8_num_free (rx s) else zlen buf in
         f ← fifo8_push_all (rx s) (take (Z.to_nat n) buf);
         mret (apple_uart_rx_timeout_set (s <| rx := f |>))
       else b ← aget buf 0; mret (wr s URXH b));
  mret (apple_uart_update_irq (wr s UTRSTAT (rd s UTRSTAT .| UTRSTAT_Rx_BUFFER_DATA_READY))).

(** A break condition on the line. *)
Definition apple_uart_event (s : AppleUartState) : outcome AppleUartState :=
  f ← fifo8_push (rx s) 0;
  let s := s <| rx := f |> in
  mret (apple_uart_update_irq (wr s UERSTAT (rd s UERSTAT .| UERSTAT_BREAK))).

Definition apple_uart_regs : list (Z * Z) :=
  [(ULCON, 0); (UCON, 0); (UFCON, 0); (UMCON, 0); (UTRSTAT, 6); (UERSTAT, 0); (UFSTAT, 0); (UMSTAT, 0);
   (UTXH, 0x5c5c5c5c); (URXH, 0); (UBRDIV, 0); (UFRACVAL, 0)].

Definition apple_uart_reset (s : AppleUartState) : AppleUartState :=
  let s := foldl (fun s p => wr s (fst p) (snd p)) s apple_uart_regs in
  s <| rx := fifo8_reset (rx s) |> <| tx := fifo8_reset (tx s) |>.

Definition apple_uart_post_load (s : AppleUartState) : outcome AppleUartState :=
  s ← apple_uart_update_parameters s; mret (apple_uart_rx_timeout_set s).

(** Creation; [None] is the error that a queue is too large. *)
Definition apple_uart_realize (rx_size tx_size ch : Z) (conn : bool) : option AppleUartState :=
  if (16 <=? rx_size) || (16 <=? tx_size) then None
  else Some (mkUart (replicate 15 0) (fifo8_create rx_size) (fifo8_create tx_size) None
               (NANOSECONDS_PER_SECOND * 10 / 115200) false ch 0 conn [] None 0).

(** ** The invariant *)

Definition params_ok (p : QEMUSerialSetParams) : Prop :=
  366 <= speed p <= 1500000 /\ 5 <= data_bits p <= 8 /\ 1 <= stop_bits p <= 2.

Record uart_ok (s : AppleUartState) : Prop := {
  uo_len : length (reg s) = 15%nat;
  uo_words : Forall (in_width 32) (reg s);
  uo_rx : fifo8_wf (rx s);
  uo_rx_cap : capacity (rx s) < 16;
  uo_tx : fifo8_wf (tx s);
  uo_wordtime : 0 < wordtime s <= 32786885;
  uo_ssp : forall p, ssp s = Some p -> params_ok p;
}.

Lemma rd_width s o : uart_ok s -> in_width 32 (rd s o).
Proof.
  intros Hs. unfold rd. destruct (reg s !! _) as [x|] eqn:E; [|done]. cbn.
  by apply (proj1 (Forall_lookup _ _) (uo_words _ Hs) _ _ E).
Qed.

Lemma wr_ok s o x : uart_ok s -> in_width 32 x -> uart_ok (wr s o x).
Proof. intros [] Hx. split; cbn; try done; [by rewrite length_insert|by apply Forall_insert]. Qed.

Lemma rd_wr s o x : uart_ok s -> 0 <= o < APPLE_UART_REGS_MEM_SIZE -> rd (wr s o x) o = x.
Proof.
  intros Hs Ho. unfold rd, wr. cbn [reg setf]. rewrite list_lookup_insert_eq; [done|].
  rewrite (uo_len _ Hs). unfold I_, APPLE_UART_REGS_MEM_SIZE in *.
  pose proof (Z.div_lt_upper_bound o 4 15 ltac:(lia) ltac:(lia)). pose proof (Z.div_pos o 4). lia.
Qed.

Lemma rd_wr_ne s o o' x : Z.to_nat (I_ o) <> Z.to_nat (I_ o') -> rd (wr s o x) o' = rd s o'.
Proof. intros Hne. unfold rd, wr. cbn [reg setf]. by rewrite list_lookup_insert_ne. Qed.

(** What an update of the interrupts leaves alone. *)
Record uart_same (s s' : AppleUartState) : Prop := {
  us_ok : uart_ok s -> uart_ok s';
  us_rx : rx s' = rx s;
  us_ufcon : rd s' UFCON = rd s UFCON;
  us_ucon : rd s' UCON = rd s UCON;
}.

Lemma uart_same_refl s : uart_same s s.
Proof. by split. Qed.

Lemma uart_same_trans s1 s2 s3 : uart_same s1 s2 -> uart_same s2 s3 -> uart_same s1 s3.
Proof. intros [] []. split; [by auto|congruence..]. Qed.

Lemma stat_same s x : (uart_ok s -> in_width 32 x) -> uart_same s (wr s UTRSTAT x).
Proof. intros Hx. split; [|done|by rewrite rd_wr_ne|by rewrite rd_wr_ne]. intros Hs. apply wr_ok; auto. Qed.

Lemma or_width s o n : 0 <= n < 32 -> uart_ok s -> in_width 32 (rd s o .| BIT n).
Proof. intros Hn Hs. apply in_width_lor; [done|by apply rd_width|by apply in_width_BIT]. Qed.

Lemma tx_threshold_same s mask : uart_same s (fst (tx_threshold s mask)).
Proof.
  unfold tx_threshold. destruct (nonzero _); [|apply uart_same_refl]. cbv zeta.
  destruct (_ && _); cbn [fst]; [|apply uart_same_refl]. apply stat_same. by apply or_width.
Qed.

Lemma timer_same s t : uart_same s (s <| fifo_timeout_timer := t |>).
Proof. split; try done. intros []. by split. Qed.

Lemma rx_threshold_same s mask : uart_same s (fst (rx_threshold s mask)).
Proof.
  unfold rx_threshold. destruct (nonzero _); [|apply uart_same_refl].
  destruct (_ <=? _); cbn [fst]; [|apply uart_same_refl].
  eapply uart_same_trans; [|apply timer_same]. apply stat_same. by apply or_width.
Qed.

Lemma update_same s : uart_same s (apple_uart_update_irq s).
Proof.
  unfold apple_uart_update_irq. cbv zeta.
  assert (H : uart_same s (fst (if nonzero (rd s UFCON .& UFCON_FIFO_ENABLE)
    then let '(s, mask) := tx_threshold s UTRSTAT_Rx_BUFFER_DATA_READY in rx_threshold s mask
    else (s, UTRSTAT_Rx_BUFFER_DATA_READY)))).
  { destruct (nonzero _); [|apply uart_same_refl].
    pose proof (tx_threshold_same s UTRSTAT_Rx_BUFFER_DATA_READY) as Ht.
    destruct (tx_threshold s UTRSTAT_Rx_BUFFER_DATA_READY) as [s1 m1]. cbn [fst] in Ht.
    eapply uart_same_trans; [exact Ht|apply rx_threshold_same]. }
  destruct (if nonzero (rd s UFCON .& UFCON_FIFO_ENABLE) then _ else _) as [s1 m1]. cbn [fst] in H.
  eapply uart_same_trans; [exact H|]. destruct (nonzero _); split; try done; intros []; by split.
Qed.

(** ** Operations preserve the invariant *)

Lemma ok_rx s f : uart_ok s -> fifo8_wf f -> capacity f = capacity (rx s) -> uart_ok (s <| rx := f |>).
Proof. intros [] Hf Hc. split; cbn [rx setf reg tx wordtime ssp]; try done. by rewrite Hc. Qed.

Lemma and_range x m k : in_width 32 x -> 0 <= k -> m = Z.ones k -> 0 <= x .& m < 2 ^ k.
Proof.
  intros Hx Hk ->. rewrite Z.land_ones by done. apply Z.mod_pos_bound. by apply Z.pow_pos_nonneg.
Qed.

Lemma line_params_ok s : uart_ok s -> exists p, line_params s = Done p /\ params_ok p.
Proof.
  intros Hs. unfold line_params.
  pose proof (and_range (rd s ULCON) 0x3 2 (rd_width s _ Hs) ltac:(lia) eq_refl) as Hb.
  pose proof (and_range (rd s UFRACVAL) 0x7 3 (rd_width s _ Hs) ltac:(lia) eq_refl) as Hf.
  pose proof (and_range (u32 (16 * rd s UBRDIV)) 0xffff 16 (wrap_range 32 _ ltac:(lia)) ltac:(lia) eq_refl) as Hd.
  change (2 ^ 2) with 4 in Hb. change (2 ^ 3) with 8 in Hf. change (2 ^ 16) with 65536 in Hd.
  set (d := u32 _ .& 0xffff) in *. set (f := rd s UFRACVAL .& 7) in *. set (b := rd s ULCON .& 3) in *.
  cbv zeta. rewrite (wrap_small 32 (d + f + 16)) by (split; lia).
  destruct (Z.eqb_spec (d + f + 16) 0); [lia|].
  eexists. split; [done|]. unfold params_ok. cbn [speed data_bits stop_bits].
  split; [|split; [lia|destruct (nonzero _); lia]]. split.
  - apply Z.div_le_lower_bound; lia.
  - apply Z.lt_succ_r, Z.div_lt_upper_bound; lia.
Qed.

Lemma wordtime_range p : params_ok p ->
  0 < NANOSECONDS_PER_SECOND * (data_bits p + stop_bits p + 1) / speed p <= 32786885.
Proof.
  intros (Hs & Hd & Ht). unfold NANOSECONDS_PER_SECOND. split.
  - apply Z.lt_le_trans with 1; [lia|]. apply Z.div_le_lower_bound; lia.
  - apply Z.lt_succ_r, Z.div_lt_upper_bound; lia.
Qed.

Lemma update_parameters_ok s : uart_ok s -> exists s', apple_uart_update_parameters s = Done s' /\ uart_ok s'.
Proof.
  intros Hs. unfold apple_uart_update_parameters. destruct (_ =? 0); [by exists s|].
  destruct (line_params_ok s Hs) as (p & -> & Hp). run. pose proof Hp as (Hv & _ & _).
  destruct (Z.eqb_spec (speed p) 0); [lia|]. eexists. split; [done|].
  destruct Hs. split; cbn [rx setf reg tx wordtime ssp]; try done; [by apply wordtime_range|].
  by intros q [= <-].
Qed.

Lemma rx_timeout_set_same s : uart_same s (apple_uart_rx_timeout_set s).
Proof. unfold apple_uart_rx_timeout_set. destruct (nonzero _); apply timer_same. Qed.

Lemma fifo8_reset_wf f : fifo8_wf f -> fifo8_wf (fifo8_reset f).
Proof. intros []. split; cbn; try done; lia. Qed.

Lemma ok_resets s (br bt : bool) : uart_ok s ->
  uart_ok (s <| rx := if br then fifo8_reset (rx s) else rx s |> <| tx := if bt then fifo8_reset (tx s) else tx s |>).
Proof.
  intros []. split; cbn [rx setf reg tx wordtime ssp]; try done.
  - destruct br; [by apply fifo8_reset_wf|done].
  - by destruct br.
  - destruct bt; [by apply fifo8_reset_wf|done].
Qed.

Lemma andn_width x y : in_width 32 x -> in_width 32 (x .&~ y).
Proof. apply in_width_ldiff. lia. Qed.

Lemma write_ufcon_ok s val : uart_ok s -> uart_ok (write_ufcon s val).
Proof.
  intros Hs. unfold write_ufcon.
  assert (Hr : forall s, uart_ok s -> uart_ok (s <| rx := fifo8_reset (rx s) |>)) by (intros; by apply (ok_resets _ true false)).
  assert (Ht : forall s, uart_ok s -> uart_ok (s <| tx := fifo8_reset (tx s) |>)) by (intros; by apply (ok_resets _ false true)).
  assert (H1 : uart_ok (wr s UFCON (u32 val))) by (apply wr_ok; [done|by apply wrap_range]).
  set (s1 := wr s UFCON (u32 val)) in *. cbv zeta.
  assert (H2 : uart_ok (if nonzero (val .& UFCON_Rx_FIFO_RESET) then
    wr (s1 <| rx := fifo8_reset (rx s1) |>) UFCON (rd s1 UFCON .&~ UFCON_Rx_FIFO_RESET) else s1)).
  { destruct (nonzero _); [|done]. apply wr_ok; [by apply Hr|]. by apply andn_width, rd_width. }
  set (s2 := if nonzero (val .& UFCON_Rx_FIFO_RESET) then _ else s1) in *. clearbody s2.
  destruct (nonzero (val .& UFCON_Tx_FIFO_RESET)); [|done]. apply wr_ok; [by apply Ht|]. by apply andn_width, rd_width.
Qed.

Lemma write_utxh_ok s val : uart_ok s -> uart_ok (write_utxh s val).
Proof.
  intros Hs. unfold write_utxh. destruct (connected s); [|done].
  apply (us_ok _ _ (update_same _)).
  set (s1 := wr s UTRSTAT _). assert (H1 : uart_ok s1) by (apply wr_ok; [done|by apply andn_width, rd_width]).
  assert (H2 : uart_ok (s1 <| sent ::= fun l => l ++ [u8 val] |>)) by (destruct H1; by split).
  apply wr_ok; [done|]. apply in_width_lor; [done|by apply rd_width|done].
Qed.

Lemma apple_uart_write_ok s offset val : uart_ok s -> 0 <= offset < APPLE_UART_REGS_MEM_SIZE ->
  exists s', apple_uart_write s offset val = Done s' /\ uart_ok s'.
Proof.
  intros Hs Ho. unfold apple_uart_write.
  assert (Hu : forall s, uart_ok s -> uart_ok (apple_uart_update_irq s)) by (intros s0; apply (us_ok _ _ (update_same s0))).
  assert (Hw : in_width 32 (u32 val)) by by apply wrap_range.
  destruct (_ || _); [apply update_parameters_ok; by apply wr_ok|].
  destruct (offset =? UFCON); [eexists; split; [done|by apply write_ufcon_ok]|].
  destruct (offset =? UTXH); [eexists; split; [done|by apply write_utxh_ok]|].
  destruct (offset =? UTRSTAT); [eexists; split; [done|apply Hu, wr_ok; [done|by apply andn_width, rd_width]]|].
  destruct (offset =? UERSTAT); [eexists; split; [done|apply Hu, wr_ok; [done|by apply andn_width, rd_width]]|].
  destruct (_ || _); [by exists s|].
  destruct (offset =? UCON); [eexists; split; [done|by apply Hu]|].
  assert (Hi : 0 <= I_ offset < zlen (reg s)).
  { unfold zlen. rewrite (uo_len _ Hs). unfold I_, APPLE_UART_REGS_MEM_SIZE in *.
    split; [by apply Z.div_pos; lia|apply Z.div_lt_upper_bound; lia]. }
  rewrite aset_in_range by done. run. eexists. split; [done|].
  apply (wr_ok s offset _ Hs Hw).
Qed.

(** With the queue enabled a read of the data register takes its oldest byte. *)
Lemma read_fifo s : uart_ok s -> nonzero (rd s UFCON .& UFCON_FIFO_ENABLE) = true ->
  exists s', read_urxh s = Done (hd 0 (contents (rx s)), s') /\ uart_ok s' /\ rd s' UFCON = rd s UFCON /\
    capacity (rx s') = capacity (rx s) /\ contents (rx s') = tl (contents (rx s)).
Proof.
  intros Hs He. unfold read_urxh. rewrite He. unfold fifo8_num_used.
  rewrite <- (length_contents _ (uo_rx _ Hs)).
  destruct (contents (rx s)) as [|b q] eqn:Hq; [by exists s; rewrite Hq|].
  change (nonzero (zlen (b :: q))) with true.
  destruct (fifo8_pop_ok _ _ _ (uo_rx _ Hs) Hq) as (f & -> & Hf & Hcf & Hc & _). run.
  eexists. split; [done|]. assert (H1 : uart_ok (s <| rx := f |>)) by by apply ok_rx.
  destruct (fifo8_is_empty _); (split; [apply wr_ok|]; [done| |by rewrite rd_wr_ne]);
    [by apply andn_width, rd_width|by apply or_width].
Qed.

Lemma read_urxh_ok s : uart_ok s -> exists r s', read_urxh s = Done (r, s') /\ uart_ok s'.
Proof.
  intros Hs. destruct (nonzero (rd s UFCON .& UFCON_FIFO_ENABLE)) eqn:He.
  - destruct (read_fifo s Hs He) as (s' & E & Ho & _). by exists (hd 0 (contents (rx s))), s'.
  - unfold read_urxh. rewrite He. do 2 eexists. split; [done|].
    apply wr_ok; [done|by apply andn_width, rd_width].
Qed.

Lemma apple_uart_read_ok s offset : uart_ok s -> 0 <= offset < APPLE_UART_REGS_MEM_SIZE ->
  exists r s', apple_uart_read s offset = Done (r, s') /\ uart_ok s'.
Proof.
  intros Hs Ho. unfold apple_uart_read.
  destruct (offset =? UERSTAT); [do 2 eexists; split; [done|by apply wr_ok]|].
  destruct (offset =? UFSTAT).
  { do 2 eexists. split; [done|]. apply wr_ok; [done|].
    pose proof (wf_num _ (uo_rx _ Hs)). pose proof (uo_rx_cap _ Hs).
    assert (in_width 32 (fifo8_num_used (rx s) .& 15)).
    { apply in_width_land; [done..|]. unfold in_width, fifo8_num_used. lia. }
    destruct (_ =? 0); [by apply in_width_lor|done]. }
  destruct (offset =? URXH); [by apply read_urxh_ok|].
  destruct (offset =? UTXH); [by exists 0, s|].
  destruct (aget_in_range (reg s) (I_ offset)) as [v ->].
  { unfold zlen. rewrite (uo_len _ Hs). unfold I_, APPLE_UART_REGS_MEM_SIZE in *.
    split; [by apply Z.div_pos; lia|apply Z.div_lt_upper_bound; lia]. }
  run. by exists v, s.
Qed.

(** What a received buffer does to the queue, with the queue enabled. *)
Lemma receive_fifo s buf : uart_ok s -> nonzero (rd s UFCON .& UFCON_FIFO_ENABLE) = true ->
  exists s', apple_uart_receive s buf = Done s' /\ uart_ok s' /\ rd s' UFCON = rd s UFCON /\
    capacity (rx s') = capacity (rx s) /\
    contents (rx s') = take (Z.to_nat (capacity (rx s))) (contents (rx s) ++ buf).
Proof.
  intros Hs He. unfold apple_uart_receive. rewrite He. cbv zeta.
  pose proof (uo_rx _ Hs) as Hwf. pose proof (wf_num _ Hwf) as Hn. pose proof (length_contents _ Hwf) as Hl.
  set (n := if _ <? _ then _ else _).
  assert (En : n = Z.min (capacity (rx s) - num (rx s)) (zlen buf)).
  { unfold n. rewrite (eq_refl : fifo8_num_free (rx s) = u32 (capacity (rx s) - num (rx s))), wrap_small.
    - destruct (Z.ltb_spec (capacity (rx s) - num (rx s)) (zlen buf)); lia.
    - pose proof (uo_rx_cap _ Hs). unfold in_width. lia. }
  clearbody n. unfold zlen in *.
  destruct (fifo8_push_all_ok (rx s) (take (Z.to_nat n) buf) Hwf) as (f & -> & Hf & Hcf & Hc).
  { unfold zlen. rewrite length_take. lia. }
  run. eexists. split; [done|].
  assert (H1 : uart_ok (apple_uart_rx_timeout_set (s <| rx := f |>))).
  { apply (us_ok _ _ (rx_timeout_set_same _)). by apply ok_rx. }
  set (s1 := apple_uart_rx_timeout_set _) in *.
  assert (Hs1 : rx s1 = f /\ rd s1 UFCON = rd s UFCON).
  { unfold s1. by rewrite (us_rx _ _ (rx_timeout_set_same _)), (us_ufcon _ _ (rx_timeout_set_same _)). }
  clearbody s1. destruct Hs1 as [Hr1 Hu1].
  assert (Hst : uart_same s1 (wr s1 UTRSTAT (rd s1 UTRSTAT .| UTRSTAT_Rx_BUFFER_DATA_READY)))
    by (apply stat_same; by apply or_width).
  pose proof (uart_same_trans _ _ _ Hst (update_same _)) as [Ho Hx Hu _].
  split; [by apply Ho|]. rewrite Hu, Hx, Hr1, Hc, Hcf. split; [done|]. split; [done|].
  rewrite take_app, (take_ge (contents (rx s))) by lia. f_equal.
  destruct (Z.le_gt_cases (capacity (rx s) - num (rx s)) (Z.of_nat (length buf))).
  - f_equal. lia.
  - rewrite !take_ge by lia. done.
Qed.

Lemma receive_ok s buf : uart_ok s -> buf <> [] -> Forall (in_width 8) buf ->
  exists s', apple_uart_receive s buf = Done s' /\ uart_ok s'.
Proof.
  intros Hs Hne Hb. destruct (nonzero (rd s UFCON .& UFCON_FIFO_ENABLE)) eqn:He.
  { destruct (receive_fifo s buf Hs He) as (s' & E & Ho & _). by exists s'. }
  unfold apple_uart_receive. rewrite He. destruct buf as [|b q]; [done|].
  change (aget (b :: q) 0) with (Done b). run. eexists. split; [done|].
  assert (H1 : uart_ok (wr s URXH b)).
  { apply wr_ok; [done|]. apply Forall_cons in Hb as [Hb _]. unfold in_width in *. lia. }
  apply (us_ok _ _ (update_same _)), wr_ok; [done|by apply or_width].
Qed.

Lemma uart_event_ok s : uart_ok s -> num (rx s) < capacity (rx s) ->
  exists s', apple_uart_event s = Done s' /\ uart_ok s'.
Proof.
  intros Hs Hn. unfold apple_uart_event.
  destruct (fifo8_push_ok (rx s) 0 (uo_rx _ Hs) Hn) as (f & -> & Hf & _ & Hc & _). run.
  eexists. split; [done|]. assert (H1 : uart_ok (s <| rx := f |>)) by by apply ok_rx.
  apply (us_ok _ _ (update_same _)), wr_ok; [done|]. apply in_width_lor; [done|by apply rd_width|done].
Qed.

Lemma timeout_int_same s : uart_same s (apple_uart_timeout_int s).
Proof.
  unfold apple_uart_timeout_int. destruct (_ || _); [|apply uart_same_refl].
  eapply uart_same_trans; [|apply update_same]. apply stat_same. by apply or_width.
Qed.

Lemma uart_reset_ok s : uart_ok s -> uart_ok (apple_uart_reset s).
Proof.
  intros Hs. unfold apple_uart_reset, apple_uart_regs. cbn [foldl fst snd].
  apply (ok_resets _ true true). by repeat apply wr_ok.
Qed.

Lemma realize_ok rxn txn ch conn : 0 < rxn < 16 -> 0 < txn < 16 ->
  exists s, apple_uart_realize rxn txn ch conn = Some s /\ uart_ok s.
Proof.
  intros Hr Ht. unfold apple_uart_realize.
  destruct (Z.leb_spec 16 rxn); [lia|]. destruct (Z.leb_spec 16 txn); [lia|]. eexists. split; [done|].
  split; cbn [reg rx tx wordtime ssp]; try done; try (apply fifo8_create_wf; lia).
  by apply Forall_replicate.
Qed.

(** ** The port under its environment

    The guest reads and writes registers, the back end delivers buffers and
    breaks, the timer fires, the machine is reset and reloaded. *)

Inductive uart_op :=
  | OpWrite (offset val : Z)
  | OpRead (offset : Z)
  | OpReceive (buf : list Z)
  | OpBreak
  | OpTimeout
  | OpReset
  | OpLoad.

Definition uart_step (s : AppleUartState) (op : uart_op) : outcome AppleUartState :=
  match op with
  | OpWrite offset val => apple_uart_write s offset val
  | OpRead offset => '(_, s) ← apple_uart_read s offset; mret s
  | OpReceive buf => apple_uart_receive s buf
  | OpBreak => apple_uart_event s
  | OpTimeout => mret (apple_uart_timeout_int s)
  | OpReset => mret (apple_uart_reset s)
  | OpLoad => apple_uart_post_load s
  end.

(** The accesses fall in the region, a delivered buffer has bytes, and a break
    finds room in the queue. *)
Definition allowed (s : AppleUartState) (op : uart_op) : Prop :=
  match op with
  | OpWrite offset _ | OpRead offset => 0 <= offset < APPLE_UART_REGS_MEM_SIZE
  | OpReceive buf => buf <> [] /\ Forall (in_width 8) buf
  | OpBreak => num (rx s) < capacity (rx s)
  | _ => True
  end.

(** The states a port goes through under operations of a given kind. *)
Inductive uart_reachable (kind : uart_op -> Prop) : AppleUartState -> Prop :=
  | reach_start rxn txn ch conn s : 0 < rxn < 16 -> 0 < txn < 16 ->
      apple_uart_realize rxn txn ch conn = Some s -> uart_reachable kind (apple_uart_reset s)
  | reach_step s op s' : uart_reachable kind s -> kind op -> allowed s op ->
      uart_step s op = Done s' -> uart_reachable kind s'.

Lemma uart_step_ok s op : uart_ok s -> allowed s op -> exists s', uart_step s op = Done s' /\ uart_ok s'.
Proof.
  intros Hs Ha. destruct op; cbn [uart_step allowed] in *.
  - by apply apple_uart_write_ok.
  - destruct (apple_uart_read_ok s offset Hs Ha) as (r & s' & -> & Ho). run. by exists s'.
  - destruct Ha. by apply receive_ok.
  - by apply uart_event_ok.
  - eexists. split; [done|]. by apply (us_ok _ _ (timeout_int_same s)).
  - eexists. split; [done|]. by apply uart_reset_ok.
  - unfold apple_uart_post_load. destruct (update_parameters_ok s Hs) as (s' & -> & Ho). run.
    eexists. split; [done|]. by apply (us_ok _ _ (rx_timeout_set_same s')).
Qed.

Lemma uart_reachable_ok kind s : uart_reachable kind s -> uart_ok s.
Proof.
  induction 1 as [rxn txn ch conn s Hr Ht E|s op s' _ IH _ Ha E].
  - destruct (realize_ok rxn txn ch conn Hr Ht) as (s0 & E' & Ho). rewrite E in E'. injection E' as ->.
    by apply uart_reset_ok.
  - destruct (uart_step_ok s op IH Ha) as (s1 & E1 & Ho). congruence.
Qed.

(** The serial port never faults: in every state it goes through, whatever
    the guest writes to the registers, each operation returns; there is no division
    by a zero divisor or speed and no access outside the registers or the queue.  The
    parameters handed to the character back end are a speed from 366 to 1500000
    baud, 5 to 8 data bits and 1 or 2 stop bits, and the word time stays below 33
    milliseconds, so the timeout of at most 15 word times fits its 32 bits. *)
Theorem uart_never_faults s : uart_reachable (fun _ => True) s ->
  (forall op, allowed s op -> exists s', uart_step s op = Done s') /\
  (forall p, ssp s = Some p -> params_ok p) /\
  0 < wordtime s /\ in_width 32 (15 * wordtime s).
Proof.
  intros Hs%uart_reachable_ok. pose proof (uo_wordtime _ Hs). split_and!; [|by apply Hs|lia|unfold in_width; lia].
  intros op Ha. destruct (uart_step_ok s op Hs Ha) as (s' & E & _). by exists s'.
Qed.

Definition port_started : AppleUartState :=
  apple_uart_reset (default (mkUart [] (fifo8_create 0) (fifo8_create 0) None 0 false 0 0 false [] None 0)
    (apple_uart_realize 15 15 0 true)).

Definition port_configured : AppleUartState :=
  match uart_step port_started (OpWrite UBRDIV 12) with Done s => s | _ => port_started end.

Lemma uart_never_faults_witness :
  (forall op, allowed port_configured op -> exists s', uart_step port_configured op = Done s') /\
  (forall p, ssp port_configured = Some p -> params_ok p) /\
  0 < wordtime port_configured /\ in_width 32 (15 * wordtime port_configured).
Proof.
  apply uart_never_faults. refine (reach_step _ port_started (OpWrite UBRDIV 12) _ _ I _ _).
  - refine (reach_start _ 15 15 0 true _ _ _ _); [lia|lia|reflexivity].
  - unfold allowed, UBRDIV, APPLE_UART_REGS_MEM_SIZE. lia.
  - reflexivity.
Defined.

(** ** The receiver as a bounded queue *)

Inductive port_event := Arrive (bytes : list Z) | Fetch.

(** The guest's view of a run: the bytes its reads of the data register return. *)
Fixpoint run_port (s : AppleUartState) (evs : list port_event) : outcome (list Z * AppleUartState) :=
  match evs with
  | [] => mret ([], s)
  | Arrive bytes :: evs => s ← apple_uart_receive s bytes; run_port s evs
  | Fetch :: evs =>
      '(b, s) ← apple_uart_read s URXH;
      '(bs, s) ← run_port s evs;
      mret (b :: bs, s)
  end.

(** The same run of a queue of at most [cap] bytes that drops what does not fit and
    reads as zero when it is empty. *)
Fixpoint run_queue (cap : Z) (q : list Z) (evs : list port_event) : list Z * list Z :=
  match evs with
  | [] => ([], q)
  | Arrive bytes :: evs => run_queue cap (take (Z.to_nat cap) (q ++ bytes)) evs
  | Fetch :: evs => let '(bs, q') := run_queue cap (tl q) evs in (hd 0 q :: bs, q')
  end.

(** C34: With its queue enabled the receiver implements a bounded queue: over any
    sequence of deliveries and of reads of the data register the guest reads exactly
    the delivered bytes, in order and without loss as long as they fit, whatever the
    interrupt and timeout registers hold. *)
Theorem uart_receives_in_order evs s : uart_ok s -> nonzero (rd s UFCON .& UFCON_FIFO_ENABLE) = true ->
  exists s', run_port s evs = Done (fst (run_queue (capacity (rx s)) (contents (rx s)) evs), s') /\
    contents (rx s') = snd (run_queue (capacity (rx s)) (contents (rx s)) evs) /\ uart_ok s'.
Proof.
  revert s. induction evs as [|[bytes|] evs IH]; intros s Hs He; cbn [run_port run_queue].
  - by exists s.
  - destruct (receive_fifo s bytes Hs He) as (s1 & -> & Ho & Hu & Hc & Hq). run.
    rewrite <- Hq, <- Hc. apply IH; [done|]. by rewrite Hu.
  - destruct (read_fifo s Hs He) as (s1 & E & Ho & Hu & Hc & Hq).
    change (apple_uart_read s URXH) with (read_urxh s). rewrite E. run.
    destruct (IH s1 Ho) as (s2 & -> & Hq2 & Ho2); [by rewrite Hu|]. run.
    rewrite Hc, Hq in *. destruct (run_queue _ _ evs) as [bs q']. by exists s2.
Qed.

Definition port_queue : AppleUartState :=
  match uart_step port_configured (OpWrite UFCON 1) with Done s => s | _ => port_started end.

Definition port_run : list port_event := [Arrive [72; 105]; Fetch; Arrive [33]; Fetch; Fetch; Fetch].

Lemma uart_receives_in_order_witness :
  fst (run_queue (capacity (rx port_queue)) (contents (rx port_queue)) port_run) = [72; 105; 33; 0] /\
  exists s', run_port port_queue port_run =
      Done (fst (run_queue (capacity (rx port_queue)) (contents (rx port_queue)) port_run), s') /\
    contents (rx s') = snd (run_queue (capacity (rx port_queue)) (contents (rx port_queue)) port_run) /\ uart_ok s'.
Proof.
  split; [reflexivity|]. apply uart_receives_in_order; [|reflexivity].
  apply (uart_reachable_ok (fun _ => True)).
  refine (reach_step _ port_configured (OpWrite UFCON 1) _ _ I _ _); [|unfold allowed, UFCON, APPLE_UART_REGS_MEM_SIZE; lia|reflexivity].
  refine (reach_step _ port_started (OpWrite UBRDIV 12) _ _ I _ _); [|unfold allowed, UBRDIV, APPLE_UART_REGS_MEM_SIZE; lia|reflexivity].
  refine (reach_start _ 15 15 0 true _ _ _ _); [lia|lia|reflexivity].
Defined.

(** ** What the port never does *)

(** Accesses to whole registers, as a driver makes them. *)
Definition word_op (op : uart_op) : Prop :=
  match op with OpWrite offset _ | OpRead offset => offset mod 4 = 0 | _ => True end.

Definition quiet (s : AppleUartState) : Prop := rd s UCON = 0 /\ fifo_timeout_timer s = None.

Lemma quiet_wr s offset x : Z.to_nat (I_ offset) <> 1%nat -> quiet s -> quiet (wr s offset x).
Proof. intros Hne [Hu Ht]. split; [|done]. by rewrite rd_wr_ne. Qed.

Lemma quiet_update s : quiet s -> quiet (apple_uart_update_irq s).
Proof.
  intros Hq. pose proof (us_ucon _ _ (update_same s)) as Hu. destruct Hq as [Hc Ht].
  split; [by rewrite Hu|]. unfold apple_uart_update_irq, tx_threshold, rx_threshold. cbv zeta.
  rewrite Hc. change (nonzero (0 .& _)) with false. cbv iota beta. rewrite Hc.
  change (nonzero (0 .& UCON_RXTIMEOUT_ENA)) with false. change (nonzero (0 .& UCON_RXTHRESH_ENA)) with false.
  cbv iota beta.
  destruct (nonzero _); destruct (nonzero _); done.
Qed.

Lemma quiet_timeout_set s : quiet s -> quiet (apple_uart_rx_timeout_set s).
Proof. intros [Hc Ht]. unfold apple_uart_rx_timeout_set. by rewrite Hc. Qed.

Lemma quiet_parameters s s' : quiet s -> apple_uart_update_parameters s = Done s' -> quiet s'.
Proof.
  intros Hq. unfold apple_uart_update_parameters. destruct (_ =? 0); [by intros [= <-]|].
  intros (p & _ & E)%bind_Done_inv. destruct (_ =? 0); [done|]. by injection E as <-.
Qed.

Lemma quiet_write s offset val s' : 0 <= offset -> offset mod 4 = 0 -> quiet s ->
  apple_uart_write s offset val = Done s' -> quiet s'.
Proof.
  intros H0 Hm Hq. unfold apple_uart_write.
  destruct ((offset =? ULCON) || (offset =? UBRDIV) || (offset =? UFRACVAL)) eqn:E1.
  { apply quiet_parameters, quiet_wr; [|done].
    rewrite !orb_true_iff, !Z.eqb_eq in E1. by destruct E1 as [[->| ->]| ->]. }
  destruct (offset =? UFCON).
  { intros [= <-]. unfold write_ufcon. cbv zeta. destruct (nonzero _), (nonzero _); by repeat apply quiet_wr. }
  destruct (offset =? UTXH).
  { intros [= <-]. unfold write_utxh. destruct (connected s); [|done]. by apply quiet_update; repeat apply quiet_wr. }
  destruct (offset =? UTRSTAT); [intros [= <-]; by apply quiet_update, quiet_wr|].
  destruct (offset =? UERSTAT); [intros [= <-]; by apply quiet_update, quiet_wr|].
  destruct ((offset =? UFSTAT) || (offset =? UMSTAT) || (offset =? URXH)); [by intros [= <-]|].
  destruct (Z.eqb_spec offset UCON) as [|Hne]; [intros [= <-]; by apply quiet_update|].
  intros (r & E & [= <-])%bind_Done_inv. unfold aset in E. destruct (_ && _); [|done]. injection E as <-.
  apply (quiet_wr s offset); [|done]. unfold I_, UCON in *.
  pose proof (Z.div_mod offset 4 ltac:(lia)). pose proof (Z.div_pos offset 4 H0 ltac:(lia)). lia.
Qed.

Lemma quiet_read s offset r s' : quiet s -> apple_uart_read s offset = Done (r, s') -> quiet s'.
Proof.
  intros Hq. unfold apple_uart_read. destruct (_ =? _); [intros [= _ <-]; by apply quiet_wr|].
  destruct (_ =? _); [intros [= _ <-]; by apply quiet_wr|].
  destruct (_ =? _).
  { unfold read_urxh. destruct (nonzero _); [|intros [= _ <-]; by apply quiet_wr].
    destruct (nonzero _); [|by intros [= _ <-]]. intros ([b f] & _ & E)%bind_Done_inv.
    injection E as _ <-. destruct (fifo8_is_empty _); by apply quiet_wr. }
  destruct (_ =? _); [by intros [= _ <-]|]. by intros (v & _ & [= _ <-])%bind_Done_inv.
Qed.

Lemma quiet_receive s buf s' : quiet s -> apple_uart_receive s buf = Done s' -> quiet s'.
Proof.
  intros Hq. unfold apple_uart_receive. intros (s1 & E & [= <-])%bind_Done_inv.
  apply quiet_update, quiet_wr; [done|]. destruct (nonzero _).
  - cbv zeta in E. apply bind_Done_inv in E as (f & _ & [= <-]). by apply quiet_timeout_set.
  - apply bind_Done_inv in E as (b & _ & [= <-]). by apply quiet_wr.
Qed.

Lemma reset_ucon s : uart_ok s -> rd (apple_uart_reset s) UCON = 0.
Proof.
  intros Hs. assert (E : rd (foldl (fun s p => wr s (fst p) (snd p)) s apple_uart_regs) UCON = 0); [|exact E].
  unfold apple_uart_regs. cbn [foldl fst snd]. rewrite !rd_wr_ne by (intros [=]).
  apply rd_wr; [by apply wr_ok|]. unfold UCON, APPLE_UART_REGS_MEM_SIZE. lia.
Qed.

Lemma quiet_step s op s' : uart_ok s -> quiet s -> word_op op -> allowed s op -> uart_step s op = Done s' -> quiet s'.
Proof.
  intros Hs Hq Hw Ha. destruct op; cbn [uart_step allowed word_op] in *.
  - destruct Ha. by apply quiet_write.
  - intros ([r s1] & E & [= <-])%bind_Done_inv. by apply quiet_read in E.
  - by apply quiet_receive.
  - unfold apple_uart_event. intros (f & _ & [= <-])%bind_Done_inv. by apply quiet_update, quiet_wr.
  - intros [= <-]. unfold apple_uart_timeout_int. destruct (_ || _); [|done]. by apply quiet_update, quiet_wr.
  - intros [= <-]. destruct Hq as [_ Ht]. split; [|done]. by apply reset_ucon.
  - unfold apple_uart_post_load. intros (s1 & E & [= <-])%bind_Done_inv. apply quiet_timeout_set.
    by apply quiet_parameters in E.
Qed.

(** The control register of the port cannot be written: under any sequence of
    accesses to whole registers, deliveries, breaks and reloads it stays zero, so the
    threshold and timeout interrupts it enables are never enabled and the receive
    timer is never armed. *)
Theorem uart_control_stays_zero s : uart_reachable word_op s -> rd s UCON = 0 /\ fifo_timeout_timer s = None.
Proof.
  enough (H : uart_reachable word_op s -> uart_ok s /\ quiet s) by (intros Hs; by apply H).
  intros Hs. split; [by apply (uart_reachable_ok word_op)|].
  induction Hs as [rxn txn ch conn s Hr Ht E|s op s' Hs IH Hk Ha E].
  - destruct (realize_ok rxn txn ch conn Hr Ht) as (s0 & E' & Ho). rewrite E in E'. injection E' as ->.
    split; [by apply reset_ucon|]. unfold apple_uart_realize in E.
    destruct (_ || _); [done|]. injection E as <-. reflexivity.
  - eapply quiet_step; eauto using uart_reachable_ok.
Qed.

Definition port_enabled : AppleUartState :=
  match uart_step port_started (OpWrite UCON 0x3385) with Done s => s | _ => port_started end.

Lemma uart_control_stays_zero_witness : rd port_enabled UCON = 0 /\ fifo_timeout_timer port_enabled = None.
Proof.
  apply uart_control_stays_zero.
  refine (reach_step _ port_started (OpWrite UCON 0x3385) _ _ _ _ _).
  - refine (reach_start _ 15 15 0 true _ _ _ _); [lia|lia|reflexivity].
  - reflexivity.
  - unfold allowed, UCON, APPLE_UART_REGS_MEM_SIZE. lia.
  - reflexivity.
Defined.

(** A break that finds the queue full aborts on the assertion of [fifo8_push]. *)
Lemma uart_break_full s : uart_ok s -> num (rx s) = capacity (rx s) -> apple_uart_event s = Abort.
Proof.
  intros Hs Hn. unfold apple_uart_event. by rewrite (fifo8_push_full _ _ (uo_rx _ Hs) Hn).
Qed.

(** Odd parity cannot be selected: the test of bit 3 also looks at bit 5. *)
Lemma uart_never_odd s p : line_params s = Done p -> parity p <> ParityOdd.
Proof.
  unfold line_params. cbv zeta. destruct (_ =? 0); [done|]. intros [= <-]. cbn [parity].
  destruct (nonzero (rd s ULCON .& 0x20)) eqn:E; [|done].
  destruct (nonzero (rd s ULCON .& 0x28)) eqn:E'; [done|]. exfalso.
  revert E E'. unfold nonzero. rewrite negb_true_iff, negb_false_iff, Z.eqb_eq, Z.eqb_neq.
  intros E E'. apply E. change 0x20 with (0x28 .& 0x20). by rewrite Z.land_assoc, E'.
Qed.
