(* ===== verification/HostMem.v ===== *)
(** * The memory of the host

    The part of the memory of the emulator that holds an image is a list of bytes; a
    pointer into it is an index, the null pointer is [None], and an access outside
    the list is [Oob].  Words are stored as on a little-endian host. *)

From S2P Require Import Prelude CString.

(** [ldl_le_p] where its result is used as an unsigned word, and [stl_le_p]. *)
Definition load_le (mem : bytes) (p : Z) : outcome Z := le_combine <$> slice mem p 4.
Definition store_le (mem : bytes) (p v : Z) : outcome bytes := blit mem p (le_split 4 v).

Definition load_le64 (mem : bytes) (p : Z) : outcome Z := le_combine <$> slice mem p 8.
Definition store_le64 (mem : bytes) (p v : Z) : outcome bytes := blit mem p (le_split 8 v).

Definition ROUND_UP_16K (v : Z) : Z := u64 (v + 0x3FFF) .&~ 0x3FFF.

(** A pointer that is followed. *)
Definition deref (p : option Z) : outcome Z := match p with Some p => mret p | None => Oob end.

(** The bytes from a pointer on. *)
Definition from (mem : bytes) (p : Z) : outcome bytes := if 0 <=? p then mret (drop (Z.to_nat p) mem) else Oob.

(** [strncmp(p, str, n) == 0] and [strcmp(p, str) == 0] for a string in memory. *)
Fixpoint strncmp_at (n : nat) (mem : bytes) (p : Z) (str : bytes) : outcome bool :=
  match n with
  | O => mret true
  | S n =>
      a ← aget mem p;
      match str with
      | [] => mret (a =? 0)
      | b :: str => if a =? b then strncmp_at n mem (p + 1) str else mret false
      end
  end.

Definition strcmp_at (mem : bytes) (p : Z) (str : bytes) : outcome bool :=
  arr ← from mem p; strcmp_eq arr str.

(** [strstr(p, needle)]: the first occurrence before the terminating zero. *)
Fixpoint is_prefix (needle s : bytes) : bool :=
  match needle, s with
  | [], _ => true
  | a :: needle, b :: s => (a =? b) && is_prefix needle s
  | _ :: _, [] => false
  end.

Fixpoint find_sub (needle s : bytes) (p : Z) : option Z :=
  if is_prefix needle s then Some p
  else match s with [] => None | _ :: s => find_sub needle s (p + 1) end.

Definition strstr (mem : bytes) (p : Z) (needle : bytes) : outcome (option Z) :=
  arr ← from mem p; s ← c_string arr; mret (find_sub needle s p).

(** [g_strstr_len(p, len, needle)]: the search ends [len] bytes on. *)
Definition strstr_len (mem : bytes) (p len : Z) (needle : bytes) : outcome (option Z) :=
  arr ← from mem p; mret (find_sub needle (before_nul (take (Z.to_nat len) arr)) p).

(** ** Computations that end

    A computation that does not fail an assertion: it returns a value with a
    property, leaves the memory, or runs on, which only [loops] allows. *)
Definition ends (loops : Prop) {A} (Q : A -> Prop) (x : outcome A) : Prop :=
  match x with Done a => Q a | Oob => True | NoFuel => loops | Abort => False end.

Abbreviation ok_or_oob := (ends False).

Lemma oo_bind {l A B} (P : A -> Prop) (Q : B -> Prop) (x : outcome A) (f : A -> outcome B) :
  ends l P x -> (forall a, P a -> ends l Q (f a)) -> ends l Q (x ≫= f).
Proof. destruct x; cbn; auto. Qed.

Lemma oo_ret {l A} (Q : A -> Prop) a : Q a -> ends l Q (mret a).
Proof. done. Qed.

Lemma oo_weaken {l A} (Q : A -> Prop) x : ok_or_oob Q x -> ends l Q x.
Proof. by destruct x. Qed.

Lemma slice_oo {l A} (mem : list A) p n : ends l (fun _ => True) (slice mem p n).
Proof. unfold slice. by destruct (_ && _). Qed.

Lemma load_oo {l} mem p : ends l (fun _ => True) (load_le mem p).
Proof. unfold load_le, slice. by destruct (_ && _). Qed.

Lemma load64_oo {l} mem p : ends l (fun _ => True) (load_le64 mem p).
Proof. unfold load_le64, slice. by destruct (_ && _). Qed.

Lemma aget_oo {l A} (mem : list A) p : ends l (fun _ => 0 <= p < zlen mem) (aget mem p).
Proof.
  unfold aget. destruct (Z.leb_spec 0 p); [|done]. destruct (mem !! _) eqn:E; [|done].
  apply lookup_lt_Some in E. unfold zlen. cbn. lia.
Qed.

(** What is written behind a part of a buffer. *)
Lemma blit_at {A} (a d src : list A) : zlen src <= zlen d -> blit (a ++ d) (zlen a) src = Done (a ++ src ++ drop (length src) d).
Proof.
  intros H. unfold blit. rewrite zlen_app. pose proof (Zle_0_nat (length a) : 0 <= zlen a).
  rewrite (proj2 (Z.leb_le _ _)) by lia. rewrite (proj2 (Z.leb_le _ _)) by lia. cbn [andb].
  assert (E : Z.to_nat (zlen a) = length a) by (unfold zlen; lia). rewrite E, take_app_length, <- drop_drop, drop_app_length. done.
Qed.

Lemma slice_at {A} (a b c : list A) : slice (a ++ b ++ c) (zlen a) (zlen b) = Done b.
Proof.
  rewrite slice_in_range by (rewrite ?zlen_app; unfold zlen; lia).
  assert (E : forall l : list A, Z.to_nat (zlen l) = length l) by (intros; unfold zlen; lia).
  by rewrite !E, drop_app_length, take_app_length.
Qed.
