(* ===== verification/Patcher.v ===== *)
(** * The patcher

    Model of [hw/arm/apple-silicon/patcher.c].  The memory of the host that holds
    the image is a list of bytes and a pointer is an index of it, [None] the null
    pointer; the range that is searched is a part of that memory.  A callback may
    change the memory, accepts or declines the match, and can fault. *)

From S2P Require Import Prelude CString HostMem.

Record CKPatcherRange := mkRange {
  addr : Z;
  range_length : Z;
  ptr : Z;
}.

Definition ck_patcher_range_from_ptr (p size : Z) : CKPatcherRange := mkRange 0 size p.

Abbreviation callback := (bytes -> Z -> outcome (bool * bytes)).

(** ** Search for a pattern *)

Fixpoint match_plain (mem : bytes) (p : Z) (pattern : bytes) : outcome bool :=
  match pattern with
  | [] => mret true
  | x :: pattern => b ← aget mem p; if b =? x then match_plain mem (p + 1) pattern else mret false
  end.

Fixpoint match_masked (mem : bytes) (p : Z) (pattern mask : bytes) : outcome bool :=
  match pattern, mask with
  | [], _ => mret true
  | _ :: _, [] => Oob
  | x :: pattern, m :: mask =>
      b ← aget mem p; if b .& m =? x then match_masked mem (p + 1) pattern mask else mret false
  end.

Definition match_here (mem : bytes) (p : Z) (pattern : bytes) (mask : option bytes) : outcome bool :=
  match mask with None => match_plain mem p pattern | Some mask => match_masked mem p pattern mask end.

(** The assertion that the pattern has no bits outside the mask. *)
Fixpoint assert_masked (pattern mask : bytes) : outcome () :=
  match pattern, mask with
  | [], _ => mret tt
  | _ :: _, [] => Oob
  | x :: pattern, m :: mask => c_assert (x .& m =? x);; assert_masked pattern mask
  end.

(** The loop over the positions of the range. *)
Fixpoint search (fuel : nat) (mem : bytes) (range : CKPatcherRange) (pattern : bytes) (mask : option bytes)
    (align : Z) (cb : callback) (i : Z) : outcome (bool * bytes) :=
  match fuel with
  | O => NoFuel
  | S fuel =>
      if i <? range_length range then
        found ← match_here mem (ptr range + i) pattern mask;
        if found : bool then
          '(applied, mem) ← cb mem (ptr range + i);
          if applied : bool then mret (true, mem)
          else search fuel mem range pattern mask align cb (u64 (i + align))
        else search fuel mem range pattern mask align cb (u64 (i + align))
      else mret (false, mem)
  end.

Definition check_align (len align : Z) : outcome Z :=
  if align =? 0 then mret 1 else c_assert (len mod align =? 0);; mret align.

Definition ck_patcher_find_callback_ctx (mem : bytes) (range : CKPatcherRange) (pattern : bytes)
    (mask : option bytes) (align : Z) (cb : callback) : outcome (bool * bytes) :=
  align ← check_align (zlen pattern) align;
  if range_length range <? zlen pattern then mret (false, mem)
  else
    match mask with None => mret tt | Some mask => assert_masked pattern mask end;;
    search (S (Z.to_nat (range_length range))) mem range pattern mask align cb 0.

Definition ck_patcher_find_callback := ck_patcher_find_callback_ctx.

(** ** Replacement of what a pattern finds *)

Fixpoint replace_masked (mem : bytes) (p : Z) (replacement mask : bytes) : outcome bytes :=
  match replacement, mask with
  | [], _ => mret mem
  | _ :: _, [] => Oob
  | r :: replacement, m :: mask =>
      b ← aget mem p; mem ← aset mem p ((b .& m) .| r); replace_masked mem (p + 1) replacement mask
  end.

Definition ck_patcher_find_replace_callback (replacement : bytes) (mask : option bytes) (offset : Z) : callback :=
  fun mem buffer =>
    mem ← match mask with
          | None => blit mem (buffer + offset) replacement
          | Some mask => replace_masked mem (buffer + offset) replacement mask
          end;
    mret (true, mem).

Definition ck_patcher_find_replace (mem : bytes) (range : CKPatcherRange) (pattern : bytes) (mask : option bytes)
    (align : Z) (replacement : bytes) (replacement_mask : option bytes) (replace_off : Z) : outcome (bool * bytes) :=
  c_assert (u64 (replace_off + zlen replacement) <=? zlen pattern);;
  ck_patcher_find_callback_ctx mem range pattern mask align
    (ck_patcher_find_replace_callback replacement replacement_mask replace_off).

(** ** Search for an instruction *)

(** [num] words from [cur] on, [step] bytes apart. *)
Fixpoint insn_loop (num : nat) (mem : bytes) (cur step insn mask : Z) (skip : nat) : outcome (option Z) :=
  match num with
  | O => mret None
  | S num =>
      w ← load_le mem cur;
      if w .& mask =? insn then
        match skip with
        | O => mret (Some cur)
        | S skip => insn_loop num mem (cur + step) step insn mask skip
        end
      else insn_loop num mem (cur + step) step insn mask skip
  end.

Definition ck_patcher_find_next_insn (mem : bytes) (buffer : Z) (num : nat) (insn mask : Z) (skip : nat) : outcome (option Z) :=
  c_assert (insn .& mask =? insn);; insn_loop num mem buffer 4 insn mask skip.

Definition ck_patcher_find_prev_insn (mem : bytes) (buffer : Z) (num : nat) (insn mask : Z) (skip : nat) : outcome (option Z) :=
  c_assert (insn .& mask =? insn);; insn_loop num mem buffer (-4) insn mask skip.

(** ** Reference definitions *)

Definition bytes_at (mem : bytes) (p n : Z) : bytes := take (Z.to_nat n) (drop (Z.to_nat p) mem).

(** Whether bytes are those of a pattern, under its mask if it has one. *)
Definition bytes_match (bs pattern : bytes) (mask : option bytes) : Prop :=
  match mask with None => bs = pattern | Some mask => zip_with Z.land bs mask = pattern end.

#[global] Instance bytes_match_dec bs pattern mask : Decision (bytes_match bs pattern mask).
Proof. unfold bytes_match. destruct mask; apply _. Defined.

Definition matches_at (mem : bytes) (p : Z) (pattern : bytes) (mask : option bytes) : Prop :=
  bytes_match (bytes_at mem p (zlen pattern)) pattern mask.

#[global] Instance matches_at_dec mem p pattern mask : Decision (matches_at mem p pattern mask).
Proof. unfold matches_at. apply _. Defined.

(** The bytes that replace others. *)
Definition patched (old replacement : bytes) (mask : option bytes) : bytes :=
  match mask with None => replacement | Some mask => zip_with Z.lor (zip_with Z.land old mask) replacement end.

Definition patch_at (mem : bytes) (p : Z) (replacement : bytes) (mask : option bytes) : bytes :=
  take (Z.to_nat p) mem ++ patched (bytes_at mem p (zlen replacement)) replacement mask ++
  drop (Z.to_nat p + length replacement) mem.

(** The words of a search that are the instruction. *)
Definition insn_at (mem : bytes) (insn mask p : Z) : bool :=
  match load_le mem p with Done w => w .& mask =? insn | _ => false end.

Definition words_from (buffer step : Z) (num : nat) : list Z := (fun k => buffer + step * Z.of_nat k) <$> seq 0 num.

(** ** The loops against the references *)

Lemma bytes_at_cons mem p n : 0 <= p < zlen mem -> 0 <= n ->
  exists b, aget mem p = Done b /\ bytes_at mem p (n + 1) = b :: bytes_at mem (p + 1) n.
Proof.
  intros Hp Hn. unfold bytes_at, aget, zlen in *. destruct (Z.leb_spec 0 p); [|lia].
  destruct (lookup_lt_is_Some_2 mem (Z.to_nat p) ltac:(lia)) as [b Hb]. rewrite Hb. exists b. split; [done|].
  rewrite (drop_S _ _ _ Hb). replace (Z.to_nat (n + 1)) with (S (Z.to_nat n)) by lia.
  replace (Z.to_nat (p + 1)) with (S (Z.to_nat p)) by lia. done.
Qed.

Lemma zlen_cons {A} (x : A) l : zlen (x :: l) = zlen l + 1.
Proof. unfold zlen. cbn. lia. Qed.

Lemma match_plain_ok mem pattern : forall p, 0 <= p -> p + zlen pattern <= zlen mem ->
  match_plain mem p pattern = Done (bool_decide (matches_at mem p pattern None)).
Proof.
  induction pattern as [|x pattern IH]; intros p Hp Hl; [done|]. cbn [match_plain].
  rewrite zlen_cons in Hl. pose proof (Zle_0_nat (length pattern)).
  destruct (bytes_at_cons mem p (zlen pattern)) as (b & -> & E); [unfold zlen in *; lia..|]. run.
  assert (Hi : matches_at mem p (x :: pattern) None <-> b = x /\ matches_at mem (p + 1) pattern None).
  { unfold matches_at. rewrite zlen_cons, E. cbn [bytes_match]. split; [by intros [= -> ->]|by intros [-> ->]]. }
  destruct (Z.eqb_spec b x) as [->|Hne].
  - rewrite IH by lia. f_equal. apply bool_decide_ext. naive_solver.
  - rewrite bool_decide_eq_false_2; [done|]. naive_solver.
Qed.

Lemma match_masked_ok mem pattern : forall p mask, 0 <= p -> p + zlen pattern <= zlen mem ->
  length mask = length pattern ->
  match_masked mem p pattern mask = Done (bool_decide (matches_at mem p pattern (Some mask))).
Proof.
  induction pattern as [|x pattern IH]; intros p [|m mask] Hp Hl Hm; try done. cbn [match_masked].
  rewrite zlen_cons in Hl. pose proof (Zle_0_nat (length pattern)).
  destruct (bytes_at_cons mem p (zlen pattern)) as (b & -> & E); [unfold zlen in *; lia..|]. run.
  injection Hm as Hm.
  assert (Hi : matches_at mem p (x :: pattern) (Some (m :: mask)) <->
    b .& m = x /\ matches_at mem (p + 1) pattern (Some mask)).
  { unfold matches_at. rewrite zlen_cons, E. cbn [bytes_match zip_with].
    split; [by intros [= -> ->]|by intros [-> ->]]. }
  destruct (Z.eqb_spec (b .& m) x) as [Hx|Hne].
  - rewrite IH by (done || lia). f_equal. apply bool_decide_ext. naive_solver.
  - rewrite bool_decide_eq_false_2; [done|]. naive_solver.
Qed.

Lemma match_here_ok mem p pattern mask : 0 <= p -> p + zlen pattern <= zlen mem ->
  (forall m, mask = Some m -> length m = length pattern) ->
  match_here mem p pattern mask = Done (bool_decide (matches_at mem p pattern mask)).
Proof. destruct mask as [m|]; intros; [apply match_masked_ok; auto|by apply match_plain_ok]. Qed.

Lemma replace_masked_ok replacement : forall mem p mask, 0 <= p -> p + zlen replacement <= zlen mem ->
  length mask = length replacement ->
  replace_masked mem p replacement mask = Done (patch_at mem p replacement (Some mask)).
Proof.
  induction replacement as [|r replacement IH]; intros mem p [|m mask] Hp Hl Hm; try done; cbn [replace_masked].
  { unfold patch_at. cbn [patched length]. by rewrite zip_with_nil_r, app_nil_l, Nat.add_0_r, take_drop. }
  injection Hm as Hm. rewrite zlen_cons in Hl. pose proof (Zle_0_nat (length replacement)).
  destruct (bytes_at_cons mem p (zlen replacement)) as (b & -> & E); [unfold zlen in *; lia..|]. run.
  rewrite aset_in_range by (unfold zlen in *; lia). run.
  rewrite IH; [|lia|unfold zlen in *; rewrite length_insert; lia|done]. f_equal.
  unfold patch_at. rewrite zlen_cons, E. cbn [patched zip_with length].
  replace (Z.to_nat (p + 1)) with (S (Z.to_nat p)) by lia.
  assert (Hlt : (Z.to_nat p < length mem)%nat) by (unfold zlen in *; lia).
  rewrite (take_S_r _ _ ((b .& m) .| r)) by by apply list_lookup_insert_eq.
  rewrite take_insert_ge, drop_insert_lt by lia. unfold bytes_at.
  replace (Z.to_nat (p + 1)) with (S (Z.to_nat p)) by lia. rewrite drop_insert_lt by lia.
  rewrite <- !app_assoc. cbn [app]. do 3 f_equal. f_equal. lia.
Qed.

(** ** What a search does *)

(** The part of the memory a search looks at: the range and as much behind it as a
    match that starts inside it can reach. *)
Record searchable (mem : bytes) (range : CKPatcherRange) (pattern : bytes) (mask : option bytes) : Prop := {
  se_ptr : 0 <= ptr range;
  se_len : 0 < zlen pattern <= range_length range;
  se_end : ptr range + range_length range + zlen pattern - 1 <= zlen mem;
  se_mem : zlen mem < 2 ^ 63;
  se_mask : forall m, mask = Some m -> length m = length pattern;
}.

(** The position a search starts at and ends at. *)
Definition candidate (range : CKPatcherRange) (align i : Z) : Prop := 0 <= i < range_length range /\ (align | i).

Record first_match (mem : bytes) (range : CKPatcherRange) (pattern : bytes) (mask : option bytes) (align i : Z) : Prop := {
  fm_cand : candidate range align i;
  fm_match : matches_at mem (ptr range + i) pattern mask;
  fm_first : forall j, candidate range align j -> j < i -> ~ matches_at mem (ptr range + j) pattern mask;
}.

(** A search whose callback takes every match stops at the first one. *)
Lemma search_first mem range pattern mask align (cb : callback) (patch : Z -> bytes) fuel :
  searchable mem range pattern mask -> 0 < align <= range_length range ->
  (forall i, 0 <= i < range_length range -> cb mem (ptr range + i) = Done (true, patch i)) ->
  forall i, 0 <= i -> (align | i) -> range_length range - i < Z.of_nat fuel -> 0 < Z.of_nat fuel ->
  i < range_length range + align ->
  (forall j, candidate range align j -> j < i -> ~ matches_at mem (ptr range + j) pattern mask) ->
  (exists k, first_match mem range pattern mask align k /\
     search fuel mem range pattern mask align cb i = Done (true, patch k)) \/
  ((forall k, candidate range align k -> ~ matches_at mem (ptr range + k) pattern mask) /\
     search fuel mem range pattern mask align cb i = Done (false, mem)).
Proof.
  intros Hs Ha Hcb. pose proof Hs as [Hp Hl He Hm Hk].
  induction fuel as [|fuel IH]; intros i Hi Hd Hf Hf0 Hb Hno; [lia|]. cbn [search].
  destruct (Z.ltb_spec i (range_length range)) as [Hlt|Hge].
  2: { right. split; [|done]. intros k Hc. apply Hno; [done|]. destruct Hc. lia. }
  rewrite match_here_ok by (done || lia). run.
  destruct (bool_decide_reflect (matches_at mem (ptr range + i) pattern mask)) as [Hy|Hn].
  - left. exists i. split; [by split|]. rewrite Hcb by lia. run. done.
  - assert (Hw : u64 (i + align) = i + align).
    { apply wrap_small. unfold in_width. change (2 ^ 64) with (2 * 2 ^ 63). lia. }
    rewrite Hw. apply IH; try lia; [by apply Z.divide_add_r; [|apply Z.divide_refl]|].
    intros j Hc Hj. destruct (Z.lt_trichotomy j i) as [| [->|Hgt]]; [by apply Hno|done|].
    exfalso. destruct Hc as [_ [q Hq]], Hd as [r Hr].
    assert (r < q < r + 1) by (split; apply (Z.mul_lt_mono_pos_r align); lia). lia.
Qed.

Lemma replace_callback_ok replacement rmask off mem p :
  0 <= p + off -> p + off + zlen replacement <= zlen mem ->
  (forall m, rmask = Some m -> length m = length replacement) ->
  ck_patcher_find_replace_callback replacement rmask off mem p =
    Done (true, patch_at mem (p + off) replacement rmask).
Proof.
  intros Hp Hl Hm. unfold ck_patcher_find_replace_callback. destruct rmask as [m|].
  - rewrite replace_masked_ok by auto. by run.
  - unfold blit. rewrite !(proj2 (Z.leb_le _ _)) by done. by run.
Qed.

(** The preconditions of the header of the patcher. *)
Record patch_ok (pattern : bytes) (mask : option bytes) (align : Z) (replacement : bytes)
    (replacement_mask : option bytes) (off : Z) : Prop := {
  po_align : 0 <= align /\ (align = 0 \/ zlen pattern mod align = 0);
  po_masked : forall m, mask = Some m -> Forall2 (fun x m => x .& m = x) pattern m;
  po_off : 0 <= off /\ off + zlen replacement <= zlen pattern;
  po_rmask : forall m, replacement_mask = Some m -> length m = length replacement;
}.

Definition stride (align : Z) : Z := if align =? 0 then 1 else align.

Lemma assert_masked_ok pattern mask : Forall2 (fun x m => x .& m = x) pattern mask -> assert_masked pattern mask = Done tt.
Proof.
  induction 1 as [|x m pattern mask Hx _ IH]; [done|]. cbn [assert_masked].
  rewrite (proj2 (Z.eqb_eq _ _) Hx). by run.
Qed.

Lemma check_align_ok len align : 0 <= align -> align = 0 \/ len mod align = 0 -> 0 < len ->
  check_align len align = Done (stride align) /\ 0 < stride align <= len.
Proof.
  intros H0 Ha Hl. unfold check_align, stride. destruct (Z.eqb_spec align 0) as [->|Hne]; [split; [done|lia]|].
  destruct Ha as [Ha|Ha]; [done|]. rewrite (proj2 (Z.eqb_eq _ _) Ha). split; [by run|]. split; [lia|].
  apply Z.divide_pos_le; [done|]. by apply Z.mod_divide.
Qed.

(** A replacement finds the first position of the range, in steps of the
    alignment, at which the pattern matches under its mask, changes exactly the bytes
    at the offset in that match, each to the masked old byte joined with the new one,
    and reports success; where no position matches it reports failure and leaves the
    memory alone.  It always ends, without an assertion or an access outside the
    memory, when the pattern is masked, its length a multiple of the alignment and the
    replacement inside it. *)
Theorem find_replace_spec mem range pattern mask align replacement rmask off :
  searchable mem range pattern mask -> patch_ok pattern mask align replacement rmask off ->
  (exists i, first_match mem range pattern mask (stride align) i /\
     ck_patcher_find_replace mem range pattern mask align replacement rmask off =
       Done (true, patch_at mem (ptr range + i + off) replacement rmask)) \/
  ((forall i, candidate range (stride align) i -> ~ matches_at mem (ptr range + i) pattern mask) /\
     ck_patcher_find_replace mem range pattern mask align replacement rmask off = Done (false, mem)).
Proof.
  intros Hs [[Ha0 Ha] Hk [Ho Hol] Hr]. pose proof Hs as [Hp Hl He Hm _].
  pose proof (Zle_0_nat (length replacement) : 0 <= zlen replacement) as Hz.
  unfold ck_patcher_find_replace. rewrite wrap_small.
  2: { unfold in_width. change (2 ^ 64) with (2 * 2 ^ 63). lia. }
  rewrite (proj2 (Z.leb_le _ _) Hol). run. unfold ck_patcher_find_callback_ctx.
  destruct (check_align_ok (zlen pattern) align Ha0 Ha ltac:(lia)) as [-> Hst]. run.
  destruct (Z.ltb_spec (range_length range) (zlen pattern)); [lia|].
  assert (Hmk : match mask with None => mret tt | Some mask => assert_masked pattern mask end = Done tt).
  { destruct mask as [m|]; [|done]. by apply assert_masked_ok, Hk. }
  rewrite Hmk. run.
  apply (search_first mem range pattern mask (stride align) _ (fun i => patch_at mem (ptr range + i + off) replacement rmask));
    try done; try lia; [|apply Z.divide_0_r|intros j [? _]; lia].
  intros i Hi. by apply replace_callback_ok; [lia|lia|].
Qed.

Definition sample_image : bytes := [0x1f; 0x20; 0x03; 0xd5; 0x05; 0x00; 0x18; 0x36; 0x01; 0x00; 0x80; 0x52; 0xc0; 0x03; 0x5f; 0xd6; 0; 0; 0; 0].
Definition sample_pattern : bytes := [0x00; 0x00; 0x18; 0x36].
Definition sample_mask : bytes := [0x00; 0x00; 0xf8; 0xff].
Definition sample_nop : bytes := [0x1f; 0x20; 0x03; 0xd5].

Lemma find_replace_spec_witness :
  let range := mkRange 0 16 0 in
  (exists i, first_match sample_image range sample_pattern (Some sample_mask) (stride 4) i /\
     ck_patcher_find_replace sample_image range sample_pattern (Some sample_mask) 4 sample_nop None 0 =
       Done (true, patch_at sample_image (ptr range + i + 0) sample_nop None)) \/
  ((forall i, candidate range (stride 4) i -> ~ matches_at sample_image (ptr range + i) sample_pattern (Some sample_mask)) /\
     ck_patcher_find_replace sample_image range sample_pattern (Some sample_mask) 4 sample_nop None 0 = Done (false, sample_image)).
Proof.
  intros range. apply find_replace_spec.
  - split; [vm_compute; done|split; vm_compute; done|vm_compute; done|vm_compute; done|by intros m [= <-]].
  - split; [split; [lia|by right]|intros m [= <-]; by repeat constructor|split; vm_compute; done|done].
Defined.

(** A match may end behind the range: the loop runs to its length and not to the
    last position at which the pattern fits.  Here the byte at 3 is outside. *)
Lemma find_replace_past_range :
  ck_patcher_find_replace [1; 2; 3; 4] (mkRange 0 3 0) [3; 4] None 0 [7; 8] None 0 = Done (true, [1; 2; 7; 8]).
Proof. reflexivity. Qed.

(** Where the memory ends with the range, a pattern that begins at its end is read
    past the memory. *)
Lemma find_replace_reads_past :
  ck_patcher_find_replace [1; 2; 3] (mkRange 0 3 0) [3; 4] None 0 [7; 8] None 0 = Oob.
Proof. reflexivity. Qed.

(** ** The search for an instruction *)

Definition words_in (mem : bytes) (buffer step : Z) (num : nat) : Prop :=
  Forall (fun p => 0 <= p /\ p + 4 <= zlen mem) (words_from buffer step num).

Lemma words_from_S buffer step num :
  words_from buffer step (S num) = buffer :: words_from (buffer + step) step num.
Proof.
  unfold words_from. rewrite <- cons_seq, <- fmap_S_seq. cbn [fmap list_fmap]. f_equal; [lia|].
  rewrite <- list_fmap_compose. apply list_fmap_ext. intros i k _. cbn. lia.
Qed.

Lemma load_le_in mem p : 0 <= p -> p + 4 <= zlen mem -> exists w, load_le mem p = Done w.
Proof. intros. unfold load_le. rewrite slice_in_range by lia. by eexists. Qed.

Lemma insn_loop_ok mem step insn mask num : forall buffer skip, words_in mem buffer step num ->
  insn_loop num mem buffer step insn mask skip =
    Done (filter (fun p => insn_at mem insn mask p = true) (words_from buffer step num) !! skip).
Proof.
  induction num as [|num IH]; intros buffer skip Hw; [done|].
  unfold words_in in Hw. rewrite words_from_S in *. apply Forall_cons in Hw as [[H0 H4] Hw].
  cbn [insn_loop]. destruct (load_le_in mem buffer H0 H4) as [w E].
  assert (Hi : insn_at mem insn mask buffer = (w .& mask =? insn)) by (unfold insn_at; by rewrite E).
  rewrite E. run. destruct (w .& mask =? insn); [rewrite filter_cons_True by done|rewrite filter_cons_False by by rewrite Hi].
  - destruct skip; [done|]. cbn [lookup list_lookup]. by apply IH.
  - by apply IH.
Qed.

(** The searches for an instruction return the position of the match number
    [skip], counted from zero away from the start, among the [num] words in that
    direction, and the null pointer exactly when there are not that many matches. *)
Theorem find_insn_spec mem buffer num insn mask skip : insn .& mask = insn ->
  (words_in mem buffer 4 num -> ck_patcher_find_next_insn mem buffer num insn mask skip =
     Done (filter (fun p => insn_at mem insn mask p = true) (words_from buffer 4 num) !! skip)) /\
  (words_in mem buffer (-4) num -> ck_patcher_find_prev_insn mem buffer num insn mask skip =
     Done (filter (fun p => insn_at mem insn mask p = true) (words_from buffer (-4) num) !! skip)).
Proof.
  intros Hm. unfold ck_patcher_find_next_insn, ck_patcher_find_prev_insn.
  rewrite (proj2 (Z.eqb_eq _ _) Hm). run. split; apply insn_loop_ok.
Qed.

Lemma find_insn_spec_witness :
  0x52800000 .& 0xffffffe0 = 0x52800000 /\
  words_in sample_image 0 4 4 /\
  ck_patcher_find_next_insn sample_image 0 4 0x52800000 0xffffffe0 0 =
    Done (filter (fun p => insn_at sample_image 0x52800000 0xffffffe0 p = true) (words_from 0 4 4) !! 0%nat) /\
  filter (fun p => insn_at sample_image 0x52800000 0xffffffe0 p = true) (words_from 0 4 4) !! 0%nat = Some 8.
Proof.
  assert (H : words_in sample_image 0 4 4) by (repeat constructor; vm_compute; done).
  split; [reflexivity|]. split; [exact H|]. split; [|reflexivity].
  apply (find_insn_spec sample_image 0 4 0x52800000 0xffffffe0 0 eq_refl). exact H.
Defined.
