(* ===== verification/Macho.v ===== *)
(** * Mach-O images

    Model of the part of [hw/arm/apple-silicon/boot.c] that reads Mach-O images: the
    walk over the load commands, the bounds of an image, its unpacking, and the lookup
    of segments, sections and the entries of a fileset.  A structure is read in place,
    as the source does through casts of pointers, at the offsets of its fields. *)

From S2P Require Import Prelude CString HostMem.

Definition LC_SYMTAB : Z := 0x2.
Definition LC_UNIXTHREAD : Z := 0x5.
Definition LC_DYSYMTAB : Z := 0xB.
Definition LC_SEGMENT_64 : Z := 0x19.
Definition LC_BUILD_VERSION : Z := 0x32.
Definition LC_FILESET_ENTRY : Z := 0x80000035.
Definition VM_PROT_WRITE : Z := 0x02.
Definition SECTION_TYPE : Z := 0xFF.
Definition S_NON_LAZY_SYMBOL_POINTERS : Z := 0x6.
Definition MACH_MAGIC_64 : Z := 0xFEEDFACF.
Definition MH_FILESET : Z := 0xC.
Definition N_STAB : Z := 0xE0.

(** ** Structures *)

(** The sizes of [MachoHeader64], [MachoSegmentCommand64] and [MachoSection64]. *)
Definition HEADER_SIZE : Z := 32.
Definition SEGMENT_SIZE : Z := 72.
Definition SECTION_SIZE : Z := 80.

Definition hdr_magic (mem : bytes) (h : Z) : outcome Z := load_le mem h.
Definition hdr_file_type (mem : bytes) (h : Z) : outcome Z := load_le mem (h + 12).
Definition hdr_n_cmds (mem : bytes) (h : Z) : outcome Z := load_le mem (h + 16).

Definition lc_cmd (mem : bytes) (p : Z) : outcome Z := load_le mem p.
Definition lc_cmd_size (mem : bytes) (p : Z) : outcome Z := load_le mem (p + 4).

Definition seg_vmaddr (mem : bytes) (p : Z) : outcome Z := load_le64 mem (p + 24).
Definition seg_vmsize (mem : bytes) (p : Z) : outcome Z := load_le64 mem (p + 32).
Definition seg_fileoff (mem : bytes) (p : Z) : outcome Z := load_le64 mem (p + 40).
Definition seg_filesize (mem : bytes) (p : Z) : outcome Z := load_le64 mem (p + 48).
Definition seg_maxprot (mem : bytes) (p : Z) : outcome Z := load_le mem (p + 56).
Definition seg_nsects (mem : bytes) (p : Z) : outcome Z := load_le mem (p + 64).
Definition seg_named (n : nat) (mem : bytes) (p : Z) (name : bytes) : outcome bool := strncmp_at n mem (p + 8) name.

Definition sect_named (mem : bytes) (p : Z) (name : bytes) : outcome bool := strncmp_at 15 mem p name.
Definition sect_addr (mem : bytes) (p : Z) : outcome Z := load_le64 mem (p + 32).
Definition sect_size (mem : bytes) (p : Z) : outcome Z := load_le64 mem (p + 40).
Definition sect_flags (mem : bytes) (p : Z) : outcome Z := load_le mem (p + 64).

Definition fse_file_off (mem : bytes) (p : Z) : outcome Z := load_le64 mem (p + 16).
Definition fse_entry_id (mem : bytes) (p : Z) : outcome Z := load_le mem (p + 24).

(** ** The walk over the load commands *)

(** A loop over [n] commands from [p] on that ends early at the first one that
    passes the test. *)
Fixpoint find_cmd (n : nat) (mem : bytes) (p : Z) (test : Z -> outcome bool) : outcome (option Z) :=
  match n with
  | O => mret None
  | S n =>
      found ← test p;
      if found : bool then mret (Some p) else size ← lc_cmd_size mem p; find_cmd n mem (p + size) test
  end.

(** A loop over all of them. *)
Fixpoint fold_cmds {A} (n : nat) (mem : bytes) (p : Z) (body : A -> Z -> outcome A) (a : A) : outcome A :=
  match n with
  | O => mret a
  | S n => a ← body a p; size ← lc_cmd_size mem p; fold_cmds n mem (p + size) body a
  end.

Definition find_in (mem : bytes) (h : Z) (test : Z -> outcome bool) : outcome (option Z) :=
  n ← hdr_n_cmds mem h; find_cmd (Z.to_nat n) mem (h + HEADER_SIZE) test.

Definition fold_in {A} (mem : bytes) (h : Z) (body : A -> Z -> outcome A) (a : A) : outcome A :=
  n ← hdr_n_cmds mem h; fold_cmds (Z.to_nat n) mem (h + HEADER_SIZE) body a.

(** ** The bounds of an image *)

Record KcBounds := mkBounds {
  text_base : Z;
  kc_base : Z;
  kc_end : Z;
  ro_lower : Z;
  ro_upper : Z;
}.
#[global] Instance eta_KcBounds : Eta KcBounds := fun b =>
  mkBounds (text_base b) (kc_base b) (kc_end b) (ro_lower b) (ro_upper b).

(** Whether a command is a segment that occupies memory. *)
Definition loaded_seg (mem : bytes) (p : Z) : outcome bool :=
  cmd ← lc_cmd mem p;
  if negb (cmd =? LC_SEGMENT_64) then mret false
  else
    zero ← seg_named 10 mem p (lit "__PAGEZERO");
    if zero : bool then mret false else vmsize ← seg_vmsize mem p; mret (negb (vmsize =? 0)).

Definition kc_step (mem : bytes) (b : KcBounds) (p : Z) : outcome KcBounds :=
  loaded ← loaded_seg mem p;
  if negb loaded then mret b
  else
    vmaddr ← seg_vmaddr mem p;
    vmsize ← seg_vmsize mem p;
    filesize ← seg_filesize mem p;
    fileoff ← seg_fileoff mem p;
    let vmend := u64 (vmaddr + vmsize) in
    let b := if negb (filesize =? 0) && (fileoff =? 0) then b <| text_base := vmaddr |> else b in
    let b := if vmaddr <? kc_base b then b <| kc_base := vmaddr |> else b in
    let b := if kc_end b <? vmend then b <| kc_end := vmend |> else b in
    maxprot ← seg_maxprot mem p;
    linkedit ← (if nonzero (maxprot .& VM_PROT_WRITE) then mret true else seg_named 10 mem p (lit "__LINKEDIT"));
    if linkedit : bool then mret b
    else
      let b := if vmaddr <=? ro_lower b then b <| ro_lower := vmaddr |> else b in
      mret (if ro_upper b <=? vmend then b <| ro_upper := vmend |> else b).

Definition no_bounds : KcBounds := mkBounds (2 ^ 64 - 1) (2 ^ 64 - 1) 0 (2 ^ 64 - 1) 0.

Definition bounds_valid (b : KcBounds) : bool :=
  negb (text_base b =? 0) && negb (text_base b =? 2 ^ 64 - 1) && negb (kc_base b =? 0) &&
  negb (kc_base b =? 2 ^ 64 - 1) && negb (kc_end b =? 0) && negb (ro_lower b =? 0) &&
  negb (ro_lower b =? 2 ^ 64 - 1) && negb (ro_upper b =? 0).

Definition apple_boot_get_kc_bounds (mem : bytes) (h : Z) : outcome KcBounds :=
  b ← fold_in mem h (kc_step mem) no_bounds;
  c_assert (bounds_valid b);;
  mret (b <| kc_base := kc_base b .&~ 0x1FFFFFF |>).

(** ** Unpacking *)

(** One command of [apple_boot_parse_macho]: the file content of a segment is copied
    to its place in the image. *)
Definition unpack_step (data : bytes) (len base : Z) (image : bytes) (p : Z) : outcome bytes :=
  loaded ← loaded_seg data p;
  if negb loaded then mret image
  else
    fileoff ← seg_fileoff data p;
    c_assert (fileoff <? len);;
    vmaddr ← seg_vmaddr data p;
    filesize ← seg_filesize data p;
    content ← slice data fileoff filesize;
    blit image (vmaddr - base) content.

(** The image and the position of the header in it. *)
Definition apple_boot_parse_macho (data : bytes) (len : Z) : outcome (bytes * Z) :=
  magic ← hdr_magic data 0;
  c_assert (magic =? MACH_MAGIC_64);;
  b ← apple_boot_get_kc_bounds data 0;
  c_assert (kc_base b <? kc_end b);;
  image ← fold_in data 0 (unpack_step data len (kc_base b)) (replicate (Z.to_nat (kc_end b - kc_base b)) 0);
  mret (image, text_base b - kc_base b).

Definition apple_boot_get_macho_buffer (mem : bytes) (h : Z) : outcome Z :=
  b ← apple_boot_get_kc_bounds mem h; mret (h - text_base b + kc_base b).

(** ** Lookup *)

Definition fileset_test (mem entry : bytes) (p : Z) : outcome bool :=
  cmd ← lc_cmd mem p;
  if cmd =? LC_FILESET_ENTRY then id ← fse_entry_id mem p; strcmp_at mem (p + id) entry else mret false.

Definition apple_boot_get_fileset (mem : bytes) (h : Z) (entry : bytes) : outcome (option Z) :=
  file_type ← hdr_file_type mem h;
  if negb (file_type =? MH_FILESET) then mret None else find_in mem h (fileset_test mem entry).

Definition apple_boot_get_fileset_header (mem : bytes) (h : Z) (entry : bytes) : outcome (option Z) :=
  fileset ← apple_boot_get_fileset mem h entry;
  match fileset with None => mret None | Some p => off ← fse_file_off mem p; mret (Some (h + off)) end.

Definition segment_test (mem name : bytes) (p : Z) : outcome bool :=
  cmd ← lc_cmd mem p;
  if cmd =? LC_SEGMENT_64 then seg_named 15 mem p name else mret false.

(** The recursion of [apple_boot_get_segment] into the kernel of a fileset. *)
Fixpoint get_segment (fuel : nat) (mem : bytes) (h : Z) (name : bytes) : outcome (option Z) :=
  match fuel with
  | O => NoFuel
  | S fuel =>
      file_type ← hdr_file_type mem h;
      if file_type =? MH_FILESET then
        kernel ← apple_boot_get_fileset_header mem h (lit "com.apple.kernel");
        kernel ← deref kernel;
        get_segment fuel mem kernel name
      else find_in mem h (segment_test mem name)
  end.

(** A chain of distinct headers is shorter than the memory. *)
Definition apple_boot_get_segment (mem : bytes) (h : Z) (name : bytes) : outcome (option Z) :=
  get_segment (S (length mem)) mem h name.

Fixpoint find_sect (n : nat) (mem : bytes) (sp : Z) (name : bytes) : outcome (option Z) :=
  match n with
  | O => mret None
  | S n => found ← sect_named mem sp name; if found : bool then mret (Some sp) else find_sect n mem (sp + SECTION_SIZE) name
  end.

Definition apple_boot_get_section (mem : bytes) (segment : Z) (name : bytes) : outcome (option Z) :=
  n ← seg_nsects mem segment; find_sect (Z.to_nat n) mem (segment + SEGMENT_SIZE) name.

(** ** Versions *)

(** The header that describes the kernel. *)
Definition kernel_header (mem : bytes) (h : Z) : outcome Z :=
  file_type ← hdr_file_type mem h;
  if file_type =? MH_FILESET then kernel ← apple_boot_get_fileset_header mem h (lit "com.apple.kernel"); deref kernel
  else mret h.

Definition build_version_cmd (mem : bytes) (h : Z) : outcome (option Z) :=
  h ← kernel_header mem h;
  find_in mem h (fun p => cmd ← lc_cmd mem p; mret (cmd =? LC_BUILD_VERSION)).

Definition apple_boot_build_version (mem : bytes) (h : Z) : outcome Z :=
  cmd ← build_version_cmd mem h;
  match cmd with None => mret 0 | Some p => load_le mem (p + 16) end.

Definition apple_boot_platform (mem : bytes) (h : Z) : outcome Z :=
  cmd ← build_version_cmd mem h;
  match cmd with None => mret 0 | Some p => load_le mem (p + 8) end.

Definition platform_names : list string :=
  ["macOS"; "iOS"; "tvOS"; "watchOS"; "bridgeOS"; "Mac Catalyst"; "iOS Simulator"; "tvOS Simulator";
   "watchOS Simulator"; "DriverKit"; "visionOS"; "visionOS Simulator"; "Firmware"; "sepOS"; "macOS ExclaveCore";
   "macOS ExclaveKit"; "iOS ExclaveCore"; "iOS ExclaveKit"; "tvOS ExclaveCore"; "tvOS ExclaveKit";
   "watchOS ExclaveCore"; "watchOS ExclaveKit"; "visionOS ExclaveCore"; "visionOS ExclaveKit"].

Definition apple_boot_platform_string (mem : bytes) (h : Z) : outcome string :=
  platform ← apple_boot_platform mem h;
  mret (if platform =? 0 then "Unknown"%string
        else default "Unknown"%string (platform_names !! Z.to_nat (platform - 1))).

(** ** Segments and sections in order *)

Definition apple_boot_get_first_seg (mem : bytes) (h : Z) : outcome (option Z) :=
  find_in mem h (fun p => cmd ← lc_cmd mem p; mret (cmd =? LC_SEGMENT_64)).

(** The first segment behind [seg]. *)
Fixpoint next_seg (n : nat) (mem : bytes) (p seg : Z) (found : bool) : outcome (option Z) :=
  match n with
  | O => mret None
  | S n =>
      hit ← (if found then cmd ← lc_cmd mem p; mret (cmd =? LC_SEGMENT_64) else mret false);
      if hit : bool then mret (Some p)
      else size ← lc_cmd_size mem p; next_seg n mem (p + size) seg (found || (seg =? p))
  end.

Definition apple_boot_get_next_seg (mem : bytes) (h seg : Z) : outcome (option Z) :=
  n ← hdr_n_cmds mem h; next_seg (Z.to_nat n) mem (h + HEADER_SIZE) seg false.

Definition apple_boot_first_sect (seg : Z) : Z := seg + SEGMENT_SIZE.
Definition apple_boot_next_sect (sp : Z) : Z := sp + SECTION_SIZE.
Definition apple_boot_end_sect (mem : bytes) (seg : Z) : outcome Z :=
  n ← seg_nsects mem seg; mret (seg + SEGMENT_SIZE + SECTION_SIZE * n).
