(* ===== verification/KernelRanges.v ===== *)
(** * Ranges of a kernel image

    Model of the lookups of [hw/arm/apple-silicon/kernel_patches.c]: the sections of the
    kernel and of its extensions, which are found in a fileset, in a table of modules
    or in a property list, and the conversion of addresses of [boot.c]. *)

From S2P Require Import Prelude CString HostMem Patcher Macho Mem.

(** ** Ranges of the image *)

Definition apple_boot_fixup_slide_va (g : mem_globals) (va : Z) : Z :=
  u64 ((0xFFFF000000000000 .| va) + g_virt_slide g).

(** The base of the image is a host pointer here. *)
Definition apple_boot_va_to_ptr (g : mem_globals) (va : Z) : Z :=
  apple_boot_fixup_slide_va g va - g_virt_base g + g_phys_base g.

Definition ck_kp_range_from_va (g : mem_globals) (base size : Z) : CKPatcherRange :=
  mkRange base size (apple_boot_va_to_ptr g base).

Definition ck_kp_find_section_range (g : mem_globals) (mem : bytes) (hdr : option Z) (segment section : bytes)
    : outcome (option CKPatcherRange) :=
  h ← deref hdr;
  seg ← apple_boot_get_segment mem h segment;
  match seg with
  | None => mret None
  | Some seg =>
      sec ← apple_boot_get_section mem seg section;
      match sec with
      | None => mret None
      | Some sec =>
          base ← sect_addr mem sec;
          size ← sect_size mem sec;
          mret (Some (ck_kp_range_from_va g base size))
      end
  end.

(** ** Extensions listed in the information property list *)

(** The loop that moves the end of a dictionary behind those nested in it. *)
Fixpoint nested_end (fuel : nat) (mem : bytes) (nested end_dict : option Z) : outcome (option Z) :=
  match fuel with
  | O => NoFuel
  | S fuel =>
      match nested, end_dict with
      | None, _ => mret end_dict
      | Some _, None => mret None
      | Some n, Some e =>
          if e <? n then mret (Some e)
          else
            nested ← strstr mem (n + 1) (lit "<dict>");
            end_dict ← strstr mem (e + 1) (lit "</dict>");
            nested_end fuel mem nested end_dict
      end
  end.

(** [g_strstr_len(dict, end_dict - dict, needle)]; without an end the length is
    negative and the whole string is searched. *)
Definition strstr_dict (mem : bytes) (dict : Z) (end_dict : option Z) (needle : bytes) : outcome (option Z) :=
  match end_dict with Some e => strstr_len mem dict (e - dict) needle | None => strstr mem dict needle end.

(** The text between [<string>] and [</string>] behind [ident], copied to an array of
    256 bytes. *)
Definition dict_identifier (mem : bytes) (ident : Z) : outcome (option bytes) :=
  value ← strstr mem ident (lit "<string>");
  match value with
  | None => mret None
  | Some value =>
      let value := value + 8 in
      value_end ← strstr mem value (lit "</string>");
      match value_end with
      | None => mret None
      | Some value_end =>
          content ← slice mem value (value_end - value);
          if zlen content <? 256 then mret (Some content) else Oob
      end
  end.

(** The load address of the dictionary that starts at [dict]. *)
Definition dict_address (mem : bytes) (dict : Z) (end_dict : option Z) : outcome (option Z) :=
  addr ← strstr_dict mem dict end_dict (lit "_PrelinkExecutableLoadAddr");
  match addr with
  | None => mret None
  | Some addr =>
      avalue ← strstr mem addr (lit "<integer");
      match avalue with
      | None => mret None
      | Some avalue =>
          avalue ← strstr mem avalue (lit ">");
          match avalue with
          | None => mret None
          | Some avalue => digits ← from mem (avalue + 1); mret (Some (strtoul digits))
          end
      end
  end.

(** One dictionary: the address of the extension if it is the wanted one. *)
Definition dict_lookup (mem bundle_id : bytes) (dict : Z) (end_dict : option Z) : outcome (option Z) :=
  ident ← strstr_dict mem dict end_dict (lit "CFBundleIdentifier");
  match ident with
  | None => mret None
  | Some ident =>
      kname ← dict_identifier mem ident;
      match kname with
      | Some kname => if bool_decide (before_nul kname = bundle_id) then dict_address mem dict end_dict else mret None
      | None => mret None
      end
  end.

(** The loop over the dictionaries. *)
Fixpoint dict_loop (fuel : nat) (mem bundle_id : bytes) (last_dict : option Z) : outcome (option Z) :=
  match fuel with
  | O => NoFuel
  | S fuel =>
      match last_dict with
      | None => mret None
      | Some dict =>
          end_dict ← strstr mem dict (lit "</dict>");
          match end_dict with
          | None => mret None
          | Some _ =>
              nested ← strstr mem (dict + 1) (lit "<dict>");
              end_dict ← nested_end (S (length mem)) mem nested end_dict;
              found ← dict_lookup mem bundle_id dict end_dict;
              match found with
              | Some va => mret (Some va)
              | None => e ← deref end_dict; next ← strstr mem e (lit "<dict>"); dict_loop fuel mem bundle_id next
              end
          end
      end
  end.

(** The search of the property list. *)
Definition find_in_info (g : mem_globals) (mem : bytes) (range : CKPatcherRange) (bundle_id : bytes) : outcome (option Z) :=
  prelinkinfo ← strstr mem (ptr range) (lit "PrelinkInfoDictionary");
  prelinkinfo ← deref prelinkinfo;
  array ← strstr mem prelinkinfo (lit "<array>");
  array ← deref array;
  va ← dict_loop (S (length mem)) mem bundle_id (Some (array + 7));
  mret (option_map (apple_boot_va_to_ptr g) va).

(** The search of the table of modules. *)
Fixpoint find_kmod (n : nat) (g : mem_globals) (mem : bytes) (info start : Z) (bundle_id : bytes) : outcome (option Z) :=
  match n with
  | O => mret None
  | S n =>
      kmod ← load_le64 mem info;
      same ← strcmp_at mem (apple_boot_va_to_ptr g kmod + 0x10) bundle_id;
      if same : bool then va ← load_le64 mem start; mret (Some (apple_boot_va_to_ptr g va))
      else find_kmod n g mem (info + 8) (start + 8) bundle_id
  end.

Definition ck_kp_find_image_header (g : mem_globals) (mem : bytes) (h : Z) (bundle_id : bytes) : outcome (option Z) :=
  file_type ← hdr_file_type mem h;
  if file_type =? MH_FILESET then apple_boot_get_fileset_header mem h bundle_id
  else
    kmod_info ← ck_kp_find_section_range g mem (Some h) (lit "__PRELINK_INFO") (lit "__kmod_info");
    match kmod_info with
    | None =>
        kext_info ← ck_kp_find_section_range g mem (Some h) (lit "__PRELINK_INFO") (lit "__info");
        match kext_info with None => mret None | Some range => find_in_info g mem range bundle_id end
    | Some info =>
        kmod_start ← ck_kp_find_section_range g mem (Some h) (lit "__PRELINK_INFO") (lit "__kmod_start");
        match kmod_start with
        | None => mret None
        | Some start => find_kmod (Z.to_nat (u32 (range_length info / 8))) g mem (ptr info) (ptr start) bundle_id
        end
    end.

Definition ck_kp_find_image_text (g : mem_globals) (mem : bytes) (h : Z) (bundle_id : bytes) : outcome (option CKPatcherRange) :=
  hdr ← ck_kp_find_image_header g mem h bundle_id;
  match hdr with
  | None => mret None
  | Some hdr => ck_kp_find_section_range g mem (Some hdr) (lit "__TEXT_EXEC") (lit "__text")
  end.

Definition ck_kp_get_kernel_section (g : mem_globals) (mem : bytes) (h : Z) (segment section : bytes)
    : outcome (option CKPatcherRange) :=
  file_type ← hdr_file_type mem h;
  if file_type =? MH_FILESET then
    kernel ← ck_kp_find_image_header g mem h (lit "com.apple.kernel");
    match kernel with None => mret None | Some kernel => ck_kp_find_section_range g mem (Some kernel) segment section end
  else ck_kp_find_section_range g mem (Some h) segment section.

(** ** The lookups hold no assertion *)

Create HintDb lookup.
#[export] Hint Constants Opaque : lookup.
#[export] Hint Resolve load_oo load64_oo slice_oo : lookup.

Abbreviation quiet := (ends True (fun _ => True)).

(** One step of a lookup: a load or another lookup, then the case of its result. *)
Ltac lookup_step :=
  match goal with
  | |- ends _ _ (mret _) => by apply oo_ret
  | |- ends _ _ (_ ≫= _) => apply (oo_bind (fun _ => True)); [|intros ? _]
  | |- ends _ _ (match ?x with _ => _ end) => destruct x
  | |- ends _ _ _ => typeclasses eauto with lookup
  end.

Lemma deref_quiet p : quiet (deref p).
Proof. by destruct p. Qed.

Lemma aget_quiet {A} (mem : list A) p : quiet (aget mem p).
Proof. pose proof (@aget_oo True A mem p). by destruct (aget mem p). Qed.

Lemma from_quiet mem p : quiet (from mem p).
Proof. unfold from. by destruct (0 <=? p). Qed.
#[export] Hint Resolve deref_quiet aget_quiet from_quiet : lookup.

Lemma strncmp_quiet n mem : forall p s, quiet (strncmp_at n mem p s).
Proof. induction n as [|n IH]; intros p s; [done|]. cbn [strncmp_at]. repeat lookup_step; apply IH. Qed.

Lemma strcmp_eq_quiet arr : forall s, quiet (strcmp_eq arr s).
Proof. induction arr as [|a arr IH]; intros [|b s]; try done. cbn [strcmp_eq]. by destruct (_ =? _). Qed.
#[export] Hint Resolve strncmp_quiet strcmp_eq_quiet : lookup.

Lemma strcmp_quiet mem p s : quiet (strcmp_at mem p s).
Proof. unfold strcmp_at. repeat lookup_step. Qed.

Lemma c_string_quiet s : quiet (c_string s).
Proof. induction s as [|b s IH]; [done|]. cbn [c_string]. destruct (_ =? _); [done|]. repeat lookup_step; apply IH. Qed.
#[export] Hint Resolve strcmp_quiet c_string_quiet : lookup.

Lemma strstr_quiet mem p s : quiet (strstr mem p s).
Proof. unfold strstr. repeat lookup_step. Qed.

Lemma strstr_len_quiet mem p n s : quiet (strstr_len mem p n s).
Proof. unfold strstr_len. repeat lookup_step. Qed.
#[export] Hint Resolve strstr_quiet strstr_len_quiet : lookup.

Lemma find_cmd_quiet n mem test : (forall p, quiet (test p)) -> forall p, quiet (find_cmd n mem p test).
Proof. intros Ht. induction n as [|n IH]; intros p; [done|]. cbn [find_cmd]. unfold lc_cmd_size. repeat lookup_step; first [apply Ht|apply IH]. Qed.

Lemma find_in_quiet mem h test : (forall p, quiet (test p)) -> quiet (find_in mem h test).
Proof. intros Ht. unfold find_in, hdr_n_cmds. repeat lookup_step. by apply find_cmd_quiet. Qed.

Lemma fileset_quiet mem h entry : quiet (apple_boot_get_fileset_header mem h entry).
Proof.
  unfold apple_boot_get_fileset_header, apple_boot_get_fileset, hdr_file_type, fse_file_off. repeat lookup_step.
  apply find_in_quiet. intros p. unfold fileset_test, lc_cmd, fse_entry_id. repeat lookup_step.
Qed.
#[export] Hint Resolve fileset_quiet : lookup.

Lemma segment_quiet mem h name : quiet (apple_boot_get_segment mem h name).
Proof.
  unfold apple_boot_get_segment. generalize (S (length mem)) as fuel. intros fuel. revert h.
  induction fuel as [|fuel IH]; intros h; [done|]. cbn [get_segment]. unfold hdr_file_type. repeat lookup_step; try apply IH.
  apply find_in_quiet. intros p. unfold segment_test, lc_cmd, seg_named. repeat lookup_step.
Qed.

Lemma section_quiet mem seg name : quiet (apple_boot_get_section mem seg name).
Proof.
  unfold apple_boot_get_section, seg_nsects. repeat lookup_step.
  match goal with |- ends _ _ (find_sect ?n _ ?p _) => generalize n, p end. intros n.
  induction n as [|n IH]; intros p; [done|]. cbn [find_sect]. unfold sect_named. repeat lookup_step; apply IH.
Qed.
#[export] Hint Resolve segment_quiet section_quiet : lookup.

Lemma range_quiet g mem hdr segment section : quiet (ck_kp_find_section_range g mem hdr segment section).
Proof. unfold ck_kp_find_section_range, sect_addr, sect_size. repeat lookup_step. Qed.
#[export] Hint Resolve range_quiet : lookup.

(** ** The search of the property list ends *)

Lemma is_prefix_app needle s rest : is_prefix needle s = true -> is_prefix needle (s ++ rest) = true.
Proof.
  revert s. induction needle as [|a needle IH]; intros [|b s]; try done. cbn.
  intros [-> H]%andb_prop. by apply IH.
Qed.

Lemma is_prefix_length needle s : is_prefix needle s = true -> zlen needle <= zlen s.
Proof.
  revert s. unfold zlen. induction needle as [|a needle IH]; intros [|b s]; cbn; try done; try lia.
  intros [_ H%IH]%andb_prop. lia.
Qed.

Lemma find_sub_found needle s : forall p q, find_sub needle s p = Some q ->
  p <= q /\ is_prefix needle (drop (Z.to_nat (q - p)) s) = true.
Proof.
  induction s as [|b s IH]; intros p q; cbn [find_sub]; destruct (is_prefix _ _) eqn:E; try done;
    try (intros [= ->]; rewrite Z.sub_diag; split; [lia|done]).
  intros [Hq H]%IH. split; [lia|]. replace (Z.to_nat (q - p)) with (S (Z.to_nat (q - (p + 1)))) by lia. done.
Qed.

Lemma c_string_oo s : ok_or_oob (fun r => exists rest, s = r ++ 0 :: rest) (c_string s).
Proof.
  induction s as [|b s IH]; [done|]. cbn [c_string]. destruct (Z.eqb_spec b 0) as [->|]; [by exists s|].
  eapply oo_bind; [exact IH|]. intros r [rest ->]. by exists rest.
Qed.

(** What a search returns lies behind its start, and the needle is there. *)
Definition found_in (mem : bytes) (p : Z) (needle : bytes) (q : option Z) : Prop := forall x, q = Some x ->
  p <= x /\ is_prefix needle (drop (Z.to_nat x) mem) = true.

Definition inside (mem : bytes) (q : option Z) : Prop := forall x, q = Some x -> 0 <= x < zlen mem.

Lemma found_inside mem p needle q : 0 <= p -> needle <> [] -> found_in mem p needle q -> inside mem q.
Proof.
  intros Hp Hne Hf x Hx. destruct (Hf x Hx) as [Hle Hl%is_prefix_length]. unfold zlen in *. rewrite length_drop in Hl.
  destruct needle; [done|]. cbn [length] in Hl. lia.
Qed.

Lemma strstr_oo mem p needle : ok_or_oob (fun q => 0 <= p /\ found_in mem p needle q) (strstr mem p needle).
Proof.
  unfold strstr, from. destruct (Z.leb_spec 0 p); [|done]. change (mret ?x ≫= ?f) with (f x). cbv beta.
  eapply oo_bind; [apply c_string_oo|]. intros s [rest Hs]. split; [done|]. intros x [Hx E]%find_sub_found.
  assert (Hpre : is_prefix needle (drop (Z.to_nat x) mem) = true).
  { replace (Z.to_nat x) with (Z.to_nat p + Z.to_nat (x - p))%nat by lia. rewrite <- drop_drop, Hs.
    destruct (decide (Z.to_nat (x - p) <= length s)%nat) as [Hle|Hgt].
    - rewrite drop_app_le by done. by apply is_prefix_app.
    - rewrite drop_ge in E by lia. destruct needle; [done|done]. }
  done.
Qed.

(** The end of a dictionary does not move back. *)
Lemma nested_end_oo mem fuel : forall nested e, inside mem nested -> inside mem e ->
  (forall n, nested = Some n -> zlen mem - n < Z.of_nat fuel) -> 0 < Z.of_nat fuel ->
  ok_or_oob (fun r => forall x, r = Some x -> exists d, e = Some d /\ d <= x < zlen mem) (nested_end fuel mem nested e).
Proof.
  induction fuel as [|fuel IH]; intros nested e Hn He Hf H0; [lia|]. cbn [nested_end].
  assert (Hid : forall x, e = Some x -> exists d, e = Some d /\ d <= x < zlen mem).
  { intros x ->. exists x. specialize (He x eq_refl). split; [done|lia]. }
  destruct nested as [n|], e as [d|]; try done.
  destruct (d <? n); [done|]. specialize (Hn n eq_refl). specialize (Hf n eq_refl). specialize (He d eq_refl).
  eapply oo_bind; [apply strstr_oo|]. intros nested [_ Hn']. eapply oo_bind; [apply strstr_oo|]. intros e [_ He'].
  assert (Hb : inside mem nested) by (apply (found_inside _ (n + 1) (lit "<dict>")); [lia|done|done]).
  assert (Hb' : inside mem e) by (apply (found_inside _ (d + 1) (lit "</dict>")); [lia|done|done]).
  assert (Hlt : forall x, nested = Some x -> zlen mem - x < Z.of_nat fuel) by (intros x Hx; destruct (Hn' x Hx); lia).
  specialize (IH nested e Hb Hb' Hlt ltac:(lia)). destruct (nested_end fuel mem nested e); try done.
  intros x Hx. destruct (IH x Hx) as (d' & Hd' & ? & ?). exists d. destruct (He' d' Hd'). split; [done|lia].
Qed.

Lemma strstr_any mem p needle : ok_or_oob (fun _ => True) (strstr mem p needle).
Proof. pose proof (strstr_oo mem p needle). by destruct (strstr mem p needle). Qed.

Lemma from_oo mem p : ok_or_oob (fun _ => True) (from mem p).
Proof. unfold from. by destruct (0 <=? p). Qed.
#[export] Hint Resolve strstr_any from_oo : lookup.

Lemma strstr_dict_oo mem dict e needle : ok_or_oob (fun _ => True) (strstr_dict mem dict e needle).
Proof. unfold strstr_dict, strstr_len. repeat lookup_step. Qed.
#[export] Hint Resolve strstr_dict_oo : lookup.

Lemma dict_lookup_oo mem id dict e : ok_or_oob (fun _ => True) (dict_lookup mem id dict e).
Proof. unfold dict_lookup, dict_identifier, dict_address. repeat lookup_step; done. Qed.

(** Both ends of a dictionary do not start at the same place. *)
Lemma tags_differ s : is_prefix (lit "<dict>") s = true -> is_prefix (lit "</dict>") s = true -> False.
Proof.
  destruct s as [|a [|b s]]; cbn; try done; intros H1 H2; repeat (apply andb_prop in H1 as [? H1]); repeat (apply andb_prop in H2 as [? H2]); try done.
  rewrite !Z.eqb_eq in *. lia.
Qed.

Lemma dict_loop_oo mem id fuel : forall dict, (forall d, dict = Some d -> 0 <= d) ->
  (forall d, dict = Some d -> zlen mem - d < Z.of_nat fuel) -> 0 < Z.of_nat fuel ->
  ok_or_oob (fun _ => True) (dict_loop fuel mem id dict).
Proof.
  induction fuel as [|fuel IH]; intros dict Hd Hf H0; [lia|]. cbn [dict_loop]. destruct dict as [d|]; [|done].
  specialize (Hd d eq_refl). specialize (Hf d eq_refl).
  eapply oo_bind; [apply strstr_oo|]. intros e [_ He]. destruct e as [e|]; [|done].
  assert (Hei : inside mem (Some e)) by (apply (found_inside _ d (lit "</dict>")); [lia|done|done]). destruct (He e eq_refl) as [Hde Hpe].
  eapply oo_bind; [apply strstr_oo|]. intros nested [_ Hn].
  assert (Hni : inside mem nested) by (apply (found_inside _ (d + 1) (lit "<dict>")); [lia|done|done]).
  eapply oo_bind; [apply (nested_end_oo mem (S (length mem)) nested (Some e)); [done|done| |lia]|].
  { intros x Hx. specialize (Hni x Hx). unfold zlen in *. lia. }
  intros e' He'. eapply oo_bind; [apply dict_lookup_oo|]. intros found _. destruct found as [va|]; [done|].
  destruct e' as [e'|]; [|done]. destruct (He' e' eq_refl) as (d' & [= <-] & ? & ?).
  change (deref (Some e') ≫= ?f) with (f e'). cbv beta.
  eapply oo_bind; [apply strstr_oo|]. intros next [_ Hx].
  assert (Hlt : forall x, next = Some x -> d < x).
  { intros x E. destruct (Hx x E) as [Hle Hp]. destruct (decide (x = d)) as [->|]; [|lia].
    assert (e = d) as -> by lia. by destruct (tags_differ _ Hp Hpe). }
  specialize (Hei e eq_refl). apply IH; [| |lia]; intros x E; specialize (Hlt x E); lia.
Qed.

(** The search of the property list ends. *)
Lemma find_in_info_oo g mem range id : ok_or_oob (fun _ => True) (find_in_info g mem range id).
Proof.
  unfold find_in_info. eapply oo_bind; [apply strstr_oo|]. intros info [_ Hi]. destruct info as [info|]; [|done].
  change (deref (Some info) ≫= ?f) with (f info). cbv beta.
  eapply oo_bind; [apply strstr_oo|]. intros array [H0 Ha]. destruct array as [array|]; [|done].
  change (deref (Some array) ≫= ?f) with (f array). cbv beta. destruct (Ha array eq_refl) as [Hle _].
  eapply oo_bind; [apply dict_loop_oo|by intros va _].
  - intros d [= <-]. lia.
  - intros d [= <-]. unfold zlen. lia.
  - lia.
Qed.

Lemma find_in_info_quiet g mem range id : quiet (find_in_info g mem range id).
Proof. apply oo_weaken, find_in_info_oo. Qed.

Lemma find_kmod_quiet n g mem id : forall info start, quiet (find_kmod n g mem info start id).
Proof. induction n as [|n IH]; intros info start; [done|]. cbn [find_kmod]. repeat lookup_step; apply IH. Qed.
#[export] Hint Resolve find_in_info_quiet find_kmod_quiet : lookup.

Lemma image_header_quiet g mem h id : quiet (ck_kp_find_image_header g mem h id).
Proof. unfold ck_kp_find_image_header, hdr_file_type. repeat lookup_step. Qed.
#[export] Hint Resolve image_header_quiet : lookup.

Lemma image_text_quiet g mem h id : quiet (ck_kp_find_image_text g mem h id).
Proof. unfold ck_kp_find_image_text. repeat lookup_step. Qed.

Lemma kernel_section_quiet g mem h seg sect : quiet (ck_kp_get_kernel_section g mem h seg sect).
Proof. unfold ck_kp_get_kernel_section, hdr_file_type. repeat lookup_step. Qed.
#[export] Hint Resolve image_text_quiet kernel_section_quiet : lookup.
