(* ===== verification/KernelPatches.v ===== *)
(** * The patches of the kernel

    Model of [hw/arm/apple-silicon/kernel_patches.c]: the callbacks, which rewrite
    instructions around a match, and the functions that apply one patch after the
    other to a range, on the patcher of [Patcher].  The ranges are those found in the
    image; a range that is not found is a null pointer. *)

From S2P Require Import Prelude CString Bitops HostMem Patcher Macho Mem KernelRanges.

Definition NOP : Z := 0xD503201F.
Definition MOV_W0_0 : Z := 0x52800000.
Definition NOP_BYTES : bytes := [0x1F; 0x20; 0x03; 0xD5].
Definition MOV_W0_0_BYTES : bytes := [0x00; 0x00; 0x80; 0x52].
Definition RET : Z := 0xD65F03C0.
Definition RETAB : Z := 0xD65F0FFF.
Definition PACIBSP : Z := 0xD503237F.

(** [stl_le_p] of consecutive words. *)
Fixpoint store_words (mem : bytes) (p : Z) (ws : list Z) : outcome bytes :=
  match ws with
  | [] => mret mem
  | w :: ws => mem ← store_le mem p w; store_words mem (p + 4) ws
  end.

Definition declined (mem : bytes) : outcome (bool * bytes) := mret (false, mem).

Definition store_and_accept (mem : bytes) (p : Z) (ws : list Z) : outcome (bool * bytes) :=
  mem ← store_words mem p ws; mret (true, mem).

(** ** The file system *)

Definition ck_kp_root_auth_callback : callback := fun mem buffer =>
  func_start ← ck_patcher_find_prev_insn mem buffer 30 PACIBSP 0xFFFFFFFF 0;
  match func_start with
  | None =>
      ret ← ck_patcher_find_next_insn mem buffer 4 RET 0xFFFFFFFF 0;
      match ret with None => declined mem | Some ret => store_and_accept mem (ret - 4) [MOV_W0_0] end
  | Some func_start => store_and_accept mem func_start [MOV_W0_0; RET]
  end.

Definition ck_kp_root_hash_callback : callback := fun mem buffer =>
  func_start ← ck_patcher_find_prev_insn mem buffer 0x40 PACIBSP 0xFFFFFFFF 0;
  match func_start with None => declined mem | Some func_start => store_and_accept mem func_start [MOV_W0_0; RET] end.

Definition ck_kp_apfs_patches (mem : bytes) (range : CKPatcherRange) : outcome bytes :=
  let root_auth_pattern := [0x08; 0xE0; 0x40; 0x39; 0x08; 0x00; 0x00; 0x37; 0x00; 0x0A; 0x80; 0x52] in
  let root_auth_mask := [0x1F; 0xFC; 0xFF; 0xFF; 0x1F; 0x00; 0x00; 0xFF; 0xE0; 0xFF; 0xFF; 0xFF] in
  '(_, mem) ← ck_patcher_find_callback mem range root_auth_pattern (Some root_auth_mask) 4 ck_kp_root_auth_callback;
  let root_rw_pattern :=
    [0x00; 0x00; 0x00; 0x94; 0x00; 0x00; 0x70; 0x37; 0xA0; 0x03; 0x40; 0xB9; 0x00; 0x78; 0x1F; 0x12;
     0xA0; 0x03; 0x00; 0xB9] in
  let root_rw_mask :=
    [0x00; 0x00; 0x00; 0xFC; 0x1F; 0x00; 0xF8; 0xFF; 0xA0; 0x03; 0xFE; 0xFF; 0x00; 0xFC; 0xFF; 0xFF;
     0xA0; 0x03; 0xC0; 0xFF] in
  '(applied, mem) ← ck_patcher_find_replace mem range root_rw_pattern (Some root_rw_mask) 4 MOV_W0_0_BYTES None 4;
  '(_, mem) ← (if negb applied then
                 let root_rw_pattern_new :=
                   [0x00; 0x00; 0x00; 0x94; 0x00; 0x00; 0x70; 0x37; 0x00; 0x00; 0x80; 0x52; 0x00; 0x00; 0x00; 0x14] in
                 let root_rw_mask_new :=
                   [0x00; 0x00; 0x00; 0xFC; 0x1F; 0x00; 0xF8; 0xFF; 0xFF; 0xFF; 0xFF; 0xFF; 0x00; 0x00; 0x00; 0xFC] in
                 ck_patcher_find_replace mem range root_rw_pattern_new (Some root_rw_mask_new) 4 MOV_W0_0_BYTES None 4
               else mret (true, mem));
  let root_hash_pattern := [0x88; 0x62; 0x40; 0xF9; 0x08; 0x89; 0x47; 0x79; 0x1F; 0x11; 0x00; 0x71] in
  '(_, mem) ← ck_patcher_find_callback mem range root_hash_pattern None 4 ck_kp_root_hash_callback;
  mret mem.

Definition ck_kp_apfs_snapshot_patch (mem : bytes) (range : CKPatcherRange) : outcome bytes :=
  '(_, mem) ← ck_patcher_find_replace mem range (lit "com.apple.os.update-" ++ [0]) None 0
                (lit "shitcode.os.bullshit" ++ [0]) None 0;
  mret mem.

(** ** Trust caches and signatures *)

(** The start of the function around a match, a null pointer if there is a frame but
    no beginning of it. *)
Definition amfi_start (mem : bytes) (buffer : Z) : outcome (option Z) :=
  frame ← ck_patcher_find_prev_insn mem buffer 10 0x910003FD 0xFF8003FF 0;
  match frame with
  | None => mret (Some buffer)
  | Some frame =>
      start ← ck_patcher_find_prev_insn mem frame 10 0xA9A003E0 0xFFE003E0 0;
      match start with
      | Some start => mret (Some start)
      | None => ck_patcher_find_prev_insn mem frame 10 0xD10003FF 0xFF8003FF 0
      end
  end.

(** The null pointer cannot be read. *)
Definition load_ptr (mem : bytes) (p : option Z) : outcome Z :=
  match p with Some p => load_le mem p | None => Oob end.

Definition tc_guard (mem : bytes) (buffer : Z) : outcome bool :=
  w1 ← load_le mem (buffer - 4);
  if w1 .& 0xFF000000 =? 0x91000000 then mret true
  else w2 ← load_le mem (buffer - 8); mret (w2 .& 0xFF000000 =? 0x91000000).

Definition ck_kp_tc_callback : callback := fun mem buffer =>
  guard ← tc_guard mem buffer;
  if negb guard then declined mem
  else
    ldrb ← ck_patcher_find_next_insn mem buffer 256 0x39402C00 0xFFFFFC00 0;
    w ← load_ptr mem ldrb;
    let cdhash_param := extract32 w 5 5 in
    start ← amfi_start mem buffer;
    match start with
    | None => declined mem
    | Some start =>
        pacibsp ← ck_patcher_find_prev_insn mem start 5 PACIBSP 0xFFFFFFFF 0;
        let ret := match pacibsp with Some _ => RETAB | None => RET end in
        if cdhash_param =? 0 then
          adrp ← ck_patcher_find_prev_insn mem start 10 0x90000008 0x9F00001F 0;
          store_and_accept mem (default start adrp) [0x52802020; ret]
        else if cdhash_param =? 1 then
          store_and_accept mem start [0x52800040; 0x39000040; 0x52800020; 0x39000060; 0x52800020; ret]
        else declined mem
    end.

Definition ck_kp_tc_ios16_callback : callback := fun mem buffer =>
  start ← ck_patcher_find_prev_insn mem buffer 100 PACIBSP 0xFFFFFFFF 0;
  match start with None => declined mem | Some start => store_and_accept mem start [0x52802020; RET] end.

Definition ck_kp_tc_patch (mem : bytes) (range : CKPatcherRange) : outcome bytes :=
  let pattern := [0x00; 0x02; 0x80; 0x52; 0x00; 0x00; 0x00; 0xD3; 0x00; 0x00; 0x00; 0x9B] in
  let mask := [0x00; 0xFF; 0xFF; 0xFF; 0x00; 0x00; 0x00; 0xFF; 0x00; 0x00; 0x00; 0xFF] in
  '(applied, mem) ← ck_patcher_find_callback mem range pattern (Some mask) 4 ck_kp_tc_callback;
  if negb applied then
    '(_, mem) ← ck_patcher_find_callback mem range [0xC0; 0xCF; 0x9D; 0xD2] (Some [0xC0; 0xFF; 0xFF; 0xFF]) 4
                  ck_kp_tc_ios16_callback;
    mret mem
  else mret mem.

Definition ck_kp_amfi_sha1_callback : callback := fun mem buffer =>
  cmp ← ck_patcher_find_next_insn mem buffer 0x10 0x7100081F 0xFFFFFFFF 0;
  match cmp with None => declined mem | Some cmp => store_and_accept mem cmp [0x6B00001F] end.

Definition ck_kp_amfi_tc_callback : callback := fun mem buffer =>
  start ← ck_patcher_find_prev_insn mem buffer 0x20 PACIBSP 0xFFFFFFFF 0;
  match start with
  | None => declined mem
  | Some start => store_and_accept mem start [0xD2800020; 0xB4000042; 0xF9000040; RET]
  end.

Definition ck_kp_amfi_patches (mem : bytes) (range : CKPatcherRange) : outcome bytes :=
  '(_, mem) ← ck_patcher_find_callback mem range [0x02; 0x00; 0xD0; 0x36] (Some [0x1F; 0x00; 0xF8; 0xFF]) 4
                ck_kp_amfi_sha1_callback;
  let amfi_tc_cache_pattern :=
    [0xE0; 0x03; 0x00; 0x91; 0xE1; 0x03; 0x13; 0xAA; 0x00; 0x00; 0x00; 0x94; 0x9F; 0x02; 0x00; 0x71;
     0xE0; 0x17; 0x9F; 0x1A] in
  let amfi_tc_cache_mask :=
    [0xFF; 0xFF; 0xFF; 0xFF; 0xFF; 0xFF; 0xFF; 0xFF; 0x00; 0x00; 0x00; 0xFC; 0xFF; 0xFF; 0xFF; 0xFF;
     0xFF; 0xFF; 0xFF; 0xFF] in
  '(_, mem) ← ck_patcher_find_callback mem range amfi_tc_cache_pattern (Some amfi_tc_cache_mask) 4 ck_kp_amfi_tc_callback;
  mret mem.

(** ** The kernel text *)

(** The first of the searches that finds something. *)
Definition or_else (x : outcome (option Z)) (y : outcome (option Z)) : outcome (option Z) :=
  p ← x; match p with Some p => mret (Some p) | None => y end.

(** The load of the mount flag, or the one that follows the addition to its base. *)
Definition mac_mount_flag (mem : bytes) (buffer : Z) : outcome (option Z) :=
  or_else (ck_patcher_find_prev_insn mem buffer 0x40 0x3941C408 0xFFFFFC1F 0)
  (or_else (ck_patcher_find_next_insn mem buffer 0x40 0x3941C408 0xFFFFFC1F 0)
    (inst ← ck_patcher_find_prev_insn mem buffer 0x40 0x9101C008 0xFFFFFCFF 0;
     match inst with
     | None => mret None
     | Some inst => w ← load_le mem (inst + 4); mret (if w =? 0x39400508 then Some (inst + 4) else None)
     end)).

Definition ck_kp_mac_mount_callback : callback := fun mem buffer =>
  inst ← or_else (ck_patcher_find_prev_insn mem buffer 0x40 0x37280000 0xFFFE0000 0)
           (ck_patcher_find_next_insn mem buffer 0x40 0x37280000 0xFFFE0000 0);
  match inst with
  | None => declined mem
  | Some inst =>
      mem ← store_le mem inst NOP;
      flag ← mac_mount_flag mem buffer;
      match flag with None => declined mem | Some flag => store_and_accept mem flag [0xAA1F03E8] end
  end.

Definition ck_kp_mac_mount_patch (mem : bytes) (range : CKPatcherRange) : outcome bytes :=
  '(applied, mem) ← ck_patcher_find_callback mem range [0xE9; 0x2F; 0x1F; 0x32] None 4 ck_kp_mac_mount_callback;
  if negb applied then
    '(_, mem) ← ck_patcher_find_callback mem range [0xC9; 0xFF; 0x83; 0x12] (Some [0xFF; 0xFF; 0xFF; 0x3F]) 4
                  ck_kp_mac_mount_callback;
    mret mem
  else mret mem.

(** The instruction the comparison of [kprintf] becomes. *)
Definition kprintf_insn (comparison_inst : Z) : Z :=
  if nonzero (comparison_inst .& BIT 24) then NOP else 0x14000000 .| extract32 comparison_inst 5 19.

Definition ck_kp_kprintf_callback : callback := fun mem buffer =>
  let comparison := buffer + 4 * 3 in
  comparison_inst ← load_le mem comparison;
  store_and_accept mem comparison [kprintf_insn comparison_inst].

Definition ck_kp_kprintf_patch (mem : bytes) (range : CKPatcherRange) : outcome bytes :=
  let pattern := [0xAA; 0x43; 0x00; 0x91; 0xEA; 0x07; 0x00; 0xF9; 0x08; 0x00; 0x00; 0x2A; 0x08; 0x00; 0x00; 0x34] in
  let mask := [0xFF; 0xFF; 0xFF; 0xFF; 0xFF; 0xFF; 0xFF; 0xFF; 0x1F; 0xFC; 0xE0; 0xFF; 0x1F; 0x00; 0x00; 0xFE] in
  '(applied, mem) ← ck_patcher_find_callback mem range pattern (Some mask) 4 ck_kp_kprintf_callback;
  if negb applied then
    let pattern_new :=
      [0x08; 0x01; 0x40; 0x39; 0x08; 0x00; 0x00; 0x36; 0xA0; 0x43; 0x00; 0x91; 0xE0; 0x17; 0x00; 0xF9;
       0xE0; 0xA3; 0x00; 0x91; 0x00; 0x00; 0x00; 0x14] in
    let mask_new :=
      [0xFF; 0x03; 0xC0; 0xFF; 0x1F; 0x00; 0x00; 0xFF; 0xE0; 0xFF; 0xFF; 0xFF; 0xE0; 0xFF; 0xFF; 0xFF;
       0xE0; 0xFF; 0xFF; 0xFF; 0x00; 0x00; 0x00; 0xFC] in
    let repl_new := NOP_BYTES ++ NOP_BYTES ++ NOP_BYTES ++ NOP_BYTES ++ NOP_BYTES ++ NOP_BYTES in
    '(_, mem) ← ck_patcher_find_replace mem range pattern_new (Some mask_new) 4 repl_new None 0;
    mret mem
  else mret mem.

Definition ck_kp_amx_common (mem : bytes) (buffer : Z) (newer : bool) : outcome (bool * bytes) :=
  amx_ver_str ← ck_patcher_find_prev_insn mem buffer (if newer then 6 else 10) 0xB8000000 0xFEC00000 (if newer then 0 else 1);
  match amx_ver_str with None => declined mem | Some p => store_and_accept mem p [NOP] end.

Definition ck_kp_amx_callback : callback := fun mem buffer =>
  mem ← store_le mem buffer 0x52810009; ck_kp_amx_common mem buffer false.

Definition ck_kp_amx_new_callback : callback := fun mem buffer =>
  w ← load_le mem (buffer + 4);
  mem ← store_le mem (buffer + 4) (w .&~ (0x800 .<< 5));
  ck_kp_amx_common mem buffer false.

Definition ck_kp_amx_newer_callback : callback := fun mem buffer => ck_kp_amx_common mem buffer true.

Definition ck_kp_amx_patch (mem : bytes) (range : CKPatcherRange) : outcome bytes :=
  let pattern_new := [0x00; 0x90; 0x87; 0x52; 0x00; 0x20; 0xA1; 0x72; 0x00; 0x40; 0x00; 0x2A] in
  let mask_new := [0xE0; 0xFF; 0xFF; 0xFF; 0xE0; 0xFF; 0xFF; 0xFF; 0x00; 0xFC; 0xE0; 0xFF] in
  '(applied, mem) ← ck_patcher_find_callback mem range pattern_new (Some mask_new) 4 ck_kp_amx_new_callback;
  if negb applied then
    let pattern := [0xE9; 0x83; 0x05; 0x32; 0x09; 0x00; 0x00; 0xAA] in
    let mask := [0xFF; 0xFF; 0xFF; 0xFF; 0x1F; 0xFC; 0xE0; 0xFF] in
    '(applied, mem) ← ck_patcher_find_callback mem range pattern (Some mask) 4 ck_kp_amx_callback;
    if negb applied then
      let pattern_newer := [0x0A; 0xF1; 0x1C; 0xD5; 0xDF; 0x3F; 0x03; 0xD5] in
      let mask_newer := [0x0F; 0xFF; 0xFF; 0xFF; 0xFF; 0xFF; 0xFF; 0xFF] in
      '(_, mem) ← ck_patcher_find_callback mem range pattern_newer (Some mask_newer) 4 ck_kp_amx_newer_callback;
      mret mem
    else mret mem
  else mret mem.

Definition ck_kp_hactivation_patch (mem : bytes) (range : CKPatcherRange) : outcome bytes :=
  '(_, mem) ← ck_patcher_find_replace mem range (0 :: lit "release" ++ [0]) None 0 (lit "profile" ++ [0]) None 1;
  mret mem.

(** ** The managers *)

Definition ck_kp_sep_mgr_patches (mem : bytes) (range : CKPatcherRange) : outcome bytes :=
  let pattern := [0x00; 0x04; 0x00; 0xF9; 0x08; 0x04; 0x80; 0x52; 0x08; 0x10; 0x00; 0xB9] in
  let mask := [0x00; 0xFC; 0xFF; 0xFF; 0xFF; 0xFF; 0xFF; 0xFF; 0x1F; 0xFC; 0xFF; 0xFF] in
  let repl := [0x28; 0x00; 0xA0; 0x52] in
  '(applied, mem) ← ck_patcher_find_replace mem range pattern (Some mask) 4 repl None 4;
  if negb applied then
    let pattern_new := [0x00; 0x00; 0x1E; 0xF8; 0x08; 0x04; 0x80; 0x52; 0x08; 0x80; 0x1E; 0xB8] in
    let mask_new := [0x00; 0xFC; 0xFF; 0xFF; 0xFF; 0xFF; 0xFF; 0xFF; 0x1F; 0xFC; 0xFF; 0xFF] in
    '(_, mem) ← ck_patcher_find_replace mem range pattern_new (Some mask_new) 4 repl None 4;
    mret mem
  else mret mem.

Definition ck_kp_img4_callback : callback := fun mem buffer =>
  start ← ck_patcher_find_prev_insn mem buffer 200 PACIBSP 0xFFFFFFFF 0;
  match start with None => declined mem | Some start => store_and_accept mem start [MOV_W0_0; RET] end.

Definition ck_kp_img4_patches (mem : bytes) (range : CKPatcherRange) : outcome bytes :=
  '(_, mem) ← ck_patcher_find_callback mem range [0x21; 0x09; 0x43; 0xB2] None 4 ck_kp_img4_callback;
  mret mem.

Definition ck_kp_cs_patches (mem : bytes) (range : CKPatcherRange) : outcome bytes :=
  let pattern := [0x00; 0x00; 0x18; 0x36; 0x00; 0x00; 0x80; 0x52] in
  let mask := [0x00; 0x00; 0xF8; 0xFF; 0xE0; 0xFF; 0xFF; 0xFF] in
  '(applied, mem) ← ck_patcher_find_replace mem range pattern (Some mask) 4 NOP_BYTES None 0;
  if negb applied then
    let alt := [0x00; 0x00; 0x18; 0x36; 0x10; 0x02; 0x17; 0xAA; 0x00; 0x00; 0x80; 0x52] in
    let mask_alt := [0x00; 0x00; 0xF8; 0xFF; 0x10; 0xFE; 0xFF; 0xFF; 0xE0; 0xFF; 0xFF; 0xFF] in
    '(_, mem) ← ck_patcher_find_replace mem range alt (Some mask_alt) 4 NOP_BYTES None 0;
    mret mem
  else mret mem.

Definition ck_kp_pmap_cs_enforce_patch (mem : bytes) (range : CKPatcherRange) : outcome bytes :=
  let pattern := [0x00; 0x00; 0x00; 0x94; 0x00; 0x00; 0x00; 0x35; 0x88; 0x63; 0x80; 0x92] in
  let mask := [0x00; 0x00; 0x00; 0xFC; 0x1F; 0x00; 0x00; 0xFF; 0xFF; 0xFF; 0xFF; 0xFF] in
  '(_, mem) ← ck_patcher_find_replace mem range pattern (Some mask) 4 (MOV_W0_0_BYTES ++ NOP_BYTES) None 0;
  mret mem.

(** ** All patches *)

(** A patch of a range that was not found reads through the null pointer. *)
Definition on_range (patch : bytes -> CKPatcherRange -> outcome bytes) (mem : bytes) (range : option CKPatcherRange) : outcome bytes :=
  match range with Some range => patch mem range | None => Oob end.

Definition ck_patch_kernel (g : mem_globals) (mem : bytes) (h : Z) : outcome bytes :=
  apfs_hdr ← ck_kp_find_image_header g mem h (lit "com.apple.filesystems.apfs");
  apfs_text ← ck_kp_find_section_range g mem apfs_hdr (lit "__TEXT_EXEC") (lit "__text");
  mem ← on_range ck_kp_apfs_patches mem apfs_text;
  apfs_cstring ← ck_kp_find_section_range g mem apfs_hdr (lit "__TEXT") (lit "__cstring");
  apfs_cstring ← match apfs_cstring with
                 | Some range => mret (Some range)
                 | None => ck_kp_find_section_range g mem (Some h) (lit "__TEXT") (lit "__cstring")
                 end;
  mem ← on_range ck_kp_apfs_snapshot_patch mem apfs_cstring;
  amfi_text ← ck_kp_find_image_text g mem h (lit "com.apple.driver.AppleMobileFileIntegrity");
  mem ← on_range ck_kp_amfi_patches mem amfi_text;
  sep_mgr_text ← ck_kp_find_image_text g mem h (lit "com.apple.driver.AppleSEPManager");
  mem ← on_range ck_kp_sep_mgr_patches mem sep_mgr_text;
  img4_text ← ck_kp_find_image_text g mem h (lit "com.apple.security.AppleImage4");
  mem ← on_range ck_kp_img4_patches mem img4_text;
  kernel_text ← ck_kp_get_kernel_section g mem h (lit "__TEXT_EXEC") (lit "__text");
  mem ← on_range ck_kp_mac_mount_patch mem kernel_text;
  mem ← on_range ck_kp_kprintf_patch mem kernel_text;
  mem ← on_range ck_kp_amx_patch mem kernel_text;
  mem ← on_range ck_kp_cs_patches mem kernel_text;
  kernel_const ← ck_kp_get_kernel_section g mem h (lit "__TEXT") (lit "__const");
  mem ← on_range ck_kp_hactivation_patch mem kernel_const;
  kernel_ppltext ← ck_kp_find_section_range g mem (Some h) (lit "__PPLTEXT") (lit "__text");
  let text := match kernel_ppltext with None => kernel_text | Some range => Some range end in
  mem ← on_range ck_kp_tc_patch mem text;
  on_range ck_kp_pmap_cs_enforce_patch mem text.

(** ** Every patch ends *)

(** The image: a number of bytes. *)
Definition image (n : nat) (mem : bytes) : Prop := length mem = n /\ Forall (in_width 8) mem.

Definition image_result (n : nat) (r : bool * bytes) : Prop := image n (snd r).

Definition tame (cb : callback) : Prop := forall n mem p, image n mem -> ok_or_oob (image_result n) (cb mem p).

Lemma blit_tame n mem p bs : image n mem -> Forall (in_width 8) bs -> ok_or_oob (image n) (blit mem p bs).
Proof.
  intros [Hl Hb] Hbs. unfold blit, zlen. destruct (_ && _) eqn:E; [|done].
  apply andb_prop in E as [H0%Z.leb_le H1%Z.leb_le]. split.
  - rewrite !length_app, length_take, length_drop. lia.
  - apply Forall_app. split; [by apply Forall_take|]. apply Forall_app. split; [done|by apply Forall_drop].
Qed.

Lemma store_tame n mem p w : image n mem -> ok_or_oob (image n) (store_le mem p w).
Proof. intros. apply blit_tame; [done|]. apply le_split_bytes. Qed.

Lemma store_words_tame n ws : forall mem p, image n mem -> ok_or_oob (image n) (store_words mem p ws).
Proof.
  induction ws as [|w ws IH]; intros mem p Hm; cbn [store_words]; [done|].
  eapply oo_bind; [by apply store_tame|]. intros mem' Hm'. by apply IH.
Qed.

Lemma accept_tame n mem p ws : image n mem -> ok_or_oob (image_result n) (store_and_accept mem p ws).
Proof. intros. eapply oo_bind; [by apply store_words_tame|]. by intros mem' Hm'. Qed.

Lemma insn_loop_oo num mem step insn mask : forall cur skip,
  ok_or_oob (fun _ => True) (insn_loop num mem cur step insn mask skip).
Proof.
  induction num as [|num IH]; intros cur skip; cbn [insn_loop]; [done|].
  eapply oo_bind; [apply load_oo|]. intros w _. destruct (_ =? _); [destruct skip; [done|]|]; apply IH.
Qed.

Lemma next_oo mem p num insn mask skip : (insn .& mask =? insn) = true ->
  ok_or_oob (fun _ => True) (ck_patcher_find_next_insn mem p num insn mask skip).
Proof. intros E. unfold ck_patcher_find_next_insn. rewrite E. apply insn_loop_oo. Qed.

Lemma prev_oo mem p num insn mask skip : (insn .& mask =? insn) = true ->
  ok_or_oob (fun _ => True) (ck_patcher_find_prev_insn mem p num insn mask skip).
Proof. intros E. unfold ck_patcher_find_prev_insn. rewrite E. apply insn_loop_oo. Qed.

(** A search reads the first byte of its pattern at each position. *)
Lemma match_here_oo mem pattern mask : forall p, pattern <> [] ->
  ok_or_oob (fun _ => 0 <= p < zlen mem) (match_here mem p pattern mask).
Proof.
  assert (Hp : forall pattern p, ok_or_oob (fun _ => True) (match_plain mem p pattern)).
  { clear. intros pattern. induction pattern as [|x pattern IH]; intros p; [done|]. cbn [match_plain].
    eapply oo_bind; [apply aget_oo|]. intros b _. destruct (_ =? _); [apply IH|done]. }
  assert (Hm : forall pattern mask p, ok_or_oob (fun _ => True) (match_masked mem p pattern mask)).
  { clear. intros pattern. induction pattern as [|x pattern IH]; intros [|m mask] p; try done. cbn [match_masked].
    eapply oo_bind; [apply aget_oo|]. intros b _. destruct (_ =? _); [apply IH|done]. }
  intros p Hne. destruct pattern as [|x pattern]; [done|].
  destruct mask as [[|m mask]|]; cbn [match_here match_plain match_masked]; [done| |];
    (eapply oo_bind; [apply aget_oo|]; intros b Hb; destruct (_ =? _); [|done]).
  - specialize (Hm pattern mask (p + 1)). by destruct (match_masked mem (p + 1) pattern mask).
  - specialize (Hp pattern (p + 1)). by destruct (match_plain mem (p + 1) pattern).
Qed.

Lemma search_tame n range pattern mask align cb fuel : tame cb -> pattern <> [] -> 0 < align < 2 ^ 62 -> Z.of_nat n < 2 ^ 62 ->
  forall mem i, image n mem -> i = 0 \/ 0 <= ptr range -> 0 <= i < 2 ^ 63 -> range_length range - i < Z.of_nat fuel ->
  0 < Z.of_nat fuel -> ok_or_oob (image_result n) (search fuel mem range pattern mask align cb i).
Proof.
  intros Hcb Hne Ha Hn. induction fuel as [|fuel IH]; intros mem i Hm Hp Hi Hf H0; [lia|]. cbn [search].
  destruct (Z.ltb_spec i (range_length range)); [|done].
  eapply oo_bind; [by apply match_here_oo|]. intros found Hin. cbv beta in Hin.
  assert (Hl : zlen mem = Z.of_nat n) by (unfold zlen; by rewrite (proj1 Hm)).
  assert (Hw : u64 (i + align) = i + align) by (apply wrap_small; unfold in_width; lia). rewrite Hw.
  destruct found; [|apply IH; try done; lia].
  eapply oo_bind; [by apply (Hcb n)|]. intros [[|] mem'] Hm'; [done|]. apply IH; try done; lia.
Qed.

(** The checks of a search that do not depend on the memory. *)
Definition table_ok (pattern : bytes) (mask : option bytes) (align : Z) : Prop :=
  pattern <> [] /\ check_align (zlen pattern) align = Done (stride align) /\ 0 < stride align < 2 ^ 62 /\
  match mask with None => mret tt | Some mask => assert_masked pattern mask end = Done tt.

Lemma find_callback_tame n mem range pattern mask align cb : table_ok pattern mask align ->
  tame cb -> Z.of_nat n < 2 ^ 62 -> image n mem ->
  ok_or_oob (image_result n) (ck_patcher_find_callback mem range pattern mask align cb).
Proof.
  intros (Hne & Ha & Hs & Hk) Hcb Hr Hm. unfold ck_patcher_find_callback, ck_patcher_find_callback_ctx. rewrite Ha. run.
  destruct (_ <? _); [done|]. rewrite Hk. run. apply search_tame; try done; auto with lia.
Qed.

Lemma replace_tame replacement off : Forall (in_width 8) replacement ->
  tame (ck_patcher_find_replace_callback replacement None off).
Proof. intros Hb n mem p Hm. eapply oo_bind; [by apply blit_tame|]. by intros mem' Hm'. Qed.

Lemma find_replace_tame n mem range pattern mask align replacement off : table_ok pattern mask align ->
  (u64 (off + zlen replacement) <=? zlen pattern) = true -> Forall (in_width 8) replacement ->
  Z.of_nat n < 2 ^ 62 -> image n mem ->
  ok_or_oob (image_result n) (ck_patcher_find_replace mem range pattern mask align replacement None off).
Proof.
  intros Ht Ho Hb Hr Hm. unfold ck_patcher_find_replace. rewrite Ho. run.
  apply find_callback_tame; try done. by apply replace_tame.
Qed.

Create HintDb tame.
#[export] Hint Constants Opaque : tame.
#[export] Hint Resolve next_oo prev_oo load_oo store_tame accept_tame : tame.
#[export] Hint Extern 1 (_ = true) => reflexivity : tame.

(** One step of a callback: a search, a load or a store, then the case of its result. *)
Ltac tame_step :=
  match goal with
  | |- ok_or_oob _ (mret _) => by apply oo_ret
  | |- ok_or_oob _ (declined _) => done
  | |- ok_or_oob _ (store_and_accept _ _ _) => by apply accept_tame
  | |- ok_or_oob _ (_ ≫= _) => eapply oo_bind; [by eauto with tame|intros ? ?]
  | |- ok_or_oob _ (match ?x with _ => _ end) => destruct x
  end.

Ltac tame_callback := intros n mem buffer Hm; repeat tame_step.

Lemma root_auth_tame : tame ck_kp_root_auth_callback.
Proof. unfold ck_kp_root_auth_callback. tame_callback. Qed.

Lemma root_hash_tame : tame ck_kp_root_hash_callback.
Proof. unfold ck_kp_root_hash_callback. tame_callback. Qed.

Lemma amfi_start_oo mem buffer : ok_or_oob (fun _ => True) (amfi_start mem buffer).
Proof. unfold amfi_start. repeat tame_step. by apply prev_oo. Qed.

Lemma load_ptr_oo mem p : ok_or_oob (fun _ => True) (load_ptr mem p).
Proof. destruct p; [apply load_oo|done]. Qed.

Lemma tc_guard_oo mem buffer : ok_or_oob (fun _ => True) (tc_guard mem buffer).
Proof. unfold tc_guard. repeat tame_step. Qed.

Lemma or_else_oo x y : ok_or_oob (fun _ => True) x -> ok_or_oob (fun _ => True) y -> ok_or_oob (fun _ => True) (or_else x y).
Proof. intros Hx Hy. eapply oo_bind; [exact Hx|]. by intros [p|] _. Qed.

Lemma mac_mount_flag_oo mem buffer : ok_or_oob (fun _ => True) (mac_mount_flag mem buffer).
Proof. unfold mac_mount_flag. repeat apply or_else_oo; [by apply prev_oo|by apply next_oo|]. repeat tame_step. Qed.

#[export] Hint Resolve amfi_start_oo load_ptr_oo tc_guard_oo or_else_oo mac_mount_flag_oo : tame.

Lemma tc_tame : tame ck_kp_tc_callback.
Proof. unfold ck_kp_tc_callback. cbv zeta. tame_callback. Qed.

Lemma tc_ios16_tame : tame ck_kp_tc_ios16_callback.
Proof. unfold ck_kp_tc_ios16_callback. tame_callback. Qed.

Lemma amfi_sha1_tame : tame ck_kp_amfi_sha1_callback.
Proof. unfold ck_kp_amfi_sha1_callback. tame_callback. Qed.

Lemma amfi_tc_tame : tame ck_kp_amfi_tc_callback.
Proof. unfold ck_kp_amfi_tc_callback. tame_callback. Qed.

Lemma mac_mount_tame : tame ck_kp_mac_mount_callback.
Proof. unfold ck_kp_mac_mount_callback. tame_callback. Qed.

Lemma kprintf_tame : tame ck_kp_kprintf_callback.
Proof. unfold ck_kp_kprintf_callback. cbv zeta. tame_callback. Qed.

Lemma amx_common_tame n mem buffer newer : image n mem -> ok_or_oob (image_result n) (ck_kp_amx_common mem buffer newer).
Proof. intros Hm. unfold ck_kp_amx_common. repeat tame_step. Qed.

Lemma amx_tame : tame ck_kp_amx_callback.
Proof. unfold ck_kp_amx_callback. tame_callback. by apply amx_common_tame. Qed.

Lemma amx_new_tame : tame ck_kp_amx_new_callback.
Proof. unfold ck_kp_amx_new_callback. tame_callback. by apply amx_common_tame. Qed.

Lemma amx_newer_tame : tame ck_kp_amx_newer_callback.
Proof. intros n mem buffer Hm. by apply amx_common_tame. Qed.

Lemma img4_tame : tame ck_kp_img4_callback.
Proof. unfold ck_kp_img4_callback. tame_callback. Qed.

(** A patch of a range keeps the size of the image. *)
Definition patch_tame (patch : bytes -> CKPatcherRange -> outcome bytes) : Prop := forall n mem range,
  Z.of_nat n < 2 ^ 62 -> image n mem -> ok_or_oob (image n) (patch mem range).

#[export] Hint Resolve root_auth_tame root_hash_tame tc_tame tc_ios16_tame amfi_sha1_tame amfi_tc_tame mac_mount_tame
  kprintf_tame amx_tame amx_new_tame amx_newer_tame img4_tame : tame.

Ltac table := split_and!; [discriminate|reflexivity|reflexivity|reflexivity|reflexivity].
Ltac bytes_const := repeat apply Forall_cons_2; try apply Forall_nil_2; by vm_compute.

Ltac patch_step :=
  match goal with
  | |- ok_or_oob _ (ck_patcher_find_callback _ _ _ _ _ _ ≫= _) =>
      eapply oo_bind; [apply find_callback_tame; [table|typeclasses eauto with tame|done|eassumption]|intros [? ?] ?]
  | |- ok_or_oob _ (ck_patcher_find_replace _ _ _ _ _ _ _ _ ≫= _) =>
      eapply oo_bind; [apply find_replace_tame; [table|reflexivity|bytes_const|done|eassumption]|intros [? ?] ?]
  | |- ok_or_oob _ (mret _) => by apply oo_ret
  | |- ok_or_oob _ (if ?b then _ else _) => destruct b
  end.

Ltac patch_function := intros n mem range Hr Hm; cbv zeta; repeat patch_step.

Lemma cs_patch_tame : patch_tame ck_kp_cs_patches.
Proof. unfold ck_kp_cs_patches. patch_function. Qed.

Lemma apfs_patch_tame : patch_tame ck_kp_apfs_patches.
Proof.
  unfold ck_kp_apfs_patches. patch_function.
  apply (oo_bind (image_result n)); [|intros [? ?] ?; cbv beta iota; repeat patch_step].
  match goal with |- ok_or_oob _ (if ?b then _ else _) => destruct b end;
    [apply find_replace_tame; [table|reflexivity|bytes_const|done|eassumption]|by apply oo_ret].
Qed.

Lemma snapshot_patch_tame : patch_tame ck_kp_apfs_snapshot_patch.
Proof. unfold ck_kp_apfs_snapshot_patch. patch_function. Qed.

Lemma tc_patch_tame : patch_tame ck_kp_tc_patch.
Proof. unfold ck_kp_tc_patch. patch_function. Qed.

Lemma amfi_patch_tame : patch_tame ck_kp_amfi_patches.
Proof. unfold ck_kp_amfi_patches. patch_function. Qed.

Lemma mac_mount_patch_tame : patch_tame ck_kp_mac_mount_patch.
Proof. unfold ck_kp_mac_mount_patch. patch_function. Qed.

Lemma kprintf_patch_tame : patch_tame ck_kp_kprintf_patch.
Proof. unfold ck_kp_kprintf_patch. patch_function. Qed.

Lemma amx_patch_tame : patch_tame ck_kp_amx_patch.
Proof. unfold ck_kp_amx_patch. patch_function. Qed.

Lemma hactivation_patch_tame : patch_tame ck_kp_hactivation_patch.
Proof. unfold ck_kp_hactivation_patch. patch_function. Qed.

Lemma sep_mgr_patch_tame : patch_tame ck_kp_sep_mgr_patches.
Proof. unfold ck_kp_sep_mgr_patches. patch_function. Qed.

Lemma img4_patch_tame : patch_tame ck_kp_img4_patches.
Proof. unfold ck_kp_img4_patches. patch_function. Qed.

Lemma pmap_patch_tame : patch_tame ck_kp_pmap_cs_enforce_patch.
Proof. unfold ck_kp_pmap_cs_enforce_patch. patch_function. Qed.

#[export] Hint Resolve apfs_patch_tame snapshot_patch_tame tc_patch_tame amfi_patch_tame mac_mount_patch_tame
  kprintf_patch_tame amx_patch_tame hactivation_patch_tame sep_mgr_patch_tame img4_patch_tame pmap_patch_tame
  cs_patch_tame : tame.

Definition all_patches : list (bytes -> CKPatcherRange -> outcome bytes) :=
  [ck_kp_apfs_patches; ck_kp_apfs_snapshot_patch; ck_kp_amfi_patches; ck_kp_sep_mgr_patches; ck_kp_img4_patches;
   ck_kp_mac_mount_patch; ck_kp_kprintf_patch; ck_kp_amx_patch; ck_kp_cs_patches; ck_kp_hactivation_patch;
   ck_kp_tc_patch; ck_kp_pmap_cs_enforce_patch].

Lemma on_range_tame n patch mem r : patch_tame patch -> Z.of_nat n < 2 ^ 62 -> image n mem ->
  ends True (image n) (on_range patch mem r).
Proof. intros Hp Hr Hm. destruct r; [|done]. by apply oo_weaken, Hp. Qed.

(** One lookup or one patch of [ck_patch_kernel]. *)
Ltac kernel_step :=
  match goal with
  | |- ends _ _ (on_range _ _ _ ≫= _) =>
      eapply oo_bind; [apply on_range_tame; [typeclasses eauto with tame|done|eassumption]|intros ? ?]
  | |- ends _ _ (on_range _ _ _) => apply on_range_tame; [typeclasses eauto with tame|done|eassumption]
  | |- ends _ _ (_ ≫= _) => apply (oo_bind (fun _ => True)); [repeat lookup_step|intros ? _]
  end.


(** An image of twenty words, and a range of it. *)
Definition small_image : bytes := concat (replicate 20 NOP_BYTES).


(** ** The branch of [kprintf] *)

(** The offset a branch adds to the program counter: the fields [%imm19] of a compare
    and branch and [%imm26] of an unconditional branch. *)
Definition signed_field (length x : Z) : Z := if x <? 2 ^ (length - 1) then x else x - 2 ^ length.
Definition cbz_offset (insn : Z) : Z := 4 * signed_field 19 (extract32 insn 5 19).
Definition b_offset (insn : Z) : Z := 4 * signed_field 26 (extract32 insn 0 26).

Definition is_cbz (insn : Z) : Prop := insn .& 0xFF000000 = 0x34000000.
Definition is_cbnz (insn : Z) : Prop := insn .& 0xFF000000 = 0x35000000.
Definition is_b (insn : Z) : Prop := insn .>> 26 = 5.

Lemma extract_imm19 insn : 0 <= extract32 insn 5 19 < 2 ^ 19.
Proof.
  unfold extract32. change (Z.ones 32 .>> (32 - 19)) with (Z.ones 19). rewrite Z.land_ones by lia.
  by apply Z.mod_pos_bound.
Qed.

Lemma branch_word x : 0 <= x < 2 ^ 19 -> 0x14000000 .| x = 5 * 2 ^ 26 + x.
Proof.
  intros Hx. change (5 * 2 ^ 26) with 0x14000000. symmetry.
  assert (E : Z.land 0x14000000 x = 0).
  { change 0x14000000 with (Z.shiftl 5 26). apply Z.bits_inj'. intros i Hi. rewrite Z.land_spec, Z.bits_0.
    destruct (Z.lt_ge_cases i 26).
    - by rewrite Z.shiftl_spec_low.
    - rewrite (testbit_high 19 x i), andb_false_r; [done|split; lia|lia]. }
  rewrite (Z.add_nocarry_lxor _ _ E). by apply Z.lxor_lor.
Qed.

(** The patch that forces kernel messages turns the conditional branch of a
    forward [cbz] into an unconditional one with the same target and removes a [cbnz];
    the target of a backward [cbz] is moved by two megabytes, because its offset is
    not sign extended. *)
Theorem kprintf_branch insn :
  (is_cbnz insn -> kprintf_insn insn = NOP) /\
  (is_cbz insn -> is_b (kprintf_insn insn) /\
     b_offset (kprintf_insn insn) = cbz_offset insn + (if cbz_offset insn <? 0 then 2 ^ 21 else 0)).
Proof.
  assert (Hbit : forall k, insn .& 0xFF000000 = k -> insn .& BIT 24 = k .& BIT 24).
  { intros k <-. rewrite <- Z.land_assoc. done. }
  unfold is_cbnz, is_cbz, kprintf_insn. split; intros H%Hbit; rewrite H; [done|].
  change (nonzero _) with false. cbv iota. pose proof (extract_imm19 insn) as Hx.
  unfold b_offset, cbz_offset. set (x := extract32 insn 5 19) in *. clearbody x.
  rewrite (branch_word x Hx). unfold is_b. rewrite Z.shiftr_div_pow2 by lia. split.
  - rewrite Z.div_add_l by done. rewrite Z.div_small; lia.
  - assert (Ex : extract32 (5 * 2 ^ 26 + x) 0 26 = x).
    { unfold extract32. change (Z.ones 32 .>> (32 - 26)) with (Z.ones 26). rewrite Z.shiftr_0_r, Z.land_ones by lia.
      rewrite Z.add_comm, Z.mod_add by done. apply Z.mod_small. lia. }
    rewrite Ex. unfold signed_field. change (2 ^ (26 - 1)) with (2 ^ 25). change (2 ^ (19 - 1)) with (2 ^ 18).
    destruct (Z.ltb_spec x (2 ^ 25)), (Z.ltb_spec x (2 ^ 18));
      match goal with |- context [4 * ?a <? 0] => destruct (Z.ltb_spec (4 * a) 0) end; lia.
Qed.

Lemma kprintf_branch_witness :
  is_cbz 0x34000088 /\ is_b (kprintf_insn 0x34000088) /\
  b_offset (kprintf_insn 0x34000088) =
    cbz_offset 0x34000088 + (if cbz_offset 0x34000088 <? 0 then 2 ^ 21 else 0) /\
  cbz_offset 0x34000088 = 16.
Proof.
  assert (H : is_cbz 0x34000088) by reflexivity. split; [exact H|].
  destruct (proj2 (kprintf_branch 0x34000088) H) as [H1 H2]. split; [exact H1|]. split; [exact H2|reflexivity].
Defined.

(** The trust cache callback reads through the null pointer when no load of the hash
    type follows the match. *)
Lemma tc_callback_null mem buffer : tc_guard mem buffer = Done true ->
  ck_patcher_find_next_insn mem buffer 256 0x39402C00 0xFFFFFC00 0 = Done None ->
  ck_kp_tc_callback mem buffer = Oob.
Proof. intros Hg Hn. unfold ck_kp_tc_callback. rewrite Hg. run. rewrite Hn. by run. Qed.

(** The AMX callback changes the image before it declines. *)
Lemma amx_callback_declines_late :
  exists mem, ck_kp_amx_callback small_image 40 = Done (false, mem) /\ mem <> small_image.
Proof. eexists. split; [vm_compute; reflexivity|]. intros E. vm_compute in E. discriminate E. Qed.
