(* ===== verification/MachoSpec.v ===== *)
(** * What a Mach-O image means

    A reference for [Macho]: the load commands as data and their encoding.  The
    lookups find in the bytes what a search of the list of commands finds, and an
    image is unpacked to the bytes its segments describe. *)

From S2P Require Import Prelude CString HostMem Patcher Macho Mem KernelRanges.

(** ** Bytes at a place *)

Definition here (mem : bytes) (p : Z) (bs : bytes) : Prop := slice mem p (zlen bs) = Done bs.

Lemma here_iff mem p bs : here mem p bs <->
  0 <= p /\ p + zlen bs <= zlen mem /\ take (length bs) (drop (Z.to_nat p) mem) = bs.
Proof.
  unfold here, slice. pose proof (Zle_0_nat (length bs) : 0 <= zlen bs).
  replace (Z.to_nat (zlen bs)) with (length bs) by (unfold zlen; lia).
  destruct (Z.leb_spec 0 p), (Z.leb_spec 0 (zlen bs)), (Z.leb_spec (p + zlen bs) (zlen mem)); cbn; try (split; [done|lia]).
  split; [intros [= ->]; auto|intros (_ & _ & ->); done].
Qed.

Lemma here_app mem p a b : here mem p (a ++ b) <-> here mem p a /\ here mem (p + zlen a) b.
Proof.
  rewrite !here_iff, zlen_app, length_app.
  pose proof (Zle_0_nat (length a) : 0 <= zlen a). pose proof (Zle_0_nat (length b) : 0 <= zlen b).
  split.
  - intros (H1 & H2 & H3). assert (Hl : take (length a) (drop (Z.to_nat p) mem) = a).
    { apply (f_equal (take (length a))) in H3. rewrite take_take, take_app_length in H3.
      by replace (length a `min` (length a + length b))%nat with (length a) in H3 by lia. }
    split; [split; [done|split; [lia|done]]|]. split; [lia|]. split; [lia|].
    apply (f_equal (drop (length a))) in H3. rewrite drop_app_length, <- take_drop_commute, drop_drop in H3.
    replace (Z.to_nat (p + zlen a)) with (Z.to_nat p + length a)%nat by (unfold zlen; lia). done.
  - intros ((H1 & H2 & H3) & H4 & H5 & H6). split; [done|]. split; [lia|].
    rewrite <- (take_drop (length a) (drop (Z.to_nat p) mem)), H3, take_app, take_ge by lia. f_equal. rewrite drop_drop.
    replace (length a + length b - length a)%nat with (length b) by lia.
    by replace (Z.to_nat p + length a)%nat with (Z.to_nat (p + zlen a)) by (unfold zlen; lia).
Qed.

Lemma here_load mem p x : here mem p (le_split 4 x) -> in_width 32 x -> load_le mem p = Done x.
Proof.
  intros H Hx. unfold here in H. change (zlen (le_split 4 x)) with 4 in H. unfold load_le. rewrite H.
  cbn [fmap outcome_fmap]. rewrite le_combine_split. f_equal. by apply wrap_small.
Qed.

Lemma here_load64 mem p x : here mem p (le_split 8 x) -> in_width 64 x -> load_le64 mem p = Done x.
Proof.
  intros H Hx. unfold here in H. change (zlen (le_split 8 x)) with 8 in H. unfold load_le64. rewrite H.
  cbn [fmap outcome_fmap]. rewrite le_combine_split. f_equal. by apply wrap_small.
Qed.

Lemma here_aget mem p b bs : here mem p (b :: bs) -> aget mem p = Done b.
Proof.
  intros (H1 & H2 & H3)%here_iff. unfold aget. destruct (Z.leb_spec 0 p); [|lia].
  cbn [length] in H3. destruct (mem !! Z.to_nat p) as [x|] eqn:E.
  - rewrite (drop_S _ _ _ E) in H3. cbn in H3. by injection H3 as ->.
  - apply lookup_ge_None in E. rewrite zlen_cons in H2. unfold zlen in *. lia.
Qed.

Lemma here_strncmp n mem s : forall p data, here mem p data -> (n <= length data)%nat ->
  strncmp_at n mem p s = Done (strncmp_eq n data s).
Proof.
  revert s. induction n as [|n IH]; intros s p data H Hl; [done|]. destruct data as [|a data]; [cbn in Hl; lia|].
  cbn [strncmp_at strncmp_eq]. rewrite (here_aget _ _ _ _ H). run.
  destruct s as [|b s]; [done|]. apply (here_app _ _ [a] data) in H as [_ H]. change (zlen [a]) with 1 in H.
  destruct (a =? b); [|done]. rewrite (IH s (p + 1) data H) by (cbn in Hl; lia). done.
Qed.

(** ** Commands and their encoding *)

Record Sect := mkSect {
  s_name : bytes;
  s_segname : bytes;
  s_addr : Z;
  s_size : Z;
  s_rest : bytes;
}.

Record Seg := mkSeg {
  g_name : bytes;
  g_vmaddr : Z;
  g_vmsize : Z;
  g_fileoff : Z;
  g_filesize : Z;
  g_maxprot : Z;
  g_initprot : Z;
  g_flags : Z;
  g_sects : list Sect;
}.

Inductive command := CSeg (s : Seg) | COther (cmd : Z) (body : bytes).

Definition encode_sect (s : Sect) : bytes :=
  s_name s ++ s_segname s ++ le_split 8 (s_addr s) ++ le_split 8 (s_size s) ++ s_rest s.

Definition encode_seg (s : Seg) : bytes :=
  le_split 4 LC_SEGMENT_64 ++ le_split 4 (72 + 80 * zlen (g_sects s)) ++ g_name s ++ le_split 8 (g_vmaddr s) ++
  le_split 8 (g_vmsize s) ++ le_split 8 (g_fileoff s) ++ le_split 8 (g_filesize s) ++ le_split 4 (g_maxprot s) ++
  le_split 4 (g_initprot s) ++ le_split 4 (zlen (g_sects s)) ++ le_split 4 (g_flags s) ++ concat (encode_sect <$> g_sects s).

Definition encode_cmd (c : command) : bytes :=
  match c with
  | CSeg s => encode_seg s
  | COther cmd body => le_split 4 cmd ++ le_split 4 (8 + zlen body) ++ body
  end.

Definition encode_header (file_type : Z) (cmds : list command) (ids rest : bytes) : bytes :=
  le_split 4 MACH_MAGIC_64 ++ ids ++ le_split 4 file_type ++ le_split 4 (zlen cmds) ++ rest.

Definition encode_cmds (cmds : list command) : bytes := concat (encode_cmd <$> cmds).

Record sect_ok (s : Sect) : Prop := {
  so_name : length (s_name s) = 16%nat;
  so_segname : length (s_segname s) = 16%nat;
  so_addr : in_width 64 (s_addr s);
  so_size : in_width 64 (s_size s);
  so_rest : length (s_rest s) = 32%nat;
}.

Record seg_ok (s : Seg) : Prop := {
  go_name : length (g_name s) = 16%nat;
  go_vmaddr : in_width 64 (g_vmaddr s);
  go_vmsize : in_width 64 (g_vmsize s);
  go_fileoff : in_width 64 (g_fileoff s);
  go_filesize : in_width 64 (g_filesize s);
  go_maxprot : in_width 32 (g_maxprot s);
  go_sects : Forall sect_ok (g_sects s);
  go_size : 72 + 80 * zlen (g_sects s) < 2 ^ 32;
}.

Definition cmd_ok (c : command) : Prop :=
  match c with
  | CSeg s => seg_ok s
  | COther cmd body => cmd <> LC_SEGMENT_64 /\ in_width 32 cmd /\ 8 + zlen body < 2 ^ 32
  end.

(** An image of a header and its commands at [h]. *)
Record macho_at (mem : bytes) (h : Z) (file_type : Z) (cmds : list command) : Prop := {
  ma_header : exists ids rest, length ids = 8%nat /\ length rest = 12%nat /\ here mem h (encode_header file_type cmds ids rest);
  ma_cmds : here mem (h + HEADER_SIZE) (encode_cmds cmds);
  ma_ok : Forall cmd_ok cmds;
  ma_type : in_width 32 file_type;
  ma_count : zlen cmds < 2 ^ 32;
}.

Lemma header_fields mem h file_type cmds : macho_at mem h file_type cmds ->
  hdr_magic mem h = Done MACH_MAGIC_64 /\ hdr_file_type mem h = Done file_type /\ hdr_n_cmds mem h = Done (zlen cmds).
Proof.
  intros [(ids & rest & Hi & Hr & Hh) _ _ Ht Hc]. unfold encode_header in Hh. rewrite !here_app in Hh.
  destruct Hh as (H1 & _ & H2 & H3 & _). unfold hdr_magic, hdr_file_type, hdr_n_cmds.
  unfold zlen in H2, H3. rewrite !length_le_split, Hi in *.
  replace (h + 12) with (h + Z.of_nat 4 + Z.of_nat 8) by lia.
  replace (h + 16) with (h + Z.of_nat 4 + Z.of_nat 8 + Z.of_nat 4) by lia.
  split_and!; apply here_load; try done. unfold in_width, zlen in *. lia.
Qed.

(** The size of a command. *)
Definition cmd_len (c : command) : Z :=
  match c with CSeg s => 72 + 80 * zlen (g_sects s) | COther _ body => 8 + zlen body end.

Lemma encode_sect_length s : sect_ok s -> length (encode_sect s) = 80%nat.
Proof. intros []. unfold encode_sect. rewrite !length_app, !length_le_split. lia. Qed.

Lemma encode_sects_length l : Forall sect_ok l -> zlen (concat (encode_sect <$> l)) = 80 * zlen l.
Proof.
  unfold zlen. induction 1 as [|s l Hs _ IH]; [done|]. cbn. rewrite length_app, encode_sect_length by done. lia.
Qed.

Lemma encode_cmd_length c : cmd_ok c -> zlen (encode_cmd c) = cmd_len c.
Proof.
  destruct c as [s|cmd body]; intros Hc; cbn [encode_cmd cmd_len].
  - pose proof (encode_sects_length _ (go_sects _ Hc)) as Hl. destruct Hc. unfold encode_seg, zlen in *.
    rewrite !length_app, !length_le_split. lia.
  - unfold zlen. rewrite !length_app, !length_le_split. lia.
Qed.

Lemma cmd_len_pos c : 8 <= cmd_len c.
Proof. destruct c; cbn; unfold zlen; lia. Qed.

Lemma cmd_head mem p c : cmd_ok c -> here mem p (encode_cmd c) ->
  lc_cmd_size mem p = Done (cmd_len c) /\
  exists cmd, lc_cmd mem p = Done cmd /\ (cmd =? LC_SEGMENT_64) = match c with CSeg _ => true | _ => false end.
Proof.
  intros Hc Hh. unfold lc_cmd, lc_cmd_size. pose proof (cmd_len_pos c).
  destruct c as [s|cmd body]; cbn [encode_cmd cmd_len] in *; unfold encode_seg in Hh; rewrite !here_app in Hh.
  - destruct Hh as (H1 & H2 & _). change (zlen (le_split 4 LC_SEGMENT_64)) with 4 in H2.
    split; [apply here_load; [done|destruct Hc; unfold in_width; lia]|]. exists LC_SEGMENT_64. split; [by apply here_load|done].
  - destruct Hh as (H1 & H2 & _), Hc as (Hne & Hw & Hl). change (zlen (le_split 4 cmd)) with 4 in H2.
    split; [apply here_load; [done|unfold in_width; lia]|]. exists cmd. split; [by apply here_load|]. by apply Z.eqb_neq.
Qed.

(** The fields of a segment in memory. *)
Lemma segment_fields mem p s : seg_ok s -> here mem p (encode_seg s) ->
  seg_vmaddr mem p = Done (g_vmaddr s) /\ seg_vmsize mem p = Done (g_vmsize s) /\
  seg_fileoff mem p = Done (g_fileoff s) /\ seg_filesize mem p = Done (g_filesize s) /\
  seg_maxprot mem p = Done (g_maxprot s) /\ seg_nsects mem p = Done (zlen (g_sects s)) /\
  (forall n name, (n <= 16)%nat -> seg_named n mem p name = Done (strncmp_eq n (g_name s) name)) /\
  here mem (p + SEGMENT_SIZE) (concat (encode_sect <$> g_sects s)).
Proof.
  intros Hs Hh. unfold encode_seg in Hh. rewrite !here_app in Hh. destruct Hs.
  destruct Hh as (_ & _ & H1 & H2 & H3 & H4 & H5 & H6 & _ & H7 & _ & H8).
  unfold seg_vmaddr, seg_vmsize, seg_fileoff, seg_filesize, seg_maxprot, seg_nsects, seg_named, SEGMENT_SIZE.
  assert (Hn : zlen (g_name s) = 16) by (unfold zlen; lia). rewrite Hn in *.
  change (zlen (le_split 4 _)) with 4 in *. change (zlen (le_split 8 _)) with 8 in *.
  rewrite <- ?Z.add_assoc in *. change (4 + 4) with 8 in *.
  split_and!; try (first [apply here_load64|apply here_load]; [eassumption|done]).
  - apply here_load; [eassumption|]. unfold in_width, zlen in *. lia.
  - intros n name Hle. apply here_strncmp; [eassumption|lia].
  - exact H8.
Qed.

(** The commands with the places they are at. *)
Fixpoint placed (p : Z) (cmds : list command) : list (Z * command) :=
  match cmds with [] => [] | c :: cmds => (p, c) :: placed (p + cmd_len c) cmds end.

Lemma placed_here mem cmds : forall p q c, Forall cmd_ok cmds -> here mem p (encode_cmds cmds) ->
  In (q, c) (placed p cmds) -> here mem q (encode_cmd c) /\ cmd_ok c.
Proof.
  induction cmds as [|c cmds IH]; intros p q c' Hok Hh Hin; [done|]. apply Forall_cons in Hok as [Hc Hok].
  unfold encode_cmds in Hh. cbn [fmap list_fmap concat] in Hh. apply here_app in Hh as [Hh1 Hh2].
  rewrite encode_cmd_length in Hh2 by done. destruct Hin as [[= <- <-]|Hin]; [done|]. by apply (IH (p + cmd_len c)).
Qed.

Lemma placed_size mem cmds p q c : Forall cmd_ok cmds -> here mem p (encode_cmds cmds) ->
  In (q, c) (placed p cmds) -> lc_cmd_size mem q = Done (cmd_len c).
Proof. intros Hok Hh Hin. destruct (placed_here _ _ _ _ _ Hok Hh Hin) as [H1 H2]. by apply cmd_head. Qed.

Lemma find_cmd_placed mem test (f : command -> bool) cmds : forall p,
  (forall q c, In (q, c) (placed p cmds) -> lc_cmd_size mem q = Done (cmd_len c) /\ test q = Done (f c)) ->
  find_cmd (length cmds) mem p test = Done (option_map fst (List.find (fun qc => f (snd qc)) (placed p cmds))).
Proof.
  induction cmds as [|c cmds IH]; intros p Ht; [done|]. cbn [length find_cmd placed List.find snd].
  destruct (Ht p c) as [Hs E]; [by left|]. rewrite E. run. destruct (f c); [done|]. rewrite Hs. run.
  apply IH. intros q c' Hin. apply Ht. by right.
Qed.

Lemma fold_cmds_placed {A} mem (body : A -> Z -> outcome A) (g : A -> command -> A) cmds : forall p a,
  (forall a q c, In (q, c) (placed p cmds) -> lc_cmd_size mem q = Done (cmd_len c) /\ body a q = Done (g a c)) ->
  fold_cmds (length cmds) mem p body a = Done (foldl g a cmds).
Proof.
  induction cmds as [|c cmds IH]; intros p a Ht; [done|]. cbn [length fold_cmds foldl].
  destruct (Ht a p c) as [Hs E]; [by left|]. rewrite E. run. rewrite Hs. run.
  apply IH. intros a' q c' Hin. apply Ht. by right.
Qed.

(** A search and a loop over the commands of an image. *)
Lemma find_in_macho mem h ft cmds test (f : command -> bool) : macho_at mem h ft cmds ->
  (forall q c, cmd_ok c -> here mem q (encode_cmd c) -> test q = Done (f c)) ->
  find_in mem h test = Done (option_map fst (List.find (fun qc => f (snd qc)) (placed (h + HEADER_SIZE) cmds))).
Proof.
  intros Hm Ht. destruct (header_fields _ _ _ _ Hm) as (_ & _ & Hn). unfold find_in. rewrite Hn. run.
  replace (Z.to_nat (zlen cmds)) with (length cmds) by (unfold zlen; lia). apply find_cmd_placed.
  intros q c Hin. pose proof (ma_ok _ _ _ _ Hm) as Hok. pose proof (ma_cmds _ _ _ _ Hm) as Hh. split; [by eapply placed_size|].
  destruct (placed_here _ _ _ _ _ Hok Hh Hin). by apply Ht.
Qed.

Lemma fold_in_macho {A} mem h ft cmds (body : A -> Z -> outcome A) (g : A -> command -> A) a : macho_at mem h ft cmds ->
  (forall a q c, In c cmds -> cmd_ok c -> here mem q (encode_cmd c) -> body a q = Done (g a c)) ->
  fold_in mem h body a = Done (foldl g a cmds).
Proof.
  intros Hm Ht. destruct (header_fields _ _ _ _ Hm) as (_ & _ & Hn). unfold fold_in. rewrite Hn. run.
  replace (Z.to_nat (zlen cmds)) with (length cmds) by (unfold zlen; lia). apply fold_cmds_placed.
  intros a' q c Hin. pose proof (ma_ok _ _ _ _ Hm) as Hok. pose proof (ma_cmds _ _ _ _ Hm) as Hh. split; [by eapply placed_size|].
  destruct (placed_here _ _ _ _ _ Hok Hh Hin). apply Ht; try done.
  revert Hin. generalize (h + HEADER_SIZE). clear. induction cmds as [|c' cmds IH]; intros p; [done|].
  intros [[= _ ->]|Hin]; [by left|right; by eapply IH].
Qed.

(** ** Lookup of a section *)

Definition named_seg (name : bytes) (c : command) : bool :=
  match c with CSeg s => strncmp_eq 15 (g_name s) name | _ => false end.

Definition named_sect (name : bytes) (s : Sect) : bool := strncmp_eq 15 (s_name s) name.

(** The first segment of a name. *)
Fixpoint find_seg (name : bytes) (cmds : list command) : option Seg :=
  match cmds with
  | [] => None
  | CSeg s :: cmds => if strncmp_eq 15 (g_name s) name then Some s else find_seg name cmds
  | _ :: cmds => find_seg name cmds
  end.

(** What a lookup of a section in the list of commands gives. *)
Definition section_range (g : mem_globals) (cmds : list command) (segment section : bytes) : option CKPatcherRange :=
  match find_seg segment cmds with
  | None => None
  | Some s => option_map (fun x => ck_kp_range_from_va g (s_addr x) (s_size x)) (List.find (named_sect section) (g_sects s))
  end.

Lemma find_seg_placed name cmds : forall p,
  match List.find (fun qc => named_seg name (snd qc)) (placed p cmds) with
  | Some (q, c) => exists s, c = CSeg s /\ find_seg name cmds = Some s /\ In (q, c) (placed p cmds)
  | None => find_seg name cmds = None
  end.
Proof.
  induction cmds as [|c cmds IH]; intros p; [done|]. cbn [placed List.find snd]. specialize (IH (p + cmd_len c)).
  destruct c as [s|cmd body]; cbn [named_seg find_seg].
  - destruct (strncmp_eq 15 (g_name s) name); [exists s; split_and!; [done|done|by left]|].
    destruct (List.find _ _) as [[q c]|]; [|done]. destruct IH as (s' & -> & E & Hin). exists s'. split_and!; [done|done|by right].
  - destruct (List.find _ _) as [[q c]|]; [|done]. destruct IH as (s' & -> & E & Hin). exists s'. split_and!; [done|done|by right].
Qed.

Lemma get_segment_spec mem h ft cmds name : macho_at mem h ft cmds -> ft <> MH_FILESET ->
  exists q, apple_boot_get_segment mem h name = Done q /\
    match q with
    | Some p => exists s, find_seg name cmds = Some s /\ seg_ok s /\ here mem p (encode_seg s)
    | None => find_seg name cmds = None
    end.
Proof.
  intros Hm Hft. destruct (header_fields _ _ _ _ Hm) as (_ & Ht & _).
  unfold apple_boot_get_segment. cbn [get_segment]. rewrite Ht. run. rewrite (proj2 (Z.eqb_neq _ _) Hft).
  rewrite (find_in_macho _ _ _ _ _ (named_seg name) Hm).
  - eexists. split; [done|]. pose proof (find_seg_placed name cmds (h + HEADER_SIZE)) as Hf.
    destruct (List.find _ _) as [[p c]|]; [|done]. destruct Hf as (s & -> & E & Hin). cbn. exists s.
    destruct (placed_here _ _ _ _ _ (ma_ok _ _ _ _ Hm) (ma_cmds _ _ _ _ Hm) Hin). done.
  - intros q c Hc Hh. unfold segment_test. destruct (cmd_head _ _ _ Hc Hh) as (_ & cmd & -> & E). run. rewrite E.
    destruct c as [s|]; [|done]. cbn [named_seg encode_cmd] in *.
    destruct (segment_fields _ _ _ Hc Hh) as (_ & _ & _ & _ & _ & _ & Hnm & _). apply Hnm. lia.
Qed.

Lemma sect_fields mem p s : sect_ok s -> here mem p (encode_sect s) ->
  (forall name, sect_named mem p name = Done (named_sect name s)) /\
  sect_addr mem p = Done (s_addr s) /\ sect_size mem p = Done (s_size s).
Proof.
  intros Hs Hh. unfold encode_sect in Hh. rewrite !here_app in Hh. destruct Hs, Hh as (H1 & H2 & H3 & H4 & _).
  unfold sect_addr, sect_size, sect_named.
  assert (Hn : zlen (s_name s) = 16) by (unfold zlen; lia). assert (Hg : zlen (s_segname s) = 16) by (unfold zlen; lia).
  rewrite Hn, Hg in *. change (zlen (le_split 8 _)) with 8 in *. rewrite <- ?Z.add_assoc in *.
  split_and!; [|by apply here_load64..]. intros name. apply here_strncmp; [done|lia].
Qed.

Lemma find_sect_spec mem name l : forall p, Forall sect_ok l -> here mem p (concat (encode_sect <$> l)) ->
  exists q, find_sect (length l) mem p name = Done q /\
    match q with
    | Some sp => exists s, List.find (named_sect name) l = Some s /\ sect_addr mem sp = Done (s_addr s) /\ sect_size mem sp = Done (s_size s)
    | None => List.find (named_sect name) l = None
    end.
Proof.
  induction l as [|s l IH]; intros p Hok Hh; [by exists None|]. apply Forall_cons in Hok as [Hs Hok].
  cbn [fmap list_fmap concat] in Hh. apply here_app in Hh as [Hh1 Hh2].
  assert (Hl : zlen (encode_sect s) = SECTION_SIZE) by (unfold zlen; by rewrite encode_sect_length). rewrite Hl in Hh2.
  cbn [length find_sect List.find]. destruct (sect_fields _ _ _ Hs Hh1) as (-> & Ha & Hz). run.
  destruct (named_sect name s); [exists (Some p); split; [done|by exists s]|]. by apply IH.
Qed.

(** In an image that encodes a list of load commands, the lookup of a section finds
    the first segment of that name and in it the first section of that name, and
    returns the range the section describes, or none if either is missing; it reads
    nothing outside the image, whatever other commands lie between. *)
Theorem find_section_range_spec g mem h ft cmds segment section : macho_at mem h ft cmds -> ft <> MH_FILESET ->
  ck_kp_find_section_range g mem (Some h) segment section = Done (section_range g cmds segment section).
Proof.
  intros Hm Hft. unfold ck_kp_find_section_range, section_range. change (deref (Some h) ≫= ?f) with (f h). cbv beta.
  destruct (get_segment_spec _ _ _ _ segment Hm Hft) as (q & -> & Hq). run.
  destruct q as [p|]; [|by rewrite Hq]. destruct Hq as (s & -> & Hs & Hh).
  destruct (segment_fields _ _ _ Hs Hh) as (_ & _ & _ & _ & _ & Hn & _ & Hsec).
  unfold apple_boot_get_section. rewrite Hn. run. replace (Z.to_nat (zlen (g_sects s))) with (length (g_sects s)) by (unfold zlen; lia).
  destruct (find_sect_spec mem section (g_sects s) _ (go_sects _ Hs) Hsec) as (q & -> & Hq). run.
  destruct q as [sp|]; [|by rewrite Hq]. destruct Hq as (x & -> & Ha & Hz). rewrite Ha. run. rewrite Hz. run. done.
Qed.

(** ** Bounds *)

Definition is_loaded (s : Seg) : bool := negb (strncmp_eq 10 (g_name s) (lit "__PAGEZERO")) && negb (g_vmsize s =? 0).

(** The segments that occupy memory. *)
Definition loaded_segs (cmds : list command) : list Seg :=
  omap (fun c => match c with CSeg s => if is_loaded s then Some s else None | _ => None end) cmds.

Lemma loaded_seg_spec mem q c : cmd_ok c -> here mem q (encode_cmd c) ->
  loaded_seg mem q = Done (match c with CSeg s => is_loaded s | _ => false end).
Proof.
  intros Hc Hh. unfold loaded_seg. destruct (cmd_head _ _ _ Hc Hh) as (_ & cmd & -> & E). run. rewrite E.
  destruct c as [s|]; [|done]. destruct (segment_fields _ _ _ Hc Hh) as (_ & Hv & _ & _ & _ & _ & Hn & _).
  cbn [negb]. rewrite Hn by lia. run. unfold is_loaded. destruct (strncmp_eq _ _ _); [done|]. rewrite Hv. by run.
Qed.

(** The bounds with one more segment. *)
Definition grow (b : KcBounds) (s : Seg) : KcBounds :=
  let vmend := u64 (g_vmaddr s + g_vmsize s) in
  let b := if negb (g_filesize s =? 0) && (g_fileoff s =? 0) then b <| text_base := g_vmaddr s |> else b in
  let b := if g_vmaddr s <? kc_base b then b <| kc_base := g_vmaddr s |> else b in
  let b := if kc_end b <? vmend then b <| kc_end := vmend |> else b in
  if nonzero (g_maxprot s .& VM_PROT_WRITE) || strncmp_eq 10 (g_name s) (lit "__LINKEDIT") then b
  else
    let b := if g_vmaddr s <=? ro_lower b then b <| ro_lower := g_vmaddr s |> else b in
    if ro_upper b <=? vmend then b <| ro_upper := vmend |> else b.

Definition grow_cmd (b : KcBounds) (c : command) : KcBounds :=
  match c with CSeg s => if is_loaded s then grow b s else b | _ => b end.

Lemma kc_step_spec mem b q c : cmd_ok c -> here mem q (encode_cmd c) -> kc_step mem b q = Done (grow_cmd b c).
Proof.
  intros Hc Hh. unfold kc_step. rewrite (loaded_seg_spec _ _ _ Hc Hh). run.
  destruct c as [s|]; [|done]. cbn [grow_cmd]. destruct (is_loaded s); [|done].
  destruct (segment_fields _ _ _ Hc Hh) as (Ha & Hz & Ho & Hf & Hp & _ & Hn & _). cbn [negb].
  rewrite Ha. run. rewrite Hz. run. rewrite Hf. run. rewrite Ho. run. rewrite Hp. run.
  unfold grow. destruct (nonzero (g_maxprot s .& VM_PROT_WRITE)); cbn [orb]; [done|].
  rewrite Hn by lia. run. by destruct (strncmp_eq 10 (g_name s) (lit "__LINKEDIT")).
Qed.

Lemma foldl_grow cmds : forall b, foldl grow_cmd b cmds = foldl grow b (loaded_segs cmds).
Proof.
  induction cmds as [|[s|cmd body] cmds IH]; intros b; cbn [foldl grow_cmd loaded_segs omap list_omap]; [done| |by apply IH].
  destruct (is_loaded s); cbn [foldl]; apply IH.
Qed.

Definition raw_bounds (cmds : list command) : KcBounds := foldl grow no_bounds (loaded_segs cmds).

Lemma get_kc_bounds_spec mem h ft cmds : macho_at mem h ft cmds -> bounds_valid (raw_bounds cmds) = true ->
  apple_boot_get_kc_bounds mem h = Done (raw_bounds cmds <| kc_base := kc_base (raw_bounds cmds) .&~ 0x1FFFFFF |>).
Proof.
  intros Hm Hv. unfold apple_boot_get_kc_bounds. rewrite (fold_in_macho _ _ _ _ _ grow_cmd _ Hm).
  - run. rewrite foldl_grow. change (foldl grow no_bounds (loaded_segs cmds)) with (raw_bounds cmds). rewrite Hv. by run.
  - intros b q c _ Hc Hh. by apply kc_step_spec.
Qed.

(** The bounds only grow. *)
Lemma grow_bounds b s : kc_base (grow b s) <= Z.min (kc_base b) (g_vmaddr s) /\
  Z.max (kc_end b) (u64 (g_vmaddr s + g_vmsize s)) <= kc_end (grow b s).
Proof.
  assert (Hro : forall b e, kc_base (if ro_upper b <=? e then b <| ro_upper := e |> else b) = kc_base b /\
                            kc_end (if ro_upper b <=? e then b <| ro_upper := e |> else b) = kc_end b).
  { clear. intros b e. by destruct (_ <=? _). }
  assert (Hlo : forall b a, kc_base (if a <=? ro_lower b then b <| ro_lower := a |> else b) = kc_base b /\
                            kc_end (if a <=? ro_lower b then b <| ro_lower := a |> else b) = kc_end b).
  { clear. intros b a. by destruct (_ <=? _). }
  unfold grow. cbv zeta. set (e := u64 _). set (b1 := if negb _ && _ then _ else b).
  assert (H1 : kc_base b1 = kc_base b /\ kc_end b1 = kc_end b) by (unfold b1; by destruct (_ && _)). clearbody b1.
  set (b2 := if g_vmaddr s <? kc_base b1 then _ else b1).
  assert (H2 : kc_base b2 = Z.min (kc_base b) (g_vmaddr s) /\ kc_end b2 = kc_end b).
  { unfold b2. destruct (Z.ltb_spec (g_vmaddr s) (kc_base b1)); cbn [kc_base kc_end setf]; lia. } clearbody b2.
  set (b3 := if kc_end b2 <? e then _ else b2).
  assert (H3 : kc_base b3 = Z.min (kc_base b) (g_vmaddr s) /\ kc_end b3 = Z.max (kc_end b) e).
  { unfold b3. destruct (Z.ltb_spec (kc_end b2) e); cbn [kc_base kc_end setf]; lia. } clearbody b3.
  destruct (_ || _); [lia|]. rewrite (proj1 (Hro _ _)), (proj2 (Hro _ _)), (proj1 (Hlo _ _)), (proj2 (Hlo _ _)). lia.
Qed.

Lemma bounds_cover l : forall b s, In s l -> kc_base (foldl grow b l) <= g_vmaddr s /\
  u64 (g_vmaddr s + g_vmsize s) <= kc_end (foldl grow b l).
Proof.
  assert (Hmono : forall l b, kc_base (foldl grow b l) <= kc_base b /\ kc_end b <= kc_end (foldl grow b l)).
  { clear. induction l as [|s l IH]; intros b; cbn [foldl]; [lia|]. pose proof (grow_bounds b s). specialize (IH (grow b s)). lia. }
  induction l as [|s' l IH]; intros b s; [done|]. cbn [foldl]. intros [->|Hin]; [|by apply IH].
  pose proof (grow_bounds b s). specialize (Hmono l (grow b s)). lia.
Qed.

(** ** Unpacking *)

(** A loop over the commands of an image with a property of what is done so far. *)
Lemma fold_in_inv {A} mem h ft cmds (body : A -> Z -> outcome A) (Inv : list command -> A -> Prop) a :
  macho_at mem h ft cmds -> Inv [] a ->
  (forall done c todo a q, cmds = done ++ c :: todo -> cmd_ok c -> here mem q (encode_cmd c) -> Inv done a ->
     exists a', body a q = Done a' /\ Inv (done ++ [c]) a') ->
  exists a', fold_in mem h body a = Done a' /\ Inv cmds a'.
Proof.
  intros Hm H0 Hstep. destruct (header_fields _ _ _ _ Hm) as (_ & _ & Hn). unfold fold_in. rewrite Hn. run.
  replace (Z.to_nat (zlen cmds)) with (length cmds) by (unfold zlen; lia).
  pose proof (ma_ok _ _ _ _ Hm) as Hok. pose proof (ma_cmds _ _ _ _ Hm) as Hh. clear Hm Hn.
  revert Hh. generalize (h + HEADER_SIZE) as p. intros p Hh.
  enough (Hgen : forall todo done p a, cmds = done ++ todo -> Forall cmd_ok todo -> here mem p (encode_cmds todo) -> Inv done a ->
    exists a', fold_cmds (length todo) mem p body a = Done a' /\ Inv cmds a') by by apply (Hgen cmds [] p a).
  clear H0 Hok Hh p a. induction todo as [|c todo IH]; intros done p a E Hok Hh Hi.
  - exists a. rewrite app_nil_r in E. by subst done.
  - apply Forall_cons in Hok as [Hc Hok]. unfold encode_cmds in Hh. cbn [fmap list_fmap concat] in Hh.
    apply here_app in Hh as [Hh1 Hh2]. rewrite encode_cmd_length in Hh2 by done. cbn [length fold_cmds].
    destruct (Hstep done c todo a p E Hc Hh1 Hi) as (a1 & -> & Hi1). run.
    rewrite (proj1 (cmd_head _ _ _ Hc Hh1)). run. apply (IH (done ++ [c])); [by rewrite <- app_assoc|done|done|done].
Qed.

(** A segment whose content is in the file and fits its memory. *)
Record unpackable (data : bytes) (len : Z) (s : Seg) : Prop := {
  un_off : g_fileoff s < len;
  un_file : g_fileoff s + g_filesize s <= zlen data;
  un_fits : g_filesize s <= g_vmsize s;
  un_end : g_vmaddr s + g_vmsize s < 2 ^ 64;
}.

(** The bytes of memory two segments fill from the file do not overlap. *)
Definition apart (s t : Seg) : Prop :=
  g_vmaddr s + g_filesize s <= g_vmaddr t \/ g_vmaddr t + g_filesize t <= g_vmaddr s.

(** The image [image], which starts at the address [base], holds the file content of
    the segments and zeros elsewhere. *)
Record holds (data : bytes) (base : Z) (segs : list Seg) (image : bytes) : Prop := {
  ho_segs : forall s, In s segs -> slice image (g_vmaddr s - base) (g_filesize s) = slice data (g_fileoff s) (g_filesize s);
  ho_zero : forall i : nat, (i < length image)%nat ->
    (forall s, In s segs -> ~ g_vmaddr s <= base + Z.of_nat i < g_vmaddr s + g_filesize s) -> image !! i = Some 0;
}.

Lemma loaded_segs_app a b : loaded_segs (a ++ b) = loaded_segs a ++ loaded_segs b.
Proof. apply omap_app. Qed.

Lemma unpack_step_spec data len base size image q c segs : cmd_ok c -> here data q (encode_cmd c) -> zlen image = size ->
  holds data base segs image ->
  (forall s, In s (loaded_segs [c]) -> unpackable data len s /\ base <= g_vmaddr s /\ g_vmaddr s + g_vmsize s <= base + size /\
     forall t, In t segs -> apart t s) ->
  exists image', unpack_step data len base image q = Done image' /\ zlen image' = size /\
    holds data base (segs ++ loaded_segs [c]) image'.
Proof.
  intros Hc Hh Hz Hi Hs. unfold unpack_step. rewrite (loaded_seg_spec _ _ _ Hc Hh). run.
  destruct c as [s|]; [|exists image; cbn; by rewrite app_nil_r]. cbn [loaded_segs omap list_omap] in *.
  destruct (is_loaded s); [|exists image; by rewrite app_nil_r]. cbn [negb].
  destruct (Hs s) as (Hu & Hb & He & Hap); [by left|]. destruct Hu as [Ho Hf Hfit Hend].
  destruct (segment_fields _ _ _ Hc Hh) as (Ha & _ & Hoff & Hfs & _). pose proof (go_fileoff _ Hc). pose proof (go_filesize _ Hc).
  rewrite Hoff. run. rewrite (proj2 (Z.ltb_lt _ _) Ho). run. rewrite Ha. run. rewrite Hfs. run.
  unfold in_width in *. pose proof (slice_in_range data (g_fileoff s) (g_filesize s) ltac:(lia) ltac:(lia) ltac:(lia)) as Hsl.
  rewrite Hsl. run. set (content := take _ _) in *.
  assert (Hcl : zlen content = g_filesize s) by by apply slice_length in Hsl.
  destruct (blit_ok image content (g_vmaddr s - base)) as (l & -> & Hl & Hsame & Hother); [lia|lia|].
  exists l. split; [done|]. split; [unfold zlen in *; lia|]. split.
  - intros t [Hin|[<-|[]]]%in_app_or; [|rewrite <- Hcl at 1; by rewrite Hsame, Hsl].
    rewrite <- (ho_segs _ _ _ _ Hi t Hin). symmetry. destruct (Hap t Hin) as [Hd|Hd].
    + eapply slice_agree; [apply (Hother (g_vmaddr t - base) (g_vmaddr t - base + g_filesize t)); lia|lia|lia].
    + eapply slice_agree; [apply (Hother (g_vmaddr t - base) (g_vmaddr t - base + g_filesize t)); lia|lia|lia].
  - intros i Hlt Hout. destruct (Hother (Z.of_nat i) (Z.of_nat i + 1)) as [_ Hag].
    { specialize (Hout s ltac:(apply in_or_app; right; by left)). lia. }
    rewrite <- Hag by lia. apply (ho_zero _ _ _ _ Hi); [lia|]. intros t Hin. apply Hout. apply in_or_app. by left.
Qed.

(** What the loader relies on in a file. *)
Record loadable (data : bytes) (len ft : Z) (cmds : list command) : Prop := {
  lo_image : macho_at data 0 ft cmds;
  lo_bounds : bounds_valid (raw_bounds cmds) = true;
  lo_segs : Forall (unpackable data len) (loaded_segs cmds);
  lo_apart : ForallOrdPairs apart (loaded_segs cmds);
}.

Definition image_base (cmds : list command) : Z := kc_base (raw_bounds cmds) .&~ 0x1FFFFFF.

Lemma mask_le x : 0 <= x -> 0 <= x .&~ 0x1FFFFFF <= x.
Proof.
  intros Hx. change 0x1FFFFFF with (Z.ones 25). rewrite Z.ldiff_ones_r, Z.shiftl_mul_pow2, Z.shiftr_div_pow2 by lia.
  pose proof (Z.mul_div_le x (2 ^ 25) ltac:(lia)). pose proof (Z.div_pos x (2 ^ 25) Hx ltac:(lia)). lia.
Qed.

Lemma raw_base_nonneg l b : Forall (fun s => 0 <= g_vmaddr s) l -> 0 <= kc_base b -> 0 <= kc_base (foldl grow b l).
Proof.
  intros H. revert b. induction H as [|s l Hs _ IH]; intros b Hb; [done|]. cbn [foldl]. apply IH.
  unfold grow. cbv zeta.
  repeat match goal with |- context [kc_base (if ?c then _ else _)] => destruct c; cbn [kc_base setf] end; lia.
Qed.

Lemma loaded_segs_ok cmds : Forall cmd_ok cmds -> forall s, In s (loaded_segs cmds) -> seg_ok s /\ 0 < g_vmsize s.
Proof.
  induction 1 as [|c cmds Hc _ IH]; intros s; [done|]. destruct c as [s'|]; cbn [loaded_segs omap list_omap]; [|by apply IH].
  unfold is_loaded. destruct (negb (strncmp_eq 10 _ _)); [|by apply IH]. destruct (Z.eqb_spec (g_vmsize s') 0); [by apply IH|]. cbn.
  intros [<-|Hin]; [|by apply IH]. split; [done|]. pose proof (go_vmsize _ Hc). unfold in_width in *. lia.
Qed.

Lemma loadable_covers data len ft cmds s : loadable data len ft cmds -> In s (loaded_segs cmds) ->
  0 <= image_base cmds <= g_vmaddr s /\ g_vmaddr s + g_vmsize s <= kc_end (raw_bounds cmds).
Proof.
  intros Hl Hin. destruct (bounds_cover (loaded_segs cmds) no_bounds s Hin) as [H1 H2].
  change (foldl grow no_bounds (loaded_segs cmds)) with (raw_bounds cmds) in *.
  destruct (loaded_segs_ok _ (ma_ok _ _ _ _ (lo_image _ _ _ _ Hl)) s Hin) as [Hok Hpos].
  pose proof (proj1 (List.Forall_forall _ _) (lo_segs _ _ _ _ Hl) s Hin) as Hu. pose proof (un_end _ _ _ Hu).
  pose proof (go_vmaddr _ Hok). unfold in_width in *. rewrite wrap_small in H2 by (unfold in_width; lia).
  assert (Hb : 0 <= kc_base (raw_bounds cmds)).
  { apply raw_base_nonneg; [|done]. apply List.Forall_forall. intros t Ht.
    destruct (loaded_segs_ok _ (ma_ok _ _ _ _ (lo_image _ _ _ _ Hl)) t Ht) as [Hok' _]. pose proof (go_vmaddr _ Hok'). unfold in_width in *. lia. }
  unfold image_base. pose proof (mask_le (kc_base (raw_bounds cmds)) Hb). lia.
Qed.

Lemma loaded_nonempty data len ft cmds : loadable data len ft cmds -> exists s, In s (loaded_segs cmds).
Proof.
  intros Hl. pose proof (lo_bounds _ _ _ _ Hl) as Hb. unfold raw_bounds in Hb.
  destruct (loaded_segs cmds) as [|s l]; [by vm_compute in Hb|]. exists s. by left.
Qed.

Lemma unpack_spec data len ft cmds : loadable data len ft cmds ->
  let size := kc_end (raw_bounds cmds) - image_base cmds in
  exists image, fold_in data 0 (unpack_step data len (image_base cmds)) (replicate (Z.to_nat size) 0) = Done image /\
    zlen image = size /\ holds data (image_base cmds) (loaded_segs cmds) image.
Proof.
  intros Hl size. destruct (loaded_nonempty _ _ _ _ Hl) as [s0 Hs0].
  pose proof (loadable_covers _ _ _ _ s0 Hl Hs0). destruct (loaded_segs_ok _ (ma_ok _ _ _ _ (lo_image _ _ _ _ Hl)) s0 Hs0) as [_ Hpos].
  apply (fold_in_inv data 0 ft cmds _ (fun done image => zlen image = size /\ holds data (image_base cmds) (loaded_segs done) image)).
  - by apply Hl.
  - split; [unfold zlen; rewrite length_replicate; lia|]. split; [done|]. intros i Hi _. rewrite length_replicate in Hi.
    by apply lookup_replicate_2.
  - intros done c todo image q E Hc Hh [Hz Hi]. rewrite loaded_segs_app.
    apply unpack_step_spec with (segs := loaded_segs done); [done|done|done|done|]. intros s Hin.
    assert (Hin' : In s (loaded_segs cmds)).
    { rewrite E, loaded_segs_app. apply in_or_app. right. change (c :: todo) with ([c] ++ todo). rewrite loaded_segs_app.
      apply in_or_app. by left. }
    split; [by apply (proj1 (List.Forall_forall _ _) (lo_segs _ _ _ _ Hl))|].
    pose proof (loadable_covers _ _ _ _ s Hl Hin'). split; [lia|]. split; [unfold size; lia|]. intros t Ht.
    pose proof (lo_apart _ _ _ _ Hl) as Hap. rewrite E, loaded_segs_app in Hap.
    change (c :: todo) with ([c] ++ todo) in Hap. rewrite loaded_segs_app in Hap.
    revert Hap Ht Hin. generalize (loaded_segs done) (loaded_segs [c]) (loaded_segs todo). clear.
    intros a b r. induction a as [|x a IH]; [done|]. cbn [app]. inversion 1 as [|? ? Hf Hr]; subst. intros [->|Ht] Hin; [|by apply IH].
    apply (proj1 (List.Forall_forall _ _) Hf). apply in_or_app. right. apply in_or_app. by left.
Qed.

(** What lies in a part that was copied lies in the copy. *)
Lemma here_shift a b p q n k bs : slice a p n = slice b q n -> 0 <= p -> p + n <= zlen a -> 0 <= k -> k + zlen bs <= n ->
  here a (p + k) bs -> here b (q + k) bs.
Proof.
  intros E Hp Hn Hk Hl. pose proof (Zle_0_nat (length bs) : 0 <= zlen bs). rewrite slice_in_range in E by lia.
  symmetry in E. unfold slice in E. destruct (_ && _) eqn:Hc; [|done]. injection E as E.
  apply andb_prop in Hc as [[Hq%Z.leb_le _]%andb_prop He%Z.leb_le].
  rewrite !here_iff. intros (_ & _ & H3). split; [lia|]. split; [lia|]. etransitivity; [|exact H3].
  apply (f_equal (fun l => take (length bs) (drop (Z.to_nat k) l))) in E.
  assert (Hsub : forall l : bytes, take (length bs) (drop (Z.to_nat k) (take (Z.to_nat n) l)) = take (length bs) (drop (Z.to_nat k) l)).
  { intros l. rewrite !take_drop_commute, take_take. do 2 f_equal. unfold zlen in *. lia. }
  rewrite !Hsub, !drop_drop in E. replace (Z.to_nat (q + k)) with (Z.to_nat q + Z.to_nat k)%nat by lia.
  replace (Z.to_nat (p + k)) with (Z.to_nat p + Z.to_nat k)%nat by lia. done.
Qed.

(** The header and the commands are in the image too. *)
Lemma unpacked_header data len ft cmds image t : loadable data len ft cmds -> holds data (image_base cmds) (loaded_segs cmds) image ->
  In t (loaded_segs cmds) -> g_fileoff t = 0 -> HEADER_SIZE + zlen (encode_cmds cmds) <= g_filesize t ->
  macho_at image (g_vmaddr t - image_base cmds) ft cmds.
Proof.
  intros Hl Hh Hin H0 Hsz. pose proof (lo_image _ _ _ _ Hl) as Hm. pose proof (ho_segs _ _ _ _ Hh t Hin) as E. rewrite H0 in E.
  pose proof (proj1 (List.Forall_forall _ _) (lo_segs _ _ _ _ Hl) t Hin) as Hu. pose proof (un_file _ _ _ Hu) as Hf. rewrite H0 in Hf.
  destruct Hm as [(ids & rest & Hi & Hr & Hhd) Hc Hok Ht Hn]. unfold HEADER_SIZE in *. pose proof (Zle_0_nat (length (encode_cmds cmds)) : 0 <= zlen (encode_cmds cmds)).
  split; [|by eapply (here_shift data image 0 _ (g_filesize t) 32); [| | | | |exact Hc]; [by rewrite E|lia|lia|lia|lia]|done|done|done].
  exists ids, rest. split; [done|]. split; [done|].
  replace (g_vmaddr t - image_base cmds) with (g_vmaddr t - image_base cmds + 0) by lia.
  eapply (here_shift data image 0 _ (g_filesize t) 0); [by rewrite E|lia|lia|lia| |exact Hhd].
  unfold encode_header, zlen. rewrite !length_app, !length_le_split. lia.
Qed.

Lemma parse_macho_ok data len ft cmds : loadable data len ft cmds ->
  exists image, apple_boot_parse_macho data len = Done (image, text_base (raw_bounds cmds) - image_base cmds) /\
    zlen image = kc_end (raw_bounds cmds) - image_base cmds /\ holds data (image_base cmds) (loaded_segs cmds) image.
Proof.
  intros Hl. destruct (unpack_spec _ _ _ _ Hl) as (image & E & Hz & Hh). exists image. split; [|done].
  unfold apple_boot_parse_macho. destruct (header_fields _ _ _ _ (lo_image _ _ _ _ Hl)) as (-> & _ & _). run.
  rewrite Z.eqb_refl. run. rewrite (get_kc_bounds_spec _ _ _ _ (lo_image _ _ _ _ Hl) (lo_bounds _ _ _ _ Hl)). run.
  cbn [kc_base kc_end text_base setf]. change (kc_base (raw_bounds cmds) .&~ 0x1FFFFFF) with (image_base cmds).
  destruct (loaded_nonempty _ _ _ _ Hl) as [s Hs]. pose proof (loadable_covers _ _ _ _ s Hl Hs).
  destruct (loaded_segs_ok _ (ma_ok _ _ _ _ (lo_image _ _ _ _ Hl)) s Hs) as [_ Hpos].
  rewrite (proj2 (Z.ltb_lt _ _)) by lia. run. rewrite E. by run.
Qed.

(** C35: Unpacking puts the file content of every segment at the address the segment
    names, relative to the base of the image, and leaves zeros everywhere else; the
    image is as long as the segments reach.  The position it returns is that of the
    segment with the start of the file, and if that segment holds the header and the
    commands, the image has them there for all further lookups. *)
Theorem parse_macho_spec data len ft cmds : loadable data len ft cmds ->
  exists image, apple_boot_parse_macho data len = Done (image, text_base (raw_bounds cmds) - image_base cmds) /\
    zlen image = kc_end (raw_bounds cmds) - image_base cmds /\ holds data (image_base cmds) (loaded_segs cmds) image /\
    (forall t, In t (loaded_segs cmds) -> g_fileoff t = 0 -> g_vmaddr t = text_base (raw_bounds cmds) ->
       HEADER_SIZE + zlen (encode_cmds cmds) <= g_filesize t ->
       macho_at image (text_base (raw_bounds cmds) - image_base cmds) ft cmds).
Proof.
  intros Hl. destruct (parse_macho_ok _ _ _ _ Hl) as (image & E & Hz & Hh). exists image. split_and!; try done.
  intros t Hin H0 <- Hsz. by eapply unpacked_header.
Qed.

(** ** An example: a header, two segments and another command. *)

Definition name16 (s : string) : bytes := strncpy 16 (lit s).

Definition sample_cmds : list command :=
  [COther 0x1B (replicate 16 7);
   CSeg (mkSeg (name16 "__TEXT") 0x2000000 0x200 0 300 5 5 0 [mkSect (name16 "__text") (name16 "__TEXT") 0x2000100 16 (replicate 32 0)]);
   CSeg (mkSeg (name16 "__DATA") 0x2000200 32 300 8 3 3 0 [])].

Definition sample_file : bytes :=
  encode_header 2 sample_cmds (replicate 8 0) (replicate 12 0) ++ encode_cmds sample_cmds ++ replicate 20 0x5A ++ lit "datadata".

Lemma sample_macho : macho_at sample_file 0 2 sample_cmds.
Proof.
  split; [|vm_compute; reflexivity| |done|done].
  - exists (replicate 8 0), (replicate 12 0). split; [done|]. split; [done|]. vm_compute. reflexivity.
  - repeat apply Forall_cons_2; try apply Forall_nil_2.
    + split; [done|]. split; [done|]. reflexivity.
    + split; try done. apply Forall_cons_2; [|apply Forall_nil_2]. by split.
    + by split.
Qed.

Lemma sample_loadable : loadable sample_file (zlen sample_file) 2 sample_cmds.
Proof.
  split; [exact sample_macho|reflexivity| |].
  - repeat apply Forall_cons_2; try apply Forall_nil_2; split; vm_compute; congruence.
  - repeat constructor; vm_compute; congruence.
Qed.

Definition sample_globals : mem_globals := mkGlobals 0xFFFF000002000000 0 0.

Lemma find_section_range_spec_witness :
  ck_kp_find_section_range sample_globals sample_file (Some 0) (lit "__TEXT") (lit "__text") =
    Done (section_range sample_globals sample_cmds (lit "__TEXT") (lit "__text")) /\
  section_range sample_globals sample_cmds (lit "__TEXT") (lit "__text") = Some (mkRange 0x2000100 16 0x100).
Proof.
  split; [|reflexivity]. apply (find_section_range_spec sample_globals sample_file 0 2 sample_cmds); [exact sample_macho|discriminate].
Defined.

Lemma parse_macho_spec_witness :
  exists image, apple_boot_parse_macho sample_file (zlen sample_file) =
      Done (image, text_base (raw_bounds sample_cmds) - image_base sample_cmds) /\
    zlen image = kc_end (raw_bounds sample_cmds) - image_base sample_cmds /\
    holds sample_file (image_base sample_cmds) (loaded_segs sample_cmds) image /\
    (forall t, In t (loaded_segs sample_cmds) -> g_fileoff t = 0 -> g_vmaddr t = text_base (raw_bounds sample_cmds) ->
       HEADER_SIZE + zlen (encode_cmds sample_cmds) <= g_filesize t ->
       macho_at image (text_base (raw_bounds sample_cmds) - image_base sample_cmds) 2 sample_cmds).
Proof. apply parse_macho_spec. exact sample_loadable. Defined.

(** The length of the content is not checked against the file: a segment that starts
    inside the file and ends behind it is read past its end. *)
Lemma unpack_reads_past data len base image q s : seg_ok s -> here data q (encode_seg s) -> is_loaded s = true ->
  g_fileoff s < len -> zlen data < g_fileoff s + g_filesize s -> unpack_step data len base image q = Oob.
Proof.
  intros Hs Hh Hl Ho Hp. unfold unpack_step. rewrite (loaded_seg_spec _ _ (CSeg s) Hs Hh). run. rewrite Hl. cbn [negb].
  destruct (segment_fields _ _ _ Hs Hh) as (Ha & _ & Hoff & Hfs & _). rewrite Hoff. run. rewrite (proj2 (Z.ltb_lt _ _) Ho). run.
  rewrite Ha. run. rewrite Hfs. run. unfold slice. rewrite (proj2 (Z.leb_gt (g_fileoff s + g_filesize s) _)) by lia.
  by rewrite andb_false_r.
Qed.
