(* ===== verification/Kernel.v ===== *)
(** * Loading a kernel

    Model of the part of [hw/arm/apple-silicon/boot.c] that moves an unpacked image
    into guest memory: the slide of symbols, pointers and addresses, the copy of the
    segments and the records of the memory map.  The writes to guest memory are
    returned as a list.  A loop over load commands reads their number once: what it
    changes are symbols, pointers and addresses, not the header. *)

From S2P Require Import Prelude CString HostMem Patcher Macho Mem Dt MachoSpec.

(** [*(uint64_t * )p += d]. *)
Definition add_le64 (mem : bytes) (p d : Z) : outcome bytes :=
  v ← load_le64 mem p; store_le64 mem p (v + d).

(** The same for [n] words, [step] bytes apart. *)
Fixpoint add_words (n : nat) (mem : bytes) (p step d : Z) : outcome bytes :=
  match n with
  | O => mret mem
  | S n => mem ← add_le64 mem p d; add_words n mem (p + step) step d
  end.

(** ** Symbols *)

(** The values of [n] symbols, except those for debuggers. *)
Fixpoint slide_symbols (n : nat) (mem : bytes) (sym slide : Z) : outcome bytes :=
  match n with
  | O => mret mem
  | S n =>
      n_type ← aget mem (sym + 4);
      mem ← (if nonzero (n_type .& N_STAB) then mret mem else add_le64 mem (sym + 8) slide);
      slide_symbols n mem (sym + 16) slide
  end.

(** The words that [n] relocations name. *)
Fixpoint slide_relocs (n : nat) (mem : bytes) (rel text slide : Z) : outcome bytes :=
  match n with
  | O => mret mem
  | S n =>
      r_address ← load_le mem rel;
      mem ← add_le64 mem (text + s32 r_address) slide;
      slide_relocs n mem (rel + 8) text slide
  end.

(** One command; [true] is the return of the function when the segment is missing. *)
Definition symbol_step (data low text slide : Z) (linkedit : option Z) (mem : bytes) (p : Z) : outcome (bool * bytes) :=
  cmd ← lc_cmd mem p;
  if cmd =? LC_SYMTAB then
    match linkedit with
    | None => mret (true, mem)
    | Some le =>
        vmaddr ← seg_vmaddr mem le;
        fileoff ← seg_fileoff mem le;
        sym_off ← load_le mem (p + 8);
        nsyms ← load_le mem (p + 12);
        mem ← slide_symbols (Z.to_nat nsyms) mem (data + (vmaddr - low) + u32 (sym_off - fileoff)) slide;
        mret (false, mem)
    end
  else if cmd =? LC_DYSYMTAB then
    loc_rel_n ← load_le mem (p + 76);
    if loc_rel_n =? 0 then mret (false, mem)
    else
      match linkedit with
      | None => mret (true, mem)
      | Some le =>
          vmaddr ← seg_vmaddr mem le;
          fileoff ← seg_fileoff mem le;
          loc_rel_off ← load_le mem (p + 72);
          mem ← slide_relocs (Z.to_nat loc_rel_n) mem (data + (vmaddr - low) + u32 (loc_rel_off - fileoff))
                  (data + (text - low)) slide;
          mret (false, mem)
      end
  else mret (false, mem).

(** A loop over the commands that changes the memory they are in and may end early. *)
Fixpoint walk_cmds {A} (n : nat) (p : Z) (mem_of : A -> bytes) (body : A -> Z -> outcome (bool * A)) (a : A) : outcome A :=
  match n with
  | O => mret a
  | S n =>
      '(stop, a) ← body a p;
      if stop : bool then mret a else size ← lc_cmd_size (mem_of a) p; walk_cmds n (p + size) mem_of body a
  end.

Definition apple_boot_process_symbols (mem : bytes) (h slide : Z) : outcome bytes :=
  if slide =? 0 then mret mem
  else
    b ← apple_boot_get_kc_bounds mem h;
    data ← apple_boot_get_macho_buffer mem h;
    linkedit ← apple_boot_get_segment mem h (lit "__LINKEDIT");
    n ← hdr_n_cmds mem h;
    walk_cmds (Z.to_nat n) (h + HEADER_SIZE) id (symbol_step data (kc_base b) (text_base b) slide linkedit) mem.

(** ** Segments *)

(** [snprintf(name, size, "<prefix>%s", segname)]. *)
Definition region_name (size : nat) (prefix mem : bytes) (seg : Z) : outcome bytes :=
  arr ← from mem (seg + 8); segname ← c_string arr; mret (take (size - 1) (prefix ++ segname)).

(** The records, before the segments are loaded. *)
Definition segment_record (mem : bytes) (memory_map : AppleDTNode) (p : Z) : outcome AppleDTNode :=
  cmd ← lc_cmd mem p;
  if negb (cmd =? LC_SEGMENT_64) then mret memory_map
  else name ← region_name 32 (lit "Kernel-") mem p; apple_dt_set_prop memory_map name 16 (Some (replicate 16 0)).

Definition apple_boot_allocate_segment_records (memory_map : AppleDTNode) (mem : bytes) (h : Z) : outcome AppleDTNode :=
  fold_in mem h (segment_record mem) memory_map.

(** The pointers of the sections of a segment that hold pointers to symbols. *)
Fixpoint slide_pointers (n : nat) (mem : bytes) (sp data base slide : Z) : outcome bytes :=
  match n with
  | O => mret mem
  | S n =>
      flags ← sect_flags mem sp;
      mem ← (if flags .& SECTION_TYPE =? S_NON_LAZY_SYMBOL_POINTERS then
               sp_addr ← sect_addr mem sp;
               size ← sect_size mem sp;
               add_words (Z.to_nat ((size + 7) / 8)) mem (data + sp_addr - base) 8 slide
             else mret mem);
      slide_pointers n mem (apple_boot_next_sect sp) data base slide
  end.

(** The addresses of the segments of the header in [__TEXT] and of their sections. *)
Definition slide_segment (mem : bytes) (seg slide : Z) : outcome bytes :=
  mem ← add_le64 mem (seg + 24) slide;
  n ← seg_nsects mem seg;
  add_words (Z.to_nat n) mem (apple_boot_first_sect seg + 32) SECTION_SIZE slide.

Definition unslide_segment (mem : bytes) (seg slide : Z) : outcome bytes :=
  n ← seg_nsects mem seg;
  mem ← add_words (Z.to_nat n) mem (apple_boot_first_sect seg + 32) SECTION_SIZE (- slide);
  add_le64 mem (seg + 24) (- slide).

(** The loop over the segments of a header. *)
Fixpoint each_segment (fuel : nat) (mem : bytes) (h : Z) (seg : option Z) (body : bytes -> Z -> outcome bytes) : outcome bytes :=
  match fuel with
  | O => NoFuel
  | S fuel =>
      match seg with
      | None => mret mem
      | Some seg =>
          mem ← body mem seg;
          next ← apple_boot_get_next_seg mem h seg;
          each_segment fuel mem h next body
      end
  end.

Definition in_header (mem : bytes) (h : Z) (body : bytes -> Z -> outcome bytes) : outcome bytes :=
  magic ← hdr_magic mem h;
  c_assert (magic =? MACH_MAGIC_64);;
  n ← hdr_n_cmds mem h;
  seg ← apple_boot_get_first_seg mem h;
  each_segment (S (Z.to_nat n)) mem h seg body.

(** What the loop over the commands carries: the image, the memory map, the writes
    to guest memory and the entry point. *)
Record LoadState := mkLoad {
  l_mem : bytes;
  l_map : option AppleDTNode;
  l_writes : list (Z * bytes);
  l_pc : Z;
}.
#[global] Instance eta_LoadState : Eta LoadState := fun s => mkLoad (l_mem s) (l_map s) (l_writes s) (l_pc s).

(** The copy of one segment, between sliding it and taking the slide back. *)
Definition copy_segment (mem : bytes) (seg load_from load_to : Z) (writes : list (Z * bytes)) : outcome (list (Z * bytes)) :=
  vmsize ← seg_vmsize mem seg;
  filesize ← seg_filesize mem seg;
  content ← slice mem load_from filesize;
  buf ← blit (replicate (Z.to_nat vmsize) 0) 0 content;
  mret (writes ++ [(load_to, buf)]).

Definition slid_copy (mem : bytes) (seg load_from load_to data base slide : Z) (writes : list (Z * bytes))
    : outcome (bytes * list (Z * bytes)) :=
  n ← seg_nsects mem seg;
  mem ← slide_pointers (Z.to_nat n) mem (apple_boot_first_sect seg) data base slide;
  text ← strcmp_at mem (seg + 8) (lit "__TEXT");
  mem ← (if text : bool then in_header mem load_from (fun mem seg => slide_segment mem seg slide) else mret mem);
  writes ← copy_segment mem seg load_from load_to writes;
  text ← strcmp_at mem (seg + 8) (lit "__TEXT");
  mem ← (if text : bool then in_header mem load_from (fun mem seg => unslide_segment mem seg slide) else mret mem);
  n ← seg_nsects mem seg;
  mem ← slide_pointers (Z.to_nat n) mem (apple_boot_first_sect seg) data base (- slide);
  mret (mem, writes).

(** The record of a segment in the memory map; without a map it has a name only. *)
Definition map_segment (mem : bytes) (memory_map : option AppleDTNode) (seg load_to vmsize : Z) : outcome (option AppleDTNode) :=
  match memory_map with
  | Some node =>
      name ← region_name 64 (lit "Kernel-") mem seg;
      node ← apple_dt_set_prop node name 16 (Some (le_split 8 load_to ++ le_split 8 vmsize));
      mret (Some node)
  | None => _ ← region_name 64 (lit "TZ1-") mem seg; mret None
  end.

Definition load_segment (is_fileset : bool) (data base phys_base slide : Z) (s : LoadState) (p : Z) : outcome LoadState :=
  let mem := l_mem s in
  zero ← seg_named 10 mem p (lit "__PAGEZERO");
  if zero : bool then mret s
  else
    vmaddr ← seg_vmaddr mem p;
    vmsize ← seg_vmsize mem p;
    let load_from := data + vmaddr - base in
    let load_to := u64 (phys_base + vmaddr - base) in
    memory_map ← map_segment mem (l_map s) p load_to vmsize;
    let s := s <| l_map := memory_map |> in
    if vmsize =? 0 then mret s
    else if is_fileset then
      writes ← copy_segment mem p load_from load_to (l_writes s);
      mret (s <| l_writes := writes |>)
    else
      '(mem, writes) ← slid_copy mem p load_from load_to data base slide (l_writes s);
      mret (s <| l_mem := mem |> <| l_writes := writes |>).

Definition load_step (is_fileset : bool) (data base phys_base slide : Z) (s : LoadState) (p : Z) : outcome (bool * LoadState) :=
  cmd ← lc_cmd (l_mem s) p;
  if cmd =? LC_SEGMENT_64 then s ← load_segment is_fileset data base phys_base slide s p; mret (false, s)
  else if cmd =? LC_UNIXTHREAD then
    entry ← load_le64 (l_mem s) (p + 0x110);
    pc ← vtop_bases entry phys_base base;
    mret (false, s <| l_pc := pc |>)
  else mret (false, s).

Definition apple_boot_load_macho (mem : bytes) (h : Z) (memory_map : option AppleDTNode) (phys_base virt_slide : Z)
    : outcome LoadState :=
  data ← apple_boot_get_macho_buffer mem h;
  file_type ← hdr_file_type mem h;
  let is_fileset := file_type =? MH_FILESET in
  b ← apple_boot_get_kc_bounds mem h;
  mem ← (if is_fileset then mret mem else apple_boot_process_symbols mem h virt_slide);
  n ← hdr_n_cmds mem h;
  s ← walk_cmds (Z.to_nat n) (h + HEADER_SIZE) l_mem (load_step is_fileset data (kc_base b) phys_base virt_slide)
        (mkLoad mem memory_map [] 0);
  if is_fileset then mret s
  else mem ← apple_boot_process_symbols (l_mem s) h (u64 (- virt_slide)); mret (s <| l_mem := mem |>).

(** ** A fileset is copied segment by segment *)

Definition not_pagezero (s : Seg) : bool := negb (strncmp_eq 10 (g_name s) (lit "__PAGEZERO")).

(** The write of a segment: its content in the image and zeros up to its size. *)
Definition segment_write (mem : bytes) (data base phys_base : Z) (s : Seg) : Z * bytes :=
  (u64 (phys_base + g_vmaddr s - base),
   bytes_at mem (data + g_vmaddr s - base) (g_filesize s) ++ replicate (Z.to_nat (g_vmsize s - g_filesize s)) 0).

(** A segment that lies in the image and whose name ends. *)
Record copyable (mem : bytes) (data base : Z) (s : Seg) : Prop := {
  co_start : 0 <= data + g_vmaddr s - base;
  co_end : data + g_vmaddr s - base + g_filesize s <= zlen mem;
  co_fits : g_filesize s <= g_vmsize s;
  co_name : exists name rest, g_name s = name ++ 0 :: rest /\ no_nul name;
}.

(** A memory map that takes new records. *)
Definition map_open (memory_map : option AppleDTNode) : Prop := forall node, memory_map = Some node -> finalised node = false.

Lemma copy_segment_spec mem p s data base phys_base writes : seg_ok s -> here mem p (encode_seg s) -> copyable mem data base s ->
  copy_segment mem p (data + g_vmaddr s - base) (u64 (phys_base + g_vmaddr s - base)) writes =
    Done (writes ++ [segment_write mem data base phys_base s]).
Proof.
  intros Hs Hh Hc. destruct Hc as [H1 H2 H3 _]. destruct (segment_fields _ _ _ Hs Hh) as (_ & Hz & _ & Hf & _).
  pose proof (go_filesize _ Hs) as Hw. unfold in_width in Hw. unfold copy_segment. rewrite Hz. run. rewrite Hf. run.
  rewrite slice_in_range by lia. run.
  set (content := take _ _). assert (Hl : length content = Z.to_nat (g_filesize s)).
  { unfold content. rewrite length_take, length_drop. unfold zlen in *. lia. }
  rewrite blit_front by (unfold zlen; rewrite length_replicate; lia). run. unfold segment_write, bytes_at. fold content.
  do 5 f_equal. rewrite Hl, drop_replicate. f_equal. lia.
Qed.

Lemma region_name_spec size prefix mem p s : seg_ok s -> here mem p (encode_seg s) ->
  (exists name rest, g_name s = name ++ 0 :: rest /\ no_nul name) ->
  exists name, region_name size prefix mem p = Done name /\ (length name <= length prefix + 16)%nat.
Proof.
  intros Hs Hh (name & rest & E & Hn). pose proof (go_name _ Hs) as Hl.
  unfold encode_seg in Hh. rewrite !here_app in Hh. destruct Hh as (_ & _ & Hh & _).
  change (zlen (le_split 4 _)) with 4 in Hh. replace (p + 4 + 4) with (p + 8) in Hh by lia.
  apply here_iff in Hh as (H1 & H2 & H3). unfold region_name, from. rewrite (proj2 (Z.leb_le _ _) H1). run.
  rewrite <- (take_drop (length (g_name s)) (drop _ mem)), H3, E, <- app_assoc. cbn [app].
  rewrite c_string_app by done. run. eexists. split; [done|]. rewrite length_take, length_app.
  rewrite E, length_app in Hl. cbn in Hl. lia.
Qed.

Lemma map_segment_spec mem memory_map p s load_to : seg_ok s -> here mem p (encode_seg s) ->
  (exists name rest, g_name s = name ++ 0 :: rest /\ no_nul name) -> map_open memory_map ->
  exists memory_map', map_segment mem memory_map p load_to (g_vmsize s) = Done memory_map' /\ map_open memory_map'.
Proof.
  intros Hs Hh Hn Ho. unfold map_segment. destruct memory_map as [node|].
  - destruct (region_name_spec 64 (lit "Kernel-") mem p s Hs Hh Hn) as (name & -> & Hl). run.
    unfold apple_dt_set_prop. rewrite (proj2 (Z.ltb_lt _ _)) by (unfold zlen, APPLE_DT_PROP_NAME_LEN; cbn in Hl; lia). run.
    rewrite (Ho node eq_refl). destruct (apple_dt_get_prop node name); cbn [negb andb]; run;
      (eexists; split; [reflexivity|]; intros node' [= <-]; exact (Ho node eq_refl)).
  - destruct (region_name_spec 64 (lit "TZ1-") mem p s Hs Hh Hn) as (name & -> & Hl). run. by exists None.
Qed.

(** The entry point in the registers of a thread command. *)
Definition thread_entry (c : command) : option Z :=
  match c with
  | COther cmd body => if cmd =? LC_UNIXTHREAD then Some (le_combine (take 8 (drop 0x108 body))) else None
  | _ => None
  end.

Definition entry_pc (phys_base base pc : Z) (c : command) : Z :=
  match thread_entry c with Some entry => u64 (entry - base + phys_base) | None => pc end.

(** What loading relies on in a command. *)
Definition transferable (mem : bytes) (data base : Z) (c : command) : Prop :=
  match c with
  | CSeg s => not_pagezero s = true -> copyable mem data base s
  | COther cmd body => cmd = LC_UNIXTHREAD -> 0x110 <= zlen body
  end.

Lemma load_fileset_segment data base phys_base slide mem memory_map writes pc p s : seg_ok s -> here mem p (encode_seg s) ->
  transferable mem data base (CSeg s) -> map_open memory_map ->
  exists memory_map', load_segment true data base phys_base slide (mkLoad mem memory_map writes pc) p =
      Done (mkLoad mem memory_map' (writes ++ (segment_write mem data base phys_base <$> loaded_segs [CSeg s])) pc) /\
    map_open memory_map'.
Proof.
  intros Hs Hh Ht Ho. destruct (segment_fields _ _ _ Hs Hh) as (Ha & Hz & _ & _ & _ & _ & Hn & _).
  unfold load_segment. cbn [l_mem l_map l_writes]. rewrite Hn by lia. run. cbn [loaded_segs omap list_omap transferable] in *.
  unfold is_loaded. unfold not_pagezero in Ht. destruct (strncmp_eq _ _ _); cbn [negb andb] in *.
  { exists memory_map. by rewrite app_nil_r. }
  specialize (Ht eq_refl). rewrite Ha. run. rewrite Hz. run.
  destruct (map_segment_spec mem memory_map p s (u64 (phys_base + g_vmaddr s - base)) Hs Hh (co_name _ _ _ _ Ht) Ho) as (memory_map' & -> & Ho').
  run. exists memory_map'. split; [|done]. destruct (g_vmsize s =? 0); cbn [negb fmap list_fmap]; [by rewrite app_nil_r|].
  cbn [l_writes setf]. rewrite (copy_segment_spec mem p s data base phys_base writes Hs Hh Ht). by run.
Qed.

Lemma load_fileset_other data base phys_base slide mem memory_map writes pc p cmd body : cmd_ok (COther cmd body) ->
  here mem p (encode_cmd (COther cmd body)) -> transferable mem data base (COther cmd body) -> phys_base <> 0 -> base <> 0 ->
  load_step true data base phys_base slide (mkLoad mem memory_map writes pc) p =
    Done (false, mkLoad mem memory_map writes (entry_pc phys_base base pc (COther cmd body))).
Proof.
  intros (Hne & Hw & Hl) Hh Ht Hp Hb. cbn [transferable] in Ht. cbn [encode_cmd] in Hh. rewrite !here_app in Hh.
  destruct Hh as (H1 & _ & H3). change (zlen (le_split 4 _)) with 4 in H3. replace (p + 4 + 4) with (p + 8) in H3 by lia.
  unfold load_step, lc_cmd. cbn [l_mem]. rewrite (here_load _ _ _ H1 Hw). run. rewrite (proj2 (Z.eqb_neq _ _) Hne).
  unfold entry_pc. cbn [thread_entry]. destruct (Z.eqb_spec cmd LC_UNIXTHREAD) as [E|]; [|done]. specialize (Ht E).
  rewrite <- (take_drop 0x108 body), <- (take_drop 8 (drop 0x108 body)), !here_app in H3. destruct H3 as (_ & H3 & _).
  assert (Hz : zlen (take 0x108 body) = 0x108) by (unfold zlen in *; rewrite length_take; lia). rewrite Hz in H3.
  replace (p + 8 + 0x108) with (p + 0x110) in H3 by lia. unfold here in H3.
  assert (Hz' : zlen (take 8 (drop 0x108 body)) = 8) by (unfold zlen in *; rewrite length_take, length_drop; lia). rewrite Hz' in H3.
  unfold load_le64. rewrite H3. cbn [fmap outcome_fmap]. run. unfold vtop_bases.
  rewrite !(proj2 (nonzero_iff _)) by done. by run.
Qed.

Lemma load_fileset_walk data base phys_base slide mem cmds : phys_base <> 0 -> base <> 0 ->
  forall p memory_map writes pc, Forall cmd_ok cmds -> Forall (transferable mem data base) cmds -> here mem p (encode_cmds cmds) -> map_open memory_map ->
  exists memory_map', walk_cmds (length cmds) p l_mem (load_step true data base phys_base slide) (mkLoad mem memory_map writes pc) =
      Done (mkLoad mem memory_map' (writes ++ (segment_write mem data base phys_base <$> loaded_segs cmds)) (foldl (entry_pc phys_base base) pc cmds)) /\
    map_open memory_map'.
Proof.
  intros Hp Hb. induction cmds as [|c cmds IH]; intros p memory_map writes pc Hok Ht Hh Ho.
  { exists memory_map. cbn. by rewrite app_nil_r. }
  apply Forall_cons in Hok as [Hc Hok]. apply Forall_cons in Ht as [Htc Ht]. unfold encode_cmds in Hh. cbn [fmap list_fmap concat] in Hh.
  apply here_app in Hh as [Hh1 Hh2]. rewrite encode_cmd_length in Hh2 by done. cbn [length walk_cmds].
  assert (Hstep : exists map', load_step true data base phys_base slide (mkLoad mem memory_map writes pc) p =
    Done (false, mkLoad mem map' (writes ++ (segment_write mem data base phys_base <$> loaded_segs [c])) (entry_pc phys_base base pc c)) /\ map_open map').
  { destruct c as [s|cmd body].
    - destruct (load_fileset_segment data base phys_base slide mem memory_map writes pc p s Hc Hh1 Htc Ho) as (map' & E & Ho').
      exists map'. split; [|done]. unfold load_step. cbn [l_mem]. destruct (cmd_head _ _ _ Hc Hh1) as (_ & cmd & -> & Es). run.
      rewrite Es, E. by run.
    - exists memory_map. split; [|done]. rewrite (load_fileset_other data base phys_base slide mem memory_map writes pc p cmd body) by done. cbn. by rewrite app_nil_r. }
  destruct Hstep as (map' & -> & Ho'). run. cbn [l_mem]. rewrite (proj1 (cmd_head _ _ _ Hc Hh1)). run.
  destruct (IH (p + cmd_len c) map' (writes ++ (segment_write mem data base phys_base <$> loaded_segs [c])) (entry_pc phys_base base pc c)
    Hok Ht Hh2 Ho') as (map2 & -> & Ho2). exists map2. split; [|done]. do 2 f_equal.
  change (c :: cmds) with ([c] ++ cmds). by rewrite loaded_segs_app, fmap_app, app_assoc.
Qed.


(** A fileset at the start of the host's memory: its header, a thread command whose
    program counter is 0x2000040, and two segments. *)
Definition fileset_cmds : list command :=
  [COther LC_UNIXTHREAD (replicate 0x108 0 ++ le_split 8 0x2000040 ++ replicate 16 0);
   CSeg (mkSeg (name16 "__PAGEZERO") 0 0x1000 0 0 0 0 0 []);
   CSeg (mkSeg (name16 "__TEXT") 0x2000000 0x280 0 0x220 5 5 0 []);
   CSeg (mkSeg (name16 "__DATA") 0x2000280 16 0x280 8 3 3 0 [])].

Definition fileset_image : bytes :=
  let head := encode_header MH_FILESET fileset_cmds (replicate 8 0) (replicate 12 0) ++ encode_cmds fileset_cmds in
  head ++ replicate (0x280 - length head) 0x5A ++ lit "datadata".

