(* ===== verification/BootFiles.v ===== *)
(** * Files that are booted

    Model of the file part of [hw/arm/apple-silicon/boot.c]: the payload of an IM4P
    file, the device tree, the trust cache, the RAM disk and the kernel read from it.
    The file system, libtasn1 and LZFSE are parameters.  An error that is reported to
    [error_fatal] ends the process. *)

From S2P Require Import Prelude CString HostMem Patcher Dt Lzss Macho MachoSpec.

Definition ASN1_SUCCESS : Z := 0.
Definition ASN1_MEM_ERROR : Z := 12.

(** The compiler is told that signed arithmetic wraps. *)
Definition int (x : Z) : Z := let x := u32 x in if x <? 2 ^ 31 then x else x - 2 ^ 32.

Definition be_combine (l : bytes) : Z := le_combine (rev l).
Definition load_be (mem : bytes) (p : Z) : outcome Z := be_combine <$> slice mem p 4.

(** [memcmp(p, str, n) == 0], [n] being the length of [str]. *)
Definition memeq (mem : bytes) (p : Z) (str : bytes) : outcome bool :=
  bs ← slice mem p (zlen str); mret (bool_decide (bs = str)).

(** The offset of [data] in [LzssCompHeader]. *)
Definition LZSS_HEADER_SIZE : Z := 384.

(** What [extract_im4p_payload] stores: the type, the buffer, the length and, if the
    caller asks for it and the payload has one, the secure monitor. *)
Record Payload := mkPayload {
  x_type : bytes;
  x_data : bytes;
  x_length : Z;
  x_monitor : option bytes;
}.
#[global] Instance eta_Payload : Eta Payload := fun p => mkPayload (x_type p) (x_data p) (x_length p) (x_monitor p).

Section Files.

(** [g_file_get_contents], which adds a zero behind the content. *)
Variable g_file_get_contents : bytes -> option bytes.

(** libtasn1: the result codes of setting up and of decoding a file, and a read of a
    field of the decoded file into a buffer (no buffer for a null pointer) of the given
    length, with the code, the buffer after the call and the length it reports. *)
Variable asn1_array2tree asn1_create_element : Z.
Variable asn1_der_decoding : bytes -> Z.
Variable asn1_read_value : bytes -> bytes -> option bytes -> Z -> Z * bytes * Z.

(** The bytes that [lzfse_decode_buffer] writes to a buffer of the given size. *)
Variable lzfse_decode_buffer : Z -> bytes -> bytes.

(** What the stack holds before it is written, and the part of the LZSS window. *)
Variable stack : nat -> bytes.
Variable window_junk : bytes.

(** An allocation the host cannot give ends the process. *)
Definition MAX_ALLOC : Z := 2 ^ 47.

Definition lzfse_payload (type payload : bytes) (len : Z) : outcome Payload :=
  let size := u64 (int (len * 8)) in
  c_assert (size <? MAX_ALLOC);;
  let decoded := lzfse_decode_buffer size payload in
  buf ← blit (replicate (Z.to_nat size) 0) 0 decoded;
  let decoded_length := int (zlen decoded) in
  if (decoded_length =? 0) || (u64 decoded_length =? size) then _ ← error_setg ErrFatal; Abort
  else mret (mkPayload type buf (u32 decoded_length) None).

Definition lzss_payload (want_monitor : bool) (type payload : bytes) (len : Z) : outcome Payload :=
  uncompressed_size ← load_be payload 12;
  compressed_size ← load_be payload 16;
  content ← slice payload LZSS_HEADER_SIZE compressed_size;
  decoded ← decompress_lzss uncompressed_size window_junk content;
  let decoded_length := int (zlen decoded) in
  if (decoded_length =? 0) || negb (u64 decoded_length =? uncompressed_size) then _ ← error_setg ErrFatal; Abort
  else
    let monitor_off := compressed_size + LZSS_HEADER_SIZE in
    monitor ← (if want_monitor && (monitor_off <? u64 len) then Some <$> slice payload monitor_off (u64 len - monitor_off)
               else mret None);
    mret (mkPayload type decoded (u32 decoded_length) monitor).

(** The payload is compressed in one of two ways or not at all. *)
Definition decode_payload (want_monitor : bool) (type payload : bytes) (len : Z) : outcome Payload :=
  bvx ← memeq payload 0 (lit "bvx");
  if bvx : bool then lzfse_payload type payload len
  else
    complzss ← memeq payload 0 (lit "complzss");
    if complzss : bool then lzss_payload want_monitor type payload len
    else mret (mkPayload type payload (u32 len) None).

(** A field of [size] bytes. *)
Definition read_field (file name buf : bytes) : outcome bytes :=
  match asn1_read_value file name (Some buf) (zlen buf) with
  | (ret, value, _) => if ret =? ASN1_SUCCESS then mret value else _ ← error_setg ErrFatal; Abort
  end.

Definition extract_im4p_payload (filename : bytes) (want_monitor : bool) : outcome Payload :=
  match g_file_get_contents filename with
  | None => _ ← error_setg ErrFatal; Abort
  | Some file =>
      if negb (asn1_array2tree =? ASN1_SUCCESS) then _ ← error_setg ErrFatal; Abort
      else if negb (asn1_create_element =? ASN1_SUCCESS) then _ ← error_setg ErrFatal; Abort
      else if negb (asn1_der_decoding file =? ASN1_SUCCESS) then
        mret (mkPayload (lit "raw" ++ [0]) (file ++ [0]) (u32 (zlen file)) None)
      else
        magic ← read_field file (lit "magic") (stack 4);
        is_im4p ← memeq magic 0 (lit "IM4P");
        if negb is_im4p then _ ← error_setg ErrFatal; Abort
        else
          type ← read_field file (lit "type") (stack 4);
          _ ← read_field file (lit "description") (stack 128);
          match asn1_read_value file (lit "data") None 0 with
          | (ret, _, len) =>
              if negb (ret =? ASN1_MEM_ERROR) then _ ← error_setg ErrFatal; Abort
              else
                c_assert (u64 len <? MAX_ALLOC);;
                match asn1_read_value file (lit "data") (Some (replicate (Z.to_nat len) 0)) len with
                | (ret, payload, len) =>
                    if negb (ret =? ASN1_SUCCESS) then _ ← error_setg ErrFatal; Abort
                    else decode_payload want_monitor type payload len
                end
          end
  end.

(** The payload is of one of the types, or the file is no IM4P file. *)
Definition expect_type (types : list bytes) (p : Payload) : outcome Payload :=
  if existsb (fun t => bool_decide (take 4 (x_type p) = t)) (types ++ [lit "raw" ++ [0]]) then mret p
  else _ ← error_setg ErrFatal; Abort.

Definition apple_boot_load_dt_file (filename : option bytes) : outcome (option AppleDTNode) :=
  match filename with
  | None => mret None
  | Some filename =>
      p ← extract_im4p_payload filename false;
      p ← expect_type [lit "dtre"] p;
      root ← apple_dt_deserialise (x_data p);
      mret (Some root)
  end.

(** The size of an entry of a trust cache of a version. *)
Definition trustcache_entry_size (version : Z) : option Z :=
  if version =? 1 then Some 22 else if version =? 2 then Some 24 else None.

(** The payload behind the header the kernel expects, and the size. *)
Definition build_trustcache (p : Payload) : outcome (bytes * Z) :=
  let file_size := x_length p in
  let trustcache_size := ROUND_UP_16K (file_size + 8) in
  trustcache_data ← store_le (replicate (Z.to_nat trustcache_size) 0) 0 1;
  trustcache_data ← store_le trustcache_data 4 8;
  file ← slice (x_data p) 0 file_size;
  trustcache_data ← blit trustcache_data 8 file;
  version ← load_le trustcache_data 8;
  entry_count ← load_le trustcache_data 28;
  match trustcache_entry_size version with
  | None => _ ← error_setg ErrFatal; Abort
  | Some entry_size =>
      let expected_file_size := u32 (24 + u32 (entry_count * entry_size)) in
      c_assert (file_size =? expected_file_size);;
      mret (trustcache_data, trustcache_size)
  end.

Definition apple_boot_load_trustcache_file (filename : bytes) : outcome (bytes * Z) :=
  p ← extract_im4p_payload filename false;
  p ← expect_type [lit "trst"; lit "rtsc"] p;
  build_trustcache p.

(** The bytes written to guest memory, whose number is the size. *)
Definition apple_boot_load_ramdisk (filename : bytes) (pa : Z) : outcome (Z * bytes) :=
  p ← extract_im4p_payload filename false;
  p ← expect_type [lit "rdsk"] p;
  file ← slice (x_data p) 0 (x_length p);
  mret (pa, file).

Definition apple_boot_load_raw_file (filename : bytes) (file_pa : Z) : outcome (Z * bytes) :=
  match g_file_get_contents filename with
  | Some file => mret (file_pa, file)
  | None => _ ← error_setg ErrFatal; Abort
  end.

(** The unpacked kernel, the place of its header and the secure monitor. *)
Definition apple_boot_load_kernel (filename : bytes) (want_monitor : bool) : outcome (bytes * Z * option bytes) :=
  p ← extract_im4p_payload filename want_monitor;
  p ← expect_type [lit "krnl"] p;
  image ← apple_boot_parse_macho (x_data p) (x_length p);
  mret (image, x_monitor p).

(** ** Types *)

Definition type_ok (types : list bytes) (type : bytes) : bool :=
  bool_decide (take 4 type ∈ types ++ [lit "raw" ++ [0]]).

Lemma expect_type_spec types p : expect_type types p = if type_ok types (x_type p) then Done p else Abort.
Proof.
  unfold expect_type, type_ok. set (l := types ++ _). set (t := take 4 (x_type p)).
  replace (existsb _ l) with (bool_decide (t ∈ l)); [by destruct (bool_decide _)|].
  apply eq_iff_eq_true. rewrite bool_decide_eq_true, existsb_exists, list_elem_of_In. split.
  - intros Hin. exists t. by rewrite bool_decide_eq_true.
  - by intros (x & Hin & <-%bool_decide_eq_true).
Qed.

(** ** Trust caches *)

(** The words of the header; what a short file does not have is zero. *)
Definition header_word (file : bytes) (off : nat) : Z := le_combine (take 4 (drop off (file ++ replicate 32 0))).

(** The file is as long as its version and its number of entries ask for, in 32 bits. *)
Definition trustcache_valid (file : bytes) : bool :=
  match trustcache_entry_size (header_word file 0) with
  | Some entry_size => zlen file =? u32 (24 + header_word file 20 * entry_size)
  | None => false
  end.

Definition trustcache_image (file : bytes) : bytes :=
  le_split 4 1 ++ le_split 4 8 ++ file ++ replicate (Z.to_nat (ROUND_UP_16K (zlen file + 8) - 8 - zlen file)) 0.

Lemma round_up_16k v : 0 <= v < 2 ^ 63 -> v <= ROUND_UP_16K v < v + 0x4000 /\ ROUND_UP_16K v mod 0x4000 = 0.
Proof.
  intros Hv. unfold ROUND_UP_16K. rewrite wrap_small by (unfold in_width; lia). change 0x3FFF with (Z.ones 14) at 2 4 6.
  rewrite Z.ldiff_ones_r, Z.shiftl_mul_pow2, Z.shiftr_div_pow2 by lia. change (2 ^ 14) with 0x4000. split; [|by apply Z.mod_mul].
  pose proof (Z.div_mod (v + 0x3FFF) 0x4000 ltac:(done)). pose proof (Z.mod_pos_bound (v + 0x3FFF) 0x4000 ltac:(done)). lia.
Qed.

Lemma trustcache_word file off (n : nat) : (off <= 20)%nat -> (24 <= length file + n)%nat ->
  load_le (le_split 4 1 ++ le_split 4 8 ++ file ++ replicate n 0) (8 + Z.of_nat off) = Done (header_word file off).
Proof.
  intros Ho Hn. unfold load_le, header_word.
  rewrite slice_in_range by (try lia; unfold zlen; rewrite !length_app, !length_le_split, length_replicate; lia).
  cbn [fmap outcome_fmap]. do 2 f_equal. change (Z.to_nat 4) with 4%nat.
  replace (Z.to_nat (8 + Z.of_nat off)) with (8 + off)%nat by lia. rewrite app_assoc, <- drop_drop.
  rewrite (drop_app_length' (le_split 4 1 ++ le_split 4 8)) by done.
  assert (E : forall a b, (24 <= length file + a)%nat -> (a <= b)%nat ->
    take 4 (drop off (file ++ replicate a 0)) = take 4 (drop off (file ++ replicate b 0))).
  { intros a b Ha Hab. replace b with (a + (b - a))%nat by lia. rewrite replicate_add, app_assoc, (drop_app_le (file ++ _)), take_app_le.
    - done.
    - rewrite length_drop, length_app, length_replicate. lia.
    - rewrite length_app, length_replicate. lia. }
  destruct (decide (n <= 32)%nat); [apply E; lia|symmetry; apply E; lia].
Qed.

Lemma build_trustcache_spec p : 0 <= x_length p < 2 ^ 32 -> x_length p <= zlen (x_data p) ->
  let file := take (Z.to_nat (x_length p)) (x_data p) in
  build_trustcache p = if trustcache_valid file then Done (trustcache_image file, ROUND_UP_16K (zlen file + 8)) else Abort.
Proof.
  intros Hl Hd file. assert (Hf : zlen file = x_length p) by (unfold file, zlen in *; rewrite length_take; lia).
  unfold build_trustcache, trustcache_valid, trustcache_image. cbv zeta. rewrite <- Hf.
  destruct (round_up_16k (zlen file + 8)) as [Hr _]; [lia|]. set (size := ROUND_UP_16K (zlen file + 8)) in *.
  pose proof (Zle_0_nat (length file) : 0 <= zlen file).
  unfold store_le. rewrite blit_front by (unfold zlen in *; rewrite length_replicate, length_le_split; lia). run.
  rewrite drop_replicate, length_le_split.
  rewrite (blit_at (le_split 4 1) _ (le_split 4 8) : _ -> blit _ 4 _ = _) by (unfold zlen in *; rewrite length_replicate, length_le_split; lia). run.
  rewrite slice_in_range by lia. run. replace (take _ (drop (Z.to_nat 0) (x_data p))) with file by (rewrite Hf; reflexivity).
  rewrite drop_replicate, length_le_split, app_assoc.
  rewrite (blit_at (le_split 4 1 ++ le_split 4 8) _ file : _ -> blit _ 8 _ = _) by (unfold zlen in *; rewrite length_replicate; lia). run. rewrite drop_replicate, <- app_assoc.
  replace (Z.to_nat size - 4 - 4 - length file)%nat with (Z.to_nat (size - 8 - zlen file)) by (unfold zlen in *; lia).
  set (n := Z.to_nat (size - 8 - zlen file)).
  assert (Hn : (24 <= length file + n)%nat).
  { pose proof (proj2 (round_up_16k (zlen file + 8) ltac:(lia))). fold size in H0. unfold zlen in *.
    pose proof (Z.div_mod size 0x4000 ltac:(done)). assert (0 < size / 0x4000) by (apply Z.div_str_pos; lia). lia. }
  rewrite (trustcache_word file 0 n ltac:(lia) Hn : load_le _ 8 = _). run.
  rewrite (trustcache_word file 20 n ltac:(lia) Hn : load_le _ 28 = _). run.
  destruct (trustcache_entry_size _); [|done]. replace (u32 (24 + u32 _)) with (u32 (24 + header_word file 20 * z)).
  - by destruct (zlen file =? _).
  - unfold wrap. by rewrite Zplus_mod_idemp_r.
Qed.

(** C22: A trust cache is loaded exactly if its payload is of type trst or rtsc (or the
    file is no IM4P file), its version is 1 or 2, and its length is that of the header
    and as many entries as it announces, in 32-bit arithmetic; everything else ends the
    process with an error and reads nothing outside the file.  What is loaded is the
    file behind a header for one cache, filled with zeros to whole 16 KiB pages. *)
Theorem load_trustcache_spec filename p : extract_im4p_payload filename false = Done p ->
  0 <= x_length p < 2 ^ 32 -> x_length p <= zlen (x_data p) ->
  let file := take (Z.to_nat (x_length p)) (x_data p) in
  apple_boot_load_trustcache_file filename =
    if type_ok [lit "trst"; lit "rtsc"] (x_type p) && trustcache_valid file
    then Done (trustcache_image file, ROUND_UP_16K (zlen file + 8)) else Abort.
Proof.
  intros Hx Hl Hd file. unfold apple_boot_load_trustcache_file. rewrite Hx. run. rewrite expect_type_spec.
  destruct (type_ok _ _); [|done]. run. by apply build_trustcache_spec.
Qed.

(** ** Compressed payloads *)

Definition be_split (n : nat) (x : Z) : bytes := rev (le_split n x).

Lemma be_combine_split x : in_width 32 x -> be_combine (be_split 4 x) = x.
Proof. intros Hx. unfold be_combine, be_split. rewrite rev_involutive, le_combine_split. by apply wrap_small. Qed.

(** A payload: the header of the compressed data, the encoded tokens, and a monitor. *)
Definition lzss_archive (adler rest : bytes) (ts : list token) (size : Z) (monitor : bytes) : bytes :=
  lit "complzss" ++ adler ++ be_split 4 size ++ be_split 4 (zlen (encode ts)) ++ rest ++ encode ts ++ monitor.

Lemma load_be_at a x c : in_width 32 x -> load_be (a ++ be_split 4 x ++ c) (zlen a) = Done x.
Proof.
  intros Hx. unfold load_be. rewrite (slice_at a (be_split 4 x) c : slice _ _ 4 = _). cbn [fmap outcome_fmap].
  by rewrite be_combine_split.
Qed.

Lemma memeq_front str rest : memeq (str ++ rest) 0 str = Done true.
Proof. unfold memeq. rewrite (slice_at [] str rest : slice (str ++ rest) 0 _ = _). run. by rewrite bool_decide_eq_true_2. Qed.

Lemma memeq_other str x rest : length x = length str -> x <> str -> memeq (x ++ rest) 0 str = Done false.
Proof.
  intros Hl Hne. unfold memeq. replace (zlen str) with (zlen x) by (unfold zlen; lia).
  rewrite (slice_at [] x rest : slice (x ++ rest) 0 _ = _). run. by rewrite bool_decide_eq_false_2.
Qed.

Record archive_ok (adler rest : bytes) (ts : list token) (monitor : bytes) : Prop := {
  ar_adler : length adler = 4%nat;
  ar_rest : length rest = 364%nat;
  ar_tokens : Forall token_ok ts;
  ar_size : 0 < zlen (expand window_junk ts) < 2 ^ 31;
  ar_length : LZSS_HEADER_SIZE + zlen (encode ts) + zlen monitor < 2 ^ 31;
}.

Lemma int_small x : 0 <= x < 2 ^ 31 -> int x = x /\ u64 x = x /\ u32 x = x.
Proof.
  intros Hx. assert (E : u32 x = x) by (apply wrap_small; unfold in_width; lia). unfold int. rewrite E.
  rewrite (proj2 (Z.ltb_lt _ _)) by lia. split_and!; [done| |done]. apply wrap_small. unfold in_width. lia.
Qed.

Lemma decode_lzss want_monitor type adler rest ts monitor : length window_junk = 35%nat -> archive_ok adler rest ts monitor ->
  let data := expand window_junk ts in let payload := lzss_archive adler rest ts (zlen data) monitor in
  decode_payload want_monitor type payload (zlen payload) =
    Done (mkPayload type data (zlen data) (if want_monitor && (0 <? zlen monitor) then Some monitor else None)).
Proof.
  intros Hj [Ha Hr Ht Hs Hl] data payload. fold data in Hs. unfold LZSS_HEADER_SIZE in Hl.
  pose proof (Zle_0_nat (length monitor) : 0 <= zlen monitor). pose proof (Zle_0_nat (length (encode ts)) : 0 <= zlen (encode ts)).
  assert (Hp : zlen payload = 384 + zlen (encode ts) + zlen monitor).
  { unfold payload, lzss_archive, zlen. rewrite !length_app. change (length (be_split 4 _)) with 4%nat. change (length (lit "complzss")) with 8%nat. lia. }
  unfold decode_payload. rewrite Hp.
  rewrite (memeq_other (lit "bvx") (lit "com") (drop 3 payload) eq_refl ltac:(done) : memeq payload 0 _ = _). run.
  rewrite (memeq_front (lit "complzss") (drop 8 payload) : memeq payload 0 _ = _). run. unfold lzss_payload.
  assert (E12 : load_be payload 12 = Done (zlen data)).
  { unfold payload, lzss_archive. rewrite app_assoc. replace 12 with (zlen (lit "complzss" ++ adler)) by (unfold zlen; rewrite length_app, Ha; done).
    apply load_be_at. unfold in_width. lia. }
  assert (E16 : load_be payload 16 = Done (zlen (encode ts))).
  { unfold payload, lzss_archive. rewrite 2!app_assoc.
    replace 16 with (zlen ((lit "complzss" ++ adler) ++ be_split 4 (zlen data))) by (unfold zlen; rewrite !length_app, Ha; done).
    apply load_be_at. unfold in_width. lia. }
  set (head := lit "complzss" ++ adler ++ be_split 4 (zlen data) ++ be_split 4 (zlen (encode ts)) ++ rest).
  assert (Hh : zlen head = LZSS_HEADER_SIZE) by (unfold head, zlen; rewrite !length_app, Ha, Hr; done).
  assert (Hpay : payload = head ++ encode ts ++ monitor) by (unfold payload, lzss_archive, head; by rewrite <- !app_assoc).
  rewrite E12. run. rewrite E16. run. rewrite Hpay, <- Hh, slice_at. run.
  rewrite lzss_decodes by (try done; lia). run. destruct (int_small (zlen data)) as (E1 & E2 & E3); [lia|]. fold data. rewrite E1, E2, E3.
  rewrite (proj2 (Z.eqb_neq (zlen data) 0)) by lia. rewrite Z.eqb_refl. cbn [negb orb].
  rewrite Hh. unfold LZSS_HEADER_SIZE. destruct (int_small (384 + zlen (encode ts) + zlen monitor)) as (_ & -> & _); [lia|].
  replace (zlen (encode ts) + 384 <? _) with (0 <? zlen monitor) by (apply eq_iff_eq_true; rewrite !Z.ltb_lt; lia).
  destruct (want_monitor && _); [|by run].
  replace (384 + zlen (encode ts) + zlen monitor - (zlen (encode ts) + 384)) with (zlen monitor) by lia.
  replace (zlen (encode ts) + 384) with (zlen (head ++ encode ts)) by (rewrite zlen_app, Hh; unfold LZSS_HEADER_SIZE; lia).
  pose proof (slice_at (head ++ encode ts) monitor []) as Hsl. rewrite app_nil_r, <- app_assoc in Hsl. rewrite Hsl.
  cbn [fmap outcome_fmap]. by run.
Qed.

(** What libtasn1 says of an IM4P file of a type with a payload. *)
Record im4p_file (filename type payload : bytes) : Prop := {
  im_setup : asn1_array2tree = ASN1_SUCCESS /\ asn1_create_element = ASN1_SUCCESS;
  im_fields : exists file, g_file_get_contents filename = Some file /\ asn1_der_decoding file = ASN1_SUCCESS /\
    read_field file (lit "magic") (stack 4) = Done (lit "IM4P") /\ read_field file (lit "type") (stack 4) = Done type /\
    (exists description, read_field file (lit "description") (stack 128) = Done description) /\
    (exists v, asn1_read_value file (lit "data") None 0 = (ASN1_MEM_ERROR, v, zlen payload)) /\
    asn1_read_value file (lit "data") (Some (replicate (length payload) 0)) (zlen payload) = (ASN1_SUCCESS, payload, zlen payload);
}.

Lemma extract_im4p filename want_monitor type payload : im4p_file filename type payload -> zlen payload < 2 ^ 31 ->
  extract_im4p_payload filename want_monitor = decode_payload want_monitor type payload (zlen payload).
Proof.
  intros [[H1 H2] (file & H3 & H4 & H5 & H6 & (d & H7) & (v & H8) & H9)] Hl. unfold extract_im4p_payload.
  rewrite H3, H1, H2, H4. cbn [negb Z.eqb ASN1_SUCCESS]. rewrite H5. run. rewrite (memeq_front (lit "IM4P") [] : memeq (lit "IM4P") 0 _ = _).
  run. rewrite H6. run. rewrite H7. run. rewrite H8. cbn [negb Z.eqb ASN1_MEM_ERROR Pos.eqb].
  rewrite wrap_small by (unfold in_width, zlen in *; lia). rewrite (proj2 (Z.ltb_lt _ _)) by (unfold MAX_ALLOC; lia). run.
  replace (Z.to_nat (zlen payload)) with (length payload) by (unfold zlen; lia). rewrite H9. done.
Qed.

(** C10: From the file to the image: a kernel file whose payload is the compressed form
    of a Mach-O file, followed by a monitor or not, is loaded to an image that holds
    every segment of that Mach-O file at its address and zeros elsewhere, and the
    caller that asks for it gets the monitor; whatever literals and copies the
    compressor chose, and whatever the decoder's window holds before. *)
Theorem load_kernel_spec filename want_monitor adler rest ts monitor ft cmds : length window_junk = 35%nat ->
  archive_ok adler rest ts monitor ->
  let data := expand window_junk ts in
  im4p_file filename (lit "krnl") (lzss_archive adler rest ts (zlen data) monitor) -> loadable data (zlen data) ft cmds ->
  exists image, apple_boot_load_kernel filename want_monitor =
      Done (image, text_base (raw_bounds cmds) - image_base cmds, if want_monitor && (0 <? zlen monitor) then Some monitor else None) /\
    zlen image = kc_end (raw_bounds cmds) - image_base cmds /\ holds data (image_base cmds) (loaded_segs cmds) image.
Proof.
  intros Hj Har data Him Hl. destruct (parse_macho_ok _ _ _ _ Hl) as (image & E & Hz & Hh). exists image. split; [|done].
  unfold apple_boot_load_kernel. rewrite (extract_im4p _ _ _ _ Him).
  - rewrite (decode_lzss _ _ _ _ _ _ Hj Har). run. rewrite expect_type_spec. cbn [x_type x_data x_length x_monitor].
    replace (type_ok _ _) with true by (by vm_compute). run. fold data. cbn [x_type x_data x_length x_monitor]. rewrite E. by run.
  - destruct Har as [Ha Hr _ _ Hlen]. unfold lzss_archive, LZSS_HEADER_SIZE, zlen in *. rewrite !length_app, Ha, Hr.
    change (length (be_split 4 _)) with 4%nat. change (length (lit "complzss")) with 8%nat. lia.
Qed.

(** A payload of three to seven bytes is compared to a longer name: the comparison
    leaves it. *)
Lemma short_payload want_monitor type payload len : 3 <= zlen payload < 8 -> take 3 payload <> lit "bvx" ->
  decode_payload want_monitor type payload len = Oob.
Proof.
  intros Hl Hne. unfold decode_payload. rewrite <- (take_drop 3 payload) at 1.
  rewrite (memeq_other (lit "bvx")) by (try done; rewrite length_take; change (length (lit "bvx")) with 3%nat; unfold zlen in Hl; lia). run.
  unfold memeq, slice. change (zlen (lit "complzss")) with 8. rewrite (proj2 (Z.leb_gt (0 + 8) _)) by lia. done.
Qed.

End Files.

(** The announced number of entries is multiplied in 32 bits: a header that announces
    2^31 entries and has none is taken. *)
Lemma trustcache_count_wraps : trustcache_valid (le_split 4 1 ++ replicate 16 0 ++ le_split 4 (2 ^ 31)) = true.
Proof. vm_compute. reflexivity. Qed.

(** ** Examples

    Two files: a trust cache of one entry that is no IM4P file, and a kernel. *)
Definition sample_cache : bytes := le_split 4 1 ++ replicate 16 7 ++ le_split 4 1 ++ replicate 22 9.

Definition sample_junk : bytes := replicate 35 0xEE.

Definition sample_archive : bytes :=
  lzss_archive (replicate 4 0) (replicate 364 0) (Literal <$> sample_file) (zlen sample_file) (lit "monitor").

Definition sample_files (name : bytes) : option bytes :=
  if bool_decide (name = lit "cache") then Some sample_cache
  else if bool_decide (name = lit "kernel") then Some (48 :: sample_archive) else None.

Definition sample_der (file : bytes) : Z := match file with 48 :: _ => ASN1_SUCCESS | _ => 1 end.

Definition sample_asn1 (file name : bytes) (buf : option bytes) (len : Z) : Z * bytes * Z :=
  let value := if bool_decide (name = lit "magic") then lit "IM4P"
               else if bool_decide (name = lit "type") then lit "krnl"
               else if bool_decide (name = lit "description") then [] else drop 1 file in
  match buf with
  | Some buf => if zlen value <=? len then (ASN1_SUCCESS, value ++ drop (length value) buf, zlen value) else (ASN1_MEM_ERROR, buf, zlen value)
  | None => (ASN1_MEM_ERROR, [], zlen value)
  end.

Definition sample_stack (n : nat) : bytes := replicate n 0xCC.

Lemma load_trustcache_spec_witness :
  apple_boot_load_trustcache_file sample_files 0 0 sample_der sample_asn1 (fun _ _ => []) sample_stack sample_junk (lit "cache") =
    Done (trustcache_image sample_cache, 0x4000).
Proof.
  exact (load_trustcache_spec sample_files 0 0 sample_der sample_asn1 (fun _ _ => []) sample_stack sample_junk (lit "cache")
    (mkPayload (lit "raw" ++ [0]) (sample_cache ++ [0]) 46 None) eq_refl ltac:(by vm_compute) ltac:(by vm_compute)).
Defined.

Lemma load_kernel_spec_witness :
  exists image, apple_boot_load_kernel sample_files 0 0 sample_der sample_asn1 (fun _ _ => []) sample_stack sample_junk (lit "kernel") true =
      Done (image, text_base (raw_bounds sample_cmds) - image_base sample_cmds,
            if true && (0 <? zlen (lit "monitor")) then Some (lit "monitor") else None) /\
    zlen image = kc_end (raw_bounds sample_cmds) - image_base sample_cmds /\
    holds (expand sample_junk (Literal <$> sample_file)) (image_base sample_cmds) (loaded_segs sample_cmds) image.
Proof.
  assert (E : expand sample_junk (Literal <$> sample_file) = sample_file) by (vm_compute; reflexivity).
  apply (load_kernel_spec sample_files 0 0 sample_der sample_asn1 (fun _ _ => []) sample_stack sample_junk (lit "kernel") true
    (replicate 4 0) (replicate 364 0) (Literal <$> sample_file) (lit "monitor") 2 sample_cmds); [done| | |].
  - split; [done|done| |by vm_compute|by vm_compute]. apply Forall_fmap, Forall_forall. intros x Hx. cbn.
    assert (Hb : Forall (fun b => 0 <= b < 256) sample_file); [|exact (proj1 (Forall_forall _ _) Hb x Hx)].
    apply (Forall_impl (fun b => (0 <=? b) && (b <? 256) = true)); [|intros b; lia].
    apply Forall_forall. intros b Hin%list_elem_of_In. revert b Hin. apply forallb_forall. vm_compute. reflexivity.
  - split; [done|]. exists (48 :: sample_archive). split_and!; try (vm_compute; reflexivity); eexists; vm_compute; reflexivity.
  - rewrite E. exact sample_loadable.
Defined.
