(* ===== verification/BootTree.v ===== *)
(** * The device tree and the boot arguments

    Model of the rest of [hw/arm/apple-silicon/boot.c]: the filter that removes nodes
    and properties from the device tree, the values that are put into it, and the
    arguments that the kernel and the monitor find in memory.  Random bytes, hashes and
    the version of QEMU are parameters. *)

From S2P Require Import Prelude CString HostMem Patcher Dt.

(** ** What is kept and what is removed

    An entry of the tables is the bytes up to the dollar sign, which are strings with
    their zeros.  [ENABLE_BASEBAND] is not defined, [ENABLE_DATA_ENCRYPTION] is. *)
Definition entry (strings : list string) : bytes := concat ((fun s => lit s ++ [0]) <$> strings).

Definition KEEP_COMP : list bytes := entry <$>
  [["adbe0,s8000"]; ["aes,s8000"]; ["aic,1"]; ["apcie-bridge"]; ["apple,lightning"; "ARM,v8"];
   ["apple,thunder"; "ARM,v8"]; ["apple,twister"; "ARM,v8"]; ["arm-io,s8000"]; ["arm-io,t8030"];
   ["atc-phy,t8030"; "atc-phy,t8027"]; ["backlight"]; ["backlight,lm3539"]; ["buttons"];
   ["dart,s8000"; "dart,s5l8960x"]; ["dart,t8020"]; ["disp0,t8030"]; ["display-pmu,chestnut"]; ["dock,9pin"];
   ["dock,0pin"]; ["gen-mt-decider"]; ["gpio,s8000"; "gpio,s5l8960x"]; ["gpio,t8015"; "gpio,s5l8960x"];
   ["gpio,t8030"; "gpio,s5l8960x"]; ["i2c,s8000"; "i2c,s5l8940x"; "iic,soft"];
   ["i2c,t8030"; "i2c,s5l8940x"; "iic,soft"]; ["iic,soft"]; ["iommu-mapper"]; ["iop,ascwrap-v2"];
   ["iop,t8030"; "iop,t8015"]; ["iop-nub,rtbuddy-v2"]; ["iop,s8000"]; ["iop-nub,sep"]; ["lcd,pinot"];
   ["mipi-dsim-1,synopsys"]; ["N104AP"; "iPhone12,1"; "AppleARM"]; ["N104DEV"; "iPhone12,1"; "AppleARM"];
   ["N66AP"; "iPhone8,2"; "AppleARM"]; ["N66DEV"; "iPhone8,2"; "AppleARM"]; ["nvme-mmu,s8000"];
   ["otgphyctrl,s8000"; "otgphyctrl,s5l8960x"]; ["pmgr1,s8000"]; ["pmgr1,t8030"]; ["pmu,spmi"; "pmu,avus"];
   ["roswell"]; ["sart,coastguard"]; ["sart,t8030"]; ["sacm,1"]; ["sio-dma-controller"]; ["smc-pmu"];
   ["smc-tempsensor"]; ["soc-tuner,s8000"]; ["soc-tuner,t8030"]; ["spi-1,samsung"]; ["spmi,gen0"]; ["spmi,t8015"];
   ["uart-1,samsung"]; ["usb-complex,s8000"; "usb-complex,s5l8960x"]; ["usb-device,s5l8900x"];
   ["usb-device,s8000"; "usb-device,t7000"; "usb-device,s5l8900x"]; ["usb-device,t7000"; "usb-device,s5l8900x"];
   ["usb-drd,t8030"; "usb-drd,t8027"]; ["wdt,s8000"; "wdt,s5l8960x"]; ["wdt,t8030"; "wdt,s5l8960x"]; ["apcie,t8030"];
   ["apcie,s8000"]; ["rsm,t8030"]; ["tempsensor,t8020"]; ["tempsensor,t8030"]; ["mtrtempsensor,t8020"];
   ["dietempctl,t8030"]; ["vtempctl,t8030"]; ["aod,t8030"; "aod,s5l8960x"]; ["mic-temp-sens,ica60"]; ["aapl,spmi"];
   ["accbuck,fan53740"]].

Definition REM_NAMES : list bytes := entry <$>
  [["accel"]; ["gyro"]; ["compass"]; ["spherecontrol"]; ["prox"]; ["SPUApp"]; ["aop-mca"]; ["smc-control"];
   ["aop-smart-cover"]; ["rose"]; ["smc-aop"]; ["gfx-asc"]; ["amfm"]; ["dart-ane"]; ["dart-avd"]; ["dart-ave"];
   ["dart-isp"]; ["dart-jpeg0"]; ["dart-jpeg1"]; ["dart-pmp"]; ["dockchannel-uart"]; ["pmp"]; ["stockholm"];
   ["stockholm-spmi"]; ["bluetooth-pcie"]; ["wlan"]; ["baseband"]; ["baseband-spmi"]; ["baseband-vol"];
   ["baseband-pcie"]; ["audio-baseband-voice"]; ["Lynx"]].

Definition REM_DEV_TYPES : list bytes := entry <$>
  [["wlan"]; ["pmp"]].

Definition REM_PROPS : list bytes := lit <$>
  ["function-dock_parent"; "function-error_handler"; "function-mcc_ctrl"; "function-mcc_dataset";
   "function-pmp_control"; "mcc-power-gating"; "nand-debug"; "nvme-coastguard"; "pmp"; "soc-tuning";
   "baseband-chipset"; "has-baseband"; "event_name-gpio9"; "gps-capable"; "location-reminders"; "personal-hotspot";
   "bitrate-3g"; "bitrate-lte"; "bitrate-2g"; "navigation"; "pearl-camera"; "face-detection-support"; "siri-gesture"].

(** ** The filter *)

(** [memcmp] over the shorter of a property and an entry. *)
Definition prop_matches (prop : AppleDTProp) (e : bytes) : outcome bool :=
  let size := Z.min (p_len prop) (zlen e) in
  bs ← slice (p_data prop) 0 size;
  mret (bool_decide (bs = take (Z.to_nat size) e)).

Fixpoint any_matches (prop : AppleDTProp) (l : list bytes) : outcome bool :=
  match l with
  | [] => mret false
  | e :: l => found ← prop_matches prop e; if found : bool then mret true else any_matches prop l
  end.

(** A check of a property of a node, if the node has it.  A property of no bytes has a
    null pointer for its data. *)
Definition check_prop (node : AppleDTNode) (name : bytes) (l : list bytes) (if_found if_not : bool) : outcome bool :=
  match apple_dt_get_prop node name with
  | Some prop => c_assert (nonzero (p_len prop));; found ← any_matches prop l; mret (if found : bool then if_found else if_not)
  | None => mret false
  end.

(** Whether the node is to be removed. *)
Definition rejected (node : AppleDTNode) : outcome bool :=
  r ← check_prop node (str "compatible") KEEP_COMP false true;
  if r : bool then mret true
  else
    r ← check_prop node (str "name") REM_NAMES true false;
    if r : bool then mret true else check_prop node (str "device_type") REM_DEV_TYPES true false.

Definition remove_props (node : AppleDTNode) : AppleDTNode :=
  foldl (fun node name => snd (apple_dt_del_prop_named node name)) node REM_PROPS.

(** The loop over the children: one that does not stay is deleted from the parent. *)
Definition process_children (process : AppleDTNode -> outcome (option AppleDTNode)) :=
  fix loop (l : list AppleDTNode) (i : nat) (parent : AppleDTNode) : outcome AppleDTNode :=
    match l with
    | [] => mret parent
    | child :: l =>
        r ← process child;
        match r with
        | None => parent ← apple_dt_del_node parent i; loop l i parent
        | Some child => loop l (S i) (Node (props parent) (<[i := child]> (children parent)) (finalised parent))
        end
    end.

(** The node without what is removed below it, or none if it does not stay. *)
Fixpoint process_node (node : AppleDTNode) : outcome (option AppleDTNode) :=
  r ← rejected node;
  if r : bool then mret None
  else node ← process_children process_node (children node) O (remove_props node); mret (Some node).

(** The root has no parent. *)
Definition apple_boot_process_dt_node (root : AppleDTNode) : outcome AppleDTNode :=
  r ← process_node root;
  match r with Some root => mret root | None => Abort end.

(** ** What the filter leaves *)

(** A property is listed if it starts with an entry or is the start of one. *)
Definition listed (l : list bytes) (prop : AppleDTProp) : bool :=
  existsb (fun e => is_prefix e (p_data prop) || is_prefix (p_data prop) e) l.

Definition prop_listed (node : AppleDTNode) (name : bytes) (l : list bytes) : bool :=
  match props node !! name with Some prop => listed l prop | None => false end.

(** A node whose "compatible" is in no entry of the list to keep, or whose name or
    device type is in a list to remove. *)
Definition unwanted (node : AppleDTNode) : bool :=
  (bool_decide (is_Some (props node !! str "compatible")) && negb (prop_listed node (str "compatible") KEEP_COMP)) ||
  prop_listed node (str "name") REM_NAMES || prop_listed node (str "device_type") REM_DEV_TYPES.

(** The tree without the unwanted nodes, each with all below it, and without the
    removed properties. *)
Fixpoint prune (node : AppleDTNode) : AppleDTNode :=
  Node (filter (fun kv => kv.1 ∉ REM_PROPS) (props node))
       (flat_map (fun child => if unwanted child then [] else [prune child]) (children node)) (finalised node).

(** A property whose data the filter can compare. *)
Definition comparable (prop : AppleDTProp) : Prop := 0 < p_len prop /\ p_len prop = zlen (p_data prop).

Inductive filterable : AppleDTNode -> Prop :=
  | Filterable ps cs :
      (forall name prop, name ∈ [str "compatible"; str "name"; str "device_type"] -> ps !! name = Some prop -> comparable prop) ->
      Forall filterable cs -> filterable (Node ps cs false).

Lemma is_prefix_take a : forall b, is_prefix a b = bool_decide (take (length a) b = a).
Proof.
  induction a as [|x a IH]; intros b; [done|]. destruct b as [|y b]; [done|]. cbn [is_prefix length take]. rewrite IH.
  destruct (Z.eqb_spec x y) as [->|Hne]; cbn [andb].
  - apply bool_decide_ext. split; [intros ->; done|by intros [=]].
  - symmetry. apply bool_decide_eq_false_2. by intros [= ->].
Qed.

Lemma prop_matches_spec prop e : p_len prop = zlen (p_data prop) ->
  prop_matches prop e = Done (is_prefix e (p_data prop) || is_prefix (p_data prop) e).
Proof.
  intros Hl. unfold prop_matches. rewrite Hl, slice_in_range by (unfold zlen; lia). run. unfold mret, outcome_ret. f_equal.
  rewrite !is_prefix_take. change (drop (Z.to_nat 0) (p_data prop)) with (p_data prop).
  destruct (decide (length e <= length (p_data prop)))%nat.
  - replace (Z.to_nat (Z.min (zlen (p_data prop)) (zlen e))) with (length e) by (unfold zlen; lia). rewrite (take_ge e) by lia.
    destruct (bool_decide_reflect (take (length e) (p_data prop) = e)) as [|Hne]; [done|]. symmetry. apply bool_decide_eq_false_2.
    rewrite take_ge by lia. intros ->. by rewrite take_ge in Hne.
  - replace (Z.to_nat (Z.min (zlen (p_data prop)) (zlen e))) with (length (p_data prop)) by (unfold zlen; lia). rewrite (take_ge (p_data prop) (length (p_data prop))) by lia.
    rewrite (bool_decide_eq_false_2 (take (length e) _ = e)).
    + cbn [orb]. apply bool_decide_ext. done.
    + intros Heq%(f_equal length). rewrite length_take in Heq. lia.
Qed.

Lemma any_matches_spec prop l : p_len prop = zlen (p_data prop) -> any_matches prop l = Done (listed l prop).
Proof.
  intros Hl. induction l as [|e l IH]; [done|]. cbn [any_matches]. rewrite prop_matches_spec by done. run. unfold listed in *. cbn [existsb].
  by destruct (is_prefix e _ || _).
Qed.

Lemma check_prop_spec node name l a b : (forall prop, props node !! name = Some prop -> comparable prop) ->
  check_prop node name l a b =
    Done (bool_decide (is_Some (props node !! name)) && if prop_listed node name l then a else b).
Proof.
  intros H. unfold check_prop, apple_dt_get_prop, prop_listed. destruct (props node !! name) as [prop|]; [|done].
  destruct (H prop eq_refl) as [H0 Hl]. rewrite (proj2 (nonzero_iff _)) by lia. run. rewrite any_matches_spec by done. by run.
Qed.

Lemma rejected_spec node : filterable node -> rejected node = Done (unwanted node).
Proof.
  intros [ps cs Hp _]. unfold rejected, unwanted.
  rewrite (check_prop_spec _ (str "compatible")) by (intros prop; apply Hp; set_solver). run.
  assert (Hs : forall name l, prop_listed (Node ps cs false) name l = true -> is_Some (ps !! name)).
  { intros name l. unfold prop_listed. cbn [props]. destruct (ps !! name); [by eexists|done]. }
  destruct (prop_listed _ (str "compatible") KEEP_COMP), (bool_decide (is_Some (props _ !! str "compatible"))); cbn [andb negb orb]; try done.
  all: rewrite (check_prop_spec _ (str "name")) by (intros prop; apply Hp; set_solver); run.
  all: destruct (prop_listed _ (str "name") REM_NAMES) eqn:E; rewrite ?andb_false_r;
    [rewrite (bool_decide_eq_true_2 _ (Hs _ _ E)); done|].
  all: rewrite (check_prop_spec _ (str "device_type")) by (intros prop; apply Hp; set_solver); f_equal.
  all: destruct (prop_listed _ (str "device_type") REM_DEV_TYPES) eqn:E'; rewrite ?andb_false_r;
    [rewrite (bool_decide_eq_true_2 _ (Hs _ _ E')); done|done].
Qed.

Lemma remove_props_spec ps cs fin :
  remove_props (Node ps cs fin) = Node (filter (fun kv => kv.1 ∉ REM_PROPS) ps) cs fin.
Proof.
  unfold remove_props. enough (Hg : forall l ps, foldl (fun node name => snd (apple_dt_del_prop_named node name)) (Node ps cs fin) l =
    Node (filter (fun kv => kv.1 ∉ l) ps) cs fin) by apply Hg.
  clear ps. induction l as [|name l IH]; intros ps; cbn [foldl].
  - f_equal. symmetry. apply map_filter_id. intros k v _. cbn. set_solver.
  - replace (snd (apple_dt_del_prop_named (Node ps cs fin) name)) with (Node (delete name ps) cs fin).
    + rewrite IH. f_equal. apply map_eq. intros k. apply option_eq. intros v. rewrite !map_lookup_filter_Some, lookup_delete_Some. cbn.
      rewrite not_elem_of_cons. naive_solver.
    + unfold apple_dt_del_prop_named, set_props. cbn [props children finalised]. destruct (ps !! name) eqn:E; [done|]. cbn.
      f_equal. by apply delete_id.
Qed.

Lemma process_children_spec process cs : forall kept ps,
  Forall (fun c => process c = Done (if unwanted c then None else Some (prune c)) /\ finalised c = false) cs ->
  process_children process cs (length kept) (Node ps (kept ++ cs) false) =
    Done (Node ps (kept ++ flat_map (fun c => if unwanted c then [] else [prune c]) cs) false).
Proof.
  induction cs as [|c cs IH]; intros kept ps Hc; [done|]. apply Forall_cons in Hc as [[E Hf] Hc]. cbn [process_children flat_map].
  rewrite E. run. destruct (unwanted c); cbn [app].
  - unfold apple_dt_del_node. cbn [finalised negb children props]. run. rewrite list_lookup_middle by done. rewrite Hf. run.
    rewrite delete_middle. by apply IH.
  - cbn [children props finalised]. rewrite insert_app_r_alt, Nat.sub_diag by lia. cbn [insert list_insert].
    specialize (IH (kept ++ [prune c]) ps Hc). rewrite length_app in IH. cbn [length] in IH. rewrite Nat.add_1_r, <- !app_assoc in IH. exact IH.
Qed.

Lemma process_node_spec node : filterable node -> process_node node = Done (if unwanted node then None else Some (prune node)).
Proof.
  induction node as [ps cs fin IH] using node_ind'. intros Hf. pose proof (rejected_spec _ Hf) as Hr. inversion Hf as [ps' cs' Hp Hcs]; subst.
  cbn [process_node]. rewrite Hr. run. destruct (unwanted _); [done|]. rewrite remove_props_spec.
  rewrite (process_children_spec process_node cs [] _); [by run|]. cbn [children].
  apply Forall_forall. intros c Hin. rewrite Forall_forall in Hcs. apply list_elem_of_In in Hin. specialize (Hcs c (proj2 (list_elem_of_In _ _) Hin)).
  split; [exact (proj1 (List.Forall_forall _ _) IH c Hin Hcs)|by inversion Hcs].
Qed.

(** C13: The filter leaves of a device tree exactly the nodes it is to keep: a node goes,
    with all below it, if its "compatible" property is in no entry of the list of
    supported devices, or if its name or device type is in an entry of a list of what is
    removed, where a property is in an entry if one of the two is a prefix of the other.
    The remaining nodes keep their order and lose the listed properties and nothing
    else.  If the root itself would go, the process ends. *)
Theorem process_dt_spec root : filterable root ->
  apple_boot_process_dt_node root = if unwanted root then Abort else Done (prune root).
Proof. intros Hf. unfold apple_boot_process_dt_node. rewrite process_node_spec by done. run. by destruct (unwanted root). Qed.

(** A tree with a supported and an unsupported device, and a removed name below. *)
Definition string_prop (l : list string) : AppleDTProp := let d := entry l in mkProp (zlen d) false d.

Definition filter_example : AppleDTNode :=
  Node {[str "compatible" := string_prop ["N104AP"; "iPhone12,1"; "AppleARM"]; str "navigation" := string_prop ["yes"]]}
    [Node {[str "compatible" := string_prop ["gpu,t8030"]]} [] false;
     Node {[str "compatible" := string_prop ["aic,1"]]} [Node {[str "name" := string_prop ["wlan"]]} [] false; Node {[str "name" := string_prop ["leds"]]} [] false] false]
    false.

Lemma process_dt_spec_witness :
  apple_boot_process_dt_node filter_example = (if unwanted filter_example then Abort else Done (prune filter_example)) /\
  prune filter_example =
    Node {[str "compatible" := string_prop ["N104AP"; "iPhone12,1"; "AppleARM"]]}
      [Node {[str "compatible" := string_prop ["aic,1"]]} [Node {[str "name" := string_prop ["leds"]]} [] false] false] false.
Proof.
  split; [|vm_compute; reflexivity]. apply process_dt_spec.
  repeat first [apply Forall_nil_2|apply Forall_cons_2|apply Filterable];
    intros name prop _; rewrite ?lookup_insert_Some, ?lookup_singleton_Some; naive_solver (by vm_compute).
Defined.

(** The comparison covers the shorter of the two only: a device whose "compatible" is
    the start of a supported one is kept. *)
Lemma prefix_kept : unwanted (Node {[str "compatible" := mkProp 1 false (lit "a")]} [] false) = false.
Proof. vm_compute. reflexivity. Qed.

(** ** Values in the tree *)

Definition XNU_MAX_NVRAM_SIZE : Z := 0xFFFF * 0x10.

Record AppleBootInfo := mkBootInfo {
  device_tree_addr : Z;
  device_tree_size : Z;
  ramdisk_addr : Z;
  ramdisk_size : Z;
  trustcache_addr : Z;
  trustcache_size : Z;
  sep_fw_addr : Z;
  sep_fw_size : Z;
  kern_boot_args_addr : Z;
  kern_boot_args_size : Z;
  dram_base : Z;
  dram_size : Z;
  nvram_data : bytes;
  nvram_size : Z;
  ticket_data : bytes;
}.
#[global] Instance eta_AppleBootInfo : Eta AppleBootInfo := fun i =>
  mkBootInfo (device_tree_addr i) (device_tree_size i) (ramdisk_addr i) (ramdisk_size i) (trustcache_addr i) (trustcache_size i)
    (sep_fw_addr i) (sep_fw_size i) (kern_boot_args_addr i) (kern_boot_args_size i) (dram_base i) (dram_size i) (nvram_data i)
    (nvram_size i) (ticket_data i).

(** A change of the node at a place. *)
Fixpoint update_at (path : list nat) (f : AppleDTNode -> outcome AppleDTNode) (node : AppleDTNode) : outcome AppleDTNode :=
  match path with
  | [] => f node
  | i :: path =>
      match children node !! i with
      | Some child => child ← update_at path f child; mret (Node (props node) (<[i := child]> (children node)) (finalised node))
      | None => Oob
      end
  end.

(** A change of the node that is found; that there is one is asserted. *)
Definition with_node (root : AppleDTNode) (path : string) (f : AppleDTNode -> outcome AppleDTNode) : outcome AppleDTNode :=
  match apple_dt_get_node root (str path) with
  | Some (place, _) => update_at place f root
  | None => Abort
  end.

(** Bytes written to a property in place. *)
Definition write_prop (node : AppleDTNode) (name : bytes) (f : AppleDTProp -> outcome bytes) : outcome AppleDTNode :=
  match apple_dt_get_prop node name with
  | None => Abort
  | Some prop => d ← f prop; mret (set_props node (<[name := mkProp (p_len prop) (p_placeholder prop) d]> (props node)))
  end.

Definition apple_boot_init_mem_ranges (root : AppleDTNode) : outcome AppleDTNode :=
  with_node root "chosen/memory-map" (fun child =>
    child ← apple_dt_set_prop child (str "RAMDisk") 16 None;
    child ← apple_dt_set_prop child (str "TrustCache") 16 None;
    child ← apple_dt_set_prop child (str "SEPFW") 16 None;
    child ← apple_dt_set_prop child (str "BootArgs") 16 None;
    apple_dt_set_prop child (str "DeviceTree") 16 None).

Definition set_memory_range (root : AppleDTNode) (name : string) (addr size : Z) : outcome AppleDTNode :=
  with_node root "chosen/memory-map" (fun child =>
    if addr =? 0 then c_assert (size =? 0);; mret (snd (apple_dt_del_prop_named child (str name)))
    else
      write_prop child (str name) (fun prop =>
        d ← store_le64 (p_data prop) 0 addr;
        store_le64 d 8 size)).

Definition set_memory_ranges (root : AppleDTNode) (info : AppleBootInfo) : outcome AppleDTNode :=
  root ← set_memory_range root "DeviceTree" (device_tree_addr info) (device_tree_size info);
  root ← set_memory_range root "RAMDisk" (ramdisk_addr info) (ramdisk_size info);
  root ← set_memory_range root "TrustCache" (trustcache_addr info) (trustcache_size info);
  root ← set_memory_range root "SEPFW" (sep_fw_addr info) (sep_fw_size info);
  set_memory_range root "BootArgs" (kern_boot_args_addr info) (kern_boot_args_size info).

Section Tree.

(** The parameters of [Dt]; the bytes that the calls of [qemu_guest_getrandom_nofail]
    give; the version of QEMU; the hashes of libcrypto, none for an error. *)
Variable g_hash_table_iter : gmap bytes AppleDTProp -> list (bytes * AppleDTProp).
Variable g_ascii_strtoull : bytes -> Z.
Variable getrandom : nat -> Z -> bytes.
Variable QEMU_VERSION : bytes.
Variable sha256 sha384 sha1 : bytes -> option bytes.

Definition random_prop (call : nat) (node : AppleDTNode) (name : string) : outcome AppleDTNode :=
  write_prop node (str name) (fun prop => blit (p_data prop) 0 (getrandom call (p_len prop))).

Definition populate_chosen (info : AppleBootInfo) (auto_boot : bool) (child : AppleDTNode) : outcome AppleDTNode :=
  child ← random_prop 0 child "random-seed";
  child ← random_prop 1 child "boot-nonce";
  child ← apple_dt_set_prop_u64 child (str "dram-base") (dram_base info);
  child ← apple_dt_set_prop_u64 child (str "dram-size") (dram_size info);
  child ← apple_dt_set_prop_str child (str "firmware-version") (str "ChefKiss Inferno");
  child ← apple_dt_set_prop_str child (str "system-firmware-version") QEMU_VERSION;
  child ← apple_dt_set_prop_u32 child (str "nvram-total-size") (nvram_size info);
  child ← apple_dt_set_prop_u32 child (str "nvram-bank-size") (nvram_size info);
  child ← apple_dt_set_prop child (str "nvram-proxy-data") (nvram_size info) (Some (nvram_data info));
  child ← apple_dt_set_prop_u32 child (str "effective-production-status-ap") 1;
  child ← apple_dt_set_prop_u32 child (str "effective-security-mode-ap") 1;
  child ← apple_dt_set_prop_u32 child (str "security-domain") 1;
  child ← apple_dt_set_prop_u32 child (str "chip-epoch") 1;
  child ← apple_dt_set_prop_u32 child (str "darwinos-security-environment") (if auto_boot then 1 else 2);
  apple_dt_set_prop_u32 child (str "boot-command") (if auto_boot then 1 else 7).

(** The nonce, which the node "chosen" keeps. *)
Definition boot_nonce (root : AppleDTNode) : outcome bytes :=
  match apple_dt_get_node root (str "chosen") with
  | Some (_, child) => match apple_dt_get_prop child (str "boot-nonce") with Some prop => mret (p_data prop) | None => Abort end
  | None => Abort
  end.

(** The tree and the info with its size; a hash that fails is an error to
    [error_fatal]. *)
Definition apple_boot_populate_dt (root : AppleDTNode) (info : AppleBootInfo) (auto_boot : bool)
    : outcome (AppleDTNode * AppleBootInfo) :=
  c_assert (nvram_size info <=? XNU_MAX_NVRAM_SIZE);;
  root ← apple_dt_set_prop_null root (str "no-suspend");
  root ← with_node root "chosen" (populate_chosen info auto_boot);
  root ← with_node root "defaults" (fun child => apple_dt_set_prop_u32 child (str "insecure_hpr") 1);
  nonce ← boot_nonce root;
  root ← with_node root "chosen/manifest-properties" (fun child =>
    match sha256 nonce with
    | Some hash => apple_dt_set_prop child (str "BNCH") (zlen hash) (Some hash)
    | None => _ ← error_setg ErrFatal; Abort
    end);
  root ← with_node root "product" (fun child => apple_dt_set_prop_u32 child (str "allow-hactivation") 1);
  root ← apple_boot_init_mem_ranges root;
  root ← apple_boot_process_dt_node root;
  '(len, root) ← apple_dt_finalise g_hash_table_iter g_ascii_strtoull root;
  mret (root, info <| device_tree_size := ROUND_UP_16K len |>).

(** The hash of the ticket, with the method the tree names. *)
Definition set_manifest_hash (info : AppleBootInfo) (child : AppleDTNode) : outcome AppleDTNode :=
  method ← apple_dt_get_prop_str_or child (str "crypto-hash-method") (str "sha1") ErrFatal;
  alg ← (if bool_decide (method = Some (str "sha2-384")) then mret sha384
         else if bool_decide (method = Some (str "sha1")) then mret sha1 else Abort);
  write_prop child (str "boot-manifest-hash") (fun prop =>
    match alg (ticket_data info) with
    | Some hash => c_assert (zlen hash =? p_len prop);; blit (p_data prop) 0 hash
    | None => _ ← error_setg ErrFatal; Abort
    end).

(** The write to guest memory, from a buffer that holds [junk] before. *)
Definition apple_boot_finalise_dt (root : AppleDTNode) (info : AppleBootInfo) (junk : bytes) : outcome (AppleDTNode * (Z * bytes)) :=
  root ← set_memory_ranges root info;
  root ← (match ticket_data info with [] => mret root | _ => with_node root "chosen" (set_manifest_hash info) end);
  buf ← apple_dt_serialise g_hash_table_iter g_ascii_strtoull root junk;
  mret (root, (device_tree_addr info, buf)).

End Tree.

(** ** The tree that reaches the guest *)

Lemma find_child_spec token c l : forall i j, find_child token l i = Some (j, c) ->
  exists k, j = (i + k)%nat /\ l !! k = Some c /\
    forall c', name_matches token c' = name_matches token c -> find_child token (<[k := c']> l) i = Some (j, c').
Proof.
  induction l as [|x l IH]; intros i j; [done|]. cbn [find_child]. destruct (name_matches token x) eqn:E.
  - intros [= <- ->]. exists O. split; [lia|]. split; [done|]. intros c' Hc'. cbn [insert list_insert find_child]. by rewrite Hc', E.
  - intros (k & -> & Hk & Hc)%IH. exists (S k). split; [lia|]. split; [done|]. intros c' Hc'. cbn [insert list_insert find_child].
    rewrite E. by apply Hc.
Qed.

Section Written.

Variable g_hash_table_iter : gmap bytes AppleDTProp -> list (bytes * AppleDTProp).
Variable g_ascii_strtoull : bytes -> Z.
Hypothesis g_hash_table_iter_perm : forall m, g_hash_table_iter m ≡ₚ map_to_list m.

Local Abbreviation len := (node_len g_hash_table_iter g_ascii_strtoull).
Local Abbreviation ok := (node_ok g_ascii_strtoull true).
Local Abbreviation plen := (prop_len g_ascii_strtoull).
Local Abbreviation clen := (children_len g_hash_table_iter g_ascii_strtoull).

(** A change that keeps a node well formed and does not make it longer. *)
Definition shrinks (r r' : AppleDTNode) : Prop := ok r -> ok r' /\ len r' <= len r.

Lemma children_len_insert l : forall i c c', l !! i = Some c -> clen (<[i := c']> l) = clen l - len c + len c'.
Proof.
  assert (E : forall x l, clen (x :: l) = len x + clen l) by done.
  induction l as [|x l IH]; intros [|i] c c'; cbn [lookup list_lookup insert list_insert]; try done; rewrite !E.
  - intros [= ->]. lia.
  - intros H. transitivity (len x + (clen l - len c + len c')); [f_equal; exact (IH i c c' H)|lia].
Qed.

Lemma update_at_spec tokens : forall node path r f r', walk node tokens = Some (path, r) -> f r = Done r' ->
  props r' !! str "name" = props r !! str "name" -> finalised r' = finalised r -> shrinks r r' ->
  exists node', update_at path f node = Done node' /\ walk node' tokens = Some (path, r') /\
    props node' !! str "name" = props node !! str "name" /\ finalised node' = finalised node /\ shrinks node node'.
Proof.
  induction tokens as [|[|t ts] tokens IH]; intros node path r f r' Hw Hf Hn Hfin Hs; cbn [walk] in Hw.
  - injection Hw as <- <-. exists r'. done.
  - destruct (IH _ _ _ _ _ Hw Hf Hn Hfin Hs) as (node' & ? & ? & ? & ?). by exists node'.
  - destruct (find_child _ _ _) as [[i child]|] eqn:Ef; [|done]. cbn in Hw.
    destruct (walk child tokens) as [[path' r0]|] eqn:Ew; [|done]. cbn in Hw. injection Hw as <- <-.
    destruct (find_child_spec _ _ _ _ _ Ef) as (k & -> & Hk & Hc). cbn [Nat.add] in *.
    destruct (IH _ _ _ _ _ Ew Hf Hn Hfin Hs) as (child' & Hu & Hw' & Hn' & Hf' & Hs'). cbn [update_at]. rewrite Hk, Hu. run.
    eexists. split; [done|]. cbn [walk props children finalised]. rewrite Hc; [|unfold name_matches, apple_dt_get_prop; by rewrite Hn'].
    cbn. rewrite Hw'. cbn. split_and!; try done. intros Hok. destruct node as [ps cs fin]. cbn [props children finalised] in *.
    inversion Hok as [? ? Hp Hsz Hl Hcs]; subst. pose proof (proj1 (Forall_lookup _ _) Hcs _ _ Hk) as Hck. destruct (Hs' Hck) as [Hok' Hlen].
    split.
    + constructor; [done|done|unfold zlen; by rewrite length_insert|by apply Forall_insert].
    + rewrite !node_len_eq, (children_len_insert _ _ _ _ Hk). lia.
Qed.

Lemma props_len_perm l l' : l ≡ₚ l' -> props_len g_ascii_strtoull l = props_len g_ascii_strtoull l'.
Proof. unfold props_len. induction 1; cbn; lia. Qed.

Lemma props_len_delete m k prop : m !! k = Some prop ->
  props_len g_ascii_strtoull (g_hash_table_iter m) = plen prop + props_len g_ascii_strtoull (g_hash_table_iter (delete k m)).
Proof.
  intros H. rewrite (props_len_perm _ _ (g_hash_table_iter_perm m)), (props_len_perm _ _ (g_hash_table_iter_perm (delete k m))).
  by rewrite (props_len_perm _ _ (symmetry (map_to_list_delete m k prop H))).
Qed.

Lemma props_len_insert m k prop prop' : m !! k = Some prop ->
  props_len g_ascii_strtoull (g_hash_table_iter (<[k := prop']> m)) =
    props_len g_ascii_strtoull (g_hash_table_iter m) - plen prop + plen prop'.
Proof.
  intros H. rewrite (props_len_delete m k prop H), (props_len_delete (<[k := prop']> m) k prop') by apply lookup_insert_eq.
  rewrite delete_insert_eq. lia.
Qed.

(** A record of the memory map. *)
Definition range_ok (ps : gmap bytes AppleDTProp) (name : bytes) : Prop :=
  exists d, ps !! name = Some (mkProp 16 false d) /\ length d = 16%nat.

(** The memory map with a range set, or without it if it has no address. *)
Definition range_props (ps : gmap bytes AppleDTProp) (r : string * Z * Z) : gmap bytes AppleDTProp :=
  let '(name, addr, size) := r in
  if addr =? 0 then delete (str name) ps else <[str name := mkProp 16 false (le_split 8 addr ++ le_split 8 size)]> ps.

Lemma store_range d addr size : length d = 16%nat ->
  (d ← store_le64 d 0 addr; store_le64 d 8 size) = Done (le_split 8 addr ++ le_split 8 size).
Proof.
  intros Hd. unfold store_le64. rewrite blit_front by (unfold zlen; rewrite length_le_split; lia). run.
  rewrite (blit_at (le_split 8 addr) _ (le_split 8 size) : _ -> blit _ 8 _ = _).
  - f_equal. rewrite length_le_split, drop_drop, (drop_ge d) by (rewrite length_le_split; lia). by rewrite app_nil_r.
  - unfold zlen. rewrite length_drop, !length_le_split. lia.
Qed.

Lemma range_shrinks ps cs name addr size : range_ok ps (str name) ->
  shrinks (Node ps cs true) (Node (range_props ps (name, addr, size)) cs true).
Proof.
  intros (d & Hd & Hl) Hok. inversion Hok as [? ? Hp Hsz Hlen Hcs]; subst. cbn [range_props].
  destruct (Hp _ _ Hd) as [Hkey Hprop]. rewrite !node_len_eq. destruct (addr =? 0).
  - split; [|rewrite (props_len_delete _ _ _ Hd); pose proof (prop_len_pos g_ascii_strtoull _ Hprop); lia].
    constructor; [|rewrite map_size_delete_Some by (by eexists); lia|done|done].
    intros k prop [_ H]%lookup_delete_Some. by apply Hp.
  - split.
    + constructor; [|rewrite map_size_insert_Some by (by eexists); done|done|done].
      intros k prop [[<- <-]|[_ H]]%lookup_insert_Some; [|by apply Hp]. split; [done|].
      split; cbn [p_len p_data p_placeholder]; [unfold zlen; rewrite length_app, !length_le_split; done|done| |done].
      apply Forall_app. split; apply le_split_bytes.
    + rewrite (props_len_insert _ _ _ _ Hd). unfold prop_len, expand_prop. cbn [p_placeholder p_len]. lia.
Qed.

Definition memory_map (root : AppleDTNode) := apple_dt_get_node root (str "chosen/memory-map").

Lemma set_range_spec root path ps cs name addr size : ok root -> memory_map root = Some (path, Node ps cs true) ->
  range_ok ps (str name) -> (addr = 0 -> size = 0) -> str name <> str "name" ->
  exists root', set_memory_range root name addr size = Done root' /\
    memory_map root' = Some (path, Node (range_props ps (name, addr, size)) cs true) /\ ok root' /\ len root' <= len root.
Proof.
  intros Hok Hm Hr H0 Hne. unfold set_memory_range, with_node. fold (memory_map root). rewrite Hm.
  match goal with |- context [update_at path ?g root] => set (f := g) end.
  assert (Hf : f (Node ps cs true) = Done (Node (range_props ps (name, addr, size)) cs true)).
  { destruct Hr as (d & Hd & Hl). unfold f, range_props. destruct (Z.eqb_spec addr 0) as [E|].
    - rewrite (H0 E). cbn [Z.eqb]. run. unfold apple_dt_del_prop_named, set_props. cbn [props]. by rewrite Hd.
    - unfold write_prop, apple_dt_get_prop. cbn [props]. rewrite Hd. cbn [p_data p_len p_placeholder]. rewrite store_range by done. by run. }
  destruct (update_at_spec _ root path (Node ps cs true) f _ Hm Hf) as (root' & -> & Hw & _ & _ & Hs).
  - unfold range_props. cbn [props]. destruct (addr =? 0); [by rewrite lookup_delete_ne|by rewrite lookup_insert_ne].
  - done.
  - by apply range_shrinks.
  - exists root'. destruct (Hs Hok). done.
Qed.

Lemma range_ok_other ps name name' addr size : range_ok ps name' -> str name <> name' -> range_ok (range_props ps (name, addr, size)) name'.
Proof.
  intros (d & Hd & Hl) Hne. exists d. split; [|done]. unfold range_props.
  destruct (addr =? 0); [by rewrite lookup_delete_ne|by rewrite lookup_insert_ne].
Qed.

(** The ranges, in the order they are set. *)
Definition ranges (info : AppleBootInfo) : list (string * Z * Z) :=
  [("DeviceTree"%string, device_tree_addr info, device_tree_size info); ("RAMDisk"%string, ramdisk_addr info, ramdisk_size info);
   ("TrustCache"%string, trustcache_addr info, trustcache_size info); ("SEPFW"%string, sep_fw_addr info, sep_fw_size info);
   ("BootArgs"%string, kern_boot_args_addr info, kern_boot_args_size info)].

(** A range without an address has no size, and the memory map has a record for it. *)
Definition settable (ps : gmap bytes AppleDTProp) (r : string * Z * Z) : Prop :=
  let '(name, addr, size) := r in range_ok ps (str name) /\ (addr = 0 -> size = 0).

Lemma set_ranges_spec root info path ps cs : ok root -> memory_map root = Some (path, Node ps cs true) ->
  Forall (settable ps) (ranges info) ->
  exists root', set_memory_ranges root info = Done root' /\
    memory_map root' = Some (path, Node (foldl range_props ps (ranges info)) cs true) /\ ok root' /\ len root' <= len root.
Proof.
  intros Hok Hm Hs. unfold ranges in *. rewrite !Forall_cons in Hs.
  destruct Hs as ([R1 Z1] & [R2 Z2] & [R3 Z3] & [R4 Z4] & [R5 Z5] & _). unfold set_memory_ranges. cbn [foldl].
  destruct (set_range_spec root path ps cs _ _ _ Hok Hm R1 Z1) as (r1 & -> & M1 & O1 & L1); [done|]. run.
  destruct (set_range_spec r1 path _ cs "RAMDisk" (ramdisk_addr info) (ramdisk_size info) O1 M1) as (r2 & -> & M2 & O2 & L2);
    [by repeat (apply range_ok_other; [|done])|done|done|]. run.
  destruct (set_range_spec r2 path _ cs "TrustCache" (trustcache_addr info) (trustcache_size info) O2 M2) as (r3 & -> & M3 & O3 & L3);
    [by repeat (apply range_ok_other; [|done])|done|done|]. run.
  destruct (set_range_spec r3 path _ cs "SEPFW" (sep_fw_addr info) (sep_fw_size info) O3 M3) as (r4 & -> & M4 & O4 & L4);
    [by repeat (apply range_ok_other; [|done])|done|done|]. run.
  destruct (set_range_spec r4 path _ cs "BootArgs" (kern_boot_args_addr info) (kern_boot_args_size info) O4 M4) as (r5 & -> & M5 & O5 & L5);
    [by repeat (apply range_ok_other; [|done])|done|done|].
  exists r5. split_and!; try done. lia.
Qed.


End Written.

(** ** An example: a tree with the records of the five ranges, two of which are set. *)

Definition plain (s : string) : AppleDTProp := mkProp (zlen (lit s) + 1) false (lit s ++ [0]).
Definition blank : AppleDTProp := mkProp 16 false (replicate 16 0).

Definition map_example : gmap bytes AppleDTProp :=
  list_to_map [(str "name", plain "memory-map"); (str "RAMDisk", blank); (str "TrustCache", blank); (str "SEPFW", blank);
               (str "BootArgs", blank); (str "DeviceTree", blank)].

Definition tree_example : AppleDTNode :=
  Node {[str "name" := plain "device-tree"]}
    [Node {[str "name" := plain "chosen"]} [Node map_example [] true] true] true.

Definition info_example : AppleBootInfo := mkBootInfo 0x801000000 0x400 0 0 0x802000000 0x4000 0 0 0 0 0 0 [] 0 [].

(** A check of properties without placeholders. *)
Definition entry_okb (kv : bytes * AppleDTProp) : bool :=
  (zlen kv.1 <? 32) && forallb (fun b => (0 <? b) && (b <? 256)) kv.1 && (p_len kv.2 =? zlen (p_data kv.2)) && (p_len kv.2 <? 2 ^ 31) &&
  forallb (fun b => (0 <=? b) && (b <? 256)) (p_data kv.2) && negb (p_placeholder kv.2).

Lemma entries_ok (f : bytes -> Z) (m : gmap bytes AppleDTProp) : forallb entry_okb (map_to_list m) = true ->
  forall key prop, m !! key = Some prop -> key_ok key /\ prop_ok f prop.
Proof.
  intros H key prop Hl. pose proof (proj1 (forallb_forall _ _) H (key, prop)) as He.
  rewrite <- list_elem_of_In, elem_of_map_to_list in He. specialize (He Hl). unfold entry_okb in He. cbn [fst snd] in He. rewrite !andb_true_iff in He.
  destruct He as (((((H1 & H2) & H3) & H4) & H5) & H6). apply negb_true_iff in H6.
  apply Z.ltb_lt in H1, H4. apply Z.eqb_eq in H3. rewrite forallb_forall in H2, H5.
  split; [split; [exact H1|]|split; [done|done| |by rewrite H6]]; apply Forall_forall; intros b Hb%list_elem_of_In.
  - apply H2 in Hb. lia.
  - apply H5 in Hb. unfold in_width. lia.
Qed.


(** ** Boot arguments *)

(** [g_strlcpy(dst, src, n)] into an array of zeros. *)
Definition strlcpy (n : nat) (s : bytes) : bytes := strncpy n (take (n - 1) s).

Record AppleVideoArgs := mkVideo {
  base_addr : Z;
  display : Z;
  row_bytes : Z;
  width : Z;
  height : Z;
  depth : Z;
}.

Definition encode_video (v : AppleVideoArgs) : bytes :=
  le_split 8 (base_addr v) ++ le_split 8 (display v) ++ le_split 8 (row_bytes v) ++ le_split 8 (width v) ++
  le_split 8 (height v) ++ le_split 8 (depth v).

Record KernelArgs := mkKernelArgs {
  virt_base : Z;
  phys_base : Z;
  mem_size : Z;
  kernel_top : Z;
  dtb_va : Z;
  dtb_size : Z;
  video_args : AppleVideoArgs;
  cmdline : option bytes;
  mem_size_actual : Z;
}.

Definition BOOT_FLAGS_DARK_BOOT : Z := BIT 0.

(** The struct of a revision, with [cmdline_size] bytes for the command line and four
    bytes to align what follows the version, the machine type and the command line. *)
Definition encode_bootargs (revision : Z) (cmdline_size : nat) (a : KernelArgs) : bytes :=
  le_split 2 revision ++ le_split 2 2 ++ replicate 4 0 ++ le_split 8 (virt_base a) ++ le_split 8 (phys_base a) ++
  le_split 8 (mem_size a) ++ le_split 8 (kernel_top a) ++ encode_video (video_args a) ++ le_split 4 0 ++ replicate 4 0 ++
  le_split 8 (dtb_va a) ++ le_split 4 (dtb_size a) ++
  match cmdline a with Some s => strlcpy cmdline_size s | None => replicate cmdline_size 0 end ++ replicate 4 0 ++
  le_split 8 BOOT_FLAGS_DARK_BOOT ++ le_split 8 (mem_size_actual a).

Definition apple_boot_setup_bootargs_rev2 (a : KernelArgs) : bytes := encode_bootargs 2 0x260 a.
Definition apple_boot_setup_bootargs_rev3 (a : KernelArgs) : bytes := encode_bootargs 3 0x400 a.

Definition BUILD_VERSION_MAJOR (v : Z) : Z := (v .& 0xFFFF0000) .>> 16.

(** The write to guest memory. *)
Definition apple_boot_setup_bootargs (build_version addr : Z) (a : KernelArgs) : Z * bytes :=
  if 17 <=? BUILD_VERSION_MAJOR build_version then (addr, apple_boot_setup_bootargs_rev3 a)
  else (addr, apple_boot_setup_bootargs_rev2 a).

(** The arguments of the monitor, with 16 random bytes. *)
Definition apple_boot_setup_monitor_boot_args (random : bytes)
    (addr virt_base phys_base mem_size kern_args kern_entry kern_phys_base kern_phys_slide kern_virt_slide kern_text_section_off : Z) : Z * bytes :=
  (addr, concat (le_split 8 <$> [4; virt_base; phys_base; mem_size; kern_args; kern_entry; kern_phys_base; kern_phys_slide;
     kern_virt_slide; kern_text_section_off]) ++ take 16 random).

(** Whether one of the arguments, which are separated by spaces, is [arg] or, if asked
    for, starts with it. *)
Definition apple_boot_contains_boot_arg (boot_args : option bytes) (arg : bytes) (match_prefix : bool) : bool :=
  match boot_args with
  | None => false
  | Some args => existsb (fun token => (match_prefix && is_prefix arg token) || bool_decide (token = arg)) (strsep_all 32 args)
  end.

(** The arguments fill less than a page, in both revisions, and the command line is a
    string that ends inside its field. *)
Lemma bootargs_size build_version addr a : zlen (snd (apple_boot_setup_bootargs build_version addr a)) <= 1152.
Proof.
  assert (Hs : forall n s, (1 <= n)%nat -> length (strlcpy n s) = n).
  { intros n s Hn. unfold strlcpy, strncpy. rewrite length_take, length_app, length_replicate. lia. }
  unfold apple_boot_setup_bootargs, apple_boot_setup_bootargs_rev2, apple_boot_setup_bootargs_rev3, encode_bootargs, encode_video, zlen.
  destruct (17 <=? _); cbn [snd]; rewrite !length_app, !length_le_split, !length_replicate;
    (destruct (cmdline a); [rewrite Hs by lia|rewrite length_replicate]; lia).
Qed.

Lemma strlcpy_ends n s : (1 <= n)%nat -> no_nul s -> c_string (strlcpy n s) = Done (take (n - 1) s).
Proof.
  intros Hn Hs. unfold strlcpy, strncpy.
  assert (Hl : (length (take (n - 1) s) <= n - 1)%nat) by (rewrite length_take; lia).
  rewrite take_app, take_ge by lia. destruct (n - length (take (n - 1) s))%nat as [|k] eqn:E; [lia|].
  rewrite take_replicate. replace (Nat.min (S k) n) with (S k) by lia. cbn [replicate]. apply c_string_app.
  by apply Forall_take.
Qed.
