(* ===== verification/Crc16.v ===== *)
(** * Checksum

    Model of [util/crc16.c]: the table-driven CRC-16 that guards the packets of the touch
    controller.  The table agrees with the polynomial, and a packet with its checksum
    behind it has the checksum zero. *)

From S2P Require Import Prelude.

Definition crc16_table : list Z :=
  [0x0000; 0xC0C1; 0xC181; 0x0140; 0xC301; 0x03C0; 0x0280; 0xC241; 0xC601; 0x06C0; 0x0780; 0xC741; 0x0500; 0xC5C1; 0xC481; 0x0440;
   0xCC01; 0x0CC0; 0x0D80; 0xCD41; 0x0F00; 0xCFC1; 0xCE81; 0x0E40; 0x0A00; 0xCAC1; 0xCB81; 0x0B40; 0xC901; 0x09C0; 0x0880; 0xC841;
   0xD801; 0x18C0; 0x1980; 0xD941; 0x1B00; 0xDBC1; 0xDA81; 0x1A40; 0x1E00; 0xDEC1; 0xDF81; 0x1F40; 0xDD01; 0x1DC0; 0x1C80; 0xDC41;
   0x1400; 0xD4C1; 0xD581; 0x1540; 0xD701; 0x17C0; 0x1680; 0xD641; 0xD201; 0x12C0; 0x1380; 0xD341; 0x1100; 0xD1C1; 0xD081; 0x1040;
   0xF001; 0x30C0; 0x3180; 0xF141; 0x3300; 0xF3C1; 0xF281; 0x3240; 0x3600; 0xF6C1; 0xF781; 0x3740; 0xF501; 0x35C0; 0x3480; 0xF441;
   0x3C00; 0xFCC1; 0xFD81; 0x3D40; 0xFF01; 0x3FC0; 0x3E80; 0xFE41; 0xFA01; 0x3AC0; 0x3B80; 0xFB41; 0x3900; 0xF9C1; 0xF881; 0x3840;
   0x2800; 0xE8C1; 0xE981; 0x2940; 0xEB01; 0x2BC0; 0x2A80; 0xEA41; 0xEE01; 0x2EC0; 0x2F80; 0xEF41; 0x2D00; 0xEDC1; 0xEC81; 0x2C40;
   0xE401; 0x24C0; 0x2580; 0xE541; 0x2700; 0xE7C1; 0xE681; 0x2640; 0x2200; 0xE2C1; 0xE381; 0x2340; 0xE101; 0x21C0; 0x2080; 0xE041;
   0xA001; 0x60C0; 0x6180; 0xA141; 0x6300; 0xA3C1; 0xA281; 0x6240; 0x6600; 0xA6C1; 0xA781; 0x6740; 0xA501; 0x65C0; 0x6480; 0xA441;
   0x6C00; 0xACC1; 0xAD81; 0x6D40; 0xAF01; 0x6FC0; 0x6E80; 0xAE41; 0xAA01; 0x6AC0; 0x6B80; 0xAB41; 0x6900; 0xA9C1; 0xA881; 0x6840;
   0x7800; 0xB8C1; 0xB981; 0x7940; 0xBB01; 0x7BC0; 0x7A80; 0xBA41; 0xBE01; 0x7EC0; 0x7F80; 0xBF41; 0x7D00; 0xBDC1; 0xBC81; 0x7C40;
   0xB401; 0x74C0; 0x7580; 0xB541; 0x7700; 0xB7C1; 0xB681; 0x7640; 0x7200; 0xB2C1; 0xB381; 0x7340; 0xB101; 0x71C0; 0x7080; 0xB041;
   0x5000; 0x90C1; 0x9181; 0x5140; 0x9301; 0x53C0; 0x5280; 0x9241; 0x9601; 0x56C0; 0x5780; 0x9741; 0x5500; 0x95C1; 0x9481; 0x5440;
   0x9C01; 0x5CC0; 0x5D80; 0x9D41; 0x5F00; 0x9FC1; 0x9E81; 0x5E40; 0x5A00; 0x9AC1; 0x9B81; 0x5B40; 0x9901; 0x59C0; 0x5880; 0x9841;
   0x8801; 0x48C0; 0x4980; 0x8941; 0x4B00; 0x8BC1; 0x8A81; 0x4A40; 0x4E00; 0x8EC1; 0x8F81; 0x4F40; 0x8D01; 0x4DC0; 0x4C80; 0x8C41;
   0x4400; 0x84C1; 0x8581; 0x4540; 0x8701; 0x47C0; 0x4680; 0x8641; 0x8201; 0x42C0; 0x4380; 0x8341; 0x4100; 0x81C1; 0x8081; 0x4040].

Definition crc16_byte (crc data : Z) : outcome Z :=
  t ← aget crc16_table ((crc .^ data) .& 0xFF);
  mret (u16 ((crc .>> 8) .^ t)).

Fixpoint crc16 (crc : Z) (buffer : list Z) : outcome Z :=
  match buffer with
  | [] => mret crc
  | b :: buffer => crc ← crc16_byte crc b; crc16 crc buffer
  end.

(** ** The polynomial *)

(** One bit: a shift, and the reversed polynomial if a one leaves. *)
Definition crc_bit (c : Z) : Z := if Z.testbit c 0 then (c .>> 1) .^ 0xA001 else c .>> 1.

Definition crc_bits (c : Z) : Z := Nat.iter 8 crc_bit c.

(** The checksum of a message, a byte at a time, least significant bit first. *)
Definition crc_ref (crc : Z) (msg : list Z) : Z := foldl (fun c b => crc_bits (c .^ b)) crc msg.

Lemma crc_bit_xor a b : 0 <= a -> 0 <= b -> crc_bit (a .^ b) = crc_bit a .^ crc_bit b.
Proof.
  intros Ha Hb. unfold crc_bit. rewrite Z.lxor_spec, Z.shiftr_lxor.
  destruct (Z.testbit a 0), (Z.testbit b 0); cbn [xorb]; apply Z.bits_inj'; intros n Hn; rewrite !Z.lxor_spec;
    destruct (Z.testbit (a .>> 1) n), (Z.testbit (b .>> 1) n), (Z.testbit 0xA001 n); done.
Qed.

Lemma crc_bit_nonneg a : 0 <= a -> 0 <= crc_bit a.
Proof.
  intros Ha. assert (0 <= a .>> 1) by by apply Z.shiftr_nonneg. unfold crc_bit. destruct (Z.testbit a 0); [|done]. by apply Z.lxor_nonneg.
Qed.

Lemma crc_bits_xor a b : 0 <= a -> 0 <= b -> crc_bits (a .^ b) = crc_bits a .^ crc_bits b.
Proof.
  intros Ha Hb. unfold crc_bits.
  enough (H : forall n, Nat.iter n crc_bit (a .^ b) = Nat.iter n crc_bit a .^ Nat.iter n crc_bit b /\
    0 <= Nat.iter n crc_bit a /\ 0 <= Nat.iter n crc_bit b) by apply H.
  induction n as [|n (E & H1 & H2)]; [done|]. cbn [Nat.iter nat_rect]. split_and!; [|by apply crc_bit_nonneg..].
  etransitivity; [apply (f_equal crc_bit E)|by apply crc_bit_xor].
Qed.

(** A byte that is shifted out is all that is left of the upper byte. *)
Lemma crc_bits_high h : crc_bits (h .<< 8) = h.
Proof.
  assert (E : forall n, 0 <= n -> crc_bit (h .<< (n + 1)) = h .<< n).
  { intros n Hn. unfold crc_bit. rewrite Z.shiftl_spec_low by lia. rewrite Z.shiftr_shiftl_l by lia. f_equal. lia. }
  unfold crc_bits. cbn [Nat.iter nat_rect].
  rewrite (E 7 ltac:(done) : crc_bit (h .<< 8) = _), (E 6 ltac:(done) : crc_bit (h .<< 7) = _), (E 5 ltac:(done) : crc_bit (h .<< 6) = _),
    (E 4 ltac:(done) : crc_bit (h .<< 5) = _), (E 3 ltac:(done) : crc_bit (h .<< 4) = _), (E 2 ltac:(done) : crc_bit (h .<< 3) = _),
    (E 1 ltac:(done) : crc_bit (h .<< 2) = _), (E 0 ltac:(done) : crc_bit (h .<< 1) = _). by rewrite Z.shiftl_0_r.
Qed.

Lemma crc16_table_bits : forallb (fun i => match crc16_table !! i with Some t => t =? crc_bits (Z.of_nat i) | None => false end) (seq 0 256) = true.
Proof. vm_compute. reflexivity. Qed.

Lemma crc16_table_spec i : 0 <= i < 256 -> aget crc16_table i = Done (crc_bits i).
Proof.
  intros Hi. pose proof (proj1 (forallb_forall _ _) crc16_table_bits (Z.to_nat i)) as H.
  rewrite in_seq in H. specialize (H ltac:(lia)). unfold aget. destruct (Z.leb_spec 0 i); [|lia].
  destruct (crc16_table !! Z.to_nat i) as [t|]; [|done]. apply Z.eqb_eq in H as ->. do 2 f_equal. lia.
Qed.

Lemma split_byte x : 0 <= x -> x = ((x .>> 8) .<< 8) .^ (x .& 0xFF).
Proof.
  intros Hx. change 0xFF with (Z.ones 8). apply Z.bits_inj'. intros n Hn. rewrite Z.lxor_spec, Z.land_spec, Z.testbit_ones_nonneg by lia.
  destruct (Z.ltb_spec n 8).
  - rewrite Z.shiftl_spec_low by lia. by rewrite andb_true_r.
  - rewrite Z.shiftl_spec, Z.shiftr_spec by lia. replace (n - 8 + 8) with n by lia. by rewrite andb_false_r, xorb_false_r.
Qed.

Lemma crc_bits_spec x : 0 <= x -> crc_bits x = (x .>> 8) .^ crc_bits (x .& 0xFF).
Proof.
  intros Hx. assert (0 <= x .>> 8) by by apply Z.shiftr_nonneg.
  rewrite (split_byte x Hx) at 1. rewrite crc_bits_xor, crc_bits_high; [done|by apply Z.shiftl_nonneg|apply Z.land_nonneg; by right].
Qed.

Lemma byte_high b : in_width 8 b -> b .>> 8 = 0.
Proof. unfold in_width. intros Hb. rewrite Z.shiftr_div_pow2 by done. by apply Z.div_small. Qed.

Lemma crc_bits_width x : in_width 16 x -> in_width 16 (crc_bits x).
Proof.
  intros Hx. rewrite crc_bits_spec by (unfold in_width in *; lia).
  assert (Hl : 0 <= x .& 0xFF < 256).
  { change 0xFF with (Z.ones 8). rewrite Z.land_ones by done. by apply Z.mod_pos_bound. }
  assert (Ht : in_width 16 (crc_bits (x .& 0xFF))).
  { pose proof (crc16_table_spec _ Hl) as E. revert E. generalize (x .& 0xFF) (crc_bits (x .& 0xFF)). intros i t E.
    apply aget_Done in E as [_ E]. assert (Hall : Forall (fun t => 0 <= t < 2 ^ 16) crc16_table).
    { apply (Forall_impl (fun t => (0 <=? t) && (t <? 2 ^ 16) = true)); [|intros; lia].
      apply Forall_forall. intros b Hin%list_elem_of_In. revert b Hin. apply forallb_forall. vm_compute. reflexivity. }
    exact (proj1 (Forall_lookup _ _) Hall _ _ E). }
  assert (Hh : in_width 16 (x .>> 8)).
  { unfold in_width in *. rewrite Z.shiftr_div_pow2 by done. split; [apply Z.div_pos; lia|apply Z.div_lt_upper_bound; lia]. }
  apply in_width_iff; [done|]. apply in_width_iff in Ht as [Ht0 Ht]; [|done]. apply in_width_iff in Hh as [Hh0 Hh]; [|done].
  split; [by apply Z.lxor_nonneg|]. intros n Hn. rewrite Z.lxor_spec, Ht, Hh by done. done.
Qed.

Lemma xor_width w a b : 0 <= w -> in_width w a -> in_width w b -> in_width w (a .^ b).
Proof.
  intros Hw Ha Hb. apply in_width_iff in Ha as [Ha0 Ha]; [|done]. apply in_width_iff in Hb as [Hb0 Hb]; [|done].
  apply in_width_iff; [done|]. split; [by apply Z.lxor_nonneg|]. intros n Hn. by rewrite Z.lxor_spec, Ha, Hb.
Qed.

Lemma crc16_byte_spec crc b : in_width 16 crc -> in_width 8 b -> crc16_byte crc b = Done (crc_bits (crc .^ b)).
Proof.
  intros Hc Hb. assert (Hx : in_width 16 (crc .^ b)) by (apply xor_width; [done..|unfold in_width in *; lia]).
  unfold crc16_byte. rewrite crc16_table_spec.
  - run. unfold mret, outcome_ret. f_equal. rewrite (crc_bits_spec (crc .^ b)) by (unfold in_width in *; lia).
    rewrite Z.shiftr_lxor, (byte_high b Hb), Z.lxor_0_r. apply wrap_small.
    pose proof (crc_bits_width _ Hx) as Hw. rewrite crc_bits_spec in Hw by (unfold in_width in *; lia).
    by rewrite Z.shiftr_lxor, (byte_high b Hb), Z.lxor_0_r in Hw.
  - change 0xFF with (Z.ones 8). rewrite Z.land_ones by done. by apply Z.mod_pos_bound.
Qed.

Lemma crc16_ref msg : forall crc, in_width 16 crc -> Forall (in_width 8) msg ->
  crc16 crc msg = Done (crc_ref crc msg) /\ in_width 16 (crc_ref crc msg).
Proof.
  induction msg as [|b msg IH]; intros crc Hc Hm; [done|]. apply Forall_cons in Hm as [Hb Hm]. cbn [crc16 crc_ref foldl].
  rewrite crc16_byte_spec by done. run. apply IH; [|done]. apply crc_bits_width, xor_width; [done..|unfold in_width in *; lia].
Qed.

Lemma crc_ref_app a b crc : crc_ref crc (a ++ b) = crc_ref (crc_ref crc a) b.
Proof. apply foldl_app. Qed.

(** A checksum that is run through the checksum leaves nothing. *)
Lemma crc_ref_self c : in_width 16 c -> crc_ref c (le_split 2 c) = 0.
Proof.
  intros Hc. unfold in_width in Hc. assert (H0 : 0 <= c) by lia. cbn [le_split crc_ref foldl].
  rewrite (split_byte c H0) at 1. rewrite Z.lxor_assoc, Z.lxor_nilpotent, Z.lxor_0_r, crc_bits_high.
  assert (Hb : 0 <= c .>> 8 < 2 ^ 8).
  { rewrite Z.shiftr_div_pow2 by done. split; [apply Z.div_pos; lia|apply Z.div_lt_upper_bound; lia]. }
  change 0xFF with (Z.ones 8). rewrite (Z.land_ones (c .>> 8)), (Z.mod_small (c .>> 8)), Z.lxor_nilpotent by lia. done.
Qed.

(** C40: The table-driven checksum is the polynomial one: for every message of bytes and
    every start value no lookup leaves the table, and the result is that of shifting the
    message through the reversed polynomial 0xA001 bit by bit.  Of a message followed by
    its checksum, low byte first, the checksum is zero. *)
Theorem crc16_spec crc msg : in_width 16 crc -> Forall (in_width 8) msg ->
  crc16 crc msg = Done (crc_ref crc msg) /\ crc16 crc (msg ++ le_split 2 (crc_ref crc msg)) = Done 0.
Proof.
  intros Hc Hm. destruct (crc16_ref msg crc Hc Hm) as [E Hw]. split; [done|].
  destruct (crc16_ref (msg ++ le_split 2 (crc_ref crc msg)) crc Hc) as [-> _].
  - apply Forall_app. split; [done|apply le_split_bytes].
  - by rewrite crc_ref_app, crc_ref_self.
Qed.

Lemma crc16_spec_witness :
  crc16 0 [0x31; 0x32; 0x33] = Done (crc_ref 0 [0x31; 0x32; 0x33]) /\
  crc16 0 ([0x31; 0x32; 0x33] ++ le_split 2 (crc_ref 0 [0x31; 0x32; 0x33])) = Done 0.
Proof. apply crc16_spec; [done|by repeat apply Forall_cons_2]. Defined.
