(* ===== verification/MtSpi.v ===== *)
(** * Touch controller

    Model of [hw/arm/apple-silicon/mt-spi.c]: the multi-touch controller on the SPI bus,
    with its two protocols, HBPP while it boots and link-layer packets afterwards, and
    the touches that become packets. *)

From S2P Require Import Prelude CString HostMem Patcher Crc16.

(** ** Buffers

    The bytes that are written, the size of the allocation and the position of the
    next byte that is taken.  The data pointer is null while nothing is allocated. *)
Record AppleMTSPIBuffer := mkBuf {
  data : bytes;
  capacity : Z;
  read_pos : Z;
}.
#[global] Instance eta_AppleMTSPIBuffer : Eta AppleMTSPIBuffer := fun b => mkBuf (data b) (capacity b) (read_pos b).

Definition apple_mt_spi_buf_free : AppleMTSPIBuffer := mkBuf [] 0 0.

Definition len (buf : AppleMTSPIBuffer) : Z := zlen (data buf).

Definition apple_mt_spi_buf_ensure_capacity (buf : AppleMTSPIBuffer) (n : Z) : AppleMTSPIBuffer :=
  if capacity buf <? len buf + n then buf <| capacity := u32 (len buf + n) |> else buf.

Definition apple_mt_spi_buf_set_capacity (buf : AppleMTSPIBuffer) (c : Z) : outcome AppleMTSPIBuffer :=
  c_assert (capacity buf <=? c);; mret (buf <| capacity := u32 c |>).

(** A write behind the data. *)
Definition put (buf : AppleMTSPIBuffer) (bs : bytes) : outcome AppleMTSPIBuffer :=
  if len buf + zlen bs <=? capacity buf then mret (buf <| data ::= fun d => d ++ bs |>) else Oob.

Definition push (buf : AppleMTSPIBuffer) (bs : bytes) : outcome AppleMTSPIBuffer :=
  put (apple_mt_spi_buf_ensure_capacity buf (zlen bs)) bs.

Definition apple_mt_spi_buf_set_len (buf : AppleMTSPIBuffer) (val n : Z) : outcome AppleMTSPIBuffer :=
  c_assert (len buf <=? n);; push buf (replicate (Z.to_nat (n - len buf)) val).

Definition apple_mt_spi_buf_is_empty (buf : AppleMTSPIBuffer) : bool := len buf =? 0.

Definition apple_mt_spi_buf_get_pos (buf : AppleMTSPIBuffer) : outcome Z :=
  c_assert (negb (apple_mt_spi_buf_is_empty buf));; mret (len buf - 1).

Definition apple_mt_spi_buf_is_full (buf : AppleMTSPIBuffer) : bool :=
  negb (apple_mt_spi_buf_is_empty buf) && (len buf =? capacity buf).

Definition apple_mt_spi_buf_pos_at_start (buf : AppleMTSPIBuffer) : outcome bool :=
  pos ← apple_mt_spi_buf_get_pos buf; mret (pos =? 0).

Definition apple_mt_spi_buf_push_byte (buf : AppleMTSPIBuffer) (val : Z) := push buf (le_split 1 val).
Definition apple_mt_spi_buf_push_word (buf : AppleMTSPIBuffer) (val : Z) := push buf (le_split 2 val).
Definition apple_mt_spi_buf_push_dword (buf : AppleMTSPIBuffer) (val : Z) := push buf (le_split 4 val).

Definition apple_mt_spi_buf_push_crc16 (buf : AppleMTSPIBuffer) : outcome AppleMTSPIBuffer :=
  c_assert (negb (apple_mt_spi_buf_is_empty buf));;
  crc ← crc16 0 (data buf);
  apple_mt_spi_buf_push_word buf crc.

(** The other buffer is freed. *)
Definition apple_mt_spi_buf_append (buf other_buf : AppleMTSPIBuffer) : outcome AppleMTSPIBuffer :=
  if apple_mt_spi_buf_is_empty other_buf then mret buf else push buf (data other_buf).

Definition apple_mt_spi_buf_pop (buf : AppleMTSPIBuffer) : outcome (Z * AppleMTSPIBuffer) :=
  if apple_mt_spi_buf_is_empty buf then mret (0, buf)
  else
    c_assert (nonzero (capacity buf));; c_assert (read_pos buf <? len buf);;
    ret ← aget (data buf) (read_pos buf);
    if (u32 (read_pos buf + 1) =? len buf) || apple_mt_spi_buf_is_empty buf then mret (ret, apple_mt_spi_buf_free)
    else mret (ret, buf <| read_pos ::= fun p => u32 (p + 1) |>).

Definition apple_mt_spi_buf_read_byte (buf : AppleMTSPIBuffer) (off : Z) : outcome Z :=
  c_assert (nonzero (capacity buf));; c_assert (off <? len buf);; aget (data buf) off.

Definition apple_mt_spi_buf_read_word (buf : AppleMTSPIBuffer) (off : Z) : outcome Z :=
  c_assert (nonzero (capacity buf));; c_assert (off + 2 <? len buf);;
  bs ← slice (data buf) off 2; mret (le_combine (rev bs)).

(** ** State *)

Record AppleMTSPILLPacket := mkPacket {
  buf : AppleMTSPIBuffer;
  type : Z;
}.
#[global] Instance eta_AppleMTSPILLPacket : Eta AppleMTSPILLPacket := fun p => mkPacket (buf p) (type p).

(** [irq] is the level of the line, low when the controller wants attention; the timers
    hold the time they are set to; [updates] are the touch updates that wait for the
    main loop, with their times and stages. *)
Record AppleMTSPIState := mkMT {
  irq : bool;
  tx : AppleMTSPIBuffer;
  rx : AppleMTSPIBuffer;
  pending_hbpp : AppleMTSPIBuffer;
  pending_fw : list AppleMTSPILLPacket;
  frame : Z;
  timer : option Z;
  end_timer : option Z;
  x : Z;
  y : Z;
  prev_x : Z;
  prev_y : Z;
  prev_ts : Z;
  btn_state : Z;
  prev_btn_state : Z;
  display_width : Z;
  display_height : Z;
  updates : list (Z * Z);
}.
#[global] Instance eta_AppleMTSPIState : Eta AppleMTSPIState := fun s =>
  mkMT (irq s) (tx s) (rx s) (pending_hbpp s) (pending_fw s) (frame s) (timer s) (end_timer s) (x s) (y s) (prev_x s) (prev_y s)
    (prev_ts s) (btn_state s) (prev_btn_state s) (display_width s) (display_height s) (updates s).

(** ** HBPP *)

Definition HBPP_PACKET_RESET : Z := 0x00.
Definition HBPP_PACKET_NOP : Z := 0x18.
Definition HBPP_PACKET_INT_ACK : Z := 0x1A.
Definition HBPP_PACKET_MEM_READ : Z := 0x1C.
Definition HBPP_PACKET_MEM_RMW : Z := 0x1E.
Definition HBPP_PACKET_REQ_CAL : Z := 0x1F.
Definition HBPP_PACKET_DATA : Z := 0x30.
Definition HBPP_PACKET_REQ_BOOT : Z := 0x011F.
Definition HBPP_PACKET_ACK_RD_REQ : Z := 0x394C.
Definition HBPP_PACKET_ACK_NOP : Z := 0x7948.
Definition HBPP_PACKET_CAL_DONE : Z := 0x6949.
Definition HBPP_PACKET_ACK_DATA : Z := 0xC14B.
Definition HBPP_PACKET_ACK_WR_REQ : Z := 0xD14A.

Definition apple_mt_spi_push_pending_hbpp_word (s : AppleMTSPIState) (val : Z) : outcome AppleMTSPIState :=
  b ← apple_mt_spi_buf_push_word (pending_hbpp s) val; mret (s <| pending_hbpp := b |> <| irq := false |>).

Definition apple_mt_spi_push_pending_hbpp_dword (s : AppleMTSPIState) (val : Z) : outcome AppleMTSPIState :=
  b ← apple_mt_spi_buf_push_dword (pending_hbpp s) val; mret (s <| pending_hbpp := b |> <| irq := false |>).

Definition apple_mt_spi_hbpp_packet_hdr_len (val : Z) : Z :=
  if val =? HBPP_PACKET_RESET then 0x4
  else if val =? HBPP_PACKET_NOP then 0x2
  else if val =? HBPP_PACKET_INT_ACK then 0x2
  else if val =? HBPP_PACKET_MEM_READ then 0x8
  else if val =? HBPP_PACKET_MEM_RMW then 0x10
  else if val =? HBPP_PACKET_REQ_CAL then 0x2
  else if val =? HBPP_PACKET_DATA then 0xA
  else 0x2.

Definition apple_mt_spi_handle_hbpp_data (s : AppleMTSPIState) : outcome AppleMTSPIState :=
  if negb (apple_mt_spi_buf_is_full (rx s)) then mret s
  else
    w ← apple_mt_spi_buf_read_word (rx s) 2;
    let payload_len := u16 (w * 4) in
    let new_rx_capacity := u16 (apple_mt_spi_hbpp_packet_hdr_len HBPP_PACKET_DATA + payload_len + 4) in
    if capacity (rx s) =? new_rx_capacity then apple_mt_spi_push_pending_hbpp_word s HBPP_PACKET_ACK_DATA
    else b ← apple_mt_spi_buf_set_capacity (rx s) new_rx_capacity; mret (s <| rx := b |>).

Definition apple_mt_spi_handle_hbpp_mem_rmw (s : AppleMTSPIState) : outcome AppleMTSPIState :=
  if apple_mt_spi_buf_is_full (rx s) then apple_mt_spi_push_pending_hbpp_word s HBPP_PACKET_ACK_WR_REQ else mret s.

Definition hbpp_packet (s : AppleMTSPIState) (packet_type : Z) (at_start : bool) : outcome AppleMTSPIState :=
  if packet_type =? HBPP_PACKET_RESET then
    if apple_mt_spi_buf_is_full (rx s) then apple_mt_spi_push_pending_hbpp_word s HBPP_PACKET_REQ_BOOT else mret s
  else if packet_type =? HBPP_PACKET_NOP then
    if at_start && apple_mt_spi_buf_is_empty (tx s) then
      b ← apple_mt_spi_buf_push_word (tx s) HBPP_PACKET_ACK_NOP; mret (s <| tx := b |>)
    else mret s
  else if packet_type =? HBPP_PACKET_INT_ACK then
    if at_start then
      b ← apple_mt_spi_buf_append (tx s) (pending_hbpp s);
      mret (s <| tx := b |> <| pending_hbpp := apple_mt_spi_buf_free |>)
    else mret s
  else if packet_type =? HBPP_PACKET_MEM_READ then
    if at_start then
      let s := s <| pending_hbpp ::= fun b => apple_mt_spi_buf_ensure_capacity b (2 + 4 + 2) |> in
      s ← apple_mt_spi_push_pending_hbpp_word s HBPP_PACKET_ACK_RD_REQ;
      s ← apple_mt_spi_push_pending_hbpp_dword s 0;
      apple_mt_spi_push_pending_hbpp_word s 0
    else mret s
  else if packet_type =? HBPP_PACKET_MEM_RMW then apple_mt_spi_handle_hbpp_mem_rmw s
  else if packet_type =? HBPP_PACKET_REQ_CAL then
    if at_start then apple_mt_spi_push_pending_hbpp_word s HBPP_PACKET_CAL_DONE else mret s
  else if packet_type =? HBPP_PACKET_DATA then apple_mt_spi_handle_hbpp_data s
  else mret s.

Definition apple_mt_spi_handle_hbpp (s : AppleMTSPIState) : outcome AppleMTSPIState :=
  packet_type ← apple_mt_spi_buf_read_byte (rx s) 0;
  at_start ← apple_mt_spi_buf_pos_at_start (rx s);
  s ← (if at_start : bool then
         b ← apple_mt_spi_buf_set_capacity (rx s) (apple_mt_spi_hbpp_packet_hdr_len packet_type); mret (s <| rx := b |>)
       else mret s);
  hbpp_packet s packet_type at_start.

(** ** Link-layer packets *)

Definition LL_PACKET_PREAMBLE : Z := 0xDEADBEEF.
Definition LL_PACKET_LEN : Z := 0x204.
Definition LL_PACKET_LOSSLESS_OUTPUT : Z := 0x10.
Definition LL_PACKET_CONTROL : Z := 0x40.
Definition LL_PACKET_NO_DATA : Z := 0x80.
Definition LL_PACKET_ERROR : Z := 0xB3655245.
Definition LL_PACKET_ACK : Z := 0xD56827AC.
Definition LL_PACKET_NAK : Z := 0xE4FB139.
Definition LL_PACKET_BUSY : Z := 0xF8E5179C.

Definition HID_CONTROL_PACKET_GET_FEATURE_REPORT : Z := 0x32.
Definition HID_CONTROL_PACKET_SET_OUTPUT_REPORT : Z := 0x51.
Definition HID_CONTROL_PACKET_SET_FEATURE_REPORT : Z := 0x52.
Definition HID_TRANSFER_PACKET_OUTPUT : Z := 0x20.
Definition HID_PACKET_STATUS_SUCCESS : Z := 0.
Definition HID_REPORT_BINARY_PATH_OR_IMAGE : Z := 0x44.
Definition HID_REPORT_SENSOR_REGION_PARAM : Z := 0xA1.
Definition HID_REPORT_SENSOR_REGION_DESC : Z := 0xD0.
Definition HID_REPORT_FAMILY_ID : Z := 0xD1.
Definition HID_REPORT_BASIC_DEVICE_INFO : Z := 0xD3.
Definition HID_REPORT_SENSOR_SURFACE_DESC : Z := 0xD9.
Definition MT_FAMILY_ID : Z := 0xC3.
Definition MT_LITTLE_ENDIAN : Z := 1.
Definition MT_ROWS : Z := 31.
Definition MT_COLUMNS : Z := 15.
Definition MT_BCD_VER : Z := 0x9202.
Definition MT_SENSOR_SURFACE_WIDTH : Z := 6458.
Definition MT_SENSOR_SURFACE_HEIGHT : Z := 13977.

(** Bytes and words pushed one after the other. *)
Fixpoint push_all (buf : AppleMTSPIBuffer) (l : list bytes) : outcome AppleMTSPIBuffer :=
  match l with [] => mret buf | bs :: l => buf ← push buf bs; push_all buf l end.

Local Abbreviation byte := (le_split 1).
Local Abbreviation word := (le_split 2).
Local Abbreviation dword := (le_split 4).

Definition apple_mt_spi_push_ll_hdr (buf : AppleMTSPIBuffer) (type interface payload_off payload_remaining payload_length : Z) :=
  push_all (apple_mt_spi_buf_ensure_capacity buf 8)
    [byte type; byte interface; word payload_off; word payload_remaining; word payload_length].

Definition apple_mt_spi_pad_ll_packet (buf : AppleMTSPIBuffer) := apple_mt_spi_buf_set_len buf 0 (LL_PACKET_LEN - 4 - 2).

Definition apple_mt_spi_push_no_data (buf : AppleMTSPIBuffer) : outcome AppleMTSPIBuffer :=
  buf ← apple_mt_spi_push_ll_hdr buf LL_PACKET_NO_DATA 0 0 0 0;
  buf ← apple_mt_spi_pad_ll_packet buf;
  apple_mt_spi_buf_push_crc16 buf.

Definition apple_mt_spi_ll_read_payload_byte (buf : AppleMTSPIBuffer) (off : Z) : outcome Z :=
  c_assert (negb (apple_mt_spi_buf_is_empty buf));; c_assert (4 + 8 + off + 1 <=? len buf);; aget (data buf) (4 + 8 + off).

Definition apple_mt_spi_push_hid_hdr (buf : AppleMTSPIBuffer) (type report_id packet_status frame_number length_requested payload_length : Z) :=
  push_all (apple_mt_spi_buf_ensure_capacity buf 8)
    [byte type; byte report_id; byte packet_status; byte frame_number; word length_requested; word payload_length].

Definition apple_mt_spi_push_report_hdr (buf : AppleMTSPIBuffer) (type report_id packet_status frame_number payload_length : Z) :=
  buf ← apple_mt_spi_push_hid_hdr (apple_mt_spi_buf_ensure_capacity buf 9) type report_id packet_status frame_number 0 (u16 (payload_length + 1));
  apple_mt_spi_buf_push_byte buf report_id.

Definition apple_mt_spi_push_report_byte (buf : AppleMTSPIBuffer) (type report_id packet_status frame_number val : Z) :=
  buf ← apple_mt_spi_push_report_hdr buf type report_id packet_status frame_number 1;
  apple_mt_spi_buf_push_byte buf val.

(** The size of the report with an identifier, and what it holds. *)
Definition feature_report (report_id : Z) : option (list bytes) :=
  if report_id =? HID_REPORT_FAMILY_ID then Some [byte MT_FAMILY_ID]
  else if report_id =? HID_REPORT_BASIC_DEVICE_INFO then Some [byte MT_LITTLE_ENDIAN; byte MT_ROWS; byte MT_COLUMNS; word MT_BCD_VER]
  else if report_id =? HID_REPORT_SENSOR_SURFACE_DESC then
    Some [dword MT_SENSOR_SURFACE_WIDTH; dword MT_SENSOR_SURFACE_HEIGHT; word 0; word 0; word MT_SENSOR_SURFACE_WIDTH; word MT_SENSOR_SURFACE_HEIGHT]
  else if report_id =? HID_REPORT_SENSOR_REGION_PARAM then Some [word 0x0; word 0x7; word 0x200]
  else if report_id =? HID_REPORT_SENSOR_REGION_DESC then
    Some (byte <$> [3; 1; 0; 30; 1; 0; 14; 0; 8; 0; 30; 1; 14; 1; 0; 11; 30; 1; 1; 0; 15; 0])
  else None.

(** The report, with its header. *)
Definition report_packet (report_id frame_number : Z) : outcome AppleMTSPIBuffer :=
  match feature_report report_id with
  | Some report =>
      b ← apple_mt_spi_push_report_hdr (apple_mt_spi_buf_ensure_capacity apple_mt_spi_buf_free (9 + zlen (concat report) + 2))
            HID_CONTROL_PACKET_SET_OUTPUT_REPORT report_id HID_PACKET_STATUS_SUCCESS frame_number (zlen (concat report));
      push_all b report
  | None =>
      apple_mt_spi_push_report_byte apple_mt_spi_buf_free HID_CONTROL_PACKET_SET_OUTPUT_REPORT report_id
        HID_PACKET_STATUS_SUCCESS frame_number 0
  end.

Definition apple_mt_spi_handle_get_feature (s : AppleMTSPIState) : outcome AppleMTSPIState :=
  report_id ← apple_mt_spi_ll_read_payload_byte (rx s) 1;
  frame_number ← apple_mt_spi_ll_read_payload_byte (rx s) 3;
  b ← report_packet report_id frame_number;
  b ← apple_mt_spi_buf_push_crc16 b;
  mret (s <| pending_fw ::= fun l => l ++ [mkPacket b LL_PACKET_CONTROL] |>).

Definition apple_mt_spi_handle_set_feature (s : AppleMTSPIState) : outcome AppleMTSPIState :=
  report_id ← apple_mt_spi_ll_read_payload_byte (rx s) 1;
  frame_number ← apple_mt_spi_ll_read_payload_byte (rx s) 3;
  b ← apple_mt_spi_push_hid_hdr apple_mt_spi_buf_free HID_CONTROL_PACKET_SET_OUTPUT_REPORT report_id
        HID_PACKET_STATUS_SUCCESS frame_number 0 0;
  b ← apple_mt_spi_buf_push_crc16 b;
  mret (s <| pending_fw ::= fun l => l ++ [mkPacket b LL_PACKET_CONTROL] |>).

Definition apple_mt_spi_handle_control (s : AppleMTSPIState) : outcome AppleMTSPIState :=
  type ← apple_mt_spi_ll_read_payload_byte (rx s) 0;
  if type =? HID_CONTROL_PACKET_GET_FEATURE_REPORT then apple_mt_spi_handle_get_feature s
  else if type =? HID_CONTROL_PACKET_SET_FEATURE_REPORT then apple_mt_spi_handle_set_feature s
  else mret s.

(** The packet that answers: the first that waits, or one without data. *)
Definition answer_packet (s : AppleMTSPIState) : outcome (AppleMTSPIBuffer * list AppleMTSPILLPacket) :=
  match pending_fw s with
  | [] => b ← apple_mt_spi_push_no_data apple_mt_spi_buf_free; mret (b, [])
  | packet :: rest =>
      b ← apple_mt_spi_push_ll_hdr apple_mt_spi_buf_free (type packet) 0 0 0 (len (buf packet));
      b ← apple_mt_spi_buf_append b (buf packet);
      b ← apple_mt_spi_pad_ll_packet b;
      b ← apple_mt_spi_buf_push_crc16 b;
      mret (b, rest)
  end.

Definition apple_mt_spi_handle_fw_packet (s : AppleMTSPIState) : outcome AppleMTSPIState :=
  pos ← apple_mt_spi_buf_get_pos (rx s);
  s ← (if pos =? 4 then
         r ← apple_mt_spi_buf_set_capacity (rx s) LL_PACKET_LEN;
         '(b, rest) ← answer_packet s;
         t ← apple_mt_spi_buf_append (tx s) b;
         mret (s <| rx := r |> <| pending_fw := rest |> <| tx := t |>)
       else mret s);
  if negb (apple_mt_spi_buf_is_full (rx s)) then mret s
  else
    packet_type ← apple_mt_spi_buf_read_byte (rx s) 4;
    if packet_type =? LL_PACKET_CONTROL then apple_mt_spi_handle_control s else mret s.

(** The first byte of one of the four acknowledgements. *)
Definition is_status (packet_type : Z) : bool :=
  (packet_type =? LL_PACKET_ERROR .& 0xFF) || (packet_type =? LL_PACKET_ACK .& 0xFF) ||
  (packet_type =? LL_PACKET_NAK .& 0xFF) || (packet_type =? LL_PACKET_BUSY .& 0xFF).

Definition apple_mt_spi_handle_fw (s : AppleMTSPIState) : outcome AppleMTSPIState :=
  at_start ← apple_mt_spi_buf_pos_at_start (rx s);
  s ← (if at_start : bool then
         r ← apple_mt_spi_buf_set_capacity (rx s) 8;
         t ← apple_mt_spi_buf_push_dword (tx s) LL_PACKET_PREAMBLE;
         mret (s <| rx := r |> <| tx := t |>)
       else mret s);
  pos ← apple_mt_spi_buf_get_pos (rx s);
  if pos <? 4 then mret s
  else
    packet_type ← apple_mt_spi_buf_read_byte (rx s) 4;
    if is_status packet_type then
      pos ← apple_mt_spi_buf_get_pos (rx s);
      if pos =? 4 then t ← apple_mt_spi_buf_push_dword (tx s) LL_PACKET_ACK; mret (s <| tx := t |>) else mret s
    else apple_mt_spi_handle_fw_packet s.

(** ** A byte on the bus *)

Definition apple_mt_spi_transfer (s : AppleMTSPIState) (val : Z) : outcome (AppleMTSPIState * Z) :=
  r ← apple_mt_spi_buf_push_byte (rx s) (u8 val);
  let s := s <| rx := r |> in
  first ← apple_mt_spi_buf_read_byte (rx s) 0;
  s ← (if first =? LL_PACKET_PREAMBLE .& 0xFF then apple_mt_spi_handle_fw s else apple_mt_spi_handle_hbpp s);
  let s := if apple_mt_spi_buf_is_full (rx s) then s <| rx := apple_mt_spi_buf_free |> else s in
  '(ret, t) ← apple_mt_spi_buf_pop (tx s);
  let s := s <| tx := t |> in
  let idle := apple_mt_spi_buf_is_empty (pending_hbpp s) && match pending_fw s with [] => true | _ => false end in
  mret (s <| irq := idle |>, ret).

(** ** Touches *)

Definition PATH_STAGE_MAKE_TOUCH : Z := 3.
Definition PATH_STAGE_TOUCHING : Z := 4.
Definition PATH_STAGE_BREAK_TOUCH : Z := 5.
Definition PATH_STAGE_OUT_OF_RANGE : Z := 7.
Definition SCALE_MS : Z := 1000000.
Definition INPUT_EVENT_ABS_MIN : Z := 0.
Definition INPUT_EVENT_ABS_MAX : Z := 0x7FFF.
Definition MOUSE_EVENT_LBUTTON : Z := 1.

(** A value kept in a signed integer of [w] bits. *)
Definition sint (w v : Z) : Z := let v := wrap w v in if v <? 2 ^ (w - 1) then v else v - 2 ^ w.

(** The speed along an axis, in the arithmetic of 64 bits. *)
Definition speed (delta ts_delta : Z) : Z := u64 (Z.abs delta / ts_delta * 1000).

Definition path_report (s : AppleMTSPIState) (ts path_stage vx vy : Z) : list bytes :=
  [byte (frame s); byte 28; byte 0; dword (ts / SCALE_MS); byte 0; byte 0; byte 0; byte 0; word 0; word 0; byte 1; byte 20;
   word 0; word 0; word 0; byte 0; byte 0; byte 0; byte 0;
   byte 1; byte path_stage; byte 1; byte 1; word (x s); word (y s); word vx; word vy; word 660; word 580; word 19317; word 100].

Definition apple_mt_spi_send_path_update (s : AppleMTSPIState) (ts path_stage : Z) : outcome AppleMTSPIState :=
  let ts_delta := Z.max (u64 (ts - prev_ts s)) 1 in
  let s := s <| prev_ts := ts |> in
  let x_delta := sint 32 (x s - prev_x s) in
  let y_delta := sint 32 (y s - prev_y s) in
  b ← apple_mt_spi_push_report_hdr (apple_mt_spi_buf_ensure_capacity apple_mt_spi_buf_free (9 + 27 + 20 + 2))
        HID_TRANSFER_PACKET_OUTPUT HID_REPORT_BINARY_PATH_OR_IMAGE HID_PACKET_STATUS_SUCCESS (frame s) (27 + 20);
  b ← push_all b (path_report s ts path_stage (speed x_delta ts_delta) (speed y_delta ts_delta));
  b ← apple_mt_spi_buf_push_crc16 b;
  let s := s <| frame := if frame s <? 0xFF then u8 (frame s + 1) else 0 |> in
  mret (s <| pending_fw ::= fun l => l ++ [mkPacket b LL_PACKET_LOSSLESS_OUTPUT] |> <| irq := false |>).

(** The main loop runs the oldest update that waits. *)
Definition apple_mt_spi_send_touch_update_bh (s : AppleMTSPIState) : outcome AppleMTSPIState :=
  match updates s with
  | [] => mret s
  | (ts, path_stage) :: rest => apple_mt_spi_send_path_update (s <| updates := rest |>) ts path_stage
  end.

Definition apple_mt_spi_schedule_touch_update (s : AppleMTSPIState) (now path_stage : Z) : AppleMTSPIState :=
  s <| updates ::= fun l => l ++ [(now, path_stage)] |>.

Definition apple_mt_spi_timer_tick (s : AppleMTSPIState) (now : Z) : AppleMTSPIState :=
  let s := if negb (prev_x s =? x s) || negb (prev_y s =? y s) then apple_mt_spi_schedule_touch_update s now PATH_STAGE_TOUCHING else s in
  if nonzero (btn_state s .& MOUSE_EVENT_LBUTTON) then s <| timer := Some (now + NANOSECONDS_PER_SECOND / 20) |> else s.

Definition apple_mt_spi_end_timer_tick (s : AppleMTSPIState) (now : Z) : AppleMTSPIState :=
  let s := apple_mt_spi_schedule_touch_update s now PATH_STAGE_OUT_OF_RANGE in
  s <| prev_ts := 0 |> <| prev_x := 0 |> <| prev_y := 0 |>.

(** [ui/input.c]; the division of C rounds to zero. *)
Definition qemu_input_scale_axis (value min_in max_in min_out max_out : Z) : Z :=
  let range_in := max_in - min_in in
  let range_out := max_out - min_out in
  if range_in <? 1 then sint 32 (min_out + Z.quot range_out 2)
  else sint 32 (Z.quot ((value - min_in) * range_out) range_in + min_out).

Definition apple_mt_spi_mouse_event (s : AppleMTSPIState) (now dx dy buttons_state : Z) : AppleMTSPIState :=
  let s := s <| prev_x := x s |> <| prev_y := y s |> in
  let s := s <| x := sint 16 (qemu_input_scale_axis dx INPUT_EVENT_ABS_MIN INPUT_EVENT_ABS_MAX 0 MT_SENSOR_SURFACE_WIDTH) |> in
  let s := s <| y := sint 16 (qemu_input_scale_axis (INPUT_EVENT_ABS_MAX - dy) INPUT_EVENT_ABS_MIN INPUT_EVENT_ABS_MAX 0 MT_SENSOR_SURFACE_HEIGHT) |> in
  let s := s <| y ::= fun y => sint 16 (y - qemu_input_scale_axis 16 0 (sint 32 (display_height s)) 0 MT_SENSOR_SURFACE_HEIGHT) |> in
  let s := s <| prev_btn_state := btn_state s |> <| btn_state := buttons_state |> in
  let was_down := nonzero (prev_btn_state s .& MOUSE_EVENT_LBUTTON) in
  let is_down := nonzero (btn_state s .& MOUSE_EVENT_LBUTTON) in
  if negb was_down && is_down then
    apple_mt_spi_schedule_touch_update s now PATH_STAGE_MAKE_TOUCH
      <| end_timer := None |> <| timer := Some (now + NANOSECONDS_PER_SECOND / 10) |>
  else if was_down && negb is_down then
    apple_mt_spi_schedule_touch_update s now PATH_STAGE_BREAK_TOUCH
      <| timer := None |> <| end_timer := Some (now + NANOSECONDS_PER_SECOND / 10) |>
  else s.

Definition apple_mt_spi_reset_enter (s : AppleMTSPIState) : AppleMTSPIState :=
  let s := s <| timer := None |> <| end_timer := None |> <| btn_state := 0 |> <| prev_btn_state := 0 |> in
  let s := s <| prev_x := 0 |> <| prev_y := 0 |> <| x := 0 |> <| y := 0 |> <| prev_ts := 0 |> <| frame := 0 |> in
  s <| tx := apple_mt_spi_buf_free |> <| rx := apple_mt_spi_buf_free |> <| pending_hbpp := apple_mt_spi_buf_free |> <| pending_fw := [] |>.

Definition apple_mt_spi_reset_hold (s : AppleMTSPIState) : AppleMTSPIState := s <| irq := true |>.

(** ** Buffers that grow *)

Definition cap_ok (b : AppleMTSPIBuffer) : Prop := len b <= capacity b < 2 ^ 32.

(** A buffer with more bytes behind. *)
Record grown (b : AppleMTSPIBuffer) (bs : bytes) (b' : AppleMTSPIBuffer) : Prop := {
  gr_data : data b' = data b ++ bs;
  gr_pos : read_pos b' = read_pos b;
  gr_cap : cap_ok b';
}.

Lemma len_nonneg b : 0 <= len b.
Proof. unfold len, zlen. lia. Qed.

Lemma ensure_ok b n : cap_ok b -> 0 <= n -> len b + n < 2 ^ 32 ->
  data (apple_mt_spi_buf_ensure_capacity b n) = data b /\ read_pos (apple_mt_spi_buf_ensure_capacity b n) = read_pos b /\
  cap_ok (apple_mt_spi_buf_ensure_capacity b n) /\ len b + n <= capacity (apple_mt_spi_buf_ensure_capacity b n).
Proof.
  intros Hc Hn Hl. unfold cap_ok in *. unfold apple_mt_spi_buf_ensure_capacity. destruct (Z.ltb_spec (capacity b) (len b + n)); [|done].
  pose proof (len_nonneg b). unfold len in *. cbn [data capacity read_pos setf]. rewrite wrap_small by (unfold in_width; lia). split_and!; done || lia.
Qed.

Lemma buf_push_ok b bs : cap_ok b -> len b + zlen bs < 2 ^ 32 -> exists b', push b bs = Done b' /\ grown b bs b'.
Proof.
  intros Hc Hl. destruct (ensure_ok b (zlen bs) Hc) as (Hd & Hp & Hk & Hs); [unfold zlen; lia|done|].
  unfold push, put. set (e := apple_mt_spi_buf_ensure_capacity b (zlen bs)) in *.
  assert (He : len e = len b) by (unfold len; by rewrite Hd). rewrite He, (proj2 (Z.leb_le _ _) Hs).
  eexists. split; [done|]. unfold cap_ok, len in *. split; cbn [data capacity read_pos setf]; [by rewrite Hd|done|].
  unfold cap_ok, len. cbn [data capacity setf]. rewrite zlen_app, Hd. lia.
Qed.

Lemma grown_trans b bs b' cs b'' : grown b bs b' -> grown b' cs b'' -> grown b (bs ++ cs) b''.
Proof. intros [H1 H2 H3] [H4 H5 H6]. split; [by rewrite H4, H1, app_assoc|congruence|done]. Qed.

Lemma grown_len b bs b' : grown b bs b' -> len b' = len b + zlen bs.
Proof. intros [H _ _]. unfold len. by rewrite H, zlen_app. Qed.

Lemma grown_ensure b bs b' n : cap_ok b -> 0 <= n -> len b + n < 2 ^ 32 ->
  grown (apple_mt_spi_buf_ensure_capacity b n) bs b' -> grown b bs b'.
Proof. intros Hc Hn Hl [H1 H2 H3]. destruct (ensure_ok b n Hc Hn Hl) as (E1 & E2 & _). split; [by rewrite H1, E1|congruence|done]. Qed.

Lemma push_all_ok l : forall b, cap_ok b -> len b + zlen (concat l) < 2 ^ 32 -> exists b', push_all b l = Done b' /\ grown b (concat l) b'.
Proof.
  induction l as [|bs l IH]; intros b Hc Hl; cbn [push_all concat] in *.
  - exists b. split; [done|]. split; [by rewrite app_nil_r|done|done].
  - rewrite zlen_app in Hl. pose proof (Zle_0_nat (length (concat l)) : 0 <= zlen (concat l)).
    destruct (buf_push_ok b bs Hc) as (b1 & -> & G1); [lia|]. run. pose proof (grown_len _ _ _ G1).
    destruct (IH b1 (gr_cap _ _ _ G1)) as (b2 & -> & G2); [lia|]. exists b2. split; [done|]. by eapply grown_trans.
Qed.

(** A buffer that is put together from nothing. *)
Definition made (bs : bytes) (b : AppleMTSPIBuffer) : Prop := grown apple_mt_spi_buf_free bs b.

Lemma made_data bs b : made bs b -> data b = bs /\ read_pos b = 0 /\ cap_ok b /\ len b = zlen bs.
Proof. intros G. pose proof (grown_len _ _ _ G). destruct G. done. Qed.

Lemma push_list_ok b l bs : made bs b -> zlen bs + zlen (concat l) < 2 ^ 32 -> exists b', push_all b l = Done b' /\ made (bs ++ concat l) b'.
Proof.
  intros G Hl. pose proof (grown_len _ _ _ G) as E. change (len apple_mt_spi_buf_free) with 0 in E.
  destruct (push_all_ok l b (gr_cap _ _ _ G)) as (b' & -> & G'); [lia|]. exists b'. split; [done|]. by eapply grown_trans.
Qed.

Lemma push_bytes_ok b bs cs : made bs b -> zlen bs + zlen cs < 2 ^ 32 -> exists b', push b cs = Done b' /\ made (bs ++ cs) b'.
Proof.
  intros G Hl. pose proof (grown_len _ _ _ G) as E. change (len apple_mt_spi_buf_free) with 0 in E.
  destruct (buf_push_ok b cs (gr_cap _ _ _ G)) as (b' & -> & G'); [lia|]. exists b'. split; [done|]. by eapply grown_trans.
Qed.

Lemma made_ensure bs b n : made bs b -> 0 <= n -> zlen bs + n < 2 ^ 32 -> made bs (apple_mt_spi_buf_ensure_capacity b n).
Proof.
  intros G Hn Hl. pose proof (grown_len _ _ _ G) as E. change (len apple_mt_spi_buf_free) with 0 in E. destruct (ensure_ok b n (gr_cap _ _ _ G) Hn) as (E1 & E2 & E3 & _); [lia|].
  destruct G as [H1 H2 H3]. split; [by rewrite E1|congruence|done].
Qed.

Lemma made_free : made [] apple_mt_spi_buf_free.
Proof. split; done. Qed.

Lemma push_crc_ok b bs : made bs b -> bs <> [] -> Forall (in_width 8) bs -> zlen bs + 2 < 2 ^ 32 ->
  exists b', apple_mt_spi_buf_push_crc16 b = Done b' /\ made (bs ++ le_split 2 (crc_ref 0 bs)) b'.
Proof.
  intros G Hne Hb Hl. destruct (made_data _ _ G) as (Hd & _ & _ & Hlen). unfold apple_mt_spi_buf_push_crc16, apple_mt_spi_buf_is_empty.
  rewrite Hlen. rewrite (proj2 (Z.eqb_neq _ _)) by (destruct bs; [done|unfold zlen; cbn; lia]). run.
  rewrite Hd. destruct (crc16_ref bs 0) as [-> _]; [done|done|]. run. by apply push_bytes_ok.
Qed.

(** ** Packets *)

(** A packet of the link layer behind its preamble: header, payload, zeros, checksum. *)
Definition ll_body (type : Z) (payload : bytes) : bytes :=
  le_split 1 type ++ le_split 1 0 ++ le_split 2 0 ++ le_split 2 0 ++ le_split 2 (zlen payload) ++ payload ++
  replicate (502 - length payload) 0.

Definition ll_frame (type : Z) (payload : bytes) : bytes := ll_body type payload ++ le_split 2 (crc_ref 0 (ll_body type payload)).

Lemma ll_body_length type payload : (length payload <= 502)%nat -> length (ll_body type payload) = 510%nat.
Proof. intros H. unfold ll_body. rewrite !length_app, !length_le_split, length_replicate. lia. Qed.

Lemma ll_frame_length type payload : (length payload <= 502)%nat -> length (ll_frame type payload) = 512%nat.
Proof. intros H. unfold ll_frame. rewrite length_app, length_le_split, ll_body_length by done. done. Qed.

Lemma ll_body_bytes type payload : Forall (in_width 8) payload -> Forall (in_width 8) (ll_body type payload).
Proof.
  intros H. unfold ll_body. rewrite !Forall_app. split_and!; try apply le_split_bytes; [done|]. by apply Forall_replicate.
Qed.

(** A packet that waits. *)
Record packet_ok (p : AppleMTSPILLPacket) : Prop := {
  po_len : (length (data (buf p)) <= 502)%nat;
  po_bytes : Forall (in_width 8) (data (buf p));
}.

Definition answer (pending : list AppleMTSPILLPacket) : bytes :=
  match pending with [] => ll_frame LL_PACKET_NO_DATA [] | p :: _ => ll_frame (type p) (data (buf p)) end.

Lemma finish_packet b type payload : made (le_split 1 type ++ le_split 1 0 ++ le_split 2 0 ++ le_split 2 0 ++ le_split 2 (zlen payload) ++ payload) b ->
  (length payload <= 502)%nat -> Forall (in_width 8) payload ->
  exists b1 b', apple_mt_spi_pad_ll_packet b = Done b1 /\ apple_mt_spi_buf_push_crc16 b1 = Done b' /\ made (ll_frame type payload) b'.
Proof.
  intros G Hl Hb. destruct (made_data _ _ G) as (_ & _ & _ & Hlen).
  assert (Hz : len b = 8 + zlen payload) by (rewrite Hlen; unfold zlen; rewrite !length_app, !length_le_split; lia).
  unfold apple_mt_spi_pad_ll_packet, apple_mt_spi_buf_set_len, LL_PACKET_LEN. rewrite (proj2 (Z.leb_le _ _)) by (unfold zlen in *; lia). run.
  replace (Z.to_nat (0x204 - 4 - 2 - len b)) with (502 - length payload)%nat by (unfold zlen in *; lia).
  destruct (push_bytes_ok b _ (replicate (502 - length payload) 0) G) as (b1 & -> & G1);
    [unfold zlen in *; rewrite length_replicate; lia|]. exists b1. rewrite <- !app_assoc in G1. fold (ll_body type payload) in G1.
  pose proof (ll_body_length type payload Hl) as HL. destruct (push_crc_ok b1 (ll_body type payload) G1) as (b' & E & G'); [|by apply ll_body_bytes|unfold zlen; lia|by exists b'].
  intros E. rewrite E in HL. done.
Qed.

Lemma answer_packet_ok s : Forall packet_ok (pending_fw s) ->
  exists b, answer_packet s = Done (b, tail (pending_fw s)) /\ made (answer (pending_fw s)) b.
Proof.
  intros Hp. unfold answer_packet, answer. destruct (pending_fw s) as [|p rest].
  - unfold apple_mt_spi_push_no_data, apple_mt_spi_push_ll_hdr.
    destruct (push_list_ok _ [le_split 1 LL_PACKET_NO_DATA; le_split 1 0; le_split 2 0; le_split 2 0; le_split 2 0] []
      (made_ensure [] _ 8 made_free ltac:(done) ltac:(done))) as (b & E & G); [done|].
    rewrite E. run. destruct (finish_packet b LL_PACKET_NO_DATA []) as (b1 & b' & -> & E' & G'); [exact G|cbn; lia|done|]. run.
    rewrite E'. run. by exists b'.
  - apply Forall_cons in Hp as [[Hl Hb] _]. unfold apple_mt_spi_push_ll_hdr.
    destruct (push_list_ok _ [le_split 1 (type p); le_split 1 0; le_split 2 0; le_split 2 0; le_split 2 (len (buf p))] []
      (made_ensure [] _ 8 made_free ltac:(done) ltac:(done))) as (b & -> & G); [done|]. run.
    assert (Ha : exists b1, apple_mt_spi_buf_append b (buf p) = Done b1 /\
      made (le_split 1 (type p) ++ le_split 1 0 ++ le_split 2 0 ++ le_split 2 0 ++ le_split 2 (zlen (data (buf p))) ++ data (buf p)) b1).
    { unfold apple_mt_spi_buf_append, apple_mt_spi_buf_is_empty. destruct (Z.eqb_spec (len (buf p)) 0) as [E|].
      - exists b. split; [done|]. unfold len, zlen in E. unfold len in G. destruct (data (buf p)); [exact G|cbn in E; lia].
      - destruct (push_bytes_ok b _ (data (buf p)) G) as (b1 & -> & G1); [change (zlen ([] ++ _)) with 8; unfold zlen; lia|]. exists b1. split; [done|].
        cbn [concat app] in G1. rewrite app_nil_r, <- !app_assoc in G1. exact G1. }
    destruct Ha as (b1 & -> & G1). run. destruct (finish_packet b1 (type p) (data (buf p)) G1 Hl Hb) as (b2 & b' & -> & E & G'). run.
    rewrite E. run. by exists b'.
Qed.

(** ** A packet for a packet *)

Ltac go := cbn [c_assert negb]; run.

Lemma rx_push d c v : in_width 8 v -> zlen d < c -> apple_mt_spi_buf_push_byte (mkBuf d c 0) (u8 v) = Done (mkBuf (d ++ [v]) c 0).
Proof.
  intros Hv Hl. unfold apple_mt_spi_buf_push_byte, push, put, apple_mt_spi_buf_ensure_capacity. rewrite (wrap_small 8 v Hv).
  assert (E : le_split 1 v = [v]).
  { cbn [le_split]. f_equal. change 0xff with (Z.ones 8). rewrite Z.land_ones by done. by apply wrap_small. }
  rewrite E. unfold len. cbn [data capacity]. change (zlen [v]) with 1. rewrite (proj2 (Z.ltb_ge c _)) by lia. cbn [data capacity setf].
  rewrite (proj2 (Z.leb_le _ c)) by lia. done.
Qed.

Lemma tx_pop t c k v : zlen t <= c -> c < 2 ^ 32 -> 0 <= k -> t !! Z.to_nat k = Some v ->
  apple_mt_spi_buf_pop (mkBuf t c k) = Done (v, if k + 1 =? zlen t then apple_mt_spi_buf_free else mkBuf t c (k + 1)).
Proof.
  intros Hl Hc Hk Hv. pose proof (lookup_lt_Some _ _ _ Hv) as Hlt. unfold zlen in *.
  unfold apple_mt_spi_buf_pop, apple_mt_spi_buf_is_empty, len. cbn [data capacity read_pos]. unfold zlen.
  rewrite (proj2 (Z.eqb_neq _ _)) by lia. rewrite (proj2 (nonzero_iff _)) by lia. go. rewrite (proj2 (Z.ltb_lt _ _)) by lia. go.
  rewrite (proj2 (aget_Done _ _ _) (conj Hk Hv)). go. rewrite wrap_small by (unfold in_width; lia). rewrite orb_false_r.
  destruct (k + 1 =? _); [done|]. transitivity (Done (v, mkBuf t c (u32 (k + 1)))); [done|].
  by rewrite wrap_small by (unfold in_width; lia).
Qed.

(** What follows the handler of a byte. *)
Definition after_handler (s : AppleMTSPIState) : outcome (AppleMTSPIState * Z) :=
  let s := if apple_mt_spi_buf_is_full (rx s) then s <| rx := apple_mt_spi_buf_free |> else s in
  '(ret, t) ← apple_mt_spi_buf_pop (tx s);
  let s := s <| tx := t |> in
  mret (s <| irq := apple_mt_spi_buf_is_empty (pending_hbpp s) && match pending_fw s with [] => true | _ => false end |>, ret).

Lemma transfer_fw s d c v s1 : rx s = mkBuf d c 0 -> in_width 8 v -> zlen d < c -> (d ++ [v]) !! O = Some 0xEF ->
  apple_mt_spi_handle_fw (s <| rx := mkBuf (d ++ [v]) c 0 |>) = Done s1 -> apple_mt_spi_transfer s v = after_handler s1.
Proof.
  intros Hr Hv Hl H0 Hs. unfold apple_mt_spi_transfer. rewrite Hr, rx_push by done. go. cbn [rx setf].
  unfold apple_mt_spi_buf_read_byte, len. cbn [data capacity]. rewrite (proj2 (nonzero_iff _)) by (unfold zlen in *; lia). go.
  rewrite (proj2 (Z.ltb_lt _ _)) by (rewrite zlen_app; unfold zlen; cbn; lia). go.
  rewrite (proj2 (aget_Done _ 0 _) (conj (Z.le_refl 0) H0)). go. change (LL_PACKET_PREAMBLE .& 0xFF) with 0xEF. rewrite Z.eqb_refl, Hs. done.
Qed.

(** The position of the last byte received. *)
Lemma rx_pos d c v : apple_mt_spi_buf_get_pos (mkBuf (d ++ [v]) c 0) = Done (zlen d).
Proof.
  unfold apple_mt_spi_buf_get_pos, apple_mt_spi_buf_is_empty, len. cbn [data]. rewrite zlen_app. change (zlen [v]) with 1.
  rewrite (proj2 (Z.eqb_neq _ _)) by (unfold zlen; lia). go. unfold mret, outcome_ret. f_equal. lia.
Qed.

Lemma rx_read d c off v : d !! Z.to_nat off = Some v -> 0 <= off -> c <> 0 -> apple_mt_spi_buf_read_byte (mkBuf d c 0) off = Done v.
Proof.
  intros Hv Ho Hc. pose proof (lookup_lt_Some _ _ _ Hv) as Hlt. unfold apple_mt_spi_buf_read_byte, len. cbn [data capacity].
  rewrite (proj2 (nonzero_iff _)) by done. go. rewrite (proj2 (Z.ltb_lt _ _)) by (unfold zlen; lia). go.
  by apply aget_Done.
Qed.

(** How a step leaves the rest of the state. *)
Definition keeps (s s' : AppleMTSPIState) : Prop := pending_hbpp s' = pending_hbpp s.

Definition preamble : bytes := le_split 4 LL_PACKET_PREAMBLE.

(** The first byte starts the preamble of the answer. *)
Lemma step_first s : rx s = apple_mt_spi_buf_free -> tx s = apple_mt_spi_buf_free ->
  exists s', apple_mt_spi_transfer s 0xEF = Done (s', 0xEF) /\ rx s' = mkBuf [0xEF] 8 0 /\ tx s' = mkBuf preamble 4 1 /\
    pending_fw s' = pending_fw s /\ keeps s s'.
Proof.
  intros Hr Ht. unfold apple_mt_spi_transfer. rewrite Hr. change (apple_mt_spi_buf_push_byte apple_mt_spi_buf_free (u8 0xEF)) with (Done (mkBuf [0xEF] 1 0)).
  go. cbn [rx setf]. change (apple_mt_spi_buf_read_byte (mkBuf [0xEF] 1 0) 0) with (Done 0xEF). go.
  change (0xEF =? LL_PACKET_PREAMBLE .& 0xFF) with true. unfold apple_mt_spi_handle_fw. cbn [rx tx setf].
  change (apple_mt_spi_buf_pos_at_start (mkBuf [0xEF] 1 0)) with (Done true). go. rewrite Ht.
  change (apple_mt_spi_buf_set_capacity (mkBuf [0xEF] 1 0) 8) with (Done (mkBuf [0xEF] 8 0)). go.
  change (apple_mt_spi_buf_push_dword apple_mt_spi_buf_free LL_PACKET_PREAMBLE) with (Done (mkBuf preamble 4 0)). go. cbn [rx tx setf].
  change (apple_mt_spi_buf_get_pos (mkBuf [0xEF] 8 0)) with (Done 0). go. change (0 <? 4) with true. go.
  cbn [rx tx setf]. change (apple_mt_spi_buf_is_full (mkBuf [0xEF] 8 0)) with false. cbn [rx tx setf].
  change (apple_mt_spi_buf_pop (mkBuf preamble 4 0)) with (Done (0xEF, mkBuf preamble 4 1)). go.
  eexists. split; [done|]. done.
Qed.

(** The rest of the preamble. *)
Lemma step_preamble s d v b : rx s = mkBuf d 8 0 -> tx s = mkBuf preamble 4 (zlen d) -> d !! O = Some 0xEF -> in_width 8 v ->
  1 <= zlen d <= 3 -> preamble !! length d = Some b ->
  exists s', apple_mt_spi_transfer s v = Done (s', b) /\ rx s' = mkBuf (d ++ [v]) 8 0 /\
    tx s' = (if zlen d =? 3 then apple_mt_spi_buf_free else mkBuf preamble 4 (zlen d + 1)) /\ pending_fw s' = pending_fw s /\ keeps s s'.
Proof.
  intros Hr Ht H0 Hv Hd Hb. assert (H0' : (d ++ [v]) !! O = Some 0xEF) by (by apply lookup_app_l_Some).
  rewrite (transfer_fw s d 8 v (s <| rx := mkBuf (d ++ [v]) 8 0 |>) Hr Hv ltac:(lia) H0').
  2: { unfold apple_mt_spi_handle_fw, apple_mt_spi_buf_pos_at_start. cbn [rx setf]. rewrite rx_pos. go.
       rewrite (proj2 (Z.eqb_neq _ 0)) by lia. go. cbn [rx setf]. rewrite rx_pos. go. by rewrite (proj2 (Z.ltb_lt _ _)) by lia. }
  unfold after_handler. cbn [rx setf]. unfold apple_mt_spi_buf_is_full, len. cbn [data capacity].
  rewrite zlen_app. change (zlen [v]) with 1. rewrite (proj2 (Z.eqb_neq (zlen d + 1) 8)) by lia. rewrite andb_false_r. cbn [tx setf]. rewrite Ht.
  rewrite (tx_pop preamble 4 (zlen d) b) by (try done; unfold zlen in *; try lia; by rewrite Nat2Z.id). go.
  eexists. split; [done|]. cbn [rx tx pending_fw setf]. split; [done|]. split; [|done].
  change (zlen preamble) with 4. destruct (Z.eqb_spec (zlen d + 1) 4), (Z.eqb_spec (zlen d) 3); try lia; done.
Qed.

(** The byte of the type brings the packet. *)
Lemma step_type s d v : rx s = mkBuf d 8 0 -> tx s = apple_mt_spi_buf_free -> d !! O = Some 0xEF -> in_width 8 v -> zlen d = 4 ->
  is_status v = false -> Forall packet_ok (pending_fw s) ->
  exists s' b c, apple_mt_spi_transfer s v = Done (s', b) /\ answer (pending_fw s) !! O = Some b /\ rx s' = mkBuf (d ++ [v]) LL_PACKET_LEN 0 /\
    tx s' = mkBuf (answer (pending_fw s)) c 1 /\ zlen (answer (pending_fw s)) <= c < 2 ^ 32 /\
    pending_fw s' = tail (pending_fw s) /\ keeps s s'.
Proof.
  intros Hr Ht H0 Hv Hd Hst Hp. assert (H0' : (d ++ [v]) !! O = Some 0xEF) by (by apply lookup_app_l_Some).
  destruct (answer_packet_ok s Hp) as (b & Eb & Gb). destruct (made_data _ _ Gb) as (Hbd & _ & _ & Hbl).
  assert (Hal : length (answer (pending_fw s)) = 512%nat).
  { unfold answer. destruct (pending_fw s) as [|p rest]; [by apply ll_frame_length; cbn; lia|]. apply Forall_cons in Hp as [[Hl _] _]. by apply ll_frame_length. }
  destruct (push_bytes_ok _ [] (data b) made_free) as (t & Et & Gt); [rewrite Hbd; unfold zlen; cbn; lia|].
  destruct (made_data _ _ Gt) as (Htd & Htp & Htc & Htl). rewrite Hbd in *. cbn [app] in *.
  destruct t as [td tc tp]. cbn [data read_pos] in Htd, Htp. subst td tp. unfold cap_ok, len in Htc. cbn [data capacity] in Htc.
  set (t := mkBuf (answer (pending_fw s)) tc 0) in *.
  destruct (lookup_lt_is_Some_2 (answer (pending_fw s)) O) as [b0 Hb0]; [lia|].
  set (s1 := s <| rx := mkBuf (d ++ [v]) 8 0 |>). set (s2 := s1 <| rx := mkBuf (d ++ [v]) LL_PACKET_LEN 0 |> <| pending_fw := tail (pending_fw s) |> <| tx := t |>).
  assert (Hz : zlen (d ++ [v]) = 5) by (rewrite zlen_app; change (zlen [v]) with 1; lia).
  rewrite (transfer_fw s d 8 v s2 Hr Hv ltac:(lia) H0').
  2: { unfold apple_mt_spi_handle_fw, apple_mt_spi_buf_pos_at_start. cbn [rx setf]. rewrite rx_pos. go. rewrite Hd. change (4 =? 0) with false. go.
       cbn [rx setf]. rewrite rx_pos. go. rewrite Hd. change (4 <? 4) with false. cbn [rx setf].
       rewrite (rx_read (d ++ [v]) 8 4 v); [|rewrite lookup_app_r by (unfold zlen in Hd; lia); by replace (Z.to_nat 4 - length d)%nat with O by (unfold zlen in Hd; lia)|done|done].
       go. rewrite Hst. unfold apple_mt_spi_handle_fw_packet. cbn [rx tx setf]. rewrite rx_pos. go. rewrite Hd. change (4 =? 4) with true.
       change (apple_mt_spi_buf_set_capacity (mkBuf (d ++ [v]) 8 0) LL_PACKET_LEN) with (Done (mkBuf (d ++ [v]) LL_PACKET_LEN 0)). go.
       fold s1. change (answer_packet s1) with (answer_packet s). rewrite Eb. go. rewrite Ht. unfold apple_mt_spi_buf_append, apple_mt_spi_buf_is_empty.
       rewrite Hbl, (proj2 (Z.eqb_neq _ _)) by (unfold zlen; lia). rewrite Hbd, Et. go. fold s2.
       unfold apple_mt_spi_buf_is_full, len. cbn [rx s2 setf data capacity]. rewrite Hz, andb_false_r. done. }
  unfold after_handler. cbn [rx s2 s1 setf]. unfold apple_mt_spi_buf_is_full, len. cbn [data capacity]. rewrite Hz, andb_false_r. cbn [tx setf].
  change (tx s2) with (mkBuf (answer (pending_fw s)) tc 0). rewrite (tx_pop _ tc 0 b0) by (try done; lia). go.
  eexists _, b0, tc. split; [done|]. cbn [rx tx pending_fw pending_hbpp setf]. split_and!; try done; try lia.
  rewrite (proj2 (Z.eqb_neq _ _)) by (unfold zlen; lia). done.
Qed.

(** A byte inside the packet. *)
Lemma step_body s d v t c p : rx s = mkBuf d LL_PACKET_LEN 0 -> tx s = mkBuf t c (zlen d - 4) -> d !! O = Some 0xEF -> d !! 4%nat = Some p ->
  is_status p = false -> in_width 8 v -> zlen d < 515 -> zlen t = 512 -> 512 <= c < 2 ^ 32 ->
  exists s' b, apple_mt_spi_transfer s v = Done (s', b) /\ t !! (length d - 4)%nat = Some b /\ rx s' = mkBuf (d ++ [v]) LL_PACKET_LEN 0 /\
    tx s' = mkBuf t c (zlen (d ++ [v]) - 4) /\ pending_fw s' = pending_fw s /\ keeps s s'.
Proof.
  intros Hr Ht H0 H4 Hst Hv Hd Htl Hc. pose proof (lookup_lt_Some _ _ _ H4) as Hlt.
  assert (H0' : (d ++ [v]) !! O = Some 0xEF) by (by apply lookup_app_l_Some).
  assert (H4' : (d ++ [v]) !! Z.to_nat 4 = Some p) by (by apply lookup_app_l_Some).
  assert (Hz : zlen (d ++ [v]) = zlen d + 1) by (rewrite zlen_app; change (zlen [v]) with 1; lia).
  destruct (lookup_lt_is_Some_2 t (length d - 4)%nat) as [b Hb]; [unfold zlen in *; lia|].
  rewrite (transfer_fw s d LL_PACKET_LEN v (s <| rx := mkBuf (d ++ [v]) LL_PACKET_LEN 0 |>) Hr Hv ltac:(unfold LL_PACKET_LEN; lia) H0').
  2: { unfold apple_mt_spi_handle_fw, apple_mt_spi_buf_pos_at_start. cbn [rx setf]. rewrite rx_pos. go.
       rewrite (proj2 (Z.eqb_neq _ 0)) by (unfold zlen; lia). go. cbn [rx setf]. rewrite rx_pos. go.
       rewrite (proj2 (Z.ltb_ge _ _)) by (unfold zlen; lia). cbn [rx setf]. rewrite (rx_read _ _ 4 p) by done. go. rewrite Hst.
       unfold apple_mt_spi_handle_fw_packet. cbn [rx setf]. rewrite rx_pos. go. rewrite (proj2 (Z.eqb_neq _ 4)) by (unfold zlen; lia). go.
       cbn [rx setf]. unfold apple_mt_spi_buf_is_full, len. cbn [data capacity]. rewrite Hz.
       rewrite (proj2 (Z.eqb_neq _ LL_PACKET_LEN)) by (unfold LL_PACKET_LEN; lia). by rewrite andb_false_r. }
  unfold after_handler. cbn [rx setf]. unfold apple_mt_spi_buf_is_full, len. cbn [data capacity]. rewrite Hz.
  rewrite (proj2 (Z.eqb_neq (zlen d + 1) LL_PACKET_LEN)) by (unfold LL_PACKET_LEN; lia). rewrite andb_false_r. cbn [tx setf]. rewrite Ht.
  rewrite (tx_pop t c (zlen d - 4) b) by (try lia; unfold zlen in *; try lia; by replace (Z.to_nat (Z.of_nat (length d) - 4)) with (length d - 4)%nat by lia).
  go. eexists _, b. split; [done|]. cbn [rx tx pending_fw pending_hbpp setf]. split_and!; try done.
  rewrite (proj2 (Z.eqb_neq _ _)) by lia. f_equal. lia.
Qed.

(** ** Reports *)

Definition hid_hdr (report_id frame_number payload_length : Z) : bytes :=
  le_split 1 HID_CONTROL_PACKET_SET_OUTPUT_REPORT ++ le_split 1 report_id ++ le_split 1 HID_PACKET_STATUS_SUCCESS ++
  le_split 1 frame_number ++ le_split 2 0 ++ le_split 2 payload_length.

Definition with_crc (bs : bytes) : bytes := bs ++ le_split 2 (crc_ref 0 bs).

(** The report with an identifier; unknown ones are a zero. *)
Definition report_bytes (report_id : Z) : bytes := match feature_report report_id with Some r => concat r | None => le_split 1 0 end.

(** What a request asks for, by the bytes of its packet. *)
Definition replies (msg : bytes) : list bytes :=
  let at_ i := default 0 (msg !! i) in
  if at_ 4%nat =? LL_PACKET_CONTROL then
    if at_ 12%nat =? HID_CONTROL_PACKET_GET_FEATURE_REPORT then
      [with_crc (hid_hdr (at_ 13%nat) (at_ 15%nat) (zlen (report_bytes (at_ 13%nat)) + 1) ++ le_split 1 (at_ 13%nat) ++ report_bytes (at_ 13%nat))]
    else if at_ 12%nat =? HID_CONTROL_PACKET_SET_FEATURE_REPORT then [with_crc (hid_hdr (at_ 13%nat) (at_ 15%nat) 0)]
    else []
  else [].

Lemma report_bytes_ok id : (1 <= length (report_bytes id) <= 22)%nat /\ Forall (in_width 8) (report_bytes id).
Proof.
  unfold report_bytes, feature_report.
  repeat (match goal with |- context [?a =? ?b] => destruct (a =? b) end); (split; [cbn; lia|]); repeat apply Forall_cons_2; try apply Forall_nil_2; by vm_compute.
Qed.

Lemma push_hid_hdr_ok b report_id frame_number payload_length : made [] b ->
  exists b', apple_mt_spi_push_hid_hdr b HID_CONTROL_PACKET_SET_OUTPUT_REPORT report_id HID_PACKET_STATUS_SUCCESS frame_number 0 payload_length = Done b' /\
    made (hid_hdr report_id frame_number payload_length) b'.
Proof.
  intros G. unfold apple_mt_spi_push_hid_hdr. destruct (push_list_ok (apple_mt_spi_buf_ensure_capacity b 8)
    [le_split 1 HID_CONTROL_PACKET_SET_OUTPUT_REPORT; le_split 1 report_id; le_split 1 HID_PACKET_STATUS_SUCCESS; le_split 1 frame_number; le_split 2 0; le_split 2 payload_length] []) as (b' & -> & G'); [by apply made_ensure|done|by exists b'].
Qed.

Lemma push_report_hdr_ok b report_id frame_number n : made [] b -> 0 <= n < 2 ^ 16 - 1 ->
  exists b', apple_mt_spi_push_report_hdr b HID_CONTROL_PACKET_SET_OUTPUT_REPORT report_id HID_PACKET_STATUS_SUCCESS frame_number n = Done b' /\
    made (hid_hdr report_id frame_number (n + 1) ++ le_split 1 report_id) b'.
Proof.
  intros G Hn. unfold apple_mt_spi_push_report_hdr. rewrite wrap_small by (unfold in_width; lia).
  destruct (push_hid_hdr_ok (apple_mt_spi_buf_ensure_capacity b 9) report_id frame_number (n + 1)) as (b1 & -> & G1); [by apply made_ensure|]. run.
  by apply push_bytes_ok.
Qed.

Lemma hid_hdr_bytes a b c : Forall (in_width 8) (hid_hdr a b c).
Proof. unfold hid_hdr. rewrite !Forall_app. split_and!; apply le_split_bytes. Qed.

(** The packets a handler adds. *)
Definition adds (s s' : AppleMTSPIState) (l : list bytes) : Prop :=
  exists ps, pending_fw s' = pending_fw s ++ ps /\ (fun p => (type p, data (buf p))) <$> ps = (fun bs => (LL_PACKET_CONTROL, bs)) <$> l /\
    Forall packet_ok ps /\ rx s' = rx s /\ tx s' = tx s /\ keeps s s'.

Lemma adds_one s bs b : made bs b -> (length bs <= 502)%nat -> Forall (in_width 8) bs ->
  adds s (s <| pending_fw ::= fun l => l ++ [mkPacket b LL_PACKET_CONTROL] |>) [bs].
Proof.
  intros G Hl Hb. destruct (made_data _ _ G) as (E & _). exists [mkPacket b LL_PACKET_CONTROL]. cbn [fmap list_fmap type buf]. rewrite E.
  split_and!; try done. apply Forall_cons_2; [|apply Forall_nil_2]. split; cbn [buf]; by rewrite E.
Qed.

Lemma payload_byte d c off : 0 <= off -> 13 + off <= zlen d ->
  apple_mt_spi_ll_read_payload_byte (mkBuf d c 0) off = Done (default 0 (d !! Z.to_nat (12 + off))).
Proof.
  intros Ho Hl. unfold apple_mt_spi_ll_read_payload_byte, apple_mt_spi_buf_is_empty, len. cbn [data].
  rewrite (proj2 (Z.eqb_neq _ _)) by lia. rewrite (proj2 (Z.leb_le _ _)) by lia. go.
  destruct (lookup_lt_is_Some_2 d (Z.to_nat (12 + off))) as [b Hb]; [unfold zlen in *; lia|]. rewrite Hb. apply aget_Done. split; [lia|done].
Qed.

Lemma get_feature_ok s d c : rx s = mkBuf d c 0 -> zlen d = LL_PACKET_LEN ->
  let id := default 0 (d !! 13%nat) in let fr := default 0 (d !! 15%nat) in
  exists s', apple_mt_spi_handle_get_feature s = Done s' /\
    adds s s' [with_crc (hid_hdr id fr (zlen (report_bytes id) + 1) ++ le_split 1 id ++ report_bytes id)].
Proof.
  intros Hr Hd id fr. unfold LL_PACKET_LEN in Hd. unfold apple_mt_spi_handle_get_feature. rewrite Hr, !payload_byte by lia. go.
  change (default 0 (d !! Z.to_nat (12 + 1))) with id. change (default 0 (d !! Z.to_nat (12 + 3))) with fr.
  destruct (report_bytes_ok id) as [Hl Hb]. set (body := hid_hdr id fr (zlen (report_bytes id) + 1) ++ le_split 1 id ++ report_bytes id).
  assert (Hm : exists b, report_packet id fr = Done b /\ made body b).
  { unfold body. clear body. unfold report_packet, report_bytes in *. destruct (feature_report id) as [report|].
    - destruct (push_report_hdr_ok (apple_mt_spi_buf_ensure_capacity apple_mt_spi_buf_free (9 + zlen (concat report) + 2)) id fr (zlen (concat report))) as (b & -> & G);
        [apply made_ensure; [exact made_free|unfold zlen; lia|unfold zlen in *; cbn; lia]|unfold zlen; lia|]. run.
      destruct (push_list_ok b report _ G) as (b' & -> & G'); [unfold zlen in *; rewrite length_app; cbn; lia|]. exists b'. split; [done|]. by rewrite <- app_assoc in G'.
    - unfold apple_mt_spi_push_report_byte. destruct (push_report_hdr_ok apple_mt_spi_buf_free id fr 1 made_free) as (b & -> & G); [lia|]. run.
      destruct (push_bytes_ok b _ (le_split 1 0) G) as (b' & E & G'); [done|]. exists b'. split; [exact E|]. by rewrite <- app_assoc in G'. }
  destruct Hm as (b & -> & G). run.
  assert (Hbl : (length body <= 31)%nat) by (unfold body; rewrite !length_app; cbn; lia).
  assert (Hbb : Forall (in_width 8) body) by (unfold body; rewrite !Forall_app; split_and!; [apply hid_hdr_bytes|apply le_split_bytes|done]).
  destruct (push_crc_ok b body G) as (b' & -> & G'); [done|done|unfold zlen; lia|]. run. eexists. split; [done|]. apply adds_one; [done| |].
  - unfold with_crc. rewrite length_app, length_le_split. lia.
  - unfold with_crc. apply Forall_app. split; [done|apply le_split_bytes].
Qed.

Lemma set_feature_ok s d c : rx s = mkBuf d c 0 -> zlen d = LL_PACKET_LEN ->
  exists s', apple_mt_spi_handle_set_feature s = Done s' /\ adds s s' [with_crc (hid_hdr (default 0 (d !! 13%nat)) (default 0 (d !! 15%nat)) 0)].
Proof.
  intros Hr Hd. unfold LL_PACKET_LEN in Hd. unfold apple_mt_spi_handle_set_feature. rewrite Hr, !payload_byte by lia. go.
  change (Z.to_nat (12 + 1)) with 13%nat. change (Z.to_nat (12 + 3)) with 15%nat.
  destruct (push_hid_hdr_ok _ (default 0 (d !! 13%nat)) (default 0 (d !! 15%nat)) 0 made_free) as (b & -> & G). run.
  destruct (push_crc_ok b _ G) as (b' & -> & G'); [done|apply hid_hdr_bytes|done|]. run. eexists. split; [done|]. apply adds_one; [done|cbn; lia|].
  apply Forall_app. split; [apply hid_hdr_bytes|apply le_split_bytes].
Qed.

Lemma handle_request_ok s d c p : rx s = mkBuf d c 0 -> zlen d = LL_PACKET_LEN -> d !! 4%nat = Some p ->
  exists s', (if p =? LL_PACKET_CONTROL then apple_mt_spi_handle_control s else mret s) = Done s' /\ adds s s' (replies d).
Proof.
  intros Hr Hd H4. unfold replies. rewrite H4. cbv zeta. change (default 0 (Some p)) with p. assert (Hnone : adds s s []) by (exists []; by rewrite app_nil_r).
  destruct (p =? LL_PACKET_CONTROL); [|by exists s]. unfold apple_mt_spi_handle_control. rewrite Hr, payload_byte by (unfold LL_PACKET_LEN in Hd; lia). go.
  change (Z.to_nat (12 + 0)) with 12%nat. destruct (_ =? HID_CONTROL_PACKET_GET_FEATURE_REPORT); [by eapply get_feature_ok|].
  destruct (_ =? HID_CONTROL_PACKET_SET_FEATURE_REPORT); [by eapply set_feature_ok|by exists s].
Qed.

(** The last byte of the packet: it is acted on. *)
Lemma step_last s d v t c p : rx s = mkBuf d LL_PACKET_LEN 0 -> tx s = mkBuf t c (zlen d - 4) -> d !! O = Some 0xEF -> d !! 4%nat = Some p ->
  is_status p = false -> in_width 8 v -> zlen d = 515 -> zlen t = 512 -> 512 <= c < 2 ^ 32 ->
  exists s' b, apple_mt_spi_transfer s v = Done (s', b) /\ t !! 511%nat = Some b /\ rx s' = apple_mt_spi_buf_free /\ tx s' = apple_mt_spi_buf_free /\
    keeps s s' /\ exists ps, pending_fw s' = pending_fw s ++ ps /\
      (fun p => (type p, data (buf p))) <$> ps = (fun bs => (LL_PACKET_CONTROL, bs)) <$> replies (d ++ [v]) /\ Forall packet_ok ps.
Proof.
  intros Hr Ht H0 H4 Hst Hv Hd Htl Hc.
  assert (H0' : (d ++ [v]) !! O = Some 0xEF) by (by apply lookup_app_l_Some).
  assert (H4' : (d ++ [v]) !! 4%nat = Some p) by (by apply lookup_app_l_Some).
  assert (Hz : zlen (d ++ [v]) = LL_PACKET_LEN) by (rewrite zlen_app; change (zlen [v]) with 1; unfold LL_PACKET_LEN; lia).
  assert (Hfull : apple_mt_spi_buf_is_full (mkBuf (d ++ [v]) LL_PACKET_LEN 0) = true).
  { unfold apple_mt_spi_buf_is_full, apple_mt_spi_buf_is_empty, len. cbn [data capacity]. by rewrite Hz. }
  destruct (lookup_lt_is_Some_2 t 511%nat) as [b Hb]; [unfold zlen in *; lia|].
  assert (Hrx1 : rx (s <| rx := mkBuf (d ++ [v]) LL_PACKET_LEN 0 |>) = mkBuf (d ++ [v]) LL_PACKET_LEN 0) by done.
  destruct (handle_request_ok (s <| rx := mkBuf (d ++ [v]) LL_PACKET_LEN 0 |>) (d ++ [v]) LL_PACKET_LEN p Hrx1 Hz H4') as (s1 & E & ps & Hp & Hps & Hok & Hrx & Htx & Hk).
  rewrite (transfer_fw s d LL_PACKET_LEN v s1 Hr Hv ltac:(unfold LL_PACKET_LEN; lia) H0').
  2: { unfold apple_mt_spi_handle_fw, apple_mt_spi_buf_pos_at_start. cbn [rx setf]. rewrite rx_pos. go. rewrite Hd. change (515 =? 0) with false. go.
       cbn [rx setf]. rewrite rx_pos. go. rewrite Hd. change (515 <? 4) with false. cbn [rx setf]. rewrite (rx_read _ _ 4 p) by done. go. rewrite Hst.
       unfold apple_mt_spi_handle_fw_packet. cbn [rx setf]. rewrite rx_pos. go. rewrite Hd. change (515 =? 4) with false. go.
       cbn [rx setf]. rewrite Hfull. cbn [negb rx setf]. rewrite (rx_read _ _ 4 p) by done. go. exact E. }
  cbn [rx tx pending_fw pending_hbpp setf] in Hrx, Htx, Hp. unfold after_handler. rewrite Hrx.
  rewrite Hfull. cbn [tx setf]. rewrite Htx, Ht, Hd.
  rewrite (tx_pop t c (515 - 4) b) by (try done; lia). go. eexists _, b. split; [done|]. cbn [rx tx pending_fw pending_hbpp setf].
  rewrite Htl. split_and!; try done. by exists ps.
Qed.

(** ** A whole exchange *)

(** Bytes on the bus, one after the other. *)
Fixpoint transfers (s : AppleMTSPIState) (msg : bytes) : outcome (AppleMTSPIState * bytes) :=
  match msg with
  | [] => mret (s, [])
  | v :: msg => '(s, b) ← apple_mt_spi_transfer s v; '(s, bs) ← transfers s msg; mret (s, b :: bs)
  end.

Lemma transfers_app a : forall s b s1 x s2 y, transfers s a = Done (s1, x) -> transfers s1 b = Done (s2, y) -> transfers s (a ++ b) = Done (s2, x ++ y).
Proof.
  induction a as [|v a IH]; intros s b s1 x s2 y Ha Hb; cbn [transfers app] in *.
  - injection Ha as <- <-. exact Hb.
  - apply bind_Done_inv in Ha as ([s' c] & -> & Ha). run. apply bind_Done_inv in Ha as ([s'' cs] & Ha & E). injection E as <- <-.
    rewrite (IH _ _ _ _ _ _ Ha Hb). by run.
Qed.

Lemma body_transfers msg : forall s d t c p, rx s = mkBuf d LL_PACKET_LEN 0 -> tx s = mkBuf t c (zlen d - 4) -> d !! O = Some 0xEF -> d !! 4%nat = Some p ->
  is_status p = false -> Forall (in_width 8) msg -> zlen d + zlen msg <= 515 -> zlen t = 512 -> 512 <= c < 2 ^ 32 ->
  exists s', transfers s msg = Done (s', take (length msg) (drop (length d - 4) t)) /\ rx s' = mkBuf (d ++ msg) LL_PACKET_LEN 0 /\
    tx s' = mkBuf t c (zlen (d ++ msg) - 4) /\ pending_fw s' = pending_fw s /\ keeps s s'.
Proof.
  induction msg as [|v msg IH]; intros s d t c p Hr Ht H0 H4 Hst Hv Hd Htl Hc; cbn [transfers].
  { exists s. rewrite app_nil_r. done. }
  apply Forall_cons in Hv as [Hv Hm]. rewrite zlen_cons in Hd. pose proof (Zle_0_nat (length msg) : 0 <= zlen msg).
  pose proof (lookup_lt_Some _ _ _ H4) as Hlt.
  destruct (step_body s d v t c p) as (s1 & b & -> & Hb & Hr1 & Ht1 & Hp1 & Hk1); [done..|lia|done|done|]. run.
  destruct (IH s1 (d ++ [v]) t c p) as (s2 & -> & Hr2 & Ht2 & Hp2 & Hk2); try done; [by apply lookup_app_l_Some|by apply lookup_app_l_Some|rewrite zlen_app; change (zlen [v]) with 1; lia|].
  run. exists s2. rewrite <- app_assoc in Hr2, Ht2. cbn [app] in Hr2, Ht2. split; [|unfold keeps in *; split_and!; congruence].
  unfold mret, outcome_ret. do 2 f_equal. rewrite length_app. cbn [length]. rewrite (drop_S t b (length d - 4)) by done. cbn [take]. do 2 f_equal.
  f_equal. lia.
Qed.

(** C25: Every packet gets a packet.  While the controller is between packets, the 516
    bytes of a link-layer packet that is no acknowledgement bring back, byte for byte, a
    packet of the same length: the preamble, the header, the oldest packet that waits or
    none, zeros, and the checksum of all behind the preamble.  Afterwards the controller
    is between packets again, the packet that was sent no longer waits, and the answer
    to a request for a report, or to one to set it, waits behind the others; no
    assertion fails on the way, whatever the other bytes are. *)
Theorem ll_exchange s b1 b2 b3 p body : rx s = apple_mt_spi_buf_free -> tx s = apple_mt_spi_buf_free -> Forall packet_ok (pending_fw s) ->
  let msg := 0xEF :: b1 :: b2 :: b3 :: p :: body in
  length body = 511%nat -> Forall (in_width 8) msg -> is_status p = false ->
  exists s' ps, transfers s msg = Done (s', le_split 4 LL_PACKET_PREAMBLE ++ answer (pending_fw s)) /\
    rx s' = apple_mt_spi_buf_free /\ tx s' = apple_mt_spi_buf_free /\ pending_hbpp s' = pending_hbpp s /\
    pending_fw s' = tail (pending_fw s) ++ ps /\ Forall packet_ok ps /\
    (fun p => (type p, data (buf p))) <$> ps = (fun bs => (LL_PACKET_CONTROL, bs)) <$> replies msg.
Proof.
  intros Hr Ht Hp msg Hl Hv Hst. unfold msg in Hv. rewrite !Forall_cons in Hv. destruct Hv as (_ & V1 & V2 & V3 & Vp & Vb).
  destruct (step_first s Hr Ht) as (s0 & E0 & R0 & T0 & P0 & K0).
  destruct (step_preamble s0 [0xEF] b1 0xBE) as (s1 & E1 & R1 & T1 & P1 & K1); [done..|].
  destruct (step_preamble s1 [0xEF; b1] b2 0xAD) as (s2 & E2 & R2 & T2 & P2 & K2); [done..|].
  destruct (step_preamble s2 [0xEF; b1; b2] b3 0xDE) as (s3 & E3 & R3 & T3 & P3 & K3); [done..|].
  destruct (step_type s3 [0xEF; b1; b2; b3] p) as (s4 & a & c & E4 & Ha & R4 & T4 & Hc & P4 & K4); try done; [by rewrite P3, P2, P1, P0|].
  rewrite P3, P2, P1, P0 in *. set (t := answer (pending_fw s)) in *.
  assert (Htl : length t = 512%nat).
  { unfold t, answer. destruct (pending_fw s) as [|q rest]; [by apply ll_frame_length; cbn; lia|]. apply Forall_cons in Hp as [[Hq _] _]. by apply ll_frame_length. }
  destruct (exists_last (l := body)) as (front & v & Eb); [by destruct body|]. subst body. rewrite length_app in Hl. cbn [length] in Hl.
  apply Forall_app in Vb as [Vf [Vv _]%Forall_cons].
  destruct (body_transfers front s4 [0xEF; b1; b2; b3; p] t c p) as (s5 & E5 & R5 & T5 & P5 & K5); try done; [unfold zlen; cbn [length]; lia|unfold zlen; lia|unfold zlen in Hc; lia|].
  destruct (step_last s5 ([0xEF; b1; b2; b3; p] ++ front) v t c p) as (s6 & z & E6 & Hz & R6 & T6 & K6 & ps & P6 & Hps & Hok); try done;
    [unfold zlen; rewrite length_app; cbn [length]; lia|unfold zlen; lia|unfold zlen in Hc; lia|].
  exists s6, ps. split.
  2: { unfold keeps in *. rewrite <- app_assoc in Hps. split_and!; [done|done|congruence|congruence|done|exact Hps]. }
  unfold msg. change (0xEF :: b1 :: b2 :: b3 :: p :: front ++ [v]) with ([0xEF; b1; b2; b3; p] ++ front ++ [v]).
  assert (Hhead : transfers s [0xEF; b1; b2; b3; p] = Done (s4, le_split 4 LL_PACKET_PREAMBLE ++ [a])).
  { cbn [transfers]. rewrite E0. run. rewrite E1. run. rewrite E2. run. rewrite E3. run. rewrite E4. by run. }
  assert (Htail : transfers s5 [v] = Done (s6, [z])) by (cbn [transfers]; rewrite E6; by run).
  rewrite (transfers_app _ _ _ _ _ _ _ Hhead (transfers_app _ _ _ _ _ _ _ E5 Htail)). do 2 f_equal. rewrite <- app_assoc. f_equal.
  cbn [length]. replace (5 - 4)%nat with 1%nat by lia. change ([a] ++ ?l) with (a :: l).
  rewrite <- (take_drop 511 t) at 2. rewrite <- (firstn_skipn 1 (take 511 t)).
  assert (E1' : take 1 (take 511 t) = [a]) by (destruct t as [|a' t']; [done|]; cbn in Ha; by injection Ha as ->). rewrite E1'.
  assert (E2' : drop 511 t = [z]) by (rewrite (drop_S t z 511 Hz), drop_ge by lia; done). rewrite E2'. cbn [app]. f_equal. f_equal.
  rewrite skipn_firstn_comm. f_equal. lia.
Qed.

(** A request for the family identifier, while a packet waits. *)
Definition request : bytes :=
  [0xEF; 0xBE; 0xAD; 0xDE; LL_PACKET_CONTROL] ++ replicate 7 0 ++ [HID_CONTROL_PACKET_GET_FEATURE_REPORT; HID_REPORT_FAMILY_ID; 0; 5] ++ replicate 500 0.

Definition mt_example : AppleMTSPIState :=
  mkMT true apple_mt_spi_buf_free apple_mt_spi_buf_free apple_mt_spi_buf_free [mkPacket (mkBuf [1; 2; 3] 3 0) LL_PACKET_LOSSLESS_OUTPUT]
    0 None None 0 0 0 0 0 0 0 828 1792 [].

Lemma ll_exchange_witness :
  exists s' ps, transfers mt_example request = Done (s', le_split 4 LL_PACKET_PREAMBLE ++ ll_frame LL_PACKET_LOSSLESS_OUTPUT [1; 2; 3]) /\
    rx s' = apple_mt_spi_buf_free /\ tx s' = apple_mt_spi_buf_free /\ pending_hbpp s' = apple_mt_spi_buf_free /\
    pending_fw s' = [] ++ ps /\ Forall packet_ok ps /\
    (fun p => (type p, data (buf p))) <$> ps =
      [(LL_PACKET_CONTROL, with_crc ([0x51; 0xD1; 0; 5; 0; 0; 2; 0; 0xD1; 0xC3]))].
Proof.
  apply (ll_exchange mt_example 0xBE 0xAD 0xDE LL_PACKET_CONTROL
    (replicate 7 0 ++ [HID_CONTROL_PACKET_GET_FEATURE_REPORT; HID_REPORT_FAMILY_ID; 0; 5] ++ replicate 500 0)); try done.
  - apply Forall_cons_2; [|apply Forall_nil_2]. split; [cbn; lia|by repeat constructor].
  - apply (Forall_impl (fun b => (0 <=? b) && (b <? 256) = true)); [|intros b; unfold in_width; lia].
    apply Forall_forall. intros b Hin%list_elem_of_In. revert b Hin. apply forallb_forall. vm_compute. reflexivity.
Defined.

(** A header that announces 0x3FFE words of data wraps the length of the packet to
    less than the header: the assertion on the capacity fails. *)
Lemma hbpp_data_aborts : transfers (apple_mt_spi_reset_hold (apple_mt_spi_reset_enter mt_example)) ([HBPP_PACKET_DATA; 0; 0x3F; 0xFE] ++ replicate 6 0) = Abort.
Proof. vm_compute. reflexivity. Qed.

(** ** Touches become packets *)

Definition touch_body (s : AppleMTSPIState) (ts path_stage vx vy : Z) : bytes :=
  le_split 1 HID_TRANSFER_PACKET_OUTPUT ++ le_split 1 HID_REPORT_BINARY_PATH_OR_IMAGE ++ le_split 1 HID_PACKET_STATUS_SUCCESS ++
  le_split 1 (frame s) ++ le_split 2 0 ++ le_split 2 48 ++ le_split 1 HID_REPORT_BINARY_PATH_OR_IMAGE ++ concat (path_report s ts path_stage vx vy).

Lemma touch_body_ok s ts path_stage vx vy : length (touch_body s ts path_stage vx vy) = 56%nat /\ Forall (in_width 8) (touch_body s ts path_stage vx vy).
Proof.
  split; [done|]. unfold touch_body, path_report. cbn [concat]. rewrite !Forall_app. split_and!; try apply le_split_bytes. apply Forall_nil_2.
Qed.

(** A field of a packet, as the host reads it. *)
Definition field (body : bytes) (off n : nat) : Z := le_combine (take n (drop off body)).

(** What the host reads in the report of a touch. *)
Record reports (body : bytes) (frame ts path_stage x y vx vy : Z) : Prop := {
  rp_size : length body = 56%nat;
  rp_length : field body 6 2 = zlen body - 8;
  rp_kind : field body 8 1 = HID_REPORT_BINARY_PATH_OR_IMAGE;
  rp_frame : field body 9 1 = frame;
  rp_time : field body 12 4 = u32 (ts / SCALE_MS);
  rp_paths : field body 24 1 = 1 /\ field body 25 1 = 20;
  rp_stage : field body 37 1 = u8 path_stage;
  rp_x : field body 40 2 = u16 x;
  rp_y : field body 42 2 = u16 y;
  rp_vx : field body 44 2 = u16 vx;
  rp_vy : field body 46 2 = u16 vy;
}.

Lemma touch_body_reports s ts path_stage vx vy : 0 <= frame s < 256 ->
  reports (touch_body s ts path_stage vx vy) (frame s) ts path_stage (x s) (y s) vx vy.
Proof.
  intros Hf. pose proof (fun n v => le_combine_split n v) as L. split; try reflexivity.
  - etransitivity; [exact (L 1%nat (frame s))|]. apply wrap_small. unfold in_width. lia.
  - exact (L 4%nat (ts / SCALE_MS)).
  - by split.
  - exact (L 1%nat path_stage).
  - exact (L 2%nat (x s)).
  - exact (L 2%nat (y s)).
  - exact (L 2%nat vx).
  - exact (L 2%nat vy).
Qed.

(** An update of a touch becomes one packet behind the others, in which the host
    reads the frame number, the time in milliseconds, one path with the stage and the
    position of the touch and its speed, and behind them the checksum; the packet is
    one the link layer can send, the line asks for attention and the frame number is
    the next of 256. *)
Theorem touch_update_spec s ts path_stage : 0 <= frame s < 256 ->
  let ts_delta := Z.max (u64 (ts - prev_ts s)) 1 in
  exists s' b body, apple_mt_spi_send_path_update s ts path_stage = Done s' /\
    pending_fw s' = pending_fw s ++ [mkPacket b LL_PACKET_LOSSLESS_OUTPUT] /\ data b = with_crc body /\
    reports body (frame s) ts path_stage (x s) (y s) (speed (sint 32 (x s - prev_x s)) ts_delta) (speed (sint 32 (y s - prev_y s)) ts_delta) /\
    packet_ok (mkPacket b LL_PACKET_LOSSLESS_OUTPUT) /\ irq s' = false /\ frame s' = (frame s + 1) mod 256.
Proof.
  intros Hf ts_delta. set (body := touch_body s ts path_stage (speed (sint 32 (x s - prev_x s)) ts_delta) (speed (sint 32 (y s - prev_y s)) ts_delta)).
  destruct (touch_body_ok s ts path_stage (speed (sint 32 (x s - prev_x s)) ts_delta) (speed (sint 32 (y s - prev_y s)) ts_delta)) as [Hl Hb].
  fold body in Hl, Hb. unfold apple_mt_spi_send_path_update. cbv zeta. cbn [frame x y prev_x prev_y setf]. fold ts_delta.
  unfold apple_mt_spi_push_report_hdr, apple_mt_spi_push_hid_hdr.
  destruct (push_list_ok (apple_mt_spi_buf_ensure_capacity (apple_mt_spi_buf_ensure_capacity (apple_mt_spi_buf_ensure_capacity apple_mt_spi_buf_free (9 + 27 + 20 + 2)) 9) 8)
    [le_split 1 HID_TRANSFER_PACKET_OUTPUT; le_split 1 HID_REPORT_BINARY_PATH_OR_IMAGE; le_split 1 HID_PACKET_STATUS_SUCCESS; le_split 1 (frame s);
     le_split 2 0; le_split 2 (u16 (27 + 20 + 1))] []) as (b & -> & G); [repeat (apply made_ensure; [|done|done]); exact made_free|done|]. run.
  destruct (push_bytes_ok b _ (le_split 1 HID_REPORT_BINARY_PATH_OR_IMAGE) G) as (b1 & E1 & G1); [done|].
  unfold apple_mt_spi_buf_push_byte. rewrite E1. run.
  destruct (push_list_ok b1 (path_report (s <| prev_ts := ts |>) ts path_stage (speed (sint 32 (x s - prev_x s)) ts_delta) (speed (sint 32 (y s - prev_y s)) ts_delta)) _ G1) as (b2 & -> & G2); [done|]. run.
  assert (G3 : made body b2) by (rewrite <- !app_assoc in G2; exact G2).
  destruct (push_crc_ok b2 body G3) as (b3 & -> & G4); [by destruct body|done|unfold zlen; lia|]. run.
  destruct (made_data _ _ G4) as (Hd & _). eexists _, b3, body. split; [done|]. cbn [pending_fw irq frame setf]. split_and!; try done.
  - by apply touch_body_reports.
  - split; cbn [buf]; rewrite Hd; [rewrite length_app, length_le_split; lia|]. apply Forall_app. split; [done|apply le_split_bytes].
  - destruct (Z.ltb_spec (frame s) 0xFF); [|by replace (frame s) with 255 by lia]. unfold wrap. by change (2 ^ 8) with 256.
Qed.

Lemma touch_update_spec_witness :
  let s := mt_example <| x := 100 |> <| y := 200 |> in
  exists s' b body, apple_mt_spi_send_path_update s 5000000 PATH_STAGE_TOUCHING = Done s' /\
    pending_fw s' = pending_fw s ++ [mkPacket b LL_PACKET_LOSSLESS_OUTPUT] /\ data b = with_crc body /\
    reports body 0 5000000 PATH_STAGE_TOUCHING 100 200 0 0 /\
    packet_ok (mkPacket b LL_PACKET_LOSSLESS_OUTPUT) /\ irq s' = false /\ frame s' = 1.
Proof. exact (touch_update_spec (mt_example <| x := 100 |> <| y := 200 |>) 5000000 PATH_STAGE_TOUCHING ltac:(done)). Defined.

(** The times are in nanoseconds and the division is one of integers: the speed of a
    move that takes longer than as many nanoseconds as units is zero. *)
Lemma speed_zero delta ts_delta : Z.abs delta < ts_delta -> speed delta ts_delta = 0.
Proof. intros H. unfold speed. by rewrite Z.div_small by lia. Qed.

(** The position stays on the sensor. *)
Lemma mouse_x_range s now dx dy buttons : 0 <= dx <= INPUT_EVENT_ABS_MAX ->
  0 <= x (apple_mt_spi_mouse_event s now dx dy buttons) <= MT_SENSOR_SURFACE_WIDTH.
Proof.
  intros Hd. assert (E : x (apple_mt_spi_mouse_event s now dx dy buttons) =
    sint 16 (qemu_input_scale_axis dx INPUT_EVENT_ABS_MIN INPUT_EVENT_ABS_MAX 0 MT_SENSOR_SURFACE_WIDTH)).
  { unfold apple_mt_spi_mouse_event. cbv zeta. by repeat destruct (_ && _). }
  rewrite E. unfold INPUT_EVENT_ABS_MIN, INPUT_EVENT_ABS_MAX, MT_SENSOR_SURFACE_WIDTH, qemu_input_scale_axis in *.
  change (0x7FFF - 0 <? 1) with false. cbv iota zeta. rewrite Z.quot_div_nonneg by lia.
  set (q := (dx - 0) * (6458 - 0) / (0x7FFF - 0)).
  assert (0 <= q <= 6458) by (unfold q; split; [apply Z.div_pos; lia|apply Z.div_le_upper_bound; lia]). clearbody q.
  unfold sint. rewrite (wrap_small 32) by (unfold in_width; lia). rewrite (proj2 (Z.ltb_lt _ (2 ^ (32 - 1)))) by lia.
  rewrite wrap_small by (unfold in_width; lia). rewrite (proj2 (Z.ltb_lt _ _)) by lia. lia.
Qed.
