(* ===== verification/Sio.v ===== *)
(** * DMA controller

    Model of [hw/dma/apple_sio.c]: the Smart IO co-processor, whose endpoints move bytes
    between guest memory and devices through queues of buffers the guest maps.  The
    memory core is the interface [DmaMemory]; mapped memory is the guest's memory
    itself.  Messages to the guest are recorded in the order they are sent. *)

From S2P Require Import Prelude CString Dt.

Definition SIO_NUM_EPS : Z := 0xDC.

Inductive DMADirection := DMA_DIRECTION_TO_DEVICE | DMA_DIRECTION_FROM_DEVICE.
#[global] Instance DMADirection_eq_dec : EqDecision DMADirection.
Proof. solve_decision. Defined.

(** The memory core: whether an access to a range succeeds, and how many bytes of a
    range can be mapped at once, none if it cannot be. *)
Class DmaMemory := {
  dma_valid : Z -> Z -> bool;
  dma_memory_map : DMADirection -> Z -> Z -> Z;
}.

(** A segment and a piece of mapped memory: an address and a length. *)
Record SIODMABuffer := mkSIOBuffer {
  segments : list (Z * Z);
  iov : list (Z * Z);
  tag : Z;
  mapped : bool;
  completed : Z;
  start_timestamp : Z;
}.
#[global] Instance eta_SIODMABuffer : Eta SIODMABuffer := fun b =>
  mkSIOBuffer (segments b) (iov b) (tag b) (mapped b) (completed b) (start_timestamp b).

Record AppleSIODMAEndpoint := mkEndpoint {
  config : bytes;
  direction : DMADirection;
  id : Z;
  buffers : list SIODMABuffer;
}.
#[global] Instance eta_AppleSIODMAEndpoint : Eta AppleSIODMAEndpoint := fun e =>
  mkEndpoint (config e) (direction e) (id e) (buffers e).

(** The controller with guest memory, the virtual clock and the messages it sent. *)
Record AppleSIOState := mkSIO {
  eps : list AppleSIODMAEndpoint;
  protocol_version : Z;
  segment_size : Z;
  segment_base : Z;
  resp_base : Z;
  gtimer_freq : Z;
  memory : Z -> Z;
  clock : Z;
  sent : list (Z * Z);
}.
#[global] Instance eta_AppleSIOState : Eta AppleSIOState := fun s =>
  mkSIO (eps s) (protocol_version s) (segment_size s) (segment_base s) (resp_base s) (gtimer_freq s) (memory s) (clock s) (sent s).

Definition OP_PING : Z := 1.
Definition OP_GET_PARAM : Z := 2.
Definition OP_SET_PARAM : Z := 3.
Definition OP_CONFIGURE : Z := 5.
Definition OP_MAP : Z := 6.
Definition OP_QUERY : Z := 7.
Definition OP_STOP : Z := 8.
Definition OP_ACK : Z := 101.
Definition OP_GET_PARAM_RESP : Z := 103.
Definition OP_COMPLETE : Z := 104.
Definition OP_QUERY_OK : Z := 105.
Definition OP_SYNC_ERROR : Z := 2.
Definition EP_CONTROL : Z := 0.
Definition EP_PERF : Z := 3.
Definition PARAM_PROTOCOL_VERSION : Z := 0.
Definition PARAM_SEGMENT_BASE : Z := 1.
Definition PARAM_SEGMENT_SIZE : Z := 2.
Definition PARAM_RESPONSE_BASE : Z := 11.

Record SIOMessage := mkSIOMessage {
  m_ep : Z;
  m_tag : Z;
  m_op : Z;
  m_param : Z;
  m_data : Z;
}.
#[global] Instance eta_SIOMessage : Eta SIOMessage := fun m => mkSIOMessage (m_ep m) (m_tag m) (m_op m) (m_param m) (m_data m).

(** The union of the message and its raw value. *)
Definition raw (m : SIOMessage) : Z :=
  le_combine (le_split 1 (m_ep m) ++ le_split 1 (m_tag m) ++ le_split 1 (m_op m) ++ le_split 1 (m_param m) ++ le_split 4 (m_data m)).

Definition message (r : Z) : SIOMessage :=
  mkSIOMessage (u8 r) (u8 (r .>> 8)) (u8 (r .>> 16)) (u8 (r .>> 24)) (u32 (r .>> 32)).

Definition apple_rtkit_send_user_msg (s : AppleSIOState) (ep msg : Z) : AppleSIOState := s <| sent ::= fun l => l ++ [(ep, msg)] |>.

(** ** Guest memory *)

Definition read_mem (mem : Z -> Z) (addr : Z) (n : nat) : bytes := mem <$> seqZ addr (Z.of_nat n).

Fixpoint write_mem (mem : Z -> Z) (addrs : list Z) (bs : bytes) : Z -> Z :=
  match addrs, bs with
  | a :: addrs, b :: bs => write_mem (fun x => if x =? a then b else mem x) addrs bs
  | _, _ => mem
  end.

(** The addresses of pieces of memory, one after the other. *)
Definition addrs (l : list (Z * Z)) : list Z := concat ((fun '(base, len) => seqZ base len) <$> l).

Definition total (l : list (Z * Z)) : Z := foldr (fun p n => snd p + n) 0 l.

Section Sio.
Context `{DmaMemory}.

Definition dma_memory_read (s : AppleSIOState) (addr : Z) (n : nat) : bool * bytes :=
  (dma_valid addr (Z.of_nat n), read_mem (memory s) addr n).

Definition stq_le_dma (s : AppleSIOState) (addr v : Z) : AppleSIOState :=
  if dma_valid addr 8 then s <| memory ::= fun m => write_mem m (seqZ addr 8) (le_split 8 v) |> else s.

(** ** Endpoints *)

Definition set_ep (s : AppleSIOState) (i : Z) (ep : AppleSIODMAEndpoint) : AppleSIOState :=
  s <| eps ::= fun l => <[Z.to_nat i := ep]> l |>.

Definition apple_sio_get_cur_ts (s : AppleSIOState) : Z :=
  clock s / (if gtimer_freq s <? NANOSECONDS_PER_SECOND then NANOSECONDS_PER_SECOND / gtimer_freq s else 1).

Definition apple_sio_dma_del_buffers (ep : AppleSIODMAEndpoint) : AppleSIODMAEndpoint := ep <| buffers := [] |>.

Definition apple_sio_dma_stop (s : AppleSIOState) (i : Z) (ep : AppleSIODMAEndpoint) : AppleSIOState :=
  let s := set_ep s i (ep <| buffers := [] |>) in
  apple_rtkit_send_user_msg s EP_CONTROL (raw (mkSIOMessage (id ep) 0 OP_COMPLETE 0 0)).

(** The buffer at the head of the queue is done: its timestamps are stored, it leaves
    the queue and the guest is told. *)
Definition apple_sio_dma_writeback (s : AppleSIOState) (ep : AppleSIODMAEndpoint) (buf : SIODMABuffer) : AppleSIOState * AppleSIODMAEndpoint :=
  let end_timestamp := apple_sio_get_cur_ts s in
  let resp_off := u64 (((tag buf - 1) + id ep * 0x20) * 0x10) in
  let s := stq_le_dma s (u64 (resp_base s + resp_off)) (start_timestamp buf) in
  let s := stq_le_dma s (u64 (resp_base s + resp_off + 8)) end_timestamp in
  let m := mkSIOMessage (id ep) (tag buf) OP_COMPLETE (BIT 7) (u32 (completed buf)) in
  (apple_rtkit_send_user_msg s EP_CONTROL (raw m), ep <| buffers ::= tail |>).

Fixpoint map_range (fuel : nat) (dir : DMADirection) (base len : Z) : outcome (option (list (Z * Z))) :=
  if len =? 0 then mret (Some [])
  else match fuel with
       | O => NoFuel
       | S fuel =>
           let xlen := dma_memory_map dir base len in
           if xlen =? 0 then mret None
           else r ← map_range fuel dir (base + xlen) (len - xlen); mret (option_map (cons (base, xlen)) r)
       end.

Fixpoint map_ranges (dir : DMADirection) (l : list (Z * Z)) : outcome (option (list (Z * Z))) :=
  match l with
  | [] => mret (Some [])
  | (base, len) :: l =>
      r ← map_range (Z.to_nat len) dir base len;
      match r with
      | None => mret None
      | Some pieces => r ← map_ranges dir l; mret (option_map (app pieces) r)
      end
  end.

(** The buffer with its memory mapped, none if it cannot be. *)
Definition apple_sio_dma_map_buf (dir : DMADirection) (buf : SIODMABuffer) : outcome (option SIODMABuffer) :=
  if mapped buf then mret (Some buf)
  else r ← map_ranges dir (segments buf); mret (option_map (fun pieces => buf <| iov := pieces |> <| mapped := true |>) r).

(** The addresses of the mapped memory that the next [n] bytes go to or come from. *)
Definition next_addrs (buf : SIODMABuffer) (n : Z) : list Z := take (Z.to_nat n) (drop (Z.to_nat (completed buf)) (addrs (iov buf))).

(** The loop of a read: [n] bytes are wanted, [acc] is what was read. *)
Fixpoint read_loop (fuel : nat) (s : AppleSIOState) (ep : AppleSIODMAEndpoint) (n : Z) (acc : bytes)
    : outcome (AppleSIOState * AppleSIODMAEndpoint * bytes) :=
  if n <=? zlen acc then mret (s, ep, acc)
  else match fuel, buffers ep with
       | O, _ => NoFuel
       | _, [] => mret (s, ep, acc)
       | S fuel, buf :: rest =>
           r ← apple_sio_dma_map_buf (direction ep) buf;
           match r with
           | None => mret (s, ep, acc)
           | Some buf =>
               let src := next_addrs buf (n - zlen acc) in
               let acc := acc ++ (memory s <$> src) in
               let buf := buf <| completed ::= fun c => u64 (c + zlen src) |> in
               let ep := ep <| buffers := buf :: rest |> in
               if total (iov buf) <=? completed buf then
                 let '(s, ep) := apple_sio_dma_writeback s ep buf in read_loop fuel s ep n acc
               else read_loop fuel s ep n acc
           end
       end.

(** The bytes that are read, at most [n]; the bytes of the caller's buffer behind them
    stay as they are. *)
Definition apple_sio_dma_read (s : AppleSIOState) (i n : Z) : outcome (AppleSIOState * bytes) :=
  match eps s !! Z.to_nat i with
  | None => Oob
  | Some ep =>
      c_assert (bool_decide (direction ep = DMA_DIRECTION_TO_DEVICE));;
      if n =? 0 then mret (s, [])
      else '(s, ep, bs) ← read_loop (S (length (buffers ep))) s ep n []; mret (set_ep s i ep, bs)
  end.

(** The loop of a write of what is left of the caller's buffer. *)
Fixpoint write_loop (fuel : nat) (s : AppleSIOState) (ep : AppleSIODMAEndpoint) (bs : bytes) (actual_len : Z)
    : outcome (AppleSIOState * AppleSIODMAEndpoint * Z) :=
  match bs with
  | [] => mret (s, ep, actual_len)
  | _ =>
      match fuel, buffers ep with
      | O, _ => NoFuel
      | _, [] => mret (s, ep, actual_len)
      | S fuel, buf :: rest =>
          r ← apple_sio_dma_map_buf (direction ep) buf;
          match r with
          | None => mret (s, ep, actual_len)
          | Some buf =>
              let dst := next_addrs buf (zlen bs) in
              let s := s <| memory ::= fun m => write_mem m dst bs |> in
              let actual_len := actual_len + zlen dst in
              let buf := buf <| completed ::= fun c => u64 (c + zlen dst) |> in
              let ep := ep <| buffers := buf :: rest |> in
              let bs := drop (length dst) bs in
              if total (iov buf) <=? completed buf then
                let '(s, ep) := apple_sio_dma_writeback s ep buf in write_loop fuel s ep bs actual_len
              else write_loop fuel s ep bs actual_len
          end
      end
  end.

Definition apple_sio_dma_write (s : AppleSIOState) (i : Z) (bs : bytes) : outcome (AppleSIOState * Z) :=
  match eps s !! Z.to_nat i with
  | None => Oob
  | Some ep =>
      c_assert (bool_decide (direction ep = DMA_DIRECTION_FROM_DEVICE));;
      match bs with
      | [] => mret (s, 0)
      | _ => '(s, ep, n) ← write_loop (S (length (buffers ep))) s ep bs 0; mret (set_ep s i ep, n)
      end
  end.

Definition apple_sio_dma_remaining_locked (ep : AppleSIODMAEndpoint) : Z :=
  foldl (fun len buf => u64 (len + (total (segments buf) - completed buf))) 0 (buffers ep).

Definition apple_sio_dma_remaining (s : AppleSIOState) (i : Z) : outcome Z :=
  match eps s !! Z.to_nat i with None => Oob | Some ep => mret (apple_sio_dma_remaining_locked ep) end.

(** ** Messages *)

Definition apple_sio_control_get_param (s : AppleSIOState) (reply : SIOMessage) (param : Z) : SIOMessage :=
  if param =? PARAM_PROTOCOL_VERSION then reply <| m_data := protocol_version s |> <| m_op := OP_GET_PARAM_RESP |>
  else reply <| m_op := OP_SYNC_ERROR |>.

Definition apple_sio_control_set_param (s : AppleSIOState) (reply : SIOMessage) (param value : Z) : AppleSIOState * SIOMessage :=
  let s :=
    if param =? PARAM_SEGMENT_BASE then s <| segment_base := u32 (value .<< 12) |>
    else if param =? PARAM_SEGMENT_SIZE then s <| segment_size := value |>
    else if param =? PARAM_RESPONSE_BASE then s <| resp_base := u32 (value .<< 12) |>
    else s in
  (s, reply <| m_op := OP_ACK |>).

Definition apple_sio_control (s : AppleSIOState) (m : SIOMessage) : AppleSIOState :=
  let reply := mkSIOMessage (m_ep m) (m_tag m) 0 0 0 in
  let '(s, reply) :=
    if m_op m =? OP_GET_PARAM then (s, apple_sio_control_get_param s reply (m_param m))
    else if m_op m =? OP_SET_PARAM then apple_sio_control_set_param s reply (m_param m) (m_data m)
    else (s, reply) in
  apple_rtkit_send_user_msg s EP_CONTROL (raw reply).

(** The segments in memory: an address and a length, in 12 bytes. *)
Fixpoint parse_segments (n : nat) (bs : bytes) : list (Z * Z) :=
  match n with
  | O => []
  | S n => (le_combine (take 8 bs), le_combine (take 4 (drop 8 bs))) :: parse_segments n (drop 12 bs)
  end.

(** A new buffer behind the others. *)
Definition map_op (s : AppleSIOState) (i : Z) (ep : AppleSIODMAEndpoint) (m : SIOMessage) : AppleSIOState * Z :=
  let segment_addr := u64 (segment_base s + u32 (m_data m * 0xC)) in
  let '(ok, bs) := dma_memory_read s (segment_addr + 0x3C) 4 in
  if negb ok then (s, OP_SYNC_ERROR)
  else
    let segment_count := le_combine bs in
    let '(ok, bs) := dma_memory_read s (segment_addr + 0x48) (Z.to_nat (segment_count * 12)) in
    if negb ok then (s, OP_SYNC_ERROR)
    else
      let buf := mkSIOBuffer (parse_segments (Z.to_nat segment_count) bs) [] (m_tag m) false 0 (apple_sio_get_cur_ts s) in
      (set_ep s i (ep <| buffers ::= fun l => l ++ [buf] |>), OP_ACK).

Definition apple_sio_dma (s : AppleSIOState) (i : Z) (ep : AppleSIODMAEndpoint) (m : SIOMessage) : outcome AppleSIOState :=
  let reply := mkSIOMessage (m_ep m) (m_tag m) 0 0 0 in
  let answer s op data := mret (apple_rtkit_send_user_msg s EP_CONTROL (raw (reply <| m_op := op |> <| m_data := data |>))) in
  if m_op m =? OP_PING then answer s OP_ACK 0
  else if m_op m =? OP_CONFIGURE then
    let '(ok, bs) := dma_memory_read s (u64 (segment_base s + u32 (m_data m * 0xC))) 28 in
    let s := set_ep s i (ep <| config := bs |>) in
    answer s (if ok then OP_ACK else OP_SYNC_ERROR) 0
  else if m_op m =? OP_MAP then
    c_assert (m_param m =? 0);; let '(s, op) := map_op s i ep m in answer s op 0
  else if m_op m =? OP_QUERY then
    match buffers ep with
    | [] => answer s OP_SYNC_ERROR 0
    | _ => answer s OP_QUERY_OK (u32 (apple_sio_dma_remaining_locked ep))
    end
  else if m_op m =? OP_STOP then
    s ← answer s OP_ACK 0; mret (apple_sio_dma_stop s i ep)
  else answer s OP_SYNC_ERROR 0.

Definition apple_sio_handle_endpoint (s : AppleSIOState) (msg : Z) : outcome AppleSIOState :=
  let m := message msg in
  if (m_ep m =? EP_CONTROL) || (m_ep m =? EP_PERF) then mret (apple_sio_control s m)
  else if SIO_NUM_EPS <=? m_ep m then mret s
  else match eps s !! Z.to_nat (m_ep m) with None => Oob | Some ep => apple_sio_dma s (m_ep m) ep m end.

Definition apple_sio_get_endpoint (ep : Z) : option Z :=
  if (ep <=? EP_PERF) || (SIO_NUM_EPS <=? ep) then None else Some ep.

Definition apple_sio_get_endpoint_from_node (node : AppleDTNode) (idx : Z) : outcome (option Z) :=
  match apple_dt_get_prop node (str "dma-channels") with
  | None => mret None
  | Some prop =>
      if p_len prop / 32 <=? idx then mret None
      else bs ← slice (p_data prop) (32 * idx) 4; mret (apple_sio_get_endpoint (s32 (le_combine bs)))
  end.

(** The endpoints after the device is made; odd ones write to memory. *)
Definition apple_sio_realize (s : AppleSIOState) : AppleSIOState :=
  s <| eps := (fun i => mkEndpoint (replicate 28 0) (if nonzero (Z.of_nat i .& 1) then DMA_DIRECTION_FROM_DEVICE else DMA_DIRECTION_TO_DEVICE) (Z.of_nat i) []) <$>
         seq 0 (Z.to_nat SIO_NUM_EPS) |>.

Definition apple_sio_reset_hold (s : AppleSIOState) : AppleSIOState :=
  let s := s <| segment_base := 0 |> <| segment_size := 0 |> in
  s <| eps ::= fmap (fun ep => apple_sio_dma_del_buffers ep <| config := replicate 28 0 |>) |>.

(** After migration the memory of the buffers is mapped again, where it was. *)
Fixpoint remap (dir : DMADirection) (l : list SIODMABuffer) : outcome (list SIODMABuffer) :=
  match l with
  | [] => mret []
  | buf :: l =>
      buf' ← (if mapped buf then
                r ← apple_sio_dma_map_buf dir (buf <| mapped := false |>);
                mret (default (buf <| mapped := false |>) r)
              else mret buf);
      l' ← remap dir l;
      mret (buf' :: l')
  end.

Definition vmstate_apple_sio_dma_endpoint_post_load (ep : AppleSIODMAEndpoint) : outcome AppleSIODMAEndpoint :=
  l ← remap (direction ep) (buffers ep); mret (ep <| buffers := l |>).

(** ** Endpoints as streams *)

(** The addresses an endpoint has left, in the order it uses them. *)
Definition left_of (b : SIODMABuffer) : list Z := drop (Z.to_nat (completed b)) (addrs (segments b)).
Definition todo (l : list SIODMABuffer) : list Z := concat (left_of <$> l).

Definition sized (l : list (Z * Z)) : Prop := Forall (fun p => 0 <= snd p) l.

Record buffer_ok (b : SIODMABuffer) : Prop := {
  bo_sized : sized (segments b);
  bo_total : total (segments b) < 2 ^ 64;
  bo_completed : 0 <= completed b <= total (segments b);
  bo_mapped : mapped b = true -> sized (iov b) /\ addrs (iov b) = addrs (segments b);
}.

(** Where the timestamps of a buffer go. *)
Definition resp_addrs (s : AppleSIOState) (ep : AppleSIODMAEndpoint) (b : SIODMABuffer) : list Z :=
  let resp_off := u64 (((tag b - 1) + id ep * 0x20) * 0x10) in
  seqZ (u64 (resp_base s + resp_off)) 8 ++ seqZ (u64 (resp_base s + resp_off + 8)) 8.

Definition resp_apart (s : AppleSIOState) (ep : AppleSIODMAEndpoint) (l : list SIODMABuffer) : Prop :=
  forall b a, In b l -> In a (resp_addrs s ep b) -> ~ In a (todo l).

Lemma addrs_length l : sized l -> zlen (addrs l) = total l.
Proof.
  induction 1 as [|[base n] l Hn _ IH]; [done|]. unfold addrs in *. cbn [fmap list_fmap concat]. cbn [snd] in Hn. rewrite zlen_app, IH.
  change (total ((base, n) :: l)) with (n + total l). unfold zlen. rewrite length_seqZ. lia.
Qed.

Lemma segs_nonneg l : sized l -> 0 <= total l.
Proof. intros Hl. rewrite <- addrs_length by done. unfold zlen. lia. Qed.

(** Memory that can be mapped at all can be mapped a piece at a time. *)
Hypothesis dma_map_progress : forall dir base len, 0 < len -> 0 < dma_memory_map dir base len <= len.

Lemma map_range_ok fuel : forall dir base len, 0 <= len -> (Z.to_nat len <= fuel)%nat ->
  exists l, map_range fuel dir base len = Done (Some l) /\ sized l /\ addrs l = seqZ base len.
Proof.
  induction fuel as [|fuel IH]; intros dir base len Hl Hf; cbn [map_range]; destruct (Z.eqb_spec len 0) as [->|Hne]; try lia.
  1, 2: exists []; split_and!; [done|by apply Forall_nil_2|done].
  pose proof (dma_map_progress dir base len ltac:(lia)) as Hx. set (xlen := dma_memory_map dir base len) in *.
  cbv zeta. rewrite (proj2 (Z.eqb_neq xlen 0)) by lia. destruct (IH dir (base + xlen) (len - xlen)) as (l & -> & Hs & Ha); [lia|lia|]. run.
  exists ((base, xlen) :: l). split; [done|]. split; [apply Forall_cons_2; [cbn; lia|done]|]. unfold addrs in *. cbn [fmap list_fmap concat].
  rewrite Ha, <- seqZ_app by lia. f_equal. lia.
Qed.

Lemma map_ranges_ok dir l : sized l -> exists l', map_ranges dir l = Done (Some l') /\ sized l' /\ addrs l' = addrs l.
Proof.
  induction 1 as [|[base n] l Hn _ IH]; cbn [map_ranges]; [exists []; split_and!; [done|by apply Forall_nil_2|done]|].
  destruct (map_range_ok (Z.to_nat n) dir base n Hn ltac:(lia)) as (p & -> & Hp & Ep). run. destruct IH as (l' & -> & Hl & El). run.
  exists (p ++ l'). split; [done|]. split; [by apply Forall_app|]. unfold addrs in *. rewrite fmap_app, concat_app. cbn [fmap list_fmap concat].
  by rewrite Ep, El.
Qed.

Lemma map_buf_ok dir b : buffer_ok b -> exists b', apple_sio_dma_map_buf dir b = Done (Some b') /\ mapped b' = true /\ sized (iov b') /\
  addrs (iov b') = addrs (segments b) /\ segments b' = segments b /\ completed b' = completed b /\ tag b' = tag b.
Proof.
  intros [H1 H2 H3 H4]. unfold apple_sio_dma_map_buf. destruct (mapped b) eqn:E.
  - exists b. destruct (H4 eq_refl). by rewrite E.
  - destruct (map_ranges_ok dir (segments b) H1) as (l & -> & Hl & El). run. by eexists.
Qed.

(** The head of the queue after [k] more of its bytes. *)
Lemma head_step dir b k : buffer_ok b -> 0 <= k -> exists b1,
  apple_sio_dma_map_buf dir b = Done (Some b1) /\ let n := Z.min k (total (segments b) - completed b) in
  next_addrs b1 k = take (Z.to_nat k) (left_of b) /\ zlen (next_addrs b1 k) = n /\
  let b2 := b1 <| completed ::= fun c => u64 (c + zlen (next_addrs b1 k)) |> in
  buffer_ok b2 /\ tag b2 = tag b /\ segments b2 = segments b /\ completed b2 = completed b + n /\ total (iov b2) = total (segments b).
Proof.
  intros Hb Hk. destruct (map_buf_ok dir b Hb) as (b1 & E & Hm & Hs & Ha & Hseg & Hc & Ht). exists b1. split; [done|]. destruct Hb as [H1 H2 H3 H4].
  assert (Hnext : next_addrs b1 k = take (Z.to_nat k) (left_of b)) by (unfold next_addrs, left_of; by rewrite Ha, Hc).
  pose proof (addrs_length _ H1) as Hlen.
  assert (Hz : zlen (next_addrs b1 k) = Z.min k (total (segments b) - completed b)).
  { rewrite Hnext. unfold left_of, zlen in *. rewrite length_take, length_drop. lia. }
  cbv zeta. split; [done|]. split; [done|]. rewrite Hz. set (n := Z.min k _) in *.
  assert (Hc2 : completed (b1 <| completed ::= fun c => u64 (c + n) |>) = completed b + n).
  { cbn [completed setf]. rewrite Hc. apply wrap_small. unfold in_width. lia. }
  assert (Htot : total (iov b1) = total (segments b)) by (rewrite <- !addrs_length by done; by rewrite Ha).
  split; [|by rewrite Hc2]. split; [by cbn; rewrite Hseg|by cbn; rewrite Hseg|rewrite Hc2; cbn [segments setf]; rewrite Hseg; lia|].
  intros _. cbn [iov segments setf]. by rewrite Hseg.
Qed.

(** What leaves the queue when [n] bytes are moved. *)
Fixpoint done_with (n : Z) (l : list SIODMABuffer) : list SIODMABuffer :=
  match l with
  | [] => []
  | b :: l => let r := total (segments b) - completed b in if n <=? 0 then [] else if r <=? n then b :: done_with (n - r) l else []
  end.

Definition completion (ep : Z) (b : SIODMABuffer) : Z * Z :=
  (EP_CONTROL, raw (mkSIOMessage ep (tag b) OP_COMPLETE (BIT 7) (u32 (total (segments b))))).

Lemma write_mem_other addrs : forall mem bs a, ~ In a addrs -> write_mem mem addrs bs a = mem a.
Proof.
  induction addrs as [|x l IH]; intros mem [|b bs] a Hn; cbn [write_mem]; try done. rewrite IH by (intros ?; apply Hn; by right).
  destruct (Z.eqb_spec a x); [|done]. exfalso. apply Hn. by left.
Qed.

Lemma stq_other s addr v a : ~ In a (seqZ addr 8) -> memory (stq_le_dma s addr v) a = memory s a.
Proof. intros Hn. unfold stq_le_dma. destruct (dma_valid addr 8); [|done]. cbn [memory setf]. by apply write_mem_other. Qed.

Lemma stq_rest s addr v : resp_base (stq_le_dma s addr v) = resp_base s /\ sent (stq_le_dma s addr v) = sent s /\ eps (stq_le_dma s addr v) = eps s.
Proof. unfold stq_le_dma. by destruct (dma_valid addr 8). Qed.

Lemma writeback_spec s ep b : let '(s', ep') := apple_sio_dma_writeback s ep b in
  ep' = ep <| buffers ::= tail |> /\ resp_base s' = resp_base s /\ eps s' = eps s /\
  sent s' = sent s ++ [(EP_CONTROL, raw (mkSIOMessage (id ep) (tag b) OP_COMPLETE (BIT 7) (u32 (completed b))))] /\
  forall a, ~ In a (resp_addrs s ep b) -> memory s' a = memory s a.
Proof.
  unfold apple_sio_dma_writeback, resp_addrs. cbv zeta. set (off := u64 (_ * 0x10)). set (s1 := stq_le_dma s _ _).
  destruct (stq_rest s (u64 (resp_base s + off)) (start_timestamp b)) as (R1 & S1 & E1). fold s1 in R1, S1, E1.
  set (s2 := stq_le_dma s1 _ _). destruct (stq_rest s1 (u64 (resp_base s1 + off + 8)) (apple_sio_get_cur_ts s)) as (R2 & S2 & E2). fold s2 in R2, S2, E2.
  cbn [resp_base eps sent memory setf apple_rtkit_send_user_msg]. split_and!; try congruence.
  intros a Ha. rewrite in_app_iff in Ha. change (memory s2 a = memory s a). unfold s2. rewrite stq_other by (rewrite R1; tauto). apply stq_other. tauto.
Qed.

Lemma todo_cons b l : todo (b :: l) = left_of b ++ todo l.
Proof. done. Qed.

Lemma left_length b : buffer_ok b -> zlen (left_of b) = total (segments b) - completed b.
Proof. intros [H1 H2 H3 _]. pose proof (addrs_length _ H1). unfold left_of, zlen in *. rewrite length_drop. lia. Qed.

(** An endpoint with another queue. *)
Definition with_queue (ep : AppleSIODMAEndpoint) (l : list SIODMABuffer) : AppleSIODMAEndpoint := ep <| buffers := l |>.

Lemma resp_apart_tail s s' ep ep' b l : resp_apart s ep (b :: l) -> resp_base s' = resp_base s -> id ep' = id ep -> resp_apart s' ep' l.
Proof.
  intros Hr Hb Hi b' a Hin Ha Ht. apply (Hr b' a); [by right| |].
  - unfold resp_addrs in *. by rewrite Hb, Hi in Ha.
  - rewrite todo_cons. apply in_or_app. by right.
Qed.

Lemma read_loop_spec l : forall s ep n acc fuel, buffers ep = l -> (length l < fuel)%nat -> Forall buffer_ok l -> resp_apart s ep l ->
  let k := n - zlen acc in
  exists s' l', read_loop fuel s ep n acc = Done (s', with_queue ep l', acc ++ (memory s <$> take (Z.to_nat k) (todo l))) /\
    todo l' = drop (Z.to_nat k) (todo l) /\ Forall buffer_ok l' /\ sent s' = sent s ++ (completion (id ep) <$> done_with k l) /\
    eps s' = eps s /\ forall a, (forall b, In b l -> ~ In a (resp_addrs s ep b)) -> memory s' a = memory s a.
Proof.
  induction l as [|b l IH]; intros s ep n acc fuel Hq Hf Hok Hr k; (destruct fuel as [|fuel]; [cbn in Hf; lia|]); cbn [read_loop];
    destruct (Z.leb_spec n (zlen acc)) as [Hn|Hn]; rewrite ?Hq.
  1, 2: exists s, []; change (todo []) with (@nil Z); rewrite take_nil, drop_nil, !app_nil_r; destruct ep; cbn in Hq; subst; done.
  { exists s, (b :: l). replace (Z.to_nat k) with O by lia. rewrite app_nil_r. cbn [done_with]. rewrite (proj2 (Z.leb_le k 0)) by lia.
    rewrite app_nil_r. destruct ep; cbn in Hq; subst; done. }
  apply Forall_cons in Hok as [Hb Hok]. destruct (head_step (direction ep) b k Hb ltac:(lia)) as (b1 & -> & Hnext & Hz & Hb2 & Ht2 & Hs2 & Hc2 & Hi2).
  run. fold k. cbv zeta. set (src := next_addrs b1 k) in *. set (b2 := b1 <| completed ::= _ |>) in *. set (m := Z.min k (total (segments b) - completed b)) in *.
  pose proof (left_length b Hb) as Hleft. cbn [done_with]. rewrite (proj2 (Z.leb_gt k 0)) by lia. rewrite Hi2, Hc2.
  assert (Hsrc : memory s <$> src = memory s <$> take (Z.to_nat m) (left_of b)).
  { f_equal. rewrite Hnext. unfold m. destruct (Z.le_gt_cases k (total (segments b) - completed b)).
    - by rewrite Z.min_l.
    - rewrite !take_ge; unfold zlen in *; lia || done. }
  assert (Hzl : zlen (memory s <$> src) = m) by (unfold zlen in *; rewrite length_fmap; lia).
  destruct (Z.leb_spec (total (segments b)) (completed b + m)) as [Hdone|Hmore].
  - assert (Em : m = total (segments b) - completed b) by lia. rewrite (proj2 (Z.leb_le _ k)) by lia.
    pose proof (writeback_spec s (ep <| buffers := b2 :: l |>) b2) as Hw. destruct (apple_sio_dma_writeback _ _ _) as [s1 ep1].
    destruct Hw as (-> & Hrb & He & Hsent & Hmem).
    assert (Hq1 : buffers (ep <| buffers := b2 :: l |> <| buffers ::= tail |>) = l) by done.
    destruct (IH s1 (ep <| buffers := b2 :: l |> <| buffers ::= tail |>) n (acc ++ (memory s <$> src)) fuel Hq1 ltac:(cbn in Hf; lia) Hok) as (s2 & l' & -> & Htodo & Hok' & Hsent' & He' & Hmem').
    { by eapply resp_apart_tail. }
    assert (Hk : n - zlen (acc ++ (memory s <$> src)) = k - m) by (rewrite zlen_app; lia). rewrite Hk in *.
    assert (Hresp : resp_addrs s (ep <| buffers := b2 :: l |>) b2 = resp_addrs s ep b) by (unfold resp_addrs; by rewrite Ht2).
    exists s2, l'. split_and!; [|rewrite Htodo|done| |congruence|].
    + do 2 f_equal. rewrite <- app_assoc. f_equal. rewrite Hsrc, todo_cons, take_app, fmap_app. f_equal.
      * f_equal. rewrite !take_ge; unfold zlen in *; lia || done.
      * replace (Z.to_nat k - length (left_of b))%nat with (Z.to_nat (k - m)) by (unfold zlen in *; lia).
        apply list_fmap_ext. intros i a Ha%list_elem_of_lookup_2. apply Hmem. rewrite Hresp. intros Hin. apply (Hr b a); [by left|done|].
        rewrite todo_cons. apply in_or_app. right. apply list_elem_of_In. eapply elem_of_take in Ha as (j & Hj & _). by eapply list_elem_of_lookup_2.
    + rewrite todo_cons, drop_app, (drop_ge (left_of b)) by (unfold zlen in *; lia). cbn [app]. f_equal. unfold zlen in *. lia.
    + rewrite Hsent', Hsent, <- app_assoc. f_equal. cbn [fmap list_fmap app]. f_equal; [|by rewrite Em]. unfold completion. cbn [id setf].
      rewrite Ht2, Hc2. do 4 f_equal. lia.
    + intros a Ha. rewrite Hmem'; [apply Hmem; rewrite Hresp; apply Ha; by left|]. intros b' Hb'. 
      intros Hin. apply (Ha b'); [by right|]. unfold resp_addrs in *. by rewrite Hrb in Hin.
  - assert (Em : m = k) by lia. rewrite (proj2 (Z.leb_gt _ k)) by lia. exists s, (b2 :: l). rewrite Hsrc, todo_cons, Em in *.
    split_and!; [|rewrite todo_cons|by apply Forall_cons|by rewrite app_nil_r|done|done].
    + rewrite take_app_le by (unfold zlen in *; lia). destruct fuel; cbn [read_loop]; rewrite (proj2 (Z.leb_le n _)); [done|rewrite zlen_app; lia|done|rewrite zlen_app; lia].
    + rewrite drop_app_le by (unfold zlen in *; lia). f_equal. unfold left_of. rewrite Hs2, Hc2, drop_drop. f_equal. pose proof (bo_completed _ Hb). lia.
Qed.

(** ** What a transfer leaves alone *)

Lemma map_buf_tag dir b b' : apple_sio_dma_map_buf dir b = Done (Some b') -> tag b' = tag b.
Proof.
  unfold apple_sio_dma_map_buf. destruct (mapped b); [by intros [= ->]|]. intros E. apply bind_Done_inv in E as ([l|] & _ & E); [|done].
  by injection E as <-.
Qed.

Lemma writeback_base s ep b : resp_base (apple_sio_dma_writeback s ep b).1 = resp_base s.
Proof. pose proof (writeback_spec s ep b) as Hw. destruct (apple_sio_dma_writeback s ep b). apply Hw. Qed.

Lemma read_loop_frame fuel : forall s ep n acc s' ep' bs, read_loop fuel s ep n acc = Done (s', ep', bs) ->
  resp_base s' = resp_base s /\ incl (tag <$> buffers ep') (tag <$> buffers ep).
Proof.
  induction fuel as [|fuel IH]; intros s ep n acc s' ep' bs E; cbn [read_loop] in E; destruct (n <=? zlen acc); try done; try (injection E as <- <- <-; split; [done|apply incl_refl]).
  destruct (buffers ep) as [|b l] eqn:Hq; [injection E as <- <- <-; rewrite Hq; split; [done|apply incl_refl]|]. apply bind_Done_inv in E as ([b1|] & E1 & E); [|injection E as <- <- <-; rewrite Hq; split; [done|apply incl_refl]].
  apply map_buf_tag in E1. cbv zeta in E. set (b2 := b1 <| completed ::= _ |>) in E. set (ep1 := ep <| buffers := b2 :: l |>) in E.
  assert (Hb : tag <$> buffers ep1 = tag b :: (tag <$> l)) by (cbn; by rewrite <- E1). cbn [fmap list_fmap]. destruct (_ <=? _).
  - pose proof (writeback_base s ep1 b2) as Hw. pose proof (writeback_spec s ep1 b2) as Hw2. destruct (apple_sio_dma_writeback s ep1 b2) as [s2 ep2]. cbn [fst] in Hw.
    destruct Hw2 as [-> _]. apply IH in E as [Hs Hi]. split; [by rewrite Hs, Hw|]. apply incl_tl, Hi.
  - apply IH in E as [Hs Hi]. split; [exact Hs|]. by rewrite Hb in Hi.
Qed.

Lemma write_loop_frame fuel : forall s ep bs k s' ep' n, write_loop fuel s ep bs k = Done (s', ep', n) ->
  resp_base s' = resp_base s /\ incl (tag <$> buffers ep') (tag <$> buffers ep).
Proof.
  induction fuel as [|fuel IH]; intros s ep [|x bs] k s' ep' n E; cbn [write_loop] in E; try done; try (injection E as <- <- <-; split; [done|apply incl_refl]).
  destruct (buffers ep) as [|b l] eqn:Hq; [injection E as <- <- <-; rewrite Hq; split; [done|apply incl_refl]|]. apply bind_Done_inv in E as ([b1|] & E1 & E); [|injection E as <- <- <-; rewrite Hq; split; [done|apply incl_refl]].
  apply map_buf_tag in E1. cbv zeta in E. set (b2 := b1 <| completed ::= _ |>) in E. set (ep1 := ep <| buffers := b2 :: l |>) in E. set (s1 := s <| memory ::= _ |>) in E.
  assert (Hb : tag <$> buffers ep1 = tag b :: (tag <$> l)) by (cbn; by rewrite <- E1). cbn [fmap list_fmap]. destruct (_ <=? _).
  - pose proof (writeback_base s1 ep1 b2) as Hw. pose proof (writeback_spec s1 ep1 b2) as Hw2. destruct (apple_sio_dma_writeback s1 ep1 b2) as [s2 ep2]. cbn [fst] in Hw.
    destruct Hw2 as [-> _]. apply IH in E as [Hs Hi]. split; [by rewrite Hs, Hw|]. apply incl_tl, Hi.
  - apply IH in E as [Hs Hi]. split; [exact Hs|]. by rewrite Hb in Hi.
Qed.

(** All that a read does. *)
Lemma dma_read_ok s i ep n : eps s !! Z.to_nat i = Some ep -> direction ep = DMA_DIRECTION_TO_DEVICE ->
  Forall buffer_ok (buffers ep) -> resp_apart s ep (buffers ep) -> 0 <= n ->
  exists s' l', apple_sio_dma_read s i n = Done (s', memory s <$> take (Z.to_nat n) (todo (buffers ep))) /\
    eps s' = <[Z.to_nat i := with_queue ep l']> (eps s) /\ todo l' = drop (Z.to_nat n) (todo (buffers ep)) /\ Forall buffer_ok l' /\
    sent s' = sent s ++ (completion (id ep) <$> done_with n (buffers ep)) /\
    (forall a, (forall b, In b (buffers ep) -> ~ In a (resp_addrs s ep b)) -> memory s' a = memory s a) /\
    resp_base s' = resp_base s /\ incl (tag <$> l') (tag <$> buffers ep).
Proof.
  intros He Hd Hok Hr Hn. unfold apple_sio_dma_read. rewrite He, Hd. rewrite bool_decide_eq_true_2 by done. cbn [c_assert]. run.
  destruct (Z.eqb_spec n 0) as [->|].
  - exists s, (buffers ep). split_and!; try done.
    + rewrite list_insert_id; [done|]. by destruct ep.
    + destruct (buffers ep); by rewrite app_nil_r.
    + apply incl_refl.
  - destruct (read_loop_spec (buffers ep) s ep n [] (S (length (buffers ep))) eq_refl ltac:(lia) Hok Hr) as (s' & l' & E & Ht & Hok' & Hs & He' & Hm).
    destruct (read_loop_frame _ _ _ _ _ _ _ _ E) as [Hb Hi]. rewrite E. run. change (n - zlen []) with (n - 0) in *. rewrite Z.sub_0_r in *.
    eexists _, l'. split; [done|]. cbn [eps sent memory resp_base set_ep setf]. rewrite He'. done.
Qed.


Lemma write_mem_ext l : forall m m' bs a, m a = m' a -> write_mem m l bs a = write_mem m' l bs a.
Proof. induction l as [|x l IH]; intros m m' [|b bs] a E; cbn [write_mem]; try done. apply IH. by destruct (a =? x). Qed.

Lemma write_mem_app x : forall m y bs, (length x <= length bs)%nat -> write_mem m (x ++ y) bs = write_mem (write_mem m x bs) y (drop (length x) bs).
Proof. induction x as [|a x IH]; intros m y [|b bs] Hl; cbn [write_mem app length drop] in *; try lia; [by destruct y|done|]. apply IH. lia. Qed.

(** What the loop of a write leaves: the queue [l'] and the memory. *)
Lemma write_loop_spec l : forall s ep bs actual_len fuel, buffers ep = l -> (length l < fuel)%nat -> Forall buffer_ok l ->
  exists s' l', write_loop fuel s ep bs actual_len = Done (s', with_queue ep l', actual_len + Z.min (zlen bs) (zlen (todo l))) /\
    todo l' = drop (length bs) (todo l) /\ Forall buffer_ok l' /\ sent s' = sent s ++ (completion (id ep) <$> done_with (zlen bs) l) /\
    eps s' = eps s /\ forall a, (forall b, In b l -> ~ In a (resp_addrs s ep b)) -> memory s' a = write_mem (memory s) (take (length bs) (todo l)) bs a.
Proof.
  induction l as [|b l IH]; intros s ep bs n fuel Hq Hf Hok; (destruct fuel as [|fuel]; [cbn in Hf; lia|]); destruct bs as [|x bs0]; cbn [write_loop]; rewrite ?Hq.
  1, 2: exists s, []; change (todo []) with (@nil Z); rewrite take_nil, drop_nil, app_nil_r; destruct ep; cbn in Hq; subst; split_and!; try done; do 2 f_equal; unfold zlen; cbn; lia.
  { exists s, (b :: l). cbn [done_with take length]. rewrite app_nil_r. destruct ep; cbn in Hq; subst. split_and!; try done. do 2 f_equal. unfold zlen. cbn [length]. lia. }
  apply Forall_cons in Hok as [Hb Hok]. set (bs := x :: bs0) in *. set (k := zlen bs). assert (Hk0 : 0 < k) by (unfold k, bs, zlen; cbn [length]; lia).
  destruct (head_step (direction ep) b k Hb ltac:(lia)) as (b1 & -> & Hnext & Hz & Hb2 & Ht2 & Hs2 & Hc2 & Hi2).
  run. fold k. cbv zeta. set (dst := next_addrs b1 k) in *. set (b2 := b1 <| completed ::= _ |>) in *. set (m := Z.min k (total (segments b) - completed b)) in *.
  pose proof (left_length b Hb) as Hleft. cbn [done_with]. rewrite (proj2 (Z.leb_gt k 0)) by lia. rewrite Hi2, Hc2.
  assert (Hlk : Z.to_nat k = length bs) by (unfold k, zlen; lia). rewrite Hlk in Hnext.
  set (s0 := s <| memory ::= fun mem => write_mem mem dst bs |>). rewrite todo_cons.
  destruct (Z.leb_spec (total (segments b)) (completed b + m)) as [Hdone|Hmore].
  - assert (Em : m = total (segments b) - completed b) by lia. rewrite (proj2 (Z.leb_le _ k)) by lia.
    assert (Ed : dst = left_of b) by (rewrite Hnext, take_ge; [done|unfold zlen, k in *; lia]).
    pose proof (writeback_spec s0 (ep <| buffers := b2 :: l |>) b2) as Hw. destruct (apple_sio_dma_writeback _ _ _) as [s1 ep1].
    destruct Hw as (-> & Hrb & He & Hsent & Hmem).
    assert (Hq1 : buffers (ep <| buffers := b2 :: l |> <| buffers ::= tail |>) = l) by done.
    destruct (IH s1 (ep <| buffers := b2 :: l |> <| buffers ::= tail |>) (drop (length dst) bs) (n + zlen dst) fuel Hq1 ltac:(cbn in Hf; lia) Hok)
      as (s2 & l' & -> & Htodo & Hok' & Hsent' & He' & Hmem').
    assert (Hdl : zlen (drop (length dst) bs) = k - m) by (unfold zlen, k in *; rewrite length_drop; lia).
    assert (Hresp : resp_addrs s0 (ep <| buffers := b2 :: l |>) b2 = resp_addrs s ep b) by (unfold resp_addrs; by rewrite Ht2).
    exists s2, l'. split_and!; [|rewrite Htodo|done| |rewrite He', He; done|].
    + do 2 f_equal. rewrite zlen_app, Hdl. lia.
    + rewrite drop_app, (drop_ge (left_of b)) by (unfold zlen, k in *; lia). cbn [app]. f_equal. rewrite length_drop. by rewrite Ed.
    + rewrite Hsent', Hsent, Hdl. cbn [sent s0 setf]. rewrite <- app_assoc. f_equal. cbn [fmap list_fmap app]. f_equal; [|by rewrite Em].
      unfold completion. cbn [id setf]. rewrite Ht2, Hc2. do 4 f_equal. lia.
    + intros a Ha. rewrite Hmem'; [|intros b' Hb' Hin; apply (Ha b'); [by right|]; unfold resp_addrs in *; by rewrite Hrb in Hin].
      rewrite take_app, (take_ge (left_of b)) by (unfold zlen, k in *; lia). rewrite write_mem_app by (unfold zlen, k in *; lia).
      rewrite <- Ed. replace (length bs - length dst)%nat with (length (drop (length dst) bs)) by (rewrite length_drop; lia).
      apply write_mem_ext. rewrite Hmem; [done|]. rewrite Hresp. apply Ha. by left.
  - assert (Em : m = k) by lia. rewrite (proj2 (Z.leb_gt _ k)) by lia. exists s0, (b2 :: l).
    assert (Hlt : (length bs <= length (left_of b))%nat) by (unfold zlen, k in *; lia).
    assert (Hld : length dst = length bs) by (rewrite Hnext, length_take; lia).
    split_and!; [|rewrite todo_cons|by apply Forall_cons|by rewrite app_nil_r|done|].
    + rewrite drop_ge by lia. destruct fuel; cbn [write_loop]; do 2 f_equal; rewrite zlen_app; unfold zlen, k in *; lia.
    + rewrite drop_app_le by lia. f_equal. unfold left_of. rewrite Hs2, Hc2, drop_drop. f_equal. pose proof (bo_completed _ Hb). lia.
    + intros a Ha. rewrite take_app_le by lia. by rewrite <- Hnext.
Qed.

(** All that a write does. *)
Lemma dma_write_ok s i ep bs : eps s !! Z.to_nat i = Some ep -> direction ep = DMA_DIRECTION_FROM_DEVICE -> Forall buffer_ok (buffers ep) ->
  exists s' l', apple_sio_dma_write s i bs = Done (s', Z.min (zlen bs) (zlen (todo (buffers ep)))) /\
    eps s' = <[Z.to_nat i := with_queue ep l']> (eps s) /\ todo l' = drop (length bs) (todo (buffers ep)) /\ Forall buffer_ok l' /\
    sent s' = sent s ++ (completion (id ep) <$> done_with (zlen bs) (buffers ep)) /\
    (forall a, (forall b, In b (buffers ep) -> ~ In a (resp_addrs s ep b)) ->
      memory s' a = write_mem (memory s) (take (length bs) (todo (buffers ep))) bs a) /\
    resp_base s' = resp_base s /\ incl (tag <$> l') (tag <$> buffers ep).
Proof.
  intros He Hd Hok. unfold apple_sio_dma_write. rewrite He, Hd. rewrite bool_decide_eq_true_2 by done. cbn [c_assert]. run. destruct bs as [|x bs].
  - exists s, (buffers ep). split_and!; try done; [do 2 f_equal; unfold zlen; cbn; lia|rewrite list_insert_id; [done|by destruct ep]| |apply incl_refl].
    destruct (buffers ep); by rewrite app_nil_r.
  - destruct (write_loop_spec (buffers ep) s ep (x :: bs) 0 (S (length (buffers ep))) eq_refl ltac:(lia) Hok) as (s' & l' & E & Ht & Hok' & Hs & He' & Hm).
    destruct (write_loop_frame _ _ _ _ _ _ _ _ E) as [Hb Hi]. rewrite E. run. eexists _, l'. split; [done|]. cbn [eps sent memory resp_base set_ep setf]. rewrite He'. done.
Qed.

(** C17: Writing to an endpoint is the same stream the other way: the bytes go to the
    first addresses the queue has left, as many as there are, the rest is not taken, and
    the number taken is returned; the queue keeps the addresses behind, the guest is
    told of every buffer that is done, and no other byte of memory changes than those
    and the timestamps. *)
Theorem dma_write_spec s i ep bs : eps s !! Z.to_nat i = Some ep -> direction ep = DMA_DIRECTION_FROM_DEVICE -> Forall buffer_ok (buffers ep) ->
  exists s' l', apple_sio_dma_write s i bs = Done (s', Z.min (zlen bs) (zlen (todo (buffers ep)))) /\
    eps s' = <[Z.to_nat i := with_queue ep l']> (eps s) /\ todo l' = drop (length bs) (todo (buffers ep)) /\ Forall buffer_ok l' /\
    sent s' = sent s ++ (completion (id ep) <$> done_with (zlen bs) (buffers ep)) /\
    forall a, (forall b, In b (buffers ep) -> ~ In a (resp_addrs s ep b)) ->
      memory s' a = write_mem (memory s) (take (length bs) (todo (buffers ep))) bs a.
Proof.
  intros He Hd Hok. destruct (dma_write_ok s i ep bs He Hd Hok) as (s' & l' & ? & ? & ? & ? & ? & ? & _). by exists s', l'.
Qed.

(** What is left is what the queue reports. *)
Lemma remaining_spec ep : Forall buffer_ok (buffers ep) -> zlen (todo (buffers ep)) < 2 ^ 64 ->
  apple_sio_dma_remaining_locked ep = zlen (todo (buffers ep)).
Proof.
  unfold apple_sio_dma_remaining_locked. intros Hok Hl.
  enough (Hg : forall l n, Forall buffer_ok l -> 0 <= n -> n + zlen (todo l) < 2 ^ 64 ->
    foldl (fun len buf => u64 (len + (total (segments buf) - completed buf))) n l = n + zlen (todo l)) by (rewrite Hg by (done || lia); lia).
  clear. induction l as [|b l IH]; intros n Hok Hn Hl; cbn [foldl]; [change (todo []) with (@nil Z); unfold zlen; cbn; lia|].
  apply Forall_cons in Hok as [Hb Hok]. pose proof (left_length b Hb) as Hleft. rewrite todo_cons, zlen_app in *.
  assert (0 <= zlen (left_of b) /\ 0 <= zlen (todo l)) by (unfold zlen; lia).
  rewrite wrap_small by (unfold in_width; lia). rewrite IH by (done || lia). lia.
Qed.

End Sio.

(** ** Witnesses *)

#[local] Instance flat_memory : DmaMemory := {| dma_valid := fun _ _ => true; dma_memory_map := fun _ _ len => Z.min len 4 |}.

Definition example_buffer (tag base len : Z) : SIODMABuffer := mkSIOBuffer [(base, len); (base + 0x100, 2)] [] tag false 0 0.
Definition example_sio (dir : DMADirection) : AppleSIOState :=
  mkSIO [mkEndpoint [] dir 0 [example_buffer 1 0x1000 6; example_buffer 2 0x2000 3]] 9 0 0 0x8000 24000000 (fun a => u8 a) 0 [].

Lemma flat_memory_progress dir base len : 0 < len -> 0 < dma_memory_map dir base len <= len.
Proof. cbn. lia. Qed.

Lemma example_buffers_ok dir ep : eps (example_sio dir) !! Z.to_nat 0 = Some ep -> Forall buffer_ok (buffers ep).
Proof.
  intros [= <-]. repeat constructor; try discriminate; cbn; lia.
Qed.


Lemma dma_write_spec_witness : exists s' l', apple_sio_dma_write (example_sio DMA_DIRECTION_FROM_DEVICE) 0 [1; 2; 3; 4; 5; 6; 7; 8; 9; 10] = Done (s', 10) /\
  todo l' = [0x2002; 0x2100; 0x2101].
Proof.
  destruct (dma_write_spec flat_memory_progress (example_sio DMA_DIRECTION_FROM_DEVICE) 0
    (mkEndpoint [] DMA_DIRECTION_FROM_DEVICE 0 [example_buffer 1 0x1000 6; example_buffer 2 0x2000 3]) [1; 2; 3; 4; 5; 6; 7; 8; 9; 10]) as (s' & l' & E & _ & Ht & _).
  - reflexivity.
  - reflexivity.
  - by apply (example_buffers_ok DMA_DIRECTION_FROM_DEVICE).
  - exists s', l'. split; [exact E|exact Ht].
Defined.

(** The base of the segments is shifted in 32 bits: memory above 4 GB is out of reach. *)
Lemma segment_base_truncated s reply : segment_base (apple_sio_control_set_param s reply PARAM_SEGMENT_BASE 0x800001).1 = 0x1000.
Proof. reflexivity. Qed.

(** A guest that maps a buffer with a parameter ends the machine. *)
Lemma map_param_aborts s i ep m : m_op m = OP_MAP -> m_param m <> 0 -> apple_sio_dma s i ep m = Abort.
Proof. intros E Hp. unfold apple_sio_dma. rewrite E. cbn [Z.eqb OP_MAP OP_PING OP_CONFIGURE Pos.eqb]. by rewrite (proj2 (Z.eqb_neq _ _) Hp). Qed.
