(* ===== verification/Spi.v ===== *)
(** * SPI controller

    Model of [hw/ssi/apple_spi.c] and of what it uses of [hw/ssi/ssi.c].  The
    peripherals on the bus are the interface [SSIPeripheralClass], the DMA controller
    the interface [DmaEngine]. *)

From S2P Require Import Prelude CString Dt Fifo8.

Inductive SSICSMode := SSI_CS_NONE | SSI_CS_LOW | SSI_CS_HIGH.
#[global] Instance SSICSMode_eq_dec : EqDecision SSICSMode.
Proof. solve_decision. Defined.

(** What a peripheral does with a word, and with its chip select. *)
Class SSIPeripheralClass (P : Type) := {
  cs_polarity : P -> SSICSMode;
  transfer : P -> Z -> outcome (P * Z);
  set_cs : P -> bool -> P;
}.

Record SSIPeripheral (P : Type) := mkPeripheral {
  dev : P;
  cs : bool;
}.
Arguments mkPeripheral {P}.
Arguments dev {P}.
Arguments cs {P}.
#[global] Instance eta_SSIPeripheral P : Eta (SSIPeripheral P) := fun p => mkPeripheral (dev p) (cs p).

(** The DMA controller as a device sees it: the bytes a channel has left, and a read
    and a write of at most so many. *)
Class DmaEngine (D : Type) := {
  dma_remaining : D -> Z -> outcome Z;
  dma_read : D -> Z -> Z -> outcome (D * bytes);
  dma_write : D -> Z -> bytes -> outcome (D * Z);
}.

(** ** The bus *)

Section Bus.
Context {P : Type} `{SSIPeripheralClass P}.

Definition ssi_cs_default (p : SSIPeripheral P) (level : bool) : SSIPeripheral P :=
  let p := if bool_decide (cs p = level) then p else p <| dev ::= fun d => set_cs d level |> in
  p <| cs := level |>.

Definition ssi_transfer_raw_default (p : SSIPeripheral P) (val : Z) : outcome (SSIPeripheral P * Z) :=
  let selected := match cs_polarity (dev p) with SSI_CS_HIGH => cs p | SSI_CS_LOW => negb (cs p) | SSI_CS_NONE => true end in
  if selected then '(d, r) ← transfer (dev p) val; mret (p <| dev := d |>, u32 r) else mret (p, 0).

Fixpoint transfer_all (bus : list (SSIPeripheral P)) (val r : Z) : outcome (list (SSIPeripheral P) * Z) :=
  match bus with
  | [] => mret ([], r)
  | p :: bus =>
      '(p, r') ← ssi_transfer_raw_default p val;
      '(bus, r) ← transfer_all bus val (r .| r');
      mret (p :: bus, r)
  end.
Definition ssi_transfer (bus : list (SSIPeripheral P)) (val : Z) : outcome (list (SSIPeripheral P) * Z) := transfer_all bus val 0.

End Bus.

(** ** Registers *)

Definition REG_CTRL : Z := 0x000.
Definition REG_CTRL_RUN : Z := BIT 0.
Definition REG_CTRL_TX_RESET : Z := BIT 2.
Definition REG_CTRL_RX_RESET : Z := BIT 3.
Definition REG_CFG : Z := 0x004.
Definition REG_CFG_AGD : Z := BIT 0.
Definition REG_CFG_MODE (x : Z) : Z := (x .>> 5) .& 0x3.
Definition REG_CFG_MODE_INVALID : Z := 0.
Definition REG_CFG_MODE_IRQ : Z := 1.
Definition REG_CFG_MODE_DMA : Z := 2.
Definition REG_CFG_IE_RXREADY : Z := BIT 7.
Definition REG_CFG_IE_TXEMPTY : Z := BIT 8.
Definition REG_CFG_WORD_SIZE (x : Z) : Z := (x .>> 15) .& 0x3.
Definition REG_CFG_IE_COMPLETE : Z := BIT 21.
Definition REG_STATUS : Z := 0x008.
Definition REG_STATUS_RXREADY : Z := BIT 0.
Definition REG_STATUS_TXEMPTY : Z := BIT 1.
Definition REG_STATUS_RXOVERFLOW : Z := BIT 3.
Definition REG_STATUS_COMPLETE : Z := BIT 22.
Definition REG_STATUS_TXFIFO_MASK : Z := 31 .<< 6.
Definition REG_STATUS_RXFIFO_MASK : Z := 31 .<< 11.
Definition REG_PIN : Z := 0x00c.
Definition REG_PIN_CS : Z := BIT 1.
Definition REG_TXDATA : Z := 0x010.
Definition REG_RXDATA : Z := 0x020.
Definition REG_RXCNT : Z := 0x034.
Definition REG_TXCNT : Z := 0x04c.
Definition REG_MAX : Z := 0x50.
Definition REG_FIFO_DEPTH : Z := 16.
Definition APPLE_SPI_MMIO_SIZE : Z := 0x4000.

(** The controller with the bus and the DMA controller it is connected to; a channel
    is none while its pointer is null. *)
Record AppleSPIState (P D : Type) := mkSPI {
  ssi_bus : list (SSIPeripheral P);
  sio : D;
  tx_chan : option Z;
  rx_chan : option Z;
  irq : bool;
  rx_fifo : Fifo8;
  tx_fifo : Fifo8;
  regs : list Z;
  tx_chan_id : Z;
  rx_chan_id : Z;
  dma_capable : bool;
}.
Arguments mkSPI {P D}.
Arguments ssi_bus {P D}.
Arguments sio {P D}.
Arguments tx_chan {P D}.
Arguments rx_chan {P D}.
Arguments irq {P D}.
Arguments rx_fifo {P D}.
Arguments tx_fifo {P D}.
Arguments regs {P D}.
Arguments tx_chan_id {P D}.
Arguments rx_chan_id {P D}.
Arguments dma_capable {P D}.
#[global] Instance eta_AppleSPIState P D : Eta (AppleSPIState P D) := fun s =>
  mkSPI (ssi_bus s) (sio s) (tx_chan s) (rx_chan s) (irq s) (rx_fifo s) (tx_fifo s) (regs s) (tx_chan_id s) (rx_chan_id s) (dma_capable s).

Section Spi.
Context {P D : Type} `{SSIPeripheralClass P} `{DmaEngine D}.

(** What a new allocation holds before it is written. *)
Context (heap : Z -> Z).

#[local] Abbreviation spi_state := (AppleSPIState P D).

(** A register, at a constant address below [REG_MAX]. *)
Definition REG (spi : spi_state) (v : Z) : Z := nth (Z.to_nat (v .>> 2)) (regs spi) 0.
Definition set_REG (spi : spi_state) (v x : Z) : spi_state := spi <| regs ::= fun l => <[Z.to_nat (v .>> 2) := x]> l |>.

Definition word_size (cfg : Z) : outcome Z :=
  let w := REG_CFG_WORD_SIZE cfg in
  if w =? 0 then mret 1 else if w =? 1 then mret 2 else if w =? 2 then mret 4 else Abort.
Definition apple_spi_word_size (spi : spi_state) : outcome Z := word_size (REG spi REG_CFG).

Definition set_status (spi : spi_state) (bits : Z) : spi_state := set_REG spi REG_STATUS (REG spi REG_STATUS .| bits).

(** A channel that is used through its pointer. *)
Definition channel (c : option Z) : outcome Z := match c with Some c => mret c | None => Oob end.

(** The loops over a buffer of [n] bytes, a word at a time: a word that is not all in
    the buffer is an access out of bounds. *)
Fixpoint push_words (fuel : nat) (fifo : Fifo8) (buffer : bytes) (w i : Z) : outcome Fifo8 :=
  if zlen buffer <=? i then mret fifo
  else match fuel with
       | O => NoFuel
       | S fuel => word ← slice buffer i w; fifo ← fifo32_push fifo (le_combine word); push_words fuel fifo buffer w (i + w)
       end.

Fixpoint pop_words (fuel : nat) (fifo : Fifo8) (n w : Z) (acc : bytes) : outcome (Fifo8 * bytes) :=
  if n <=? zlen acc then mret (fifo, acc)
  else match fuel with
       | O => NoFuel
       | S fuel =>
           '(word, fifo) ← fifo32_pop fifo;
           if n <? zlen acc + w then Oob else pop_words fuel fifo n w (acc ++ le_split (Z.to_nat w) word)
       end.

Definition apple_spi_update_xfer_tx (spi : spi_state) : outcome spi_state :=
  if negb (fifo8_is_empty (tx_fifo spi)) then mret spi
  else if negb (REG_CFG_MODE (REG spi REG_CFG) =? REG_CFG_MODE_DMA) then mret (set_status spi REG_STATUS_TXEMPTY)
  else
    c ← channel (tx_chan spi);
    dma_remaining ← dma_remaining (sio spi) c;
    if dma_remaining =? 0 then mret (set_status spi REG_STATUS_TXEMPTY)
    else
      word_size ← apple_spi_word_size spi;
      let dma_len := Z.min (u32 (REG spi REG_TXCNT * word_size)) dma_remaining in
      let fifo_len := u32 (fifo32_num_free (tx_fifo spi) * word_size) in
      if dma_len =? 0 then mret (set_status spi REG_STATUS_TXEMPTY)
      else
        let dma_len := Z.min dma_len fifo_len in
        if dma_len =? 0 then mret spi
        else
          '(d, bs) ← dma_read (sio spi) c dma_len;
          let buffer := bs ++ (heap <$> seqZ (zlen bs) (dma_len - zlen bs)) in
          fifo ← push_words (Z.to_nat dma_len) (tx_fifo spi) buffer word_size 0;
          mret (spi <| sio := d |> <| tx_fifo := fifo |>).

Definition apple_spi_flush_rx (spi : spi_state) : outcome spi_state :=
  if negb (REG_CFG_MODE (REG spi REG_CFG) =? REG_CFG_MODE_DMA) then mret spi
  else
    c ← channel (rx_chan spi);
    dma_remaining ← dma_remaining (sio spi) c;
    if dma_remaining =? 0 then mret spi
    else
      word_size ← apple_spi_word_size spi;
      let dma_len := Z.min (u32 (fifo32_num_used (rx_fifo spi) * word_size)) dma_remaining in
      if dma_len =? 0 then mret spi
      else
        '(fifo, buffer) ← pop_words (Z.to_nat dma_len) (rx_fifo spi) dma_len word_size [];
        '(d, _) ← dma_write (sio spi) c buffer;
        mret (spi <| sio := d |> <| rx_fifo := fifo |>).

Definition apple_spi_update_xfer_rx (spi : spi_state) : spi_state :=
  if fifo8_is_empty (rx_fifo spi) then set_REG spi REG_STATUS (REG spi REG_STATUS .&~ REG_STATUS_RXREADY)
  else set_status spi REG_STATUS_RXREADY.

Definition apple_spi_update_irq (spi : spi_state) : spi_state :=
  let mask := if nonzero (REG spi REG_CFG .& REG_CFG_IE_RXREADY) then REG_STATUS_RXREADY else 0 in
  let mask := if nonzero (REG spi REG_CFG .& REG_CFG_IE_TXEMPTY) then mask .| REG_STATUS_TXEMPTY else mask in
  let mask := if nonzero (REG spi REG_CFG .& REG_CFG_IE_COMPLETE) then mask .| REG_STATUS_COMPLETE else mask in
  spi <| irq := nonzero (REG spi REG_STATUS .& mask) |>.

(** The first peripheral on the bus gets the level of the pin. *)
Definition apple_spi_update_cs (spi : spi_state) : spi_state :=
  match ssi_bus spi with
  | [] => spi
  | p :: bus =>
      if bool_decide (cs_polarity (dev p) = SSI_CS_NONE) then spi
      else spi <| ssi_bus := ssi_cs_default p (nonzero (REG spi REG_PIN .& REG_PIN_CS)) :: bus |>
  end.

Definition apple_spi_cs_set (spi : spi_state) (level : bool) : spi_state :=
  apple_spi_update_cs (set_REG spi REG_PIN (if level then REG spi REG_PIN .| REG_PIN_CS else REG spi REG_PIN .&~ REG_PIN_CS)).

(** The bytes of a word on the bus, the least significant first; the answers are
    shifted in, the first to the top. *)
Fixpoint transfer_word (n : nat) (bus : list (SSIPeripheral P)) (tx rx : Z) : outcome (list (SSIPeripheral P) * Z) :=
  match n with
  | O => mret (bus, rx)
  | S n => '(bus, r) ← ssi_transfer bus (tx .& 0xff); transfer_word n bus (tx .>> 8) (u32 (rx .<< 8) .| r)
  end.

(** The same with the bytes that are sent when there is nothing to send. *)
Fixpoint receive_word (n : nat) (bus : list (SSIPeripheral P)) (rx : Z) : outcome (list (SSIPeripheral P) * Z) :=
  match n with
  | O => mret (bus, rx)
  | S n => '(bus, r) ← ssi_transfer bus 0xff; receive_word n bus (u32 (rx .<< 8) .| r)
  end.

(** The word that was received goes to the queue; [true] if there is no room. *)
Definition store_rx (spi : spi_state) (rx : Z) : outcome (spi_state * bool) :=
  spi ← (if fifo32_is_full (rx_fifo spi) then apple_spi_flush_rx spi else mret spi);
  if fifo32_is_full (rx_fifo spi) then mret (set_status spi REG_STATUS_RXOVERFLOW, true)
  else
    fifo ← fifo32_push (rx_fifo spi) rx;
    let spi := spi <| rx_fifo := fifo |> in
    let spi := set_REG spi REG_RXCNT (u32 (REG spi REG_RXCNT - 1)) in
    mret (apple_spi_update_xfer_rx spi, false).

Fixpoint tx_loop (fuel : nat) (spi : spi_state) (word_size : Z) : outcome spi_state :=
  if nonzero (REG spi REG_TXCNT) && negb (fifo8_is_empty (tx_fifo spi)) then
    match fuel with
    | O => NoFuel
    | S fuel =>
        '(tx, fifo) ← fifo32_pop (tx_fifo spi);
        let spi := spi <| tx_fifo := fifo |> in
        '(bus, rx) ← transfer_word (Z.to_nat word_size) (ssi_bus spi) tx 0;
        let spi := spi <| ssi_bus := bus |> in
        let spi := set_REG spi REG_TXCNT (u32 (REG spi REG_TXCNT - 1)) in
        spi ← apple_spi_update_xfer_tx spi;
        '(spi, stop) ← (if 0 <? REG spi REG_RXCNT then store_rx spi rx else mret (spi, false));
        if stop : bool then mret spi else tx_loop fuel spi word_size
    end
  else mret spi.

Fixpoint rx_loop (fuel : nat) (spi : spi_state) (word_size : Z) : outcome spi_state :=
  if negb (fifo32_is_full (rx_fifo spi)) && (0 <? REG spi REG_RXCNT) && nonzero (REG spi REG_CFG .& REG_CFG_AGD) then
    match fuel with
    | O => NoFuel
    | S fuel =>
        '(bus, rx) ← receive_word (Z.to_nat word_size) (ssi_bus spi) 0;
        let spi := spi <| ssi_bus := bus |> in
        '(spi, stop) ← store_rx spi rx;
        if stop : bool then mret spi else rx_loop fuel spi word_size
    end
  else mret spi.

Definition apple_spi_run (spi : spi_state) : outcome spi_state :=
  word_size ← apple_spi_word_size spi;
  let mode := REG_CFG_MODE (REG spi REG_CFG) in
  if (mode =? REG_CFG_MODE_DMA) && negb (dma_capable spi) then mret spi
  else if (mode =? REG_CFG_MODE_INVALID) || (REG spi REG_CTRL .& REG_CTRL_RUN =? 0) || (REG spi REG_RXCNT .| REG spi REG_TXCNT =? 0) then mret spi
  else
    spi ← apple_spi_update_xfer_tx spi;
    spi ← tx_loop (Z.to_nat (REG spi REG_TXCNT)) spi word_size;
    spi ← (if fifo32_is_full (rx_fifo spi) then apple_spi_flush_rx spi else mret spi);
    spi ← rx_loop (Z.to_nat (REG spi REG_RXCNT)) spi word_size;
    spi ← apple_spi_flush_rx spi;
    mret (if (REG spi REG_RXCNT =? 0) && (REG spi REG_TXCNT =? 0) then set_status spi REG_STATUS_COMPLETE else spi).

(** ** Accesses *)

(** What a write does before the register changes: the value that is stored, whether
    the chip select changed and whether the controller runs. *)
Definition write_value (spi : spi_state) (addr value old : Z) : outcome (spi_state * Z * bool) :=
  if addr =? REG_CTRL then
    let spi := if nonzero (value .& REG_CTRL_TX_RESET) then spi <| tx_fifo ::= fifo8_reset |> else spi in
    let value := if nonzero (value .& REG_CTRL_TX_RESET) then value .&~ REG_CTRL_TX_RESET else value in
    let spi := if nonzero (value .& REG_CTRL_RX_RESET) then spi <| rx_fifo ::= fifo8_reset |> else spi in
    let value := if nonzero (value .& REG_CTRL_RX_RESET) then value .&~ REG_CTRL_RX_RESET else value in
    mret (spi, value, nonzero (value .& REG_CTRL_RUN))
  else if addr =? REG_STATUS then mret (spi, old .&~ value, false)
  else if addr =? REG_TXDATA then
    if fifo32_is_full (tx_fifo spi) then mret (spi, 0, false)
    else
      word_size ← apple_spi_word_size spi;
      fifo ← fifo32_push (tx_fifo spi) (if word_size =? 1 then value .& 0xFF else if word_size =? 2 then value .& 0xFFFF else value);
      mret (spi <| tx_fifo := fifo |>, value, true)
  else mret (spi, value, (addr =? REG_TXCNT) || (addr =? REG_RXCNT) || (addr =? REG_CFG)).

Definition apple_spi_reg_write (spi : spi_state) (addr data : Z) : outcome spi_state :=
  let value := u32 data in
  old ← aget (regs spi) (addr .>> 2);
  if REG_MAX <=? addr then mret spi
  else
    '(spi, value, run) ← write_value spi addr value old;
    let spi := set_REG spi addr value in
    let spi := if addr =? REG_PIN then apple_spi_update_cs spi else spi in
    spi ← (if run : bool then apple_spi_run spi else mret spi);
    mret (apple_spi_update_irq spi).

(** What a read returns and takes from the queue, and whether the controller runs. *)
Definition read_value (spi : spi_state) (addr r : Z) : outcome (spi_state * Z * bool) :=
  if addr =? REG_RXDATA then
    if fifo8_is_empty (rx_fifo spi) then mret (spi, 0, false)
    else '(r, fifo) ← fifo32_pop (rx_fifo spi); mret (spi <| rx_fifo := fifo |>, r, fifo8_is_empty fifo)
  else if addr =? REG_STATUS then
    let mask := REG_STATUS_TXFIFO_MASK .| REG_STATUS_RXFIFO_MASK in
    let val := (u32 (fifo32_num_used (tx_fifo spi) .<< 6) .| u32 (fifo32_num_used (rx_fifo spi) .<< 11)) .& mask in
    mret (spi, (r .&~ mask) .| val, false)
  else mret (spi, r, false).

Definition apple_spi_reg_read (spi : spi_state) (addr : Z) : outcome (spi_state * Z) :=
  if REG_MAX <=? addr then mret (spi, 0)
  else
    '(spi, r, run) ← read_value spi addr (REG spi addr);
    spi ← (if run : bool then apple_spi_run spi else mret spi);
    mret (apple_spi_update_irq spi, r).

(** ** Set up *)

Definition apple_spi_reset (spi : spi_state) : spi_state :=
  spi <| regs ::= fun l => replicate (length l) 0 |> <| tx_fifo ::= fifo8_reset |> <| rx_fifo ::= fifo8_reset |>.

Definition apple_spi_instance_init (bus : list (SSIPeripheral P)) (d : D) : spi_state :=
  mkSPI bus d None None false (fifo32_create REG_FIFO_DEPTH) (fifo32_create REG_FIFO_DEPTH)
    (replicate (Z.to_nat (APPLE_SPI_MMIO_SIZE .>> 2)) 0) 0 0 false.

(** [get_endpoint] is the lookup of a channel in the DMA controller, if there is one. *)
Definition apple_spi_realize (get_endpoint : option (Z -> option Z)) (spi : spi_state) : spi_state :=
  match get_endpoint with
  | None => spi <| dma_capable := false |>
  | Some get =>
      if dma_capable spi then spi <| tx_chan := get (tx_chan_id spi) |> <| rx_chan := get (rx_chan_id spi) |> else spi
  end.

(** The controller of a device tree node, and the size of its registers. *)
Definition apple_spi_from_node (spi : spi_state) (node : AppleDTNode) : outcome (spi_state * Z) :=
  match apple_dt_get_prop node (str "reg") with
  | None => Oob
  | Some prop =>
      _ ← apple_dt_get_prop_str node (str "name") ErrFatal;
      size ← slice (p_data prop) 8 8;
      match apple_dt_get_prop node (str "dma-channels") with
      | None => mret (spi, le_combine size)
      | Some prop =>
          tx ← slice (p_data prop) 0 4;
          rx ← slice (p_data prop) 0x20 4;
          mret (spi <| dma_capable := true |> <| tx_chan_id := s32 (le_combine tx) |> <| rx_chan_id := s32 (le_combine rx) |>, le_combine size)
      end
  end.

(** ** The queues as lists of words *)

Record holds (f : Fifo8) (q : list Z) : Prop := {
  h_wf : fifo8_wf f;
  h_capacity : capacity f = 64;
  h_contents : contents f = concat (word_bytes <$> q);
  h_width : Forall (in_width 32) q;
}.

Lemma length_word_bytes q : zlen (concat (word_bytes <$> q)) = 4 * zlen q.
Proof. induction q as [|x q IH]; [done|]. cbn [fmap list_fmap concat]. rewrite zlen_app, IH. unfold zlen, word_bytes. cbn [length]. lia. Qed.

Lemma holds_num f q : holds f q -> num f = 4 * zlen q /\ 0 <= zlen q <= 16.
Proof.
  intros [Hwf Hc Hq _]. pose proof (length_contents f Hwf) as Hl. rewrite Hq, length_word_bytes in Hl.
  pose proof (wf_num f Hwf). split; [lia|]. unfold zlen in *. lia.
Qed.

Lemma holds_empty f q : holds f q -> fifo8_is_empty f = bool_decide (q = []).
Proof.
  intros Hq. destruct (holds_num f q Hq) as [Hn _]. unfold fifo8_is_empty. rewrite Hn.
  destruct q; [by rewrite bool_decide_eq_true_2|]. rewrite bool_decide_eq_false_2 by done. apply Z.eqb_neq. unfold zlen. cbn [length]. lia.
Qed.

Lemma holds_free f q : holds f q -> fifo8_num_free f = 4 * (16 - zlen q).
Proof. intros Hq. destruct (holds_num f q Hq) as [Hn Hl]. unfold fifo8_num_free. rewrite Hn, (h_capacity f q Hq), wrap_small by (unfold in_width; lia). lia. Qed.

Lemma holds_full f q : holds f q -> fifo32_is_full f = (16 <=? zlen q).
Proof.
  intros Hq. unfold fifo32_is_full. rewrite (holds_free f q Hq). destruct (holds_num f q Hq) as [_ Hl].
  destruct (Z.leb_spec 16 (zlen q)); [apply Z.ltb_lt|apply Z.ltb_ge]; lia.
Qed.

Lemma holds_num_free f q : holds f q -> fifo32_num_free f = 16 - zlen q.
Proof. intros Hq. unfold fifo32_num_free. rewrite (holds_free f q Hq). symmetry. apply (Z.div_unique _ _ _ 3); lia. Qed.

Lemma holds_num_used f q : holds f q -> fifo32_num_used f = zlen q.
Proof. intros Hq. unfold fifo32_num_used, fifo8_num_used. rewrite (proj1 (holds_num f q Hq)). symmetry. apply (Z.div_unique _ _ _ 3); lia. Qed.

Lemma holds_push f q x : holds f q -> zlen q < 16 -> in_width 32 x -> exists f', fifo32_push f x = Done f' /\ holds f' (q ++ [x]).
Proof.
  intros Hq Hl Hx. destruct (holds_num f q Hq) as [Hn _]. destruct Hq as [Hwf Hc Hq Hw].
  destruct (fifo32_push_ok f x Hwf ltac:(lia)) as (f' & -> & Hwf' & Hq' & Hc' & _). exists f'. split; [done|]. split; [done|lia| |].
  - rewrite Hq', Hq, fmap_app, concat_app. cbn [fmap list_fmap concat]. by rewrite app_nil_r.
  - by apply Forall_app_2; [|apply Forall_singleton].
Qed.

Lemma holds_pop f x q : holds f (x :: q) -> exists f', fifo32_pop f = Done (x, f') /\ holds f' q.
Proof.
  intros [Hwf Hc Hq [Hx Hw]%Forall_cons]. destruct (fifo32_pop_ok f x _ Hwf Hx Hq) as (f' & -> & Hwf' & Hq' & Hc' & _).
  exists f'. split; [done|]. split; [done|lia|done|done].
Qed.

(** ** The registers a transfer uses *)

Record counts (s : spi_state) (cfg ctrl nt nr : Z) : Prop := {
  c_regs : length (regs s) = 0x1000%nat;
  c_cfg : REG s REG_CFG = cfg;
  c_ctrl : REG s REG_CTRL = ctrl;
  c_tx : REG s REG_TXCNT = nt;
  c_rx : REG s REG_RXCNT = nr;
}.

Lemma REG_set s a x b : length (regs s) = 0x1000%nat -> 0 <= a < APPLE_SPI_MMIO_SIZE ->
  REG (set_REG s a x) b = if decide (Z.to_nat (a .>> 2) = Z.to_nat (b .>> 2)) then x else REG s b.
Proof.
  intros Hl Ha. unfold REG, set_REG. cbn [regs setf]. rewrite !nth_lookup. unfold APPLE_SPI_MMIO_SIZE in Ha.
  assert (a .>> 2 < 0x1000) by (rewrite Z.shiftr_div_pow2 by done; apply Z.div_lt_upper_bound; lia). destruct (decide (Z.to_nat (a .>> 2) = Z.to_nat (b .>> 2))) as [E|E].
  - rewrite <- E. rewrite list_lookup_insert_eq; [done|]. rewrite Hl. lia.
  - by rewrite list_lookup_insert_ne.
Qed.

(** A register after a write to one of them. *)
Ltac reg_set := rewrite REG_set by (done || unfold APPLE_SPI_MMIO_SIZE; cbn; lia);
  first [rewrite decide_True by reflexivity | rewrite decide_False by (vm_compute; discriminate)].

Lemma counts_status s cfg ctrl nt nr x : counts s cfg ctrl nt nr -> counts (set_REG s REG_STATUS x) cfg ctrl nt nr.
Proof. intros [Hl ? ? ? ?]. split; [by cbn [regs set_REG setf]; rewrite length_insert|..]; by reg_set. Qed.

Lemma counts_txdata s cfg ctrl nt nr x : counts s cfg ctrl nt nr -> counts (set_REG s REG_TXDATA x) cfg ctrl nt nr.
Proof. intros [Hl ? ? ? ?]. split; [by cbn [regs set_REG setf]; rewrite length_insert|..]; by reg_set. Qed.

Lemma counts_tx s cfg ctrl nt nr x : counts s cfg ctrl nt nr -> counts (set_REG s REG_TXCNT x) cfg ctrl x nr.
Proof. intros [Hl ? ? ? ?]. split; [by cbn [regs set_REG setf]; rewrite length_insert|..]; by reg_set. Qed.

Lemma counts_rx s cfg ctrl nt nr x : counts s cfg ctrl nt nr -> counts (set_REG s REG_RXCNT x) cfg ctrl nt x.
Proof. intros [Hl ? ? ? ?]. split; [by cbn [regs set_REG setf]; rewrite length_insert|..]; by reg_set. Qed.

Lemma counts_fields s s' cfg ctrl nt nr : counts s cfg ctrl nt nr -> regs s' = regs s -> counts s' cfg ctrl nt nr.
Proof. intros [Hl ? ? ? ?] E. split; unfold REG in *; by rewrite E. Qed.

(** ** Words in memory *)

Definition wsplit (w : Z) (q : list Z) : bytes := concat (le_split (Z.to_nat w) <$> q).

Lemma wsplit_cons w x q : wsplit w (x :: q) = le_split (Z.to_nat w) x ++ wsplit w q.
Proof. done. Qed.

Lemma wsplit_app w q q' : wsplit w (q ++ q') = wsplit w q ++ wsplit w q'.
Proof. unfold wsplit. by rewrite fmap_app, concat_app. Qed.

Lemma length_wsplit w q : 0 <= w -> zlen (wsplit w q) = w * zlen q.
Proof.
  intros Hw. induction q as [|x q IH]; [unfold zlen; cbn; lia|]. rewrite wsplit_cons, zlen_app, IH. unfold zlen. rewrite length_le_split. cbn [length]. lia.
Qed.

Lemma push_words_done w : 0 < w <= 4 -> forall q fuel f q0 pre, holds f q0 -> zlen q0 + zlen q <= 16 -> Forall (in_width (8 * w)) q -> (length q <= fuel)%nat ->
  exists f', push_words fuel f (pre ++ wsplit w q) w (zlen pre) = Done f' /\ holds f' (q0 ++ q).
Proof.
  intros Hw. induction q as [|x q IH]; intros fuel f q0 pre Hf Hl Hq Hfuel.
  - exists f. rewrite !app_nil_r. split; [|done]. destruct fuel; cbn [push_words]; by rewrite Z.leb_refl.
  - destruct fuel as [|fuel]; [cbn in Hfuel; lia|]. apply Forall_cons in Hq as [Hx Hq]. cbn [push_words].
    assert (Hlen : zlen (x :: q) = 1 + zlen q) by (unfold zlen; cbn [length]; lia).
    rewrite zlen_app, length_wsplit by lia. rewrite (proj2 (Z.leb_gt _ _)) by (unfold zlen in *; nia). rewrite wsplit_cons.
    rewrite (slice_part pre (le_split (Z.to_nat w) x) (wsplit w q) 0 (Z.to_nat w)) by (rewrite ?length_le_split; lia). run.
    rewrite drop_0, take_ge by (rewrite length_le_split; lia). rewrite le_combine_split, wrap_small by (replace (8 * Z.of_nat (Z.to_nat w)) with (8 * w) by lia; done).
    assert (Hx' : in_width 32 x).
    { unfold in_width in *. pose proof (Z.pow_le_mono_r 2 (8 * w) 32 ltac:(lia) ltac:(lia)). lia. }
    destruct (holds_push f q0 x Hf ltac:(unfold zlen in *; lia) Hx') as (f' & -> & Hf'). run.
    replace (zlen pre + w) with (zlen (pre ++ le_split (Z.to_nat w) x)) by (rewrite zlen_app; unfold zlen; rewrite length_le_split; lia).
    rewrite (app_assoc pre). destruct (IH fuel f' (q0 ++ [x]) (pre ++ le_split (Z.to_nat w) x) Hf') as (f2 & -> & Hf2).
    + rewrite zlen_app. change (zlen [x]) with 1. lia.
    + done.
    + cbn in Hfuel. lia.
    + exists f2. split; [done|]. by rewrite <- app_assoc in Hf2.
Qed.

Lemma pop_words_ok w : 0 < w -> forall q fuel f acc, holds f q -> (length q <= fuel)%nat ->
  exists f', pop_words fuel f (zlen acc + w * zlen q) w acc = Done (f', acc ++ wsplit w q) /\ holds f' [].
Proof.
  intros Hw. induction q as [|x q IH]; intros fuel f acc Hf Hfuel.
  - exists f. rewrite app_nil_r. split; [|done]. change (zlen []) with 0. rewrite Z.mul_0_r, Z.add_0_r. destruct fuel; cbn [pop_words]; by rewrite Z.leb_refl.
  - destruct fuel as [|fuel]; [cbn in Hfuel; lia|]. assert (Hlen : zlen (x :: q) = 1 + zlen q) by (unfold zlen; cbn [length]; lia).
    assert (0 <= zlen q) by (unfold zlen; lia). cbn [pop_words]. rewrite (proj2 (Z.leb_gt _ _)) by nia.
    destruct (holds_pop f x q Hf) as (f' & -> & Hf'). run. rewrite (proj2 (Z.ltb_ge _ _)) by nia.
    replace (zlen acc + w * zlen (x :: q)) with (zlen (acc ++ le_split (Z.to_nat w) x) + w * zlen q)
      by (rewrite zlen_app, Hlen; unfold zlen at 2; rewrite length_le_split; lia).
    destruct (IH fuel f' (acc ++ le_split (Z.to_nat w) x) Hf' ltac:(cbn in Hfuel; lia)) as (f2 & -> & Hf2).
    exists f2. split; [|done]. by rewrite wsplit_cons, <- app_assoc.
Qed.

(** ** Exchanges on the bus *)

(** The words [q] one after the other, and the words that come back. *)
Fixpoint exchange (w : Z) (bus : list (SSIPeripheral P)) (q : list Z) : outcome (list (SSIPeripheral P) * list Z) :=
  match q with
  | [] => mret (bus, [])
  | x :: q =>
      '(bus, r) ← transfer_word (Z.to_nat w) bus x 0;
      '(bus, rs) ← exchange w bus q;
      mret (bus, r :: rs)
  end.

Lemma transfer_all_width bus : forall val r bus' r', transfer_all bus val r = Done (bus', r') -> in_width 32 r -> in_width 32 r'.
Proof.
  induction bus as [|p bus IH]; intros val r bus' r' E Hr; cbn [transfer_all] in E; [by injection E as <- <-|].
  apply bind_Done_inv in E as ([p1 r1] & E1 & E). apply bind_Done_inv in E as ([b2 r2] & E2 & E). injection E as <- <-.
  eapply IH; [done|]. apply in_width_lor; [done|done|]. unfold ssi_transfer_raw_default in E1.
  destruct (match cs_polarity (dev p) with SSI_CS_HIGH => _ | _ => _ end); [|by injection E1 as <- <-].
  apply bind_Done_inv in E1 as ([d r0] & _ & E1). injection E1 as <- <-. by apply wrap_range.
Qed.

Lemma transfer_word_width n : forall bus tx rx bus' r, transfer_word n bus tx rx = Done (bus', r) -> in_width 32 rx -> in_width 32 r.
Proof.
  induction n as [|n IH]; intros bus tx rx bus' r E Hrx; cbn [transfer_word] in E; [by injection E as <- <-|].
  apply bind_Done_inv in E as ([b1 r1] & E1 & E). eapply IH; [done|]. apply in_width_lor; [done|by apply wrap_range|].
  by eapply transfer_all_width.
Qed.

Lemma take_words w q rest k : 0 <= w -> 0 <= k <= zlen q ->
  take (Z.to_nat (k * w)) (wsplit w q ++ rest) = wsplit w (take (Z.to_nat k) q) /\
  drop (Z.to_nat (k * w)) (wsplit w q ++ rest) = wsplit w (drop (Z.to_nat k) q) ++ rest.
Proof.
  intros Hw Hk. assert (Hl : Z.to_nat (k * w) = length (wsplit w (take (Z.to_nat k) q))).
  { pose proof (length_wsplit w (take (Z.to_nat k) q) Hw) as Hl. unfold zlen in *. rewrite length_take in Hl. nia. }
  rewrite <- (take_drop (Z.to_nat k) q) at 1 3. rewrite wsplit_app, <- app_assoc, Hl, take_app_length, drop_app_length. done.
Qed.

(** ** Transfers by DMA *)

(** What the controller relies on: the channel [tx] is a stream of bytes [src], and the
    channel [rx] has room for [room] bytes behind the bytes [out] it took. *)
Class DmaStreams (R : D -> bytes -> Z -> bytes -> Prop) (tx rx : Z) : Prop := {
  remaining_tx d src room out : R d src room out -> dma_remaining d tx = Done (zlen src);
  remaining_rx d src room out : R d src room out -> dma_remaining d rx = Done room;
  read_tx d src room out n : R d src room out -> 0 <= n ->
    exists d', dma_read d tx n = Done (d', take (Z.to_nat n) src) /\ R d' (drop (Z.to_nat n) src) room out;
  write_rx d src room out bs : R d src room out -> zlen bs <= room ->
    exists d', dma_write d rx bs = Done (d', zlen bs) /\ R d' src (room - zlen bs) (out ++ bs);
}.

Section Dma.
Context (R : D -> bytes -> Z -> bytes -> Prop) (tx rx : Z) `{DmaStreams R tx rx}.
Context (cfg ctrl w : Z).
Hypothesis Hmode : REG_CFG_MODE cfg = REG_CFG_MODE_DMA.
Hypothesis Hsize : word_size cfg = Done w.

Lemma size_range : 0 < w <= 4.
Proof.
  unfold word_size in Hsize. destruct (_ =? 0); [injection Hsize; lia|]. destruct (_ =? 1); [injection Hsize; lia|].
  destruct (_ =? 2); [injection Hsize; lia|done].
Qed.

(** In the middle of a transfer: the words [q] are in the queue and [q'] still in
    memory; [tot] is what was received, part of it perhaps still in the queue, and
    [left] the room behind it. *)
Record mid (s : spi_state) (q q' : list Z) (rest tot : bytes) (left nt nr : Z) : Prop := {
  mid_counts : counts s cfg ctrl nt nr;
  mid_tx : holds (tx_fifo s) q;
  mid_tx_chan : tx_chan s = Some tx;
  mid_rx_chan : rx_chan s = Some rx;
  mid_rx : exists rxq room out, holds (rx_fifo s) rxq /\ R (sio s) (wsplit w q' ++ rest) room out /\
    tot = out ++ wsplit w rxq /\ left = room - w * zlen rxq /\ 0 <= left;
}.

Lemma mid_mode s q q' rest tot left nt nr : mid s q q' rest tot left nt nr -> (REG_CFG_MODE (REG s REG_CFG) =? REG_CFG_MODE_DMA) = true.
Proof. intros [Hc _ _ _ _]. by rewrite (c_cfg _ _ _ _ _ Hc), Hmode. Qed.

Lemma mid_size s q q' rest tot left nt nr : mid s q q' rest tot left nt nr -> apple_spi_word_size s = Done w.
Proof. intros [Hc _ _ _ _]. unfold apple_spi_word_size. by rewrite (c_cfg _ _ _ _ _ Hc). Qed.

Lemma mid_status s q q' rest tot left nt nr x : mid s q q' rest tot left nt nr -> mid (set_REG s REG_STATUS x) q q' rest tot left nt nr.
Proof. intros [Hc ? ? ? ?]. split; try done. by apply counts_status. Qed.

(** The queue gets more words if it is empty. *)
Lemma refill s q q' rest tot left nr : mid s q q' rest tot left (zlen (q ++ q')) nr -> w * zlen q' < 2 ^ 32 -> Forall (in_width (8 * w)) q' ->
  exists s' q1 q2, apple_spi_update_xfer_tx s = Done s' /\ q ++ q' = q1 ++ q2 /\ (q1 = [] -> q2 = []) /\ (exists k, q2 = drop k q') /\
    mid s' q1 q2 rest tot left (zlen (q1 ++ q2)) nr /\ ssi_bus s' = ssi_bus s.
Proof.
  intros Hm Hlen Hq'. pose proof size_range as Hw. unfold apple_spi_update_xfer_tx. rewrite (holds_empty _ _ (mid_tx _ _ _ _ _ _ _ _ Hm)).
  destruct q as [|x q]; [rewrite bool_decide_eq_true_2 by done|rewrite bool_decide_eq_false_2 by done; exists s, (x :: q), q'; split_and!; try done; by exists 0%nat].
  cbn [negb app] in *. rewrite (mid_mode _ _ _ _ _ _ _ _ Hm). cbn [negb]. rewrite (mid_tx_chan _ _ _ _ _ _ _ _ Hm). cbn [channel].
  destruct (mid_rx _ _ _ _ _ _ _ _ Hm) as (rxq & room & out & Hrx & HR & Htot & Hleft & Hleft0). run.
  rewrite (remaining_tx _ _ _ _ HR). run. set (rem := zlen (wsplit w q' ++ rest)).
  assert (Hrem : rem = w * zlen q' + zlen rest) by (unfold rem; by rewrite zlen_app, length_wsplit by lia).
  assert (Hq0 : 0 <= zlen q' /\ 0 <= zlen rest) by (unfold zlen; lia).
  rewrite (mid_size _ _ _ _ _ _ _ _ Hm), (c_tx _ _ _ _ _ (mid_counts _ _ _ _ _ _ _ _ Hm)), (holds_num_free _ _ (mid_tx _ _ _ _ _ _ _ _ Hm)). run.
  change (16 - zlen []) with 16. rewrite (wrap_small 32 (zlen q' * w)), (wrap_small 32 (16 * w)) by (unfold in_width; lia). rewrite Z.min_l by lia.
  destruct (decide (q' = [])) as [->|Hne].
  { change (zlen []) with 0. rewrite Z.mul_0_l. cbn [Z.eqb]. exists (set_status s REG_STATUS_TXEMPTY), [], [].
    split; [by destruct (rem =? 0)|]. split_and!; try done; [by exists O|by apply mid_status]. }
  assert (Hpos : 0 < zlen q') by (destruct q'; [done|unfold zlen; cbn [length]; lia]). rewrite (proj2 (Z.eqb_neq rem 0)), (proj2 (Z.eqb_neq (zlen q' * w) 0)) by nia.
  rewrite Z.mul_min_distr_nonneg_r by lia. set (k := Z.min (zlen q') 16). assert (Hk : 0 < k <= zlen q' /\ k <= 16) by lia. rewrite (proj2 (Z.eqb_neq _ _)) by nia.
  destruct (read_tx _ _ _ _ (k * w) HR ltac:(nia)) as (d' & -> & HR'). run. destruct (take_words w q' rest k ltac:(lia) ltac:(lia)) as [Ht Hd]. rewrite Ht. rewrite Hd in HR'.
  assert (Hk' : zlen (take (Z.to_nat k) q') = k) by (unfold zlen in *; rewrite length_take; lia).
  rewrite length_wsplit, Hk', (Z.mul_comm w k), Z.sub_diag, app_nil_r by lia.
  destruct (push_words_done w Hw (take (Z.to_nat k) q') (Z.to_nat (k * w)) _ [] [] (mid_tx _ _ _ _ _ _ _ _ Hm)) as (f & Hpush & Hf).
  { rewrite Hk'. change (zlen []) with 0. lia. }
  { by apply Forall_take. }
  { unfold zlen in Hk'. nia. }
  change (zlen []) with 0 in Hpush. rewrite app_nil_l in Hpush. rewrite Hpush. run.
  eexists _, (take (Z.to_nat k) q'), (drop (Z.to_nat k) q'). split; [done|]. rewrite take_drop. split_and!; try done.
  - intros E. rewrite E in Hk'. change (zlen []) with 0 in Hk'. lia.
  - by eexists.
  - destruct Hm. split; [by eapply counts_fields|done..|]. by exists rxq, room, out.
Qed.

(** What was received goes to memory. *)
Lemma flush s q q' rest tot left nt nr : mid s q q' rest tot left nt nr ->
  exists s', apple_spi_flush_rx s = Done s' /\ mid s' q q' rest tot left nt nr /\ holds (rx_fifo s') [] /\ ssi_bus s' = ssi_bus s.
Proof.
  intros Hm. pose proof size_range as Hw. unfold apple_spi_flush_rx. rewrite (mid_mode _ _ _ _ _ _ _ _ Hm). cbn [negb]. rewrite (mid_rx_chan _ _ _ _ _ _ _ _ Hm). cbn [channel].
  destruct (mid_rx _ _ _ _ _ _ _ _ Hm) as (rxq & room & out & Hrx & HR & Htot & Hleft & Hleft0). run.
  rewrite (remaining_rx _ _ _ _ HR). run. destruct (holds_num _ _ Hrx) as [_ Hl]. rewrite (mid_size _ _ _ _ _ _ _ _ Hm), (holds_num_used _ _ Hrx). run.
  destruct (decide (rxq = [])) as [->|Hne].
  { exists s. change (zlen []) with 0 in *. rewrite Z.mul_0_l. change (u32 0) with 0. split; [|done]. destruct (Z.eqb_spec room 0); [done|]. by rewrite Z.min_l by lia. }
  assert (Hpos : 0 < zlen rxq) by (destruct rxq; [done|unfold zlen; cbn [length]; lia]).
  rewrite wrap_small by (unfold in_width; nia). rewrite Z.min_l by lia. rewrite (proj2 (Z.eqb_neq room 0)), (proj2 (Z.eqb_neq (zlen rxq * w) 0)) by nia.
  destruct (pop_words_ok w ltac:(lia) rxq (Z.to_nat (zlen rxq * w)) _ [] Hrx ltac:(unfold zlen in *; nia)) as (f & Hpop & Hf).
  change (zlen []) with 0 in Hpop. rewrite Z.add_0_l, (Z.mul_comm w) in Hpop. rewrite Hpop. run. cbn [app].
  destruct (write_rx _ _ _ _ (wsplit w rxq) HR ltac:(rewrite length_wsplit by lia; lia)) as (d' & -> & HR'). run.
  eexists. split; [done|]. split; [|done]. destruct Hm. split; [by eapply counts_fields|done..|]. exists [], (room - zlen (wsplit w rxq)), (out ++ wsplit w rxq).
  rewrite length_wsplit in * by lia. split_and!; [done|done|by rewrite app_nil_r|change (zlen []) with 0; lia|done].
Qed.

(** A word that was received finds room. *)
Lemma store s q q' rest tot left nt nr r : mid s q q' rest tot left nt nr -> 0 < nr < 2 ^ 32 -> w <= left -> in_width 32 r ->
  exists s', store_rx s r = Done (s', false) /\ mid s' q q' rest (tot ++ le_split (Z.to_nat w) r) (left - w) nt (nr - 1) /\ ssi_bus s' = ssi_bus s.
Proof.
  intros Hm Hnr Hleft Hr. unfold store_rx.
  assert (exists s1, (if fifo32_is_full (rx_fifo s) then apple_spi_flush_rx s else mret s) = Done s1 /\ mid s1 q q' rest tot left nt nr /\
    fifo32_is_full (rx_fifo s1) = false /\ ssi_bus s1 = ssi_bus s) as (s1 & -> & Hm1 & Hfull & Hb).
  { destruct (fifo32_is_full (rx_fifo s)) eqn:E; [|by exists s]. destruct (flush _ _ _ _ _ _ _ _ Hm) as (s1 & -> & Hm1 & Hf & Hb).
    exists s1. split_and!; try done. by rewrite (holds_full _ _ Hf). }
  run. rewrite Hfull. destruct (mid_rx _ _ _ _ _ _ _ _ Hm1) as (rxq & room & out & Hrx & HR & Htot & Hl & Hl0).
  rewrite (holds_full _ _ Hrx) in Hfull. apply Z.leb_gt in Hfull. destruct (holds_push _ _ r Hrx Hfull Hr) as (f & -> & Hf). run.
  set (s2 := s1 <| rx_fifo := f |>). rewrite (c_rx s2 cfg ctrl nt nr) by (eapply counts_fields; [apply Hm1|done]). rewrite wrap_small by (unfold in_width; lia).
  set (s3 := set_REG s2 REG_RXCNT (nr - 1)). assert (Hm3 : mid s3 q q' rest (tot ++ le_split (Z.to_nat w) r) (left - w) nt (nr - 1)).
  { destruct Hm1. split; [by eapply counts_rx, counts_fields|done..|]. exists (rxq ++ [r]), room, out. rewrite wsplit_app, wsplit_cons, zlen_app.
    split_and!; [done|done|by rewrite Htot, <- app_assoc, app_nil_r|change (zlen [r]) with 1; lia|lia]. }
  eexists. split; [done|]. unfold apple_spi_update_xfer_rx, set_status. change (rx_fifo s3) with f. rewrite (holds_empty _ _ Hf).
  destruct (bool_decide _); (split; [by apply mid_status|done]).
Qed.

(** The loop exchanges all the words. *)
Lemma tx_loop_ok : forall rs bus' fuel s q q' rest tot left nr, mid s q q' rest tot left (zlen (q ++ q')) nr -> (q = [] -> q' = []) ->
  w * zlen (q ++ q') < 2 ^ 32 -> Forall (in_width (8 * w)) q' -> (length (q ++ q') <= fuel)%nat ->
  0 <= nr <= zlen (q ++ q') -> w * nr <= left -> exchange w (ssi_bus s) (q ++ q') = Done (bus', rs) ->
  exists s', tx_loop fuel s w = Done s' /\ mid s' [] [] rest (tot ++ wsplit w (take (Z.to_nat nr) rs)) (left - w * nr) 0 0 /\ ssi_bus s' = bus'.
Proof.
  intros rs. pose proof size_range as Hw. induction rs as [|r rs IH]; intros bus' fuel s q q' rest tot left nr Hm Hq Hlen Hq' Hfuel Hnr Hleft Hex.
  - destruct (q ++ q') as [|x l] eqn:E.
    + apply app_nil in E as [-> ->]. injection Hex as <-. change (zlen []) with 0 in *. assert (nr = 0) as -> by lia. exists s. rewrite take_nil, app_nil_r, Z.mul_0_r, Z.sub_0_r.
      split; [|done]. destruct fuel; cbn [tx_loop]; by rewrite (c_tx _ _ _ _ _ (mid_counts _ _ _ _ _ _ _ _ Hm)).
    + cbn [exchange] in Hex. apply bind_Done_inv in Hex as ([b r] & _ & Hex). apply bind_Done_inv in Hex as ([b1 rs] & _ & Hex). discriminate.
  - destruct q as [|x q]; [rewrite Hq in Hex by done; discriminate|]. cbn [app exchange] in Hex. apply bind_Done_inv in Hex as ([b r0] & E1 & Hex).
    apply bind_Done_inv in Hex as ([b1 rs0] & E2 & Hex). injection Hex as -> -> ->. destruct fuel as [|fuel]; [cbn in Hfuel; lia|]. cbn [tx_loop].
    assert (Hz : zlen ((x :: q) ++ q') = 1 + zlen (q ++ q')) by (unfold zlen; cbn [app length]; lia). assert (0 <= zlen (q ++ q')) by (unfold zlen; lia).
    rewrite (c_tx _ _ _ _ _ (mid_counts _ _ _ _ _ _ _ _ Hm)), (holds_empty _ _ (mid_tx _ _ _ _ _ _ _ _ Hm)), bool_decide_eq_false_2 by done.
    rewrite (proj2 (nonzero_iff _)) by lia. cbn [andb negb]. destruct (holds_pop _ _ _ (mid_tx _ _ _ _ _ _ _ _ Hm)) as (f & -> & Hf). run.
    change (ssi_bus (s <| tx_fifo := f |>)) with (ssi_bus s). rewrite E1. run. set (s1 := s <| tx_fifo := f |> <| ssi_bus := b |>).
    assert (Hr : in_width 32 r) by (eapply transfer_word_width; [done|by vm_compute]).
    rewrite (c_tx s1 cfg ctrl (zlen ((x :: q) ++ q')) nr) by (eapply counts_fields; [apply Hm|done]).
    rewrite wrap_small by (unfold in_width; nia). replace (zlen ((x :: q) ++ q') - 1) with (zlen (q ++ q')) by lia.
    set (s2 := set_REG s1 REG_TXCNT (zlen (q ++ q'))). assert (Hm2 : mid s2 q q' rest tot left (zlen (q ++ q')) nr).
    { destruct Hm. split; [by eapply counts_tx, counts_fields|done..]. }
    destruct (refill _ _ _ _ _ _ _ Hm2) as (s3 & q1 & q2 & -> & Eq & Hq12 & (k & Hk) & Hm3 & Hb3); [rewrite zlen_app in *; unfold zlen in *; nia|done|]. run.
    rewrite (c_rx _ _ _ _ _ (mid_counts _ _ _ _ _ _ _ _ Hm3)). rewrite Eq in *.
    assert (Hq2 : Forall (in_width (8 * w)) q2) by (rewrite Hk; by apply Forall_drop).
    assert (Hf2 : (length (q1 ++ q2) <= fuel)%nat) by (rewrite <- Eq; cbn in Hfuel; lia).
    destruct (Z.ltb_spec 0 nr) as [Hpos|Hzero].
    + destruct (store _ _ _ _ _ _ _ _ r Hm3) as (s4 & -> & Hm4 & Hb4); [nia|nia|done|]. run.
      destruct (IH bus' fuel s4 q1 q2 rest _ _ (nr - 1) Hm4 Hq12) as (s5 & -> & Hm5 & Hb5); try done; [nia|lia|nia|by rewrite Hb4, Hb3|].
      exists s5. split; [done|]. split; [|done]. replace (Z.to_nat nr) with (S (Z.to_nat (nr - 1))) by lia. cbn [take]. rewrite wsplit_cons, app_assoc.
      by replace (left - w * nr) with (left - w - w * (nr - 1)) by lia.
    + run. assert (nr = 0) as -> by lia. destruct (IH bus' fuel s3 q1 q2 rest _ _ 0 Hm3 Hq12) as (s5 & -> & Hm5 & Hb5); try done; [nia|by rewrite Hb3|].
      exists s5. done.
Qed.

Lemma mid_empty s q q' rest tot left nt nr : mid s q q' rest tot left nt nr -> holds (rx_fifo s) [] -> R (sio s) (wsplit w q' ++ rest) left tot.
Proof.
  intros Hm He. destruct (mid_rx _ _ _ _ _ _ _ _ Hm) as (rxq & room & out & Hrx & HR & -> & -> & _).
  pose proof (proj1 (holds_num _ _ He)) as Hn. rewrite (proj1 (holds_num _ _ Hrx)) in Hn. destruct rxq as [|x l]; [|unfold zlen in Hn; cbn [length] in Hn; lia].
  change (zlen []) with 0. rewrite app_nil_r, Z.mul_0_r, Z.sub_0_r. done.
Qed.

(** A controller with nothing in its queues, ready for a transfer. *)
Record ready (s : spi_state) (nt nr : Z) : Prop := {
  r_counts : counts s cfg ctrl nt nr;
  r_tx : holds (tx_fifo s) [];
  r_rx : holds (rx_fifo s) [];
  r_tx_chan : tx_chan s = Some tx;
  r_rx_chan : rx_chan s = Some rx;
}.

Lemma ready_mid s nt nr ws rest room out : ready s nt nr -> R (sio s) (wsplit w ws ++ rest) room out -> 0 <= room -> mid s [] ws rest out room nt nr.
Proof.
  intros [] HR Hroom. split; try done. exists [], room, out. change (zlen []) with 0. rewrite app_nil_r. split_and!; done || lia.
Qed.

(** A run moves all the words, whatever their number. *)
Lemma run_dma s ws rest room out nr bus' rs : ready s (zlen ws) nr -> R (sio s) (wsplit w ws ++ rest) room out -> dma_capable s = true ->
  nonzero (ctrl .& REG_CTRL_RUN) = true -> ws <> [] -> Forall (in_width (8 * w)) ws -> w * zlen ws < 2 ^ 32 -> 0 <= nr <= zlen ws -> w * nr <= room ->
  exchange w (ssi_bus s) ws = Done (bus', rs) ->
  exists s', apple_spi_run s = Done s' /\ ready s' 0 0 /\ R (sio s') rest (room - w * nr) (out ++ wsplit w (take (Z.to_nat nr) rs)) /\
    ssi_bus s' = bus' /\ Z.testbit (REG s' REG_STATUS) 22 = true.
Proof.
  intros Hr HR Hcap Hrun Hne Hws Hlen Hnr Hroom Hex. pose proof size_range as Hw. pose proof (ready_mid s _ nr ws rest room out Hr HR ltac:(nia)) as Hm.
  unfold apple_spi_run. rewrite (mid_size _ _ _ _ _ _ _ _ Hm). run. destruct Hr as [[Hl Hcfg Hctrl Htx Hrx] Htxf Hrxf Hc1 Hc2].
  rewrite Hcfg, Hmode, Hcap, Hctrl, Hrx, Htx. cbn [negb andb orb REG_CFG_MODE_DMA REG_CFG_MODE_INVALID Z.eqb].
  assert (Hz : 0 < zlen ws) by (destruct ws; [done|unfold zlen; cbn [length]; lia]).
  assert (Hcnt : (Z.lor nr (zlen ws) =? 0) = false) by (apply Z.eqb_neq; intros [_ ?]%Z.lor_eq_0_iff; lia).
  unfold nonzero in Hrun. apply negb_true_iff in Hrun. rewrite Hrun, Hcnt. cbn [orb].
  destruct (refill _ _ _ _ _ _ _ Hm Hlen Hws) as (s1 & q1 & q2 & -> & Eq & Hq12 & (k & Hk) & Hm1 & Hb1). run. cbn [app] in Eq.
  rewrite (c_tx _ _ _ _ _ (mid_counts _ _ _ _ _ _ _ _ Hm1)). rewrite Eq in *.
  destruct (tx_loop_ok rs bus' (Z.to_nat (zlen (q1 ++ q2))) s1 q1 q2 rest out room nr Hm1 Hq12) as (s2 & -> & Hm2 & Hb2); try done.
  { rewrite Hk. rewrite <- Eq in *. by apply Forall_drop. }
  { unfold zlen. lia. }
  { by rewrite Hb1. }
  run. assert (exists s3, (if fifo32_is_full (rx_fifo s2) then apple_spi_flush_rx s2 else mret s2) = Done s3 /\
    mid s3 [] [] rest (out ++ wsplit w (take (Z.to_nat nr) rs)) (room - w * nr) 0 0 /\ ssi_bus s3 = bus') as (s3 & -> & Hm3 & Hb3).
  { destruct (fifo32_is_full (rx_fifo s2)); [|by exists s2]. destruct (flush _ _ _ _ _ _ _ _ Hm2) as (s3 & -> & Hm3 & _ & Hb3). exists s3. split_and!; congruence. }
  run. rewrite (c_rx _ _ _ _ _ (mid_counts _ _ _ _ _ _ _ _ Hm3)). change (Z.to_nat 0) with O. cbn [rx_loop]. rewrite (c_rx _ _ _ _ _ (mid_counts _ _ _ _ _ _ _ _ Hm3)).
  change (0 <? 0) with false. rewrite (andb_false_r (negb (fifo32_is_full (rx_fifo s3)))). cbn [andb]. run. destruct (flush _ _ _ _ _ _ _ _ Hm3) as (s4 & -> & Hm4 & Hf4 & Hb4). run.
  rewrite (c_rx _ _ _ _ _ (mid_counts _ _ _ _ _ _ _ _ Hm4)), (c_tx _ _ _ _ _ (mid_counts _ _ _ _ _ _ _ _ Hm4)). cbn [Z.eqb andb].
  eexists. split; [done|]. pose proof (mid_empty _ _ _ _ _ _ _ _ Hm4 Hf4) as HR4. split; [|split; [done|split; [by rewrite <- Hb3, <- Hb4|]]].
  - destruct (mid_status _ _ _ _ _ _ _ _ (REG s4 REG_STATUS .| REG_STATUS_COMPLETE) Hm4). by split.
  - unfold set_status. rewrite REG_set by (done || apply Hm4). rewrite decide_True by done. rewrite Z.lor_spec. apply orb_true_r.
Qed.

End Dma.

(** ** Transfers by the driver *)

Section Pio.
Context (cfg ctrl w : Z).
Hypothesis Hmode : REG_CFG_MODE cfg = REG_CFG_MODE_IRQ.
Hypothesis Hsize : word_size cfg = Done w.
Hypothesis Hagd : nonzero (cfg .& REG_CFG_AGD) = false.
Hypothesis Hrun : nonzero (ctrl .& REG_CTRL_RUN) = true.

(** The words the driver writes, and the reads of the answers. *)
Fixpoint write_all (s : spi_state) (vs : list Z) : outcome spi_state :=
  match vs with [] => mret s | v :: vs => s ← apple_spi_reg_write s REG_TXDATA v; write_all s vs end.

Fixpoint read_all (s : spi_state) (n : nat) : outcome (spi_state * list Z) :=
  match n with
  | O => mret (s, [])
  | S n => '(s, r) ← apple_spi_reg_read s REG_RXDATA; '(s, rs) ← read_all s n; mret (s, r :: rs)
  end.

(** What of a value is sent. *)
Definition sent_word (v : Z) : Z := if w =? 1 then u32 v .& 0xFF else if w =? 2 then u32 v .& 0xFFFF else u32 v.

(** Between two accesses: the answers [rxq] wait for the driver. *)
Record waiting (s : spi_state) (rxq : list Z) (nt nr : Z) : Prop := {
  w_counts : counts s cfg ctrl nt nr;
  w_tx : holds (tx_fifo s) [];
  w_rx : holds (rx_fifo s) rxq;
}.

Lemma waiting_regs s s' rxq nt nr : waiting s rxq nt nr -> counts s' cfg ctrl nt nr -> tx_fifo s' = tx_fifo s -> rx_fifo s' = rx_fifo s -> waiting s' rxq nt nr.
Proof. intros [] ? Ht Hr. split; [done|by rewrite Ht|by rewrite Hr]. Qed.

Lemma waiting_flush s rxq nt nr : waiting s rxq nt nr -> apple_spi_flush_rx s = Done s.
Proof. intros [Hc _ _]. unfold apple_spi_flush_rx. by rewrite (c_cfg _ _ _ _ _ Hc), Hmode. Qed.

Lemma pio_store s rxq nt nr r : waiting s rxq nt nr -> zlen rxq < 16 -> 0 < nr < 2 ^ 32 -> in_width 32 r ->
  exists s', store_rx s r = Done (s', false) /\ waiting s' (rxq ++ [r]) nt (nr - 1) /\ ssi_bus s' = ssi_bus s.
Proof.
  intros [Hc Ht Hr] Hl Hnr Hw. unfold store_rx. rewrite (holds_full _ _ Hr), (proj2 (Z.leb_gt _ _)) by done. run.
  rewrite (holds_full _ _ Hr), (proj2 (Z.leb_gt _ _)) by done. destruct (holds_push _ _ r Hr Hl Hw) as (f & -> & Hf). run.
  set (s1 := s <| rx_fifo := f |>). assert (Hc1 : counts s1 cfg ctrl nt nr) by (by eapply counts_fields). rewrite (c_rx _ _ _ _ _ Hc1), wrap_small by (unfold in_width; lia).
  eexists. split; [done|]. unfold apple_spi_update_xfer_rx, set_status. destruct (fifo8_is_empty _); (split; [|done]).
  all: split; [by apply counts_status, counts_rx with nr|done|done].
Qed.

Lemma sent_width v : in_width 32 (sent_word v).
Proof.
  pose proof (wrap_range 32 v ltac:(lia)). unfold sent_word. destruct (w =? 1); [by apply in_width_land|]. by destruct (w =? 2); [apply in_width_land|].
Qed.

Lemma run_one s x rxq nt nr bus' r : counts s cfg ctrl nt nr -> holds (tx_fifo s) [x] -> holds (rx_fifo s) rxq -> zlen rxq < 16 ->
  0 < nt < 2 ^ 32 -> 0 < nr < 2 ^ 32 -> transfer_word (Z.to_nat w) (ssi_bus s) x 0 = Done (bus', r) ->
  exists s', apple_spi_run s = Done s' /\ waiting s' (rxq ++ [r]) (nt - 1) (nr - 1) /\ ssi_bus s' = bus' /\
    (nt = 1 -> nr = 1 -> Z.testbit (REG s' REG_STATUS) 22 = true).
Proof.
  intros Hc Ht Hr Hl Hnt Hnr Hx. unfold apple_spi_run, apple_spi_word_size. rewrite (c_cfg _ _ _ _ _ Hc), Hsize. run.
  rewrite Hmode, (c_ctrl _ _ _ _ _ Hc), (c_rx _ _ _ _ _ Hc), (c_tx _ _ _ _ _ Hc). cbn [REG_CFG_MODE_IRQ REG_CFG_MODE_DMA REG_CFG_MODE_INVALID Z.eqb Pos.eqb andb orb].
  assert (Hcnt : (Z.lor nr nt =? 0) = false) by (apply Z.eqb_neq; intros [_ ?]%Z.lor_eq_0_iff; lia).
  pose proof Hrun as Hrun'. unfold nonzero in Hrun'. apply negb_true_iff in Hrun'. rewrite Hrun', Hcnt. cbn [orb].
  unfold apple_spi_update_xfer_tx at 1. rewrite (holds_empty _ _ Ht), bool_decide_eq_false_2 by done. cbn [negb]. run.
  rewrite (c_tx _ _ _ _ _ Hc). replace (Z.to_nat nt) with (S (Z.to_nat (nt - 1))) by lia. cbn [tx_loop].
  rewrite (c_tx _ _ _ _ _ Hc), (holds_empty _ _ Ht), bool_decide_eq_false_2 by done. rewrite (proj2 (nonzero_iff _)) by lia. cbn [andb negb].
  destruct (holds_pop _ _ _ Ht) as (f & -> & Hf). run. change (ssi_bus (s <| tx_fifo := f |>)) with (ssi_bus s). rewrite Hx. run.
  set (s1 := s <| tx_fifo := f |> <| ssi_bus := bus' |>). assert (Hc1 : counts s1 cfg ctrl nt nr) by (by eapply counts_fields).
  rewrite (c_tx _ _ _ _ _ Hc1), wrap_small by (unfold in_width; lia). set (s2 := set_REG s1 REG_TXCNT (nt - 1)).
  assert (Hc2 : counts s2 cfg ctrl (nt - 1) nr) by (by eapply counts_tx). assert (Hb2 : ssi_bus s2 = bus') by done.
  unfold apple_spi_update_xfer_tx. change (tx_fifo s2) with f. rewrite (holds_empty _ _ Hf), bool_decide_eq_true_2 by done. cbn [negb].
  rewrite (c_cfg _ _ _ _ _ Hc2), Hmode. cbn [REG_CFG_MODE_IRQ REG_CFG_MODE_DMA Z.eqb Pos.eqb negb]. run. set (s3 := set_status s2 REG_STATUS_TXEMPTY).
  assert (Hw3 : waiting s3 rxq (nt - 1) nr) by (split; [by apply counts_status|done|done]).
  rewrite (c_rx _ _ _ _ _ (w_counts _ _ _ _ Hw3)), (proj2 (Z.ltb_lt _ _)) by lia.
  destruct (pio_store _ _ _ _ r Hw3 Hl Hnr) as (s4 & -> & Hw4 & Hb4); [by eapply transfer_word_width|]. run.
  assert (Hloop : forall fuel, tx_loop fuel s4 w = Done s4).
  { intros []; cbn [tx_loop]; by rewrite (holds_empty _ _ (w_tx _ _ _ _ Hw4)), bool_decide_eq_true_2, andb_false_r. }
  rewrite Hloop. run. rewrite (waiting_flush _ _ _ _ Hw4). replace (if fifo32_is_full (rx_fifo s4) then Done s4 else mret s4) with (Done s4) by (by destruct (fifo32_is_full _)).
  run. assert (Hrx : forall fuel, rx_loop fuel s4 w = Done s4).
  { intros []; cbn [rx_loop]; by rewrite (c_cfg _ _ _ _ _ (w_counts _ _ _ _ Hw4)), Hagd, andb_false_r. }
  rewrite Hrx. run. rewrite (waiting_flush _ _ _ _ Hw4). run. rewrite (c_rx _ _ _ _ _ (w_counts _ _ _ _ Hw4)), (c_tx _ _ _ _ _ (w_counts _ _ _ _ Hw4)).
  eexists. split; [done|]. destruct Hw4 as [Hc4 Ht4 Hr4]. destruct ((nr - 1 =? 0) && (nt - 1 =? 0)) eqn:E.
  - split; [|split; [by rewrite <- Hb2|]]; [split; [by apply counts_status|done|done]|]. intros _ _. unfold set_status.
    rewrite REG_set by (done || apply Hc4). rewrite decide_True by done. rewrite Z.lor_spec. apply orb_true_r.
  - split_and!; [by split|by rewrite <- Hb2|]. intros -> ->. discriminate.
Qed.

(** A word that is written is exchanged at once. *)
Lemma write_one s rxq nt nr v bus' r : waiting s rxq nt nr -> zlen rxq < 16 -> 0 < nt < 2 ^ 32 -> 0 < nr < 2 ^ 32 ->
  transfer_word (Z.to_nat w) (ssi_bus s) (sent_word v) 0 = Done (bus', r) ->
  exists s', apple_spi_reg_write s REG_TXDATA v = Done s' /\ waiting s' (rxq ++ [r]) (nt - 1) (nr - 1) /\ ssi_bus s' = bus' /\
    (nt = 1 -> nr = 1 -> Z.testbit (REG s' REG_STATUS) 22 = true).
Proof.
  intros [Hc Ht Hr] Hl Hnt Hnr Hx. unfold apple_spi_reg_write. destruct (aget_in_range (regs s) (REG_TXDATA .>> 2)) as (old & ->).
  { unfold zlen. rewrite (c_regs _ _ _ _ _ Hc). change (REG_TXDATA .>> 2) with 4. lia. }
  run. cbn [REG_MAX REG_TXDATA Z.leb Z.compare Pos.compare Pos.compare_cont]. unfold write_value. rewrite (holds_full _ _ Ht).
  cbn [REG_CTRL REG_STATUS REG_TXDATA Z.eqb Pos.eqb]. change (16 <=? zlen []) with false. unfold apple_spi_word_size. rewrite (c_cfg _ _ _ _ _ Hc), Hsize. run.
  fold (sent_word v). destruct (holds_push _ _ (sent_word v) Ht) as (f & -> & Hf); [done|by apply sent_width|]. run.
  cbn [REG_PIN Z.eqb Pos.eqb]. set (s1 := set_REG _ _ _). assert (Hc1 : counts s1 cfg ctrl nt nr) by (by eapply counts_txdata, counts_fields).
  destruct (run_one s1 (sent_word v) rxq nt nr bus' r Hc1 Hf Hr Hl Hnt Hnr Hx) as (s2 & -> & [Hc2 Ht2 Hr2] & Hb2 & Hs2). run.
  eexists. split; [done|]. split; [|done]. split; [by eapply counts_fields|done|done].
Qed.

Lemma write_all_ok vs : forall s rxq bus' rs, waiting s rxq (zlen vs) (zlen vs) -> zlen rxq + zlen vs <= 16 ->
  exchange w (ssi_bus s) (sent_word <$> vs) = Done (bus', rs) ->
  exists s', write_all s vs = Done s' /\ waiting s' (rxq ++ rs) 0 0 /\ ssi_bus s' = bus' /\ 
    (vs <> [] \/ Z.testbit (REG s REG_STATUS) 22 = true -> Z.testbit (REG s' REG_STATUS) 22 = true).
Proof.
  induction vs as [|v vs IH]; intros s rxq bus' rs Hs Hl Hex; cbn [write_all].
  - injection Hex as <- <-. exists s. rewrite app_nil_r. split_and!; [done|done|done|]. by intros [?|?].
  - cbn [fmap list_fmap exchange] in Hex. apply bind_Done_inv in Hex as ([b r] & E1 & Hex). apply bind_Done_inv in Hex as ([b1 rs1] & E2 & Hex). injection Hex as <- <-.
    assert (Hz : zlen (v :: vs) = 1 + zlen vs) by (unfold zlen; cbn [length]; lia). assert (0 <= zlen vs /\ 0 <= zlen rxq) by (unfold zlen; lia).
    destruct (write_one s rxq _ _ v b r Hs) as (s1 & -> & Hs1 & Hb & Hc); [lia|lia|lia|done|]. run. rewrite Hz in Hs1.
    replace (1 + zlen vs - 1) with (zlen vs) in Hs1 by lia. destruct (IH s1 (rxq ++ [r]) b1 rs1 Hs1) as (s2 & -> & Hs2 & Hb2 & Hc2).
    + rewrite zlen_app. change (zlen [r]) with 1. lia.
    + by rewrite Hb.
    + exists s2. rewrite <- app_assoc in Hs2. split_and!; try done. intros _. apply Hc2. destruct vs; [right; by apply Hc|by left].
Qed.

Lemma exchange_length q : forall bus bus' rs, exchange w bus q = Done (bus', rs) -> length rs = length q.
Proof.
  induction q as [|x q IH]; intros bus bus' rs Hex; cbn [exchange] in Hex; [by injection Hex as <- <-|].
  apply bind_Done_inv in Hex as ([b r] & E1 & Hex). apply bind_Done_inv in Hex as ([b1 rs1] & E2 & Hex). injection Hex as <- <-. cbn [length]. f_equal. by eapply IH.
Qed.

Lemma read_one s r rs : waiting s (r :: rs) 0 0 -> exists s', apple_spi_reg_read s REG_RXDATA = Done (s', r) /\ waiting s' rs 0 0 /\ ssi_bus s' = ssi_bus s.
Proof.
  intros [Hc Ht Hr]. unfold apple_spi_reg_read, read_value. cbn [REG_MAX REG_RXDATA Z.leb Z.compare Pos.compare Pos.compare_cont Z.eqb Pos.eqb].
  rewrite (holds_empty _ _ Hr), bool_decide_eq_false_2 by done. destruct (holds_pop _ _ _ Hr) as (f & -> & Hf). run.
  set (s1 := s <| rx_fifo := f |>). assert (Hc1 : counts s1 cfg ctrl 0 0) by (by eapply counts_fields).
  assert (Hrun1 : apple_spi_run s1 = Done s1).
  { unfold apple_spi_run, apple_spi_word_size. rewrite (c_cfg _ _ _ _ _ Hc1), Hsize. run. rewrite Hmode, (c_rx _ _ _ _ _ Hc1), (c_tx _ _ _ _ _ Hc1).
    cbn [REG_CFG_MODE_IRQ REG_CFG_MODE_DMA Z.eqb Pos.eqb andb Z.lor]. by rewrite orb_true_r. }
  rewrite Hrun1. replace (if fifo8_is_empty f : bool then Done s1 else mret s1) with (Done s1) by (by destruct (fifo8_is_empty f)). run.
  eexists. split; [done|]. split; [|done]. split; [by eapply counts_fields|done|done].
Qed.

Lemma read_all_ok rs : forall s, waiting s rs 0 0 -> exists s', read_all s (length rs) = Done (s', rs) /\ waiting s' [] 0 0 /\ ssi_bus s' = ssi_bus s.
Proof.
  induction rs as [|r rs IH]; intros s Hs; cbn [read_all length]; [by exists s|].
  destruct (read_one s r rs Hs) as (s1 & -> & Hs1 & Hb1). run. destruct (IH s1 Hs1) as (s2 & -> & Hs2 & Hb2). run. exists s2. split_and!; [done|done|congruence].
Qed.

(** A driver that sets the counts and writes up to 16 words to the data register
    gets the answers of the peripherals.  Each word is on the bus before its write
    ends, the controller reports that the transfer is complete after the last, and the
    reads of the data register return the answers in order; then the queues are
    empty again. *)
Theorem pio_exchange s vs bus' rs : waiting s [] (zlen vs) (zlen vs) -> 0 < zlen vs <= 16 ->
  exchange w (ssi_bus s) (sent_word <$> vs) = Done (bus', rs) ->
  exists s1 s2, write_all s vs = Done s1 /\ Z.testbit (REG s1 REG_STATUS) 22 = true /\ ssi_bus s1 = bus' /\
    read_all s1 (length vs) = Done (s2, rs) /\ waiting s2 [] 0 0 /\ ssi_bus s2 = bus'.
Proof.
  intros Hs Hl Hex. destruct (write_all_ok vs s [] bus' rs Hs ltac:(change (zlen []) with 0; lia) Hex) as (s1 & E1 & Hs1 & Hb1 & Hc).
  destruct (read_all_ok rs s1 Hs1) as (s2 & E2 & Hs2 & Hb2). rewrite (exchange_length _ _ _ _ Hex), length_fmap in E2.
  exists s1, s2. split_and!; try done; [|congruence]. apply Hc. left. intros ->. change (zlen []) with 0 in Hl. lia.
Qed.

End Pio.

End Spi.
