(* ===== verification/Cs42l77.v ===== *)
(** * Amplifier on the SPI bus

    Model of [hw/audio/apple-silicon/cs42l77.c]: the commands that come over the bus a
    byte at a time, and the registers they read and write. *)

From S2P Require Import Prelude Bitops CString Dt Fifo8 Spi.

Definition CS42L77_CHIP_ID : Z := 0x042A77.
Definition CMD_SET_START_ADDRESS : Z := 0x80.
Definition CMD_SET_LENGTH : Z := 0x81.
Definition CMD_WRITE_WORDS : Z := 0xB2.
Definition CMD_WRITE_BYTES : Z := 0xB5.
Definition CMD_READ_WORDS : Z := 0xC4.
Definition CMD_READ_BYTES : Z := 0xC6.
Definition STS_OK : Z := 0x50.
Definition CS42L77_REG_SIZE : Z := 0x1000000.

(** The registers are zero where nothing is stored. *)
Record AppleCS42L77State := mkAmp {
  start_addr : Z;
  address : Z;
  pos : Z;
  end_pos : Z;
  length_ : Z;
  cur_cmd : Z;
  data_ready : bool;
  regs : gmap Z Z;
}.
#[global] Instance eta_AppleCS42L77State : Eta AppleCS42L77State := fun s =>
  mkAmp (start_addr s) (address s) (pos s) (end_pos s) (length_ s) (cur_cmd s) (data_ready s) (regs s).

(** ** Commands, one byte each *)

Definition set_start_address (s : AppleCS42L77State) (val : Z) : AppleCS42L77State :=
  let s :=
    if pos s =? 0 then s <| start_addr := 0 |> <| address := 0 |> <| end_pos := 3 |>
    else s <| start_addr ::= fun a => deposit64 a ((pos s - 1) * 8) 8 val |> in
  if pos s =? end_pos s then s <| address := start_addr s |> else s.

Definition set_length (s : AppleCS42L77State) (val : Z) : AppleCS42L77State :=
  if pos s =? 0 then s <| length_ := 0 |> <| end_pos := 2 |>
  else s <| length_ ::= fun l => u16 (l .| (u16 val .<< ((pos s - 1) * 8))) |>.

(** A byte of the registers, behind which the address moves. *)
Definition read_reg (s : AppleCS42L77State) : outcome (AppleCS42L77State * Z) :=
  ret ← mget CS42L77_REG_SIZE (regs s) (address s);
  mret (s <| address ::= fun a => u64 (a + 1) |>, ret).

Definition write_reg (s : AppleCS42L77State) (val : Z) : outcome AppleCS42L77State :=
  r ← mset CS42L77_REG_SIZE (regs s) (address s) (u8 val);
  mret (s <| regs := r |> <| address ::= fun a => u64 (a + 1) |>).

(** The bytes that are left of [size] from the start, at most [limit]. *)
Definition left_bytes (s : AppleCS42L77State) (size limit : Z) : Z := Z.min (u64 (start_addr s + size - address s)) limit.

Definition at_end (s : AppleCS42L77State) (size : Z) : bool := (pos s =? end_pos s) && (address s =? u64 (start_addr s + size)).

Definition read_words (s : AppleCS42L77State) : outcome (AppleCS42L77State * Z) :=
  let size := length_ s * 4 in
  '(s, ret) ←
    (if pos s =? 0 then
       mret (if data_ready s then s <| end_pos := 1 + left_bytes s size 0x80 |> else s <| end_pos := 1 |> <| data_ready := true |>, 0)
     else if pos s =? 1 then mret (s, STS_OK)
     else read_reg s);
  mret (if at_end s size then s <| address := start_addr s |> <| data_ready := false |> else s, ret).

Definition read_bytes (s : AppleCS42L77State) : outcome (AppleCS42L77State * Z) :=
  let size := length_ s in
  '(s, ret) ←
    (if pos s =? 0 then mret (s <| end_pos := 1 + left_bytes s size 0x20 |>, STS_OK)
     else if pos s =? 1 then mret (s, STS_OK)
     else read_reg s);
  mret (if at_end s size then s <| address := start_addr s |> else s, ret).

(** The two commands that write: [size] is what the length stands for. *)
Definition write_cmd (s : AppleCS42L77State) (size limit val : Z) : outcome (AppleCS42L77State * Z) :=
  s ← (if pos s =? 0 then mret (s <| end_pos := left_bytes s size limit |>) else write_reg s val);
  mret (if at_end s size then s <| address := start_addr s |> else s, STS_OK).

Definition command (s : AppleCS42L77State) (val : Z) : outcome (AppleCS42L77State * Z) :=
  let cmd := cur_cmd s in
  if cmd =? CMD_SET_START_ADDRESS then mret (set_start_address s val, 0)
  else if cmd =? CMD_SET_LENGTH then mret (set_length s val, 0)
  else if cmd =? CMD_READ_WORDS then read_words s
  else if cmd =? CMD_READ_BYTES then read_bytes s
  else if cmd =? CMD_WRITE_WORDS then write_cmd s (length_ s * 4) 0x80 val
  else if cmd =? CMD_WRITE_BYTES then write_cmd s (length_ s) 0x20 val
  else if cmd =? 0x90 then mret (if pos s =? 0 then (s <| end_pos := 1 |>, STS_OK) else (s, BIT 3 .| BIT 4 .| BIT 7))
  else if cmd =? 0x91 then mret (if pos s =? 0 then (s <| end_pos := 2 |>, STS_OK) else (s, 0))
  else if cmd =? 0xA1 then
    mret (if pos s =? 0 then (s <| end_pos := 1 |>, STS_OK)
          else (if nonzero (val .& BIT 6) then s <| address := start_addr s |> else s, 0))
  else mret (s, 0).

Definition apple_cs42l77_transfer (s : AppleCS42L77State) (val : Z) : outcome (AppleCS42L77State * Z) :=
  let s := if pos s =? 0 then s <| cur_cmd := u8 val |> else s in
  '(s, ret) ← command s val;
  mret (if pos s =? end_pos s then s <| cur_cmd := 0 |> <| pos := 0 |> <| end_pos := 0 |> else s <| pos ::= fun p => u32 (p + 1) |>, ret).

Definition stl_le_p (r : gmap Z Z) (addr v : Z) : gmap Z Z := foldr (fun '(a, b) r => <[a := b]> r) r (zip (seqZ addr 4) (le_split 4 v)).

Definition apple_cs42l77_reset : AppleCS42L77State :=
  let r := stl_le_p ∅ 0 CS42L77_CHIP_ID in
  let r := stl_le_p r 0x20034 3 in
  let r := stl_le_p r 0x40048 (BIT 4) in
  let r := stl_le_p r 0x40054 (BIT 3) in
  let r := stl_le_p r 0xBC09C8 0xA500 in
  mkAmp 0 0 0 0 0 0 false r.

#[global] Instance amp_peripheral : SSIPeripheralClass AppleCS42L77State := {|
  cs_polarity := fun _ => SSI_CS_NONE;
  transfer := apple_cs42l77_transfer;
  set_cs := fun s _ => s;
|}.

(** ** Commands as the driver sends them *)

Fixpoint send (s : AppleCS42L77State) (bs : bytes) : outcome (AppleCS42L77State * bytes) :=
  match bs with
  | [] => mret (s, [])
  | b :: bs => '(s, r) ← apple_cs42l77_transfer s b; '(s, rs) ← send s bs; mret (s, r :: rs)
  end.

(** The registers as memory. *)
Fixpoint store_bytes (r : gmap Z Z) (a : Z) (bs : bytes) : gmap Z Z :=
  match bs with [] => r | b :: bs => store_bytes (<[a := u8 b]> r) (a + 1) bs end.
Definition load_bytes (r : gmap Z Z) (a : Z) (n : nat) : bytes := (fun i => default 0 (r !! i)) <$> seqZ a (Z.of_nat n).

Lemma reg_store_other bs : forall r a i, i < a -> store_bytes r a bs !! i = r !! i.
Proof. induction bs as [|b bs IH]; intros r a i Hi; cbn [store_bytes]; [done|]. rewrite IH by lia. by rewrite lookup_insert_ne by lia. Qed.

Lemma store_bytes_app x : forall r a y, store_bytes r a (x ++ y) = store_bytes (store_bytes r a x) (a + zlen x) y.
Proof.
  induction x as [|b x IH]; intros r a y; cbn [store_bytes app]; [by rewrite Z.add_0_r|]. rewrite IH. f_equal. unfold zlen. cbn [length]. lia.
Qed.

Lemma seqZ_head a n : seqZ a (Z.of_nat (S n)) = a :: seqZ (a + 1) (Z.of_nat n).
Proof. rewrite seqZ_cons by lia. do 2 f_equal; lia. Qed.

Lemma reg_load_store bs : forall r a, Forall (in_width 8) bs -> load_bytes (store_bytes r a bs) a (length bs) = bs.
Proof.
  induction bs as [|b bs IH]; intros r a Hb; [done|]. apply Forall_cons in Hb as [Hb Hbs]. unfold load_bytes in *. cbn [length store_bytes].
  rewrite seqZ_head. cbn [fmap list_fmap]. rewrite IH by done. f_equal. rewrite reg_store_other, lookup_insert_eq by lia. cbn. by apply wrap_small.
Qed.

Lemma load_app r a x y : load_bytes r a (x + y) = load_bytes r a x ++ load_bytes r (a + Z.of_nat x) y.
Proof. unfold load_bytes. rewrite Nat2Z.inj_add, seqZ_app, fmap_app by lia. done. Qed.

(** A transfer of [n] bytes at [start] is set up, and is at address [a]; [idle] is between commands. *)
Section Transfer.
Context (start n : Z) (d : bool).
Hypothesis Hstart : 0 <= start.
Hypothesis Hn : 0 < n.
Hypothesis Hsize : start + n <= CS42L77_REG_SIZE.

Definition idle (a : Z) (r : gmap Z Z) : AppleCS42L77State := mkAmp start a 0 0 n 0 d r.

(** Where the address is after the byte before [a]. *)
Definition next (a : Z) : Z := if a =? start + n then start else a.

Lemma write_step a p e r b : 1 <= p <= e -> e < 2 ^ 16 -> start <= a < start + n ->
  apple_cs42l77_transfer (mkAmp start a p e n CMD_WRITE_BYTES d r) b =
  Done (if p =? e then idle (next (a + 1)) (<[a := u8 b]> r) else mkAmp start (a + 1) (p + 1) e n CMD_WRITE_BYTES d (<[a := u8 b]> r), STS_OK).
Proof.
  intros Hp He Ha. unfold CS42L77_REG_SIZE in *. unfold apple_cs42l77_transfer. cbn [pos]. rewrite (proj2 (Z.eqb_neq p 0)) by lia. unfold command.
  cbn [cur_cmd length_ Z.eqb Pos.eqb CMD_WRITE_BYTES CMD_SET_START_ADDRESS CMD_SET_LENGTH CMD_READ_WORDS CMD_READ_BYTES CMD_WRITE_WORDS].
  unfold write_cmd, write_reg. cbn [pos regs address]. rewrite (proj2 (Z.eqb_neq p 0)) by lia. rewrite mset_ok by (unfold CS42L77_REG_SIZE; lia). run.
  unfold at_end, next, idle. cbn [pos end_pos address start_addr setf].
  assert (Ha1 : u64 (a + 1) = a + 1) by (apply wrap_small; unfold in_width; lia). assert (Hp1 : u32 (p + 1) = p + 1) by (apply wrap_small; unfold in_width; lia).
  rewrite Ha1, (wrap_small 64 (start + n)) by (unfold in_width; lia).
  destruct (Z.eqb_spec p e) as [->|]; cbn [andb]; [destruct (Z.eqb_spec (a + 1) (start + n))|]; run; cbn [pos end_pos setf].
  3: rewrite (proj2 (Z.eqb_neq p e)) by done.
  1, 2: rewrite Z.eqb_refl.
  - done.
  - by rewrite <- Ha1.
  - by rewrite <- Ha1, <- Hp1.
Qed.

(** The bytes of a write behind the command. *)
Lemma write_rest bs : forall a p r, bs <> [] -> 1 <= p -> p + zlen bs < 2 ^ 16 -> start <= a -> a + zlen bs <= start + n ->
  send (mkAmp start a p (p + zlen bs - 1) n CMD_WRITE_BYTES d r) bs = Done (idle (next (a + zlen bs)) (store_bytes r a bs), replicate (length bs) STS_OK).
Proof.
  induction bs as [|b bs IH]; intros a p r Hne Hp He Ha Hl; [done|]. assert (Hz : zlen (b :: bs) = 1 + zlen bs) by (unfold zlen; cbn [length]; lia).
  assert (0 <= zlen bs) by (unfold zlen; lia). cbn [send]. rewrite write_step by lia. run. destruct bs as [|b' bs].
  - change (zlen [b]) with 1. rewrite (proj2 (Z.eqb_eq p (p + 1 - 1))) by lia. done.
  - assert (zlen (b' :: bs) = 1 + zlen bs) by (unfold zlen; cbn [length]; lia). assert (0 <= zlen bs) by (unfold zlen; lia).
    rewrite (proj2 (Z.eqb_neq p _)) by lia. replace (p + zlen (b :: b' :: bs) - 1) with (p + 1 + zlen (b' :: bs) - 1) by lia.
    rewrite IH by (done || lia). run. by replace (a + 1 + zlen (b' :: bs)) with (a + zlen (b :: b' :: bs)) by lia.
Qed.

Lemma left_ok s size limit : start_addr s = start -> 0 <= start + size - address s < 2 ^ 64 -> left_bytes s size limit = Z.min (start + size - address s) limit.
Proof. intros Hs Hl. unfold left_bytes. by rewrite Hs, wrap_small. Qed.

Lemma write_first a r k : start <= a < start + n -> k = Z.min (start + n - a) 0x20 ->
  apple_cs42l77_transfer (idle a r) CMD_WRITE_BYTES = Done (mkAmp start a 1 k n CMD_WRITE_BYTES d r, STS_OK).
Proof.
  intros Ha Hk. unfold CS42L77_REG_SIZE in *. unfold apple_cs42l77_transfer, idle. cbn [pos Z.eqb]. change (u8 CMD_WRITE_BYTES) with CMD_WRITE_BYTES.
  unfold command, write_cmd. cbn [pos cur_cmd length_ setf Z.eqb Pos.eqb CMD_WRITE_BYTES CMD_SET_START_ADDRESS CMD_SET_LENGTH CMD_READ_WORDS CMD_READ_BYTES CMD_WRITE_WORDS]. run.
  rewrite left_ok by (done || cbn [address setf]; lia). cbn [address setf]. rewrite <- Hk. unfold at_end. cbn [pos end_pos setf].
  rewrite (proj2 (Z.eqb_neq 0 k)) by lia. cbn [andb]. run. cbn [pos end_pos setf]. by rewrite (proj2 (Z.eqb_neq 0 k)) by lia.
Qed.

Lemma write_chunk a r bs : start <= a < start + n -> zlen bs = Z.min (start + n - a) 0x20 ->
  send (idle a r) (CMD_WRITE_BYTES :: bs) = Done (idle (next (a + zlen bs)) (store_bytes r a bs), replicate (S (length bs)) STS_OK).
Proof.
  intros Ha Hl. cbn [send]. rewrite (write_first a r (zlen bs)) by lia. run.
  replace (zlen bs) with (1 + zlen bs - 1) at 1 by lia. rewrite write_rest; try lia; [done|]. intros ->. change (zlen []) with 0 in Hl. lia.
Qed.

Lemma read_step a p e r b : 2 <= p <= e -> e < 2 ^ 16 -> start <= a < start + n ->
  apple_cs42l77_transfer (mkAmp start a p e n CMD_READ_BYTES d r) b =
  Done (if p =? e then idle (next (a + 1)) r else mkAmp start (a + 1) (p + 1) e n CMD_READ_BYTES d r, default 0 (r !! a)).
Proof.
  intros Hp He Ha. unfold CS42L77_REG_SIZE in *. unfold apple_cs42l77_transfer. cbn [pos]. rewrite (proj2 (Z.eqb_neq p 0)) by lia. unfold command.
  cbn [cur_cmd length_ Z.eqb Pos.eqb CMD_WRITE_BYTES CMD_SET_START_ADDRESS CMD_SET_LENGTH CMD_READ_WORDS CMD_READ_BYTES CMD_WRITE_WORDS].
  unfold read_bytes, read_reg. cbn [pos regs address length_]. rewrite (proj2 (Z.eqb_neq p 0)), (proj2 (Z.eqb_neq p 1)) by lia. rewrite mget_ok by (unfold CS42L77_REG_SIZE; lia). run.
  unfold at_end, next, idle. cbn [pos end_pos address start_addr setf].
  assert (Ha1 : u64 (a + 1) = a + 1) by (apply wrap_small; unfold in_width; lia). assert (Hp1 : u32 (p + 1) = p + 1) by (apply wrap_small; unfold in_width; lia).
  rewrite Ha1, (wrap_small 64 (start + n)) by (unfold in_width; lia).
  destruct (Z.eqb_spec p e) as [->|]; cbn [andb]; [destruct (Z.eqb_spec (a + 1) (start + n))|]; run; cbn [pos end_pos setf].
  3: rewrite (proj2 (Z.eqb_neq p e)) by done.
  1, 2: rewrite Z.eqb_refl.
  - done.
  - by rewrite <- Ha1.
  - by rewrite <- Ha1, <- Hp1.
Qed.

Lemma read_rest k : forall a p r, (0 < k)%nat -> 2 <= p -> p + Z.of_nat k < 2 ^ 16 -> start <= a -> a + Z.of_nat k <= start + n ->
  send (mkAmp start a p (p + Z.of_nat k - 1) n CMD_READ_BYTES d r) (replicate k 0) = Done (idle (next (a + Z.of_nat k)) r, load_bytes r a k).
Proof.
  induction k as [|k IH]; intros a p r Hk Hp He Ha Hl; [lia|]. cbn [replicate send]. rewrite read_step by lia. run. unfold load_bytes in *. rewrite seqZ_head. cbn [fmap list_fmap].
  destruct k as [|k].
  - rewrite (proj2 (Z.eqb_eq p _)) by lia. done.
  - rewrite (proj2 (Z.eqb_neq p _)) by lia. replace (p + Z.of_nat (S (S k)) - 1) with (p + 1 + Z.of_nat (S k) - 1) by lia.
    rewrite IH by lia. run. by replace (a + 1 + Z.of_nat (S k)) with (a + Z.of_nat (S (S k))) by lia.
Qed.

Lemma read_first a r k : start <= a < start + n -> k = Z.min (start + n - a) 0x20 ->
  apple_cs42l77_transfer (idle a r) CMD_READ_BYTES = Done (mkAmp start a 1 (1 + k) n CMD_READ_BYTES d r, STS_OK) /\
  apple_cs42l77_transfer (mkAmp start a 1 (1 + k) n CMD_READ_BYTES d r) 0 = Done (mkAmp start a 2 (1 + k) n CMD_READ_BYTES d r, STS_OK).
Proof.
  intros Ha Hk. unfold CS42L77_REG_SIZE in *. unfold apple_cs42l77_transfer, idle, command, read_bytes. cbn [pos Z.eqb Pos.eqb]. change (u8 CMD_READ_BYTES) with CMD_READ_BYTES.
  cbn [pos cur_cmd length_ setf Z.eqb Pos.eqb CMD_WRITE_BYTES CMD_SET_START_ADDRESS CMD_SET_LENGTH CMD_READ_WORDS CMD_READ_BYTES CMD_WRITE_WORDS]. run.
  rewrite left_ok by (done || cbn [address setf]; lia). cbn [address setf]. rewrite <- Hk. unfold at_end. cbn [pos end_pos setf].
  rewrite (proj2 (Z.eqb_neq 0 (1 + k))), (proj2 (Z.eqb_neq 1 (1 + k))) by lia. cbn [andb]. run. cbn [pos end_pos setf].
  by rewrite (proj2 (Z.eqb_neq 0 (1 + k))), (proj2 (Z.eqb_neq 1 (1 + k))) by lia.
Qed.

Lemma read_chunk a r k : start <= a < start + n -> Z.of_nat k = Z.min (start + n - a) 0x20 ->
  send (idle a r) (CMD_READ_BYTES :: 0 :: replicate k 0) = Done (idle (next (a + Z.of_nat k)) r, STS_OK :: STS_OK :: load_bytes r a k).
Proof.
  intros Ha Hk. destruct (read_first a r (Z.of_nat k) Ha Hk) as [E1 E2]. cbn [send]. rewrite E1. run. rewrite E2. run.
  replace (1 + Z.of_nat k) with (2 + Z.of_nat k - 1) by lia. by rewrite read_rest by lia.
Qed.

(** ** Transfers of any length *)

Fixpoint chunks (fuel : nat) (l : bytes) : list bytes :=
  match fuel, l with
  | S fuel, _ :: _ => take 0x20 l :: chunks fuel (drop 0x20 l)
  | _, _ => []
  end.

Fixpoint write_chunks (s : AppleCS42L77State) (cs : list bytes) : outcome AppleCS42L77State :=
  match cs with [] => mret s | c :: cs => '(s, _) ← send s (CMD_WRITE_BYTES :: c); write_chunks s cs end.

Fixpoint read_chunks (s : AppleCS42L77State) (cs : list bytes) : outcome (AppleCS42L77State * bytes) :=
  match cs with
  | [] => mret (s, [])
  | c :: cs =>
      '(s, rs) ← send s (CMD_READ_BYTES :: 0 :: replicate (length c) 0);
      '(s, out) ← read_chunks s cs;
      mret (s, drop 2 rs ++ out)
  end.

Lemma chunk_size a (l : bytes) : l <> [] -> a + zlen l = start + n -> a < start + n /\ zlen (take 0x20 l) = Z.min (start + n - a) 0x20.
Proof. intros Hne Hl. assert (0 < zlen l) by (destruct l; [done|unfold zlen; cbn [length]; lia]). unfold zlen in *. rewrite length_take. lia. Qed.

Lemma next_small a : a < start + n -> next a = a.
Proof. intros Ha. unfold next. by rewrite (proj2 (Z.eqb_neq _ _)) by lia. Qed.

Lemma next_at_end : next (start + n) = start.
Proof. unfold next. by rewrite Z.eqb_refl. Qed.

Lemma write_chunks_ok fuel : forall l a r, (length l <= fuel)%nat -> start <= a -> a + zlen l = start + n ->
  write_chunks (idle (next a) r) (chunks fuel l) = Done (idle start (store_bytes r a l)).
Proof.
  induction fuel as [|fuel IH]; intros [|b l] a r Hf Ha Hl; cbn [chunks write_chunks length] in *; try lia.
  1, 2: change (zlen []) with 0 in Hl; replace a with (start + n) by lia; by rewrite next_at_end.
  set (x := b :: l) in *. destruct (chunk_size a x ltac:(done) Hl) as [Ha' Hc]. rewrite next_small, write_chunk by lia. run.
  rewrite IH.
  - by rewrite <- store_bytes_app, take_drop.
  - unfold x. rewrite length_drop. cbn [length]. lia.
  - unfold zlen. lia.
  - unfold zlen in *. rewrite length_drop, length_take in *. lia.
Qed.

Lemma read_chunks_ok fuel : forall l a r, (length l <= fuel)%nat -> start <= a -> a + zlen l = start + n ->
  read_chunks (idle (next a) r) (chunks fuel l) = Done (idle start r, load_bytes r a (length l)).
Proof.
  induction fuel as [|fuel IH]; intros [|b l] a r Hf Ha Hl; cbn [chunks read_chunks length] in *; try lia.
  1, 2: change (zlen []) with 0 in Hl; replace a with (start + n) by lia; by rewrite next_at_end.
  set (x := b :: l) in *. destruct (chunk_size a x ltac:(done) Hl) as [Ha' Hc]. rewrite next_small, read_chunk by (unfold zlen in Hc; lia). run.
  rewrite IH.
  - run. cbn [skipn]. rewrite drop_0, <- load_app. do 3 f_equal. change (S (length l)) with (length x). rewrite length_take, length_drop. lia.
  - unfold x. rewrite length_drop. cbn [length]. lia.
  - lia.
  - unfold zlen in *. rewrite length_drop, length_take in *. lia.
Qed.

End Transfer.

(** The start and the length arrive a byte at a time. *)
Lemma start_bytes a : in_width 24 a ->
  deposit64 (deposit64 (deposit64 0 0 8 (a .& 0xff)) 8 8 ((a .>> 8) .& 0xff)) 16 8 ((a .>> 16) .& 0xff) = a.
Proof.
  intros Ha. change 0xff with (Z.ones 8). apply Z.bits_inj'. intros i Hi. rewrite !testbit_deposit64 by done. rewrite Z.bits_0.
  assert (0 <= i < 8 \/ 8 <= i < 16 \/ 16 <= i < 24 \/ 24 <= i) as [?|[?|[?|?]]] by lia; do 2 (autorewrite with cbits; eval_cmp; simpl).
  4: symmetry; by apply (testbit_high 24).
  all: rewrite ?andb_true_r; f_equal; lia.
Qed.

Lemma length_bytes n : in_width 16 n -> u16 (u16 (0 .| (u16 (n .& 0xff) .<< 0)) .| (u16 ((n .>> 8) .& 0xff) .<< 8)) = n.
Proof.
  intros Hn. change 0xff with (Z.ones 8). apply Z.bits_inj'. intros i Hi.
  assert (0 <= i < 8 \/ 8 <= i < 16 \/ 16 <= i) as [?|[?|?]] by lia; do 3 (autorewrite with cbits; eval_cmp; simpl).
  3: symmetry; by apply (testbit_high 16).
  all: rewrite ?andb_true_r, ?andb_false_r, ?orb_false_r, ?orb_false_l; f_equal; lia.
Qed.

Section SetUp.
Context (d : bool) (r : gmap Z Z).

Lemma start_bytes_sent st ad e l c b0 b1 b2 :
  send (mkAmp st ad 0 e l c d r) [CMD_SET_START_ADDRESS; b0; b1; b2] =
  let a := deposit64 (deposit64 (deposit64 0 0 8 b0) 8 8 b1) 16 8 b2 in Done (mkAmp a a 0 0 l 0 d r, replicate 4 0).
Proof.
  assert (E0 : apple_cs42l77_transfer (mkAmp st ad 0 e l c d r) CMD_SET_START_ADDRESS = Done (mkAmp 0 0 1 3 l CMD_SET_START_ADDRESS d r, 0)) by reflexivity.
  assert (E1 : forall a b, apple_cs42l77_transfer (mkAmp a 0 1 3 l CMD_SET_START_ADDRESS d r) b = Done (mkAmp (deposit64 a 0 8 b) 0 2 3 l CMD_SET_START_ADDRESS d r, 0)) by reflexivity.
  assert (E2 : forall a b, apple_cs42l77_transfer (mkAmp a 0 2 3 l CMD_SET_START_ADDRESS d r) b = Done (mkAmp (deposit64 a 8 8 b) 0 3 3 l CMD_SET_START_ADDRESS d r, 0)) by reflexivity.
  assert (E3 : forall a b, apple_cs42l77_transfer (mkAmp a 0 3 3 l CMD_SET_START_ADDRESS d r) b = Done (mkAmp (deposit64 a 16 8 b) (deposit64 a 16 8 b) 0 0 l 0 d r, 0)) by reflexivity.
  cbn [send]. rewrite E0. run. rewrite E1. run. rewrite E2. run. rewrite E3. run. done.
Qed.

Lemma length_bytes_sent st ad e l c n0 n1 :
  send (mkAmp st ad 0 e l c d r) [CMD_SET_LENGTH; n0; n1] = Done (mkAmp st ad 0 0 (u16 (u16 (0 .| (u16 n0 .<< 0)) .| (u16 n1 .<< 8))) 0 d r, replicate 3 0).
Proof.
  assert (E0 : apple_cs42l77_transfer (mkAmp st ad 0 e l c d r) CMD_SET_LENGTH = Done (mkAmp st ad 1 2 0 CMD_SET_LENGTH d r, 0)) by reflexivity.
  assert (E1 : forall n b, apple_cs42l77_transfer (mkAmp st ad 1 2 n CMD_SET_LENGTH d r) b = Done (mkAmp st ad 2 2 (u16 (n .| (u16 b .<< 0))) CMD_SET_LENGTH d r, 0)) by reflexivity.
  assert (E2 : forall n b, apple_cs42l77_transfer (mkAmp st ad 2 2 n CMD_SET_LENGTH d r) b = Done (mkAmp st ad 0 0 (u16 (n .| (u16 b .<< 8))) 0 d r, 0)) by reflexivity.
  cbn [send]. rewrite E0. run. rewrite E1. run. rewrite E2. run. done.
Qed.

End SetUp.

Lemma send_app x : forall s y, send s (x ++ y) = ('(s1, r1) ← send s x; '(s2, r2) ← send s1 y; mret (s2, r1 ++ r2)).
Proof.
  induction x as [|b x IH]; intros s y; cbn [send app].
  - run. by destruct (send s y) as [[]| | |].
  - destruct (apple_cs42l77_transfer s b) as [[s1 r1]| | |]; try done. run. rewrite IH. destruct (send s1 x) as [[s2 r2]| | |]; try done. run.
    by destruct (send s2 y) as [[]| | |].
Qed.

Lemma set_up s a n : pos s = 0 -> in_width 24 a -> in_width 16 n ->
  send s ((CMD_SET_START_ADDRESS :: le_split 3 a) ++ CMD_SET_LENGTH :: le_split 2 n) = Done (idle a n (data_ready s) a (regs s), replicate 7 0).
Proof.
  intros Hp Ha Hn. destruct s as [st ad p e l c d r]. cbn [pos] in Hp. subst p. rewrite send_app. cbn [le_split]. rewrite Z.shiftr_shiftr by lia. change (8 + 8) with 16.
  rewrite start_bytes_sent. cbv zeta. run. rewrite length_bytes_sent. run. by rewrite start_bytes, length_bytes.
Qed.

(** What the driver stores in the amplifier it reads back.  From any state between
    two commands, a driver that sets the start and the length and writes [bs] in
    commands of at most 32 bytes stores [bs] in the registers there and nothing else,
    and reads that follow, in commands of the same size, return [bs]; this for every
    length the device takes, as the address goes back to the start at the end. *)
Theorem amp_roundtrip s a bs : pos s = 0 -> 0 <= a -> 0 < zlen bs < 2 ^ 16 -> a + zlen bs <= CS42L77_REG_SIZE -> Forall (in_width 8) bs ->
  exists s0 rs s1 s2, send s ((CMD_SET_START_ADDRESS :: le_split 3 a) ++ CMD_SET_LENGTH :: le_split 2 (zlen bs)) = Done (s0, rs) /\
    write_chunks s0 (chunks (length bs) bs) = Done s1 /\ regs s1 = store_bytes (regs s) a bs /\
    read_chunks s1 (chunks (length bs) bs) = Done (s2, bs) /\ regs s2 = regs s1 /\ pos s2 = 0.
Proof.
  intros Hp Ha Hl Hsize Hb. unfold CS42L77_REG_SIZE in Hsize. assert (Hw : in_width 24 a /\ in_width 16 (zlen bs)) by (unfold in_width; lia). destruct Hw as [Hw1 Hw2].
  assert (Hnext : next a (zlen bs) a = a) by (apply next_small; lia).
  pose proof (write_chunks_ok a (zlen bs) (data_ready s) Ha ltac:(lia) Hsize (length bs) bs a (regs s) ltac:(lia) ltac:(lia) ltac:(lia)) as Hwr.
  pose proof (read_chunks_ok a (zlen bs) (data_ready s) Ha ltac:(lia) Hsize (length bs) bs a (store_bytes (regs s) a bs) ltac:(lia) ltac:(lia) ltac:(lia)) as Hrd.
  rewrite Hnext in Hwr, Hrd. rewrite reg_load_store in Hrd by done. eexists _, _, _, _. split; [by apply set_up|]. split; [exact Hwr|]. split; [done|]. split; [exact Hrd|done].
Qed.

Lemma amp_roundtrip_witness : exists s0 rs s1 s2, send apple_cs42l77_reset ((CMD_SET_START_ADDRESS :: le_split 3 0x40048) ++ CMD_SET_LENGTH :: le_split 2 40) = Done (s0, rs) /\
  write_chunks s0 (chunks 40 (seqZ 1 40)) = Done s1 /\ read_chunks s1 (chunks 40 (seqZ 1 40)) = Done (s2, seqZ 1 40).
Proof.
  destruct (amp_roundtrip apple_cs42l77_reset 0x40048 (seqZ 1 40)) as (s0 & rs & s1 & s2 & E0 & E1 & _ & E2 & _).
  - reflexivity.
  - lia.
  - vm_compute. by split.
  - vm_compute. discriminate.
  - apply (bool_decide_unpack _). vm_compute. exact I.
  - exists s0, rs, s1, s2. split; [exact E0|]. split; [exact E1|exact E2].
Defined.

(** The driver can move the address past the registers: a start at the last one and a
    length of two end in a store behind the array. *)
Lemma amp_writes_past : (s ← send apple_cs42l77_reset ((CMD_SET_START_ADDRESS :: le_split 3 0xFFFFFF) ++ CMD_SET_LENGTH :: le_split 2 2); send s.1 [CMD_WRITE_BYTES; 1; 2]) = Oob.
Proof. vm_compute. reflexivity. Qed.
