(* ===== verification/SpiSio.v ===== *)
(** * SPI transfers through the DMA controller

    The DMA controller of [hw/dma/apple_sio.c] keeps what [hw/ssi/apple_spi.c] relies
    on, so a transfer of the SPI controller moves guest memory to the peripherals and
    their answers back. *)

From S2P Require Import Prelude CString Dt Fifo8 Cs42l77 Sio Spi.

Section SpiSio.
Context `{DmaMemory}.
Hypothesis dma_map_progress : forall dir base len, 0 < len -> 0 < dma_memory_map dir base len <= len.

#[global] Instance sio_engine : DmaEngine AppleSIOState := {|
  dma_remaining := apple_sio_dma_remaining;
  dma_read := apple_sio_dma_read;
  dma_write := apple_sio_dma_write;
|}.

(** The channels [tx] and [rx]; the memory [dst] that is written and the memory [resp]
    of the timestamps are apart. *)
Context (tx rx : Z) (dst resp : list Z).
Hypothesis Hchan : Z.to_nat tx <> Z.to_nat rx.
Hypothesis Hdst : NoDup dst.
Hypothesis Hlen : zlen dst < 2 ^ 64.
Hypothesis Hresp : forall a, In a dst -> ~ In a resp.

Definition stamps_in (d : AppleSIOState) (ep : AppleSIODMAEndpoint) : Prop := forall b, In b (buffers ep) -> incl (resp_addrs d ep b) resp.

(** The bytes [src] are left in the memory of the channel [tx], [out] is in the first
    part of [dst], and the rest of [dst] is left of the channel [rx]. *)
Record linked (d : AppleSIOState) (src : bytes) (room : Z) (out : bytes) : Prop := {
  l_tx : exists ep, eps d !! Z.to_nat tx = Some ep /\ direction ep = DMA_DIRECTION_TO_DEVICE /\ Forall buffer_ok (buffers ep) /\
    src = memory d <$> todo (buffers ep) /\ zlen src < 2 ^ 64 /\ stamps_in d ep /\ forall a, In a (todo (buffers ep)) -> ~ In a resp /\ ~ In a dst;
  l_rx : exists ep, eps d !! Z.to_nat rx = Some ep /\ direction ep = DMA_DIRECTION_FROM_DEVICE /\ Forall buffer_ok (buffers ep) /\
    room = zlen (todo (buffers ep)) /\ todo (buffers ep) = drop (length out) dst /\ stamps_in d ep;
  l_out : memory d <$> take (length out) dst = out;
}.

Lemma stamps_kept d d' ep l : stamps_in d ep -> resp_base d' = resp_base d -> incl (tag <$> l) (tag <$> buffers ep) -> stamps_in d' (with_queue ep l).
Proof.
  intros Hs Hb Hi b Hin. assert (Ht : In (tag b) (tag <$> buffers ep)) by (apply Hi; by apply in_map).
  apply in_map_iff in Ht as (b0 & Et & Hin0). intros a Ha. apply (Hs b0 Hin0). unfold resp_addrs in *. by rewrite Et, <- Hb.
Qed.

Lemma stamps_same d d' ep : stamps_in d ep -> resp_base d' = resp_base d -> stamps_in d' ep.
Proof. intros Hs Hb b Hin a Ha. apply (Hs b Hin). unfold resp_addrs in *. by rewrite <- Hb. Qed.

Lemma memory_ext (m m' : Z -> Z) l : (forall a, In a l -> m a = m' a) -> m <$> l = m' <$> l.
Proof. intros Hm. apply list_fmap_ext. intros i a Ha. apply Hm, list_elem_of_In. by eapply list_elem_of_lookup_2. Qed.

Lemma In_drop (a : Z) k l : In a (drop k l) -> In a l.
Proof. intros Ha. rewrite <- (take_drop k l). apply in_or_app. by right. Qed.

Lemma In_take (a : Z) k l : In a (take k l) -> In a l.
Proof. intros Ha. rewrite <- (take_drop k l). apply in_or_app. by left. Qed.

Lemma linked_read d src room out n : linked d src room out -> 0 <= n ->
  exists d', apple_sio_dma_read d tx n = Done (d', take (Z.to_nat n) src) /\ linked d' (drop (Z.to_nat n) src) room out.
Proof.
  intros [(ep & He & Hd & Hok & -> & Hl & Hs & Ha) (ep2 & He2 & Hd2 & Hok2 & Hroom & Ht2 & Hs2) Ho] Hn.
  destruct (dma_read_ok dma_map_progress d tx ep n He Hd Hok) as (d' & l' & E & Heps & Ht & Hok' & _ & Hm & Hb & Hi); [|done|].
  { intros b a Hb Hin Htd. destruct (Ha a Htd) as [Hnr _]. by apply Hnr, (Hs b Hb). }
  assert (Hm' : forall a, ~ In a resp -> memory d' a = memory d a) by (intros a Hna; apply Hm; intros b Hin Hin2; by apply Hna, (Hs b)).
  rewrite fmap_take in E. exists d'. split; [done|]. split.
  - exists (with_queue ep l'). rewrite Heps, list_lookup_insert_eq by (by eapply lookup_lt_Some). split_and!; try done.
    + cbn [buffers with_queue setf]. rewrite Ht, <- fmap_drop. apply memory_ext. intros a Hin%In_drop. symmetry. apply Hm'. by apply Ha.
    + unfold zlen in *. rewrite length_drop. lia.
    + by eapply stamps_kept.
    + intros a Hin. cbn [buffers with_queue setf] in Hin. rewrite Ht in Hin. apply Ha. by eapply In_drop.
  - exists ep2. rewrite Heps, list_lookup_insert_ne by done. split_and!; try done. by eapply stamps_same.
  - rewrite <- Ho at 2. apply memory_ext. intros a Hin%In_take. apply Hm'. by apply Hresp.
Qed.

(** What is written is there, if no address occurs twice. *)
Lemma write_mem_read l : forall m bs, NoDup l -> length l = length bs -> write_mem m l bs <$> l = bs.
Proof.
  induction l as [|a l IH]; intros m [|b bs] Hnd Hl; cbn [length] in Hl; try lia; [done|]. apply NoDup_cons in Hnd as [Hna Hnd]. cbn [write_mem fmap list_fmap]. f_equal.
  - rewrite write_mem_other by (by rewrite <- list_elem_of_In). by rewrite Z.eqb_refl.
  - by apply IH; [|lia].
Qed.

Lemma linked_write d src room out bs : linked d src room out -> zlen bs <= room ->
  exists d', apple_sio_dma_write d rx bs = Done (d', zlen bs) /\ linked d' src (room - zlen bs) (out ++ bs).
Proof.
  intros [(ep & He & Hd & Hok & Hsrc & Hl & Hs & Ha) (ep2 & He2 & Hd2 & Hok2 & -> & Ht2 & Hs2) Ho] Hn.
  destruct (dma_write_ok dma_map_progress d rx ep2 bs He2 Hd2 Hok2) as (d' & l' & E & Heps & Ht & Hok' & _ & Hm & Hb & Hi).
  rewrite Z.min_l in E by done. set (at_ := take (length bs) (todo (buffers ep2))) in *.
  assert (Hm' : forall a, ~ In a resp -> memory d' a = write_mem (memory d) at_ bs a) by (intros a Hna; apply Hm; intros b Hin Hin2; by apply Hna, (Hs2 b)).
  assert (Hat : at_ = take (length bs) (drop (length out) dst)) by (unfold at_; by rewrite Ht2).
  assert (Hin_at : forall a, In a at_ -> In a dst) by (intros a; rewrite Hat; intros Hin%In_take%In_drop; done).
  assert (Hlen_at : length at_ = length bs) by (unfold at_, zlen in *; rewrite length_take; lia).
  exists d'. split; [done|]. split.
  - exists ep. rewrite Heps, list_lookup_insert_ne by done. split_and!; try done; [|by eapply stamps_same].
    rewrite Hsrc. apply memory_ext. intros a [Hnr Hnd]%Ha. rewrite Hm' by done. symmetry. apply write_mem_other. intros ?%Hin_at. done.
  - exists (with_queue ep2 l'). rewrite Heps, list_lookup_insert_eq by (by eapply lookup_lt_Some). cbn [buffers with_queue setf]. rewrite Ht, length_app. split_and!; try done.
    + unfold zlen in *. rewrite length_drop. lia.
    + by rewrite Ht2, drop_drop.
    + by eapply stamps_kept.
  - rewrite length_app, <- take_take_drop, fmap_app, <- Hat. f_equal.
    + rewrite <- Ho at 2. apply memory_ext. intros a Hin. rewrite Hm' by (by eapply Hresp, In_take). apply write_mem_other. rewrite Hat. intros Hin2%In_take.
      rewrite <- (take_drop (length out) dst) in Hdst. apply NoDup_app in Hdst as (_ & Hd3 & _). by apply (Hd3 a); apply list_elem_of_In.
    + rewrite (memory_ext _ (write_mem (memory d) at_ bs)) by (intros a Hin; by apply Hm', Hresp, Hin_at). apply write_mem_read; [|done].
      rewrite Hat. rewrite <- (take_drop (length out) dst), <- (take_drop (length bs) (drop (length out) dst)) in Hdst.
      by apply NoDup_app in Hdst as (_ & _ & (? & _)%NoDup_app).
Qed.

#[global] Instance sio_streams : DmaStreams linked tx rx.
Proof.
  split.
  - intros d src room out [(ep & He & _ & Hok & -> & Hl & _) _ _]. cbn. unfold apple_sio_dma_remaining. rewrite He.
    assert (Hz : zlen (memory d <$> todo (buffers ep)) = zlen (todo (buffers ep))) by (unfold zlen; by rewrite length_fmap). rewrite Hz in *. by rewrite remaining_spec.
  - intros d src room out [_ (ep & He & _ & Hok & -> & Ht & _) _]. cbn. unfold apple_sio_dma_remaining. rewrite He. rewrite remaining_spec; [done|done|].
    rewrite Ht. unfold zlen in *. rewrite length_drop. lia.
  - apply linked_read.
  - apply linked_write.
Qed.

(** C6: A transfer of the SPI controller by DMA is an exchange between guest memory and
    the peripherals.  When the guest starts a transfer of the words [ws], whatever
    their number and size, with buffers for the words and for the first [nr] answers
    that are apart from each other and from the timestamps, the run ends and says it
    is complete; the peripherals got the words in order, each once, the bytes of the
    answers are in memory where the guest asked for them, the queues of the controller
    are empty, and what is left of both channels is what comes behind. *)
Theorem spi_dma_transfer {P} `{SSIPeripheralClass P} heap (s : AppleSPIState P AppleSIOState) cfg ctrl w ws rest nr bus' rs :
  REG_CFG_MODE cfg = REG_CFG_MODE_DMA -> word_size cfg = Done w -> ready tx rx cfg ctrl s (zlen ws) nr -> dma_capable s = true ->
  nonzero (ctrl .& REG_CTRL_RUN) = true -> ws <> [] -> Forall (in_width (8 * w)) ws -> w * zlen ws < 2 ^ 32 -> 0 <= nr <= zlen ws -> w * nr <= zlen dst ->
  linked (sio s) (wsplit w ws ++ rest) (zlen dst) [] -> exchange w (ssi_bus s) ws = Done (bus', rs) ->
  exists s', apple_spi_run heap s = Done s' /\ ssi_bus s' = bus' /\ Z.testbit (REG s' REG_STATUS) 22 = true /\ ready tx rx cfg ctrl s' 0 0 /\
    memory (sio s') <$> take (Z.to_nat (w * nr)) dst = wsplit w (take (Z.to_nat nr) rs) /\
    linked (sio s') rest (zlen dst - w * nr) (wsplit w (take (Z.to_nat nr) rs)).
Proof.
  intros Hmode Hsize Hr Hcap Hrun Hne Hws Hlen32 Hnr Hroom Hlink Hex.
  destruct (run_dma heap linked tx rx cfg ctrl w Hmode Hsize s ws rest (zlen dst) [] nr bus' rs Hr Hlink Hcap Hrun Hne Hws Hlen32 Hnr Hroom Hex)
    as (s' & E & Hr' & Hl' & Hb & Hc). cbn [app] in Hl'. exists s'. split_and!; try done.
  etransitivity; [|exact (l_out _ _ _ _ Hl')]. do 2 f_equal. pose proof (size_range cfg w Hsize) as Hw.
  pose proof (length_wsplit w (take (Z.to_nat nr) rs) ltac:(lia)) as Hl. pose proof (exchange_length w ws _ _ _ Hex) as Hrs.
  unfold zlen in *. rewrite length_take in Hl. nia.
Qed.

End SpiSio.

(** ** An exchange with the amplifier *)

Section Example.

#[local] Instance flat : DmaMemory := {| dma_valid := fun _ _ => true; dma_memory_map := fun _ _ len => len |}.

Definition example_sio : AppleSIOState :=
  mkSIO [mkEndpoint [] DMA_DIRECTION_TO_DEVICE 0 [mkSIOBuffer [(0x1000, 16); (0x1800, 24)] [] 1 false 0 0];
         mkEndpoint [] DMA_DIRECTION_FROM_DEVICE 1 [mkSIOBuffer [(0x2000, 40)] [] 1 false 0 0]] 9 0 0 0x8000 24000000
    (fun a => if Z.even a then 0x90 else 0) 0 [].
Definition example_dst : list Z := seqZ 0x2000 40.
Definition example_resp : list Z := seqZ 0x8000 16 ++ seqZ 0x8200 16.

(** 40 times the status command, with DMA and words of 8 bits. *)
Definition example_spi : AppleSPIState AppleCS42L77State AppleSIOState :=
  let s := apple_spi_instance_init [mkPeripheral apple_cs42l77_reset false] example_sio <| dma_capable := true |> <| tx_chan := Some 0 |> <| rx_chan := Some 1 |> in
  let s := set_REG s REG_CFG 0x40 in
  let s := set_REG s REG_CTRL 1 in
  let s := set_REG s REG_TXCNT 40 in
  set_REG s REG_RXCNT 40.

Definition example_words : list Z := concat (replicate 20 [0x90; 0]).

Lemma example_linked : linked 0 1 example_dst example_resp example_sio (wsplit 1 example_words ++ []) (zlen example_dst) [].
Proof.
  split.
  - eexists. split; [reflexivity|]. split; [reflexivity|]. split; [repeat constructor; try discriminate; cbn; lia|]. split; [vm_compute; reflexivity|]. split; [vm_compute; reflexivity|].
    split; [intros b [<-|[]]; intros a Ha; vm_compute in Ha |- *; tauto|]. intros a Ha. vm_compute in Ha. split; intros Hb; vm_compute in Hb; intuition congruence.
  - eexists. split; [reflexivity|]. split; [reflexivity|]. split; [repeat constructor; try discriminate; cbn; lia|]. split; [vm_compute; reflexivity|]. split; [vm_compute; reflexivity|].
    intros b [<-|[]]; intros a Ha; vm_compute in Ha |- *; tauto.
  - reflexivity.
Qed.

Lemma spi_ready : ready 0 1 0x40 1 example_spi 40 40.
Proof.
  assert (He : forall f, f = fifo32_create REG_FIFO_DEPTH -> holds f []).
  { intros f ->. split; [by apply (fifo8_create_wf 64)|reflexivity|reflexivity|by constructor]. }
  split; [split; vm_compute; reflexivity|by apply He|by apply He|reflexivity|reflexivity].
Qed.

Lemma flat_progress dir base len : 0 < len -> 0 < dma_memory_map dir base len <= len.
Proof. cbn. lia. Qed.

Lemma spi_dma_transfer_witness : exists s', apple_spi_run (fun _ => 0) example_spi = Done s' /\
  memory (sio s') <$> take (Z.to_nat (1 * 40)) example_dst = wsplit 1 (concat (replicate 20 [0x50; 0x98])).
Proof.
  pose proof (fun H1 H2 H3 H4 => spi_dma_transfer flat_progress 0 1 example_dst example_resp H1 H2 H3 H4 (fun _ => 0) example_spi 0x40 1 1 example_words [] 40
    [mkPeripheral apple_cs42l77_reset false] (concat (replicate 20 [0x50; 0x98]))) as T.
  destruct T as (s' & E & _ & _ & _ & Hm & _).
  - discriminate.
  - apply (bool_decide_unpack _). vm_compute. exact I.
  - reflexivity.
  - intros a Ha Hb. vm_compute in Ha, Hb. intuition congruence.
  - reflexivity.
  - reflexivity.
  - exact spi_ready.
  - reflexivity.
  - reflexivity.
  - discriminate.
  - apply (bool_decide_unpack _). vm_compute. exact I.
  - reflexivity.
  - vm_compute. split; discriminate.
  - vm_compute. discriminate.
  - exact example_linked.
  - vm_compute. reflexivity.
  - exists s'. split; [exact E|exact Hm].
Defined.

(** Two words of a driver. *)
Lemma pio_exchange_witness : exists s1 s2 bus', write_all (fun _ => 0) (set_REG (set_REG (set_REG example_spi REG_CFG 0x20) REG_TXCNT 2) REG_RXCNT 2) [0x190; 0] = Done s1 /\
  read_all (fun _ => 0) s1 2 = Done (s2, [0x50; 0x98]) /\ ssi_bus s2 = bus'.
Proof.
  pose proof (fun H1 H2 H3 H4 => pio_exchange (fun _ => 0) 0x20 1 1 H1 H2 H3 H4 (set_REG (set_REG (set_REG example_spi REG_CFG 0x20) REG_TXCNT 2) REG_RXCNT 2)
    [0x190; 0] [mkPeripheral apple_cs42l77_reset false] [0x50; 0x98]) as T.
  destruct T as (s1 & s2 & E1 & _ & _ & E2 & _ & Hb).
  - reflexivity.
  - reflexivity.
  - reflexivity.
  - reflexivity.
  - split; [split; vm_compute; reflexivity|apply spi_ready|apply spi_ready].
  - vm_compute. by split.
  - vm_compute. reflexivity.
  - exists s1, s2. eexists. split; [exact E1|]. split; [exact E2|exact Hb].
Defined.

(** A transfer that only receives stops when the queue is full, so that one of more
    than 16 words never completes. *)
Lemma receive_stops : (s ← apple_spi_run (fun _ => 0) (set_REG (set_REG (set_REG example_spi REG_CFG 0x41) REG_TXCNT 0) REG_RXCNT 40);
  mret (REG s REG_RXCNT, Z.testbit (REG s REG_STATUS) 22)) = Done (24, false).
Proof. vm_compute. reflexivity. Qed.

End Example.

(** ** Where the controller does not do what it means to *)

(** A driver that selects the fourth word size ends the machine. *)
Lemma word_size_aborts {P D} `{SSIPeripheralClass P} `{DmaEngine D} heap (s : AppleSPIState P D) :
  REG_CFG_WORD_SIZE (REG s REG_CFG) = 3 -> apple_spi_run heap s = Abort.
Proof. intros E. unfold apple_spi_run, apple_spi_word_size, word_size. by rewrite E. Qed.
