(* ===== verification/Cipher.v ===== *)
(** * Ciphers

    Model of [crypto/cipher.c] and [crypto/cipher-nettle.c.inc]: the checks on algorithm,
    mode and key, the drivers of the modes and their vectors.  The primitives of the
    Nettle library are the interface [Nettle]; [CONFIG_AF_ALG] is off. *)

From S2P Require Import Prelude CString.

(** The enumerations of [qapi/crypto.json]. *)
Definition ALGO_AES_128 : Z := 0.
Definition ALGO_AES_192 : Z := 1.
Definition ALGO_AES_256 : Z := 2.
Definition ALGO_DES : Z := 3.
Definition ALGO_3DES : Z := 4.
Definition ALGO_CAST5_128 : Z := 5.
Definition ALGO_SM4 : Z := 12.
Definition QCRYPTO_CIPHER_ALGO__MAX : Z := 13.
Definition MODE_ECB : Z := 0.
Definition MODE_CBC : Z := 1.
Definition MODE_XTS : Z := 2.
Definition MODE_CTR : Z := 3.
Definition QCRYPTO_CIPHER_MODE__MAX : Z := 4.

(** A function on whole blocks. *)
Abbreviation block_fn := (bytes -> bytes).

(** [native a d k] is the block cipher [a] with the key [k], forward when [d]; the modes
    take block functions and give the vector after them with the text. *)
Class Nettle := {
  CONFIG_CRYPTO_SM4 : bool;
  native : Z -> bool -> bytes -> block_fn;
  cbc_encrypt : block_fn -> Z -> bytes -> bytes -> bytes * bytes;
  cbc_decrypt : block_fn -> Z -> bytes -> bytes -> bytes * bytes;
  ctr_crypt : block_fn -> Z -> bytes -> bytes -> bytes * bytes;
  xts_encrypt_message : block_fn -> block_fn -> bytes -> bytes -> bytes;
  xts_decrypt_message : block_fn -> block_fn -> bytes -> bytes -> bytes;
}.

Lemma land_byte x : in_width 8 (x .& 0xff).
Proof. pose proof (Z.land_ones x 8 ltac:(lia)) as E. change (Z.ones 8) with 0xff in E. rewrite E. by apply Z.mod_pos_bound. Qed.

(** An [Error **] to a local variable: whether it has an error.  A second one is an
    assertion that fails. *)
Definition error_setg (errp : bool) : outcome bool := if errp then Abort else Done true.

Section Cipher.
Context `{Nettle}.

Definition alg_key_len : list Z :=
  [16; 24; 32; 8; 24; 16; 16; 24; 32; 16; 24; 32; if CONFIG_CRYPTO_SM4 then 16 else 0].

Definition alg_block_len : list Z :=
  [16; 16; 16; 8; 8; 8; 16; 16; 16; 16; 16; 16; if CONFIG_CRYPTO_SM4 then 16 else 0].

Definition mode_need_iv : list bool := [false; true; true; true].

Definition qcrypto_cipher_get_block_len (alg : Z) : outcome Z :=
  c_assert (alg <? zlen alg_key_len);; aget alg_block_len alg.

Definition qcrypto_cipher_get_key_len (alg : Z) : outcome Z :=
  c_assert (alg <? zlen alg_key_len);; aget alg_key_len alg.

Definition qcrypto_cipher_get_iv_len (alg mode : Z) : outcome Z :=
  if zlen alg_block_len <=? alg then Done 0
  else if zlen mode_need_iv <=? mode then Done 0
  else
    need ← aget mode_need_iv mode;
    if need : bool then aget alg_block_len alg else Done 0.

Definition key_len_of (alg : Z) : Z := nth (Z.to_nat alg) alg_key_len 0.
Definition block_len_of (alg : Z) : Z := nth (Z.to_nat alg) alg_block_len 0.

Definition qcrypto_cipher_validate_key_length (alg mode nkey : Z) : bool :=
  if QCRYPTO_CIPHER_ALGO__MAX <=? alg then false
  else if mode =? MODE_XTS then
    if (alg =? ALGO_DES) || (alg =? ALGO_3DES) then false
    else if nonzero (nkey mod 2) then false
    else key_len_of alg =? nkey / 2
  else key_len_of alg =? nkey.

Inductive driver := driver_ecb | driver_cbc | driver_ctr | driver_xts.

Record QCryptoCipher := mkCipher {
  alg : Z;
  mode : Z;
  drv : driver;
  ctx_key : bytes;
  ctx_key_xts : bytes;
  ctx_iv : bytes;
}.
#[global] Instance eta_QCryptoCipher : Eta QCryptoCipher := fun c =>
  mkCipher (alg c) (mode c) (drv c) (ctx_key c) (ctx_key_xts c) (ctx_iv c).

(** The driver an algorithm has for a mode. *)
Definition driver_of (alg mode : Z) : option driver :=
  if alg =? ALGO_SM4 then if CONFIG_CRYPTO_SM4 && (mode =? MODE_ECB) then Some driver_ecb else None
  else if mode =? MODE_ECB then Some driver_ecb
  else if mode =? MODE_CBC then Some driver_cbc
  else if mode =? MODE_CTR then Some driver_ctr
  else if mode =? MODE_XTS then
    if (alg =? ALGO_DES) || (alg =? ALGO_3DES) || (alg =? ALGO_CAST5_128) then None else Some driver_xts
  else None.

Definition qcrypto_cipher_supports (alg mode : Z) : bool :=
  (alg <? QCRYPTO_CIPHER_ALGO__MAX) && (CONFIG_CRYPTO_SM4 || negb (alg =? ALGO_SM4)) && (mode <? QCRYPTO_CIPHER_MODE__MAX).

(** Without a result there is an error. *)
Definition qcrypto_cipher_ctx_new (alg mode : Z) (key : bytes) : option QCryptoCipher :=
  if QCRYPTO_CIPHER_MODE__MAX <=? mode then None
  else if negb (qcrypto_cipher_validate_key_length alg mode (zlen key)) then None
  else
    d ← driver_of alg mode;
    let half := Z.to_nat (zlen key / 2) in
    let (k, kx) := match d with driver_xts => (take half key, drop half key) | _ => (key, []) end in
    Some (mkCipher 0 0 d k kx (replicate (Z.to_nat (block_len_of alg)) 0)).

Definition qcrypto_cipher_new (a m : Z) (key : bytes) : option QCryptoCipher :=
  cipher ← qcrypto_cipher_ctx_new a m key; Some (cipher <| alg := a |> <| mode := m |>).

(** ** Drivers *)

(** [BLEN], [ENCRYPT] and [DECRYPT] of the context. *)
Definition BLEN (c : QCryptoCipher) : Z := block_len_of (alg c).
Definition ENCRYPT (c : QCryptoCipher) : block_fn := native (alg c) true (ctx_key c).
Definition DECRYPT (c : QCryptoCipher) : block_fn := native (alg c) false (ctx_key c).
Definition ENCRYPT_xts (c : QCryptoCipher) : block_fn := native (alg c) true (ctx_key_xts c).

(** With [false] there is an error. *)
Definition qcrypto_length_check (len blocksize : Z) : bool := negb (nonzero (len .& (blocksize - 1))).

Definition NAME_setiv (c : QCryptoCipher) (iv : bytes) (errp : bool) : outcome (QCryptoCipher * bool) :=
  if negb (zlen iv =? BLEN c) then e ← error_setg errp; Done (c, e) else Done (c <| ctx_iv := iv |>, errp).

(** [None] leaves the array of the caller as it is. *)
Definition NAME_getiv (c : QCryptoCipher) (niv : Z) (errp : bool) : outcome (option bytes * bool) :=
  if negb (niv =? BLEN c) then e ← error_setg errp; Done (None, e) else Done (Some (ctx_iv c), errp).

(** What a driver computes once the length is right: the context and the text. *)
Definition driver_crypt (enc : bool) (c : QCryptoCipher) (inp : bytes) : QCryptoCipher * bytes :=
  match drv c with
  | driver_ecb => (c, if enc then ENCRYPT c inp else DECRYPT c inp)
  | driver_cbc =>
      let (iv, out) := if enc then cbc_encrypt (ENCRYPT c) (BLEN c) (ctx_iv c) inp else cbc_decrypt (DECRYPT c) (BLEN c) (ctx_iv c) inp in
      (c <| ctx_iv := iv |>, out)
  | driver_ctr => let (iv, out) := ctr_crypt (ENCRYPT c) (BLEN c) (ctx_iv c) inp in (c <| ctx_iv := iv |>, out)
  | driver_xts =>
      (c, if enc then xts_encrypt_message (ENCRYPT c) (ENCRYPT_xts c) (ctx_iv c) inp
          else xts_decrypt_message (DECRYPT c) (ENCRYPT_xts c) (ctx_iv c) inp)
  end.

(** In place, as the callers do: the context, the buffer after it, the result and the
    error. *)
Definition qcrypto_cipher_crypt (enc : bool) (c : QCryptoCipher) (buf : bytes) (errp : bool) : outcome (QCryptoCipher * bytes * Z * bool) :=
  if qcrypto_length_check (zlen buf) (BLEN c) then
    let (c, out) := driver_crypt enc c buf in Done (c, out, 0, errp)
  else e ← error_setg errp; Done (c, buf, -1, e).

Definition qcrypto_cipher_encrypt := qcrypto_cipher_crypt true.
Definition qcrypto_cipher_decrypt := qcrypto_cipher_crypt false.

Definition qcrypto_cipher_setiv (c : QCryptoCipher) (iv : bytes) (errp : bool) : outcome (QCryptoCipher * bool) :=
  match drv c with
  | driver_ecb => e ← error_setg errp; Done (c, e)
  | _ => NAME_setiv c iv errp
  end.

Definition qcrypto_cipher_getiv (c : QCryptoCipher) (niv : Z) (errp : bool) : outcome (option bytes * bool) :=
  match drv c with
  | driver_ecb => e ← error_setg errp; Done (None, e)
  | _ => NAME_getiv c niv errp
  end.

(** ** What Nettle promises *)

(** Bytes that fill blocks of [n]. *)
Definition text (n : Z) (b : bytes) : Prop := Forall (in_width 8) b /\ (n | zlen b).

(** A block function gives blocks for blocks. *)
Definition block_ok (n : Z) (f : block_fn) : Prop := forall b, text n b -> text n (f b) /\ length (f b) = length b.

(** The decryption of a cipher and of a mode undoes the encryption; a mode keeps the length
    of the text and of the vector. *)
Class NettleLaws : Prop := {
  native_ok a d k : block_ok (block_len_of a) (native a d k);
  native_inv a k b : zlen k = key_len_of a -> text (block_len_of a) b -> native a false k (native a true k b) = b;
  cbc_ok f n iv b : block_ok n f -> text n iv -> zlen iv = n -> text n b ->
    text n (cbc_encrypt f n iv b).2 /\ length (cbc_encrypt f n iv b).2 = length b;
  cbc_inv f g n iv b : block_ok n f -> (forall x, text n x -> g (f x) = x) -> text n iv -> zlen iv = n -> text n b ->
    (cbc_decrypt g n iv (cbc_encrypt f n iv b).2).2 = b;
  ctr_ok f n iv b : block_ok n f -> text n iv -> zlen iv = n -> text n b ->
    text n (ctr_crypt f n iv b).2 /\ length (ctr_crypt f n iv b).2 = length b;
  cbc_iv f n iv b : length (cbc_encrypt f n iv b).1 = length iv /\ length (cbc_decrypt f n iv b).1 = length iv;
  ctr_iv f n iv b : length (ctr_crypt f n iv b).1 = length iv;
  ctr_inv f n iv b : block_ok n f -> text n iv -> zlen iv = n -> text n b ->
    (ctr_crypt f n iv (ctr_crypt f n iv b).2).2 = b;
}.
End Cipher.
