(* ===== verification/CipherModes.v ===== *)
(** * Modes of operation

    Cipher block chaining and counter mode as textbooks have them, over a block cipher
    given by its two directions: what [Nettle] stands for, and that [NettleLaws] holds of
    it when the block cipher can be undone. *)

From S2P Require Import Prelude CString Cipher.

Definition xor_bytes (a b : bytes) : bytes := zip_with Z.lxor a b.

(** [k] blocks of [n] bytes. *)
Fixpoint cbc_blocks (k n : nat) (f : block_fn) (iv b : bytes) : bytes * bytes :=
  match k with
  | O => (iv, [])
  | S k => let c := f (xor_bytes (take n b) iv) in let r := cbc_blocks k n f c (drop n b) in (r.1, c ++ r.2)
  end.

Fixpoint uncbc_blocks (k n : nat) (g : block_fn) (iv b : bytes) : bytes * bytes :=
  match k with
  | O => (iv, [])
  | S k => let r := uncbc_blocks k n g (take n b) (drop n b) in (r.1, xor_bytes (g (take n b)) iv ++ r.2)
  end.

(** The counter is a big-endian number of the length of the block. *)
Definition next_counter (iv : bytes) : bytes := rev (le_split (length iv) (le_combine (rev iv) + 1)).

Fixpoint ctr_blocks (k n : nat) (f : block_fn) (iv b : bytes) : bytes * bytes :=
  match k with
  | O => (iv, [])
  | S k => let r := ctr_blocks k n f (next_counter iv) (drop n b) in (r.1, xor_bytes (take n b) (f iv) ++ r.2)
  end.

(** A vector stays an array of its length. *)
Definition keep_vector (iv : bytes) (r : bytes * bytes) : bytes * bytes := (resize (length iv) 0 r.1, r.2).

Definition blocks (n : Z) (b : bytes) : nat := Z.to_nat (zlen b / n).

Lemma xor_bytes_len a b : length a = length b -> length (xor_bytes a b) = length a.
Proof. intros E. unfold xor_bytes. rewrite length_zip_with. lia. Qed.

Lemma xor_bytes_twice a : forall b, length a = length b -> xor_bytes (xor_bytes a b) b = a.
Proof.
  induction a as [|x a IH]; intros [|y b] E; try done. cbn in *. f_equal; [|apply IH; lia].
  by rewrite Z.lxor_assoc, Z.lxor_nilpotent, Z.lxor_0_r.
Qed.

Lemma byte_lxor x y : in_width 8 x -> in_width 8 y -> in_width 8 (x .^ y).
Proof.
  intros Hx Hy. apply in_width_iff; [done|]. split; [apply Z.lxor_nonneg; unfold in_width in *; lia|].
  intros i Hi. by rewrite Z.lxor_spec, !(testbit_high 8) by (done || lia).
Qed.

Lemma xor_bytes_bytes a : forall b, Forall (in_width 8) a -> Forall (in_width 8) b -> Forall (in_width 8) (xor_bytes a b).
Proof.
  induction a as [|x a IH]; intros [|y b] Ha Hb; try done. apply Forall_cons in Ha as [? ?], Hb as [? ?].
  constructor; [by apply byte_lxor|by apply IH].
Qed.

(** ** Blocks *)

Section Blocks.
Context (n : nat).

(** One block of bytes. *)
Definition block (b : bytes) : Prop := Forall (in_width 8) b /\ length b = n.

Context (f g : block_fn).
Context (Hf : forall b, block b -> block (f b)) (Hg : forall b, block b -> g (f b) = b).

Lemma block_take k b : Forall (in_width 8) b -> length b = (S k * n)%nat ->
  block (take n b) /\ Forall (in_width 8) (drop n b) /\ length (drop n b) = (k * n)%nat.
Proof.
  intros Hb Hl. split; [split; [by apply Forall_take|rewrite length_take; lia]|].
  split; [by apply Forall_drop|rewrite length_drop; lia].
Qed.

Lemma block_xor a b : block a -> block b -> block (xor_bytes a b).
Proof. intros [Ha Ea] [Hb Eb]. split; [by apply xor_bytes_bytes|]. rewrite xor_bytes_len; congruence. Qed.

Lemma cbc_blocks_ok k : forall iv b, block iv -> Forall (in_width 8) b -> length b = (k * n)%nat ->
  Forall (in_width 8) (cbc_blocks k n f iv b).2 /\ length (cbc_blocks k n f iv b).2 = length b.
Proof.
  induction k as [|k IH]; intros iv b Hiv Hb Hl; [done|]. destruct (block_take k b Hb Hl) as (Ht & Hd & Hdl).
  destruct (Hf _ (block_xor _ _ Ht Hiv)) as [Hc1 Hc2]. destruct (IH _ _ (conj Hc1 Hc2) Hd Hdl) as [IH1 IH2]. cbn [cbc_blocks snd].
  split; [by apply Forall_app|]. rewrite length_app, IH2, Hc2, Hdl. lia.
Qed.

Lemma cbc_blocks_inv k : forall iv b, block iv -> Forall (in_width 8) b -> length b = (k * n)%nat ->
  (uncbc_blocks k n g iv (cbc_blocks k n f iv b).2).2 = b.
Proof.
  induction k as [|k IH]; intros iv b Hiv Hb Hl; [by destruct b|]. destruct (block_take k b Hb Hl) as (Ht & Hd & Hdl).
  pose proof (block_xor _ _ Ht Hiv) as Hx. pose proof (Hf _ Hx) as Hc. cbn [cbc_blocks uncbc_blocks snd]. set (c := f _) in *.
  rewrite (take_app_length' c), (drop_app_length' c) by (symmetry; apply Hc). rewrite (IH c (drop n b) Hc Hd Hdl).
  unfold c. rewrite Hg by done. rewrite xor_bytes_twice; [by rewrite take_drop|]. destruct Ht, Hiv. congruence.
Qed.

Lemma le_split_block iv : block iv -> block (next_counter iv).
Proof.
  intros [_ E]. split; [|unfold next_counter; by rewrite length_rev, length_le_split]. unfold next_counter. apply Forall_rev. apply le_split_bytes.
Qed.

Lemma ctr_blocks_ok k : forall iv b, block iv -> Forall (in_width 8) b -> length b = (k * n)%nat ->
  Forall (in_width 8) (ctr_blocks k n f iv b).2 /\ length (ctr_blocks k n f iv b).2 = length b.
Proof.
  induction k as [|k IH]; intros iv b Hiv Hb Hl; [done|]. destruct (block_take k b Hb Hl) as (Ht & Hd & Hdl).
  destruct (block_xor _ _ Ht (Hf _ Hiv)) as [Hc1 Hc2]. destruct (IH _ _ (le_split_block _ Hiv) Hd Hdl) as [IH1 IH2]. cbn [ctr_blocks snd].
  split; [by apply Forall_app|]. rewrite length_app, IH2, Hc2, Hdl. lia.
Qed.

Lemma ctr_blocks_inv k : forall iv b, block iv -> Forall (in_width 8) b -> length b = (k * n)%nat ->
  (ctr_blocks k n f iv (ctr_blocks k n f iv b).2).2 = b.
Proof.
  induction k as [|k IH]; intros iv b Hiv Hb Hl; [by destruct b|]. destruct (block_take k b Hb Hl) as (Ht & Hd & Hdl).
  pose proof (block_xor _ _ Ht (Hf _ Hiv)) as Hx. cbn [ctr_blocks snd]. set (c := xor_bytes _ _) in *.
  rewrite (take_app_length' c), (drop_app_length' c) by (symmetry; apply Hx). rewrite (IH _ _ (le_split_block _ Hiv) Hd Hdl).
  unfold c. rewrite xor_bytes_twice; [by rewrite take_drop|]. destruct Ht, (Hf _ Hiv). congruence.
Qed.
End Blocks.

(** ** The library *)

Section Library.
Context (E D : Z -> bytes -> block_fn).

(** XTS, which the engines do not use, is left as the identity. *)
#[local] Instance textbook : Nettle := {|
  CONFIG_CRYPTO_SM4 := true;
  native a d k := if d then E a k else D a k;
  cbc_encrypt f n iv b := keep_vector iv (cbc_blocks (blocks n b) (Z.to_nat n) f iv b);
  cbc_decrypt g n iv b := keep_vector iv (uncbc_blocks (blocks n b) (Z.to_nat n) g iv b);
  ctr_crypt f n iv b := keep_vector iv (ctr_blocks (blocks n b) (Z.to_nat n) f iv b);
  xts_encrypt_message _ _ _ b := b;
  xts_decrypt_message _ _ _ b := b;
|}.

Context (E_ok : forall a k, block_ok (block_len_of a) (E a k)) (D_ok : forall a k, block_ok (block_len_of a) (D a k)).
Context (D_E : forall a k b, zlen k = key_len_of a -> text (block_len_of a) b -> D a k (E a k b) = b).

Lemma text_blocks n b : 0 <= n -> text n b -> Forall (in_width 8) b /\ length b = (blocks n b * Z.to_nat n)%nat.
Proof.
  intros Hn [Hb [q Hq]]. split; [done|]. unfold blocks, zlen in *. destruct (decide (n = 0)) as [->|]; [lia|].
  rewrite Hq, Z.div_mul by done. nia.
Qed.

Lemma block_text n b : 0 <= n -> block (Z.to_nat n) b <-> text n b /\ zlen b = n.
Proof.
  intros Hn. unfold block, text, zlen. split; [intros [? ?]; repeat split; try done; [exists 1|]; lia|intros [[? ?] ?]; split; [done|lia]].
Qed.

Lemma blocks_len n b b' : length b = length b' -> blocks n b = blocks n b'.
Proof. unfold blocks, zlen. by intros ->. Qed.

Lemma block_ok_block n f : 0 <= n -> block_ok n f -> forall b, block (Z.to_nat n) b -> block (Z.to_nat n) (f b).
Proof.
  intros Hn Hf b Hb%block_text; [|done]. destruct Hb as [Ht Hz]. destruct (Hf b Ht) as [Ht' Hl']. apply block_text; [done|].
  split; [done|]. unfold zlen in *. by rewrite Hl'.
Qed.

#[local] Instance textbook_laws : NettleLaws.
Proof.
  assert (forall n iv, text n iv -> zlen iv = n -> 0 <= n /\ block (Z.to_nat n) iv) as Hiv.
  { intros n iv Ht Hz. assert (0 <= n) by (unfold zlen in Hz; lia). split; [done|]. by apply block_text. }
  split.
  - intros a [] k; [apply E_ok|apply D_ok].
  - apply D_E.
  - intros f n iv b Hf Ht Hz Hb. destruct (Hiv _ _ Ht Hz) as [Hn Hi]. destruct (text_blocks n b Hn Hb) as [Hb' Hl].
    destruct (cbc_blocks_ok _ f (block_ok_block n f Hn Hf) _ _ _ Hi Hb' Hl) as [H1 H2]. cbn. split; [|done].
    split; [done|]. unfold zlen. rewrite H2. apply Hb.
  - intros f g n iv b Hf Hg Ht Hz Hb. destruct (Hiv _ _ Ht Hz) as [Hn Hi]. destruct (text_blocks n b Hn Hb) as [Hb' Hl]. cbn.
    destruct (cbc_blocks_ok _ f (block_ok_block n f Hn Hf) _ _ _ Hi Hb' Hl) as [_ H2]. rewrite (blocks_len _ _ _ H2).
    apply (cbc_blocks_inv _ f g); try done; [by apply block_ok_block|]. intros x [Hx _]%block_text; [by apply Hg|done].
  - intros f n iv b Hf Ht Hz Hb. destruct (Hiv _ _ Ht Hz) as [Hn Hi]. destruct (text_blocks n b Hn Hb) as [Hb' Hl].
    destruct (ctr_blocks_ok _ f (block_ok_block n f Hn Hf) _ _ _ Hi Hb' Hl) as [H1 H2]. cbn. split; [|done].
    split; [done|]. unfold zlen. rewrite H2. apply Hb.
  - intros f n iv b. cbn. by rewrite !length_resize.
  - intros f n iv b. cbn. by rewrite length_resize.
  - intros f n iv b Hf Ht Hz Hb. destruct (Hiv _ _ Ht Hz) as [Hn Hi]. destruct (text_blocks n b Hn Hb) as [Hb' Hl]. cbn.
    destruct (ctr_blocks_ok _ f (block_ok_block n f Hn Hf) _ _ _ Hi Hb' Hl) as [_ H2]. rewrite (blocks_len _ _ _ H2).
    apply (ctr_blocks_inv _ f); try done. by apply block_ok_block.
Qed.
End Library.
