(* ===== verification/Aes.v ===== *)
(** * AES engine

    Model of [hw/misc/apple-silicon/aes.c] with the layouts of [aes_reg.h]: commands go
    through a register to a queue, and a thread of its own takes them from there.  The
    memory of the guest is the interface [DmaSpace].  An event is one access of the guest,
    which has the lock of the emulator, or one step of a thread between two points at
    which it can wait. *)

From S2P Require Import Prelude Bitops CString Cipher.

(** A read fills the buffer it was given. *)
Class DmaSpace (M : Type) := {
  dma_memory_read : M -> Z -> nat -> bytes;
  dma_memory_write : M -> Z -> bytes -> M;
  dma_memory_read_length m a n : length (dma_memory_read m a n) = n;
}.

(** ** Layouts *)

Definition REG_AES_VERSION : Z := 0x0.
Definition REG_AES_CONFIG : Z := 0x4.
Definition REG_AES_CONTROL : Z := 0x8.
Definition AES_BLK_CONTROL_START : Z := 1.
Definition AES_BLK_CONTROL_STOP : Z := 2.
Definition AES_BLK_CONTROL_RESET : Z := 4.
Definition AES_BLK_CONTROL_RESET_AES : Z := 8.
Definition REG_AES_STATUS : Z := 0xc.
Definition REG_AES_KEY_ID : Z := 0x10.
Definition REG_AES_AXI_STATUS : Z := 0x14.
Definition REG_AES_INT_STATUS : Z := 0x18.
Definition REG_AES_INT_ENABLE : Z := 0x1c.
Definition REG_AES_WATERMARKS : Z := 0x20.
Definition REG_AES_COMMAND_FIFO_STATUS : Z := 0x24.
Definition REG_AES_COMMAND_FIFO_COUNT : Z := 0x2c.
Definition REG_AES_FLAG_COMMAND : Z := 0x30.
Definition REG_AES_SKG_KEY : Z := 0x34.
Definition REG_AES_CLEAR_FIFO : Z := 0x38.
Definition REG_AES_CLEAR_FIFO_RESET : Z := 1.
Definition REG_AES_COMMAND_FIFO_S8000 : Z := 0x100.
Definition REG_AES_COMMAND_FIFO : Z := 0x200.
Definition AES_BLK_REG_SIZE : Z := 0x204.
Definition COMMAND_FIFO_SIZE : Z := 128.

Definition BLOCK_MODE_ECB : Z := 0.
Definition BLOCK_MODE_CBC : Z := 1.
Definition BLOCK_MODE_CTR : Z := 2.
Definition KEY_LEN_128 : Z := 0.
Definition KEY_LEN_192 : Z := 1.
Definition KEY_LEN_256 : Z := 2.
Definition KEY_SELECT_SOFTWARE : Z := 0.
Definition OPCODE_KEY : Z := 0x01.
Definition OPCODE_IV : Z := 0x02.
Definition OPCODE_DSB : Z := 0x03.
Definition OPCODE_DATA : Z := 0x05.
Definition OPCODE_STORE_IV : Z := 0x06.
Definition OPCODE_FLAG : Z := 0x08.

Definition COMMAND_OPCODE (x : Z) : Z := (x .>> 28) .& 0xF.
Definition COMMAND_KEY_COMMAND_KEY_CONTEXT (x : Z) : Z := (x .>> 27) .& 0x1.
Definition COMMAND_KEY_COMMAND_KEY_SELECT (x : Z) : Z := (x .>> 24) .& 0x7.
Definition COMMAND_KEY_COMMAND_KEY_LENGTH (x : Z) : Z := (x .>> 22) .& 0x3.
Definition COMMAND_KEY_COMMAND_WRAPPED : Z := 1 .<< 21.
Definition COMMAND_KEY_COMMAND_ENCRYPT : Z := 1 .<< 20.
Definition COMMAND_KEY_COMMAND_KEY_FUNC (x : Z) : Z := (x .>> 18) .& 0x3.
Definition COMMAND_KEY_COMMAND_BLOCK_MODE (x : Z) : Z := (x .>> 16) .& 0x3.
Definition COMMAND_KEY_COMMAND_COMMAND_ID (x : Z) : Z := x .& 0xFF.
Definition COMMAND_IV_COMMAND_IV_CONTEXT (x : Z) : Z := (x .>> 26) .& 0x3.
Definition COMMAND_DATA_COMMAND_KEY_CONTEXT (x : Z) : Z := (x .>> 27) .& 0x1.
Definition COMMAND_DATA_COMMAND_IV_CONTEXT (x : Z) : Z := (x .>> 25) .& 0x3.
Definition COMMAND_DATA_COMMAND_LENGTH (x : Z) : Z := x .& 0xFFFFFF.
Definition COMMAND_DATA_UPPER_ADDR_SOURCE (x : Z) : Z := (x .>> 16) .& 0xFF.
Definition COMMAND_DATA_UPPER_ADDR_DEST (x : Z) : Z := x .& 0xFF.
Definition COMMAND_STORE_IV_COMMAND_CONTEXT (x : Z) : Z := (x .>> 26) .& 0x3.
Definition COMMAND_STORE_IV_COMMAND_UPPER_ADDR_DEST (x : Z) : Z := x .& 0xFF.
Definition COMMAND_FLAG_ID_CODE (x : Z) : Z := x .& 0xFF.
Definition COMMAND_FLAG_STOP_COMMANDS : Z := 1 .<< 26.
Definition COMMAND_FLAG_SEND_INTERRUPT : Z := 1 .<< 27.

(** Bits of the interrupt status. *)
Definition INT_COMMAND_FIFO_LOW : Z := 0.
Definition INT_INVALID_COMMAND : Z := 2.
Definition INT_FLAG_COMMAND : Z := 5.
Definition INT_INVALID_DATA_LENGTH : Z := 6.
Definition INT_KEY_DISABLED (ctx : Z) : Z := if ctx =? 0 then 7 else 13.

Definition key_size (len : Z) : Z :=
  if len =? KEY_LEN_128 then 128 else if len =? KEY_LEN_192 then 192 else if len =? KEY_LEN_256 then 256 else 0.

Definition key_algo (mode : Z) : Z :=
  if mode =? KEY_LEN_128 then ALGO_AES_128
  else if mode =? KEY_LEN_192 then ALGO_AES_192
  else if mode =? KEY_LEN_256 then ALGO_AES_256
  else QCRYPTO_CIPHER_ALGO__MAX.

Definition key_mode (mode : Z) : Z :=
  if mode =? BLOCK_MODE_ECB then MODE_ECB
  else if mode =? BLOCK_MODE_CBC then MODE_CBC
  else if mode =? BLOCK_MODE_CTR then MODE_CTR
  else QCRYPTO_CIPHER_MODE__MAX.

Record AESCommand := mkCommand {
  c_command : Z;
  c_data : list Z;
}.

Definition c_data_len (cmd : AESCommand) : Z := zlen (c_data cmd).

(** A bit field of one bit. *)
Definition assign_bit (w n : Z) (b : bool) : Z := if b then w .| BIT n else w .&~ BIT n.

(** An array of words as bytes. *)
Definition word_array (l : list Z) : bytes := concat (le_split 4 <$> l).

(** A thread: at the top of its loop, with a command it took, in front of the test for
    work, after a test that found none and with the lock of the queue, asleep, returned,
    or joined. *)
Inductive thread := Top | Holding (cmd : AESCommand) | Testing | Tested | Asleep | Returned | Joined.
#[global] Instance AESCommand_eq_dec : EqDecision AESCommand.
Proof. solve_decision. Defined.
#[global] Instance thread_eq_dec : EqDecision thread.
Proof. solve_decision. Defined.

Section Aes.
Context `{Nettle} {M : Type} `{DmaSpace M}.

Record AESKey := mkKey {
  cipher : option QCryptoCipher;
  select : Z;
  algo : Z;
  key : bytes;
  len : Z;
  func : Z;
  mode : Z;
  wrapped : bool;
  encrypt : bool;
  disabled : bool;
  id : Z;
}.
#[global] Instance eta_AESKey : Eta AESKey := fun k =>
  mkKey (cipher k) (select k) (algo k) (key k) (len k) (func k) (mode k) (wrapped k) (encrypt k) (disabled k) (id k).

(** [thread] is the last of [threads].  [joining] is a caller that waits for it with the
    lock of the emulator; it has what [stopped] is to be after that. *)
Record AppleAESState := mkAES {
  irq : bool;
  last_level : bool;
  reg : list Z;
  threads : list thread;
  queue : list AESCommand;
  command : Z;
  data : option (list Z);
  data_len : Z;
  data_read : Z;
  keys : list AESKey;
  iv : list bytes;
  stopped : bool;
  joining : option bool;
  board_id : Z;
  mem : M;
}.
#[global] Instance eta_AppleAESState : Eta AppleAESState := fun s =>
  mkAES (irq s) (last_level s) (reg s) (threads s) (queue s) (command s) (data s) (data_len s) (data_read s) (keys s) (iv s) (stopped s) (joining s) (board_id s) (mem s).

(** ** Registers *)

Definition get (s : AppleAESState) (a : Z) : Z := nth (Z.to_nat (a .>> 2)) (reg s) 0.
Definition put (s : AppleAESState) (a v : Z) : AppleAESState := s <| reg ::= fun l => <[Z.to_nat (a .>> 2) := v]> l |>.

Definition set_int (s : AppleAESState) (n : Z) (b : bool) : AppleAESState := put s REG_AES_INT_STATUS (assign_bit (get s REG_AES_INT_STATUS) n b).

Definition level (s : AppleAESState) : Z := extract32 (get s REG_AES_COMMAND_FIFO_STATUS) 8 8.
Definition set_level (s : AppleAESState) (v : Z) : AppleAESState :=
  put s REG_AES_COMMAND_FIFO_STATUS (deposit32 (get s REG_AES_COMMAND_FIFO_STATUS) 8 8 (u8 v)).

Definition aes_update_irq (s : AppleAESState) : AppleAESState :=
  if nonzero (get s REG_AES_INT_ENABLE .& get s REG_AES_INT_STATUS) then
    if negb (last_level s) then s <| last_level := true |> <| irq := true |> else s
  else if last_level s then s <| last_level := false |> <| irq := false |> else s.

Definition aes_update_command_fifo_status (s : AppleAESState) : AppleAESState :=
  let l := level s in
  let low := l <? extract32 (get s REG_AES_WATERMARKS) 0 7 in
  let w := get s REG_AES_COMMAND_FIFO_STATUS in
  let w := assign_bit w 1 (l =? 0) in
  let w := assign_bit w 2 (COMMAND_FIFO_SIZE <=? l) in
  let w := assign_bit w 3 (COMMAND_FIFO_SIZE <? l) in
  let w := assign_bit w 0 low in
  let s := put s REG_AES_COMMAND_FIFO_STATUS w in
  aes_update_irq (set_int s INT_COMMAND_FIFO_LOW low).

(** The lock of the queue is free unless a thread is about to sleep with it. *)
Definition queue_free (s : AppleAESState) : bool := forallb (fun t => match t with Tested => false | _ => true end) (threads s).

(** [None] when the caller has to wait for the lock of the queue. *)
Definition aes_empty_fifo (s : AppleAESState) : option AppleAESState :=
  if queue_free s then Some (aes_update_command_fifo_status (set_level (s <| queue := [] |>) 0)) else None.

(** A signal wakes one thread that sleeps. *)
Fixpoint wake (l : list thread) : list thread :=
  match l with [] => [] | Asleep :: l => Testing :: l | t :: l => t :: wake l end.
Definition qemu_cond_signal (s : AppleAESState) : AppleAESState := s <| threads ::= wake |>.

Definition aes_start (s : AppleAESState) : AppleAESState :=
  if stopped s then s <| stopped := false |> <| threads ::= fun l => l ++ [Top] |> else s.

Definition set_thread (s : AppleAESState) (i : nat) (t : thread) : AppleAESState := s <| threads ::= <[i := t]> |>.

(** There is no second join of a thread.  [after] is what [stopped] is to be when the join
    is over. *)
Definition aes_stop (s : AppleAESState) (after : bool) : outcome AppleAESState :=
  if negb (stopped s) then
    let s := qemu_cond_signal (s <| stopped := true |>) in
    match last (threads s) with
    | None | Some Joined => Oob
    | Some Returned => Done (set_thread s (pred (length (threads s))) Joined <| stopped := after |>)
    | Some _ => Done (s <| joining := Some after |>)
    end
  else Done s.

(** A thread returns; a join of it is over. *)
Definition thread_return (s : AppleAESState) (i : nat) : AppleAESState :=
  match joining s with
  | Some after =>
      if (S i =? length (threads s))%nat then set_thread s i Joined <| joining := None |> <| stopped := after |>
      else set_thread s i Returned
  | None => set_thread s i Returned
  end.

(** ** Commands *)

Definition put_key (s : AppleAESState) (ctx : Z) (k : AESKey) : outcome AppleAESState :=
  l ← aset (keys s) ctx k; Done (s <| keys := l |>).

Definition put_iv (s : AppleAESState) (ctx : Z) (v : bytes) : outcome AppleAESState :=
  l ← aset (iv s) ctx v; Done (s <| iv := l |>).

(** A key command; a cipher that cannot be made ends the emulator. *)
Definition process_key (s : AppleAESState) (cmd : AESCommand) : outcome AppleAESState :=
  let c := c_command cmd in
  let ctx := COMMAND_KEY_COMMAND_KEY_CONTEXT c in
  k ← aget (keys s) ctx;
  let n := key_size (COMMAND_KEY_COMMAND_KEY_LENGTH c) / 8 in
  src ← slice (word_array (c_data cmd)) 4 n;
  material ← blit (key k) 0 src;
  let k := k <| select := COMMAND_KEY_COMMAND_KEY_SELECT c |>
             <| algo := key_algo (COMMAND_KEY_COMMAND_KEY_LENGTH c) |>
             <| len := n |>
             <| wrapped := nonzero (c .& COMMAND_KEY_COMMAND_WRAPPED) |>
             <| encrypt := nonzero (c .& COMMAND_KEY_COMMAND_ENCRYPT) |>
             <| func := COMMAND_KEY_COMMAND_KEY_FUNC c |>
             <| mode := COMMAND_KEY_COMMAND_BLOCK_MODE c |>
             <| id := COMMAND_KEY_COMMAND_COMMAND_ID c |>
             <| key := material |>
             <| cipher := None |> in
  let s := put s REG_AES_KEY_ID (deposit32 (get s REG_AES_KEY_ID) (if nonzero ctx then 8 else 0) 8 (id k)) in
  if negb (select k =? KEY_SELECT_SOFTWARE) then
    put_key (set_int s (INT_KEY_DISABLED ctx) true) ctx (k <| disabled := true |>)
  else
    match qcrypto_cipher_new (algo k) (key_mode (mode k)) (take (Z.to_nat (len k)) (key k)) with
    | None => Abort
    | Some c => put_key (set_int s (INT_KEY_DISABLED ctx) false) ctx (k <| disabled := false |> <| cipher := Some c |>)
    end.

(** A data command: the text is read, put through the cipher with the vector of the
    context, and written; the three calls share one error variable. *)
Definition process_data (s : AppleAESState) (cmd : AESCommand) : outcome AppleAESState :=
  command ← aget (c_data cmd) 0;
  upper_addr ← aget (c_data cmd) 1;
  source ← aget (c_data cmd) 2;
  dest ← aget (c_data cmd) 3;
  let key_ctx := COMMAND_DATA_COMMAND_KEY_CONTEXT command in
  let iv_ctx := COMMAND_DATA_COMMAND_IV_CONTEXT command in
  let n := COMMAND_DATA_COMMAND_LENGTH command in
  let source_addr := source .| (COMMAND_DATA_UPPER_ADDR_SOURCE upper_addr .<< 32) in
  let dest_addr := dest .| (COMMAND_DATA_UPPER_ADDR_DEST upper_addr .<< 32) in
  if nonzero (n .& 0xf) then Done (set_int s INT_INVALID_DATA_LENGTH true)
  else
    k ← aget (keys s) key_ctx;
    match disabled k, cipher k with
    | false, Some c =>
        v ← aget (iv s) iv_ctx;
        let buffer := dma_memory_read (mem s) source_addr (Z.to_nat n) in
        '(c, errp) ← qcrypto_cipher_setiv c v false;
        '(c, buffer, _, errp) ← qcrypto_cipher_crypt (encrypt k) c buffer errp;
        '(v', _) ← qcrypto_cipher_getiv c 16 errp;
        s ← put_key s key_ctx (k <| cipher := Some c |>);
        s ← put_iv s iv_ctx (default v v');
        Done (s <| mem ::= fun m => dma_memory_write m dest_addr buffer |>)
    | _, _ => Done (set_int s (INT_KEY_DISABLED key_ctx) true)
    end.

Definition process_store_iv (s : AppleAESState) (cmd : AESCommand) : outcome AppleAESState :=
  command ← aget (c_data cmd) 0;
  dest ← aget (c_data cmd) 1;
  let ctx := COMMAND_STORE_IV_COMMAND_CONTEXT (c_command cmd) in
  let dest_addr := dest .| (COMMAND_STORE_IV_COMMAND_UPPER_ADDR_DEST command .<< 32) in
  v ← aget (iv s) ctx;
  Done (s <| mem ::= fun m => dma_memory_write m dest_addr v |>).

Definition process_flag (s : AppleAESState) (cmd : AESCommand) : AppleAESState :=
  let c := c_command cmd in
  let s := put s REG_AES_FLAG_COMMAND (deposit32 (get s REG_AES_FLAG_COMMAND) 0 16 (COMMAND_FLAG_ID_CODE c)) in
  let s := if nonzero (c .& COMMAND_FLAG_STOP_COMMANDS) then s <| stopped := true |> else s in
  if nonzero (c .& COMMAND_FLAG_SEND_INTERRUPT) then set_int s INT_FLAG_COMMAND true else s.

Definition aes_process_command (s : AppleAESState) (cmd : AESCommand) : outcome AppleAESState :=
  let op := COMMAND_OPCODE (c_command cmd) in
  if op =? OPCODE_KEY then process_key s cmd
  else if op =? OPCODE_IV then
    src ← slice (word_array (c_data cmd)) 4 16;
    put_iv s (COMMAND_IV_COMMAND_IV_CONTEXT (c_command cmd)) src
  else if op =? OPCODE_DSB then Done s
  else if op =? OPCODE_DATA then process_data s cmd
  else if op =? OPCODE_STORE_IV then process_store_iv s cmd
  else if op =? OPCODE_FLAG then Done (process_flag s cmd)
  else Done (set_int s INT_INVALID_COMMAND true).

(** What the thread does with a command it took. *)
Definition complete (s : AppleAESState) (cmd : AESCommand) : outcome AppleAESState :=
  s ← aes_process_command s cmd;
  Done (aes_update_command_fifo_status (set_level s (level s - c_data_len cmd))).

(** ** Threads *)

(** The thread [i] runs to its next point; [None] when it waits for a lock or a signal. *)
Definition aes_thread (s : AppleAESState) (i : nat) : outcome (option AppleAESState) :=
  match threads s !! i with
  | Some Top =>
      if stopped s then Done (Some (thread_return s i))
      else if negb (queue_free s) then Done None
      else match queue s with
           | cmd :: q => Done (Some (set_thread (s <| queue := q |>) i (Holding cmd)))
           | [] => Done (Some (set_thread s i Testing))
           end
  | Some (Holding cmd) =>
      match joining s with
      | Some _ => Done None
      | None => s ← complete s cmd; Done (Some (set_thread s i Testing))
      end
  | Some Testing =>
      if negb (queue_free s) then Done None
      else match queue s with
           | [] => if stopped s then Done (Some (set_thread s i Top)) else Done (Some (set_thread s i Tested))
           | _ => Done (Some (set_thread s i Top))
           end
  | Some Tested => Done (Some (set_thread s i Asleep))
  | _ => Done None
  end.

(** ** Accesses of the guest *)

Definition aes_security_reg_read (s : AppleAESState) (addr : Z) : Z :=
  if addr =? 0x0 then (2 .<< 1) .| BIT 0
  else if addr =? 0x20 then (board_id s .& 0x1F) .| BIT 31
  else if addr =? 0x30 then 0
  else if addr =? 0x34 then BIT 24 .| BIT 25
  else if addr =? 0x10 then BIT 0
  else 0xFF.

Definition apple_aes_reset (s : AppleAESState) : outcome (option AppleAESState) :=
  let s := s <| reg := replicate (Z.to_nat (AES_BLK_REG_SIZE / 4)) 0 |> in
  let seeded := foldr (fun n w => assign_bit w n true) 0 [7; 8; 9; 10; 11; 12; 13; 14; 15] in
  let s := put s REG_AES_STATUS seeded in
  let s := s <| command := 0 |> <| data := None |> <| data_read := 0 |> <| data_len := 0 |> <| stopped := true |> in
  s ← aes_stop s true;
  Done (aes_empty_fifo s).

(** The words of a command, by its first one; none for an unknown one. *)
Definition command_words (val : Z) : option Z :=
  let op := COMMAND_OPCODE val in
  if op =? OPCODE_KEY then
    if COMMAND_KEY_COMMAND_KEY_SELECT val =? KEY_SELECT_SOFTWARE then
      Some (key_size (COMMAND_KEY_COMMAND_KEY_LENGTH val) / 8 / 4 + 1)
    else Some 1
  else if op =? OPCODE_IV then Some 5
  else if op =? OPCODE_DSB then Some 9
  else if op =? OPCODE_DATA then Some 4
  else if op =? OPCODE_STORE_IV then Some 2
  else if op =? OPCODE_FLAG then Some 1
  else None.

(** A word goes to the command under way, or starts one. *)
Definition fifo_word (s : AppleAESState) (val : Z) : outcome AppleAESState :=
  if data_read s <? data_len s then
    match data s with
    | None => Oob
    | Some d => d ← aset d (data_read s) val; Done (s <| data := Some d |> <| data_read ::= fun n => u32 (n + 1) |>)
    end
  else
    let s := s <| command := val |> in
    match command_words val with
    | Some n =>
        d ← aset (replicate (Z.to_nat n) 0) 0 val;
        Done (s <| data_len := n |> <| data := Some d |> <| data_read := 1 |>)
    | None => Done (set_int s INT_INVALID_COMMAND true)
    end.

(** A whole command goes to the queue, which needs its lock. *)
Definition fifo_enqueue (s : AppleAESState) : option AppleAESState :=
  match data s with
  | Some d =>
      if data_len s <=? data_read s then
        if queue_free s then
          Some (qemu_cond_signal (s <| command := 0 |> <| data := None |> <| data_len := 0 |> <| data_read := 0 |>
                                    <| queue ::= fun q => q ++ [mkCommand (command s) d] |>))
        else None
      else Some s
  | None => Some s
  end.

(** The FIFO register: the state before the interrupt line is looked at again. *)
Definition fifo_write (s : AppleAESState) (val : Z) : outcome (option AppleAESState) :=
  s ← fifo_word s val;
  Done (s ← fifo_enqueue s; Some (aes_update_command_fifo_status (set_level s (level s + 1)))).

Definition control_write (s : AppleAESState) (val : Z) : outcome (option AppleAESState) :=
  if val =? AES_BLK_CONTROL_START then Done (Some (aes_start s))
  else if val =? AES_BLK_CONTROL_STOP then s ← aes_stop s true; Done (Some s)
  else if val =? AES_BLK_CONTROL_RESET then Done (aes_empty_fifo s)
  else if val =? AES_BLK_CONTROL_RESET_AES then apple_aes_reset s
  else Done (Some s).

(** The tail of the access: the register is written unless [nowrite], and the interrupt
    line follows with [iflg]. *)
Definition reg_commit (s : AppleAESState) (addr val : Z) (nowrite iflg : bool) : AppleAESState :=
  let s := if nowrite then s else put s addr val in
  if iflg then aes_update_irq s else s.

Definition read_only (addr : Z) : bool :=
  existsb (Z.eqb addr) [REG_AES_VERSION; REG_AES_STATUS; REG_AES_KEY_ID; REG_AES_AXI_STATUS; REG_AES_COMMAND_FIFO_STATUS;
                        REG_AES_COMMAND_FIFO_COUNT; REG_AES_FLAG_COMMAND; REG_AES_SKG_KEY].

(** [None] when the access waits for the lock of the queue. *)
Definition aes_reg_write (s : AppleAESState) (addr dat : Z) : outcome (option AppleAESState) :=
  let val := u32 dat in
  let finish o nowrite iflg := Done (s ← o; Some (reg_commit s addr val nowrite iflg)) in
  if AES_BLK_REG_SIZE <=? addr then Done (Some s)
  else if read_only addr then finish (Some s) true false
  else if addr =? REG_AES_INT_STATUS then
    finish (Some (put s REG_AES_INT_STATUS (get s REG_AES_INT_STATUS .&~ val))) true true
  else if addr =? REG_AES_INT_ENABLE then finish (Some s) false true
  else if addr =? REG_AES_WATERMARKS then finish (Some (aes_update_command_fifo_status s)) false false
  else if addr =? REG_AES_CONTROL then o ← control_write s val; finish o true false
  else if (addr =? REG_AES_COMMAND_FIFO_S8000) || (addr =? REG_AES_COMMAND_FIFO) then
    let starts := data_len s <=? data_read s in
    o ← fifo_write s val;
    finish o true (starts && bool_decide (command_words val = None))
  else if addr =? REG_AES_CLEAR_FIFO then
    finish (if val =? REG_AES_CLEAR_FIFO_RESET then aes_empty_fifo s else Some s) false false
  else finish (Some s) false false.

Definition aes_reg_read (s : AppleAESState) (addr : Z) : Z :=
  if AES_BLK_REG_SIZE <=? addr then 0 else get s addr.

(** ** Life of the device *)

Definition apple_aes_create (board : Z) (m : M) : AppleAESState :=
  let k := mkKey None 0 0 (replicate 32 0) 0 0 0 false false false 0 in
  mkAES false false (replicate (Z.to_nat (AES_BLK_REG_SIZE / 4)) 0) [] [] 0 None 0 0 [k; k] (replicate 4 (replicate 16 0)) false None board m.

(** [realize]. *)
Definition apple_aes_realize (s : AppleAESState) : outcome (option AppleAESState) := apple_aes_reset s.

Definition apple_aes_key_post_load (k : AESKey) : outcome AESKey :=
  let k := k <| cipher := None |> in
  if negb (select k =? KEY_SELECT_SOFTWARE) then Done (k <| disabled := true |>)
  else
    match qcrypto_cipher_new (algo k) (key_mode (mode k)) (take (Z.to_nat (len k)) (key k)) with
    | None => Abort
    | Some c => Done (k <| disabled := false |> <| cipher := Some c |>)
    end.

Definition apple_aes_pre_save (s : AppleAESState) : outcome AppleAESState :=
  if negb (stopped s) then aes_stop s false else Done s.

Definition apple_aes_post_load (s : AppleAESState) : AppleAESState :=
  if negb (stopped s) then aes_start (s <| stopped := true |>) else s.

(** A device that loads the fields of [vmstate_apple_aes] that another one saved. *)
Definition vmstate_apple_aes (saved s : AppleAESState) : outcome AppleAESState :=
  ks ← mapM apple_aes_key_post_load (keys saved);
  Done (apple_aes_post_load (s <| last_level := last_level saved |> <| reg := reg saved |> <| queue := queue saved |>
    <| command := command saved |> <| data_len := data_len saved |> <| data_read := data_read saved |>
    <| keys := ks |> <| iv := iv saved |> <| stopped := stopped saved |>)).

(** ** Events *)
Inductive event := Write (addr dat : Z) | Run (i : nat).

(** [None] when the event has to wait: accesses are one at a time, and none begins while a
    join is under way. *)
Definition aes_event (s : AppleAESState) (e : event) : outcome (option AppleAESState) :=
  match e with
  | Write addr dat => match joining s with None => aes_reg_write s addr dat | Some _ => Done None end
  | Run i => aes_thread s i
  end.

(** The guest has words for the FIFO; it writes the next one or a thread runs. *)
Inductive step : AppleAESState * list Z -> AppleAESState * list Z -> Prop :=
  | step_guest s w ws s' : aes_event s (Write REG_AES_COMMAND_FIFO w) = Done (Some s') -> step (s, w :: ws) (s', ws)
  | step_thread s i ws s' : aes_event s (Run i) = Done (Some s') -> step (s, ws) (s', ws).

(** The commands one after the other, which is what the device is for. *)
Fixpoint aes_sequential (s : AppleAESState) (cmds : list AESCommand) : outcome AppleAESState :=
  match cmds with
  | [] => Done s
  | c :: cmds => s ← aes_process_command s c; aes_sequential s cmds
  end.
End Aes.
