(* ===== verification/AesSpec.v ===== *)
(** * What the AES engine computes

    Commands come in word by word while a thread works on earlier ones: in every order of
    the two the engine does what the commands do one after the other ([aes_in_order]), a
    text that is encrypted and decrypted comes back ([aes_roundtrip]), and the interrupt
    line follows the registers ([aes_line]).  Where the code departs from that is in the
    last part. *)

From S2P Require Import Prelude Bitops CString Cipher CipherModes Aes.

Section AesSpec.
Context `{Nettle} {M : Type} `{DmaSpace M}.

Implicit Types s : AppleAESState (M := M).

(** ** Registers *)

Definition regs_ok s : Prop := zlen (reg s) = AES_BLK_REG_SIZE / 4.

Lemma get_put_same s a v : regs_ok s -> 0 <= a < AES_BLK_REG_SIZE -> get (put s a v) a = v.
Proof.
  unfold regs_ok, get, put, zlen, AES_BLK_REG_SIZE. intros Hl Ha. cbn. apply nth_lookup_Some.
  apply list_lookup_insert_eq. change (0x204 / 4) with 129 in Hl.
  pose proof (Z.shiftr_nonneg a 2). rewrite Z.shiftr_div_pow2 in * by lia. change (2 ^ 2) with 4 in *.
  pose proof (Z.div_lt_upper_bound a 4 129). lia.
Qed.

Lemma get_put_other s a b v : 0 <= a -> 0 <= b -> a .>> 2 <> b .>> 2 -> get (put s a v) b = get s b.
Proof.
  intros Ha Hb Hn. unfold get, put. cbn. rewrite !nth_lookup, list_lookup_insert_ne; [done|].
  pose proof (proj2 (Z.shiftr_nonneg a 2) Ha). pose proof (proj2 (Z.shiftr_nonneg b 2) Hb). lia.
Qed.

Lemma put_regs_ok s a v : regs_ok s -> regs_ok (put s a v).
Proof. unfold regs_ok, put. cbn. by rewrite zlen_insert. Qed.

Lemma set_int_regs_ok s n b : regs_ok s -> regs_ok (set_int s n b).
Proof. apply put_regs_ok. Qed.

Lemma testbit_assign_bit w n b i : 0 <= n -> 0 <= i -> Z.testbit (assign_bit w n b) i = if i =? n then b else Z.testbit w i.
Proof.
  intros Hn Hi. unfold assign_bit. rewrite (Z.eqb_sym i n).
  destruct b; rewrite ?Z.lor_spec, ?Z.ldiff_spec, testbit_BIT by done; destruct (n =? i), (Z.testbit w i); done.
Qed.

Lemma extract_assign w n b : 0 <= n < 8 -> extract32 (assign_bit w n b) 8 8 = extract32 w 8 8.
Proof.
  intros Hn. apply Z.bits_inj'. intros i Hi. rewrite !testbit_extract32 by done.
  rewrite testbit_assign_bit by lia. by rewrite (proj2 (Z.eqb_neq (i + 8) n)) by lia.
Qed.

Lemma level_set_level s v : regs_ok s -> level (set_level s v) = u8 v.
Proof.
  intros Hs. unfold level, set_level. rewrite get_put_same by done.
  rewrite extract32_deposit32_same by done. unfold u8, wrap. by rewrite Z.mod_mod.
Qed.

(** What commands compute with, and what carries them to the thread. *)
Definition core s := (keys s, iv s, mem s).
Definition wiring s := (threads s, queue s, (command s, data s, data_len s, data_read s), joining s).

(** Only registers and the line differ. *)
Definition same_but_regs s s' : Prop := core s' = core s /\ wiring s' = wiring s /\ stopped s' = stopped s.

Lemma update_irq_regs s : reg (aes_update_irq s) = reg s /\ same_but_regs s (aes_update_irq s).
Proof. unfold aes_update_irq. by repeat case_match. Qed.

Lemma get_update_irq s a : get (aes_update_irq s) a = get s a.
Proof. unfold get. by rewrite (proj1 (update_irq_regs s)). Qed.

Lemma update_status_frame s : same_but_regs s (aes_update_command_fifo_status s).
Proof. unfold aes_update_command_fifo_status. unfold aes_update_irq. by repeat case_match. Qed.

Lemma update_status_regs s : regs_ok s -> regs_ok (aes_update_command_fifo_status s).
Proof.
  intros Hs. unfold aes_update_command_fifo_status, regs_ok. rewrite (proj1 (update_irq_regs _)).
  by apply set_int_regs_ok, put_regs_ok.
Qed.

Lemma update_status_level s : regs_ok s -> level (aes_update_command_fifo_status s) = level s.
Proof.
  intros Hs. unfold aes_update_command_fifo_status. cbv zeta. set (l := level s).
  unfold level. rewrite get_update_irq. unfold set_int. rewrite get_put_other, get_put_same by done.
  by rewrite !extract_assign by lia.
Qed.

(** ** Processing *)

Lemma put_key_core s ctx k s' : put_key s ctx k = Done s' ->
  exists l, aset (keys s) ctx k = Done l /\ s' = s <| keys := l |>.
Proof. unfold put_key. intros (l & Hl & [= <-])%bind_Done_inv. eauto. Qed.

Lemma put_iv_core s ctx v s' : put_iv s ctx v = Done s' ->
  exists l, aset (iv s) ctx v = Done l /\ s' = s <| iv := l |>.
Proof. unfold put_iv. intros (l & Hl & [= <-])%bind_Done_inv. eauto. Qed.


Definition stop_flag (c : Z) : bool := (COMMAND_OPCODE c =? OPCODE_FLAG) && nonzero (c .& COMMAND_FLAG_STOP_COMMANDS).

(** A command changes the core by what is in the core; of the registers it leaves the
    level, and only one flag command stops the thread. *)
Record processed s s' (cmd : AESCommand) : Prop := {
  pr_wiring : wiring s' = wiring s;
  pr_line : (irq s', last_level s') = (irq s, last_level s);
  pr_level : get s' REG_AES_COMMAND_FIFO_STATUS = get s REG_AES_COMMAND_FIFO_STATUS;
  pr_regs : length (reg s') = length (reg s);
  pr_stopped : stopped s' = stopped s || stop_flag (c_command cmd);
}.

Definition same_core (o o' : outcome (AppleAESState (M := M))) : Prop :=
  match o, o' with Done s, Done s' => core s = core s' | Abort, Abort | Oob, Oob | NoFuel, NoFuel => True | _, _ => False end.

Lemma core_inv s s' : core s = core s' -> keys s = keys s' /\ iv s = iv s' /\ mem s = mem s'.
Proof. unfold core. by intros [= -> -> ->]. Qed.

Lemma wiring_inv s s' : wiring s' = wiring s -> threads s' = threads s /\ queue s' = queue s /\ command s' = command s /\
  data s' = data s /\ data_len s' = data_len s /\ data_read s' = data_read s /\ joining s' = joining s.
Proof. unfold wiring. by intros [= -> -> -> -> -> -> ->]. Qed.

Lemma processed_set_int s n b cmd : stop_flag (c_command cmd) = false -> processed s (set_int s n b) cmd.
Proof.
  intros E. split; [done|done| | |].
  - unfold set_int. by rewrite get_put_other.
  - unfold set_int, put. cbn. by rewrite length_insert.
  - rewrite E, orb_false_r. done.
Qed.

Lemma bind_same_core {A} (o : outcome A) f g : (forall x, same_core (f x) (g x)) -> same_core (x ← o; f x) (x ← o; g x).
Proof. intros Hf. by destruct o; cbn. Qed.

Lemma bind_states o o' f g : same_core o o' -> (forall s s', core s = core s' -> same_core (f s) (g s')) ->
  same_core (x ← o; f x) (x ← o'; g x).
Proof. intros Ho Hf. destruct o, o'; cbn in *; try done. by apply Hf. Qed.

Lemma put_key_same s s' ctx k : core s = core s' -> same_core (put_key s ctx k) (put_key s' ctx k).
Proof. intros (E1 & E2 & E3)%core_inv. unfold put_key. rewrite E1. apply bind_same_core. intros l. cbn. unfold core. cbn. congruence. Qed.

Lemma put_iv_same s s' ctx v : core s = core s' -> same_core (put_iv s ctx v) (put_iv s' ctx v).
Proof. intros (E1 & E2 & E3)%core_inv. unfold put_iv. rewrite E2. apply bind_same_core. intros l. cbn. unfold core. cbn. congruence. Qed.

Lemma process_key_same s s' cmd : core s = core s' -> same_core (process_key s cmd) (process_key s' cmd).
Proof.
  intros E. pose proof (core_inv _ _ E) as (E1 & E2 & E3). unfold process_key. rewrite E1.
  do 3 (apply bind_same_core; intros ?). cbv zeta. case_match; [by apply put_key_same|].
  case_match; [by apply put_key_same|done].
Qed.

Lemma process_data_same s s' cmd : core s = core s' -> same_core (process_data s cmd) (process_data s' cmd).
Proof.
  intros E. pose proof (core_inv _ _ E) as (E1 & E2 & E3). unfold process_data. rewrite E1, E2, E3.
  do 4 (apply bind_same_core; intros ?). cbv zeta. case_match; [done|].
  apply bind_same_core; intros k. case_match; [done|]. case_match; [|done].
  apply bind_same_core; intros v. apply bind_same_core; intros [? ?]. apply bind_same_core; intros [[[? ?] ?] ?].
  apply bind_same_core; intros [? ?]. apply bind_states; [by apply put_key_same|]. intros s1 s1' E'.
  apply bind_states; [by apply put_iv_same|]. intros s2 s2' (?&?&?)%core_inv. unfold core. cbn. unfold core. cbn. congruence.
Qed.

Lemma process_same s s' cmd : core s = core s' -> same_core (aes_process_command s cmd) (aes_process_command s' cmd).
Proof.
  intros E. pose proof (core_inv _ _ E) as (E1 & E2 & E3). unfold aes_process_command. cbv zeta.
  case_match; [by apply process_key_same|]. case_match.
  { apply bind_same_core. intros v. by apply put_iv_same. }
  case_match; [done|]. case_match; [by apply process_data_same|]. case_match.
  { unfold process_store_iv. rewrite E2. do 3 (apply bind_same_core; intros ?). unfold core. cbn. unfold core. cbn. congruence. }
  case_match; [|done]. unfold process_flag. cbn. by repeat case_match.
Qed.

Ltac invb H := let x := fresh "x" in let Hx := fresh "Hx" in apply bind_Done_inv in H; destruct H as (x & Hx & H).

Lemma process_key_frame s cmd s' : COMMAND_OPCODE (c_command cmd) = OPCODE_KEY -> process_key s cmd = Done s' -> processed s s' cmd.
Proof.
  intros Eo Hp. unfold process_key in Hp. do 3 invb Hp. cbv zeta in Hp.
  assert (stop_flag (c_command cmd) = false) as Es by (unfold stop_flag; by rewrite Eo).
  assert (exists r l, s' = s <| reg := r |> <| keys := l |> /\ length r = length (reg s) /\
    get (s <| reg := r |>) REG_AES_COMMAND_FIFO_STATUS = get s REG_AES_COMMAND_FIFO_STATUS) as (r & l & -> & Hr & Hg).
  { repeat case_match; try done; apply put_key_core in Hp; destruct Hp as (l & _ & ->); eexists _, l; (split; [reflexivity|]);
      (split; [cbn; by rewrite !length_insert|]); unfold get; cbn; rewrite !nth_lookup, !list_lookup_insert_ne by done; done. }
  split; [done|done|done|done|]. cbn. by rewrite Es, orb_false_r.
Qed.

Lemma process_data_frame s cmd s' : COMMAND_OPCODE (c_command cmd) = OPCODE_DATA -> process_data s cmd = Done s' -> processed s s' cmd.
Proof.
  intros Eo Hp. assert (stop_flag (c_command cmd) = false) as Es by (unfold stop_flag; by rewrite Eo).
  unfold process_data in Hp. do 4 invb Hp. cbv zeta in Hp. case_match; [injection Hp as <-; by apply processed_set_int|].
  invb Hp. case_match; [injection Hp as <-; by apply processed_set_int|].
  case_match; [|injection Hp as <-; by apply processed_set_int]. invb Hp.
  invb Hp. case_match. invb Hp. repeat case_match. invb Hp. case_match. invb Hp. invb Hp. injection Hp as <-.
  apply put_key_core in Hx8 as (? & _ & ->). apply put_iv_core in Hx9 as (? & _ & ->).
  split; [done|done|done|done|]. cbn. by rewrite Es, orb_false_r.
Qed.

Lemma processed_regs s s' cmd : stop_flag (c_command cmd) = false -> wiring s' = wiring s -> reg s' = reg s -> stopped s' = stopped s ->
  (irq s', last_level s') = (irq s, last_level s) -> processed s s' cmd.
Proof. intros E1 E2 E3 E4 E5. split; [done|done|unfold get; by rewrite E3|by rewrite E3|]. by rewrite E1, E4, orb_false_r. Qed.

Lemma process_flag_frame s cmd : COMMAND_OPCODE (c_command cmd) = OPCODE_FLAG -> processed s (process_flag s cmd) cmd.
Proof.
  intros Eo. unfold process_flag, set_int, stop_flag. cbv zeta.
  split; repeat case_match; rewrite ?get_put_other by done; try done; cbn; rewrite ?length_insert; try done.
  all: try (unfold get; cbn; by rewrite !nth_lookup, !list_lookup_insert_ne by done).
  all: unfold stop_flag; rewrite Eo, ?Z.eqb_refl; cbn [andb]; first [by rewrite orb_true_r by congruence|idtac].
  all: match goal with E : nonzero (_ .& COMMAND_FLAG_STOP_COMMANDS) = _ |- _ => rewrite E end; by rewrite ?orb_true_r, ?orb_false_r.
Qed.

Lemma process_frame s cmd s' : aes_process_command s cmd = Done s' -> processed s s' cmd.
Proof.
  assert (forall op, COMMAND_OPCODE (c_command cmd) = op -> op <> OPCODE_FLAG -> stop_flag (c_command cmd) = false) as Hst.
  { intros op Eo Hn. unfold stop_flag. by rewrite (proj2 (Z.eqb_neq _ _)) by congruence. }
  unfold aes_process_command. cbv zeta. destruct (Z.eqb_spec (COMMAND_OPCODE (c_command cmd)) OPCODE_KEY) as [Eo|]; [by apply process_key_frame|].
  destruct (Z.eqb_spec (COMMAND_OPCODE (c_command cmd)) OPCODE_IV) as [Eo|].
  { intros Hp. invb Hp. apply put_iv_core in Hp as (? & _ & ->). by apply processed_regs; [apply (Hst _ Eo)|..]. }
  destruct (Z.eqb_spec (COMMAND_OPCODE (c_command cmd)) OPCODE_DSB) as [Eo|].
  { intros [= <-]. by apply processed_regs; [apply (Hst _ Eo)|..]. }
  destruct (Z.eqb_spec (COMMAND_OPCODE (c_command cmd)) OPCODE_DATA) as [Eo|]; [by apply process_data_frame|].
  destruct (Z.eqb_spec (COMMAND_OPCODE (c_command cmd)) OPCODE_STORE_IV) as [Eo|].
  { unfold process_store_iv. intros Hp. do 3 invb Hp. injection Hp as <-. by apply processed_regs; [apply (Hst _ Eo)|..]. }
  destruct (Z.eqb_spec (COMMAND_OPCODE (c_command cmd)) OPCODE_FLAG) as [Eo|].
  { intros [= <-]. by apply process_flag_frame. }
  intros [= <-]. apply processed_set_int. unfold stop_flag. by rewrite (proj2 (Z.eqb_neq _ _)).
Qed.

(** ** Commands that are in order *)

Definition cipher_ok (c : QCryptoCipher) : Prop :=
  (drv c = driver_cbc \/ drv c = driver_ctr) /\ (alg c = ALGO_AES_128 \/ alg c = ALGO_AES_192 \/ alg c = ALGO_AES_256).

Definition key_ok (k : AESKey) : Prop := zlen (key k) = 32 /\ (forall c, cipher k = Some c -> cipher_ok c).

Record core_ok s : Prop := {
  co_keys : zlen (keys s) = 2;
  co_key : Forall key_ok (keys s);
  co_ivs : zlen (iv s) = 4;
  co_iv : Forall (fun v => zlen v = 16) (iv s);
}.

Lemma cipher_ok_BLEN c : cipher_ok c -> BLEN c = 16.
Proof. unfold cipher_ok, BLEN. intros [_ [-> | [-> | ->]]]; done. Qed.

Lemma length_word_array l : zlen (word_array l) = 4 * zlen l.
Proof.
  unfold word_array, zlen. induction l as [|w l IH]; [done|].
  rewrite fmap_cons. cbn [concat]. rewrite length_app, length_le_split. cbn [length]. lia.
Qed.

Lemma slice_words w l n : n = 4 * zlen l -> slice (word_array (w :: l)) 4 n = Done (word_array l).
Proof.
  intros ->. rewrite slice_in_range; [|lia|unfold zlen; lia|rewrite length_word_array; unfold zlen; cbn [length]; lia].
  f_equal. unfold word_array at 1. rewrite fmap_cons. cbn [concat].
  change (Z.to_nat 4) with (length (le_split 4 w)). rewrite drop_app_length.
  apply take_ge. rewrite <- length_word_array. unfold zlen, word_array. lia.
Qed.

(** A key header for a software key that a cipher with a vector takes. *)
Record key_header (w : Z) : Prop := {
  kh_op : COMMAND_OPCODE w = OPCODE_KEY;
  kh_select : COMMAND_KEY_COMMAND_KEY_SELECT w = KEY_SELECT_SOFTWARE;
  kh_length : COMMAND_KEY_COMMAND_KEY_LENGTH w = KEY_LEN_128 \/ COMMAND_KEY_COMMAND_KEY_LENGTH w = KEY_LEN_192 \/
    COMMAND_KEY_COMMAND_KEY_LENGTH w = KEY_LEN_256;
  kh_mode : COMMAND_KEY_COMMAND_BLOCK_MODE w = BLOCK_MODE_CBC \/ COMMAND_KEY_COMMAND_BLOCK_MODE w = BLOCK_MODE_CTR;
}.

(** The cipher such a command sets up. *)
Definition key_cipher (w : Z) (kw : list Z) : QCryptoCipher :=
  let m := key_mode (COMMAND_KEY_COMMAND_BLOCK_MODE w) in
  mkCipher (key_algo (COMMAND_KEY_COMMAND_KEY_LENGTH w)) m (if m =? MODE_CBC then driver_cbc else driver_ctr) (word_array kw) [] (replicate 16 0).

Definition header_words (w : Z) : Z := key_size (COMMAND_KEY_COMMAND_KEY_LENGTH w) / 8 / 4.

Lemma key_header_cipher w kw : key_header w -> zlen kw = header_words w ->
  qcrypto_cipher_new (key_algo (COMMAND_KEY_COMMAND_KEY_LENGTH w)) (key_mode (COMMAND_KEY_COMMAND_BLOCK_MODE w)) (word_array kw) = Some (key_cipher w kw).
Proof.
  intros [_ _ Hl Hm] Hk. unfold qcrypto_cipher_new, qcrypto_cipher_ctx_new, key_cipher, header_words in *. rewrite length_word_array, Hk.
  by destruct Hl as [-> | [-> | ->]], Hm as [-> | ->].
Qed.

Lemma key_cipher_ok w kw : key_header w -> cipher_ok (key_cipher w kw).
Proof. intros [_ _ Hl Hm]. unfold cipher_ok, key_cipher. destruct Hl as [-> | [-> | ->]], Hm as [-> | ->]; cbn; auto. Qed.

Lemma header_words_bound w : key_header w -> key_size (COMMAND_KEY_COMMAND_KEY_LENGTH w) / 8 = 4 * header_words w /\ header_words w <= 8.
Proof. intros [_ _ Hl _]. unfold header_words. by destruct Hl as [-> | [-> | ->]]. Qed.

Lemma land_bit x : 0 <= x .& 1 < 2.
Proof. pose proof (Z.land_ones x 1 ltac:(lia)) as E. change (Z.ones 1) with 1 in E. rewrite E. by apply Z.mod_pos_bound. Qed.

Lemma land_two x : 0 <= x .& 3 < 4.
Proof. change 3 with (Z.ones 2). rewrite !Z.land_ones by lia. by apply Z.mod_pos_bound. Qed.

Lemma aset_keys {A} (l : list A) i x n : zlen l = n -> 0 <= i < n -> aset l i x = Done (<[Z.to_nat i := x]> l).
Proof. intros <-. apply aset_in_range. Qed.

(** A key command of this kind. *)
Lemma process_key_good s w kw : core_ok s -> key_header w -> zlen kw = header_words w ->
  exists s' k, aes_process_command s (mkCommand w (w :: kw)) = Done s' /\
    keys s' = <[Z.to_nat (COMMAND_KEY_COMMAND_KEY_CONTEXT w) := k]> (keys s) /\ iv s' = iv s /\ mem s' = mem s /\
    key_ok k /\ disabled k = false /\ cipher k = Some (key_cipher w kw) /\ encrypt k = nonzero (w .& COMMAND_KEY_COMMAND_ENCRYPT).
Proof.
  intros Hs Hw Hk. pose proof (header_words_bound w Hw) as [Hn H8]. pose proof (land_bit (w .>> 27)) as Hc.
  fold (COMMAND_KEY_COMMAND_KEY_CONTEXT w) in Hc. destruct (aget_in_range (keys s) (COMMAND_KEY_COMMAND_KEY_CONTEXT w)) as [k Hg].
  { rewrite (co_keys s Hs). lia. }
  assert (zlen (key k) = 32) as H32.
  { apply aget_Done in Hg as [_ Hg]. apply (Forall_lookup_1 _ _ _ _ (co_key s Hs) Hg). }
  unfold aes_process_command. cbn [c_command c_data]. rewrite (kh_op w Hw). change (OPCODE_KEY =? OPCODE_KEY) with true.
  cbv iota zeta. unfold process_key. cbn [c_command c_data]. rewrite Hg. run. rewrite slice_words by lia. run.
  rewrite blit_front by (rewrite length_word_array; lia). run. cbv zeta. cbn.
  rewrite (kh_select w Hw). change (negb (KEY_SELECT_SOFTWARE =? KEY_SELECT_SOFTWARE)) with false. cbv iota.
  rewrite Hn, take_app_le, take_ge by (pose proof (length_word_array kw); unfold zlen in *; lia).
  rewrite key_header_cipher by done. unfold put_key. cbn. rewrite (aset_keys _ _ _ 2) by (done || apply (co_keys s Hs)). cbn.
  eexists _, _. split; [reflexivity|]. do 3 (split; [done|]). split; [|done]. split.
  - cbn. pose proof (length_word_array kw). unfold zlen in *. rewrite length_app, length_drop. lia.
  - cbn. intros c [= <-]. by apply key_cipher_ok.
Qed.

Lemma core_ok_key s s' i k : core_ok s -> keys s' = <[i := k]> (keys s) -> iv s' = iv s -> key_ok k -> core_ok s'.
Proof.
  intros [Hk Hf Hi Hv] Ek Ei Hn. split; rewrite ?Ek, ?Ei; try done; [by rewrite zlen_insert|by apply Forall_insert].
Qed.

Lemma core_ok_iv s s' i v : core_ok s -> keys s' = keys s -> iv s' = <[i := v]> (iv s) -> zlen v = 16 -> core_ok s'.
Proof.
  intros [Hk Hf Hi Hv] Ek Ei Hn. split; rewrite ?Ek, ?Ei; try done; [by rewrite zlen_insert|by apply Forall_insert].
Qed.

Lemma core_ok_core s s' : core_ok s -> core s = core s' -> core_ok s'.
Proof. intros [Hk Hf Hi Hv] (E1 & E2 & _)%core_inv. split; congruence. Qed.

(** A vector command. *)
Lemma process_iv_good s w vw : core_ok s -> COMMAND_OPCODE w = OPCODE_IV -> zlen vw = 4 ->
  exists s', aes_process_command s (mkCommand w (w :: vw)) = Done s' /\
    keys s' = keys s /\ iv s' = <[Z.to_nat (COMMAND_IV_COMMAND_IV_CONTEXT w) := word_array vw]> (iv s) /\ mem s' = mem s.
Proof.
  intros Hs Ho Hv. pose proof (land_two (w .>> 26)) as Hc. fold (COMMAND_IV_COMMAND_IV_CONTEXT w) in Hc.
  unfold aes_process_command. cbn [c_command c_data]. rewrite Ho. change (OPCODE_IV =? OPCODE_KEY) with false.
  change (OPCODE_IV =? OPCODE_IV) with true. cbv iota zeta. rewrite slice_words by lia. run. unfold put_iv.
  rewrite (aset_keys _ _ _ 4) by (done || apply (co_ivs s Hs)). run. eexists. by split.
Qed.

(** ** Ciphers at work *)

Context `{!NettleLaws}.

Lemma driver_crypt_ok enc c b : cipher_ok c -> cipher_ok (driver_crypt enc c b).1 /\
  zlen (ctx_iv (driver_crypt enc c b).1) = zlen (ctx_iv c) /\ BLEN (driver_crypt enc c b).1 = BLEN c /\ drv (driver_crypt enc c b).1 = drv c.
Proof.
  intros Hc. assert (forall v, cipher_ok (c <| ctx_iv := v |>)) as Hv by (intros v; exact Hc).
  unfold driver_crypt. destruct Hc as [[Ed | Ed] Ha]; rewrite Ed; unfold zlen.
  - destruct enc.
    + pose proof (cbc_iv (ENCRYPT c) (BLEN c) (ctx_iv c) b) as [E _]. destruct (cbc_encrypt _ _ _ _). cbn in *. split; [apply Hv|by rewrite E].
    + pose proof (cbc_iv (DECRYPT c) (BLEN c) (ctx_iv c) b) as [_ E]. destruct (cbc_decrypt _ _ _ _). cbn in *. split; [apply Hv|by rewrite E].
  - pose proof (ctr_iv (ENCRYPT c) (BLEN c) (ctx_iv c) b) as E. destruct (ctr_crypt _ _ _ _). cbn in *. split; [apply Hv|by rewrite E].
Qed.

(** The three calls of a data command with one error variable. *)
Lemma cipher_calls enc c v b : cipher_ok c -> zlen v = 16 -> nonzero (zlen b .& 15) = false ->
  let r := driver_crypt enc (c <| ctx_iv := v |>) b in
  qcrypto_cipher_setiv c v false = Done (c <| ctx_iv := v |>, false) /\
  qcrypto_cipher_crypt enc (c <| ctx_iv := v |>) b false = Done (r.1, r.2, 0, false) /\
  qcrypto_cipher_getiv r.1 16 false = Done (Some (ctx_iv r.1), false).
Proof.
  intros Hc Hv Hb r. assert (cipher_ok (c <| ctx_iv := v |>)) as Hc' by done.
  destruct (driver_crypt_ok enc _ b Hc') as (Hr & _ & HB & Hd). fold r in Hr, HB, Hd.
  pose proof (cipher_ok_BLEN c Hc) as H16. split; [|split].
  - unfold qcrypto_cipher_setiv, NAME_setiv. rewrite Hv, H16. by destruct Hc as [[-> | ->] _].
  - unfold qcrypto_cipher_crypt, qcrypto_length_check. rewrite (cipher_ok_BLEN _ Hc'). change (16 - 1) with 15. rewrite Hb.
    cbn [negb]. by rewrite (surjective_pairing (driver_crypt enc _ b)).
  - unfold qcrypto_cipher_getiv, NAME_getiv. rewrite (cipher_ok_BLEN _ Hr). by destruct Hr as [[-> | ->] _].
Qed.

(** ** Data commands *)

Definition data_source (w1 w2 : Z) : Z := w2 .| (COMMAND_DATA_UPPER_ADDR_SOURCE w1 .<< 32).
Definition data_dest (w1 w3 : Z) : Z := w3 .| (COMMAND_DATA_UPPER_ADDR_DEST w1 .<< 32).
Definition data_text s (w0 w1 w2 : Z) : bytes := dma_memory_read (mem s) (data_source w1 w2) (Z.to_nat (COMMAND_DATA_COMMAND_LENGTH w0)).

Lemma data_text_blocks s w0 w1 w2 : zlen (data_text s w0 w1 w2) = COMMAND_DATA_COMMAND_LENGTH w0.
Proof.
  unfold data_text, zlen. rewrite dma_memory_read_length, Z2Nat.id; [done|]. apply Z.land_nonneg. by right.
Qed.

(** A data command with its words read. *)
Lemma data_words s w0 w1 w2 w3 : COMMAND_OPCODE w0 = OPCODE_DATA ->
  aes_process_command s (mkCommand w0 [w0; w1; w2; w3]) =
  if nonzero (COMMAND_DATA_COMMAND_LENGTH w0 .& 0xf) then Done (set_int s INT_INVALID_DATA_LENGTH true)
  else
    k ← aget (keys s) (COMMAND_DATA_COMMAND_KEY_CONTEXT w0);
    match disabled k, cipher k with
    | false, Some c =>
        v ← aget (iv s) (COMMAND_DATA_COMMAND_IV_CONTEXT w0);
        '(c, errp) ← qcrypto_cipher_setiv c v false;
        '(c, buffer, _, errp) ← qcrypto_cipher_crypt (encrypt k) c (data_text s w0 w1 w2) errp;
        '(v', _) ← qcrypto_cipher_getiv c 16 errp;
        s ← put_key s (COMMAND_DATA_COMMAND_KEY_CONTEXT w0) (k <| cipher := Some c |>);
        s ← put_iv s (COMMAND_DATA_COMMAND_IV_CONTEXT w0) (default v v');
        Done (s <| mem ::= fun m => dma_memory_write m (data_dest w1 w3) buffer |>)
    | _, _ => Done (set_int s (INT_KEY_DISABLED (COMMAND_DATA_COMMAND_KEY_CONTEXT w0)) true)
    end.
Proof. intros Ho. unfold aes_process_command. cbn [c_command c_data]. by rewrite Ho. Qed.

Lemma process_data_run s w0 w1 w2 w3 k c v :
  core_ok s -> COMMAND_OPCODE w0 = OPCODE_DATA -> nonzero (COMMAND_DATA_COMMAND_LENGTH w0 .& 0xf) = false ->
  aget (keys s) (COMMAND_DATA_COMMAND_KEY_CONTEXT w0) = Done k -> disabled k = false -> cipher k = Some c ->
  aget (iv s) (COMMAND_DATA_COMMAND_IV_CONTEXT w0) = Done v ->
  let r := driver_crypt (encrypt k) (c <| ctx_iv := v |>) (data_text s w0 w1 w2) in
  exists s', aes_process_command s (mkCommand w0 [w0; w1; w2; w3]) = Done s' /\
    keys s' = <[Z.to_nat (COMMAND_DATA_COMMAND_KEY_CONTEXT w0) := k <| cipher := Some r.1 |>]> (keys s) /\
    iv s' = <[Z.to_nat (COMMAND_DATA_COMMAND_IV_CONTEXT w0) := ctx_iv r.1]> (iv s) /\
    mem s' = dma_memory_write (mem s) (data_dest w1 w3) r.2.
Proof.
  intros Hs Ho Hn Hk Hd Hc Hv r. pose proof (land_bit (w0 .>> 27)) as B1. pose proof (land_two (w0 .>> 25)) as B2.
  fold (COMMAND_DATA_COMMAND_KEY_CONTEXT w0) in B1. fold (COMMAND_DATA_COMMAND_IV_CONTEXT w0) in B2.
  assert (cipher_ok c) as Hok.
  { apply aget_Done in Hk as [_ Hk]. by apply (Forall_lookup_1 _ _ _ _ (co_key s Hs) Hk). }
  assert (zlen v = 16) as Hv16.
  { apply aget_Done in Hv as [_ Hv]. by apply (Forall_lookup_1 _ _ _ _ (co_iv s Hs) Hv). }
  destruct (cipher_calls (encrypt k) c v (data_text s w0 w1 w2) Hok Hv16) as (C1 & C2 & C3); [by rewrite data_text_blocks|].
  rewrite data_words by done. rewrite Hn, Hk. run. rewrite Hd, Hc, Hv. run. rewrite C1. run. rewrite C2. run. rewrite C3. run.
  unfold put_key, put_iv. rewrite (aset_keys _ _ _ 2) by (done || apply (co_keys s Hs)). run. cbn.
  rewrite (aset_keys _ _ _ 4) by (done || apply (co_ivs s Hs)). cbn. eexists. by split.
Qed.

Lemma process_data_good s w0 w1 w2 w3 : core_ok s -> COMMAND_OPCODE w0 = OPCODE_DATA ->
  exists s', aes_process_command s (mkCommand w0 [w0; w1; w2; w3]) = Done s' /\ core_ok s'.
Proof.
  intros Hs Ho. pose proof (land_bit (w0 .>> 27)) as B1. pose proof (land_two (w0 .>> 25)) as B2.
  destruct (aget_in_range (keys s) (COMMAND_DATA_COMMAND_KEY_CONTEXT w0)) as [k Hk]; [by rewrite (co_keys s Hs)|].
  destruct (aget_in_range (iv s) (COMMAND_DATA_COMMAND_IV_CONTEXT w0)) as [v Hv]; [by rewrite (co_ivs s Hs)|].
  destruct (nonzero (COMMAND_DATA_COMMAND_LENGTH w0 .& 0xf)) eqn:En; [|destruct (disabled k) eqn:Ed; [|destruct (cipher k) as [c|] eqn:Ec]].
  3: { destruct (process_data_run s w0 w1 w2 w3 k c v Hs Ho En Hk Ed Ec Hv) as (s' & -> & E1 & E2 & E3). exists s'. split; [done|].
       apply aget_Done in Hk as [_ Hk]. apply aget_Done in Hv as [_ Hv].
       destruct (Forall_lookup_1 _ _ _ _ (co_key s Hs) Hk) as [H32 Hc]. specialize (Hc c Ec).
       destruct (driver_crypt_ok (encrypt k) (c <| ctx_iv := v |>) (data_text s w0 w1 w2)) as (Hr & Hz & _); [done|].
       eapply (core_ok_iv (s <| keys := keys s' |>) s'); [|done|exact E2|].
       - eapply (core_ok_key s); [done|exact E1|done|]. split; [done|]. by intros ? [= <-].
       - rewrite Hz. apply (Forall_lookup_1 _ _ _ _ (co_iv s Hs) Hv). }
  all: rewrite data_words by done; rewrite En.
  - eexists. split; [reflexivity|]. by apply (core_ok_core s).
  - rewrite Hk. run. rewrite Ed. eexists. split; [reflexivity|]. by apply (core_ok_core s).
  - rewrite Hk. run. rewrite Ed, Ec. eexists. split; [reflexivity|]. by apply (core_ok_core s).
Qed.

(** The words of a command that a driver of the engine would send. *)
Record good (ws : list Z) : Prop := {
  gd_words : command_words (hd 0 ws) = Some (zlen ws);
  gd_key : COMMAND_OPCODE (hd 0 ws) = OPCODE_KEY -> key_header (hd 0 ws);
  gd_flag : stop_flag (hd 0 ws) = false;
}.

Definition cmd_of (ws : list Z) : AESCommand := mkCommand (hd 0 ws) ws.

Lemma process_good s ws : core_ok s -> good ws -> exists s', aes_process_command s (cmd_of ws) = Done s' /\ core_ok s'.
Proof.
  intros Hs [Hw Hk Hf]. destruct ws as [|w ws]; [done|]. unfold cmd_of. cbn [hd] in *. unfold command_words in Hw. cbv zeta in Hw.
  destruct (Z.eqb_spec (COMMAND_OPCODE w) OPCODE_KEY) as [Eo|N1].
  { specialize (Hk Eo). rewrite (kh_select w Hk) in Hw. injection Hw as Hw. fold (header_words w) in Hw.
    destruct (process_key_good s w ws Hs Hk) as (s' & k & -> & E1 & E2 & E3 & Ok & _); [unfold zlen in *; cbn [length] in Hw; lia|].
    exists s'. split; [done|]. by apply (core_ok_key s _ _ _ Hs E1). }
  destruct (Z.eqb_spec (COMMAND_OPCODE w) OPCODE_IV) as [Eo|N2].
  { injection Hw as Hw. assert (zlen ws = 4) by (unfold zlen in *; cbn [length] in Hw; lia).
    destruct (process_iv_good s w ws Hs Eo) as (s' & -> & E1 & E2 & E3); [done|]. exists s'. split; [done|].
    apply (core_ok_iv s _ _ _ Hs E1 E2). rewrite length_word_array. lia. }
  destruct (Z.eqb_spec (COMMAND_OPCODE w) OPCODE_DATA) as [Eo|N3].
  { rewrite Eo in Hw. injection Hw as Hw.
    assert (length ws = 3%nat) as Hl by (unfold zlen in Hw; cbn [length] in Hw; lia). destruct ws as [|w1 [|w2 [|w3 [|]]]]; try done. by apply process_data_good. }
  unfold aes_process_command. cbn [c_command]. cbv zeta. rewrite (proj2 (Z.eqb_neq _ _) N1), (proj2 (Z.eqb_neq _ _) N2), (proj2 (Z.eqb_neq _ _) N3).
  destruct (Z.eqb_spec (COMMAND_OPCODE w) OPCODE_DSB); [by exists s|].
  destruct (Z.eqb_spec (COMMAND_OPCODE w) OPCODE_STORE_IV).
  { injection Hw as Hw.
    assert (length ws = 1%nat) as Hl by (unfold zlen in Hw; cbn [length] in Hw; lia). destruct ws as [|w1 [|]]; try done. unfold process_store_iv. cbn [c_data c_command].
    change (aget [w; w1] 0) with (Done w). change (aget [w; w1] 1) with (Done w1). run.
    destruct (aget_in_range (iv s) (COMMAND_STORE_IV_COMMAND_CONTEXT w)) as [v ->]; [rewrite (co_ivs s Hs); apply land_two|]. run.
    eexists. split; [reflexivity|]. by destruct Hs. }
  destruct (Z.eqb_spec (COMMAND_OPCODE w) OPCODE_FLAG).
  - eexists. split; [reflexivity|]. apply (core_ok_core s); [done|]. unfold process_flag. by repeat case_match.
  - eexists. split; [reflexivity|]. by apply (core_ok_core s).
Qed.

(** ** The FIFO *)

Lemma command_words_bound w n : command_words w = Some n -> 1 <= n <= 9.
Proof.
  unfold command_words. cbv zeta. repeat case_match; try done; intros [= <-]; try lia.
  unfold key_size. repeat case_match; done.
Qed.

Lemma good_cons c : good c -> exists w r, c = w :: r /\ 1 <= zlen c <= 9.
Proof.
  intros [Hw _ _]. pose proof (command_words_bound _ _ Hw) as B. destruct c as [|w r]; [done|]. by exists w, r.
Qed.

(** [part] of the command [c] is there. *)
Definition receiving s (part c : list Z) : Prop :=
  match part with
  | [] => data s = None /\ data_len s = 0 /\ data_read s = 0
  | _ => data s = Some (part ++ replicate (length c - length part) 0) /\ data_len s = zlen c /\ data_read s = zlen part /\ command s = hd 0 c
  end.

(** The state with [part] of [c]. *)
Definition received s (part c : list Z) :=
  s <| command := hd 0 c |> <| data_len := zlen c |> <| data := Some (part ++ replicate (length c - length part) 0) |> <| data_read := zlen part |>.

Lemma fifo_word_good s part w r c : good c -> c = part ++ w :: r -> receiving s part c ->
  fifo_word s w = Done (received s (part ++ [w]) c).
Proof.
  intros Hg Hc Hr. pose proof (good_cons c Hg) as (_ & _ & _ & B). unfold fifo_word, received.
  destruct part as [|w0 part].
  - destruct Hr as (E1 & E2 & E3). rewrite E2, E3. cbn [Z.ltb Z.compare]. cbv zeta. cbn [app] in Hc.
    replace (command_words w) with (Some (zlen c)) by (rewrite <- (gd_words c Hg), Hc; done).
    replace (replicate (Z.to_nat (zlen c)) 0) with (0 :: replicate (length r) 0)
      by (unfold zlen; rewrite Hc; cbn [length]; by rewrite Nat2Z.id).
    rewrite aset_in_range by (unfold zlen; cbn [length]; lia). run. rewrite Hc. cbn. by rewrite Nat.sub_0_r.
  - destruct Hr as (E1 & E2 & E3 & E4). rewrite E1, E2, E3.
    assert (zlen c = zlen (w0 :: part) + 1 + zlen r) as El by (rewrite Hc; unfold zlen; rewrite length_app; cbn [length]; lia).
    rewrite (proj2 (Z.ltb_lt _ _)) by (unfold zlen in *; lia).
    replace (length c - length (w0 :: part))%nat with (S (length r)) by (unfold zlen in El; lia). cbn [replicate].
    rewrite aset_in_range by (unfold zlen; rewrite length_app; cbn [length]; lia).
    replace (Z.to_nat (zlen (w0 :: part))) with (length (w0 :: part) + 0)%nat by (unfold zlen; lia).
    assert (u32 (zlen (w0 :: part) + 1) = zlen ((w0 :: part) ++ [w])) as E5.
    { rewrite wrap_small by (unfold in_width; change (2 ^ 32) with 4294967296; unfold zlen in *; lia).
      unfold zlen. rewrite length_app. cbn [length]. lia. }
    rewrite insert_app_r. run. replace (length c - length ((w0 :: part) ++ [w]))%nat with (length r) by (unfold zlen in El; rewrite length_app; cbn [length] in *; lia).
    rewrite <- (assoc_L (++)). rewrite <- E5, <- E2, <- E3, <- E4. by destruct s.
Qed.

(** The last word of a command, with the lock of the queue, and a word before it. *)
Lemma fifo_enqueue_whole s c : queue_free s = true ->
  fifo_enqueue (received s c c) = Some (qemu_cond_signal (s <| command := 0 |> <| data := None |> <| data_len := 0 |> <| data_read := 0 |>
    <| queue ::= fun q => q ++ [cmd_of c] |>)).
Proof.
  intros Hq. unfold fifo_enqueue, received, queue_free in *. cbn. by rewrite Z.leb_refl, Nat.sub_diag, app_nil_r, Hq.
Qed.

Lemma fifo_enqueue_part s part c : (length part < length c)%nat -> fifo_enqueue (received s part c) = Some (received s part c).
Proof. intros Hl. unfold fifo_enqueue, received. cbn. by rewrite (proj2 (Z.leb_gt _ _)) by (unfold zlen; lia). Qed.

(** The write of a word that belongs to a command. *)
Lemma fifo_event s part w r c : joining s = None -> in_width 32 w -> good c -> c = part ++ w :: r -> receiving s part c ->
  aes_event s (Write REG_AES_COMMAND_FIFO w) =
  Done (s ← fifo_enqueue (received s (part ++ [w]) c); Some (aes_update_command_fifo_status (set_level s (level s + 1)))).
Proof.
  intros Hj Hw Hg Hc Hr. cbn [aes_event]. rewrite Hj. unfold aes_reg_write. cbv zeta. rewrite wrap_small by done.
  change (AES_BLK_REG_SIZE <=? REG_AES_COMMAND_FIFO) with false. change (read_only REG_AES_COMMAND_FIFO) with false.
  change (REG_AES_COMMAND_FIFO =? REG_AES_INT_STATUS) with false. change (REG_AES_COMMAND_FIFO =? REG_AES_INT_ENABLE) with false.
  change (REG_AES_COMMAND_FIFO =? REG_AES_WATERMARKS) with false. change (REG_AES_COMMAND_FIFO =? REG_AES_CONTROL) with false.
  change ((REG_AES_COMMAND_FIFO =? REG_AES_COMMAND_FIFO_S8000) || (REG_AES_COMMAND_FIFO =? REG_AES_COMMAND_FIFO)) with true. cbv iota.
  assert ((data_len s <=? data_read s) && bool_decide (command_words w = None) = false) as ->.
  { apply andb_false_iff. destruct part as [|w0 part].
    - right. apply bool_decide_eq_false. cbn [app] in Hc. pose proof (gd_words c Hg) as E. rewrite Hc in E. cbn [hd] in E. by rewrite E.
    - left. destruct Hr as (_ & -> & -> & _). apply Z.leb_gt. rewrite Hc. unfold zlen. rewrite length_app. cbn [length]. lia. }
  unfold fifo_write. rewrite (fifo_word_good s part w r c) by done. run.
  destruct (fifo_enqueue _); done.
Qed.

(** ** The invariant *)

Lemma bump s v : regs_ok s -> let s' := aes_update_command_fifo_status (set_level s v) in
  same_but_regs s s' /\ regs_ok s' /\ level s' = u8 v.
Proof.
  intros Hs s'. assert (regs_ok (set_level s v)) as Hr by by apply put_regs_ok. split; [|split].
  - apply (update_status_frame (set_level s v)).
  - by apply update_status_regs.
  - unfold s'. rewrite update_status_level by done. by apply level_set_level.
Qed.

(** The command a thread holds; one that returned is not in these runs. *)
Definition holds (t : thread) (held : list (list Z)) : Prop :=
  match t with
  | Holding c => exists ws, c = cmd_of ws /\ held = [ws]
  | Top | Testing | Tested | Asleep => held = []
  | Returned | Joined => False
  end.

(** [dn] was processed, [held] is with the thread [t], [q] in the queue, and of [todo]
    the words [part] came in and [ws] did not yet. *)
Record inv (s0 : AppleAESState (M := M)) (cs : list (list Z)) s (ws : list Z) (dn held q todo : list (list Z)) (part : list Z) (t : thread) : Prop := {
  iv_split : cs = dn ++ held ++ q ++ todo;
  iv_words : concat todo = part ++ ws;
  iv_thread : threads s = [t];
  iv_held : holds t held;
  iv_awake : t = Tested \/ t = Asleep -> q = [];
  iv_queue : queue s = cmd_of <$> q;
  iv_part : receiving s part (hd [] todo) /\ (part <> [] -> (length part < length (hd [] todo))%nat);
  iv_seq : exists s1, aes_sequential s0 (cmd_of <$> dn) = Done s1 /\ core s1 = core s;
  iv_core : core_ok s;
  iv_run : stopped s = false /\ joining s = None;
  iv_regs : regs_ok s;
  iv_level : level s = u8 (zlen (concat (held ++ q)) + zlen part);
}.

Definition good_words (c : list Z) : Prop := good c /\ Forall (in_width 32) c.

Lemma sequential_app s l c : aes_sequential s (l ++ [c]) = s ← aes_sequential s l; aes_process_command s c.
Proof.
  revert s. induction l as [|d l IH]; intros s; cbn [app aes_sequential].
  - run. by destruct (aes_process_command s c).
  - by destruct (aes_process_command s d); cbn.
Qed.

Lemma zlen_concat_app {A} (l l' : list (list A)) : zlen (concat (l ++ l')) = zlen (concat l) + zlen (concat l').
Proof. rewrite concat_app. unfold zlen. rewrite length_app. lia. Qed.

Lemma same_queue_free s s' : threads s = threads s' -> queue_free s = queue_free s'.
Proof. unfold queue_free. by intros ->. Qed.

(** What is left to do. *)
Definition phase (t : thread) (q : list AESCommand) : nat :=
  match t, q with
  | Holding _, _ => 5 | Top, [] => 4 | Top, _ => 3 | Testing, [] => 3 | Testing, _ => 4 | Tested, _ => 2 | Asleep, _ => 1 | _, _ => 0
  end.
Definition todo_measure (s : AppleAESState (M := M)) (ws : list Z) : nat :=
  20 * length ws + 10 * length (queue s) + match threads s with [t] => phase t (queue s) | _ => 0 end.

Lemma inv_thread s0 cs s ws dn held q todo part t t' : inv s0 cs s ws dn held q todo part t ->
  holds t' held -> (t' = Tested \/ t' = Asleep -> q = []) -> inv s0 cs (set_thread s 0 t') ws dn held q todo part t'.
Proof.
  intros [Is Iw It Ih Ia Iq Ip Iseq Ic Ir Ig Il] Ht Ha. split; try done; try exact Iseq; try by apply (core_ok_core s). unfold set_thread. cbn. by rewrite It.
Qed.

(** The thread takes a command. *)
Lemma inv_take s0 cs s ws dn c q todo part : inv s0 cs s ws dn [] (c :: q) todo part Top ->
  inv s0 cs (set_thread (s <| queue := cmd_of <$> q |>) 0 (Holding (cmd_of c))) ws dn [c] q todo part (Holding (cmd_of c)).
Proof.
  intros [Is Iw It Ih Ia Iq Ip Iseq Ic Ir Ig Il]. split; try done; try exact Iseq; try by apply (core_ok_core s).
  - unfold set_thread. cbn. by rewrite It.
  - by exists c.
  - by intros [?|?].
Qed.

(** The thread finishes one. *)
Lemma inv_complete s0 cs s ws dn c q todo part : good c -> inv s0 cs s ws dn [c] q todo part (Holding (cmd_of c)) ->
  exists s', complete s (cmd_of c) = Done s' /\ queue s' = queue s /\
    inv s0 cs (set_thread s' 0 Testing) ws (dn ++ [c]) [] q todo part Testing.
Proof.
  intros Hg [Is Iw It Ih Ia Iq Ip (s1 & Iseq & Ic1) Ic [Ir Ij] Ig Il].
  destruct (process_good s c Ic Hg) as (s' & Hp & Hc'). pose proof (process_frame _ _ _ Hp) as [F1 _ F2 F3 F4].
  unfold complete. rewrite Hp. run.
  assert (regs_ok s') as Hr' by (unfold regs_ok, zlen in *; by rewrite F3).
  assert (level s' = level s) as Hl' by (unfold level; by rewrite F2).
  destruct (bump s' (level s' - c_data_len (cmd_of c)) Hr') as ((B1 & B2 & B3) & B4 & B5).
  set (s2 := aes_update_command_fifo_status _) in *. apply wiring_inv in B2 as (W1 & W2 & W3 & W4 & W5 & W6 & W7). apply wiring_inv in F1 as (V1 & V2 & V3 & V4 & V5 & V6 & V7).
  exists s2. split; [done|]. split; [by rewrite W2, V2|]. cbn [c_command cmd_of] in F4. rewrite (gd_flag c Hg), orb_false_r in F4. split; try done.
  - rewrite Is. by rewrite <- !(assoc_L (++)).
  - cbn. by rewrite W1, V1, It.
  - by intros [?|?].
  - cbn. by rewrite W2, V2.
  - unfold receiving in *. cbn. by rewrite W3, W4, W5, W6, V3, V4, V5, V6.
  - pose proof (process_same _ _ (cmd_of c) Ic1) as Hsame. rewrite Hp in Hsame.
    destruct (aes_process_command s1 (cmd_of c)) as [s1'| | |] eqn:Ep; try done. exists s1'.
    rewrite fmap_app. cbn [fmap list_fmap]. rewrite sequential_app, Iseq. run. split; [done|]. cbn in Hsame. rewrite Hsame. by rewrite <- B1.
  - by apply (core_ok_core s').
  - cbn. by rewrite B3, F4, W7, V7.
  - change (level (set_thread s2 0 Testing)) with (level s2). rewrite B5, Hl', Il. unfold c_data_len, cmd_of. cbn [c_data].
    rewrite (zlen_concat_app [c] q). cbn [concat]. rewrite app_nil_r. unfold wrap. rewrite Zminus_mod_idemp_l. f_equal. cbn [app]. lia.
Qed.

(** The thread takes its next step. *)
Lemma thread_step s0 cs s ws dn held q todo part t : Forall good_words cs -> inv s0 cs s ws dn held q todo part t ->
  (t = Asleep /\ aes_event s (Run 0) = Done None) \/
  exists s' dn' held' q' t', aes_event s (Run 0) = Done (Some s') /\ inv s0 cs s' ws dn' held' q' todo part t' /\
    (todo_measure s' ws < todo_measure s ws)%nat.
Proof.
  intros Hcs Hi. pose proof (iv_thread _ _ _ _ _ _ _ _ _ _ Hi) as It. pose proof (iv_queue _ _ _ _ _ _ _ _ _ _ Hi) as Iq.
  destruct (iv_run _ _ _ _ _ _ _ _ _ _ Hi) as [Ir Ij]. pose proof (iv_held _ _ _ _ _ _ _ _ _ _ Hi) as Ih.
  assert (t <> Tested -> queue_free s = true) as Hfree by (unfold queue_free; rewrite It; by destruct t).
  assert (forall s', (todo_measure s' ws < todo_measure s ws <-> 10 * length (queue s') + match threads s' with [t] => phase t (queue s') | _ => 0 end
    < 10 * length (queue s) + phase t (queue s)))%nat as Hm by (intros s'; unfold todo_measure; rewrite It; lia).
  cbn [aes_event]. unfold aes_thread. rewrite It. cbn [lookup list_lookup].
  destruct t as [|c| | | | |]; cbn [holds] in Ih; try done.
  - right. subst held. rewrite Ir, (Hfree ltac:(done)). cbn [negb]. destruct q as [|c q]; rewrite Iq; cbn [fmap list_fmap].
    + exists (set_thread s 0 Testing), dn, [], [], Testing. split; [done|]. split; [by apply (inv_thread _ _ _ _ _ _ _ _ _ Top)|].
      apply Hm. cbn. rewrite It, Iq. cbn. lia.
    + eexists _, dn, [c], q, _. split; [done|]. split; [by apply inv_take|]. apply Hm. cbn. rewrite It, Iq. cbn. lia.
  - right. destruct Ih as (c' & -> & ->). rewrite Ij. assert (good_words c') as [Hg _].
    { apply (Forall_forall good_words cs); [done|]. rewrite (iv_split _ _ _ _ _ _ _ _ _ _ Hi). set_solver. }
    destruct (inv_complete _ _ _ _ _ _ _ _ _ Hg Hi) as (s' & -> & Eq & Hi'). run. eexists _, _, [], q, Testing. split; [done|]. split; [done|].
    apply Hm. rewrite (iv_thread _ _ _ _ _ _ _ _ _ _ Hi'). cbn. rewrite Eq, Iq. destruct q; cbn; lia.
  - right. rewrite (Hfree ltac:(done)). cbn [negb]. destruct q as [|c q]; rewrite Iq; cbn [fmap list_fmap]; [rewrite Ir|].
    + exists (set_thread s 0 Tested), dn, held, [], Tested. split; [done|]. split; [by apply (inv_thread _ _ _ _ _ _ _ _ _ Testing)|].
      apply Hm. cbn. rewrite It, Iq. cbn. lia.
    + exists (set_thread s 0 Top), dn, held, (c :: q), Top. split; [done|]. split; [apply (inv_thread _ _ _ _ _ _ _ _ _ Testing); [done|done|by intros [?|?]]|].
      apply Hm. cbn. rewrite It, Iq. cbn. lia.
  - right. exists (set_thread s 0 Asleep), dn, held, q, Asleep. split; [done|]. pose proof (iv_awake _ _ _ _ _ _ _ _ _ _ Hi (or_introl eq_refl)) as ->.
    split; [by apply (inv_thread _ _ _ _ _ _ _ _ _ Tested)|]. apply Hm. cbn. rewrite It, Iq. cbn. lia.
  - by left.
Qed.

Lemma phase_bound t q : (phase t q <= 5)%nat.
Proof. destruct t, q; cbn; lia. Qed.

Lemma next_word (c x part : list Z) w ws : c ++ x = part ++ w :: ws -> (length part < length c)%nat -> exists r, c = part ++ w :: r /\ ws = r ++ x.
Proof.
  intros E Hl. destruct (app_eq_inv _ _ _ _ E) as [(k & -> & Ek) | (k & -> & _)].
  - destruct k as [|w' k]; [rewrite app_nil_r in Hl; lia|]. injection Ek as -> ->. by exists k.
  - rewrite length_app in Hl. lia.
Qed.

(** The command the next word belongs to. *)
Lemma next_command s0 cs s ws dn held q todo part t w : Forall good_words cs -> inv s0 cs s (w :: ws) dn held q todo part t ->
  exists c r todo', todo = c :: todo' /\ good_words c /\ c = part ++ w :: r /\ ws = r ++ concat todo' /\ receiving s part c /\ in_width 32 w.
Proof.
  intros Hcs Hi. pose proof (iv_words _ _ _ _ _ _ _ _ _ _ Hi) as Iw. destruct (iv_part _ _ _ _ _ _ _ _ _ _ Hi) as [Ip Il].
  destruct todo as [|c todo']; [by destruct part|]. cbn [hd concat] in *.
  assert (good_words c) as Hg.
  { apply (Forall_forall good_words cs); [done|]. rewrite (iv_split _ _ _ _ _ _ _ _ _ _ Hi). set_solver. }
  assert (length part < length c)%nat as Hl.
  { destruct (decide (part = [])) as [->|?]; [|by apply Il]. destruct (good_cons c (proj1 Hg)) as (? & ? & -> & _). cbn. lia. }
  destruct (next_word _ _ _ _ _ Iw Hl) as (r & Ec & Ew). exists c, r, todo'. do 5 (split; [done|]).
  destruct Hg as [_ Hw]. rewrite Ec in Hw. by apply Forall_app in Hw as [_ [? ?]%Forall_cons].
Qed.

(** A word that does not end its command. *)
Lemma inv_word s0 cs s ws dn held q c todo part t w r s' : r <> [] -> c = part ++ w :: r ->
  inv s0 cs s (w :: ws) dn held q (c :: todo) part t ->
  s' = aes_update_command_fifo_status (set_level (received s (part ++ [w]) c) (level (received s (part ++ [w]) c) + 1)) ->
  queue s' = queue s /\ inv s0 cs s' ws dn held q (c :: todo) (part ++ [w]) t.
Proof.
  intros Hr Ec [Is Iw It Ih Ia Iq Ip Iseq Ic Irun Ig Il] ->.
  destruct (bump (received s (part ++ [w]) c) (level (received s (part ++ [w]) c) + 1) Ig) as ((B1 & B2 & B3) & B4 & B5).
  set (s' := aes_update_command_fifo_status _) in *. apply wiring_inv in B2 as (W1 & W2 & W3 & W4 & W5 & W6 & W7). split; [done|].
  assert (length (part ++ [w]) < length c)%nat as Hl.
  { rewrite Ec, !length_app. destruct r; [done|]. cbn. lia. }
  split; try done.
  - by rewrite Iw, <- (assoc_L (++)).
  - by rewrite W1.
  - by rewrite W2.
  - split; [|done]. unfold receiving. rewrite W3, W4, W5, W6. by destruct (part ++ [w]) as [|] eqn:E; [apply app_eq_nil in E as [_ ?]|].
  - by rewrite B1.
  - by apply (core_ok_core s).
  - by rewrite B3, W7.
  - rewrite B5. change (level (received s (part ++ [w]) c)) with (level s). rewrite Il. unfold wrap. rewrite Zplus_mod_idemp_l. f_equal. unfold zlen. rewrite length_app. cbn. lia.
Qed.

(** The last word of a command. *)
Lemma inv_last s0 cs s ws dn held q c todo part t w s' : t <> Tested -> c = part ++ [w] ->
  inv s0 cs s (w :: ws) dn held q (c :: todo) part t ->
  s' = (let s1 := qemu_cond_signal (s <| command := 0 |> <| data := None |> <| data_len := 0 |> <| data_read := 0 |>
          <| queue ::= fun q => q ++ [cmd_of c] |>) in aes_update_command_fifo_status (set_level s1 (level s1 + 1))) ->
  queue s' = queue s ++ [cmd_of c] /\ inv s0 cs s' ws dn held (q ++ [c]) todo [] (if decide (t = Asleep) then Testing else t).
Proof.
  intros Ht Ec [Is Iw It Ih Ia Iq Ip Iseq Ic Irun Ig Il] ->. cbv zeta. set (s1 := qemu_cond_signal _).
  assert (regs_ok s1) as Hr1 by done. destruct (bump s1 (level s1 + 1) Hr1) as ((B1 & B2 & B3) & B4 & B5).
  set (s' := aes_update_command_fifo_status _) in *. apply wiring_inv in B2 as (W1 & W2 & W3 & W4 & W5 & W6 & W7). split; [done|].
  split; try done.
  - rewrite Is. by rewrite <- !(assoc_L (++)).
  - cbn [concat] in Iw. rewrite Ec, <- (assoc_L (++)) in Iw. cbn in Iw. by apply app_inv_head in Iw as [= ->].
  - rewrite W1. cbn. rewrite It. by destruct t.
  - by destruct t.
  - destruct t; try done; by intros [?|?].
  - rewrite W2. cbn. rewrite Iq. by rewrite fmap_app.
  - by rewrite B1.
  - by apply (core_ok_core s).
  - by rewrite B3, W7.
  - rewrite B5. change (level s1) with (level s). rewrite Il. unfold wrap. rewrite Zplus_mod_idemp_l. f_equal.
    rewrite (assoc_L (++)), (zlen_concat_app _ [c]), Ec. cbn [concat]. rewrite app_nil_r. unfold zlen. rewrite !length_app. cbn. lia.
Qed.

(** The guest writes its next word, or waits for a thread that is about to sleep. *)
Lemma guest_step s0 cs s ws dn held q todo part t w : Forall good_words cs -> inv s0 cs s (w :: ws) dn held q todo part t ->
  (t = Tested /\ aes_event s (Write REG_AES_COMMAND_FIFO w) = Done None) \/
  exists s' q' todo' part' t', aes_event s (Write REG_AES_COMMAND_FIFO w) = Done (Some s') /\ inv s0 cs s' ws dn held q' todo' part' t' /\
    (todo_measure s' ws < todo_measure s (w :: ws))%nat.
Proof.
  intros Hcs Hi. destruct (next_command _ _ _ _ _ _ _ _ _ _ _ Hcs Hi) as (c & r & todo' & -> & [Hg _] & Ec & Ew & Hrec & Hw).
  destruct (iv_run _ _ _ _ _ _ _ _ _ _ Hi) as [Ir Ij]. pose proof (iv_thread _ _ _ _ _ _ _ _ _ _ Hi) as It.
  rewrite (fifo_event s part w r c) by done. destruct (decide (r = [])) as [->|Hr].
  - replace (part ++ [w]) with c by done. destruct (decide (t = Tested)) as [->|Ht].
    + left. split; [done|]. unfold fifo_enqueue, received, queue_free. cbn. by rewrite Z.leb_refl, It.
    + right. rewrite fifo_enqueue_whole by (unfold queue_free; rewrite It; by destruct t). cbn [mbind option_bind].
      destruct (inv_last _ _ _ _ _ _ _ _ _ _ _ _ _ Ht Ec Hi eq_refl) as [Eq Hi']. cbv zeta in Eq, Hi'.
      eexists _, _, _, _, _. split; [reflexivity|]. split; [exact Hi'|]. unfold todo_measure.
      rewrite (iv_thread _ _ _ _ _ _ _ _ _ _ Hi'), It, Eq, length_app. cbn [length].
      pose proof (phase_bound (if decide (t = Asleep) then Testing else t) (queue s ++ [cmd_of c])). lia.
  - right. rewrite fifo_enqueue_part. 2: { rewrite Ec, !length_app. destruct r; [done|]. cbn. lia. } cbn [mbind option_bind].
    destruct (inv_word _ _ _ _ _ _ _ _ _ _ _ _ _ _ Hr Ec Hi eq_refl) as [Eq Hi']. eexists _, _, _, _, _. split; [reflexivity|]. split; [exact Hi'|].
    unfold todo_measure. rewrite (iv_thread _ _ _ _ _ _ _ _ _ _ Hi'), It, Eq. cbn. lia.
Qed.

(** ** Runs *)

(** An engine that was started and has nothing to do; its thread may be anywhere in the
    loop but with a command. *)
Record ready s : Prop := {
  rd_thread : threads s = [Top] \/ threads s = [Testing] \/ threads s = [Tested] \/ threads s = [Asleep];
  rd_queue : queue s = [];
  rd_data : data s = None /\ data_len s = 0 /\ data_read s = 0;
  rd_run : stopped s = false /\ joining s = None;
  rd_regs : regs_ok s;
  rd_level : level s = 0;
  rd_core : core_ok s;
}.

Definition in_run s0 cs (cfg : AppleAESState (M := M) * list Z) : Prop :=
  exists dn held q todo part t, inv s0 cs cfg.1 cfg.2 dn held q todo part t.

Lemma ready_inv s cs : ready s -> in_run s cs (s, concat cs).
Proof.
  intros [Ht Hq Hd Hr Hg Hl Hc]. assert (exists t, threads s = [t] /\ holds t []) as (t & Et & Hh) by (destruct Ht as [E|[E|[E|E]]]; by eexists).
  exists [], [], [], cs, [], t. split; try done. by exists s.
Qed.

Lemma step_in_run s0 cs cfg cfg' : Forall good_words cs -> in_run s0 cs cfg -> step cfg cfg' ->
  in_run s0 cs cfg' /\ (todo_measure cfg'.1 cfg'.2 < todo_measure cfg.1 cfg.2)%nat.
Proof.
  intros Hcs (dn & held & q & todo & part & t & Hi) Hst. destruct Hst as [s w ws s' He|s i ws s' He]; cbn [fst snd] in *.
  - destruct (guest_step _ _ _ _ _ _ _ _ _ _ _ Hcs Hi) as [[_ E]|(s1 & q' & todo' & part' & t' & E & Hi' & Hm)]; rewrite He in E; [done|].
    injection E as ->. split; [|done]. by exists dn, held, q', todo', part', t'.
  - destruct i as [|i]; [|cbn in He; unfold aes_thread in He; by rewrite (iv_thread _ _ _ _ _ _ _ _ _ _ Hi) in He].
    destruct (thread_step _ _ _ _ _ _ _ _ _ _ Hcs Hi) as [[_ E]|(s1 & dn' & held' & q' & t' & E & Hi' & Hm)]; rewrite He in E; [done|].
    injection E as ->. split; [|done]. by exists dn', held', q', todo, part, t'.
Qed.

Lemma run_terminates s0 cs : Forall good_words cs -> forall cfg, in_run s0 cs cfg -> sn step cfg.
Proof.
  intros Hcs cfg. remember (todo_measure cfg.1 cfg.2) as n eqn:En. revert cfg En.
  induction (lt_wf n) as [n _ IH]. intros cfg En Hi. constructor. intros cfg' Hst.
  destruct (step_in_run _ _ _ _ Hcs Hi Hst) as [Hi' Hm]. eapply IH; [|reflexivity|done]. by rewrite En.
Qed.

Lemma run_in_run s0 cs cfg cfg' : Forall good_words cs -> in_run s0 cs cfg -> rtc step cfg cfg' -> in_run s0 cs cfg'.
Proof. intros Hcs Hi Hr. induction Hr as [|? ? ? Hst _ IH]; [done|]. apply IH. by apply (step_in_run _ _ _ _ Hcs Hi Hst). Qed.

(** No event of a run fails. *)
Lemma run_safe s0 cs s ws : Forall good_words cs -> in_run s0 cs (s, ws) ->
  (forall i, exists o, aes_event s (Run i) = Done o) /\ (forall w ws', ws = w :: ws' -> exists o, aes_event s (Write REG_AES_COMMAND_FIFO w) = Done o).
Proof.
  intros Hcs (dn & held & q & todo & part & t & Hi). cbn [fst snd] in Hi. split.
  - intros [|i]; [|cbn; unfold aes_thread; rewrite (iv_thread _ _ _ _ _ _ _ _ _ _ Hi); by exists None].
    destruct (thread_step _ _ _ _ _ _ _ _ _ _ Hcs Hi) as [[_ E]|(s1 & ? & ? & ? & ? & E & _)]; rewrite E; eauto.
  - intros w ws' ->. destruct (guest_step _ _ _ _ _ _ _ _ _ _ _ Hcs Hi) as [[_ E]|(s1 & ? & ? & ? & ? & E & _)]; rewrite E; eauto.
Qed.

Lemma run_end s0 cs s ws : Forall good_words cs -> in_run s0 cs (s, ws) -> nf step (s, ws) ->
  ws = [] /\ queue s = [] /\ level s = 0 /\ exists s1, aes_sequential s0 (cmd_of <$> cs) = Done s1 /\ core s1 = core s.
Proof.
  intros Hcs (dn & held & q & todo & part & t & Hi) Hn. cbn [fst snd] in Hi.
  destruct (thread_step _ _ _ _ _ _ _ _ _ _ Hcs Hi) as [[-> _]|(s1 & ? & ? & ? & ? & E & _)].
  2: { exfalso. apply Hn. eexists. by apply (step_thread s 0). }
  destruct ws as [|w ws].
  2: { destruct (guest_step _ _ _ _ _ _ _ _ _ _ _ Hcs Hi) as [[? _]|(s1 & ? & ? & ? & ? & E & _)]; [done|].
       exfalso. apply Hn. eexists. by apply step_guest. }
  destruct Hi as [Is Iw It Ih Ia Iq [Ip Il'] Iseq Ic Ir Ig Il]. rewrite (Ia (or_intror eq_refl)) in *. cbn [holds] in Ih. subst held.
  rewrite app_nil_r in Iw. assert (todo = []) as ->.
  { destruct todo as [|c todo]; [done|]. cbn [concat hd] in *. assert (good_words c) as [Hg _] by (apply (Forall_forall good_words cs); [done|]; set_solver).
    destruct (good_cons c Hg) as (w & r & -> & _). rewrite <- Iw in Il'. rewrite length_app in Il'. cbn in Il'. specialize (Il' ltac:(done)). lia. }
  cbn in Iw. subst part. rewrite !app_nil_r in Is. subst dn. done.
Qed.


(** ** Jobs

    A key, a vector and a data command: what a driver sends to have a text encrypted or
    decrypted. *)
Record job := mkJob {
  j_key : Z; j_kw : list Z;
  j_iv : Z; j_vw : list Z;
  j_data : Z; j_upper : Z; j_src : Z; j_dst : Z;
}.

Definition job_words (j : job) : list (list Z) :=
  [j_key j :: j_kw j; j_iv j :: j_vw j; [j_data j; j_upper j; j_src j; j_dst j]].

Record job_ok (j : job) : Prop := {
  jo_key : key_header (j_key j);
  jo_kw : zlen (j_kw j) = header_words (j_key j);
  jo_iv : COMMAND_OPCODE (j_iv j) = OPCODE_IV;
  jo_vw : zlen (j_vw j) = 4;
  jo_data : COMMAND_OPCODE (j_data j) = OPCODE_DATA;
  jo_len : nonzero (COMMAND_DATA_COMMAND_LENGTH (j_data j) .& 0xf) = false;
  jo_key_ctx : COMMAND_DATA_COMMAND_KEY_CONTEXT (j_data j) = COMMAND_KEY_COMMAND_KEY_CONTEXT (j_key j);
  jo_iv_ctx : COMMAND_DATA_COMMAND_IV_CONTEXT (j_data j) = COMMAND_IV_COMMAND_IV_CONTEXT (j_iv j);
  jo_width : Forall (Forall (in_width 32)) (job_words j);
}.

Definition job_encrypts (j : job) : bool := nonzero (j_key j .& COMMAND_KEY_COMMAND_ENCRYPT).
Definition job_cipher (j : job) : QCryptoCipher := key_cipher (j_key j) (j_kw j) <| ctx_iv := word_array (j_vw j) |>.
Definition job_length (j : job) : nat := Z.to_nat (COMMAND_DATA_COMMAND_LENGTH (j_data j)).
Definition job_source (j : job) : Z := data_source (j_upper j) (j_src j).
Definition job_dest (j : job) : Z := data_dest (j_upper j) (j_dst j).
Definition job_text s (j : job) : bytes := dma_memory_read (mem s) (job_source j) (job_length j).

Lemma job_good j : job_ok j -> Forall good_words (job_words j).
Proof.
  intros [Hk Hkw Hi Hvw Hd _ _ _ Hw]. unfold job_words in *. repeat apply Forall_cons in Hw as [? Hw].
  assert (forall c, COMMAND_OPCODE (hd 0 c) <> OPCODE_KEY -> COMMAND_OPCODE (hd 0 c) <> OPCODE_FLAG -> command_words (hd 0 c) = Some (zlen c) -> good c) as Hgd.
  { intros c Nk Nf Hc. split; [done|done|]. unfold stop_flag. by rewrite (proj2 (Z.eqb_neq _ _) Nf). }
  apply Forall_cons. split; [split; [|done]|apply Forall_cons; split; [split; [|done]|apply Forall_cons; split; [split; [|done]|done]]].
  - split; cbn [hd]; [|done|unfold stop_flag; by rewrite (kh_op _ Hk)]. unfold command_words. cbv zeta. rewrite (kh_op _ Hk), (kh_select _ Hk).
    change (OPCODE_KEY =? OPCODE_KEY) with true. cbv iota. change (KEY_SELECT_SOFTWARE =? KEY_SELECT_SOFTWARE) with true. cbv iota.
    f_equal. unfold zlen in *. cbn [length]. fold (header_words (j_key j)). lia.
  - apply Hgd; cbn [hd]; rewrite ?Hi; [done|done|]. unfold command_words. cbv zeta. rewrite Hi. cbn. f_equal. unfold zlen in *. cbn [length]. lia.
  - apply Hgd; cbn [hd]; rewrite ?Hd; [done|done|]. unfold command_words. cbv zeta. by rewrite Hd.
Qed.

(** The commands of a job one after the other. *)
Lemma job_run s j : core_ok s -> job_ok j -> exists s',
  aes_sequential s (cmd_of <$> job_words j) = Done s' /\ core_ok s' /\
  mem s' = dma_memory_write (mem s) (job_dest j) (driver_crypt (job_encrypts j) (job_cipher j) (job_text s j)).2.
Proof.
  intros Hs [Hk Hkw Hi Hvw Hd Hn Hkc Hic _]. unfold job_words. cbn [fmap list_fmap aes_sequential]. unfold cmd_of. cbn [hd].
  destruct (process_key_good s _ _ Hs Hk Hkw) as (s1 & k & -> & E1 & E2 & E3 & Ko & Kd & Kc & Ke). run.
  assert (core_ok s1) as Hs1 by (by eapply core_ok_key).
  destruct (process_iv_good s1 _ _ Hs1 Hi Hvw) as (s2 & -> & F1 & F2 & F3). run.
  assert (core_ok s2) as Hs2 by (eapply core_ok_iv; [done|done|exact F2|]; rewrite length_word_array; lia).
  pose proof (land_bit (j_data j .>> 27)) as B1. pose proof (land_two (j_data j .>> 25)) as B2.
  fold (COMMAND_DATA_COMMAND_KEY_CONTEXT (j_data j)) in B1. fold (COMMAND_DATA_COMMAND_IV_CONTEXT (j_data j)) in B2.
  destruct (process_data_run s2 (j_data j) (j_upper j) (j_src j) (j_dst j) k (key_cipher (j_key j) (j_kw j)) (word_array (j_vw j)))
    as (s3 & Hp & G1 & G2 & G3); try done.
  { apply aget_Done. split; [lia|]. rewrite F1, E1, Hkc. apply list_lookup_insert_eq. pose proof (co_keys s Hs). unfold zlen in *. lia. }
  { apply aget_Done. split; [lia|]. rewrite F2, Hic. apply list_lookup_insert_eq. pose proof (co_ivs s1 Hs1). unfold zlen in *. lia. }
  destruct (process_data_good s2 (j_data j) (j_upper j) (j_src j) (j_dst j) Hs2 Hd) as (s3' & Hp' & Hs3). rewrite Hp in Hp'. injection Hp' as <-.
  rewrite Hp. run. exists s3. do 2 (split; [done|]). rewrite G3, F3, E3, Ke. unfold job_text, job_source, job_dest, job_encrypts, job_length, job_cipher.
  unfold data_text. by rewrite F3, E3.
Qed.

Lemma sequential_split s l l' : aes_sequential s (l ++ l') = s ← aes_sequential s l; aes_sequential s l'.
Proof. revert s. induction l as [|d l IH]; intros s; [done|]. cbn [app aes_sequential]. by destruct (aes_process_command s d); cbn. Qed.

Lemma word_array_text l n : (n | 4 * zlen l) -> text n (word_array l).
Proof.
  intros Hn. split; [|by rewrite length_word_array]. unfold word_array. apply Forall_concat, Forall_fmap, Forall_true. intros w. apply le_split_bytes.
Qed.

(** Decryption with the cipher that encrypted. *)
Lemma crypt_inverse j b : job_ok j -> text 16 b ->
  (driver_crypt false (job_cipher j) (driver_crypt true (job_cipher j) b).2).2 = b /\ length (driver_crypt true (job_cipher j) b).2 = length b.
Proof.
  intros [Hk Hkw Hi Hvw Hd Hn Hkc Hic _] Hb. set (c := job_cipher j).
  assert (cipher_ok c) as Hc by exact (key_cipher_ok (j_key j) (j_kw j) Hk). pose proof (cipher_ok_BLEN c Hc) as H16.
  assert (text 16 (ctx_iv c) /\ zlen (ctx_iv c) = 16) as [Hv Hz].
  { cbn. rewrite length_word_array, Hvw. split; [|done]. apply word_array_text. by rewrite Hvw. }
  assert (block_len_of (alg c) = 16) as HB by done.
  assert (block_ok 16 (ENCRYPT c)) as He by (rewrite <- HB; apply native_ok).
  assert (zlen (ctx_key c) = key_len_of (alg c)) as Hkl.
  { cbn. rewrite length_word_array, Hkw. unfold header_words. by destruct (kh_length _ Hk) as [-> | [-> | ->]]. }
  assert (forall x, text 16 x -> DECRYPT c (ENCRYPT c x) = x) as Hinv by (intros x Hx; apply native_inv; [done|by rewrite HB]).
  unfold driver_crypt. destruct Hc as [[-> | ->] _]; rewrite H16.
  - destruct (cbc_ok _ _ _ _ He Hv Hz Hb) as [_ Hl]. pose proof (cbc_inv _ _ _ _ _ He Hinv Hv Hz Hb) as E.
    destruct (cbc_encrypt _ _ _ b) as [? t]. cbn [snd] in *. split; [|done]. by destruct (cbc_decrypt _ _ _ t).
  - destruct (ctr_ok _ _ _ _ He Hv Hz Hb) as [_ Hl]. pose proof (ctr_inv _ _ _ _ He Hv Hz Hb) as E.
    destruct (ctr_crypt _ _ _ b) as [? t]. cbn [snd] in *. split; [|done]. by destruct (ctr_crypt _ _ _ t).
Qed.

(** C5: what one job encrypts another one decrypts.  The engine is given the words of both,
    with the same key and vector, the second reading where the first writes; in every order
    of the guest's writes and the steps of the thread the run comes to an end, and at the
    end of each the text is at the destination of the second job.  Memory gives back what
    is written at the two destinations, and the text is bytes. *)
Theorem aes_roundtrip s j1 j2 : ready s -> job_ok j1 -> job_ok j2 ->
  job_encrypts j1 = true -> job_encrypts j2 = false -> job_cipher j1 = job_cipher j2 ->
  job_dest j1 = job_source j2 -> job_length j1 = job_length j2 -> Forall (in_width 8) (job_text s j1) ->
  (forall j m t, j = j1 \/ j = j2 -> length t = job_length j -> dma_memory_read (dma_memory_write m (job_dest j) t) (job_dest j) (job_length j) = t) ->
  let words := concat (job_words j1 ++ job_words j2) in
  sn step (s, words) /\
  forall s' ws, rtc step (s, words) (s', ws) -> nf step (s', ws) ->
    dma_memory_read (mem s') (job_dest j2) (job_length j2) = job_text s j1.
Proof.
  intros Hs H1j H2j He1 He2 Hc Hd Hl Hb Hm words.
  assert (Forall good_words (job_words j1 ++ job_words j2)) as Hg by (apply Forall_app; split; by apply job_good).
  pose proof (ready_inv s (job_words j1 ++ job_words j2) Hs) as Hi. split; [by apply (run_terminates s _ Hg)|].
  intros s' ws Hr Hn. destruct (run_end _ _ _ _ Hg (run_in_run _ _ _ _ Hg Hi Hr) Hn) as (_ & _ & _ & s2 & Hq & (_ & _ & E)%core_inv).
  rewrite fmap_app, sequential_split in Hq. destruct (job_run s j1 (rd_core s Hs) H1j) as (s1 & Hq1 & Hs1 & M1).
  rewrite Hq1 in Hq. rewrite bind_Done in Hq. destruct (job_run s1 j2 Hs1 H2j) as (s2' & Hq2 & _ & M2). rewrite Hq2 in Hq. injection Hq as ->.
  assert (text 16 (job_text s j1)) as Ht.
  { split; [done|]. pose proof (data_text_blocks s (j_data j1) (j_upper j1) (j_src j1)) as E'. fold (job_source j1) in E'.
    change (data_text s (j_data j1) (j_upper j1) (j_src j1)) with (job_text s j1) in E'. rewrite E'. pose proof (jo_len j1 H1j) as Ha.
    unfold nonzero in Ha. apply negb_false_iff, Z.eqb_eq in Ha.
    pose proof (Z.land_ones (COMMAND_DATA_COMMAND_LENGTH (j_data j1)) 4 ltac:(lia)) as El. change (Z.ones 4) with 0xf in El.
    rewrite Ha in El. by apply Z.mod_divide. }
  destruct (crypt_inverse j1 _ H1j Ht) as [Einv Elen]. rewrite He1 in M1. rewrite He2, <- Hc in M2.
  assert (length (job_text s j1) = job_length j1) as Hlen by apply dma_memory_read_length.
  assert (job_text s1 j2 = (driver_crypt true (job_cipher j1) (job_text s j1)).2) as Et.
  { unfold job_text at 1. rewrite M1, <- Hd, <- Hl. apply Hm; [by left|]. by rewrite Elen. }
  rewrite Et, Einv in M2. rewrite <- E, M2. apply Hm; [by right|]. by rewrite Hlen.
Qed.

(** ** The interrupt line *)

Definition line_ok s : Prop := irq s = last_level s /\ last_level s = nonzero (get s REG_AES_INT_ENABLE .& get s REG_AES_INT_STATUS).

Lemma update_irq_line s : irq s = last_level s -> line_ok (aes_update_irq s).
Proof.
  intros E. unfold line_ok. rewrite !get_update_irq. unfold aes_update_irq.
  destruct (nonzero _) eqn:En, (last_level s) eqn:El; cbn; rewrite ?En, ?El, ?E; done.
Qed.

Lemma update_status_line s : irq s = last_level s -> line_ok (aes_update_command_fifo_status s).
Proof. intros E. by apply update_irq_line. Qed.

Lemma line_put s a v : line_ok s -> 0 <= a -> a .>> 2 <> REG_AES_INT_ENABLE .>> 2 -> a .>> 2 <> REG_AES_INT_STATUS .>> 2 -> line_ok (put s a v).
Proof. intros [E1 E2] Ha N1 N2. split; [done|]. by rewrite !get_put_other. Qed.

(** What keeps the registers and the line. *)
Lemma line_ext s s' : reg s' = reg s -> (irq s', last_level s') = (irq s, last_level s) -> regs_ok s -> line_ok s -> regs_ok s' /\ line_ok s'.
Proof. unfold line_ok, regs_ok, get. by intros -> [= -> ->]. Qed.

Lemma empty_fifo_line s s' : regs_ok s -> irq s = last_level s -> aes_empty_fifo s = Some s' -> regs_ok s' /\ line_ok s'.
Proof.
  unfold aes_empty_fifo. intros Hr E. case_match; [|done]. intros [= <-]. split; [by apply update_status_regs, put_regs_ok|by apply update_status_line].
Qed.

Lemma stop_keeps s a s' : aes_stop s a = Done s' -> reg s' = reg s /\ (irq s', last_level s') = (irq s, last_level s).
Proof. unfold aes_stop. cbv zeta. repeat case_match; try done; by intros [= <-]. Qed.

Lemma reset_line s s' : irq s = last_level s -> apple_aes_reset s = Done (Some s') -> regs_ok s' /\ line_ok s'.
Proof.
  intros E Hr. unfold apple_aes_reset in Hr. apply bind_Done_inv in Hr as (s1 & Hs & Hr). apply stop_keeps in Hs as [E1 [= E2 E3]].
  injection Hr as Hr. apply (empty_fifo_line s1); [|by rewrite E2, E3|done]. unfold regs_ok. rewrite E1. done.
Qed.

Lemma fifo_enqueue_keeps s s' : fifo_enqueue s = Some s' -> reg s' = reg s /\ (irq s', last_level s') = (irq s, last_level s).
Proof. unfold fifo_enqueue. repeat case_match; try done; by intros <-%(inj Some). Qed.

Lemma fifo_line s w s' : regs_ok s -> irq s = last_level s -> fifo_write s w = Done (Some s') -> regs_ok s' /\ line_ok s'.
Proof.
  intros Hr E Hf. unfold fifo_write in Hf. apply bind_Done_inv in Hf as (s1 & Hw & Hf). injection Hf as Hf.
  assert (regs_ok s1 /\ irq s1 = last_level s1) as [Hr1 E1].
  { unfold fifo_word in Hw. repeat case_match; try done; try (apply bind_Done_inv in Hw as (? & _ & Hw)); injection Hw as <-; try done.
    split; [by apply set_int_regs_ok|done]. }
  destruct (fifo_enqueue s1) as [s2|] eqn:Ee; [|done]. apply (inj Some) in Hf. subst s'. apply fifo_enqueue_keeps in Ee as [E2 [= E3 E4]].
  assert (regs_ok s2) as Hr2 by (unfold regs_ok; by rewrite E2). split; [by apply update_status_regs, put_regs_ok|].
  apply update_status_line. cbn. by rewrite E3, E4.
Qed.

Lemma control_line s v s' : regs_ok s -> line_ok s -> control_write s v = Done (Some s') -> regs_ok s' /\ line_ok s'.
Proof.
  intros Hr Hl. unfold control_write. repeat case_match; intros Hc.
  - injection Hc as <-. unfold aes_start. case_match; [|done]. by apply (line_ext s).
  - apply bind_Done_inv in Hc as (s1 & Hs & Hc). injection Hc as <-. apply stop_keeps in Hs as [E1 E2]. by apply (line_ext s).
  - injection Hc as Hc. by apply (empty_fifo_line s); [|apply Hl|].
  - by apply (reset_line s); [apply Hl|].
  - by injection Hc as <-.
Qed.

Lemma complete_line s c s' : regs_ok s -> irq s = last_level s -> complete s c = Done s' -> regs_ok s' /\ line_ok s'.
Proof.
  intros Hr E Hc. unfold complete in Hc. apply bind_Done_inv in Hc as (s1 & Hp & Hc). injection Hc as <-.
  destruct (process_frame _ _ _ Hp) as [_ [= F1 F2] _ F3 _]. split.
  - apply update_status_regs, put_regs_ok. unfold regs_ok, zlen in *. by rewrite F3.
  - apply update_status_line. cbn. by rewrite F1, F2.
Qed.

Lemma thread_line s i s' : regs_ok s -> line_ok s -> aes_thread s i = Done (Some s') -> regs_ok s' /\ line_ok s'.
Proof.
  intros Hr Hl. unfold aes_thread, thread_return. repeat case_match; try done; intros He;
    first [injection He as <-; by apply (line_ext s)|idtac].
  apply bind_Done_inv in He as (s1 & Hc & He). injection He as <-. destruct (complete_line _ _ _ Hr (proj1 Hl) Hc). by apply (line_ext s1).
Qed.

Lemma aligned_index a b : 0 <= a -> 0 <= b -> a mod 4 = 0 -> b mod 4 = 0 -> a <> b -> a .>> 2 <> b .>> 2.
Proof. intros Ha Hb Ma Mb Hn. rewrite !Z.shiftr_div_pow2 by lia. change (2 ^ 2) with 4. pose proof (Z.div_mod a 4). pose proof (Z.div_mod b 4). lia. Qed.

Lemma done_some {A} (x y : A) : Done (Some x) = Done (Some y) -> x = y.
Proof. congruence. Qed.

(** C23: after every event the interrupt line is up just when an enabled interrupt is
    pending: for each access of the guest to an aligned register, errors, resets and the
    acknowledgement of interrupts included, and for each step of a thread. *)
Theorem aes_line s e s' : regs_ok s -> line_ok s -> (forall a v, e = Write a v -> 0 <= a /\ a mod 4 = 0) ->
  aes_event s e = Done (Some s') -> regs_ok s' /\ line_ok s'.
Proof.
  intros Hr Hl Ha. destruct e as [a v|i]; cbn [aes_event]; [|by apply thread_line]. destruct (Ha a v eq_refl) as [Ha0 Ha4]. case_match; [done|].
  assert (forall s1 b, regs_ok s1 -> line_ok s1 -> a <> REG_AES_INT_ENABLE -> a <> REG_AES_INT_STATUS ->
    regs_ok (reg_commit s1 a (u32 v) b false) /\ line_ok (reg_commit s1 a (u32 v) b false)) as Hcommit.
  { intros s1 b Hr1 Hl1 N1 N2. unfold reg_commit. destruct b; [done|]. split; [by apply put_regs_ok|]. by apply line_put; [| |apply aligned_index..]. }
  assert (forall s1 b, regs_ok s1 -> irq s1 = last_level s1 -> regs_ok (reg_commit s1 a (u32 v) b true) /\ line_ok (reg_commit s1 a (u32 v) b true)) as Hflag.
  { intros s1 b Hr1 E1. unfold reg_commit. cbv zeta. split.
    - unfold regs_ok. rewrite (proj1 (update_irq_regs _)). destruct b; [done|by apply put_regs_ok].
    - apply update_irq_line. by destruct b. }
  unfold aes_reg_write. cbv zeta. case_match; [by intros <-%done_some|]. destruct (read_only a); [by intros <-%done_some|].
  destruct (Z.eqb_spec a REG_AES_INT_STATUS) as [->|N1].
  { intros <-%done_some. apply Hflag; [by apply put_regs_ok|apply Hl]. }
  destruct (Z.eqb_spec a REG_AES_INT_ENABLE) as [->|N2]. { intros <-%done_some. apply Hflag; [done|apply Hl]. }
  case_match. { intros <-%done_some. by apply Hcommit; [apply update_status_regs|apply update_status_line; apply Hl|..]. }
  case_match. { intros (o & Hc & Hf)%bind_Done_inv. destruct o as [s1|]; [|done]. apply done_some in Hf as <-.
                destruct (control_line _ _ _ Hr Hl Hc). by apply Hcommit. }
  case_match. { intros (o & Hc & Hf)%bind_Done_inv. destruct o as [s1|]; [|done]. apply done_some in Hf as <-.
                destruct (fifo_line _ _ _ Hr (proj1 Hl) Hc) as [? Hl1]. destruct (_ && _); [apply Hflag; [done|apply Hl1]|by apply Hcommit]. }
  case_match; [|intros <-%done_some; by apply Hcommit].
  case_match; [|intros <-%done_some; by apply Hcommit]. destruct (aes_empty_fifo s) as [s1|] eqn:Ee; [|done]. intros <-%done_some.
  destruct (empty_fifo_line _ _ Hr (proj1 Hl) Ee). by apply Hcommit.
Qed.

(** ** Where commands fail *)

Lemma two_bits x : x .& 3 = 0 \/ x .& 3 = 1 \/ x .& 3 = 2 \/ x .& 3 = 3.
Proof. pose proof (land_two x). lia. Qed.

Lemma cipher_exists l m kb : (l = 0 \/ l = 1 \/ l = 2 \/ l = 3) -> (m = 0 \/ m = 1 \/ m = 2 \/ m = 3) -> zlen kb = key_size l / 8 ->
  match qcrypto_cipher_new (key_algo l) (key_mode m) kb with Some _ => l <> 3 /\ m <> 3 | None => l = 3 \/ m = 3 end.
Proof.
  intros Hl Hm Hk. unfold qcrypto_cipher_new, qcrypto_cipher_ctx_new. rewrite Hk.
  destruct Hl as [-> | [-> | [-> | ->]]], Hm as [-> | [-> | [-> | ->]]]; cbn; first [by left | by right | done].
Qed.

Lemma key_size_words l : (l = 0 \/ l = 1 \/ l = 2 \/ l = 3) -> key_size l / 8 = 4 * (key_size l / 8 / 4) /\ key_size l / 8 <= 32.
Proof. by intros [-> | [-> | [-> | ->]]]. Qed.

Lemma put_key_ok s i k : core_ok s -> 0 <= i < 2 -> exists s', put_key s i k = Done s'.
Proof. intros Hs Hi. unfold put_key. rewrite (aset_keys _ _ _ 2) by (done || apply (co_keys s Hs)). by eexists. Qed.


(** ** Departures *)

(** A data command in ECB mode ends the emulator: neither the vector can be set nor asked
    for, and both errors go to one variable. *)
Lemma ecb_data_aborts s w0 w1 w2 w3 k c v : COMMAND_OPCODE w0 = OPCODE_DATA -> nonzero (COMMAND_DATA_COMMAND_LENGTH w0 .& 0xf) = false ->
  aget (keys s) (COMMAND_DATA_COMMAND_KEY_CONTEXT w0) = Done k -> disabled k = false -> cipher k = Some c -> drv c = driver_ecb ->
  aget (iv s) (COMMAND_DATA_COMMAND_IV_CONTEXT w0) = Done v -> aes_process_command s (mkCommand w0 [w0; w1; w2; w3]) = Abort.
Proof.
  intros Ho Hn Hk Hd Hc He Hv. rewrite data_words by done. rewrite Hn, Hk. run. rewrite Hd, Hc, Hv. run.
  unfold qcrypto_cipher_setiv. rewrite He. cbn [error_setg]. run. unfold qcrypto_cipher_crypt. case_match; [|done].
  unfold driver_crypt. rewrite He. run. unfold qcrypto_cipher_getiv. by rewrite He.
Qed.

Lemma control_event s v : joining s = None -> in_width 32 v -> aes_event s (Write REG_AES_CONTROL v) = control_write s v.
Proof.
  intros Hj Hv. cbn [aes_event]. rewrite Hj. unfold aes_reg_write. cbv zeta. rewrite wrap_small by done.
  change (AES_BLK_REG_SIZE <=? REG_AES_CONTROL) with false. change (read_only REG_AES_CONTROL) with false.
  change (REG_AES_CONTROL =? REG_AES_INT_STATUS) with false. change (REG_AES_CONTROL =? REG_AES_INT_ENABLE) with false.
  change (REG_AES_CONTROL =? REG_AES_WATERMARKS) with false. change (REG_AES_CONTROL =? REG_AES_CONTROL) with true. cbv iota.
  by destruct (control_write s v) as [[?|]| | |].
Qed.

(** A stop while the thread has a command: the guest waits for the thread with the lock the
    thread needs, and nothing moves any more. *)
Lemma stop_deadlock s c : threads s = [Holding c] -> stopped s = false -> joining s = None -> exists s',
  aes_event s (Write REG_AES_CONTROL AES_BLK_CONTROL_STOP) = Done (Some s') /\ forall e, aes_event s' e = Done None.
Proof.
  intros Ht Hs Hj. rewrite control_event by done. unfold control_write. cbn. unfold aes_stop. rewrite Hs. cbn. rewrite Ht. cbn.
  eexists. split; [reflexivity|]. intros [a v|i]; [done|]. cbn. unfold aes_thread. cbn. rewrite Ht. by destruct i.
Qed.

(** A stop between the test for work and the sleep: the signal is lost, and the thread
    sleeps while the guest waits for it. *)
Lemma stop_lost s : threads s = [Tested] -> stopped s = false -> joining s = None -> exists s' s'',
  aes_event s (Write REG_AES_CONTROL AES_BLK_CONTROL_STOP) = Done (Some s') /\ aes_event s' (Run 0) = Done (Some s'') /\
  forall e, aes_event s'' e = Done None.
Proof.
  intros Ht Hs Hj. rewrite control_event by done. unfold control_write. cbn. unfold aes_stop. rewrite Hs. cbn. rewrite Ht. cbn.
  eexists _, _. split; [reflexivity|]. unfold aes_thread. cbn. rewrite Ht. cbn. split; [reflexivity|].
  intros [a v|i]; [done|]. cbn. unfold aes_thread. cbn. rewrite Ht. by destruct i.
Qed.

Lemma stop_stopped s a : stopped s = true -> aes_stop s a = Done s.
Proof. unfold aes_stop. by intros ->. Qed.

(** A reset marks the engine as stopped before it stops it, so the thread sleeps on, and
    the next start makes a second one. *)
Lemma reset_keeps_thread s : threads s = [Asleep] -> joining s = None -> exists s' s'',
  aes_event s (Write REG_AES_CONTROL AES_BLK_CONTROL_RESET_AES) = Done (Some s') /\
  aes_event s' (Write REG_AES_CONTROL AES_BLK_CONTROL_START) = Done (Some s'') /\ threads s'' = [Asleep; Top].
Proof.
  intros Ht Hj. rewrite control_event by done. change (control_write s AES_BLK_CONTROL_RESET_AES) with (apple_aes_reset s). unfold apple_aes_reset. cbv zeta.
  match goal with |- context [aes_stop ?x true] => set (s0 := x) end. rewrite stop_stopped by done. run.
  assert (threads s0 = [Asleep] /\ stopped s0 = true /\ joining s0 = None) as (F1 & F2 & F3) by done.
  unfold aes_empty_fifo, queue_free. rewrite F1. cbn [forallb andb]. set (s1 := aes_update_command_fifo_status _).
  assert (threads s1 = [Asleep] /\ stopped s1 = true /\ joining s1 = None) as (E1 & E2 & E3).
  { destruct (update_status_frame (set_level (s0 <| queue := [] |>) 0)) as (_ & (W1 & _ & _ & _ & _ & _ & W7)%wiring_inv & W8).
    unfold s1. by rewrite W1, W7, W8. }
  exists s1. eexists. split; [done|]. rewrite control_event by done.
  change (control_write s1 AES_BLK_CONTROL_START) with (Done (Some (aes_start s1))). unfold aes_start. rewrite E2. split; [done|]. cbn. by rewrite E1.
Qed.

(** A new watermark: the status is computed from the old one. *)
Lemma watermark_stale s v s' : regs_ok s -> aes_event s (Write REG_AES_WATERMARKS v) = Done (Some s') ->
  get s' REG_AES_WATERMARKS = u32 v /\
  Z.testbit (get s' REG_AES_COMMAND_FIFO_STATUS) 0 = (level s <? extract32 (get s REG_AES_WATERMARKS) 0 7).
Proof.
  intros Hr He. cbn [aes_event] in He. destruct (joining s); [done|]. apply done_some in He as <-. cbn [reg_commit].
  assert (regs_ok (aes_update_command_fifo_status s)) as Hr' by by apply update_status_regs.
  split; [by rewrite get_put_same|]. rewrite get_put_other by done. unfold aes_update_command_fifo_status. cbv zeta. rewrite get_update_irq.
  unfold set_int. rewrite get_put_other, get_put_same by done. by rewrite testbit_assign_bit.
Qed.

(** A word that begins no command is counted in the level and never taken off again. *)
Lemma unknown_opcode_level s w : regs_ok s -> command_words w = None -> data s = None -> data_len s <= data_read s -> exists s',
  fifo_write s w = Done (Some s') /\ level s' = u8 (level s + 1) /\ queue s' = queue s /\ data s' = None.
Proof.
  intros Hr Hw Hd Hl. unfold fifo_write, fifo_word. rewrite (proj2 (Z.ltb_ge _ _) Hl), Hw. cbv zeta. run.
  set (s1 := set_int _ _ _). assert (data s1 = None) as Hd1 by exact Hd. unfold fifo_enqueue. rewrite Hd1. cbn [mbind option_bind].
  eexists. split; [reflexivity|]. assert (regs_ok s1) as Hr1 by (by apply set_int_regs_ok).
  destruct (bump s1 (level s1 + 1) Hr1) as ((_ & (_ & W2 & _ & W4 & _)%wiring_inv & _) & _ & B5).
  assert (level s1 = level s) as El by (unfold s1, level, set_int; by rewrite get_put_other). by rewrite B5, W2, W4, El.
Qed.

(** A device that was saved in the middle of a command has lost the words: the next one
    goes through a null pointer. *)
Lemma load_in_command saved s s' w : vmstate_apple_aes saved s = Done s' -> data s = None -> data_read saved < data_len saved -> fifo_word s' w = Oob.
Proof.
  unfold vmstate_apple_aes. intros (ks & _ & Hs)%bind_Done_inv Hd Hl.
  assert (data_read s' = data_read saved /\ data_len s' = data_len saved /\ data s' = None) as (E1 & E2 & E3).
  { injection Hs as <-. unfold apple_aes_post_load, aes_start. cbn. by destruct (stopped saved). }
  unfold fifo_word. by rewrite E1, E2, E3, (proj2 (Z.ltb_lt _ _) Hl).
Qed.

(** A key that was never set is of length zero, which no cipher takes: a device with one
    cannot be loaded. *)
Lemma load_unset_key saved s k ks : keys saved = k :: ks -> select k = KEY_SELECT_SOFTWARE -> algo k = ALGO_AES_128 -> len k = 0 ->
  vmstate_apple_aes saved s = Abort.
Proof.
  intros Hk Hs Ha Hl. unfold vmstate_apple_aes. rewrite Hk.
  assert (apple_aes_key_post_load k = Abort) as E.
  { unfold apple_aes_key_post_load. cbv zeta. change (select (k <| cipher := None |>)) with (select k). rewrite Hs.
    change (algo (k <| cipher := None |>)) with (algo k). change (len (k <| cipher := None |>)) with (len k). rewrite Ha, Hl.
    change (negb (KEY_SELECT_SOFTWARE =? KEY_SELECT_SOFTWARE)) with false. cbv iota. change (Z.to_nat 0) with 0%nat. rewrite take_0.
    unfold key_mode. by repeat case_match. }
  change (mapM apple_aes_key_post_load (k :: ks)) with (y ← apple_aes_key_post_load k; l ← mapM apple_aes_key_post_load ks; mret (y :: l)). by rewrite E.
Qed.

(** Saving a running device ends its thread and leaves it marked as running: a start makes
    no new one. *)
Lemma save_ends_thread s : threads s = [Asleep] -> queue s = [] -> stopped s = false -> joining s = None -> exists s1 s2 s3,
  apple_aes_pre_save s = Done s1 /\ aes_event s1 (Run 0) = Done (Some s2) /\ aes_event s2 (Run 0) = Done (Some s3) /\
  threads s3 = [Joined] /\ aes_event s3 (Write REG_AES_CONTROL AES_BLK_CONTROL_START) = Done (Some s3).
Proof.
  intros Ht Hq Hs Hj. set (s1 := qemu_cond_signal (s <| stopped := true |>) <| joining := Some false |>).
  assert (threads s1 = [Testing]) as E1 by (cbn; by rewrite Ht). set (s2 := set_thread s1 0 Top).
  assert (threads s2 = [Top]) as E2 by (cbn; by rewrite Ht). exists s1, s2, (thread_return s2 0).
  split; [unfold apple_aes_pre_save, aes_stop; rewrite Hs; cbn; by rewrite Ht|].
  split; [cbn; unfold aes_thread, queue_free; rewrite E1; cbn; by rewrite Hq|].
  split; [cbn [aes_event]; unfold aes_thread; by rewrite E2|]. unfold thread_return. cbn [joining s2 set_thread]. change (joining s2) with (Some false). rewrite E2.
  cbv iota. cbn [Nat.eqb length]. split; [cbn; by rewrite Ht|]. by rewrite control_event.
Qed.
End AesSpec.

(** ** A sample engine

    Its block cipher adds the first byte of the key; its memory is a function. *)
Definition sample_cipher (a : Z) (k : bytes) : block_fn := fmap (fun x => x .^ (hd 0 k .& 0xff)).

#[local] Instance sample_nettle : Nettle := textbook sample_cipher sample_cipher.

Lemma sample_cipher_ok a k : block_ok (block_len_of a) (sample_cipher a k).
Proof.
  intros b [Hb Hn]. unfold sample_cipher, text, zlen in *. rewrite length_fmap. split; [|done]. split; [|done].
  apply Forall_fmap. eapply Forall_impl; [exact Hb|]. intros x Hx. apply byte_lxor; [done|apply land_byte].
Qed.

#[local] Instance sample_laws : NettleLaws.
Proof.
  apply textbook_laws; [apply sample_cipher_ok|apply sample_cipher_ok|]. intros a k b _ _. unfold sample_cipher. rewrite <- list_fmap_compose.
  rewrite <- (list_fmap_id b) at 2. apply list_fmap_ext. intros i x _. cbn. by rewrite Z.lxor_assoc, Z.lxor_nilpotent, Z.lxor_0_r.
Qed.

#[local, refine] Instance sample_space : DmaSpace (Z -> Z) := {|
  dma_memory_read m a n := (fun i => m (a + Z.of_nat i)) <$> seq 0 n;
  dma_memory_write m a b := fun x => if (a <=? x) && (x <? a + zlen b) then nth (Z.to_nat (x - a)) b 0 else m x;
|}.
Proof. intros m a n. by rewrite length_fmap, length_seq. Defined.

Lemma sample_read_write (m : Z -> Z) a b : dma_memory_read (dma_memory_write m a b) a (length b) = b.
Proof.
  cbn. apply list_eq. intros i. rewrite list_lookup_fmap. destruct (decide (i < length b)%nat) as [Hi|Hi].
  - rewrite lookup_seq_lt by done. cbn. rewrite (proj2 (Z.leb_le _ _)), (proj2 (Z.ltb_lt _ _)) by (unfold zlen; lia). cbn.
    replace (Z.to_nat (a + Z.of_nat i - a)) with i by lia. destruct (lookup_lt_is_Some_2 b i Hi) as [x Hx]. by rewrite nth_lookup, Hx.
  - rewrite lookup_seq_ge, lookup_ge_None_2 by lia. done.
Qed.

Definition sample_memory (a : Z) : Z := (a * 7) .& 0xff.

(** A new engine after its start. *)
Definition sample_aes : AppleAESState (M := Z -> Z) :=
  match apple_aes_realize (apple_aes_create 0 sample_memory) with Done (Some s) => aes_start s | _ => apple_aes_create 0 sample_memory end.

Definition sample_encrypt : job := mkJob 0x10110000 [0x03020159; 1; 2; 3] 0x20000000 [4; 5; 6; 7] 0x50000020 0 0x1000 0x2000.
Definition sample_decrypt : job := mkJob 0x10010000 [0x03020159; 1; 2; 3] 0x20000000 [4; 5; 6; 7] 0x50000020 0 0x2000 0x3000.

Lemma sample_ready : ready sample_aes.
Proof.
  split; try done; [by left|]. split; try done; repeat constructor; done.
Qed.

Lemma sample_job_ok j : j = sample_encrypt \/ j = sample_decrypt -> job_ok j.
Proof. intros [-> | ->]; split; try done; try (repeat constructor; done); split; try done; by left. Qed.


Lemma aes_roundtrip_witness : sn step (sample_aes, concat (job_words sample_encrypt ++ job_words sample_decrypt)) /\
  forall s' ws, rtc step (sample_aes, concat (job_words sample_encrypt ++ job_words sample_decrypt)) (s', ws) ->
  nf step (s', ws) -> dma_memory_read (mem s') 0x3000 32 = dma_memory_read sample_memory 0x1000 32.
Proof.
  refine (aes_roundtrip sample_aes sample_encrypt sample_decrypt sample_ready (sample_job_ok _ (or_introl eq_refl))
    (sample_job_ok _ (or_intror eq_refl)) eq_refl eq_refl eq_refl eq_refl eq_refl _ _).
  - repeat constructor; done.
  - intros j m t _ Hl. rewrite <- Hl. apply sample_read_write.
Defined.

Lemma aes_line_witness : exists s', aes_event sample_aes (Write REG_AES_INT_ENABLE 1) = Done (Some s') /\ line_ok s'.
Proof.
  eexists. split; [vm_compute; reflexivity|].
  refine (proj2 (aes_line sample_aes (Write REG_AES_INT_ENABLE 1) _ eq_refl _ _ _)); [by split|by intros a v [= <- <-]|vm_compute; reflexivity].
Defined.

