(* ===== verification/Aop.v ===== *)
(** * Always-on processor

    Model of [hw/misc/apple-silicon/aop.c]: end points that exchange packets with the guest
    through two rings in guest memory, and of the audio service behind one of them,
    [hw/audio/apple-silicon/aop-audio.c].  Guest memory is that of [Sio]; an access to
    memory that is not there is an error the caller looks at.  Messages to the guest are
    recorded in the order they are sent. *)

From S2P Require Import Prelude Dt BootTree CString HostMem Sio.

(** ** Accesses to guest memory

    [None] is an error; what was stored before it stays. *)
Definition tx (A : Type) : Type := (Z -> Z) -> (Z -> Z) * option A.
#[global] Instance tx_ret : MRet tx := fun A x m => (m, Some x).
#[global] Instance tx_bind : MBind tx := fun A B f c m => match c m with (m, Some x) => f x m | (m, None) => (m, None) end.

Definition tx_fail {A} : tx A := fun m => (m, None).

Section Dma.
Context `{DmaMemory}.

Definition dma_memory_read (addr : Z) (n : nat) : tx bytes := fun m =>
  if dma_valid addr (Z.of_nat n) then (m, Some (read_mem m addr n)) else (m, None).

Definition dma_memory_write (addr : Z) (bs : bytes) : tx unit := fun m =>
  if dma_valid addr (zlen bs) then (write_mem m (seqZ addr (zlen bs)) bs, Some tt) else (m, None).

Definition dma_memory_set (addr c : Z) (n : nat) : tx unit := dma_memory_write addr (replicate n (u8 c)).

Definition ld_le (addr : Z) (n : nat) : tx Z := b ← dma_memory_read addr n; mret (le_combine b).
Definition st_le (addr : Z) (n : nat) (v : Z) : tx unit := dma_memory_write addr (le_split n v).
Definition ldl_be_dma (addr : Z) : tx Z := b ← dma_memory_read addr 4; mret (le_combine (rev b)).
Definition stl_be_dma (addr v : Z) : tx unit := dma_memory_write addr (rev (le_split 4 v)).
End Dma.

(** [ROUND_UP] of 32-bit values. *)
Definition ROUND_UP (n d : Z) : Z := u32 (n + d - 1) .& u32 (- d).

Definition OP_HELLO : Z := 0x80.
Definition OP_REQUEST_REGION_BYTES : Z := 0x81.
Definition OP_SET_RX_QUEUE_BY_ADDR : Z := 0x82.
Definition OP_SET_TX_QUEUE_BY_ADDR : Z := 0x83.
Definition OP_TX_SIGNAL : Z := 0x85.
Definition OP_ACK_STOP_QUEUE : Z := 0x87.
Definition OP_ACK_HELLO : Z := 0xA0.
Definition OP_ACK_REQUEST_REGION : Z := 0xA1.
Definition OP_RX_SIGNAL : Z := 0xA2.
Definition OP_STOP_QUEUE : Z := 0xA4.

Definition MSG_OP (op : Z) : Z := op .<< 48.
Definition MSG_HELLO (ver : Z) : Z := MSG_OP OP_HELLO .| (ver .& 0xFFFFFFFFFFFF).
Definition MSG_REQUEST_REGION_BYTES (len : Z) : Z := MSG_OP OP_REQUEST_REGION_BYTES .| (len .& 0xFFFFFFFFFFFF).
Definition MSG_SET_RX_QUEUE_BY_ADDR (addr : Z) : Z := MSG_OP OP_SET_RX_QUEUE_BY_ADDR .| addr.
Definition MSG_SET_TX_QUEUE_BY_ADDR (addr : Z) : Z := MSG_OP OP_SET_TX_QUEUE_BY_ADDR .| addr.
Definition MSG_TX_SIGNAL : Z := MSG_OP OP_TX_SIGNAL.
Definition MSG_OP_GET (val : Z) : Z := (val .>> 48) .& 0xFF.
Definition MSG_ACK_REQUEST_REGION (val : Z) : Z := val .& 0xFFFFFFFFFFFF.

(** The value of a character constant of four characters. *)
Definition RB_V7_IOP_MAGIC : Z := 0x494F5020.
Definition RB_V7_AOP_MAGIC : Z := 0x414F5020.

Definition SUB_PACKET_FLAG_CAT_GET (cat : Z) : Z := (cat .>> 4) .& 0xFF.
Definition SUB_PACKET_FLAG_CAT (cat : Z) : Z := (cat .& 0xFF) .<< 4.
Definition CAT_REPORT : Z := 0.
Definition CAT_RESPONSE : Z := 2.
Definition CAT_LONG_COMMAND : Z := 3.

Definition PACKET_TYPE_GET_PROPERTY : Z := 0xA.
Definition PACKET_TYPE_COMMAND : Z := 0x20.
Definition PACKET_TYPE_READY_REPORT : Z := 0xC0.
Definition RB_ENTRY_LEN : Z := 16.
Definition PACKET_LEN : Z := 16.
Definition SUB_PACKET_LEN : Z := 24.
Definition READY_REPORT_LEN : Z := 44.

Inductive AppleAOPEndpointType := AOP_EP_TYPE_HID | AOP_EP_TYPE_MUX | AOP_EP_TYPE_APP.
Inductive AppleAOPResult := AOP_RESULT_OK | AOP_RESULT_TIMEOUT | AOP_RESULT_ABORTED | AOP_RESULT_ERROR.
Definition result_code (r : AppleAOPResult) : Z :=
  match r with AOP_RESULT_OK => 0 | AOP_RESULT_TIMEOUT => 1 | AOP_RESULT_ABORTED => 2 | AOP_RESULT_ERROR => 3 end.

Inductive AppleAOPEndpointState :=
  EP_STATE_POWERED_OFF | EP_STATE_AWAITING_HELLO | EP_STATE_AWAITING_RX_ACK | EP_STATE_AWAITING_TX_ACK | EP_STATE_IDLE.
#[global] Instance AppleAOPEndpointState_eq_dec : EqDecision AppleAOPEndpointState.
Proof. solve_decision. Defined.

(** A service: its state [T] is what the callbacks are given, and a buffer is what is
    behind the pointer they get, [None] for a null pointer. *)
Record AppleAOPEndpointDescription (T : Type) := mkDescription {
  type : AppleAOPEndpointType;
  service_name : bytes;
  service_id : Z;
  interface_num : Z;
  rx_len : Z;
  tx_len : Z;
  get_property : option (T -> Z -> bytes -> outcome (T * AppleAOPResult * bytes));
  handle_command : option (T -> Z -> option bytes -> Z -> option bytes -> Z -> outcome (T * AppleAOPResult * option bytes));
}.
Arguments type {T}. Arguments service_name {T}. Arguments service_id {T}. Arguments interface_num {T}. Arguments rx_len {T}.
Arguments tx_len {T}. Arguments get_property {T}. Arguments handle_command {T}.

(** An end point with the part of the processor it uses: the alignment, guest memory, the
    clock, and the messages that were sent. *)
Record AppleAOPEndpoint (T : Type) := mkEp {
  num : Z;
  rx_off : Z;
  tx_off : Z;
  seq : Z;
  opaque : T;
  descr : AppleAOPEndpointDescription T;
  state : AppleAOPEndpointState;
  align : Z;
  memory : Z -> Z;
  clock : Z;
  sent : list (Z * Z);
}.
Arguments num {T}. Arguments rx_off {T}. Arguments tx_off {T}. Arguments seq {T}. Arguments opaque {T}. Arguments descr {T}.
Arguments state {T}. Arguments align {T}. Arguments memory {T}. Arguments clock {T}. Arguments sent {T}. Arguments mkEp {T}.
#[global] Instance eta_AppleAOPEndpoint {T} : Eta (AppleAOPEndpoint T) := fun s =>
  mkEp (num s) (rx_off s) (tx_off s) (seq s) (opaque s) (descr s) (state s) (align s) (memory s) (clock s) (sent s).

Section Aop.
Context `{DmaMemory} {T : Type}.
Implicit Types s : AppleAOPEndpoint T.

Definition apple_rtkit_send_user_msg s (msg : Z) : AppleAOPEndpoint T := s <| sent ::= fun l => l ++ [(num s, msg)] |>.

(** An access of the end point: the state with the memory after it, and the result. *)
Definition access {A} s (c : tx A) : AppleAOPEndpoint T * option A := let (m, r) := c (memory s) in (s <| memory := m |>, r).

(** ** Rings *)

Definition apple_aop_ep_init_rb s (addr len : Z) : tx unit :=
  st_le addr 4 (u32 (len - align s * 3));;
  st_le (u32 (addr + 4)) 2 6;;
  st_le (u32 (addr + 6)) 2 7.

Definition apple_aop_ep_set_rptr s (addr val : Z) : tx unit := st_le (u32 (addr + align s)) 4 val.
Definition apple_aop_ep_get_rptr s (addr : Z) : tx Z := ld_le (u32 (addr + align s)) 4.
Definition apple_aop_ep_set_wptr s (addr val : Z) : tx unit := st_le (u32 (addr + align s * 2)) 4 val.
Definition apple_aop_ep_get_wptr s (addr : Z) : tx Z := ld_le (u32 (addr + align s * 2)) 4.

Definition apple_aop_ep_read_rb_entry (addr : Z) : tx Z :=
  magic ← ldl_be_dma addr;
  if negb (magic =? RB_V7_AOP_MAGIC) then tx_fail else ld_le (u32 (addr + 4)) 4.

Definition apple_aop_ep_write_rb_entry (addr length : Z) : tx unit :=
  stl_be_dma addr RB_V7_IOP_MAGIC;;
  st_le (u32 (addr + 4)) 4 length;;
  dma_memory_set (u32 (addr + 8)) 0 8.

(** What a sub-packet has besides its payload. *)
Record sub_packet := mkSub {
  payload_len : Z;
  category : Z;
  p_type : Z;
  p_seq : Z;
  out_len : Z;
}.

(** The callers pass no place for the timestamp. *)
Definition apple_aop_ep_read_sub_packet (addr : Z) : tx sub_packet :=
  version ← ld_le (u32 (addr + 4)) 1;
  if negb (version =? 2) then tx_fail
  else
    len ← ld_le addr 4;
    flags ← ld_le (u32 (addr + 5)) 1;
    ty ← ld_le (u32 (addr + 6)) 2;
    sq ← ld_le (u32 (addr + 8)) 2;
    out ← ld_le (u32 (addr + 20)) 4;
    mret (mkSub len (SUB_PACKET_FLAG_CAT_GET flags) ty sq out).

Definition apple_aop_ep_write_sub_packet (addr : Z) (p : sub_packet) (timestamp : Z) : tx unit :=
  st_le addr 4 (payload_len p);;
  dma_memory_set (u32 (addr + 4)) 2 1;;
  dma_memory_set (u32 (addr + 5)) (SUB_PACKET_FLAG_CAT (category p)) 1;;
  st_le (u32 (addr + 6)) 2 (p_type p);;
  st_le (u32 (addr + 8)) 2 (p_seq p);;
  st_le (u32 (addr + 10)) 8 timestamp;;
  dma_memory_set (u32 (addr + 18)) 0 2;;
  st_le (u32 (addr + 20)) 4 (out_len p).

Definition apple_aop_ep_read_packet (addr : Z) : tx unit :=
  version ← ld_le addr 1;
  if negb (version =? 2) then tx_fail else mret tt.

Definition apple_aop_ep_write_packet (addr sq timestamp : Z) : tx unit :=
  dma_memory_set addr 2 1;;
  st_le (u32 (addr + 1)) 2 sq;;
  dma_memory_set (u32 (addr + 3)) 0 5;;
  st_le (u32 (addr + 8)) 8 timestamp.

(** ** Sending *)

(** The stores of a packet, and the place of its end. *)
Definition send_stores s (p : sub_packet) (payload : bytes) : tx unit :=
  wptr ← apple_aop_ep_get_wptr s (tx_off s);
  let len := zlen payload in
  let data_off := u32 (align s * 3) in
  let total_size := ROUND_UP (u32 (RB_ENTRY_LEN + PACKET_LEN + SUB_PACKET_LEN + len)) (align s) in
  let over := tx_len (descr s) <? u32 (data_off + u32 (wptr + total_size)) in
  let end_wptr := if over then total_size else u32 (wptr + total_size) in
  let wptr := if over then 0 else wptr in
  let at_ w := u32 (tx_off s + data_off + w) in
  apple_aop_ep_write_rb_entry (at_ wptr) (u32 (PACKET_LEN + SUB_PACKET_LEN + len));;
  apple_aop_ep_write_packet (at_ (u32 (wptr + RB_ENTRY_LEN))) (seq s) (clock s);;
  apple_aop_ep_write_sub_packet (at_ (u32 (wptr + RB_ENTRY_LEN + PACKET_LEN))) p (clock s);;
  dma_memory_write (at_ (u32 (wptr + RB_ENTRY_LEN + PACKET_LEN + SUB_PACKET_LEN))) payload;;
  apple_aop_ep_set_wptr s (tx_off s) end_wptr.

(** With [false] the send failed. *)
Definition apple_aop_ep_send_packet_full s (ty cat sq : Z) (payload : bytes) (out : Z) : AppleAOPEndpoint T * bool :=
  if negb (bool_decide (state s = EP_STATE_IDLE)) then (s, false)
  else
    match access s (send_stores s (mkSub (zlen payload) cat ty sq out) payload) with
    | (s, None) => (s, false)
    | (s, Some _) =>
        let s := apple_rtkit_send_user_msg s MSG_TX_SIGNAL in
        (s <| seq ::= fun n => if n <? 0xFFFF then n + 1 else 0 |>, true)
    end.

Definition apple_aop_ep_send_report_locked s (packet_type : Z) (payload : bytes) (out : Z) : AppleAOPEndpoint T * bool :=
  apple_aop_ep_send_packet_full s packet_type CAT_REPORT (seq s) payload out.

Definition apple_aop_ep_send_reply_locked s (packet_type sq : Z) (payload : bytes) (out : Z) : AppleAOPEndpoint T * bool :=
  apple_aop_ep_send_packet_full s packet_type CAT_RESPONSE sq payload out.

(** The same for callers that do not hold the lock of the end point. *)
Definition apple_aop_ep_send_report s (packet_type : Z) (payload : bytes) (out : Z) : AppleAOPEndpoint T * bool :=
  apple_aop_ep_send_report_locked s packet_type payload out.

Definition apple_aop_ep_send_reply s (packet_type sq : Z) (payload : bytes) (out : Z) : AppleAOPEndpoint T * bool :=
  apple_aop_ep_send_reply_locked s packet_type sq payload out.

Definition apple_aop_ep_write_ready_report s : bytes :=
  let name := take 32 (service_name (descr s)) in
  let flags := match type (descr s) with AOP_EP_TYPE_HID => 0 | AOP_EP_TYPE_MUX => BIT 3 | AOP_EP_TYPE_APP => BIT 31 end in
  name ++ replicate (32 - length name) 0 ++ le_split 4 (service_id (descr s)) ++ le_split 4 flags ++ le_split 4 (interface_num (descr s)).

(** ** Receiving *)

(** A ring that cannot be read counts as empty. *)
Definition apple_aop_ep_rx_empty s : AppleAOPEndpoint T * bool :=
  match access s (wptr ← apple_aop_ep_get_wptr s (rx_off s); rptr ← apple_aop_ep_get_rptr s (rx_off s); mret (wptr =? rptr)) with
  | (s, Some b) => (s, b)
  | (s, None) => (s, true)
  end.

(** The next packet of the ring and its payload. *)
Definition recv_packet s : tx (sub_packet * bytes) :=
  rptr ← apple_aop_ep_get_rptr s (rx_off s);
  let data_off := u32 (align s * 3) in
  let at_ r := u32 (rx_off s + data_off + r) in
  let rptr := if rx_len (descr s) <? u32 (data_off + rptr + RB_ENTRY_LEN) then 0 else rptr in
  rb_payload_len ← apple_aop_ep_read_rb_entry (at_ rptr);
  let total_rb_entry_len := ROUND_UP (u32 (RB_ENTRY_LEN + rb_payload_len)) (align s) in
  let final_rptr := u32 (rptr + total_rb_entry_len) in
  let last := u32 (data_off + final_rptr) in
  let wraps := rx_len (descr s) <? last in
  let final_rptr := if wraps then total_rb_entry_len else if last =? rx_len (descr s) then 0 else final_rptr in
  let rptr := if wraps then 0 else rptr in
  _ ← apple_aop_ep_read_rb_entry (at_ rptr);
  apple_aop_ep_read_packet (at_ (u32 (rptr + RB_ENTRY_LEN)));;
  p ← apple_aop_ep_read_sub_packet (at_ (u32 (rptr + RB_ENTRY_LEN + PACKET_LEN)));
  payload ← dma_memory_read (at_ (u32 (rptr + RB_ENTRY_LEN + PACKET_LEN + SUB_PACKET_LEN))) (Z.to_nat (payload_len p));
  apple_aop_ep_set_rptr s (rx_off s) final_rptr;;
  mret (p, payload).

Definition apple_aop_ep_recv_packet_locked s : outcome (AppleAOPEndpoint T * option (sub_packet * bytes)) :=
  let '(s, empty) := apple_aop_ep_rx_empty s in
  c_assert (negb empty);;
  Done (access s (recv_packet s)).

(** ** Requests *)

(** A command whose buffers are elsewhere in guest memory: the addresses and lengths are in
    the payload.  The buffer of an input that cannot be read has no contents. *)
Definition long_command s (f : T -> Z -> option bytes -> Z -> option bytes -> Z -> outcome (T * AppleAOPResult * option bytes))
    (sq : Z) (payload : bytes) : outcome (AppleAOPEndpoint T * AppleAOPResult) :=
  out_ool_addr ← load_le64 payload 0;
  in_ool_addr ← load_le64 payload 8;
  actual_out_len ← load_le payload 0x10;
  actual_in_len ← load_le payload 0x14;
  inp ← (if actual_in_len =? 0 then Done None
         else if dma_valid in_ool_addr actual_in_len then Done (Some (read_mem (memory s) in_ool_addr (Z.to_nat actual_in_len)))
         else Oob);
  let out := if actual_out_len =? 0 then None else Some (replicate (Z.to_nat actual_out_len) 0) in
  '(o, res, out) ← f (opaque s) sq inp actual_in_len out actual_out_len;
  let s := fst (access (s <| opaque := o |>) (dma_memory_write out_ool_addr (default [] out))) in
  Done (s, res).

(** A packet is handled: the state of the service and the payload of the reply. *)
Definition handle_packet s (p : sub_packet) (in_payload : bytes) : outcome (AppleAOPEndpoint T * bytes) :=
  let actual_in_payload := drop 4 in_payload in
  let actual_in_len := u32 (payload_len p - 4) in
  let actual_out_len := u32 (out_len p + 4) in
  let out_payload := replicate (Z.to_nat actual_out_len) 0 in
  if p_type p =? PACKET_TYPE_GET_PROPERTY then
    match get_property (descr s) with
    | None => Done (s, out_payload)
    | Some f =>
        prop ← load_le actual_in_payload 0;
        '(o, res, out) ← f (opaque s) prop (drop 4 out_payload);
        out_payload ← store_le (take 4 out_payload ++ out) 0 (result_code res);
        Done (s <| opaque := o |>, out_payload)
    end
  else if p_type p =? PACKET_TYPE_COMMAND then
    match handle_command (descr s) with
    | None => Done (s, out_payload)
    | Some f =>
        if category p =? CAT_LONG_COMMAND then
          '(s, res) ← long_command s f (p_seq p) actual_in_payload;
          out_payload ← store_le out_payload 0 (result_code res);
          Done (s, out_payload)
        else
          '(o, res, out) ← f (opaque s) (p_seq p) (Some actual_in_payload) actual_in_len (Some (drop 4 out_payload)) actual_out_len;
          out_payload ← store_le (take 4 out_payload ++ default [] out) 0 (result_code res);
          Done (s <| opaque := o |>, out_payload)
    end
  else Done (s, out_payload).

(** The loop of the signal: packets are handled and answered until the ring is empty or an
    access fails. *)
Fixpoint rx_loop (fuel : nat) s : outcome (AppleAOPEndpoint T) :=
  let '(s, empty) := apple_aop_ep_rx_empty s in
  if empty : bool then Done s
  else
    match fuel with
    | O => NoFuel
    | S fuel =>
        '(s, r) ← apple_aop_ep_recv_packet_locked s;
        match r with
        | None => Done s
        | Some (p, payload) =>
            '(s, out_payload) ← handle_packet s p payload;
            let '(s, ok) := apple_aop_ep_send_reply_locked s (p_type p) (p_seq p) out_payload 0 in
            if ok : bool then rx_loop fuel s else Done s
        end
    end.

(** A message of the guest. *)
Definition apple_aop_ep_handle_message (fuel : nat) s (msg : Z) : outcome (AppleAOPEndpoint T) :=
  let op := MSG_OP_GET msg in
  match state s with
  | EP_STATE_POWERED_OFF => Done s
  | EP_STATE_AWAITING_HELLO =>
      if negb (op =? OP_ACK_HELLO) then Done s
      else Done (apple_rtkit_send_user_msg s (MSG_REQUEST_REGION_BYTES (rx_len (descr s))) <| state := EP_STATE_AWAITING_RX_ACK |>)
  | EP_STATE_AWAITING_RX_ACK =>
      if negb (op =? OP_ACK_REQUEST_REGION) then Done s
      else
        let s := s <| rx_off := u32 (MSG_ACK_REQUEST_REGION msg) |> in
        match access s (apple_aop_ep_init_rb s (rx_off s) (rx_len (descr s))) with
        | (s, None) => Done s
        | (s, Some _) =>
            let s := apple_rtkit_send_user_msg s (MSG_SET_RX_QUEUE_BY_ADDR (rx_off s)) in
            let s := apple_rtkit_send_user_msg s (MSG_REQUEST_REGION_BYTES (tx_len (descr s))) in
            Done (s <| state := EP_STATE_AWAITING_TX_ACK |>)
        end
  | EP_STATE_AWAITING_TX_ACK =>
      if negb (op =? OP_ACK_REQUEST_REGION) then Done s
      else
        let s := s <| tx_off := u32 (MSG_ACK_REQUEST_REGION msg) |> in
        match access s (apple_aop_ep_init_rb s (tx_off s) (tx_len (descr s))) with
        | (s, None) => Done s
        | (s, Some _) =>
            let s := apple_rtkit_send_user_msg s (MSG_SET_TX_QUEUE_BY_ADDR (tx_off s)) in
            let s := s <| state := EP_STATE_IDLE |> in
            Done (fst (apple_aop_ep_send_report_locked s PACKET_TYPE_READY_REPORT (apple_aop_ep_write_ready_report s) 0))
        end
  | EP_STATE_IDLE =>
      if negb (op =? OP_RX_SIGNAL) then
        if negb (op =? OP_STOP_QUEUE) then Done s else Done (apple_rtkit_send_user_msg s (MSG_OP OP_ACK_STOP_QUEUE))
      else rx_loop fuel s
  end.

(** ** The processor *)

Definition apple_aop_ep_hello_foreach s : AppleAOPEndpoint T :=
  apple_rtkit_send_user_msg s (MSG_HELLO 8) <| state := EP_STATE_AWAITING_HELLO |>.

Definition apple_aop_ep_reset_foreach s : AppleAOPEndpoint T :=
  s <| state := EP_STATE_POWERED_OFF |> <| tx_off := 0 |> <| rx_off := 0 |>.

(** The end points, and what they share. *)
Record AppleAOPState := mkAOP {
  endpoints : list (AppleAOPEndpoint T);
  a_align : Z;
  a_memory : Z -> Z;
  a_clock : Z;
  a_sent : list (Z * Z);
}.

(** An end point at work: it is given what is shared, and gives it back. *)
Definition with_endpoint (a : AppleAOPState) (i : nat) (f : AppleAOPEndpoint T -> outcome (AppleAOPEndpoint T)) : outcome AppleAOPState :=
  match endpoints a !! i with
  | None => Oob
  | Some s =>
      s ← f (s <| align := a_align a |> <| memory := a_memory a |> <| clock := a_clock a |> <| sent := a_sent a |>);
      Done (mkAOP (<[i := s]> (endpoints a)) (a_align a) (memory s) (a_clock a) (sent s))
  end.

(** [g_list_foreach] from the [i]-th on. *)
Fixpoint foreach (n i : nat) (a : AppleAOPState) (f : AppleAOPEndpoint T -> AppleAOPEndpoint T) : outcome AppleAOPState :=
  match n with
  | O => Done a
  | S n => a ← with_endpoint a i (fun s => Done (f s)); foreach n (S i) a f
  end.

Definition apple_aop_boot_done (a : AppleAOPState) : outcome AppleAOPState :=
  foreach (length (endpoints a)) 0 a apple_aop_ep_hello_foreach.

Definition apple_aop_reset_hold (a : AppleAOPState) : outcome AppleAOPState :=
  foreach (length (endpoints a)) 0 a apple_aop_ep_reset_foreach.

(** The processor of a node of the device tree: the sizes of its registers are read from the
    node, the alignment from a child that is marked as loaded and running. *)
Definition apple_aop_create (node : AppleDTNode) (m : Z -> Z) (clk : Z) : outcome (AppleAOPState * AppleDTNode) :=
  match apple_dt_get_node node (str "iop-aop-nub"), apple_dt_get_prop node (str "reg") with
  | Some (_, child), Some reg =>
      _ ← slice (p_data reg) 8 8;
      _ ← slice (p_data reg) 24 8;
      al ← apple_dt_get_prop_u32_or child (str "aop-memory-alignment") 0x40 ErrFatal;
      node ← with_node node "iop-aop-nub" (fun child =>
        child ← apple_dt_set_prop_u32 child (str "pre-loaded") 1;
        apple_dt_set_prop_u32 child (str "running") 1);
      Done (mkAOP [] al m clk [], node)
  | _, _ => Abort
  end.

Definition apple_aop_ep_create (a : AppleAOPState) (o : T) (d : AppleAOPEndpointDescription T) : outcome AppleAOPState :=
  r ← c_mod (rx_len d) (a_align a);
  c_assert (r =? 0);;
  t ← c_mod (tx_len d) (a_align a);
  c_assert (t =? 0);;
  let ep := mkEp (zlen (endpoints a)) 0 0 0 o d EP_STATE_POWERED_OFF (a_align a) (a_memory a) (a_clock a) (a_sent a) in
  Done (mkAOP (endpoints a ++ [ep]) (a_align a) (a_memory a) (a_clock a) (a_sent a)).
End Aop.

(** ** Audio *)
Module Audio.
Definition PROPERTY_IDENTITY : Z := 0x64.
Definition PROPERTY_DEVICE_COUNT : Z := 0x65.
Definition PROPERTY_IO_HANDLER_COUNT : Z := 0x66.
Definition COMMAND_GET_DEVICE_ID : Z := 0xC3000001.
Definition COMMAND_GET_DEVICE_PROP : Z := 0xC3000004.
Definition COMMAND_SET_DEVICE_PROP : Z := 0xC3000005.
Definition COMMAND_HDR_LEN : Z := 0x24.
Definition DEV_PROP_MCA_RX_STATUS : Z := 0x79.
Definition DEV_PROP_MCA_TX_STATUS : Z := 0x7A.
Definition DEV_PROP_MCA_RX0_SHIM_OVERRUN : Z := 0xD7.
Definition DEV_PROP_PCM_NUM_SUPPORTED_ASSETS : Z := 0xC8.
Definition DEV_PROP_LEAP_FW_BUFFER_BYTES_MAX : Z := 0xC9.
Definition DEV_PROP_STATE : Z := 0xC8.
Definition DEV_PROP_SUPPORTS_HISTORICAL_DATA : Z := 0x12C.
Definition DEV_PROP_CHANNEL_CTRL : Z := 0x12D.
Definition DEV_PROP_STREAM_FORMAT : Z := 0x12E.

(** A constant of four characters. *)
Definition code (c : string) : Z := foldl (fun v b => v .<< 8 .| b) 0 (lit c).

Record AppleAOPAudioState := mkAudio {
  supported_chans : Z;
  enabled_chans : Z;
  voice_trigger_chans : Z;
  history_chans : Z;
}.

Definition apple_aop_devices : list Z :=
  code <$> ["edtC"; "acmm"; "aphc"; "lpfw"; "leap"; "aphd"; "aph "; "ahdc"; "pcmM"; "lpai"; "mca0"; "mca1"; "apac"]%string.

Definition apple_aop_audio_get_prop (s : AppleAOPAudioState) (prop : Z) (out : bytes) : outcome (AppleAOPAudioState * AppleAOPResult * bytes) :=
  out ← (if prop =? PROPERTY_IDENTITY then store_le out 0 (code "aop ")
         else if prop =? PROPERTY_DEVICE_COUNT then store_le out 0 (zlen apple_aop_devices)
         else if prop =? PROPERTY_IO_HANDLER_COUNT then store_le out 0 0
         else Done out);
  Done (s, AOP_RESULT_OK, out).

(** A store of words one after the other; through a null pointer it fails. *)
Definition put_words (out : option bytes) (ws : list Z) : outcome (option bytes) :=
  match out with
  | None => Oob
  | Some b => b ← foldl (fun o '(i, w) => b ← o; store_le b (4 * Z.of_nat i) w) (Done b) (imap pair ws); Done (Some b)
  end.

(** The words of the properties of a device, none for a property it does not have. *)
Definition device_prop (s : AppleAOPAudioState) (dev : Z) : option (Z -> list Z) :=
  if dev =? code "lpai" then Some (fun prop =>
    if prop =? DEV_PROP_STATE then [4; code "idle"]
    else if prop =? DEV_PROP_CHANNEL_CTRL then [0x10; supported_chans s; enabled_chans s; voice_trigger_chans s; history_chans s]
    else if prop =? DEV_PROP_STREAM_FORMAT then [0x10; code "pcm "; 44100; 2; 2]
    else if prop =? DEV_PROP_SUPPORTS_HISTORICAL_DATA then [4; 0]
    else [])
  else if dev =? code "lai " then Some (fun prop =>
    if prop =? DEV_PROP_STATE then [4; code "idle"]
    else if prop =? DEV_PROP_SUPPORTS_HISTORICAL_DATA then [4; 0]
    else [])
  else if (dev =? code "mca0") || (dev =? code "mca1") then Some (fun prop =>
    if prop =? DEV_PROP_MCA_RX_STATUS then [0x18]
    else if prop =? DEV_PROP_MCA_TX_STATUS then [0x30]
    else if prop =? DEV_PROP_MCA_RX0_SHIM_OVERRUN then [4]
    else [])
  else if (dev =? code "acmm") || (dev =? code "apac") then Some (fun prop =>
    if prop =? DEV_PROP_STATE then [4; code "pwrd"] else [])
  else if (dev =? code "aphc") || (dev =? code "aph ") then Some (fun prop =>
    if prop =? DEV_PROP_STATE then [4; code "pw1 "] else [])
  else if dev =? code "pcmM" then Some (fun prop =>
    if prop =? DEV_PROP_PCM_NUM_SUPPORTED_ASSETS then [4; 2] else [])
  else if dev =? code "lpfw" then Some (fun prop =>
    if prop =? DEV_PROP_LEAP_FW_BUFFER_BYTES_MAX then [8; 128 * 1024; 0] else [])
  else None.

Definition apple_aop_audio_handle_command (s : AppleAOPAudioState) (sq : Z) (payload : option bytes) (len : Z) (out : option bytes) (out_len : Z) :
    outcome (AppleAOPAudioState * AppleAOPResult * option bytes) :=
  match payload with
  | None => Done (s, AOP_RESULT_ERROR, out)
  | Some payload =>
      if len <? COMMAND_HDR_LEN then Done (s, AOP_RESULT_ERROR, out)
      else
        magic ← load_le payload 0;
        if negb (magic =? 0xFFFFFFFF) then Done (s, AOP_RESULT_ERROR, out)
        else
          cmd ← load_le payload 4;
          if cmd =? COMMAND_GET_DEVICE_ID then
            i ← load_le payload COMMAND_HDR_LEN;
            id ← aget apple_aop_devices i;
            out ← put_words out [id];
            Done (s, AOP_RESULT_OK, out)
          else if cmd =? COMMAND_GET_DEVICE_PROP then
            dev ← load_le payload COMMAND_HDR_LEN;
            match device_prop s dev with
            | None => Done (s, AOP_RESULT_OK, out)
            | Some f =>
                prop ← load_le payload (COMMAND_HDR_LEN + 4);
                out ← (match f prop with [] => Done out | ws => put_words out ws end);
                Done (s, AOP_RESULT_OK, out)
            end
          else if cmd =? COMMAND_SET_DEVICE_PROP then
            dev ← load_le payload COMMAND_HDR_LEN;
            if dev =? code "lpai" then
              prop ← load_le payload (COMMAND_HDR_LEN + 4);
              if prop =? DEV_PROP_CHANNEL_CTRL then
                sup ← load_le payload (COMMAND_HDR_LEN + 12);
                ena ← load_le payload (COMMAND_HDR_LEN + 16);
                voi ← load_le payload (COMMAND_HDR_LEN + 20);
                his ← load_le payload (COMMAND_HDR_LEN + 24);
                Done (mkAudio sup ena voi his, AOP_RESULT_OK, out)
              else Done (s, AOP_RESULT_OK, out)
            else Done (s, AOP_RESULT_OK, out)
          else Done (s, AOP_RESULT_OK, out)
  end.

Definition apple_aop_audio_ep_descr : AppleAOPEndpointDescription AppleAOPAudioState :=
  mkDescription _ AOP_EP_TYPE_APP (lit "aop-audio") 0x1000000D 0 0x4000 0xD0000 (Some apple_aop_audio_get_prop) (Some apple_aop_audio_handle_command).

Definition apple_aop_audio_create (a : AppleAOPState (T := AppleAOPAudioState)) : outcome (AppleAOPState (T := AppleAOPAudioState)) :=
  apple_aop_ep_create a (mkAudio 0 0 0 0) apple_aop_audio_ep_descr.
End Audio.
