(* ===== verification/AopSpec.v ===== *)
(** * The rings of the always-on processor

    Packets in the two rings as the bytes of their layouts: a packet that is sent is one
    run of bytes and a new place of the writer ([send_stores_run]); one that is received is
    read from the layout of the guest ([recv_packet_run]).  A signal of the guest serves
    every request in its ring, in order, with one reply each ([aop_serves]); the
    conversation that sets the rings up leaves an end point that can serve them
    ([aop_handshake]); after the boot every end point says hello ([boot_done_hello]); the
    audio service gives back the channels that were set ([channels_roundtrip]).  The faults
    of the code are at the end. *)

From S2P Require Import Prelude CString HostMem Sio Aop.

(** ** Runs of bytes *)

Definition stored (m : Z -> Z) (a : Z) (bs : bytes) : Z -> Z := write_mem m (seqZ a (zlen bs)) bs.

Lemma wr_other m a bs x : ~ (a <= x < a + zlen bs) -> stored m a bs x = m x.
Proof. intros Hx. apply write_mem_other. rewrite <- list_elem_of_In. intros ?%elem_of_seqZ. lia. Qed.

Lemma seqZ_len a (bs : bytes) : length (seqZ a (zlen bs)) = length bs.
Proof. rewrite length_seqZ. unfold zlen. lia. Qed.

Lemma write_mem_take l : forall m b1 b2, length l = length b1 -> write_mem m l (b1 ++ b2) = write_mem m l b1.
Proof. induction l as [|a l IH]; intros m [|b b1] b2 E; try done. cbn. apply IH. by injection E. Qed.

Lemma wr_app m a x y b : b = a + zlen x -> stored (stored m a x) b y = stored m a (x ++ y).
Proof.
  intros ->. unfold stored. replace (zlen (x ++ y)) with (zlen x + zlen y) by (unfold zlen; rewrite length_app; lia).
  rewrite seqZ_app, write_mem_app by (rewrite ?seqZ_len, ?length_app; unfold zlen; lia).
  rewrite seqZ_len, drop_app_length. f_equal. by rewrite write_mem_take by apply seqZ_len.
Qed.

Lemma read_mem_len m a n : length (read_mem m a n) = n.
Proof. unfold read_mem. rewrite length_fmap, length_seqZ. lia. Qed.

Lemma read_ext m m' a n : (forall x, a <= x < a + Z.of_nat n -> m x = m' x) -> read_mem m a n = read_mem m' a n.
Proof. intros E. unfold read_mem. apply list_fmap_ext. intros i x Hx%list_elem_of_lookup_2%elem_of_seqZ. apply E. lia. Qed.

Lemma read_wr_other m a bs b n : b + Z.of_nat n <= a \/ a + zlen bs <= b -> read_mem (stored m a bs) b n = read_mem m b n.
Proof. intros Hd. apply read_ext. intros x Hx. apply wr_other. lia. Qed.

Lemma wr_cons m a b bs : stored m a (b :: bs) = stored (fun x => if x =? a then b else m x) (a + 1) bs.
Proof.
  unfold stored. replace (zlen (b :: bs)) with (1 + zlen bs) by (unfold zlen; cbn [length]; lia).
  rewrite seqZ_app by (unfold zlen; lia). done.
Qed.

Lemma read_cons m a n : read_mem m a (S n) = m a :: read_mem m (a + 1) n.
Proof. unfold read_mem. rewrite Nat2Z.inj_succ, seqZ_cons by lia. cbn. do 3 f_equal; lia. Qed.

Lemma read_wr m a bs : read_mem (stored m a bs) a (length bs) = bs.
Proof.
  revert m a. induction bs as [|b bs IH]; intros m a; [done|]. cbn [length]. rewrite read_cons, wr_cons, IH. f_equal.
  rewrite wr_other by lia. by rewrite Z.eqb_refl.
Qed.

Lemma read_part m a n k l : (k + l <= n)%nat -> read_mem m (a + Z.of_nat k) l = take l (drop k (read_mem m a n)).
Proof.
  revert a n. induction k as [|k IH]; intros a n Hl.
  - rewrite Z.add_0_r, drop_0. revert a n Hl. induction l as [|l IH]; intros a [|n] Hl; try done; try lia.
    rewrite !read_cons. cbn [take]. f_equal. apply IH. lia.
  - destruct n as [|n]; [lia|]. rewrite (read_cons m a n). cbn [drop]. rewrite <- IH by lia. f_equal. lia.
Qed.

Section AopSpec.
Context `{DmaMemory} {T : Type}.
Implicit Types s : AppleAOPEndpoint T.

(** Memory that is there. *)
Definition present (base len : Z) : Prop := forall a n, base <= a -> 0 <= n -> a + n <= base + len -> dma_valid a n = true.

Lemma store_run m a bs base len : present base len -> base <= a -> a + zlen bs <= base + len ->
  dma_memory_write a bs m = (stored m a bs, Some tt).
Proof. intros Hp Ha Hl. unfold dma_memory_write. by rewrite Hp by (unfold zlen in *; lia). Qed.

Lemma load_run m a n base len : present base len -> base <= a -> a + Z.of_nat n <= base + len ->
  dma_memory_read a n m = (m, Some (read_mem m a n)).
Proof. intros Hp Ha Hl. unfold dma_memory_read. by rewrite Hp by lia. Qed.

Lemma bind_run {A B} (c : tx A) (f : A -> tx B) m m' x : c m = (m', Some x) -> (x ← c; f x) m = f x m'.
Proof. intros E. unfold mbind, tx_bind. by rewrite E. Qed.

Lemma st_run m a n v base len : present base len -> base <= a -> a + Z.of_nat n <= base + len ->
  st_le a n v m = (stored m a (le_split n v), Some tt).
Proof. intros Hp Ha Hl. apply (store_run _ _ _ base len Hp Ha). unfold zlen. by rewrite length_le_split. Qed.

Lemma set_run m a c n base len : present base len -> base <= a -> a + Z.of_nat n <= base + len ->
  dma_memory_set a c n m = (stored m a (replicate n (u8 c)), Some tt).
Proof. intros Hp Ha Hl. apply (store_run _ _ _ base len Hp Ha). unfold zlen. by rewrite length_replicate. Qed.

Lemma ld_run m a n v base len : present base len -> base <= a -> a + Z.of_nat n <= base + len -> read_mem m a n = le_split n v ->
  ld_le a n m = (m, Some (wrap (8 * Z.of_nat n) v)).
Proof. intros Hp Ha Hl E. unfold ld_le. rewrite (bind_run _ _ _ _ _ (load_run _ _ _ _ _ Hp Ha Hl)), E, le_combine_split. done. Qed.

(** ** A packet that is sent *)

(** Its bytes. *)
Definition entry_header (len : Z) : bytes := lit "IOP " ++ le_split 4 len ++ replicate 8 0.
Definition packet_header (sq ts : Z) : bytes := [2] ++ le_split 2 sq ++ replicate 5 0 ++ le_split 8 ts.
Definition sub_header (p : sub_packet) (ts : Z) : bytes :=
  le_split 4 (payload_len p) ++ [2] ++ [u8 (category p .<< 4)] ++ le_split 2 (p_type p) ++ le_split 2 (p_seq p) ++ le_split 8 ts ++
  replicate 2 0 ++ le_split 4 (out_len p).

Definition sent_bytes (sq ts : Z) (p : sub_packet) (payload : bytes) : bytes :=
  entry_header (40 + zlen payload) ++ packet_header sq ts ++ sub_header p ts ++ payload.

Lemma entry_header_len len : zlen (entry_header len) = 16.
Proof. unfold entry_header, zlen. rewrite !length_app, !length_le_split. done. Qed.

Lemma sub_header_len p ts : zlen (sub_header p ts) = 24.
Proof. unfold sub_header, zlen. rewrite !length_app, !length_le_split. done. Qed.

Lemma packet_header_len sq ts : zlen (packet_header sq ts) = 16.
Proof. unfold packet_header, zlen. rewrite !length_app, !length_le_split. done. Qed.

Lemma sent_bytes_len sq ts p payload : zlen (sent_bytes sq ts p payload) = 56 + zlen payload.
Proof. unfold sent_bytes. rewrite !zlen_app, entry_header_len, packet_header_len, sub_header_len. lia. Qed.

(** Lengths of runs. *)
Ltac zlen_norm := rewrite ?zlen_app; unfold zlen; rewrite ?length_app, ?length_rev, ?length_replicate, ?length_le_split; cbn [length].

(** [u32] of an address that is one. *)
Lemma u32_id x : 0 <= x < 2 ^ 32 -> u32 x = x.
Proof. intros Hx. by apply wrap_small. Qed.

Ltac norm32 := repeat match goal with |- context [u32 ?x] => rewrite (u32_id x) by lia end.

Ltac step Hp := erewrite bind_run by (first [eapply st_run | eapply set_run | eapply store_run]; [exact Hp|lia|zlen_norm; lia]).

Lemma land_255 v : 0 <= v < 256 -> v .& 0xFF = v.
Proof. intros Hv. change 0xFF with (Z.ones 8). rewrite Z.land_ones, Z.mod_small by lia. done. Qed.

Lemma write_rb_entry_run m a len base size : present base size -> 0 <= base -> base + size <= 2 ^ 32 -> base <= a -> a + 16 <= base + size ->
  apple_aop_ep_write_rb_entry a len m = (stored m a (entry_header len), Some tt).
Proof.
  intros Hp Hb Hs Ha Hl. unfold apple_aop_ep_write_rb_entry. rewrite !u32_id by lia.
  do 2 step Hp. rewrite (set_run _ _ _ _ _ _ Hp) by lia. f_equal. unfold entry_header. change (rev (le_split 4 RB_V7_IOP_MAGIC)) with (lit "IOP ").
  rewrite !wr_app; [done|change (zlen (lit "IOP ")) with 4; zlen_norm; lia..].
Qed.

Lemma write_packet_run m a sq ts base size : present base size -> 0 <= base -> base + size <= 2 ^ 32 -> base <= a -> a + 16 <= base + size ->
  apple_aop_ep_write_packet a sq ts m = (stored m a (packet_header sq ts), Some tt).
Proof.
  intros Hp Hb Hs Ha Hl. unfold apple_aop_ep_write_packet. rewrite !u32_id by lia. do 3 step Hp. rewrite (st_run _ _ _ _ _ _ Hp) by lia.
  f_equal. rewrite !wr_app; [done|zlen_norm; lia..].
Qed.

Lemma write_sub_packet_run m a p ts base size : present base size -> 0 <= base -> base + size <= 2 ^ 32 -> base <= a -> a + 24 <= base + size ->
  0 <= category p < 16 -> apple_aop_ep_write_sub_packet a p ts m = (stored m a (sub_header p ts), Some tt).
Proof.
  intros Hp Hb Hs Ha Hl Hc. unfold apple_aop_ep_write_sub_packet. rewrite !u32_id by lia. do 7 step Hp. rewrite (st_run _ _ _ _ _ _ Hp) by lia.
  unfold sub_header, SUB_PACKET_FLAG_CAT. rewrite land_255 by lia.
  rewrite !wr_app; [reflexivity|zlen_norm; lia..].
Qed.

(** ** Places in a ring *)

(** The least multiple of the alignment that is enough. *)
Definition round_up (al n : Z) : Z := (n + al - 1) / al * al.

Lemma ROUND_UP_spec k n : 0 <= k < 32 -> 0 <= n -> n + 2 ^ k <= 2 ^ 32 -> ROUND_UP n (2 ^ k) = round_up (2 ^ k) n.
Proof.
  intros Hk Hn Hb. pose proof (Z.pow_pos_nonneg 2 k ltac:(lia) ltac:(lia)). unfold ROUND_UP, round_up. rewrite u32_id by lia.
  set (x := n + 2 ^ k - 1). assert (in_width 32 x) as Hx by (unfold in_width; lia).
  rewrite <- Z.shiftr_div_pow2, <- Z.shiftl_mul_pow2 by lia.
  replace (- 2 ^ k) with (Z.lnot (Z.ones k)) by (rewrite Z.ones_equiv; unfold Z.lnot; lia).
  apply Z.bits_inj'. intros i Hi. rewrite Z.land_spec, testbit_wrap, Z.lnot_spec, Z.testbit_ones by lia.
  destruct (decide (i < k)) as [Hik|Hik].
  - rewrite Z.shiftl_spec_low by lia. rewrite (proj2 (Z.leb_le 0 i)), (proj2 (Z.ltb_lt i k)) by lia. by rewrite andb_false_r, andb_false_r.
  - rewrite Z.shiftl_spec_high, Z.shiftr_spec by lia. replace (i - k + k) with i by lia.
    rewrite (proj2 (Z.ltb_ge i k)) by lia. rewrite andb_false_r. destruct (Z.ltb_spec i 32); [by rewrite andb_true_r|].
    rewrite (testbit_high 32 x i) by (done || lia). done.
Qed.

Lemma round_up_bounds al n : 0 < al -> n <= round_up al n < n + al.
Proof. intros Ha. unfold round_up. pose proof (Z.div_mod (n + al - 1) al). pose proof (Z.mod_pos_bound (n + al - 1) al). lia. Qed.

(** A ring in memory that is there: the size of its data, the place of the reader and that
    of the writer, each in an aligned block, and then the data. *)
Record ring_ok (al base size : Z) : Prop := {
  ring_align : exists k, 3 <= k < 31 /\ al = 2 ^ k;
  ring_base : 0 <= base;
  ring_room : 3 * al <= size < 2 ^ 31;
  ring_top : base + size < 2 ^ 32;
  ring_there : present base size }.

Definition reader (al base : Z) : Z := base + al.
Definition writer (al base : Z) : Z := base + al * 2.
Definition data (al base : Z) : Z := base + al * 3.

Lemma ring_al al base size : ring_ok al base size -> 8 <= al < 2 ^ 31.
Proof. intros [(k & Hk & ->) _ _ _ _]. change 8 with (2 ^ 3). split; [apply Z.pow_le_mono_r|apply Z.pow_lt_mono_r]; lia. Qed.

Lemma ring_round al base size n : ring_ok al base size -> 0 <= n -> n + al <= 2 ^ 32 -> ROUND_UP n al = round_up al n.
Proof. intros [(k & Hk & ->) _ _ _ _]. apply ROUND_UP_spec. lia. Qed.

(** A place of the ring as a number. *)
Definition holds (m : Z -> Z) (cell v : Z) : Prop := read_mem m cell 4 = le_split 4 v.

Lemma ld_holds m a v base size : present base size -> base <= a -> a + 4 <= base + size -> 0 <= v < 2 ^ 32 -> holds m a v ->
  ld_le a 4 m = (m, Some v).
Proof. intros Hp Ha Hl Hv Hh. rewrite (ld_run _ _ _ v base size) by (done || lia). do 2 f_equal. by apply wrap_small. Qed.

(** A packet that fits before the end of the ring is stored where the writer is, as one run
    of bytes, and then the writer moves behind it; one that does not is stored at the start. *)
Definition tx_place (al size w len : Z) : Z := if size <? al * 3 + w + round_up al (56 + len) then 0 else w.

Lemma send_stores_run s p payload w m :
  let al := align s in let base := tx_off s in let size := tx_len (descr s) in
  let total := round_up al (56 + zlen payload) in
  let w' := tx_place al size w (zlen payload) in
  ring_ok al base size -> 0 <= w <= size - al * 3 -> al * 3 + total <= size -> 0 <= category p < 16 -> holds m (writer al base) w ->
  send_stores s p payload m =
    (stored (stored m (data al base + w') (sent_bytes (seq s) (clock s) p payload)) (writer al base) (le_split 4 (w' + total)), Some tt).
Proof.
  cbv zeta. intros Hr Hw Ht Hc Hh. unfold send_stores, apple_aop_ep_get_wptr, apple_aop_ep_set_wptr, RB_ENTRY_LEN, PACKET_LEN, SUB_PACKET_LEN.
  pose proof (ring_al _ _ _ Hr) as Hal. pose proof (ring_base _ _ _ Hr). pose proof (ring_top _ _ _ Hr). pose proof (ring_room _ _ _ Hr). pose proof (ring_there _ _ _ Hr) as Hp.
  set (al := align s) in *. set (base := tx_off s) in *. set (size := tx_len (descr s)) in *. set (len := zlen payload) in *.
  assert (0 <= len) by (unfold len, zlen; lia). pose proof (round_up_bounds al (56 + len) ltac:(lia)) as Hb.
  rewrite (u32_id (base + al * 2)) by lia. erewrite bind_run by (apply (ld_holds _ _ w base size); done || lia). cbv zeta.
  rewrite (u32_id (16 + 16 + 24 + len)) by lia. change (16 + 16 + 24 + len) with (56 + len). rewrite (ring_round _ _ _ _ Hr) by lia.
  unfold tx_place. set (total := round_up al (56 + len)) in *. rewrite (u32_id (al * 3)), (u32_id (w + total)), (u32_id (al * 3 + (w + total))) by lia.
  replace (al * 3 + (w + total)) with (al * 3 + w + total) by lia.
  set (over := size <? al * 3 + w + total). set (w' := if over then 0 else w).
  assert (0 <= w' /\ al * 3 + w' + total <= size) as [Hw0 Hw1] by (unfold w', over; destruct (Z.ltb_spec size (al * 3 + w + total)); lia).
  replace (if over then total else w + total) with (w' + total) by (unfold w'; by destruct over).
  norm32.
  erewrite bind_run by (apply (write_rb_entry_run _ _ _ base size Hp); lia).
  erewrite bind_run by (apply (write_packet_run _ _ _ _ base size Hp); lia).
  erewrite bind_run by (apply (write_sub_packet_run _ _ _ _ base size Hp); done || lia).
  erewrite bind_run by (apply (store_run _ _ _ base size Hp); [lia|fold len; lia]).
  rewrite (st_run _ _ _ _ base size Hp) by lia. unfold writer, data.
  rewrite (wr_app _ _ _ payload), (wr_app _ _ _ (sub_header _ _ ++ _)), (wr_app _ _ _ (packet_header _ _ ++ _)); [done|..];
    rewrite ?entry_header_len, ?packet_header_len, ?sub_header_len; lia.
Qed.

(** ** A packet that is received *)

(** The head of an entry, and a request with its payload, as the guest lays them out. *)
Definition header_at (m : Z -> Z) (a len : Z) : Prop := read_mem m a 4 = lit "AOP " /\ read_mem m (a + 4) 4 = le_split 4 len.

Record request_at (m : Z -> Z) (a : Z) (p : sub_packet) (payload : bytes) : Prop := {
  at_head : header_at m a (40 + zlen payload);
  at_version : read_mem m (a + 16) 1 = [2];
  at_len : read_mem m (a + 32) 4 = le_split 4 (zlen payload);
  at_sub_version : read_mem m (a + 36) 1 = [2];
  at_flags : exists lo, 0 <= lo < 16 /\ read_mem m (a + 37) 1 = [category p * 16 + lo];
  at_type : read_mem m (a + 38) 2 = le_split 2 (p_type p);
  at_seq : read_mem m (a + 40) 2 = le_split 2 (p_seq p);
  at_out : read_mem m (a + 52) 4 = le_split 4 (out_len p);
  at_payload : read_mem m (a + 56) (length payload) = payload }.

(** The widths of its fields. *)
Definition request_ok (p : sub_packet) (payload : bytes) : Prop :=
  (payload_len p = zlen payload /\ zlen payload < 2 ^ 32) /\ 0 <= category p < 16 /\ 0 <= p_type p < 2 ^ 16 /\ 0 <= p_seq p < 2 ^ 16 /\ 0 <= out_len p < 2 ^ 32.

(** Where the reader finds its next packet, and where it is after it. *)
Definition rx_start (al size r : Z) : Z := if size <? al * 3 + r + 16 then 0 else r.

Definition rx_place (al size r len : Z) : Z :=
  let r := rx_start al size r in if size <? al * 3 + r + round_up al (56 + len) then 0 else r.

Definition rx_next (al size r len : Z) : Z :=
  let r := rx_start al size r in let total := round_up al (56 + len) in
  if size <? al * 3 + r + total then total else if al * 3 + r + total =? size then 0 else r + total.

Lemma read_rb_entry_run m a len base size : present base size -> 0 <= base -> base + size < 2 ^ 32 -> base <= a -> a + 8 <= base + size ->
  0 <= len < 2 ^ 32 -> header_at m a len -> apple_aop_ep_read_rb_entry a m = (m, Some len).
Proof.
  intros Hp Hb Ht Ha Hl Hn [Em El]. unfold apple_aop_ep_read_rb_entry, ldl_be_dma. norm32.
  erewrite bind_run by (erewrite bind_run by (apply (load_run _ _ _ base size Hp); lia); done). rewrite Em.
  change (negb _) with false. cbn match. apply (ld_holds _ _ _ base size); done || lia.
Qed.

Lemma ld_field m a n v base size : present base size -> base <= a -> a + Z.of_nat n <= base + size -> 0 <= v < 2 ^ (8 * Z.of_nat n) ->
  read_mem m a n = le_split n v -> ld_le a n m = (m, Some v).
Proof. intros Hp Ha Hl Hv Hh. rewrite (ld_run _ _ _ v base size) by (done || lia). do 2 f_equal. by apply wrap_small. Qed.

Lemma read_sub_packet_run m a p payload base size : present base size -> 0 <= base -> base + size < 2 ^ 32 -> base <= a ->
  a + 56 + zlen payload <= base + size -> request_ok p payload -> request_at m a p payload ->
  apple_aop_ep_read_sub_packet (a + 32) m = (m, Some p).
Proof.
  intros Hp Hb Ht Ha Hl ([Ep Hpl] & Hc & Hty & Hsq & Ho) [_ _ El Ev (lo & Hlo & Ef) Et Es Eo _]. unfold apple_aop_ep_read_sub_packet.
  assert (0 <= zlen payload) by (unfold zlen; lia). norm32. rewrite <- !Z.add_assoc. cbn [Z.add Pos.add].
  erewrite bind_run by (apply (ld_field _ _ 1 2 base size); done || lia). change (negb (2 =? 2)) with false. cbn match.
  erewrite bind_run by (apply (ld_field _ _ 4 (zlen payload) base size); done || lia).
  erewrite bind_run by (apply (ld_field _ _ 1 (category p * 16 + lo) base size); [done|lia..|]; etrans; [exact Ef|]; cbn; by rewrite land_255 by lia).
  erewrite bind_run by (apply (ld_field _ _ 2 (p_type p) base size); done || lia).
  erewrite bind_run by (apply (ld_field _ _ 2 (p_seq p) base size); done || lia).
  erewrite bind_run by (apply (ld_field _ _ 4 (out_len p) base size); done || lia).
  unfold mret, tx_ret, SUB_PACKET_FLAG_CAT_GET. rewrite <- Ep. do 2 f_equal.
  replace ((category p * 16 + lo) .>> 4) with (category p) by (rewrite Z.shiftr_div_pow2 by lia; change (2 ^ 4) with 16; rewrite Z.div_add_l, Z.div_small by lia; lia).
  rewrite land_255 by lia. by destruct p.
Qed.

Lemma recv_packet_run s p payload r m :
  let al := align s in let base := rx_off s in let size := rx_len (descr s) in let len := zlen payload in
  ring_ok al base size -> 0 <= r <= size - al * 3 -> al * 3 + round_up al (56 + len) <= size -> request_ok p payload -> holds m (reader al base) r ->
  header_at m (data al base + rx_start al size r) (40 + len) -> request_at m (data al base + rx_place al size r len) p payload ->
  recv_packet s m = (stored m (reader al base) (le_split 4 (rx_next al size r len)), Some (p, payload)).
Proof.
  cbv zeta. intros Hr Hw Ht Hq Hh Hd Ha. unfold recv_packet, apple_aop_ep_get_rptr, apple_aop_ep_set_rptr, RB_ENTRY_LEN, PACKET_LEN, SUB_PACKET_LEN.
  pose proof (ring_al _ _ _ Hr) as Hal. pose proof (ring_base _ _ _ Hr) as Hb. pose proof (ring_top _ _ _ Hr) as Hp2. pose proof (ring_room _ _ _ Hr). pose proof (ring_there _ _ _ Hr) as Hp.
  set (al := align s) in *. set (base := rx_off s) in *. set (size := rx_len (descr s)) in *.
  assert (payload_len p = zlen payload) as El by apply Hq. set (len := zlen payload) in *.
  assert (0 <= len) by (unfold len, zlen; lia). pose proof (round_up_bounds al (56 + len) ltac:(lia)) as Hru.
  rewrite (u32_id (base + al)) by lia. erewrite bind_run by (apply (ld_holds _ _ r base size); done || lia). cbv zeta.
  rewrite (u32_id (al * 3)), (u32_id (al * 3 + r + 16)) by lia. fold (rx_start al size r).
  unfold rx_place, rx_next in *. cbv zeta in *. set (r0 := rx_start al size r) in *.
  assert (0 <= r0 /\ al * 3 + r0 + 16 <= size) as [Hr0 Hr1] by (unfold r0, rx_start; destruct (Z.ltb_spec size (al * 3 + r + 16)); lia).
  rewrite (u32_id (base + al * 3 + r0)) by lia. erewrite bind_run by (apply (read_rb_entry_run _ _ (40 + len) base size Hp); done || lia).
  rewrite (u32_id (16 + (40 + len))) by lia. replace (16 + (40 + len)) with (56 + len) by lia. rewrite (ring_round _ _ _ _ Hr) by lia.
  set (total := round_up al (56 + len)) in *. rewrite (u32_id (r0 + total)), (u32_id (al * 3 + (r0 + total))) by lia.
  replace (al * 3 + (r0 + total)) with (al * 3 + r0 + total) by lia.
  set (over := size <? al * 3 + r0 + total) in *. set (r1 := if over then 0 else r0) in *.
  assert (0 <= r1 /\ al * 3 + r1 + total <= size) as [Hr2 Hr3] by (unfold r1, over; destruct (Z.ltb_spec size (al * 3 + r0 + total)); lia).
  norm32. erewrite bind_run by (apply (read_rb_entry_run _ _ (40 + len) base size Hp); try lia; apply Ha).
  erewrite bind_run by (unfold apple_aop_ep_read_packet; erewrite bind_run by
    (apply (ld_field _ _ 1 2 base size); [done|lia..|]; rewrite Z.add_assoc; apply Ha); done).
  replace (base + al * 3 + (r1 + 16 + 16)) with (data al base + r1 + 32) by (unfold data; lia).
  erewrite bind_run by (apply (read_sub_packet_run _ _ p payload base size Hp); unfold data; fold len; done || lia).
  rewrite El. erewrite bind_run by (apply (load_run _ _ _ base size Hp); lia).
  erewrite bind_run by (apply (st_run _ _ _ _ base size Hp); lia). unfold mret, tx_ret. do 3 f_equal.
  replace (base + al * 3 + (r1 + 16 + 16 + 24)) with (data al base + r1 + 56) by (unfold data; lia).
  unfold len, zlen. rewrite Nat2Z.id. apply Ha.
Qed.

Lemma rx_empty_run s r w :
  let al := align s in let base := rx_off s in let size := rx_len (descr s) in
  ring_ok al base size -> 0 <= r < 2 ^ 32 -> 0 <= w < 2 ^ 32 -> holds (memory s) (reader al base) r -> holds (memory s) (writer al base) w ->
  apple_aop_ep_rx_empty s = (s, w =? r).
Proof.
  cbv zeta. intros Hr Hrr Hw Hhr Hhw. unfold apple_aop_ep_rx_empty, access, apple_aop_ep_get_wptr, apple_aop_ep_get_rptr.
  pose proof (ring_al _ _ _ Hr) as Hal. pose proof (ring_base _ _ _ Hr) as Hb. pose proof (ring_top _ _ _ Hr) as Hp2. pose proof (ring_room _ _ _ Hr).
  norm32. pose proof (ring_there _ _ _ Hr) as Hp.
  erewrite bind_run by (apply (ld_holds _ _ w _ _ Hp); done || lia).
  erewrite bind_run by (apply (ld_holds _ _ r _ _ Hp); done || lia). unfold mret, tx_ret. by destruct s.
Qed.

(** ** What a service answers

    A reply is the code of the result and what the service wrote.  The buffers of a long
    command are elsewhere in memory, [out] of the rings. *)
Inductive answers (d : AppleAOPEndpointDescription T) (out : Z -> Prop) : T * (Z -> Z) -> sub_packet * bytes -> T * (Z -> Z) -> bytes -> Prop :=
  | answer_property f o m p payload o' res b :
      p_type p = PACKET_TYPE_GET_PROPERTY -> get_property d = Some f -> (8 <= length payload)%nat ->
      f o (le_combine (take 4 (drop 4 payload))) (replicate (Z.to_nat (out_len p)) 0) = Done (o', res, b) ->
      answers d out (o, m) (p, payload) (o', m) (le_split 4 (result_code res) ++ b)
  | answer_command f o m p payload o' res b :
      p_type p = PACKET_TYPE_COMMAND -> category p <> CAT_LONG_COMMAND -> handle_command d = Some f -> (4 <= length payload)%nat ->
      f o (p_seq p) (Some (drop 4 payload)) (zlen payload - 4) (Some (replicate (Z.to_nat (out_len p)) 0)) (out_len p + 4) = Done (o', res, Some b) ->
      answers d out (o, m) (p, payload) (o', m) (le_split 4 (result_code res) ++ b)
  | answer_long f o m p payload tag oa ia ol il rest o' res b :
      p_type p = PACKET_TYPE_COMMAND -> category p = CAT_LONG_COMMAND -> handle_command d = Some f -> length tag = 4%nat ->
      in_width 64 oa -> in_width 64 ia -> 0 < ol < 2 ^ 32 -> 0 < il < 2 ^ 32 ->
      dma_valid ia il = true -> (forall x, ia <= x < ia + il -> out x) ->
      dma_valid oa ol = true -> (forall x, oa <= x < oa + ol -> out x) ->
      f o (p_seq p) (Some (read_mem m ia (Z.to_nat il))) il (Some (replicate (Z.to_nat ol) 0)) ol = Done (o', res, Some b) -> zlen b = ol ->
      payload = tag ++ le_split 8 oa ++ le_split 8 ia ++ le_split 4 ol ++ le_split 4 il ++ rest ->
      answers d out (o, m) (p, payload) (o', stored m oa b) (le_split 4 (result_code res) ++ replicate (Z.to_nat (out_len p)) 0)
  | answer_none o m p payload :
      (p_type p = PACKET_TYPE_GET_PROPERTY -> get_property d = None) -> (p_type p = PACKET_TYPE_COMMAND -> handle_command d = None) ->
      answers d out (o, m) (p, payload) (o, m) (replicate (Z.to_nat (out_len p + 4)) 0).

(** Replies in the order of the requests. *)
Inductive conversation (d : AppleAOPEndpointDescription T) (out : Z -> Prop) : T * (Z -> Z) -> list (sub_packet * bytes) -> T * (Z -> Z) -> list bytes -> Prop :=
  | talk_end g : conversation d out g [] g []
  | talk_more g q qs g1 reply g2 replies : out_len (fst q) + 4 < 2 ^ 32 -> answers d out g q g1 reply -> conversation d out g1 qs g2 replies ->
      conversation d out g (q :: qs) g2 (reply :: replies).

Lemma store_head h b v : length h = 4%nat -> store_le (h ++ b) 0 v = Done (le_split 4 v ++ b).
Proof.
  intros Hh. unfold store_le. rewrite blit_front by (zlen_norm; lia). by rewrite length_le_split, <- Hh, drop_app_length.
Qed.

Lemma load_at n l a v rest p k : l = a ++ le_split n v ++ rest -> p = zlen a -> k = Z.of_nat n -> in_width (8 * Z.of_nat n) v ->
  le_combine <$> slice l p k = Done v.
Proof.
  intros -> -> -> Hv. pose proof (slice_at a (le_split n v) rest) as E. unfold zlen at 2 in E. rewrite length_le_split in E. rewrite E.
  cbn. f_equal. rewrite le_combine_split. by apply wrap_small.
Qed.

Lemma zeros_head n : 0 <= n -> replicate (Z.to_nat (n + 4)) 0 = [0; 0; 0; 0] ++ replicate (Z.to_nat n) 0.
Proof. intros Hn. by replace (Z.to_nat (n + 4)) with (4 + Z.to_nat n)%nat by lia. Qed.

Lemma long_command_run s f sq oa ia ol il rest o' res b :
  in_width 64 oa -> in_width 64 ia -> 0 < ol < 2 ^ 32 -> 0 < il < 2 ^ 32 -> dma_valid ia il = true -> dma_valid oa ol = true -> zlen b = ol ->
  f (opaque s) sq (Some (read_mem (memory s) ia (Z.to_nat il))) il (Some (replicate (Z.to_nat ol) 0)) ol = Done (o', res, Some b) ->
  long_command s f sq (le_split 8 oa ++ le_split 8 ia ++ le_split 4 ol ++ le_split 4 il ++ rest) =
    Done (s <| opaque := o' |> <| memory := stored (memory s) oa b |>, res).
Proof.
  intros Hoa Hia Hol Hil Hvi Hvo Hb Hf. unfold long_command, load_le, load_le64.
  rewrite (load_at 8 _ [] oa _ 0) by done. cbn [mbind outcome_bind].
  rewrite (load_at 8 _ (le_split 8 oa) ia _ 8) by done. cbn [mbind outcome_bind].
  rewrite (load_at 4 _ (le_split 8 oa ++ le_split 8 ia) ol (le_split 4 il ++ rest) 16) by (rewrite <- ?(assoc_L (++)); done || unfold in_width; lia). cbn [mbind outcome_bind].
  rewrite (load_at 4 _ (le_split 8 oa ++ le_split 8 ia ++ le_split 4 ol) il rest 20) by (rewrite <- ?(assoc_L (++)); done || unfold in_width; lia). cbn [mbind outcome_bind].
  rewrite (proj2 (Z.eqb_neq il 0)), (proj2 (Z.eqb_neq ol 0)) by lia. rewrite Hvi. cbn [mbind outcome_bind]. rewrite Hf. cbn [mbind outcome_bind].
  unfold access. change (memory (s <| opaque := o' |>)) with (memory s). unfold dma_memory_write. change (default [] (Some b)) with b. rewrite Hb, Hvo. unfold stored. by rewrite Hb.
Qed.

Lemma handle_packet_run s (out : Z -> Prop) g p payload o' g' reply :
  request_ok p payload -> out_len p + 4 < 2 ^ 32 -> answers (descr s) out (opaque s, g) (p, payload) (o', g') reply ->
  (forall x, out x -> memory s x = g x) ->
  exists m, handle_packet s p payload = Done (s <| opaque := o' |> <| memory := m |>, reply) /\
    (forall x, out x -> m x = g' x) /\ (forall x, ~ out x -> m x = memory s x).
Proof.
  intros ([El Hpl] & _ & _ & _ & Ho) Ho4 Ha Hg. unfold handle_packet. rewrite (u32_id (out_len p + 4)) by lia.
  rewrite (zeros_head (out_len p)) by lia. change (drop 4 ([0; 0; 0; 0] ++ ?l)) with l. change (take 4 ([0; 0; 0; 0] ++ ?l)) with [0; 0; 0; 0].
  assert (forall o, s <| opaque := o |> <| memory := memory s |> = s <| opaque := o |>) as Es by done.
  inversion Ha; subst; clear Ha; repeat match goal with E : p_type p = _ |- _ => rewrite E end;
    repeat match goal with E : get_property _ = Some _ |- _ => rewrite E | E : handle_command _ = Some _ |- _ => rewrite E end;
    change (PACKET_TYPE_GET_PROPERTY =? PACKET_TYPE_GET_PROPERTY) with true; change (PACKET_TYPE_COMMAND =? PACKET_TYPE_GET_PROPERTY) with false;
    change (PACKET_TYPE_COMMAND =? PACKET_TYPE_COMMAND) with true; cbn match.
  - exists (memory s). rewrite Es. split_and!; [|done..]. unfold load_le. rewrite slice_front by (unfold zlen; rewrite length_drop; lia).
    cbn [fmap outcome_fmap mbind outcome_bind]. change (Z.to_nat 4) with 4%nat.
    match goal with E : _ = Done (o', res, b) |- _ => rewrite E end. cbn [mbind outcome_bind]. by rewrite store_head.
  - exists (memory s). rewrite Es. split_and!; [|done..]. rewrite (proj2 (Z.eqb_neq (category p) CAT_LONG_COMMAND)) by done.
    rewrite El, (u32_id (zlen payload - 4)) by (unfold zlen in *; lia).
    match goal with E : _ = Done (o', res, Some b) |- _ => rewrite E end. cbn [mbind outcome_bind]. by rewrite store_head.
  - eexists. match goal with E : category p = _ |- _ => rewrite E end. change (CAT_LONG_COMMAND =? CAT_LONG_COMMAND) with true. cbn match.
    rewrite (drop_app_length' tag) by done.
    match goal with E : _ = Done (o', res, Some b) |- _ => rewrite <- (read_ext (memory s) g ia) in E by (intros; apply Hg; auto with lia) end.
    erewrite long_command_run by done. cbn [mbind outcome_bind]. rewrite store_head by done. split_and!; [done|..]; cbn.
    + intros x Hx. apply write_mem_ext. auto.
    + intros x Hx. apply wr_other. intros ?. apply Hx. auto with lia.
  - exists (memory s). split_and!; [|done..]. 
    rewrite zeros_head by lia. replace (s <| opaque := opaque s |> <| memory := memory s |>) with s by (by destruct s).
    destruct (Z.eqb_spec (p_type p) PACKET_TYPE_GET_PROPERTY); [match goal with G : _ -> get_property _ = None |- _ => by rewrite G end|].
    destruct (Z.eqb_spec (p_type p) PACKET_TYPE_COMMAND); [match goal with G : _ -> handle_command _ = None |- _ => by rewrite G end|done].
Qed.

(** ** The requests of a ring and their replies *)

(** The reader of a ring at [r] has a request before it. *)
Record next_request (al base size : Z) (m : Z -> Z) (r : Z) (p : sub_packet) (payload : bytes) : Prop := {
  next_reader : 0 <= r <= size - al * 3;
  next_fits : al * 3 + round_up al (56 + zlen payload) <= size;
  next_ok : request_ok p payload;
  next_head : header_at m (data al base + rx_start al size r) (40 + zlen payload);
  next_at : request_at m (data al base + rx_place al size r (zlen payload)) p payload }.

(** The requests between the reader and the writer. *)
Inductive rx_ring (al base size : Z) (m : Z -> Z) : Z -> Z -> list (sub_packet * bytes) -> Prop :=
  | rx_end r : rx_ring al base size m r r []
  | rx_more r w p payload qs : r <> w -> next_request al base size m r p payload ->
      rx_ring al base size m (rx_next al size r (zlen payload)) w qs -> rx_ring al base size m r w ((p, payload) :: qs).

(** Where packets of these lengths go, as places and sizes. *)
Fixpoint tx_slots (al size w : Z) (lens : list Z) : list (Z * Z) :=
  match lens with
  | [] => []
  | len :: lens => let a := tx_place al size w len in (a, round_up al (56 + len)) :: tx_slots al size (a + round_up al (56 + len)) lens
  end.

Definition apart (a b : Z * Z) : Prop := a.1 + a.2 <= b.1 \/ b.1 + b.2 <= a.1.

(** The place of the writer after them. *)
Definition tx_end_place (w : Z) (slots : list (Z * Z)) : Z := foldl (fun _ a => a.1 + a.2) w slots.

(** The sequence number of the next packet. *)
Definition next_seq (n : Z) : Z := if n <? 0xFFFF then n + 1 else 0.

(** The replies are in their places: each has the type and the number of its request. *)
Inductive tx_ring (al base size clk : Z) (m : Z -> Z) : Z -> Z -> list (sub_packet * bytes) -> list bytes -> Prop :=
  | tx_end w sq : tx_ring al base size clk m w sq [] []
  | tx_more w sq p payload qs reply replies :
      let a := tx_place al size w (zlen reply) in
      read_mem m (data al base + a) (56 + length reply) = sent_bytes sq clk (mkSub (zlen reply) CAT_RESPONSE (p_type p) (p_seq p) 0) reply ->
      tx_ring al base size clk m (a + round_up al (56 + zlen reply)) (next_seq sq) qs replies ->
      tx_ring al base size clk m w sq ((p, payload) :: qs) (reply :: replies).

(** Neither ring of the end point is at [x]. *)
Definition outside s (x : Z) : Prop :=
  ~ (rx_off s <= x < rx_off s + rx_len (descr s)) /\ ~ (tx_off s <= x < tx_off s + tx_len (descr s)).

(** An end point between two packets: its rings, and memory outside of them. *)
Record serving s (g : Z -> Z) (r w tw : Z) : Prop := {
  sv_idle : state s = EP_STATE_IDLE;
  sv_rx : ring_ok (align s) (rx_off s) (rx_len (descr s));
  sv_tx : ring_ok (align s) (tx_off s) (tx_len (descr s));
  sv_apart : apart (rx_off s, rx_len (descr s)) (tx_off s, tx_len (descr s));
  sv_reader : 0 <= r < 2 ^ 32 /\ holds (memory s) (reader (align s) (rx_off s)) r;
  sv_writer : 0 <= w < 2 ^ 32 /\ holds (memory s) (writer (align s) (rx_off s)) w;
  sv_tx_writer : 0 <= tw <= tx_len (descr s) - align s * 3 /\ holds (memory s) (writer (align s) (tx_off s)) tw;
  sv_outside : forall x, outside s x -> memory s x = g x }.

Lemma request_at_ext m m' a p payload : (forall x, a <= x < a + 56 + zlen payload -> m x = m' x) -> request_at m a p payload -> request_at m' a p payload.
Proof.
  intros E [[H1 H2] H3 H4 H5 (lo & Hlo & H6) H7 H8 H9 H10]. assert (0 <= zlen payload) by (unfold zlen; lia).
  assert (forall k n, 0 <= k -> k + Z.of_nat n <= 56 + zlen payload -> read_mem m (a + k) n = read_mem m' (a + k) n) as R
    by (intros k n Hk Hn; apply read_ext; intros; apply E; lia).
  pose proof (R 0 4%nat) as R0. rewrite Z.add_0_r in R0.
  split; [split| | | |exists lo; split; [done|]| | | |]; first [rewrite <- R by (unfold zlen in *; lia)|rewrite <- R0 by lia]; done.
Qed.

Lemma next_request_ext al base size m m' r p payload : 8 <= al -> (forall x, data al base <= x < base + size -> m x = m' x) ->
  next_request al base size m r p payload -> next_request al base size m' r p payload.
Proof.
  intros Hal E [Hr Hf Hok [Hh1 Hh2] Ha]. pose proof (round_up_bounds al (56 + zlen payload) ltac:(lia)). assert (0 <= zlen payload) by (unfold zlen; lia).
  assert (0 <= rx_start al size r /\ al * 3 + rx_start al size r + 16 <= size) as [Hs0 Hs1]
    by (unfold rx_start; destruct (Z.ltb_spec size (al * 3 + r + 16)); lia).
  split; [done..|split|].
  - rewrite <- Hh1. apply read_ext. intros. symmetry. apply E. unfold data in *. lia.
  - rewrite <- Hh2. apply read_ext. intros. symmetry. apply E. unfold data in *. lia.
  - eapply request_at_ext; [|exact Ha]. intros x Hx. apply E. revert Hx. unfold rx_place, data. cbv zeta. case_match eqn:Ec; [|apply Z.ltb_ge in Ec]; lia.
Qed.

Lemma rx_ring_ext al base size m m' r w qs : 8 <= al -> (forall x, data al base <= x < base + size -> m x = m' x) ->
  rx_ring al base size m r w qs -> rx_ring al base size m' r w qs.
Proof. intros Hal E. induction 1; constructor; try done. by eapply next_request_ext. Qed.

Lemma send_full_run s ty cat sq payload out tw :
  let al := align s in let base := tx_off s in let size := tx_len (descr s) in
  let a := tx_place al size tw (zlen payload) in let total := round_up al (56 + zlen payload) in
  state s = EP_STATE_IDLE -> ring_ok al base size -> 0 <= tw <= size - al * 3 -> al * 3 + total <= size -> 0 <= cat < 16 ->
  holds (memory s) (writer al base) tw ->
  apple_aop_ep_send_packet_full s ty cat sq payload out =
    (s <| memory := stored (stored (memory s) (data al base + a) (sent_bytes (seq s) (clock s) (mkSub (zlen payload) cat ty sq out) payload))
                      (writer al base) (le_split 4 (a + total)) |>
       <| sent ::= fun l => l ++ [(num s, MSG_TX_SIGNAL)] |> <| seq ::= next_seq |>, true).
Proof.
  cbv zeta. intros Hs Hr Hw Ht Hc Hh. unfold apple_aop_ep_send_packet_full. rewrite bool_decide_true by done. cbn [negb].
  unfold access. by rewrite (send_stores_run s _ payload tw) by done.
Qed.

Lemma holds_wr m a v : holds (stored m a (le_split 4 v)) a v.
Proof. pose proof (read_wr m a (le_split 4 v)) as E. by rewrite length_le_split in E. Qed.

Lemma holds_ext m m' a v : (forall x, a <= x < a + 4 -> m' x = m x) -> holds m a v -> holds m' a v.
Proof. intros E Hh. unfold holds. rewrite <- Hh. by apply read_ext. Qed.

Lemma tx_place_fits al size w len : al * 3 + round_up al (56 + len) <= size -> 0 <= w ->
  0 <= tx_place al size w len /\ al * 3 + tx_place al size w len + round_up al (56 + len) <= size.
Proof. unfold tx_place. destruct (Z.ltb_spec size (al * 3 + w + round_up al (56 + len))); lia. Qed.

Lemma rx_next_range al base size m r p payload : 8 <= al -> size < 2 ^ 31 -> next_request al base size m r p payload -> 0 <= rx_next al size r (zlen payload) < 2 ^ 32.
Proof.
  intros Hal Hs [Hr Hf _ _ _]. pose proof (round_up_bounds al (56 + zlen payload) ltac:(lia)). assert (0 <= zlen payload) by (unfold zlen; lia).
  unfold rx_next, rx_start. cbv zeta. repeat case_match; lia.
Qed.

(** Memory after a round: the reader has moved in [m], what the service did is [m2], and a
    packet [pk] was stored in its place. *)
Section Round.
Variables (s : AppleAOPEndpoint T) (m2 g' : Z -> Z) (r' w a : Z) (pk : bytes).
Let al := align s.
Let rx := rx_off s.
Let tx := tx_off s.
Let rl := rx_len (descr s).
Let tl := tx_len (descr s).
Let m1 := stored (memory s) (reader al rx) (le_split 4 r').
Hypothesis Hrx : ring_ok al rx rl.
Hypothesis Htx : ring_ok al tx tl.
Hypothesis Hap : apart (rx, rl) (tx, tl).
Hypothesis Hout : forall x, outside s x -> m2 x = g' x.
Hypothesis Hin : forall x, ~ outside s x -> m2 x = m1 x.
Variable w' : Z.
Hypothesis Ha : 0 <= a <= w'.
Hypothesis Hw' : al * 3 + w' <= tl.
Hypothesis Hpk : a + zlen pk <= w'.
Let m3 := stored (stored m2 (data al tx + a) pk) (writer al tx) (le_split 4 w').

Lemma round_other x : ~ (data al tx + a <= x < data al tx + a + zlen pk) -> ~ (writer al tx <= x < writer al tx + 4) -> m3 x = m2 x.
Proof. intros H1 H2. unfold m3. rewrite !wr_other; [done|done|unfold zlen; rewrite length_le_split; lia]. Qed.

Lemma round_rx x : rx <= x < rx + rl -> ~ (reader al rx <= x < reader al rx + 4) -> m3 x = memory s x.
Proof.
  intros Hx Hn. pose proof (ring_al _ _ _ Htx). pose proof (ring_room _ _ _ Htx). unfold apart in Hap; cbn in Hap. 
  rewrite round_other by (unfold data, writer; lia). rewrite Hin by (unfold outside; fold rx tx rl tl; lia).
  apply wr_other. unfold zlen. rewrite length_le_split. lia.
Qed.

Lemma round_reader : holds m3 (reader al rx) r'.
Proof.
  pose proof (ring_al _ _ _ Htx). pose proof (ring_room _ _ _ Htx). pose proof (ring_room _ _ _ Hrx). unfold apart in Hap; cbn in Hap. 
  eapply holds_ext; [|apply (holds_wr (memory s))]. intros x Hx. unfold reader in Hx.
  rewrite round_other by (unfold data, writer; lia). apply Hin. unfold outside; fold rx tx rl tl; lia.
Qed.

Lemma round_tx x : data al tx <= x < tx + tl -> ~ (data al tx + a <= x < data al tx + w') -> m3 x = memory s x.
Proof.
  intros Hx Hn. pose proof (ring_al _ _ _ Htx). pose proof (ring_room _ _ _ Hrx). unfold apart in Hap; cbn in Hap. unfold data in *.
  rewrite round_other by (unfold data, writer; lia). rewrite Hin by (unfold outside; fold rx tx rl tl; lia).
  apply wr_other. unfold reader, zlen. rewrite length_le_split. lia.
Qed.

Lemma round_packet : read_mem m3 (data al tx + a) (length pk) = pk.
Proof.
  unfold m3. rewrite read_wr_other; [apply read_wr|]. pose proof (ring_al _ _ _ Htx). unfold data, writer, zlen. rewrite length_le_split. lia.
Qed.

Lemma round_outside x : outside s x -> m3 x = g' x.
Proof.
  intros Hx. rewrite <- Hout by done. pose proof (ring_al _ _ _ Htx). pose proof (ring_room _ _ _ Htx). unfold outside in Hx. fold rx tx rl tl in Hx.
  apply round_other; unfold data, writer; lia.
Qed.
End Round.

(** One round of the loop. *)
Lemma serve_one fuel s g r w tw p payload o' g' reply :
  let al := align s in let size := tx_len (descr s) in
  let a := tx_place al size tw (zlen reply) in let total := round_up al (56 + zlen reply) in
  serving s g r w tw -> r <> w -> next_request al (rx_off s) (rx_len (descr s)) (memory s) r p payload ->
  out_len p + 4 < 2 ^ 32 -> answers (descr s) (outside s) (opaque s, g) (p, payload) (o', g') reply -> al * 3 + total <= size ->
  exists m, let s' := s <| opaque := o' |> <| memory := m |> <| sent ::= fun l => l ++ [(num s, MSG_TX_SIGNAL)] |> <| seq ::= next_seq |> in
    rx_loop (S fuel) s = rx_loop fuel s' /\ serving s' g' (rx_next al (rx_len (descr s)) r (zlen payload)) w (a + total) /\
    (forall x, data al (rx_off s) <= x < rx_off s + rx_len (descr s) -> memory s x = m x) /\
    read_mem m (data al (tx_off s) + a) (56 + length reply) =
      sent_bytes (seq s) (clock s) (mkSub (zlen reply) CAT_RESPONSE (p_type p) (p_seq p) 0) reply /\
    (forall x, data al (tx_off s) <= x < tx_off s + size -> ~ (data al (tx_off s) + a <= x < data al (tx_off s) + (a + total)) -> m x = memory s x).
Proof.
  cbv zeta. intros [Hi Hrx Htx Hap [Hr Hhr] [Hw Hhw] [Htw Hht] Hg] Hne Hq Ho Ha Hf.
  pose proof (ring_al _ _ _ Hrx) as Hal. pose proof (ring_room _ _ _ Hrx) as Hr3. pose proof (ring_room _ _ _ Htx) as Ht3.
  pose proof (round_up_bounds (align s) (56 + zlen reply) ltac:(lia)) as Hru. assert (0 <= zlen reply) by (unfold zlen; lia).
  destruct (tx_place_fits (align s) (tx_len (descr s)) tw (zlen reply)) as [Ha0 Ha1]; [lia..|].
  pose proof (rx_next_range _ _ _ _ _ _ _ (proj1 Hal) (proj2 Hr3) Hq) as Hnr.
  set (r' := rx_next (align s) (rx_len (descr s)) r (zlen payload)) in *. set (a := tx_place (align s) (tx_len (descr s)) tw (zlen reply)) in *.
  set (w' := a + round_up (align s) (56 + zlen reply)) in *.
  set (m1 := stored (memory s) (reader (align s) (rx_off s)) (le_split 4 r')).
  destruct (handle_packet_run (s <| memory := m1 |>) (outside s) g p payload o' g' reply) as (m2 & Eh & Hm2 & Hm2'); [apply Hq|done..| |].
  { intros x Hx. cbn. unfold m1. rewrite wr_other; [by apply Hg|]. unfold outside, reader, zlen in *. rewrite length_le_split. lia. }
  set (pk := sent_bytes (seq s) (clock s) (mkSub (zlen reply) CAT_RESPONSE (p_type p) (p_seq p) 0) reply).
  assert (zlen pk = 56 + zlen reply) as Epk by apply sent_bytes_len.
  exists (stored (stored m2 (data (align s) (tx_off s) + a) pk) (writer (align s) (tx_off s)) (le_split 4 w')).
  pose proof (round_rx s m2 r' a pk Htx Hap Hm2' w') as Rrx. pose proof (round_reader s m2 r' a pk Hrx Htx Hap Hm2' w') as Rrd.
  pose proof (round_tx s m2 r' a pk Hrx Htx Hap Hm2' w') as Rtx. pose proof (round_packet s m2 a pk Htx w') as Rpk.
  pose proof (round_outside s m2 g' a pk Htx Hm2 w') as Rout.
  split_and!.
  - cbn [rx_loop]. rewrite (rx_empty_run s r w) by done. rewrite (proj2 (Z.eqb_neq w r)) by done. unfold apple_aop_ep_recv_packet_locked.
    rewrite (rx_empty_run s r w) by done. rewrite (proj2 (Z.eqb_neq w r)) by done. cbn [negb c_assert]. 
    unfold access. destruct Hq. erewrite recv_packet_run by done. cbn [mbind outcome_bind]. fold r' m1. rewrite Eh. cbn [mbind outcome_bind].
    unfold apple_aop_ep_send_reply_locked. rewrite (send_full_run _ _ _ _ _ _ tw); [done|try done..].
    cbn. eapply holds_ext; [|exact Hht]. unfold apart, writer in *. cbn in Hap. intros x Hx. rewrite Hm2' by (unfold outside; lia).
    apply wr_other. unfold reader, zlen. rewrite length_le_split. lia.
  - split; try done; cbn.
    + split; [done|]. apply Rrd; lia.
    + split; [done|]. eapply holds_ext; [|exact Hhw]. intros x Hx. unfold writer in Hx. apply Rrx; try lia. unfold reader; lia.
    + split; [lia|]. apply holds_wr.
    + apply Rout; lia.
  - intros x Hx. symmetry. apply Rrx; try lia; unfold data, reader in *; lia.
  - assert (length pk = 56 + length reply)%nat as E by (unfold zlen in *; lia). rewrite <- E. apply Rpk. lia.
  - intros x Hx Hn. apply Rtx; lia.
Qed.

(** The end point after [n] packets were sent. *)
Definition after s (o : T) (m : Z -> Z) (n : nat) : AppleAOPEndpoint T :=
  s <| opaque := o |> <| memory := m |> <| sent ::= fun l => l ++ replicate n (num s, MSG_TX_SIGNAL) |> <| seq ::= Nat.iter n next_seq |>.

Lemma after_eq s o m n : after s o m n =
  mkEp (num s) (rx_off s) (tx_off s) (Nat.iter n next_seq (seq s)) o (descr s) (state s) (align s) m (clock s) (sent s ++ replicate n (num s, MSG_TX_SIGNAL)).
Proof. by destruct s. Qed.

Lemma after_none s : after s (opaque s) (memory s) 0 = s.
Proof. rewrite after_eq. cbn. rewrite app_nil_r. by destruct s. Qed.

Lemma after_one s o m o' m' n :
  after (s <| opaque := o |> <| memory := m |> <| sent ::= fun l => l ++ [(num s, MSG_TX_SIGNAL)] |> <| seq ::= next_seq |>) o' m' n = after s o' m' (S n).
Proof. rewrite !after_eq, Nat.iter_succ_r. destruct s. by cbn; rewrite <- (assoc_L (++)). Qed.

Definition in_slot (a : Z * Z) (x : Z) : Prop := a.1 <= x < a.1 + a.2.

(** The loop serves what is in the ring. *)
Lemma serve_loop qs : forall fuel s g r w tw o2 g2 replies,
  let al := align s in let size := tx_len (descr s) in let slots := tx_slots al size tw (zlen <$> replies) in
  serving s g r w tw -> rx_ring al (rx_off s) (rx_len (descr s)) (memory s) r w qs ->
  conversation (descr s) (outside s) (opaque s, g) qs (o2, g2) replies ->
  Forall (fun a => al * 3 + a.2 <= size) slots -> ForallOrdPairs apart slots -> (length qs <= fuel)%nat ->
  exists m, rx_loop fuel s = Done (after s o2 m (length qs)) /\ serving (after s o2 m (length qs)) g2 w w (tx_end_place tw slots) /\
    tx_ring al (tx_off s) size (clock s) m tw (seq s) qs replies /\
    (forall x, data al (tx_off s) <= x < tx_off s + size -> Forall (fun a => ~ in_slot a (x - data al (tx_off s))) slots -> m x = memory s x).
Proof.
  induction qs as [|[p payload] qs IH]; intros fuel s g r w tw o2 g2 replies; cbv zeta; intros Hs Hrx Hc Hf Ho Hn; inversion Hrx; subst; inversion Hc; subst.
  - exists (memory s). cbn [length]. rewrite after_none. split_and!; [|done|constructor|done]. destruct fuel; cbn; rewrite (rx_empty_run s w w), Z.eqb_refl by apply Hs; done.
  - destruct fuel as [|fuel]; [cbn in Hn; lia|]. destruct g1 as [o1 g1]. cbn [fmap list_fmap tx_slots fst] in *. 
    set (a := tx_place (align s) (tx_len (descr s)) tw (zlen reply)) in *. set (total := round_up (align s) (56 + zlen reply)) in *.
    apply Forall_cons in Hf as [Hf0 Hf]. inversion Ho as [|? ? Ho0 Ho1]; subst. cbn [snd] in Hf0.
    edestruct (serve_one fuel s g r w tw p payload o1 g1 reply) as (m & El & Hs1 & Hrxm & Hpk & Hfr); [done..|]. cbv zeta in El, Hs1. fold a total in Hpk, Hfr, Hs1.
    set (s1 := s <| opaque := o1 |> <| memory := m |> <| sent ::= fun l => l ++ [(num s, MSG_TX_SIGNAL)] |> <| seq ::= next_seq |>) in *.
    destruct (IH fuel s1 g1 (rx_next (align s) (rx_len (descr s)) r (zlen payload)) w (a + total) o2 g2 replies0) as (m' & El' & Hs' & Htx & Hfr'); try done.
    + eapply rx_ring_ext; [apply (ring_al _ _ _ (sv_rx _ _ _ _ _ Hs))|apply Hrxm|done].
    + cbn in Hn. lia.
    + exists m'. cbn [length]. rewrite <- (after_one s o1 m). fold s1. rewrite El, El'. split_and!; [done|done| |].
      * constructor; [|done]. fold a. rewrite <- Hpk. apply read_ext. intros x Hx.
        pose proof (ring_al _ _ _ (sv_rx _ _ _ _ _ Hs)) as Hal. pose proof (proj1 (sv_tx_writer _ _ _ _ _ Hs)).
        pose proof (round_up_bounds (align s) (56 + zlen reply) ltac:(lia)) as Hru. fold total in Hru.
        destruct (tx_place_fits (align s) (tx_len (descr s)) tw (zlen reply)) as [Ha0 Ha1]; [fold total; lia..|]. fold a total in Ha0, Ha1.
        apply Hfr'; [unfold data, zlen in *; cbn; lia|]. eapply Forall_impl; [exact Ho0|]. intros b Hb Hin.
        unfold apart, in_slot, zlen in *. cbn in *. lia.
      * intros x Hx Hsl. apply Forall_cons in Hsl as [Hsl0 Hsl]. etrans; [apply Hfr'; done|]. apply Hfr; [done|]. unfold in_slot in Hsl0. cbn in Hsl0. lia.
Qed.

(** C7: a signal of the guest serves its ring.  When the receive ring of an idle end point
    holds requests from the reader to the writer (each laid out as the guest writes it, one
    that does not fit before the end at the start again) and the transmit ring has a place
    apart from the others for each reply, then with as much fuel as there are requests the
    signal comes to an end.  The service has had every request, in order, and its memory
    outside the rings is what the service made of it; every reply is in its place with the
    type and number of its request and the next sequence number; the guest was signalled
    once for each; the reader is where the writer is, and the writer of the transmit ring is
    behind the last reply. *)
Theorem aop_serves fuel s msg qs r w tw o2 g2 replies :
  let al := align s in let size := tx_len (descr s) in let slots := tx_slots al size tw (zlen <$> replies) in
  MSG_OP_GET msg = OP_RX_SIGNAL -> serving s (memory s) r w tw ->
  rx_ring al (rx_off s) (rx_len (descr s)) (memory s) r w qs ->
  conversation (descr s) (outside s) (opaque s, memory s) qs (o2, g2) replies ->
  Forall (fun a => al * 3 + a.2 <= size) slots -> ForallOrdPairs apart slots -> (length qs <= fuel)%nat ->
  exists m, apple_aop_ep_handle_message fuel s msg = Done (after s o2 m (length qs)) /\
    tx_ring al (tx_off s) size (clock s) m tw (seq s) qs replies /\
    holds m (reader al (rx_off s)) w /\ holds m (writer al (tx_off s)) (tx_end_place tw slots) /\
    (forall x, outside s x -> m x = g2 x).
Proof.
  cbv zeta. intros Hm Hs Hrx Hc Hf Ho Hn. destruct (serve_loop qs fuel s (memory s) r w tw o2 g2 replies) as (m & El & Hs' & Htx & _); [done..|].
  exists m. unfold apple_aop_ep_handle_message. rewrite (sv_idle _ _ _ _ _ Hs), Hm. rewrite after_eq in *. destruct Hs' as [_ _ _ _ [_ Hr] _ [_ Hw] Hg].
  by split_and!.
Qed.

(** ** The conversation that sets the rings up *)

(** The head of a ring: the size of its data and the version. *)
Definition ring_head (al size : Z) : bytes := le_split 4 (size - al * 3) ++ le_split 2 6 ++ le_split 2 7.

Lemma ring_head_len al size : zlen (ring_head al size) = 8.
Proof. done. Qed.

Lemma init_rb_run s addr len m : ring_ok (align s) addr len -> apple_aop_ep_init_rb s addr len m = (stored m addr (ring_head (align s) len), Some tt).
Proof.
  intros Hr. unfold apple_aop_ep_init_rb. pose proof (ring_al _ _ _ Hr). pose proof (ring_base _ _ _ Hr). pose proof (ring_top _ _ _ Hr).
  pose proof (ring_room _ _ _ Hr). pose proof (ring_there _ _ _ Hr) as Hp. norm32. do 2 step Hp. rewrite (st_run _ _ _ _ _ _ Hp) by lia.
  f_equal. rewrite !wr_app; [done|zlen_norm; lia..].
Qed.


Lemma ready_report_len s : zlen (apple_aop_ep_write_ready_report s) = 44.
Proof.
  unfold apple_aop_ep_write_ready_report. cbv zeta. zlen_norm. pose proof (firstn_le_length 32 (service_name (descr s))). lia.
Qed.

(** An end point that has been given its rings. *)
Definition with_rings s (rx tx : Z) (m : Z -> Z) : AppleAOPEndpoint T :=
  mkEp (num s) rx tx (next_seq (seq s)) (opaque s) (descr s) EP_STATE_IDLE (align s) m (clock s)
    (sent s ++ ((num s,.) <$> [MSG_REQUEST_REGION_BYTES (rx_len (descr s)); MSG_SET_RX_QUEUE_BY_ADDR rx;
                              MSG_REQUEST_REGION_BYTES (tx_len (descr s)); MSG_SET_TX_QUEUE_BY_ADDR tx; MSG_TX_SIGNAL])).

(** The messages of the guest one after the other. *)
Definition messages (fuel : nat) s (msgs : list Z) : outcome (AppleAOPEndpoint T) :=
  foldl (fun o msg => s ← o; apple_aop_ep_handle_message fuel s msg) (Done s) msgs.

Lemma hello_step fuel s ack : state s = EP_STATE_AWAITING_HELLO -> MSG_OP_GET ack = OP_ACK_HELLO ->
  apple_aop_ep_handle_message fuel s ack =
    Done (apple_rtkit_send_user_msg s (MSG_REQUEST_REGION_BYTES (rx_len (descr s))) <| state := EP_STATE_AWAITING_RX_ACK |>).
Proof. intros Hs Ha. unfold apple_aop_ep_handle_message. by rewrite Hs, Ha. Qed.

Lemma rx_step fuel s rx ack : state s = EP_STATE_AWAITING_RX_ACK -> MSG_OP_GET ack = OP_ACK_REQUEST_REGION -> MSG_ACK_REQUEST_REGION ack = rx ->
  ring_ok (align s) rx (rx_len (descr s)) ->
  apple_aop_ep_handle_message fuel s ack =
    Done (mkEp (num s) rx (tx_off s) (seq s) (opaque s) (descr s) EP_STATE_AWAITING_TX_ACK (align s) (stored (memory s) rx (ring_head (align s) (rx_len (descr s))))
      (clock s) ((sent s ++ [(num s, MSG_SET_RX_QUEUE_BY_ADDR rx)]) ++ [(num s, MSG_REQUEST_REGION_BYTES (tx_len (descr s)))])).
Proof.
  intros Hs Ha Er Hr. pose proof (ring_base _ _ _ Hr). pose proof (ring_top _ _ _ Hr). pose proof (ring_room _ _ _ Hr). pose proof (ring_al _ _ _ Hr).
  unfold apple_aop_ep_handle_message. rewrite Hs, Ha, Er, u32_id by lia. cbn match. unfold access.
  by rewrite init_rb_run by done.
Qed.

Lemma tx_step fuel s tx ack :
  let al := align s in let tl := tx_len (descr s) in let pl := apple_aop_ep_write_ready_report s in
  state s = EP_STATE_AWAITING_TX_ACK -> MSG_OP_GET ack = OP_ACK_REQUEST_REGION -> MSG_ACK_REQUEST_REGION ack = tx ->
  ring_ok al tx tl -> al * 3 + round_up al 100 <= tl -> holds (memory s) (writer al tx) 0 ->
  apple_aop_ep_handle_message fuel s ack =
    Done (mkEp (num s) (rx_off s) tx (next_seq (seq s)) (opaque s) (descr s) EP_STATE_IDLE al
      (stored (stored (stored (memory s) tx (ring_head al tl)) (data al tx) (sent_bytes (seq s) (clock s) (mkSub 44 CAT_REPORT PACKET_TYPE_READY_REPORT (seq s) 0) pl))
         (writer al tx) (le_split 4 (round_up al 100)))
      (clock s) ((sent s ++ [(num s, MSG_SET_TX_QUEUE_BY_ADDR tx)]) ++ [(num s, MSG_TX_SIGNAL)])).
Proof.
  cbv zeta. intros Hs Ha Er Hr Hf Hw. pose proof (ring_base _ _ _ Hr). pose proof (ring_top _ _ _ Hr). pose proof (ring_room _ _ _ Hr). pose proof (ring_al _ _ _ Hr).
  unfold apple_aop_ep_handle_message. rewrite Hs, Ha, Er, u32_id by lia. cbn match. unfold access.
  rewrite init_rb_run by done. unfold apple_aop_ep_send_report_locked. pose proof (ready_report_len s) as El.
  pose proof (round_up_bounds (align s) 100 ltac:(lia)).
  match goal with |- context [apple_aop_ep_send_packet_full ?x] => set (s2 := x) end.
  change (apple_aop_ep_write_ready_report s2) with (apple_aop_ep_write_ready_report s).
  pose proof (send_full_run s2 PACKET_TYPE_READY_REPORT CAT_REPORT (seq s) (apple_aop_ep_write_ready_report s) 0 0) as E. cbv zeta in E.
  rewrite El in E. change (56 + 44) with 100 in E. change (align s2) with (align s) in E. change (descr s2) with (descr s) in E. change (tx_off s2) with tx in E.
  assert (tx_place (align s) (tx_len (descr s)) 0 44 = 0) as E0 by (unfold tx_place; change (56 + 44) with 100; by case_match). rewrite E0 in E.
  replace (data (align s) tx + 0) with (data (align s) tx) in E by lia. change (seq s2) with (seq s). rewrite E; [done|done|done|lia|done|done|].
  eapply holds_ext; [|exact Hw]. intros x Hx. apply wr_other. rewrite ring_head_len. change (~ (tx <= x < tx + 8)). unfold writer in Hx. lia.
Qed.

(** C27: the handshake.  After its hello an end point is answered with an acknowledgement and
    with two regions of memory that are there, apart, and empty (their places are zero).
    It asks for a region of each size and says where the rings are, in this order; it puts
    the head of each ring at its start and a report with its name, number and kind in the
    transmit ring; then it is idle and ready to serve the rings. *)
Theorem aop_handshake fuel s rx tx ack ackrx acktx :
  let al := align s in let rl := rx_len (descr s) in let tl := tx_len (descr s) in let total := round_up al 100 in
  state s = EP_STATE_AWAITING_HELLO -> MSG_OP_GET ack = OP_ACK_HELLO ->
  MSG_OP_GET ackrx = OP_ACK_REQUEST_REGION -> MSG_ACK_REQUEST_REGION ackrx = rx ->
  MSG_OP_GET acktx = OP_ACK_REQUEST_REGION -> MSG_ACK_REQUEST_REGION acktx = tx ->
  ring_ok al rx rl -> ring_ok al tx tl -> apart (rx, rl) (tx, tl) -> al * 3 + total <= tl ->
  holds (memory s) (reader al rx) 0 -> holds (memory s) (writer al rx) 0 -> holds (memory s) (writer al tx) 0 ->
  exists m, let s' := with_rings s rx tx m in
    messages fuel s [ack; ackrx; acktx] = Done s' /\ serving s' m 0 0 total /\
    read_mem m rx 8 = ring_head al rl /\ read_mem m tx 8 = ring_head al tl /\
    read_mem m (data al tx) 100 =
      sent_bytes (seq s) (clock s) (mkSub 44 CAT_REPORT PACKET_TYPE_READY_REPORT (seq s) 0) (apple_aop_ep_write_ready_report s) /\
    (forall x, outside s' x -> m x = memory s x).
Proof.
  cbv zeta. intros Hi Ea Erx Earx Etx Eatx Hrx Htx Hap Hf Hrr Hrw Htw.
  pose proof (ring_al _ _ _ Hrx) as Hal. pose proof (ring_room _ _ _ Hrx) as Hr3. pose proof (ring_room _ _ _ Htx) as Ht3.
  pose proof (round_up_bounds (align s) 100 ltac:(lia)). unfold apart in Hap. cbn [fst snd] in Hap.
  set (rl := rx_len (descr s)) in *. set (tl := tx_len (descr s)) in *. set (al := align s) in *. set (total := round_up al 100) in *.
  set (pk := sent_bytes (seq s) (clock s) (mkSub 44 CAT_REPORT PACKET_TYPE_READY_REPORT (seq s) 0) (apple_aop_ep_write_ready_report s)).
  assert (zlen pk = 100) as Epk by (unfold pk; by rewrite sent_bytes_len, ready_report_len).
  assert (forall v, zlen (le_split 4 v) = 4) as Ele by done.
  set (m := stored (stored (stored (stored (memory s) rx (ring_head al rl)) tx (ring_head al tl)) (data al tx) pk) (writer al tx) (le_split 4 total)).
  assert (forall a, (forall x, a <= x < a + 4 -> rx + 8 <= x < rx + rl) -> forall v, holds (memory s) a v -> holds m a v) as Hk.
  { intros a Hx v. apply holds_ext. intros x Hxa%Hx. unfold m. rewrite !wr_other; rewrite ?ring_head_len, ?Epk, ?Ele; unfold data, writer; done || lia. }
  exists m. split_and!.
  - unfold messages. cbn [foldl]. change (Done s ≫= ?f) with (f s). cbn beta. rewrite (hello_step fuel s ack) by done.
    change (Done ?x ≫= ?f) with (f x). cbn beta. rewrite (rx_step fuel _ rx ackrx) by done. change (Done ?x ≫= ?f) with (f x). cbn beta.
    rewrite (tx_step fuel _ tx acktx); [|done..|].
    + unfold with_rings. do 2 f_equal. cbn. by rewrite <- !(assoc_L (++)).
    + eapply holds_ext; [|exact Htw]. intros x Hx. apply wr_other. rewrite ring_head_len. change (writer _ _) with (writer al tx) in Hx. unfold writer in Hx. lia.
  - split; try done; cbn.
    + split; [lia|]. apply Hk; [|done]. unfold reader. fold al. lia.
    + split; [lia|]. apply Hk; [|done]. unfold writer. fold al. lia.
    + split; [fold al tl; lia|]. apply holds_wr.
  - unfold m. rewrite 3!read_wr_other; rewrite ?ring_head_len, ?Epk, ?Ele; unfold data, writer; try (cbn; lia). apply (read_wr _ _ (ring_head al rl)).
  - unfold m. rewrite 2!read_wr_other; rewrite ?ring_head_len, ?Epk, ?Ele; unfold data, writer; try (cbn; lia). apply (read_wr _ _ (ring_head al tl)).
  - unfold m. rewrite read_wr_other by (rewrite Ele; unfold data, writer; cbn; lia). replace 100%nat with (length pk) by (unfold zlen in Epk; lia). apply read_wr.
  - intros x Hx. unfold outside in Hx. cbn in Hx. fold rl tl in Hx. unfold m. rewrite !wr_other; rewrite ?ring_head_len, ?Epk, ?Ele; unfold data, writer; done || lia.
Qed.

(** ** All end points *)

Lemma hello_foreach n : forall i (a : AppleAOPState (T := T)), (i + n = length (endpoints a))%nat -> exists a',
  foreach n i a apple_aop_ep_hello_foreach = Done a' /\
  a_sent a' = a_sent a ++ ((fun s => (num s, MSG_HELLO 8)) <$> drop i (endpoints a)) /\ a_memory a' = a_memory a /\
  take i (endpoints a') = take i (endpoints a) /\ Forall (fun s => state s = EP_STATE_AWAITING_HELLO) (drop i (endpoints a')).
Proof.
  induction n as [|n IH]; intros i a Hl.
  - exists a. rewrite drop_ge, app_nil_r by lia. by repeat split.
  - destruct (lookup_lt_is_Some_2 (endpoints a) i ltac:(lia)) as [s Hs]. cbn [foreach]. unfold with_endpoint. rewrite Hs. cbn [mbind outcome_bind].
    match goal with |- context [foreach n (S i) ?x] => set (a1 := x) end.
    destruct (IH (S i) a1) as (a' & E & Es & Em & Et & Ef); [unfold a1; cbn; rewrite length_insert; lia|].
    exists a'. split_and!; [done| |done| |].
    + rewrite Es. unfold a1. cbn. rewrite drop_insert_lt by lia. rewrite (drop_S _ _ _ Hs). by rewrite <- (assoc_L (++)).
    + apply (f_equal (take i)) in Et. rewrite !take_take, Nat.min_l in Et by lia. rewrite Et. unfold a1. cbn. by rewrite take_insert_ge by lia.
    + apply (f_equal (fun l => l !! i)) in Et. rewrite !lookup_take_lt in Et by lia. unfold a1 in Et. cbn in Et.
      rewrite list_lookup_insert_eq in Et by lia. rewrite (drop_S _ _ _ Et). by constructor.
Qed.

(** When the firmware has booted every end point says hello, in order. *)
Lemma boot_done_hello (a : AppleAOPState (T := T)) : exists a', apple_aop_boot_done a = Done a' /\
  a_sent a' = a_sent a ++ ((fun s => (num s, MSG_HELLO 8)) <$> endpoints a) /\ a_memory a' = a_memory a /\
  Forall (fun s => state s = EP_STATE_AWAITING_HELLO) (endpoints a').
Proof. destruct (hello_foreach (length (endpoints a)) 0 a eq_refl) as (a' & E & Es & Em & _ & Ef). by exists a'. Qed.

(** ** Where the code does not do what it means to *)

(** The reader of a guest whose writer is no place of a packet never reaches it: a packet
    that fills the ring is served again and again. *)
Lemma rx_endless fuel : forall s g w tw p payload, serving s g 0 w tw -> w <> 0 ->
  next_request (align s) (rx_off s) (rx_len (descr s)) (memory s) 0 p payload -> rx_next (align s) (rx_len (descr s)) 0 (zlen payload) = 0 ->
  p_type p <> PACKET_TYPE_GET_PROPERTY -> p_type p <> PACKET_TYPE_COMMAND -> out_len p = 0 ->
  align s * 3 + round_up (align s) 60 <= tx_len (descr s) -> rx_loop fuel s = NoFuel.
Proof.
  induction fuel as [|fuel IH]; intros s g w tw p payload Hs Hw Hq Hn H1 H2 H3 Hf.
  - cbn. rewrite (rx_empty_run s 0 w) by apply Hs. by rewrite (proj2 (Z.eqb_neq w 0)).
  - destruct (serve_one fuel s g 0 w tw p payload (opaque s) g (replicate 4 0)) as (m & El & Hs' & Hm & _); [done|done|done|lia| |done|].
    { replace (replicate 4 0) with (replicate (Z.to_nat (out_len p + 4)) 0) by (by rewrite H3). by apply answer_none. }
    cbv zeta in El, Hs'. rewrite El. eapply IH; [rewrite Hn in Hs'; exact Hs'|done| |done..].
    eapply next_request_ext; [apply (ring_al _ _ _ (sv_rx _ _ _ _ _ Hs))|exact Hm|exact Hq].
Qed.
End AopSpec.

(** A command is told that its output has four bytes more than it has. *)
Definition compare_length {T} (o : T) (_ : Z) (_ : option bytes) (_ : Z) (out : option bytes) (n : Z) : outcome (T * AppleAOPResult * option bytes) :=
  Done (o, if zlen (default [] out) =? n then AOP_RESULT_OK else AOP_RESULT_ERROR, out).

Lemma command_output_length `{DmaMemory} {T} (s : AppleAOPEndpoint T) p payload :
  handle_command (descr s) = Some compare_length -> p_type p = PACKET_TYPE_COMMAND -> category p <> CAT_LONG_COMMAND ->
  0 <= out_len p -> out_len p + 4 < 2 ^ 32 ->
  handle_packet s p payload = Done (s, le_split 4 (result_code AOP_RESULT_ERROR) ++ replicate (Z.to_nat (out_len p)) 0).
Proof.
  intros Hc Ht Hl Ho Ho4. unfold handle_packet. rewrite Ht, Hc, (u32_id (out_len p + 4)), (proj2 (Z.eqb_neq _ _) Hl), zeros_head by lia.
  change (PACKET_TYPE_COMMAND =? PACKET_TYPE_GET_PROPERTY) with false. change (PACKET_TYPE_COMMAND =? PACKET_TYPE_COMMAND) with true. cbn match.
  change (drop 4 ([0; 0; 0; 0] ++ ?l)) with l. change (take 4 ([0; 0; 0; 0] ++ ?l)) with [0; 0; 0; 0]. unfold compare_length.
  change (default [] (Some ?l)) with l. rewrite (proj2 (Z.eqb_neq _ _)) by (unfold zlen; rewrite length_replicate; lia).
  cbn [mbind outcome_bind]. rewrite store_head by done. cbn [mbind outcome_bind]. by destruct s.
Qed.

(** ** Audio *)

(** A request for a property of a device: what is before the device does not matter but for
    its first two words. *)
Definition device_request (cmd : Z) (pad : bytes) (dev prop : Z) (rest : bytes) : bytes :=
  le_split 4 0xFFFFFFFF ++ le_split 4 cmd ++ pad ++ le_split 4 dev ++ le_split 4 prop ++ rest.

Section Request.
Variables (cmd : Z) (pad : bytes) (dev prop : Z) (rest : bytes).
Hypothesis Hpad : length pad = 28%nat.
Hypotheses (Hcmd : in_width 32 cmd) (Hdev : in_width 32 dev) (Hprop : in_width 32 prop).
Let q := device_request cmd pad dev prop rest.

Lemma request_long : (zlen q <? Audio.COMMAND_HDR_LEN) = false.
Proof. apply Z.ltb_ge. unfold Audio.COMMAND_HDR_LEN, q, device_request. rewrite !zlen_app. unfold zlen. rewrite !length_le_split. lia. Qed.

Lemma request_magic : load_le q 0 = Done 0xFFFFFFFF.
Proof. by apply (load_at 4 _ [] _ (le_split 4 cmd ++ pad ++ le_split 4 dev ++ le_split 4 prop ++ rest)). Qed.

Lemma request_cmd : load_le q 4 = Done cmd.
Proof. by apply (load_at 4 _ (le_split 4 0xFFFFFFFF) _ (pad ++ le_split 4 dev ++ le_split 4 prop ++ rest)). Qed.

Lemma request_dev : load_le q Audio.COMMAND_HDR_LEN = Done dev.
Proof.
  apply (load_at 4 _ (le_split 4 0xFFFFFFFF ++ le_split 4 cmd ++ pad) _ (le_split 4 prop ++ rest)); [by rewrite <- !(assoc_L (++))| |done..].
  rewrite !zlen_app. unfold zlen. by rewrite Hpad.
Qed.

Lemma request_rest v pre post k : rest = pre ++ le_split 4 v ++ post -> in_width 32 v -> k = 44 + zlen pre -> load_le q k = Done v.
Proof.
  intros Er Hv Hk. apply (load_at 4 _ (le_split 4 0xFFFFFFFF ++ le_split 4 cmd ++ pad ++ le_split 4 dev ++ le_split 4 prop ++ pre) _ post); [| |done..].
  - unfold q, device_request. rewrite Er. by rewrite <- !(assoc_L (++)).
  - rewrite !zlen_app, Hk. unfold zlen. rewrite Hpad, !length_le_split. lia.
Qed.

Lemma request_prop : load_le q (Audio.COMMAND_HDR_LEN + 4) = Done prop.
Proof.
  apply (load_at 4 _ (le_split 4 0xFFFFFFFF ++ le_split 4 cmd ++ pad ++ le_split 4 dev) _ rest); [by rewrite <- !(assoc_L (++))| |done..].
  rewrite !zlen_app. unfold zlen. by rewrite Hpad.
Qed.
End Request.

(** Five words at the start of a buffer. *)
Lemma put_words_front ws out : (4 * length ws <= length out)%nat ->
  Audio.put_words (Some out) ws = Done (Some (mjoin (le_split 4 <$> ws) ++ drop (4 * length ws) out)).
Proof.
  unfold Audio.put_words.
  enough (forall ws k pre out, zlen pre = 4 * Z.of_nat k -> (4 * length ws <= length out)%nat ->
    foldl (fun o '(i, w) => b ← o; store_le b (4 * Z.of_nat i) w) (Done (pre ++ out)) (imap (fun i => pair (k + i)%nat) ws) =
    Done (pre ++ mjoin (le_split 4 <$> ws) ++ drop (4 * length ws) out)) as E.
  { intros Hl. pose proof (E ws 0%nat [] out eq_refl Hl) as E0. cbn [app Nat.add] in E0. change (imap (fun i => pair i) ws) with (imap pair ws) in E0. by rewrite E0. }
  clear. induction ws as [|w ws IH]; intros k pre out Hk Hl; [by rewrite drop_0|]. cbn [imap foldl mbind outcome_bind].
  unfold store_le at 2. rewrite Nat.add_0_r, <- Hk, blit_at by (revert Hl; unfold zlen; rewrite length_le_split; cbn [length]; lia).
  rewrite (imap_ext _ (fun i => pair (S k + i)%nat)) by (intros; cbn; f_equal; lia). rewrite (assoc_L (++)), IH.
  - rewrite <- (assoc_L (++)), drop_drop, length_le_split. cbn [fmap list_fmap mjoin list_join length]. rewrite <- (assoc_L (++)). by replace (4 * S (length ws))%nat with (4 + 4 * length ws)%nat by lia.
  - rewrite zlen_app, Hk. unfold zlen. rewrite length_le_split. lia.
  - rewrite length_drop, length_le_split. cbn [length] in Hl. lia.
Qed.

(** The channels of the microphone that were set are the ones that are read. *)
Lemma channels_roundtrip s sq sq' pad pad' sz a b c d rest out n :
  let dev := Audio.code "lpai" in let prop := Audio.DEV_PROP_CHANNEL_CTRL in
  let set := device_request Audio.COMMAND_SET_DEVICE_PROP pad dev prop (le_split 4 sz ++ le_split 4 a ++ le_split 4 b ++ le_split 4 c ++ le_split 4 d ++ rest) in
  let get := device_request Audio.COMMAND_GET_DEVICE_PROP pad' dev prop [] in
  length pad = 28%nat -> length pad' = 28%nat -> (20 <= length out)%nat -> in_width 32 a -> in_width 32 b -> in_width 32 c -> in_width 32 d ->
  ('(s, _, _) ← Audio.apple_aop_audio_handle_command s sq (Some set) (zlen set) None 0;
   Audio.apple_aop_audio_handle_command s sq' (Some get) (zlen get) (Some out) n) =
  Done (Audio.mkAudio a b c d, AOP_RESULT_OK,
        Some ((le_split 4 16 ++ le_split 4 a ++ le_split 4 b ++ le_split 4 c ++ le_split 4 d) ++ drop 20 out)).
Proof.
  cbv zeta. intros Hp Hp' Ho Ha Hb Hc Hd. unfold Audio.apple_aop_audio_handle_command.
  rewrite !request_long, !request_magic by done. cbn [mbind outcome_bind]. change (negb (0xFFFFFFFF =? 0xFFFFFFFF)) with false. cbn match.
  rewrite !request_cmd, !request_dev by done. cbn [mbind outcome_bind].
  change (Audio.COMMAND_SET_DEVICE_PROP =? Audio.COMMAND_GET_DEVICE_ID) with false. change (Audio.COMMAND_SET_DEVICE_PROP =? Audio.COMMAND_GET_DEVICE_PROP) with false.
  change (Audio.COMMAND_SET_DEVICE_PROP =? Audio.COMMAND_SET_DEVICE_PROP) with true. rewrite Z.eqb_refl. cbn match.
  rewrite request_prop by done. cbn [mbind outcome_bind]. rewrite Z.eqb_refl. cbn match.
  rewrite (request_rest _ _ _ _ _ Hp a (le_split 4 sz) (le_split 4 b ++ le_split 4 c ++ le_split 4 d ++ rest) (Audio.COMMAND_HDR_LEN + 12)) by done. cbn [mbind outcome_bind].
  rewrite (request_rest _ _ _ _ _ Hp b (le_split 4 sz ++ le_split 4 a) (le_split 4 c ++ le_split 4 d ++ rest) (Audio.COMMAND_HDR_LEN + 16)) by (rewrite <- ?(assoc_L (++)); done). cbn [mbind outcome_bind].
  rewrite (request_rest _ _ _ _ _ Hp c (le_split 4 sz ++ le_split 4 a ++ le_split 4 b) (le_split 4 d ++ rest) (Audio.COMMAND_HDR_LEN + 20)) by (rewrite <- ?(assoc_L (++)); done). cbn [mbind outcome_bind].
  rewrite (request_rest _ _ _ _ _ Hp d (le_split 4 sz ++ le_split 4 a ++ le_split 4 b ++ le_split 4 c) rest (Audio.COMMAND_HDR_LEN + 24)) by (rewrite <- ?(assoc_L (++)); done). cbn [mbind outcome_bind].
  change (Audio.COMMAND_GET_DEVICE_PROP =? Audio.COMMAND_GET_DEVICE_ID) with false. change (Audio.COMMAND_GET_DEVICE_PROP =? Audio.COMMAND_GET_DEVICE_PROP) with true. cbn match.
  unfold Audio.device_prop. rewrite Z.eqb_refl, request_prop by done. cbn [mbind outcome_bind].
  change (Audio.DEV_PROP_CHANNEL_CTRL =? Audio.DEV_PROP_STATE) with false. rewrite Z.eqb_refl. cbn match.
  change (Done ?x ≫= ?f) with (f x) at 1. cbn [Audio.supported_chans Audio.enabled_chans Audio.voice_trigger_chans Audio.history_chans].
  rewrite put_words_front by (cbn; lia). cbn [mbind outcome_bind].
  done.
Qed.

(** ** An end point at work

    The audio service with its rings at [0x10000] and [0x20000], and three requests: the
    number of devices, the third device, for which the ring starts again, and the same as a
    long command. *)
#[local] Instance all_memory : DmaMemory := {| dma_valid := fun _ _ => true; dma_memory_map := fun _ _ n => n |}.

Definition request_bytes (p : sub_packet) (payload : bytes) : bytes :=
  lit "AOP " ++ le_split 4 (40 + zlen payload) ++ replicate 8 0 ++ [2] ++ replicate 15 0 ++ le_split 4 (zlen payload) ++ [2; category p * 16] ++
  le_split 2 (p_type p) ++ le_split 2 (p_seq p) ++ replicate 10 0 ++ le_split 4 (out_len p) ++ payload.

Definition count_request : sub_packet * bytes := (mkSub 8 1 PACKET_TYPE_GET_PROPERTY 7 4, replicate 4 0 ++ le_split 4 0x65).
Definition device_input : bytes := device_request Audio.COMMAND_GET_DEVICE_ID (replicate 28 0) 3 0 [].
Definition device_command : sub_packet * bytes := (mkSub 48 1 PACKET_TYPE_COMMAND 8 4, replicate 4 0 ++ device_input).
Definition long_request : sub_packet * bytes :=
  (mkSub 28 3 PACKET_TYPE_COMMAND 9 0, replicate 4 0 ++ le_split 8 0x2000 ++ le_split 8 0x1000 ++ le_split 4 4 ++ le_split 4 44 ++ []).

Definition sample_memory : Z -> Z :=
  let m := stored (fun _ => 0) 0x1000 device_input in
  let m := stored (stored m 0x10040 (le_split 4 0x3EC0)) 0x10080 (le_split 4 0x100) in
  let m := stored m (0x100C0 + 0x3EC0) (request_bytes (fst count_request) (snd count_request)) in
  let m := stored m (0x100C0 + 0x3F00) (lit "AOP " ++ le_split 4 88) in
  let m := stored m 0x100C0 (request_bytes (fst device_command) (snd device_command)) in
  stored m (0x100C0 + 0x80) (request_bytes (fst long_request) (snd long_request)).

Definition sample_ep (st : AppleAOPEndpointState) (m : Z -> Z) : AppleAOPEndpoint Audio.AppleAOPAudioState :=
  mkEp 2 0x10000 0x20000 0xFFFF (Audio.mkAudio 0 0 0 0) Audio.apple_aop_audio_ep_descr st 0x40 m 5 [].

Definition sample_replies : list bytes :=
  [le_split 4 0 ++ le_split 4 13; le_split 4 0 ++ le_split 4 (Audio.code "lpfw"); le_split 4 0].

Lemma sample_ring base size : 0 <= base -> 3 * 0x40 <= size < 2 ^ 31 -> base + size < 2 ^ 32 -> ring_ok 0x40 base size.
Proof. split; [exists 6; split; [lia|done]|done..]. Qed.

Lemma sample_serving : serving (sample_ep EP_STATE_IDLE sample_memory) sample_memory 0x3EC0 0x100 0.
Proof. split; try done; try (by apply sample_ring). left. by vm_compute. Qed.

Lemma sample_rx_ring : rx_ring 0x40 0x10000 0x4000 sample_memory 0x3EC0 0x100 [count_request; device_command; long_request].
Proof.
  repeat apply rx_more; try apply rx_end; try done; split; try (by vm_compute); split; try (by vm_compute); exists 0; by vm_compute.
Qed.

Lemma sample_talk : conversation Audio.apple_aop_audio_ep_descr (outside (sample_ep EP_STATE_IDLE sample_memory))
  (Audio.mkAudio 0 0 0 0, sample_memory) [count_request; device_command; long_request]
  (Audio.mkAudio 0 0 0 0, stored sample_memory 0x2000 (le_split 4 (Audio.code "lpfw"))) sample_replies.
Proof.
  eapply talk_more; [done| |eapply talk_more; [done| |eapply talk_more; [done| |apply talk_end]]].
  - eapply (answer_property _ _ Audio.apple_aop_audio_get_prop _ _ (fst count_request) (snd count_request) _ AOP_RESULT_OK (le_split 4 13)); done.
  - eapply (answer_command _ _ Audio.apple_aop_audio_handle_command _ _ (fst device_command) (snd device_command) _ AOP_RESULT_OK (le_split 4 (Audio.code "lpfw"))); try done; cbn; lia.
  - eapply (answer_long _ _ Audio.apple_aop_audio_handle_command _ _ (fst long_request) (snd long_request) (replicate 4 0) 0x2000 0x1000 4 44 [] _ AOP_RESULT_OK (le_split 4 (Audio.code "lpfw"))); try done;
      intros x Hx; split; cbn; lia.
Qed.

(** The ring of [aop_serves] is served. *)
Lemma aop_serves_witness : exists m,
  apple_aop_ep_handle_message 3 (sample_ep EP_STATE_IDLE sample_memory) (OP_RX_SIGNAL .<< 48) =
    Done (after (sample_ep EP_STATE_IDLE sample_memory) (Audio.mkAudio 0 0 0 0) m 3) /\
  read_mem m 0x200C0 64 = sent_bytes 0xFFFF 5 (mkSub 8 CAT_RESPONSE PACKET_TYPE_GET_PROPERTY 7 0) (le_split 4 0 ++ le_split 4 13) /\
  holds m 0x10040 0x100 /\ holds m 0x20080 0xC0 /\ (forall x, 0x2000 <= x < 0x2004 -> m x = stored sample_memory 0x2000 (le_split 4 (Audio.code "lpfw")) x).
Proof.
  destruct (aop_serves 3 (sample_ep EP_STATE_IDLE sample_memory) (OP_RX_SIGNAL .<< 48) [count_request; device_command; long_request]
    0x3EC0 0x100 0 (Audio.mkAudio 0 0 0 0) (stored sample_memory 0x2000 (le_split 4 (Audio.code "lpfw"))) sample_replies)
    as (m & E & Ht & Hr & Hw & Ho); [done|apply sample_serving|apply sample_rx_ring|apply sample_talk|..|].
  - repeat constructor; by vm_compute.
  - repeat (apply FOP_cons || apply FOP_nil || apply Forall_cons_2 || apply Forall_nil_2); left; by vm_compute.
  - cbn. lia.
  - exists m. split_and!; [exact E| |exact Hr|exact Hw|intros x Hx; apply Ho; split; cbn; lia]. inversion Ht; subst. done.
Defined.

(** The guest answers the hello of [aop_handshake]. *)
Lemma aop_handshake_witness : exists m,
  messages 0 (sample_ep EP_STATE_AWAITING_HELLO (fun _ => 0)) [OP_ACK_HELLO .<< 48; OP_ACK_REQUEST_REGION .<< 48 .| 0x10000; OP_ACK_REQUEST_REGION .<< 48 .| 0x20000] =
    Done (with_rings (sample_ep EP_STATE_AWAITING_HELLO (fun _ => 0)) 0x10000 0x20000 m) /\
  serving (with_rings (sample_ep EP_STATE_AWAITING_HELLO (fun _ => 0)) 0x10000 0x20000 m) m 0 0 128 /\
  read_mem m 0x20000 8 = le_split 4 0xCFF40 ++ [6; 0; 7; 0].
Proof.
  destruct (aop_handshake 0 (sample_ep EP_STATE_AWAITING_HELLO (fun _ => 0)) 0x10000 0x20000 (OP_ACK_HELLO .<< 48)
    (OP_ACK_REQUEST_REGION .<< 48 .| 0x10000) (OP_ACK_REQUEST_REGION .<< 48 .| 0x20000)) as (m & E & Hs & _ & Ht & _);
    [reflexivity|vm_compute; reflexivity|vm_compute; reflexivity|vm_compute; reflexivity|vm_compute; reflexivity|vm_compute; reflexivity|by apply sample_ring|by apply sample_ring|by left; vm_compute|by vm_compute|vm_compute; reflexivity|vm_compute; reflexivity|vm_compute; reflexivity|].
  exists m. split; [exact E|]. split; [exact Hs|exact Ht].
Defined.

(** *** Faults on this end point *)

(** A property is written past a reply that was asked to be short. *)
Lemma property_overrun : handle_packet (sample_ep EP_STATE_IDLE sample_memory) (mkSub 8 1 PACKET_TYPE_GET_PROPERTY 7 0) (snd count_request) = Oob.
Proof. by vm_compute. Qed.

(** A payload of four bytes has no property: what is behind it is read. *)
Lemma property_short : handle_packet (sample_ep EP_STATE_IDLE sample_memory) (mkSub 4 1 PACKET_TYPE_GET_PROPERTY 7 4) (replicate 4 0) = Oob.
Proof. by vm_compute. Qed.

(** The number of a device is not compared with the number of devices. *)
Lemma device_index : Audio.apple_aop_audio_handle_command (Audio.mkAudio 0 0 0 0) 0
  (Some (device_request Audio.COMMAND_GET_DEVICE_ID (replicate 28 0) 13 0 [])) 44 (Some (replicate 4 0)) 4 = Oob.
Proof. by vm_compute. Qed.

(** A length of output that wraps leaves no place for the result. *)
Lemma output_wraps : handle_packet (sample_ep EP_STATE_IDLE sample_memory) (mkSub 8 1 PACKET_TYPE_GET_PROPERTY 7 0xFFFFFFFC) (snd count_request) = Oob.
Proof. by vm_compute. Qed.

(** The address of a ring above four gigabytes loses its high bits. *)
Lemma region_truncated : rx_off <$> apple_aop_ep_handle_message 0 (sample_ep EP_STATE_AWAITING_RX_ACK (fun _ => 0)) (OP_ACK_REQUEST_REGION .<< 48 .| 0x100010000) =
  Done 0x10000.
Proof. by vm_compute. Qed.

(** A packet is stored over one the guest has not read: its reader has not moved. *)
Lemma unread_overwritten :
  let d := mkDescription unit AOP_EP_TYPE_HID (lit "hid") 0 0 0x100 0x100 None None in
  let s0 := mkEp 0 0x10000 0x20000 7 tt d EP_STATE_IDLE 0x40 (fun _ => 0) 5 [] in
  let '(s1, ok1) := apple_aop_ep_send_report_locked s0 PACKET_TYPE_READY_REPORT [] 0 in
  let '(s2, ok2) := apple_aop_ep_send_report_locked s1 PACKET_TYPE_READY_REPORT [] 0 in
  ok1 = true /\ ok2 = true /\ holds (memory s2) (reader 0x40 0x20000) 0 /\
  read_mem (memory s1) 0x200C0 56 = sent_bytes 7 5 (mkSub 0 CAT_REPORT PACKET_TYPE_READY_REPORT 7 0) [] /\
  read_mem (memory s2) 0x200C0 56 = sent_bytes 8 5 (mkSub 0 CAT_REPORT PACKET_TYPE_READY_REPORT 8 0) [].
Proof. by vm_compute. Qed.
