(* ===== verification/SepSim.v ===== *)
(** * Simulated secure enclave

    Model of [hw/arm/apple-silicon/sep-sim.c]: a co-processor (of [A7iop]) that answers the
    messages of the host at its end points, with buffers in guest memory for those that need
    them.  The hash, the coding of an empty anti-replay token and the random words come from
    libraries and are parameters; logging is left out, with the values it prints. *)

From S2P Require Import Prelude Dt BootTree CString HostMem Mailbox A7iop Sio.

(** What the libraries give. *)
Class SepLibs := {
  sha256 : bytes -> bytes;
  art_header : option bytes;
  guest_random : nat -> Z;
}.

Definition EP_CONTROL : Z := 0.
Definition EP_LOGGER : Z := 1.
Definition EP_ART_STORAGE : Z := 2.
Definition EP_ART_REQUESTS : Z := 3.
Definition EP_DEBUG : Z := 5.
Definition EP_SECURE_CREDENTIALS : Z := 10.
Definition EP_UNIT_TESTING : Z := 15.
Definition EP_XART_SLAVE : Z := 16.
Definition EP_HILO : Z := 17.
Definition EP_KEYSTORE : Z := 18.
Definition EP_XART_MASTER : Z := 19.
Definition EP_DISCOVERY : Z := 253.
Definition EP_L4INFO : Z := 254.
Definition EP_BOOTSTRAP : Z := 255.

Definition CONTROL_OP_NOP : Z := 0.
Definition CONTROL_OP_ACK : Z := 1.
Definition CONTROL_OP_SET_OOL_IN_ADDR : Z := 2.
Definition CONTROL_OP_SET_OOL_OUT_ADDR : Z := 3.
Definition CONTROL_OP_SET_OOL_IN_SIZE : Z := 4.
Definition CONTROL_OP_SET_OOL_OUT_SIZE : Z := 5.
Definition CONTROL_OP_NOTIFY_ALIVE : Z := 13.
Definition CONTROL_OP_GET_SECURITY_MODE : Z := 20.
Definition CONTROL_OP_SELF_TEST : Z := 24.
Definition CONTROL_OP_ERASE_INSTALL : Z := 37.
Definition ART_STORAGE_OP_INCOMING : Z := 20.
Definition XART_OP_ACK : Z := 0.
Definition DISCOVERY_OP_EP_ADVERT : Z := 0.
Definition DISCOVERY_OP_OOL_ADVERT : Z := 1.
Definition BOOTSTRAP_OP_PING : Z := 1.
Definition BOOTSTRAP_OP_GET_STATUS : Z := 2.
Definition BOOTSTRAP_OP_GENERATE_NONCE : Z := 3.
Definition BOOTSTRAP_OP_GET_NONCE_WORD : Z := 4.
Definition BOOTSTRAP_OP_BOOT_TZ0 : Z := 5.
Definition BOOTSTRAP_OP_BOOT_IMG4 : Z := 6.
Definition BOOTSTRAP_OP_OPCODE_16 : Z := 16.
Definition BOOTSTRAP_OP_PING_ACK : Z := 101.
Definition BOOTSTRAP_OP_STATUS_REPLY : Z := 102.
Definition BOOTSTRAP_OP_NONCE_GENERATED : Z := 103.
Definition BOOTSTRAP_OP_NONCE_WORD_REPLY : Z := 104.
Definition BOOTSTRAP_OP_TZ0_ACCEPTED : Z := 105.
Definition BOOTSTRAP_OP_IMG4_ACCEPTED : Z := 106.
Definition BOOTSTRAP_OP_OPCODE_16_RESPONSE : Z := 116.
Definition BOOTSTRAP_OP_ANNOUNCE_STATUS : Z := 210.

Definition SEP_STATUS_BOOTSTRAP : Z := 1.
Definition SEP_STATUS_ACTIVE : Z := 2.
Definition SEP_ENDPOINT_MAX : Z := 0x20.
Definition KEYSTORE_MSG_TAG_REPLY : Z := 0x80.
Definition KEYSTORE_MSG_TAG_CODE_MASK : Z := 0x7F.
Definition KEYSTORE_IPC_HEADER_SIZE : Z := 0x54.
Definition KEYSTORE_IPC_VERSION_1 : Z := 1.

(** ** Messages *)

(** The bytes [off] to [off + n] of a message as a number. *)
Definition field (msg : AppleA7IOPMessage) (off n : nat) : Z := le_combine (take n (drop off msg)).

Record SEPMessage := mkSEPMessage {
  ep : Z;
  tag : Z;
  op : Z;
  param : Z;
  data : Z;
}.

Definition sep_msg (msg : AppleA7IOPMessage) : SEPMessage :=
  mkSEPMessage (field msg 0 1) (field msg 1 1) (field msg 2 1) (field msg 3 1) (field msg 4 4).

(** The other layouts of the same bytes. *)
Definition l4_size (msg : AppleA7IOPMessage) : Z := field msg 2 2.
Definition l4_address (msg : AppleA7IOPMessage) : Z := field msg 4 4.
Definition ks_id (msg : AppleA7IOPMessage) : Z := field msg 2 1.
Definition ks_size (msg : AppleA7IOPMessage) : Z := field msg 6 2.

(** The bytes of a message that is sent. *)
Definition message_bytes (e t o p d : Z) : AppleA7IOPMessage := [u8 e; u8 t; u8 o; u8 p] ++ le_split 4 d ++ replicate 8 0.

(** A constant of four characters. *)
Definition four (s : string) : Z := le_combine (rev (lit s)).

(** ** State *)

Record AppleSEPSimOOLInfo := mkOOLInfo {
  in_min_pages : Z;
  in_max_pages : Z;
  out_min_pages : Z;
  out_max_pages : Z;
}.

Record AppleSEPSimOOLState := mkOOLState {
  in_addr : Z;
  in_size : Z;
  out_addr : Z;
  out_size : Z;
}.
#[global] Instance eta_AppleSEPSimOOLState : Eta AppleSEPSimOOLState := fun r => mkOOLState (in_addr r) (in_size r) (out_addr r) (out_size r).

(** [memory] is guest memory, [drawn] the number of random words that were taken. *)
Record AppleSEPSimState := mkSEPSim {
  parent_obj : AppleA7IOP;
  rsep : bool;
  status : Z;
  ool_info : list AppleSEPSimOOLInfo;
  ool_state : list AppleSEPSimOOLState;
  memory : Z -> Z;
  drawn : nat;
}.
#[global] Instance eta_AppleSEPSimState : Eta AppleSEPSimState := fun r =>
  mkSEPSim (parent_obj r) (rsep r) (status r) (ool_info r) (ool_state r) (memory r) (drawn r).

#[global] Instance sep_a7iop : HasA7IOP AppleSEPSimState := {|
  a7iop := parent_obj;
  set_a7iop := fun s a => s <| parent_obj := a |>;
  get_set_a7iop := fun s a => eq_refl;
|}.

Section SepSim.
Context `{DmaMemory} `{SepLibs}.
Implicit Types s : AppleSEPSimState.

(** An access to guest memory takes what is there: a byte that is not reads as zero and is
    not written. *)
Definition dma_read (m : Z -> Z) (addr n : Z) : bytes := (fun a => if dma_valid a 1 then m a else 0) <$> seqZ addr n.

Definition dma_write (m : Z -> Z) (addr : Z) (bs : bytes) : Z -> Z := fun a =>
  if dma_valid a 1 then match bs !! Z.to_nat (a - addr) with Some b => if addr <=? a then b else m a | None => m a end else m a.

(** ** Buffers of the end points *)

Definition upd_ool s (e : Z) (f : AppleSEPSimOOLState -> AppleSEPSimOOLState) : outcome AppleSEPSimState :=
  c_assert (e <? SEP_ENDPOINT_MAX);;
  l ← aupd (ool_state s) e f;
  mret (s <| ool_state := l |>).

Definition apple_sep_sim_set_ool_in_size s (e size : Z) := upd_ool s e (fun o => o <| in_size := size |>).
Definition apple_sep_sim_set_ool_in_addr s (e addr : Z) := upd_ool s e (fun o => o <| in_addr := addr |>).
Definition apple_sep_sim_set_ool_out_size s (e size : Z) := upd_ool s e (fun o => o <| out_size := size |>).
Definition apple_sep_sim_set_ool_out_addr s (e addr : Z) := upd_ool s e (fun o => o <| out_addr := addr |>).

(** ** Replies *)

Definition apple_sep_sim_send_message s (e t o p d : Z) : outcome AppleSEPSimState := apple_a7iop_send_ap s (message_bytes e t o p d).

Definition apple_sep_sim_message_reply s (msg : SEPMessage) (o p d : Z) := apple_sep_sim_send_message s (ep msg) (tag msg) o p d.

Definition apple_sep_sim_control_send_ack s (msg : SEPMessage) (p d : Z) := apple_sep_sim_message_reply s msg CONTROL_OP_ACK p d.

Definition apple_sep_sim_xart_send_ack s (msg : SEPMessage) (p d : Z) := apple_sep_sim_message_reply s msg XART_OP_ACK p d.

(** ** Control *)

(** The token is in a buffer of 512 bytes on the stack. *)
Definition erase_install s (msg : SEPMessage) : outcome AppleSEPSimState :=
  s ← apple_sep_sim_control_send_ack s msg 0 0;
  match art_header with
  | None => Abort
  | Some der =>
      c_assert (zlen der <=? 512);;
      o ← aget (ool_state s) EP_ART_STORAGE;
      let s := s <| memory ::= fun m => dma_write m (out_addr o) der |> in
      apple_sep_sim_send_message s EP_ART_STORAGE 0 ART_STORAGE_OP_INCOMING 0 0
  end.

Definition apple_sep_sim_handle_control_msg s (msg : SEPMessage) : outcome AppleSEPSimState :=
  let o := op msg in
  if o =? CONTROL_OP_NOP then apple_sep_sim_control_send_ack s msg 0 0
  else if o =? CONTROL_OP_SET_OOL_IN_ADDR then
    s ← apple_sep_sim_set_ool_in_addr s (param msg) (data msg .<< 12);
    apple_sep_sim_control_send_ack s msg 0 0
  else if o =? CONTROL_OP_SET_OOL_OUT_ADDR then
    s ← apple_sep_sim_set_ool_out_addr s (param msg) (data msg .<< 12);
    apple_sep_sim_control_send_ack s msg 0 0
  else if o =? CONTROL_OP_SET_OOL_IN_SIZE then
    s ← apple_sep_sim_set_ool_in_size s (param msg) (data msg);
    apple_sep_sim_control_send_ack s msg 0 0
  else if o =? CONTROL_OP_SET_OOL_OUT_SIZE then
    s ← apple_sep_sim_set_ool_out_size s (param msg) (data msg);
    apple_sep_sim_control_send_ack s msg 0 0
  else if o =? CONTROL_OP_GET_SECURITY_MODE then apple_sep_sim_control_send_ack s msg 0 3
  else if o =? CONTROL_OP_SELF_TEST then apple_sep_sim_control_send_ack s msg 0 0
  else if o =? CONTROL_OP_ERASE_INSTALL then erase_install s msg
  else mret s.

(** Nothing is done with a token the host has stored. *)
Definition apple_sep_sim_handle_arts_msg s (msg : SEPMessage) : outcome AppleSEPSimState := mret s.

(** Every operation is acknowledged, known or not. *)
Definition apple_sep_sim_handle_xart_msg s (msg : SEPMessage) : outcome AppleSEPSimState := apple_sep_sim_xart_send_ack s msg 0 0.

Definition apple_sep_sim_handle_l4info s (msg : AppleA7IOPMessage) : outcome AppleSEPSimState :=
  let addr := l4_address msg .<< 12 in
  let size := l4_size msg .<< 12 in
  l ← aset (ool_state s) EP_CONTROL (mkOOLState addr size addr size);
  mret (s <| ool_state := l |>).

(** ** Boot *)

Definition apple_sep_sim_eps : list Z :=
  [EP_CONTROL; EP_LOGGER; EP_ART_STORAGE; EP_ART_REQUESTS; EP_SECURE_CREDENTIALS; EP_XART_SLAVE; EP_KEYSTORE; EP_XART_MASTER].
Definition apple_sep_sim_endpoint_names : list Z :=
  four <$> ["cntl"; "log "; "arts"; "artr"; "scrd"; "xars"; "sks "; "xarm"]%string.

Definition info_bytes (i : AppleSEPSimOOLInfo) : bytes := [u8 (in_min_pages i); u8 (in_max_pages i); u8 (out_min_pages i); u8 (out_max_pages i)].

(** The two messages about one end point. *)
Definition advertise_ep s (e name : Z) : outcome AppleSEPSimState :=
  s ← apple_a7iop_send_ap s (message_bytes EP_DISCOVERY 0 DISCOVERY_OP_EP_ADVERT e name);
  i ← aget (ool_info s) e;
  apple_a7iop_send_ap s ([EP_DISCOVERY; 0; DISCOVERY_OP_OOL_ADVERT; u8 e] ++ info_bytes i ++ replicate 8 0).

Definition apple_sep_sim_advertise_eps s : outcome AppleSEPSimState :=
  foldl (fun o '(e, name) => s ← o; advertise_ep s e name) (mret s) (zip apple_sep_sim_eps apple_sep_sim_endpoint_names).

(** A random word. *)
Definition draw s : Z * AppleSEPSimState := (u32 (guest_random (drawn s)), s <| drawn ::= S |>).

Definition apple_sep_sim_handle_bootstrap_msg s (msg : SEPMessage) : outcome AppleSEPSimState :=
  let o := op msg in
  let reply s o p d := apple_sep_sim_send_message s EP_BOOTSTRAP (tag msg) o p d in
  if o =? BOOTSTRAP_OP_PING then reply s BOOTSTRAP_OP_PING_ACK 0 0
  else if o =? BOOTSTRAP_OP_GET_STATUS then reply s BOOTSTRAP_OP_STATUS_REPLY 0 (status s)
  else if o =? BOOTSTRAP_OP_GENERATE_NONCE then reply s BOOTSTRAP_OP_NONCE_GENERATED 0 0xa0
  else if o =? BOOTSTRAP_OP_GET_NONCE_WORD then
    let '(randval, s) := draw s in reply s BOOTSTRAP_OP_NONCE_WORD_REPLY (param msg) randval
  else if o =? BOOTSTRAP_OP_BOOT_TZ0 then
    let s := s <| rsep := param msg =? 1 |> <| status := SEP_STATUS_ACTIVE |> in
    reply s BOOTSTRAP_OP_TZ0_ACCEPTED 0 0
  else if o =? BOOTSTRAP_OP_BOOT_IMG4 then
    c_assert (Bool.eqb (rsep s) (param msg =? 1));;
    s ← reply s BOOTSTRAP_OP_IMG4_ACCEPTED 0 0;
    s ← apple_sep_sim_send_message s EP_CONTROL 0 CONTROL_OP_NOTIFY_ALIVE 0 0;
    apple_sep_sim_advertise_eps s
  else if o =? BOOTSTRAP_OP_OPCODE_16 then
    let '(randval, s) := draw s in reply s BOOTSTRAP_OP_OPCODE_16_RESPONSE 0 randval
  else mret s.

(** ** Key store *)

(** The hash of a message: its header from the version on, and what follows the header. *)
Definition apple_sep_sim_gen_sks_hash (buf : bytes) : outcome bytes :=
  version ← load_le buf 0x14;
  part ← slice buf 0x14 (if version =? 2 then 0x40 else 0x38);
  rest ← slice buf KEYSTORE_IPC_HEADER_SIZE (zlen buf - KEYSTORE_IPC_HEADER_SIZE);
  let hash := sha256 (part ++ rest) in
  c_assert (zlen hash =? 32);;
  mret hash.

Definition apple_sep_sim_keystore_send_ipc_resp s (msg : AppleA7IOPMessage) (resp_buf : bytes) : outcome AppleSEPSimState :=
  resp_hash ← apple_sep_sim_gen_sks_hash resp_buf;
  resp_buf ← blit resp_buf 4 (take 16 resp_hash);
  o ← aget (ool_state s) EP_KEYSTORE;
  let s := s <| memory ::= fun m => dma_write m (out_addr o) resp_buf |> in
  apple_sep_sim_send_message s (field msg 0 1) (field msg 1 1 .| KEYSTORE_MSG_TAG_REPLY) (ks_id msg) 0 (u32 (zlen resp_buf .<< 16)).

(** The header of a response, with what it takes from the request. *)
Definition resp_header (msg_buf : bytes) : outcome bytes :=
  time_msecs ← slice msg_buf 0x18 8;
  id ← slice msg_buf 0x24 8;
  proc_uid ← slice msg_buf 0x2C 8;
  audit_session_id ← slice msg_buf 0x34 4;
  ipc_digest ← slice msg_buf 0x38 0x14;
  mret (le_split 4 (KEYSTORE_IPC_HEADER_SIZE - 4) ++ replicate 16 0 ++ le_split 4 KEYSTORE_IPC_VERSION_1 ++ time_msecs ++ replicate 4 0 ++
        id ++ proc_uid ++ audit_session_id ++ ipc_digest ++ replicate 8 0).

(** What follows the header in the response to a code; [None] for the codes without one. *)
Definition resp_body (code : Z) (msg_buf : bytes) : option (outcome bytes) :=
  if code =? 0x01 then Some (mret (le_split 4 1 ++ le_split 4 (four "BAG1")))
  else if code =? 0x02 then Some (mret (le_split 4 0 ++ le_split 4 0x10 ++ replicate 16 0xAF))
  else if code =? 0x03 then Some (mret (le_split 4 0 ++ le_split 4 (four "BAG1")))
  else if code =? 0x04 then
    Some (lock_state ← load_le msg_buf 0x60; mret (le_split 4 0 ++ le_split 4 (lock_state .| BIT 22) ++ le_split 8 3))
  else if code =? 0x19 then Some (mret (le_split 4 0 ++ le_split 4 8 ++ lit "applehax"))
  else if (code =? 0x05) || (code =? 0x0A) || (code =? 0x0C) || (code =? 0x0D) || (code =? 0x1B) then Some (mret (le_split 4 0))
  else None.

Definition apple_sep_sim_handle_keystore_msg s (msg : AppleA7IOPMessage) : outcome AppleSEPSimState :=
  let code := field msg 1 1 .& KEYSTORE_MSG_TAG_CODE_MASK in
  o ← aget (ool_state s) EP_KEYSTORE;
  let msg_buf := dma_read (memory s) (in_addr o) (ks_size msg) in
  let reply s d := apple_sep_sim_send_message s (field msg 0 1) (field msg 1 1 .| KEYSTORE_MSG_TAG_REPLY) (ks_id msg) 0 d in
  match resp_body code msg_buf with
  | Some body =>
      hdr ← resp_header msg_buf;
      body ← body;
      apple_sep_sim_keystore_send_ipc_resp s msg (hdr ++ body)
  | None =>
      if code =? 0x08 then reply s 0
      else reply (s <| memory ::= fun m => dma_write m (out_addr o) msg_buf |>) (ks_size msg .<< 16)
  end.

(** ** The handler of the mailbox *)

Definition handle_message s (msg : AppleA7IOPMessage) : outcome AppleSEPSimState :=
  let e := field msg 0 1 in
  if e =? EP_CONTROL then apple_sep_sim_handle_control_msg s (sep_msg msg)
  else if e =? EP_ART_STORAGE then apple_sep_sim_handle_arts_msg s (sep_msg msg)
  else if e =? EP_XART_SLAVE then apple_sep_sim_handle_xart_msg s (sep_msg msg)
  else if e =? EP_KEYSTORE then apple_sep_sim_handle_keystore_msg s msg
  else if e =? EP_XART_MASTER then apple_sep_sim_handle_xart_msg s (sep_msg msg)
  else if e =? EP_L4INFO then apple_sep_sim_handle_l4info s msg
  else if e =? EP_BOOTSTRAP then apple_sep_sim_handle_bootstrap_msg s (sep_msg msg)
  else mret s.

(** A message that is not there is dereferenced. *)
Fixpoint apple_sep_sim_handle_messages (fuel : nat) s : outcome AppleSEPSimState :=
  if apple_a7iop_mailbox_is_empty (mboxes (a7iop s)) IOP then mret s
  else
    match fuel with
    | O => NoFuel
    | S fuel =>
        r ← apple_a7iop_recv_iop s;
        match r with
        | (None, _) => Oob
        | (Some msg, s) => s ← handle_message s msg; apple_sep_sim_handle_messages fuel s
        end
    end.

(** ** Creation and reset *)

(** The size of the registers is in the node; a child of its child is removed. *)
Definition apple_sep_sim_from_node (node : AppleDTNode) (m : Z -> Z) : outcome (AppleSEPSimState * AppleDTNode) :=
  match apple_dt_get_prop node (str "reg") with
  | None => Abort
  | Some reg =>
      _ ← slice (p_data reg) 8 8;
      let boxes := mkMailboxes (apple_a7iop_mailbox_new "SEP-iop" (Some false)) (apple_a7iop_mailbox_new "SEP-ap" None) in
      node ← with_node node "iop-sep-nub" (fun child => r ← apple_dt_del_node_named child (str "Lynx"); mret (snd r));
      mret (mkSEPSim (mkA7IOP boxes 0 0) false 0 (replicate 32 (mkOOLInfo 0 0 0 0)) (replicate 32 (mkOOLState 0 0 0 0)) m 0, node)
  end.

(** Pages an end point is given: at least and at most as many of each kind. *)
Definition reset_info (e : Z) : AppleSEPSimOOLInfo :=
  if e =? EP_LOGGER then mkOOLInfo 0 0 1 1
  else if (e =? EP_ART_STORAGE) || (e =? EP_ART_REQUESTS) || (e =? EP_DEBUG) || (e =? EP_UNIT_TESTING) then mkOOLInfo 1 1 1 1
  else if e =? EP_HILO then mkOOLInfo 0 0 0 0
  else mkOOLInfo 2 2 2 2.

Definition set_infos (l : list AppleSEPSimOOLInfo) : outcome (list AppleSEPSimOOLInfo) :=
  foldl (fun o e => l ← o; aset l e (reset_info e)) (mret l) apple_sep_sim_eps.

Definition open_box (b : AppleA7IOPMailbox) : AppleA7IOPMailbox := b <| iop_dir_en := true |> <| ap_dir_en := true |>.

Definition apple_sep_sim_reset_hold s : outcome AppleSEPSimState :=
  let s := apple_a7iop_reset s in
  let s := s <| parent_obj ::= fun a => a <| mboxes ::= fun p => upd AP open_box (upd IOP open_box p) |> |> in
  l ← set_infos (ool_info s);
  let s := s <| ool_info := l |> <| status := SEP_STATUS_BOOTSTRAP |> in
  apple_a7iop_send_ap s (message_bytes EP_BOOTSTRAP 0 BOOTSTRAP_OP_ANNOUNCE_STATUS 0 (status s)).
End SepSim.
