(* ===== verification/SepSimSpec.v ===== *)
(** * What the simulated secure enclave answers

    The messages of the host, taken from its mailbox one after the other, are each answered
    by a reaction: the messages that go back and the change of the state ([sep_answers]).
    After a reset the enclave boots and advertises its end points ([sep_boots]), and the
    responses of the key store carry the hash the host checks ([keystore_reply]). *)

From S2P Require Import Prelude CString HostMem Mailbox A7iop Sio SepSim.

(** ** Mailboxes *)

Definition iop_in (a : AppleA7IOP) : list AppleA7IOPMessage := inbox (box (mboxes a) IOP).
Definition ap_in (a : AppleA7IOP) : list AppleA7IOPMessage := inbox (box (mboxes a) AP).

(** The mailboxes are consistent, both directions are open and no read from an empty mailbox
    is pending. *)
Record link (a : AppleA7IOP) : Prop := {
  l_inv : mailboxes_inv (mboxes a);
  l_in : iop_dir_en (box (mboxes a) AP) = true;
  l_out : ap_dir_en (box (mboxes a) IOP) = true;
  l_under : underflow (box (mboxes a) IOP) = false }.

Lemma send_dirs p s msg p' : mailboxes_inv p -> length msg = 16%nat -> apple_a7iop_mailbox_send p s msg = Done p' ->
  iop_dir_en (box p' s) = iop_dir_en (box p s) /\ ap_dir_en (box p' s) = ap_dir_en (box p s).
Proof.
  intros Hp Hm. unfold apple_a7iop_mailbox_send. cbv zeta.
  destruct (inv_update p s (fun b => b <| inbox ::= fun l => l ++ [msg] |> <| count ::= fun n => u32 (n + 1) |>) Hp) as (p1 & -> & _ & Hc & _);
    [done|by apply wf_send|].
  run. intros E. injection E as <-. rewrite box_upd_same. split; [exact (f_equal iop_dir_en Hc)|exact (f_equal ap_dir_en Hc)].
Qed.

Lemma recv_dirs p s msg rest m p' : mailboxes_inv p -> underflow (box p s) = false -> inbox (box p s) = msg :: rest ->
  apple_a7iop_mailbox_recv p s = Done (m, p') -> ap_dir_en (box p' s) = ap_dir_en (box p s).
Proof.
  intros Hp Hu Hi. pose proof (inv_wf p Hp s) as Hwf. unfold apple_a7iop_mailbox_recv. cbv zeta. rewrite Hu, Hi.
  pose proof (wf_inbox _ Hwf) as Hl. rewrite Hi in Hl. inversion_clear Hl as [|? ? Hm _]. rewrite (blit_count msg _ Hm). cbn [mbind outcome_bind].
  destruct (inv_update p s (fun b => b <| inbox := rest |> <| count ::= fun n => u32 (n - 1) |>) Hp) as (p1 & -> & _ & Hc & _);
    [done|by apply (wf_recv _ msg)|].
  cbn [mbind outcome_bind]. intros E. injection E as _ <-. exact (f_equal ap_dir_en Hc).
Qed.

Section SepSpec.
Context `{DmaMemory} `{SepLibs}.

(** The state of the enclave besides the co-processor. *)
Record core := mkCore {
  c_rsep : bool;
  c_status : Z;
  c_info : list AppleSEPSimOOLInfo;
  c_ool : list AppleSEPSimOOLState;
  c_mem : Z -> Z;
  c_drawn : nat;
}.
#[local] Instance eta_core : Eta core := fun c => mkCore (c_rsep c) (c_status c) (c_info c) (c_ool c) (c_mem c) (c_drawn c).

Definition join (a : AppleA7IOP) (c : core) : AppleSEPSimState := mkSEPSim a (c_rsep c) (c_status c) (c_info c) (c_ool c) (c_mem c) (c_drawn c).

Definition core_of (s : AppleSEPSimState) : core := mkCore (rsep s) (status s) (ool_info s) (ool_state s) (memory s) (drawn s).

(** [o] ends in the state [c] after the messages [msgs] were sent. *)
Definition posts (a : AppleA7IOP) (o : outcome AppleSEPSimState) (c : core) (msgs : list AppleA7IOPMessage) : Prop :=
  exists a', o = Done (join a' c) /\ link a' /\ iop_in a' = iop_in a /\ ap_in a' = ap_in a ++ msgs.

Lemma posts_none a c : link a -> posts a (Done (join a c)) c [].
Proof. intros Hl. exists a. by rewrite app_nil_r. Qed.

Lemma posts_send a c msg : link a -> length msg = 16%nat -> posts a (apple_a7iop_send_ap (join a c) msg) c [msg].
Proof.
  intros [Hi Hin Hout Hu] Hm. unfold apple_a7iop_send_ap, on_boxes, apple_a7iop_mailbox_send_ap. cbn [a7iop sep_a7iop parent_obj join]. rewrite Hout.
  destruct (send_ok (mboxes a) AP msg Hi Hm) as (p & E & Hp & Hb & _ & _ & Hc). rewrite E. run.
  exists (a <| mboxes := p |>). specialize (Hc IOP ltac:(done)). split; [done|]. split; [|split; [exact (f_equal inbox Hc)|exact Hb]].
  split; [exact Hp| |rewrite <- Hout; exact (f_equal ap_dir_en Hc)|rewrite <- Hu; exact (f_equal underflow Hc)].
  etrans; [exact (proj1 (send_dirs _ _ _ _ Hi Hm E))|exact Hin].
Qed.

(** One thing after the other. *)
Lemma posts_bind a o c msgs f c' msgs' : posts a o c msgs -> (forall a', link a' -> posts a' (f (join a' c)) c' msgs') ->
  posts a (s ← o; f s) c' (msgs ++ msgs').
Proof.
  intros (a1 & -> & Hl & Hi & Ho) Hf. run. destruct (Hf a1 Hl) as (a2 & -> & Hl2 & Hi2 & Ho2). exists a2.
  by rewrite Hi2, Hi, Ho2, Ho, (assoc_L (++)).
Qed.

Lemma message_len e t o p d : length (message_bytes e t o p d) = 16%nat.
Proof. done. Qed.

Lemma posts_message a c e t o p d : link a -> posts a (apple_sep_sim_send_message (join a c) e t o p d) c [message_bytes e t o p d].
Proof. intros Hl. by apply posts_send. Qed.

(** ** Reactions *)

(** The buffer of an end point, with one of its four numbers replaced. *)
Definition set_ool (o v : Z) (b : AppleSEPSimOOLState) : AppleSEPSimOOLState :=
  if o =? 2 then b <| in_addr := v .<< 12 |> else if o =? 3 then b <| out_addr := v .<< 12 |>
  else if o =? 4 then b <| in_size := v |> else b <| out_size := v |>.

(** The names and the pages of the end points, as the host sees them. *)
Definition sep_eps : list (Z * string) :=
  [(0, "cntl"); (1, "log "); (2, "arts"); (3, "artr"); (10, "scrd"); (16, "xars"); (18, "sks "); (19, "xarm")]%string.

Definition advert (info : list AppleSEPSimOOLInfo) : Z * string -> list AppleA7IOPMessage := fun '(e, name) =>
  [[253; 0; 0; e] ++ rev (lit name) ++ replicate 8 0; [253; 0; 1; e] ++ match info !! Z.to_nat e with Some i => info_bytes i | None => [] end ++ replicate 8 0].

Definition adverts (info : list AppleSEPSimOOLInfo) : list AppleA7IOPMessage := flat_map (advert info) sep_eps.

(** The response to a request of the key store: header, hash and body. *)
Definition response (req body : bytes) : bytes :=
  let hdr := le_split 4 1 ++ take 8 (drop 0x18 req) ++ replicate 4 0 ++ take 0x28 (drop 0x24 req) in
  le_split 4 0x50 ++ take 16 (sha256 (hdr ++ body)) ++ hdr ++ replicate 8 0 ++ body.

(** The bodies by code; the lock state of a request is the word at [0x60]. *)
Definition body (code : Z) (req : bytes) : option bytes :=
  match code with
  | 1 => Some (le_split 4 1 ++ rev (lit "BAG1"))
  | 2 => Some (le_split 4 0 ++ le_split 4 16 ++ replicate 16 0xAF)
  | 3 => Some (le_split 4 0 ++ rev (lit "BAG1"))
  | 4 => Some (le_split 4 0 ++ le_split 4 (le_combine (take 4 (drop 0x60 req)) .| BIT 22) ++ le_split 8 3)
  | 5 | 10 | 12 | 13 | 27 => Some (le_split 4 0)
  | 25 => Some (le_split 4 0 ++ le_split 4 8 ++ lit "applehax")
  | _ => None
  end.

(** What a message makes of the state, and the messages that go back. *)
Section Reaction.
Variables (c : core) (msg : AppleA7IOPMessage).
Let e := field msg 0 1.
Let t := field msg 1 1.
Let o := field msg 2 1.
Let p := field msg 3 1.
Let d := field msg 4 4.
Let code := t mod 128.
Let ack := message_bytes 0 t 1 0 0.
Let boot := message_bytes 255 t.
Let key := message_bytes 18 (t .| 0x80) o 0.
Let size := field msg 6 2.
Let req (b : AppleSEPSimOOLState) := dma_read (c_mem c) (in_addr b) size.
Let rand := u32 (guest_random (c_drawn c)).

Inductive reaction : core -> list AppleA7IOPMessage -> Prop :=
  | r_control : e = 0 -> o = 0 \/ o = 24 -> reaction c [ack]
  | r_security_mode : e = 0 -> o = 20 -> reaction c [message_bytes 0 t 1 0 3]
  | r_ool b : e = 0 -> 2 <= o <= 5 -> 0 <= p < 32 -> c_ool c !! Z.to_nat p = Some b ->
      reaction (c <| c_ool := <[Z.to_nat p := set_ool o d b]> (c_ool c) |>) [ack]
  | r_erase der b : e = 0 -> o = 37 -> art_header = Some der -> zlen der <= 512 -> c_ool c !! 2%nat = Some b ->
      reaction (c <| c_mem ::= fun m => dma_write m (out_addr b) der |>) [ack; message_bytes 2 0 20 0 0]
  | r_xart : e = 16 \/ e = 19 -> reaction c [message_bytes e t 0 0 0]
  | r_l4info b : e = 254 -> c_ool c !! 0%nat = Some b ->
      reaction (c <| c_ool := <[0%nat := mkOOLState (d .<< 12) (field msg 2 2 .<< 12) (d .<< 12) (field msg 2 2 .<< 12)]> (c_ool c) |>) []
  | r_ping : e = 255 -> o = 1 -> reaction c [boot 101 0 0]
  | r_status : e = 255 -> o = 2 -> reaction c [boot 102 0 (c_status c)]
  | r_nonce : e = 255 -> o = 3 -> reaction c [boot 103 0 160]
  | r_nonce_word : e = 255 -> o = 4 -> reaction (c <| c_drawn ::= S |>) [boot 104 p rand]
  | r_random : e = 255 -> o = 16 -> reaction (c <| c_drawn ::= S |>) [boot 116 0 rand]
  | r_tz0 : e = 255 -> o = 5 -> reaction (c <| c_rsep := p =? 1 |> <| c_status := 2 |>) [boot 105 0 0]
  | r_img4 : e = 255 -> o = 6 -> c_rsep c = (p =? 1) -> length (c_info c) = 32%nat ->
      reaction c (boot 106 0 0 :: message_bytes 0 0 13 0 0 :: adverts (c_info c))
  | r_key b bd : e = 18 -> c_ool c !! 18%nat = Some b -> body code (req b) = Some bd -> 0x4C <= size -> (code = 4 -> 0x64 <= size) ->
      reaction (c <| c_mem ::= fun m => dma_write m (out_addr b) (response (req b) bd) |>) [key ((0x54 + zlen bd) .<< 16)]
  | r_key_wrap b : e = 18 -> c_ool c !! 18%nat = Some b -> code = 8 -> reaction c [key 0]
  | r_key_echo b : e = 18 -> c_ool c !! 18%nat = Some b -> code <> 8 -> body code (req b) = None ->
      reaction (c <| c_mem ::= fun m => dma_write m (out_addr b) (req b) |>) [key (size .<< 16)]
  | r_silent : (e = 0 -> ~ (o = 0 \/ 2 <= o <= 5 \/ o = 20 \/ o = 24 \/ o = 37)) -> (e = 255 -> ~ (1 <= o <= 6 \/ o = 16)) ->
      ~ (e = 16 \/ e = 18 \/ e = 19 \/ e = 254) -> reaction c [].
End Reaction.

Inductive reactions : core -> list AppleA7IOPMessage -> core -> list AppleA7IOPMessage -> Prop :=
  | rs_end c : reactions c [] c []
  | rs_more c msg c1 l msgs c2 ls : reaction c msg c1 l -> reactions c1 msgs c2 ls -> reactions c (msg :: msgs) c2 (l ++ ls).

Lemma aget_at {A} (l : list A) i x : 0 <= i -> l !! Z.to_nat i = Some x -> aget l i = Done x.
Proof. intros Hi Hx. by apply aget_Done. Qed.

Lemma aset_at {A} (l : list A) i x y : 0 <= i -> l !! Z.to_nat i = Some y -> aset l i x = Done (<[Z.to_nat i := x]> l).
Proof. intros Hi Hx. pose proof (lookup_lt_Some _ _ _ Hx). apply aset_in_range. unfold zlen. lia. Qed.

Lemma upd_ool_run a c i f b : 0 <= i < 32 -> c_ool c !! Z.to_nat i = Some b ->
  upd_ool (join a c) i f = Done (join a (c <| c_ool := <[Z.to_nat i := f b]> (c_ool c) |>)).
Proof.
  intros Hi Hb. unfold upd_ool. rewrite (proj2 (Z.ltb_lt i SEP_ENDPOINT_MAX)) by (unfold SEP_ENDPOINT_MAX; lia). cbn [c_assert mbind outcome_bind].
  unfold aupd. cbn [ool_state join]. rewrite (aget_at _ _ _ (proj1 Hi) Hb). cbn [mbind outcome_bind]. by rewrite (aset_at _ _ _ _ (proj1 Hi) Hb).
Qed.

(** ** End points *)

Lemma posts_adverts c l : Forall (fun '(e, name) => 0 <= e < 32 /\ le_split 4 (four name) = rev (lit name)) l -> length (c_info c) = 32%nat ->
  forall a o msgs, posts a o c msgs ->
  posts a (foldl (fun o '(e, name) => s ← o; advertise_ep s e name) o ((fun '(e, name) => (e, four name)) <$> l)) c (msgs ++ flat_map (advert (c_info c)) l).
Proof.
  intros Hl Hi. induction Hl as [|[e name] l [He Hn] Hl IH]; intros a o msgs Ho; [by rewrite app_nil_r|].
  cbn [fmap list_fmap foldl flat_map]. rewrite (assoc_L (++)). apply IH. apply (posts_bind a o c msgs); [done|]. intros a1 Hl1.
  destruct (lookup_lt_is_Some_2 (c_info c) (Z.to_nat e)) as [i Ei]; [rewrite Hi; lia|]. unfold advert, advertise_ep. rewrite Ei.
  apply (posts_bind a1 _ c [_]).
  - unfold message_bytes. rewrite Hn. replace (u8 e) with e by (symmetry; apply wrap_small; unfold in_width; lia).
    apply (posts_send a1 c ([253; 0; 0; e] ++ rev (lit name) ++ replicate 8 0)); [done|]. rewrite <- Hn. done.
  - intros a2 Hl2. cbn [ool_info join]. rewrite (aget_at _ _ _ (proj1 He) Ei). run.
    replace (u8 e) with e by (symmetry; apply wrap_small; unfold in_width; lia). by apply posts_send.
Qed.

Lemma posts_advertise a c : link a -> length (c_info c) = 32%nat -> posts a (apple_sep_sim_advertise_eps (join a c)) c (adverts (c_info c)).
Proof.
  intros Hl Hi. refine (posts_adverts c sep_eps _ Hi a (mret (join a c)) [] (posts_none a c Hl)).
  repeat (apply Forall_cons; split; [by vm_compute|]). by apply Forall_nil.
Qed.

(** ** Key store *)

Hypothesis sha256_len : forall b, length (sha256 b) = 32%nat.

Lemma dma_read_len m a n : 0 <= n -> zlen (dma_read m a n) = n.
Proof. intros Hn. unfold dma_read, zlen. rewrite length_fmap, length_seqZ. lia. Qed.

Lemma take_drop_next {A} (l : list A) k n m k' r : k' = (k + n)%nat -> r = (n + m)%nat -> take r (drop k l) = take n (drop k l) ++ take m (drop k' l).
Proof. intros -> ->. rewrite <- drop_drop. symmetry. apply take_take_drop. Qed.

(** The part of the header that is hashed. *)
Definition hashed (req : bytes) : bytes := le_split 4 1 ++ take 8 (drop 0x18 req) ++ replicate 4 0 ++ take 0x28 (drop 0x24 req).

Lemma hashed_len req : 0x4C <= zlen req -> zlen (hashed req) = 0x38.
Proof. unfold hashed, zlen. rewrite !length_app, !length_take, !length_drop, length_le_split, length_replicate. lia. Qed.

Lemma slice_of (l : bytes) k n : 0 <= k -> 0 <= n -> k + n <= zlen l -> slice l k n = Done (take (Z.to_nat n) (drop (Z.to_nat k) l)).
Proof. intros. unfold slice. by rewrite !(proj2 (Z.leb_le _ _)) by lia. Qed.

Lemma slice_mid (a b c l : bytes) k n : l = a ++ b ++ c -> k = zlen a -> n = zlen b -> slice l k n = Done b.
Proof. intros -> -> ->. apply slice_at. Qed.

Lemma resp_header_run req : 0x4C <= zlen req ->
  resp_header req = Done ((le_split 4 0x50 ++ replicate 16 0) ++ hashed req ++ replicate 8 0).
Proof.
  intros Hl. unfold resp_header. rewrite !slice_of by lia. cbn [mbind outcome_bind].
  assert (take 0x28 (drop 0x24 req) = take 8 (drop 0x24 req) ++ take 8 (drop 0x2C req) ++ take 4 (drop 0x34 req) ++ take 0x14 (drop 0x38 req)) as E.
  { by rewrite (take_drop_next req 0x24 8 0x20 0x2C), (take_drop_next req 0x2C 8 0x18 0x34), (take_drop_next req 0x34 4 0x14 0x38). }
  unfold hashed. rewrite E. by rewrite <- !(assoc_L (++)).
Qed.

Lemma keystore_resp_run a c msg req bd b : link a -> 0x4C <= zlen req -> c_ool c !! 18%nat = Some b ->
  posts a (hdr ← resp_header req; apple_sep_sim_keystore_send_ipc_resp (join a c) msg (hdr ++ bd))
    (c <| c_mem ::= fun m => dma_write m (out_addr b) (response req bd) |>)
    [message_bytes (field msg 0 1) (field msg 1 1 .| 0x80) (field msg 2 1) 0 (u32 ((0x54 + zlen bd) .<< 16))].
Proof.
  intros Hl Hr Hb. rewrite resp_header_run by done. run. pose proof (hashed_len req Hr) as Hh.
  set (pre := le_split 4 0x50 ++ replicate 16 0). replace ((pre ++ hashed req ++ replicate 8 0) ++ bd) with (pre ++ hashed req ++ replicate 8 0 ++ bd)
    by (by rewrite <- !(assoc_L (++))).
  assert (apple_sep_sim_gen_sks_hash (pre ++ hashed req ++ replicate 8 0 ++ bd) = Done (sha256 (hashed req ++ bd))) as Eh.
  { unfold apple_sep_sim_gen_sks_hash, load_le. set (buf := pre ++ _).
    rewrite (slice_mid pre (le_split 4 1) ((take 8 (drop 0x18 req) ++ replicate 4 0 ++ take 0x28 (drop 0x24 req)) ++ replicate 8 0 ++ bd) buf 0x14 4) by done.
    change (le_combine <$> Done (le_split 4 1)) with (Done 1). run. change (1 =? 2) with false. cbn match.
    rewrite (slice_mid pre (hashed req) (replicate 8 0 ++ bd) buf 0x14 0x38) by done. run. 
    rewrite (slice_mid (pre ++ hashed req ++ replicate 8 0) bd []).
    - run. unfold zlen. by rewrite sha256_len.
    - unfold buf. by rewrite app_nil_r, <- !(assoc_L (++)).
    - rewrite !zlen_app, Hh. done.
    - unfold buf. rewrite !zlen_app, Hh. change (zlen pre) with 0x14. change (zlen (replicate 8 0)) with 8. unfold KEYSTORE_IPC_HEADER_SIZE. lia. }
  assert (blit (pre ++ hashed req ++ replicate 8 0 ++ bd) 4 (take 16 (sha256 (hashed req ++ bd))) = Done (response req bd)) as Eb.
  { assert (length (take 16 (sha256 (hashed req ++ bd))) = 16%nat) as E16 by (rewrite length_take, sha256_len; lia).
    etrans; [apply (blit_at (le_split 4 0x50) (replicate 16 0 ++ hashed req ++ replicate 8 0 ++ bd))|].
    - rewrite zlen_app. unfold zlen. rewrite E16, length_replicate. lia.
    - rewrite E16. done. }
  unfold apple_sep_sim_keystore_send_ipc_resp. rewrite Eh. run. rewrite Eb. run. cbn [ool_state join]. rewrite (aget_at _ EP_KEYSTORE _ ltac:(done) Hb). run.
  assert (zlen (response req bd) = 0x54 + zlen bd) as El.
  { unfold response. fold (hashed req). rewrite !zlen_app, Hh. unfold zlen. rewrite length_take, sha256_len, length_le_split, length_replicate. lia. }
  rewrite El.
  exact (posts_message a (c <| c_mem ::= fun m => dma_write m (out_addr b) (response req bd) |>) (field msg 0 1) (field msg 1 1 .| 0x80) (field msg 2 1) 0 _ Hl).
Qed.

Lemma resp_body_run code req : 0x4C <= zlen req -> (code = 4 -> 0x64 <= zlen req) ->
  resp_body code req = (fun b => Done b) <$> body code req.
Proof.
  intros Hl H4. unfold resp_body.
  repeat match goal with |- context [code =? ?k] => destruct (Z.eqb_spec code k) as [->|]; [try done|] end; cbn [orb].
  - unfold load_le. by rewrite slice_of by lia.
  - unfold body. repeat case_match; done.
Qed.

Lemma body_len code req bd : body code req = Some bd -> zlen bd <= 24.
Proof. unfold body. intros E. repeat case_match; try done; by injection E as <-. Qed.

Lemma resp_body_none code req : body code req = None -> resp_body code req = None.
Proof.
  intros Hb. unfold resp_body. repeat match goal with |- context [code =? ?k] => destruct (Z.eqb_spec code k) as [->|]; [done|] end. done.
Qed.

Lemma code_land t : t .& KEYSTORE_MSG_TAG_CODE_MASK = t mod 128.
Proof. unfold KEYSTORE_MSG_TAG_CODE_MASK. exact (Z.land_ones t 7 ltac:(done)). Qed.

Lemma keystore_reacts a c msg c' l : link a -> field msg 0 1 = 18 -> reaction c msg c' l -> 
  posts a (apple_sep_sim_handle_keystore_msg (join a c) msg) c' l.
Proof.
  intros Hl He Hr. unfold apple_sep_sim_handle_keystore_msg. rewrite code_land. cbn [ool_state memory join].
  inversion Hr; try lia; subst; clear Hr;
    match goal with Hb : c_ool _ !! 18%nat = Some _ |- _ => rewrite (aget_at _ EP_KEYSTORE _ ltac:(done) Hb) end; run.
  - unfold ks_size. rewrite resp_body_run by (rewrite dma_read_len by lia; done).
    match goal with Hb : body _ _ = Some _ |- _ => rewrite Hb; pose proof (body_len _ _ _ Hb) end. cbn [fmap option_fmap option_map].
    pose proof (keystore_resp_run a c msg (dma_read (c_mem c) (in_addr b) (field msg 6 2)) bd b Hl) as K.
    rewrite (wrap_small 32 ((0x54 + zlen bd) .<< 16)) in K by (rewrite Z.shiftl_mul_pow2 by lia; unfold in_width, zlen in *; lia).
    rewrite He in K. apply K; [rewrite dma_read_len; lia|done].
  - match goal with Hc : _ mod 128 = 8 |- _ => rewrite Hc end. cbn [resp_body]. rewrite He. by apply posts_message.
  - unfold ks_size. match goal with Hb : body _ _ = None |- _ => rewrite (resp_body_none _ _ Hb) end.
    rewrite (proj2 (Z.eqb_neq _ _)) by done. rewrite He.
    exact (posts_message a (c <| c_mem ::= fun m => dma_write m (out_addr b) (dma_read (c_mem c) (in_addr b) (field msg 6 2)) |>) 18 (field msg 1 1 .| 0x80) (field msg 2 1) 0 _ Hl).
Qed.

(** Comparisons of a number that is known, or known to be none of these. *)
Ltac decide_op := repeat match goal with |- context [?x =? ?k] => first
  [rewrite (proj2 (Z.eqb_eq x k)) by lia | rewrite (proj2 (Z.eqb_neq x k)) by lia]; cbn match end.

Lemma ack_posts a c msg d : link a -> field msg 0 1 = 0 ->
  posts a (apple_sep_sim_control_send_ack (join a c) (sep_msg msg) 0 d) c [message_bytes 0 (field msg 1 1) 1 0 d].
Proof.
  intros Hl He. unfold apple_sep_sim_control_send_ack, apple_sep_sim_message_reply. cbn [ep tag sep_msg]. rewrite He. by apply posts_message.
Qed.

Lemma control_reacts a c msg c' l : link a -> field msg 0 1 = 0 -> reaction c msg c' l ->
  posts a (apple_sep_sim_handle_control_msg (join a c) (sep_msg msg)) c' l.
Proof.
  intros Hl He Hr. unfold apple_sep_sim_handle_control_msg. cbn [op sep_msg param data].
  unfold CONTROL_OP_NOP, CONTROL_OP_SET_OOL_IN_ADDR, CONTROL_OP_SET_OOL_OUT_ADDR, CONTROL_OP_SET_OOL_IN_SIZE, CONTROL_OP_SET_OOL_OUT_SIZE,
    CONTROL_OP_GET_SECURITY_MODE, CONTROL_OP_SELF_TEST, CONTROL_OP_ERASE_INSTALL.
  inversion Hr; try lia; subst; clear Hr.
  - match goal with Ho : _ \/ _ |- _ => destruct Ho end; decide_op; by apply ack_posts.
  - decide_op. by apply ack_posts.
  - assert (field msg 2 1 = 2 \/ field msg 2 1 = 3 \/ field msg 2 1 = 4 \/ field msg 2 1 = 5) as Ho by lia.
    unfold apple_sep_sim_set_ool_in_addr, apple_sep_sim_set_ool_out_addr, apple_sep_sim_set_ool_in_size, apple_sep_sim_set_ool_out_size.
    destruct Ho as [Ho|[Ho|[Ho|Ho]]]; rewrite Ho in *; cbn match; decide_op;
      rewrite (upd_ool_run a c (field msg 3 1) _ b) by done; run; by apply ack_posts.
  - decide_op. unfold erase_install. apply (posts_bind a _ c [_]); [by apply ack_posts|]. intros a1 Hl1.
    match goal with Hd : art_header = Some _ |- _ => rewrite Hd end. rewrite (proj2 (Z.leb_le _ _)) by done. cbn [c_assert mbind outcome_bind].
    cbn [ool_state join]. match goal with Hb : c_ool c !! 2%nat = Some _ |- _ => rewrite (aget_at _ EP_ART_STORAGE _ ltac:(done) Hb) end. run.
    exact (posts_message a1 (c <| c_mem ::= fun m => dma_write m (out_addr b) der |>) 2 0 20 0 0 Hl1).
  - decide_op. by apply posts_none.
Qed.

Lemma bootstrap_reacts a c msg c' l : link a -> field msg 0 1 = 255 -> reaction c msg c' l ->
  posts a (apple_sep_sim_handle_bootstrap_msg (join a c) (sep_msg msg)) c' l.
Proof.
  intros Hl He Hr. unfold apple_sep_sim_handle_bootstrap_msg. cbn [op sep_msg param tag].
  unfold BOOTSTRAP_OP_PING, BOOTSTRAP_OP_GET_STATUS, BOOTSTRAP_OP_GENERATE_NONCE, BOOTSTRAP_OP_GET_NONCE_WORD, BOOTSTRAP_OP_BOOT_TZ0,
    BOOTSTRAP_OP_BOOT_IMG4, BOOTSTRAP_OP_OPCODE_16.
  inversion Hr; try lia; subst; clear Hr; decide_op; try by apply posts_message.
  - exact (posts_message a (c <| c_drawn ::= S |>) 255 _ _ _ _ Hl).
  - exact (posts_message a (c <| c_drawn ::= S |>) 255 _ _ _ _ Hl).
  - exact (posts_message a (c <| c_rsep := field msg 3 1 =? 1 |> <| c_status := 2 |>) 255 _ _ _ _ Hl).
  - match goal with Hp : _ = (_ =? 1) |- _ => rewrite <- Hp end. cbn [rsep join]. rewrite eqb_reflx. cbn [c_assert mbind outcome_bind].
    match goal with |- posts _ (?x ≫= _) ?y _ => apply (posts_bind a x y [_]) end; [by apply posts_message|]. intros a1 Hl1.
    match goal with |- posts _ (?x ≫= _) ?y _ => apply (posts_bind a1 x y [_]) end; [by apply posts_message|]. intros a2 Hl2. by apply posts_advertise.
  - by apply posts_none.
Qed.

Lemma handle_reacts a c msg c' l : link a -> reaction c msg c' l -> posts a (handle_message (join a c) msg) c' l.
Proof.
  intros Hl Hr. unfold handle_message, EP_CONTROL, EP_ART_STORAGE, EP_XART_SLAVE, EP_KEYSTORE, EP_XART_MASTER, EP_L4INFO, EP_BOOTSTRAP.
  destruct (Z.eqb_spec (field msg 0 1) 0) as [E|?]; [by apply control_reacts|].
  destruct (Z.eqb_spec (field msg 0 1) 18) as [E|?]; [rewrite E; cbn match; by apply keystore_reacts|].
  destruct (Z.eqb_spec (field msg 0 1) 255) as [E|?]; [rewrite E; cbn match; by apply bootstrap_reacts|].
  inversion Hr; try lia; subst.
  - match goal with Ho : _ \/ _ |- _ => destruct Ho as [E|E] end; rewrite E; cbn match;
      unfold apple_sep_sim_handle_xart_msg, apple_sep_sim_xart_send_ack, apple_sep_sim_message_reply; cbn [ep tag sep_msg]; rewrite E; by apply posts_message.
  - decide_op. unfold apple_sep_sim_handle_l4info. cbn [ool_state join].
    match goal with Hb : c_ool c !! 0%nat = Some _ |- _ => rewrite (aset_at _ EP_CONTROL _ _ ltac:(done) Hb) end. run.
    match goal with |- posts _ _ ?x _ => exact (posts_none a x Hl) end.
  - decide_op. destruct (field msg 0 1 =? 2); by apply posts_none.
Qed.

(** ** The loop *)

Lemma handle_delivered s msg n : length msg = 16%nat -> handle_message s (delivered msg n) = handle_message s msg.
Proof. intros Hm. do 16 (destruct msg as [|? msg]; [done|]). by destruct msg. Qed.

Lemma recv_link a c msg rest : link a -> iop_in a = msg :: rest -> exists a' n,
  apple_a7iop_recv_iop (join a c) = Done (Some (delivered msg n), join a' c) /\ length msg = 16%nat /\ link a' /\ iop_in a' = rest /\ ap_in a' = ap_in a.
Proof.
  intros [Hi Hin Hout Hu] Hb. unfold apple_a7iop_recv_iop, apple_a7iop_mailbox_recv_iop. cbn [a7iop sep_a7iop parent_obj join]. rewrite Hin.
  pose proof (wf_inbox _ (inv_wf _ Hi IOP)) as Hlen. unfold iop_in in Hb. rewrite Hb in Hlen. apply Forall_cons in Hlen as [Hm _].
  destruct (recv_ok (mboxes a) IOP msg rest Hi Hu Hb) as (p & E & Hp & Hr & Hu' & Hc). rewrite E. run.
  exists (a <| mboxes := p |>), (count (box (mboxes a) IOP)). specialize (Hc AP ltac:(done)).
  split_and!; [done|done| |exact Hr|exact (f_equal inbox Hc)].
  split; [exact Hp|rewrite <- Hin; exact (f_equal iop_dir_en Hc)| |exact Hu'].
  etrans; [exact (recv_dirs _ _ _ _ _ _ Hi Hu Hb E)|exact Hout].
Qed.

Lemma loop_reacts msgs : forall fuel a c c' l, link a -> iop_in a = msgs -> reactions c msgs c' l -> (length msgs <= fuel)%nat ->
  exists a', apple_sep_sim_handle_messages fuel (join a c) = Done (join a' c') /\ link a' /\ iop_in a' = [] /\ ap_in a' = ap_in a ++ l.
Proof.
  induction msgs as [|msg msgs IH]; intros fuel a c c' l Hl Hb Hr Hf; inversion Hr; subst.
  - exists a. rewrite app_nil_r. split_and!; try done. unfold iop_in in Hb.
    destruct fuel; cbn [apple_sep_sim_handle_messages]; unfold apple_a7iop_mailbox_is_empty, inbox_empty; cbn [a7iop sep_a7iop parent_obj join];
      by rewrite Hb, orb_true_r.
  - destruct fuel as [|fuel]; [cbn in Hf; lia|]. destruct (recv_link a c msg msgs Hl Hb) as (a1 & n & E & Hm & Hl1 & Hb1 & Ho1).
    cbn [apple_sep_sim_handle_messages]. unfold apple_a7iop_mailbox_is_empty, inbox_empty. cbn [a7iop sep_a7iop parent_obj join].
    unfold iop_in in Hb. rewrite Hb, (l_under _ Hl). cbn [orb]. rewrite E. run. rewrite handle_delivered by done.
    match goal with R : reaction _ _ _ _ |- _ => destruct (handle_reacts a1 _ _ _ _ Hl1 R) as (a2 & -> & Hl2 & Hb2 & Ho2) end. run.
    match goal with R : reactions _ msgs _ _ |- _ => destruct (IH fuel a2 _ _ _ Hl2 (eq_trans Hb2 Hb1) R) as (a3 & E3 & Hl3 & Hb3 & Ho3) end;
      [cbn in Hf; lia|].
    exists a3. rewrite Ho3, Ho2, Ho1, (assoc_L (++)). done.
Qed.

(** C8: every message is answered.  When both directions of the link are open, the handler
    of the mailbox takes the messages of the host from it one after the other and ends with
    the mailbox empty; each has its reaction on the state, the later ones on the state the
    earlier ones left, and what goes back to the host is what the reactions say, in order
    and behind what was waiting there. *)
Theorem sep_answers fuel s c l : link (a7iop s) -> reactions (core_of s) (iop_in (a7iop s)) c l -> (length (iop_in (a7iop s)) <= fuel)%nat ->
  exists s', apple_sep_sim_handle_messages fuel s = Done s' /\ core_of s' = c /\ link (a7iop s') /\ iop_in (a7iop s') = [] /\
    ap_in (a7iop s') = ap_in (a7iop s) ++ l.
Proof.
  intros Hl Hr Hf. destruct (loop_reacts _ fuel _ _ _ _ Hl eq_refl Hr Hf) as (a' & E & Hl' & Hb & Ho).
  exists (join a' c). split_and!; try done; [by destruct s|by destruct c].
Qed.

(** ** What the host reads *)

(** The check of the host on a response. *)
Definition verifies (resp : bytes) : Prop := take 16 (drop 4 resp) = take 16 (sha256 (take 0x38 (drop 0x14 resp) ++ drop 0x54 resp)).

Lemma dma_read_write m a bs : (forall x, a <= x < a + zlen bs -> dma_valid x 1 = true) -> dma_read (dma_write m a bs) a (zlen bs) = bs.
Proof.
  intros Hv. apply list_eq. intros i. unfold dma_read. rewrite list_lookup_fmap. destruct (decide (i < length bs)%nat) as [Hi|Hi].
  - rewrite lookup_seqZ_lt by (unfold zlen; lia). cbn. unfold dma_write. rewrite Hv by (unfold zlen; lia).
    replace (Z.to_nat (a + Z.of_nat i - a)) with i by lia. destruct (lookup_lt_is_Some_2 bs i Hi) as [b ->]. by rewrite (proj2 (Z.leb_le _ _)) by lia.
  - rewrite lookup_seqZ_ge by (unfold zlen; lia). cbn. symmetry. apply lookup_ge_None_2. lia.
Qed.

Lemma response_parts req bd : 0x4C <= zlen req ->
  take 4 (response req bd) = le_split 4 0x50 /\ take 16 (drop 4 (response req bd)) = take 16 (sha256 (hashed req ++ bd)) /\
  take 0x38 (drop 0x14 (response req bd)) = hashed req /\ drop 0x54 (response req bd) = bd.
Proof.
  intros Hr. pose proof (hashed_len req Hr) as Hh. unfold zlen in Hh. assert (length (take 16 (sha256 (hashed req ++ bd))) = 16%nat) as E16 by (rewrite length_take, sha256_len; lia).
  unfold response. fold (hashed req). set (h := take 16 _) in *. split_and!.
  - done.
  - rewrite (drop_app_length' (le_split 4 0x50)) by done. by rewrite (take_app_length' h).
  - rewrite (assoc_L (++)). rewrite (drop_app_length' (le_split 4 0x50 ++ h)) by (rewrite length_app, E16; done). rewrite take_app_length' by lia. done.
  - replace (le_split 4 0x50 ++ h ++ hashed req ++ replicate 8 0 ++ bd) with ((le_split 4 0x50 ++ h ++ hashed req ++ replicate 8 0) ++ bd)
      by (by rewrite <- !(assoc_L (++))).
    apply drop_app_length'. rewrite !length_app, E16, length_le_split, length_replicate. lia.
Qed.


(** ** Boot *)

Lemma open_boxes_inv p : mailboxes_inv p -> mailboxes_inv (upd AP open_box (upd IOP open_box p)).
Proof. intros Hp. do 2 (apply inv_plain; [|done|by intros []|by intros []]). done. Qed.

Definition reset_infos (l : list AppleSEPSimOOLInfo) : list AppleSEPSimOOLInfo :=
  foldl (fun l e => <[Z.to_nat e := reset_info e]> l) l apple_sep_sim_eps.

Lemma set_infos_run l : length l = 32%nat -> set_infos l = Done (reset_infos l) /\ length (reset_infos l) = 32%nat.
Proof.
  intros Hl. do 32 (destruct l as [|? l]; [done|]). by destruct l.
Qed.

Lemma reset_posts a c : mailboxes_inv (mboxes a) -> underflow (box (mboxes a) IOP) = false -> length (c_info c) = 32%nat ->
  posts a (apple_sep_sim_reset_hold (join a c)) (c <| c_info := reset_infos (c_info c) |> <| c_status := 1 |>) [message_bytes 255 0 210 0 1].
Proof.
  intros Hi Hu Hl. unfold apple_sep_sim_reset_hold. cbv zeta. destruct (set_infos_run _ Hl) as [E _].
  set (a1 := mkA7IOP (upd AP open_box (upd IOP open_box (mboxes a))) CPU_STATUS_IDLE (cpu_ctrl a)).
  assert (link a1) as Hl1 by (split; [by apply open_boxes_inv|done|done|exact Hu]).
  match goal with |- posts _ (set_infos ?x ≫= _) _ _ => change x with (c_info c) end. rewrite E. run.
  destruct (posts_send a1 (c <| c_info := reset_infos (c_info c) |> <| c_status := 1 |>) (message_bytes 255 0 210 0 1) Hl1 eq_refl) as (a2 & E2 & H2).
  exists a2. split; [exact E2|exact H2].
Qed.

(** The host sends. *)
Lemma host_sends a c msg : link a -> length msg = 16%nat -> exists a',
  apple_a7iop_send_iop (join a c) msg = Done (join a' c) /\ link a' /\ iop_in a' = iop_in a ++ [msg] /\ ap_in a' = ap_in a.
Proof.
  intros [Hi Hin Hout Hu] Hm. unfold apple_a7iop_send_iop, on_boxes, apple_a7iop_mailbox_send_iop. cbn [a7iop sep_a7iop parent_obj join]. rewrite Hin.
  destruct (send_ok (mboxes a) IOP msg Hi Hm) as (p & E & Hp & Hb & Hu' & _ & Hc). rewrite E. run.
  exists (a <| mboxes := p |>). specialize (Hc AP ltac:(done)). split; [done|]. split; [|split; [exact Hb|exact (f_equal inbox Hc)]].
  split; [exact Hp|rewrite <- Hin; exact (f_equal iop_dir_en Hc)| |etrans; [exact Hu'|exact Hu]].
  etrans; [exact (proj2 (send_dirs _ _ _ _ Hi Hm E))|exact Hout].
Qed.

(** The names of the end points and the pages of their buffers. *)
Definition boot_adverts : list AppleA7IOPMessage :=
  flat_map (fun '(e, name, inp, outp) =>
    [[253; 0; 0; e] ++ rev (lit name) ++ replicate 8 0; [253; 0; 1; e; inp; inp; outp; outp] ++ replicate 8 0])
    [(0, "cntl", 2, 2); (1, "log ", 0, 1); (2, "arts", 1, 1); (3, "artr", 1, 1); (10, "scrd", 2, 2); (16, "xars", 2, 2); (18, "sks ", 2, 2); (19, "xarm", 2, 2)]%string.

Lemma reset_adverts l : length l = 32%nat -> adverts (reset_infos l) = boot_adverts.
Proof. intros Hl. do 32 (destruct l as [|? l]; [done|]). by destruct l. Qed.

Lemma u8_field x : 0 <= x < 256 -> u8 x = x.
Proof. intros Hx. by apply wrap_small. Qed.

(** C26: the enclave boots.  A reset announces the bootstrap status; when the host then boots
    the trust zone and the image with the same kind of firmware, the enclave accepts both,
    says that it is alive, and advertises each of its end points with its name and with the
    pages of its buffers.  It is active then and knows its kind of firmware. *)
Theorem sep_boots s t1 t2 p : mailboxes_inv (mboxes (a7iop s)) -> underflow (box (mboxes (a7iop s)) IOP) = false ->
  iop_in (a7iop s) = [] -> length (ool_info s) = 32%nat -> 0 <= t1 < 256 -> 0 <= t2 < 256 -> 0 <= p < 256 ->
  exists s', (s ← apple_sep_sim_reset_hold s;
              s ← apple_a7iop_send_iop s (message_bytes 255 t1 5 p 0);
              s ← apple_a7iop_send_iop s (message_bytes 255 t2 6 p 0);
              apple_sep_sim_handle_messages 2 s) = Done s' /\
    status s' = 2 /\ rsep s' = (p =? 1) /\
    ap_in (a7iop s') = ap_in (a7iop s) ++
      [message_bytes 255 0 210 0 1; message_bytes 255 t1 105 0 0; message_bytes 255 t2 106 0 0; message_bytes 0 0 13 0 0] ++ boot_adverts.
Proof.
  intros Hi Hu Hin Hl Ht1 Ht2 Hp. set (a := a7iop s) in *. replace s with (join a (core_of s)) by (by destruct s). set (c := core_of s) in *.
  destruct (reset_posts a c Hi Hu Hl) as (a1 & -> & Hl1 & Hin1 & Ho1). run. rewrite Hin in Hin1.
  match goal with |- context [join a1 ?x] => set (c1 := x) end.
  destruct (host_sends a1 c1 (message_bytes 255 t1 5 p 0) Hl1 eq_refl) as (a2 & -> & Hl2 & Hin2 & Ho2). run.
  destruct (host_sends a2 c1 (message_bytes 255 t2 6 p 0) Hl2 eq_refl) as (a3 & -> & Hl3 & Hin3 & Ho3). run. rewrite Hin2, Hin1 in Hin3. cbn [app] in Hin3.
  assert (forall t o, 0 <= t < 256 -> field (message_bytes 255 t o p 0) 1 1 = t /\ field (message_bytes 255 t o p 0) 3 1 = p) as Hfld.
  { intros t o Ht. split; [rewrite <- (u8_field t Ht) at 2|rewrite <- (u8_field p Hp) at 2]; exact (Z.lor_0_r _). }
  destruct (Hfld t1 5 Ht1) as [Et1 Ep1], (Hfld t2 6 Ht2) as [Et2 Ep2].
  pose proof (r_tz0 c1 (message_bytes 255 t1 5 p 0) eq_refl eq_refl) as R1. rewrite Et1, Ep1 in R1.
  match type of R1 with reaction _ _ ?x _ => set (c2 := x) in R1 end.
  pose proof (r_img4 c2 (message_bytes 255 t2 6 p 0) eq_refl eq_refl) as R2. rewrite Et2, Ep2 in R2.
  specialize (R2 eq_refl (proj2 (set_infos_run _ Hl))).
  destruct (loop_reacts _ 2 a3 c1 _ _ Hl3 Hin3 (rs_more _ _ _ _ _ _ _ R1 (rs_more _ _ _ _ _ _ _ R2 (rs_end _))) ltac:(done)) as (a4 & E & _ & _ & Ho4).
  exists (join a4 c2). split; [exact E|]. split; [done|]. split; [done|].
  change (ap_in (a7iop (join a4 c2))) with (ap_in a4). rewrite Ho4, Ho3, Ho2, Ho1.
  change (c_info c2) with (reset_infos (ool_info s)). rewrite (reset_adverts _ Hl). rewrite <- !(assoc_L (++)). by rewrite app_nil_r.
Qed.
End SepSpec.

(** ** Examples *)

#[local] Instance all_memory : DmaMemory := {| dma_valid := fun _ _ => true; dma_memory_map := fun _ _ l => l |}.
#[local] Instance plain_libs : SepLibs := {| sha256 := fun b => le_split 32 (zlen b); art_header := Some [0x30; 0]; guest_random := fun n => Z.of_nat n |}.

Lemma plain_len b : length (sha256 b) = 32%nat.
Proof. apply length_le_split. Qed.

Definition fresh : core := mkCore false 0 (replicate 32 (mkOOLInfo 0 0 0 0)) (<[18%nat := mkOOLState 0x1000 0 0x2000 0]> (replicate 32 (mkOOLState 0 0 0 0)))
  (fun a => a mod 256) 0.
Definition cold : AppleA7IOP := mkA7IOP (mbox_init "SEP" (Some false)) 0 0.

Lemma link_example : link (cold <| mboxes ::= fun p => upd AP open_box (upd IOP open_box p) |>).
Proof. split; [|done..]. exact (open_boxes_inv _ (mbox_init_inv "SEP" (Some false))). Qed.

(** A ping, an address for the buffer of the debug end point, and a wrapped key. *)
Lemma sep_answers_witness : exists s s', iop_in (a7iop s) = [message_bytes 255 7 1 0 0; message_bytes 0 8 2 5 0x10; message_bytes 18 8 3 0 0] /\
  apple_sep_sim_handle_messages 3 s = Done s' /\ iop_in (a7iop s') = [] /\ (ool_state s' !! 5%nat) = Some (mkOOLState 0x10000 0 0 0) /\
  ap_in (a7iop s') = ap_in (a7iop s) ++ [message_bytes 255 7 101 0 0; message_bytes 0 8 1 0 0; message_bytes 18 0x88 3 0 0].
Proof.
  destruct (host_sends _ fresh (message_bytes 255 7 1 0 0) link_example eq_refl) as (a1 & _ & L1 & I1 & _).
  destruct (host_sends a1 fresh (message_bytes 0 8 2 5 0x10) L1 eq_refl) as (a2 & _ & L2 & I2 & _).
  destruct (host_sends a2 fresh (message_bytes 18 8 3 0 0) L2 eq_refl) as (a3 & _ & L3 & I3 & _). rewrite I2, I1 in I3.
  pose proof (r_ping fresh (message_bytes 255 7 1 0 0) eq_refl eq_refl) as R1.
  pose proof (r_ool fresh (message_bytes 0 8 2 5 0x10) (mkOOLState 0 0 0 0) eq_refl ltac:(by vm_compute) ltac:(by vm_compute) eq_refl) as R2.
  match type of R2 with reaction _ _ ?x _ => pose proof (r_key_wrap x (message_bytes 18 8 3 0 0) (mkOOLState 0x1000 0 0x2000 0) eq_refl eq_refl eq_refl) as R3 end.
  pose proof (rs_more _ _ _ _ _ _ _ R1 (rs_more _ _ _ _ _ _ _ R2 (rs_more _ _ _ _ _ _ _ R3 (rs_end _)))) as R.
  destruct (sep_answers plain_len 3 (join a3 fresh) _ _ L3 ltac:(cbn [a7iop sep_a7iop parent_obj join]; rewrite I3; exact R)
    ltac:(cbn [a7iop sep_a7iop parent_obj join]; rewrite I3; cbn; lia)) as (s' & E & Ec & _ & Hi & Ho).
  exists (join a3 fresh), s'. split; [exact I3|]. split; [exact E|]. split; [exact Hi|]. split; [|exact Ho].
  exact (f_equal (fun c => c_ool c !! 5%nat) Ec).
Defined.


Lemma sep_boots_witness : exists s', (s ← apple_sep_sim_reset_hold (join cold fresh);
    s ← apple_a7iop_send_iop s (message_bytes 255 1 5 1 0);
    s ← apple_a7iop_send_iop s (message_bytes 255 2 6 1 0);
    apple_sep_sim_handle_messages 2 s) = Done s' /\ status s' = 2 /\ rsep s' = true.
Proof.
  destruct (sep_boots plain_len (join cold fresh) 1 2 1 (mbox_init_inv "SEP" (Some false)) eq_refl eq_refl eq_refl) as (s' & E & Hs & Hr & _); [lia..|].
  exists s'. split; [exact E|]. by split.
Defined.

(** ** Faults *)

Section Faults.
Context `{DmaMemory} `{SepLibs}.
Implicit Types s : AppleSEPSimState.

(** An end point beyond the table ends the emulator. *)
Lemma ool_beyond s t o e d : 2 <= o <= 5 -> 32 <= e < 256 -> apple_sep_sim_handle_control_msg s (mkSEPMessage 0 t o e d) = Abort.
Proof.
  intros Ho He. assert (o = 2 \/ o = 3 \/ o = 4 \/ o = 5) as Hc by lia.
  assert ((e <? SEP_ENDPOINT_MAX) = false) as E by (apply Z.ltb_ge; unfold SEP_ENDPOINT_MAX; lia).
  destruct Hc as [-> | [-> | [-> | ->]]]; unfold apple_sep_sim_handle_control_msg; cbn [op param data Z.eqb Pos.eqb];
    unfold apple_sep_sim_set_ool_in_size, apple_sep_sim_set_ool_in_addr, apple_sep_sim_set_ool_out_size, apple_sep_sim_set_ool_out_addr, upd_ool;
    cbn; by rewrite E.
Qed.

(** An image of the other kind of firmware ends the emulator. *)
Lemma img4_other s t p d : rsep s <> (p =? 1) -> apple_sep_sim_handle_bootstrap_msg s (mkSEPMessage 255 t 6 p d) = Abort.
Proof. intros Hp. unfold apple_sep_sim_handle_bootstrap_msg. cbn. by destruct (rsep s), (p =? 1). Qed.

(** A request of the key store that is shorter than its header is read behind its end. *)
Lemma request_short s msg b : ool_state s !! 18%nat = Some b -> In (field msg 1 1 mod 128) [1; 2; 3; 4; 5; 10; 12; 13; 25; 27] ->
  0 <= field msg 6 2 < 0x4C -> apple_sep_sim_handle_keystore_msg s msg = Oob.
Proof.
  intros Hb Hc Hs. unfold apple_sep_sim_handle_keystore_msg. cbv zeta.
  change (aget (ool_state s) EP_KEYSTORE) with (aget (ool_state s) 18). rewrite (aget_at _ 18 _ ltac:(done) Hb). run.
  change KEYSTORE_MSG_TAG_CODE_MASK with (Z.ones 7). rewrite Z.land_ones by done. change (2 ^ 7) with 128.
  set (req := dma_read _ _ _). assert (zlen req = field msg 6 2) as Hl.
  { unfold zlen, req, dma_read. rewrite length_fmap, length_seqZ. unfold ks_size. lia. }
  assert (resp_header req = Oob) as E.
  { unfold resp_header, slice. rewrite Hl. repeat (case_match; run; try done). repeat match goal with Hx : _ && _ = true |- _ => apply andb_prop in Hx as [_ Hx] end. lia. }
  destruct (resp_body _ req) as [bd|] eqn:Eb; [by rewrite E|].
  exfalso. revert Eb. set (code := field msg 1 1 mod 128) in *. clearbody code.
  destruct Hc as [<- | [<- | [<- | [<- | [<- | [<- | [<- | [<- | [<- | [<- | []]]]]]]]]]]; discriminate.
Qed.

End Faults.

(** The sizes the host gives its buffers are not looked at: the response is written to a
    buffer of none, from a request in a buffer of none. *)
Lemma sizes_unused : exists b s', ool_state (join (cold <| mboxes ::= fun p => upd AP open_box (upd IOP open_box p) |>) fresh) !! 18%nat = Some b /\
  in_size b = 0 /\ out_size b = 0 /\ memory (join cold fresh) (out_addr b) = 0 /\
  handle_message (join (cold <| mboxes ::= fun p => upd AP open_box (upd IOP open_box p) |>) fresh) (message_bytes 18 1 9 0 (0x4C .<< 16)) = Done s' /\
  memory s' (out_addr b) = 0x50.
Proof. eexists _, _. split; [reflexivity|]. do 3 (split; [reflexivity|]). split; [vm_compute; reflexivity|vm_compute; reflexivity]. Qed.
